(* ===== verification/_CoqProject ===== *)
-Q . S2P
Prelude.v
Paths.v
Float64.v
PolicyTypes.v
Blake3.v
Contract.v
Sync.v
Ip.v
NetAddr.v
Broker.v
Sni.v
Gate.v
Compiler.v
Plan.v
Verdict.v
Seccomp.v
Landlock.v
Termination.v
EnvFilter.v
Schema.v
Presets.v
Merge.v
EditRules.v
Edit.v
LimitsSpec.v
Globs.v
Resolve.v
Loader.v
Ledger.v
Capability.v
Fsm.v
Proctrack.v
Lifecycle.v
Session.v
Bytes.v
Sanitizer.v
Redact.v
Ansi.v
Utf8.v
Relay.v
SshProxy.v
Tunnel.v
Tar.v
Snapshot.v
Rollback.v
Undo.v
Seatbelt.v
MacProxy.v
Lint.v
Explain.v
Cgroup.v
Config.v
CredBroker.v
Syscalls.v
Mounts.v
Child.v
