(* ===== verification/Prelude.v ===== *)
(** * Verification library for vetto

    vetto runs an untrusted agent process under a sealed security contract.  A policy
    ([policy/]) is compiled to a contract ([policy_ir/compiler.rs],
    [policy_ir/contract.rs]); the contract is enforced by a backend ([sandbox/]) and by
    a network broker on the host; a state machine ([policy_ir/fsm.rs]) orders the run,
    and a verdict engine ([audit/verdict.rs]) judges it from host facts.  This library
    models that core as executable functions and proves what each part promises.  All
    source paths below are under [src/src/].

    ** Files, in dependency order

    - [Prelude]: results, panics, machine integers, and the string operations of Rust
      the sources use; shared lemmas, tactics and the hint database.
    - [Paths] ([std::path] by components, [lexical_normalize] and the other path
      functions of [policy/types.rs]); [Float64] ([f64] as IEEE binary64); [PolicyTypes]
      ([policy/types.rs]: the [Policy] record, byte and CPU quantities, strictest
      merges, scope tests, deny overlaps).
    - [Blake3] and [Contract] ([policy_ir/contract.rs]): the in-tree hash, the contract
      records, sealing and verification; [Sync] ([policy_ir/sync.rs]): the registry of
      sealed contracts and the manifests sent to workers.
    - [Ip], [NetAddr], [Broker], [Sni] ([sandbox/linux/net_relay.rs],
      [sandbox/linux/debug_guard.rs]): address classes, the request decision,
      resolve-and-connect, and the server-name check of TLS tunnels.  [Relay], the
      CONNECT and SOCKS5 front ends in the sandbox and the request frame between relay
      and broker; [SshProxy], the helper that carries git's ssh through the relay;
      [Tunnel], the two threads that move bytes, as interleaved steps with the quota and
      server-name checks between them.
    - [Gate] and [Compiler] ([policy_ir/compiler.rs]): [authorize_action] against a
      sealed contract, and the two compilers that produce one; [Plan]
      ([policy_ir/mod.rs]): the normalised policy request.
    - [Verdict] ([audit/verdict.rs]), [Seccomp] ([sandbox/linux/seccomp_netblock.rs]),
      [Landlock] ([sandbox/linux/landlock.rs]), [Capability] ([sandbox/capability.rs]).
    - [Seatbelt] ([sandbox/macos/seatbelt.rs]): the generators of the macOS profile,
      with a reader of its text and the last-match rule that give it a meaning;
      [MacProxy] ([sandbox/macos/net_proxy.rs]): the broker of macOS, its policy, its
      pinned connections and the two protocols of its clients.
    - [Termination] ([proctree.rs], [sandbox/killer.rs], [exit_codes.rs], [error.rs]):
      extinction check, deadline killer, exit codes; [EnvFilter]
      ([sandbox/envfilter.rs]); [Ledger] ([audit/ledger.rs], [audit/record.rs]): the
      hash-chained audit file and its records.
    - [Schema], [Presets], [Merge], [Resolve], [Loader] ([policy/loader/],
      [policy/defaults.rs], [policy/presets.rs]): the chain from policy documents to a
      [Policy].  [Schema] holds the raw layers and their conversions, [Presets] the
      built-in presets, [Merge] inheritance and the application of one layer, [Loader]
      the tiers in their order, [Resolve] the resolution of the merged document on a
      host and the FS-ONLY enumeration. [Globs] ([policy/glob_resolve.rs],
      [policy/checker.rs]): path patterns and the checks after loading; [LimitsSpec]
      ([policy/limits_spec.rs]): the [--limits] option.
    - [Fsm] ([policy_ir/fsm.rs]): states, transition table, history, fail-closed.
    - [Proctrack] ([sandbox/linux/proctrack.rs], the root registry of
      [sandbox/handle.rs]): scans of [/proc] and the two process sweeps.
    - [Lifecycle] and [Session] ([sandbox/production/]): a production session from its
      inputs to its result, on Linux: environment, freezing, preparing, spawning; then
      waiting, sweeping, recording and closing.  They compose [Compiler], [Contract],
      [Capability], [Fsm], [EnvFilter], [Proctrack], [Termination], [Ledger] and
      [Verdict] the way the code does.
    - [EditRules] and [Edit] ([policy/edit.rs]): what [vetto allow] and [vetto deny]
      accept, the edit of the policy document, and the transaction that replaces the
      file; [Lint] ([policy/lint.rs]) and [Explain] ([policy/explain.rs]): the rules of
      [vetto policy lint] and the answers of [vetto policy explain --why].
    - [Bytes] (byte strings by offset, character boundaries, UTF-8), [Utf8] (text of
      bytes, lossy decoding); [Sanitizer] ([sanitizer.rs]): redaction of log lines and
      in-place masking; [Redact] and [Ansi] ([pty/redact.rs], [pty/ansi.rs]): the
      streaming redactor of terminal output and the escape-sequence parser around it.
    - [Tar], [Snapshot] ([rescue/snapshot.rs]): the snapshot archive with its readers,
      and the scans of a project on a store of files; [Rollback] ([rescue/rollback.rs]):
      the restore from an archive and its clean-up; [Undo] ([cli/undo.rs],
      [rescue/ephemeral.rs]): which snapshot is rolled back, and the end of a disposable
      session.
    - [Cgroup] ([sandbox/linux/cgroup.rs]): the control group of a session, from its
      search to its clean-up; [Config] ([config.rs] and [Cli::to_run_config_with_global]
      of [cli.rs]): the configuration of a run from options, global file and
      environment; [CredBroker] ([cred_broker.rs]): which variables are kept from the
      agent, and who is answered a header.
    - [Syscalls], a process as a program over the kernel's answers, with the program
      logic for it; [Mounts] ([sandbox/linux/mounts.rs], [vfs_overlays.rs]); [Child]
      (the children of [sandbox/linux/mod.rs], with [limits.rs] and the installation of
      the filter): everything a forked process does until it becomes the agent, in the
      three tiers, with the supervisor and the relay of tier FULL.

    ** How state and effects are represented

    A [&mut self] method returns the new state next to its result; [Result] is [result],
    a panic is [Panic] of [outcome] (or [None] where the only failure is a panic).
    Broker state is the record [BrokerState] (transfer table, answer cache, published
    events); Landlock is a sequence of kernel calls whose history is the state; backends
    are instances of the class [SandboxBackend] and a session is a fold of the calls
    made on one.  A child is a function from the log of its system calls to the log at
    its end; the kernel's answers are a function of the log, and a fork is a call whose
    answer says which of the two processes is followed.  The deadline killer and the
    sweeps work on a host ([WaitKill], [SweepHost]: child, processes, clock); the loader
    reads a host of the class [LoadHost] (kinds, listings, canonical paths, variables);
    what the host shows when a session ends is the record [HostEnd], and the object that
    forks the child is the class [Mechanics].  The policy editor works on an abstract
    TOML document ([TomlEdit] with [TomlLaws]) and on a disk whose operations may fail,
    cleanly or half-way ([EditHost]).  The disk of a rollback is a map from paths, as
    lists of names, to directories, files and links; links hold absolute paths, and a
    scan is a walk with one unit of fuel per object of the disk.  Slicing a [str] off a
    character boundary is a panic.  Integers are [Z] with their width written out where
    the source can wrap, saturate or overflow. Strings are byte strings (UTF-8).

    Code outside the repository is an argument: [ContractCodec] (JSON text and SHA-256)
    with its laws [CodecLaws], the file system ([exists_], [canonicalize]) with
    [FsLaws], the constants of [libc] ([Libc], [LibcLaws]), the resolver, the connection
    attempts, the terminal and the kernel's answers.  Each law states documented
    behaviour and has a concrete instance that the witnesses use.

    Idealisations.  The removals and the writes of a rollback succeed, so its error
    paths are absent.  The counters of a tunnel are sequentially consistent (the code
    uses relaxed atomics), the sum other tunnels record stays below 2^62, and shutting a
    connection down drops what the server has still to send.  A Landlock call carries no
    descriptor: the ruleset meant is the accepted one, of which there is one.  A system
    call that is repeated when a signal interrupts it is its last attempt.  The reader
    of sandbox profiles and the matching of paths in them are defined here after the
    documented behaviour of the macOS sandbox, with trailing slashes of a path ignored;
    a path is written into a profile as its text (the code's display, which is lossy on
    names that are not UTF-8).

    ** What is proved

    - Lifecycle ([Fsm]): every state that is neither a failure nor final was preceded by
      the milestones it needs, no completion with surviving descendants, the effect of
      every transition and of [fail_closed], the simulation of the legacy pipeline by
      the canonical one.
    - Contracts ([Contract], [Blake3], [Sync]): sealing then verifying succeeds; a
      change that verification accepts is a collision of both hashes; the hash equals
      the recursive BLAKE3 tree and does not depend on how input is split; a registered
      contract is never replaced.
    - From policy to decision ([Compiler], [Gate], [Plan]): every compiled contract
      verifies, where compiled write roots lie, that masked secrets stay unreachable
      through the gate, exact conditions of each authorisation.
    - Policy documents ([Merge], [Loader], [Resolve], [Globs], [LimitsSpec], [Presets]):
      later layers never loosen what an earlier one denied or limited (CPU quotas that
      read as NaN apart), lockdown and repository rules are final, inheritance ends;
      what the organisation denies is denied in the policy that loads, the directory of
      the chosen agent apart; the exact resolved roots; in the FS-ONLY tier no read
      grant reaches a secret and no clean file is lost; a loaded policy is well formed.
    - Network ([NetAddr], [Broker], [Sni], [Relay], [Tunnel], [SshProxy]): what an
      admitted request implies, that no forbidden address is dialled for it (an upstream
      proxy is checked once and resolved again, unpinned), quota denial, extraction of
      the server name from every well-formed hello; a client is connected exactly when
      the broker granted its request; a tunnel carries bytes unchanged, in order, and
      stops within its quota; ssh runs through the relay and its command line survives
      the shell.  On macOS ([MacProxy]) a client reaches only hosts the mode allows, at
      addresses outside of an explicitly listed space, and its bytes go there unchanged.
    - Kernel policies ([Seccomp], [Landlock]): the BPF program, run by the BPF machine,
      takes the specified decision on every call and passes the kernel's checker; the
      prepared Landlock rules grant exactly the requested rights, and a successful
      installation is one accepted ruleset that holds them; the macOS profiles
      ([Seatbelt]) of the modes the backend runs decide writes, reads and connections as
      the policy says, whatever characters its paths hold.
    - Children ([Child], [Mounts], [Cgroup]): whatever the kernel answers, the agent's
      image is loaded only by a process that is confined as its tier demands, and any
      other ending is an exit of 125; descriptors are closed exactly; the set-up of a
      control group is complete or undone.
    - Evidence ([Verdict], [Capability]): exactly when an enforcing run is satisfied,
      every failing branch exits 125, a failed preparation is final, nothing is reported
      enforced without evidence.
    - Sessions ([Lifecycle], [Session], [Proctrack], [Termination], [Ledger]): the child
      gets exactly the sealed inputs and an environment without secrets; an untouched
      session starts, a clean one completes, and a result is satisfied exactly when
      tree, deadline, evidence and ledger are proven; every wait and sweep returns and
      signals only the session's own strays; a verified ledger is bound by its last
      hash.
    - Editing and reading policies ([EditRules], [Edit], [Lint], [Explain]): what the
      components of an accepted path cannot be, a network grant is read back as the
      network asked for, an edit changes one array, and whatever operation fails the
      policy file is still deserialisable; what lint guarantees about write roots; an
      explanation agrees with the profile.
    - Configuration ([Config], [CredBroker]): which network the two brokers admit for a
      mode, the round trip of its label, what holds of every accepted configuration; a
      credential is answered only for an allowed domain.
    - Redaction ([Sanitizer], [Redact], [Ansi]): filters never panic on text, keep it
      well formed and change nothing but redacted segments; no known token shape
      survives a sanitized line; the Aho-Corasick automaton reports exactly the patterns
      that end at each offset; a recognised secret is masked to its end; escape
      sequences pass through whatever the chunks; and counterexamples to what streaming
      promises.
    - Snapshots ([Tar], [Snapshot], [Rollback], [Undo]): what is archived is read back;
      a completed snapshot gives the files of the project back whatever happened to it
      under stated conditions (links and empty directories that were there before are
      not kept), and examples of what an undo destroys outside of them; the preview
      reports exactly the changes of files; a failed disposable session leaves nothing;
      an undo takes the newest snapshot of its directory.
    - Arithmetic and scopes ([PolicyTypes]): byte quantities are exact for whole
      amounts, merges are meets, an accepted write lies under its scope.

    ** Bounds and fuel

    Loops that are not structural take fuel: the BLAKE3 loops use the input length (each
    step consumes a byte) and the 64-bit chunk counter's width, the TLS parser the
    buffer length (each step advances), Landlock's ABI negotiation the ABI number (each
    retry lowers it), inheritance one level per built-in profile (each pushes a new
    one), the FS-ONLY enumeration one level per entry of its budget, decimal and
    hexadecimal printing the digit count, the wildcard matcher the product of its
    lengths, the text filters the length of the text, and the automaton its number of
    states (a failure link shortens the label). The killer and the sweeps poll until a
    deadline: one round per poll interval up to the deadline is enough on any clock that
    does not go back.  Waiting without a timeout lasts as long as the child, so no fuel
    is enough for it.  The theorems on these functions are stated on the function itself
    at that fuel, so they also show that it suffices.

    The agent's supervisor runs as long as the agent, so its fuel is a bound on the
    rounds observed, and the theorems on it hold for any.

    ** Not modelled

    The parent's side of a spawn (pipes, id maps, descriptor passing), the pumps and the
    pty, the macOS sandbox below its profile and its broker, the Windows sandbox below
    its backend state, the session lock and the repair receipts of rescue, the parsing
    of arguments by [clap] and the set-up commands, reporting and presentation, and
    diagnostics.  Of the lifecycle, [new_nonce] (an argument), the pipe readers of
    [drain.rs] and the command-line composition [execute_inner].  Of the loader, the
    TOML parser, the embedded profile texts and the glob matcher are arguments; so are,
    of the configuration, the time-outs computed from history. *)

From Stdlib Require Export ZArith Lia Bool String Ascii.
From stdpp Require Export base list strings gmap pretty.


Declare Scope vetto_scope.
Delimit Scope vetto_scope with vetto.
Open Scope Z_scope.
#[global] Arguments String.append : simpl nomatch.
#[global] Arguments String.eqb !_ !_ /.
#[global] Arguments Ascii.eqb !_ !_ /.

(** ** Results: Rust's [Result<A, E>] with the error monad's bind *)

Inductive result (E A : Type) : Type :=
| Ok (a : A)
| Err (e : E).
Arguments Ok {E A} a.
Arguments Err {E A} e.

#[export] Instance result_ret E : MRet (result E) := λ A a, Ok a.
#[export] Instance result_bind E : MBind (result E) :=
  λ A B f r, match r with Ok a => f a | Err e => Err e end.
#[export] Instance result_fmap E : FMap (result E) :=
  λ A B f r, match r with Ok a => Ok (f a) | Err e => Err e end.
#[export] Instance result_eq_dec E A `{EqDecision E, EqDecision A} :
  EqDecision (result E A).
Proof. solve_decision. Defined.

Definition is_ok {E A} (r : result E A) : bool :=
  match r with Ok _ => true | Err _ => false end.
Definition is_err {E A} (r : result E A) : bool := negb (is_ok r).

Definition ok_or {E A} (o : option A) (e : E) : result E A :=
  match o with Some a => Ok a | None => Err e end.

(** [iter().try_for_each(f)]: stop at the first error. *)
Fixpoint try_each {E A} (f : A → result E unit) (l : list A) : result E unit :=
  match l with
  | [] => Ok tt
  | x :: l => match f x with Ok _ => try_each f l | Err e => Err e end
  end.

(** ** Computations that may panic *)

Inductive outcome (A : Type) : Type :=
| Done (a : A)
| Panic.
Arguments Done {A} a.
Arguments Panic {A}.

#[export] Instance outcome_ret : MRet outcome := λ A a, Done a.
#[export] Instance outcome_bind : MBind outcome :=
  λ A B f o, match o with Done a => f a | Panic => Panic end.

Lemma done_bind {A B} (a : A) (f : A → outcome B) : (Done a ≫= f) = f a.
Proof. done. Qed.

(** ** Machine integers *)

Definition u8_max : Z := 2 ^ 8 - 1.
Definition u16_max : Z := 2 ^ 16 - 1.
Definition u32_max : Z := 2 ^ 32 - 1.
Definition u64_max : Z := 2 ^ 64 - 1.

Definition wrap (w x : Z) : Z := x mod 2 ^ w.
Definition in_range (w x : Z) : Prop := 0 ≤ x < 2 ^ w.

(** [x.checked_mul(y)], [x.saturating_add(y)] on u64. *)
Definition checked_mul_u64 (x y : Z) : option Z :=
  if x * y <=? u64_max then Some (x * y) else None.
Definition saturating_add_u64 (x y : Z) : Z := Z.min u64_max (x + y).

(** ** Strings: Rust's [str] as its UTF-8 bytes *)

Definition chr (n : nat) : ascii := Ascii.ascii_of_nat n.
Definition ch1 (n : nat) : string := String (chr n) EmptyString.

Fixpoint strip_prefix (pre s : string) : option string :=
  match pre, s with
  | EmptyString, _ => Some s
  | String a pre', String b s' =>
      if Ascii.eqb a b then strip_prefix pre' s' else None
  | String _ _, EmptyString => None
  end.

Definition starts_with (s pre : string) : bool :=
  match strip_prefix pre s with Some _ => true | None => false end.

Fixpoint strip_suffix (suf s : string) : option string :=
  if String.eqb s suf then Some EmptyString
  else match s with
       | EmptyString => None
       | String c s' =>
           match strip_suffix suf s' with
           | Some r => Some (String c r)
           | None => None
           end
       end.

Definition ends_with (s suf : string) : bool :=
  match strip_suffix suf s with Some _ => true | None => false end.

(** [s.contains(needle)] for a string needle. *)
Fixpoint contains (s needle : string) : bool :=
  starts_with s needle ||
  match s with EmptyString => false | String _ s' => contains s' needle end.

Fixpoint contains_char (s : string) (c : ascii) : bool :=
  match s with
  | EmptyString => false
  | String a s' => Ascii.eqb a c || contains_char s' c
  end.

Fixpoint all_chars (P : ascii → bool) (s : string) : bool :=
  match s with EmptyString => true | String a s' => P a && all_chars P s' end.

(** [s.split(|c| P c)]: always at least one piece. *)
Fixpoint split_by (P : ascii → bool) (s : string) : list string :=
  match s with
  | EmptyString => [EmptyString]
  | String a s' =>
      if P a then EmptyString :: split_by P s'
      else match split_by P s' with
           | [] => [String a EmptyString]
           | w :: ws => String a w :: ws
           end
  end.
Definition split_char (c : ascii) : string → list string := split_by (Ascii.eqb c).

(** [s.split_once(c)]: around the first occurrence. *)
Fixpoint split_once (c : ascii) (s : string) : option (string * string) :=
  match s with
  | EmptyString => None
  | String a s' =>
      if Ascii.eqb a c then Some (EmptyString, s')
      else match split_once c s' with
           | Some (l, r) => Some (String a l, r)
           | None => None
           end
  end.

(** [s.rsplit_once(c)]: around the last occurrence. *)
Fixpoint rsplit_once (c : ascii) (s : string) : option (string * string) :=
  match s with
  | EmptyString => None
  | String a s' =>
      match rsplit_once c s' with
      | Some (l, r) => Some (String a l, r)
      | None => if Ascii.eqb a c then Some (EmptyString, s') else None
      end
  end.

Fixpoint smap (f : ascii → ascii) (s : string) : string :=
  match s with EmptyString => EmptyString | String a s' => String (f a) (smap f s') end.

(** [replace] of one character by another. *)
Definition replace_char (a b : ascii) : string → string :=
  smap (λ c, if Ascii.eqb c a then b else c).

Definition is_digit (c : ascii) : bool :=
  let n := Ascii.nat_of_ascii c in (48 <=? n)%nat && (n <=? 57)%nat.
Definition is_upper (c : ascii) : bool :=
  let n := Ascii.nat_of_ascii c in (65 <=? n)%nat && (n <=? 90)%nat.
Definition is_lower (c : ascii) : bool :=
  let n := Ascii.nat_of_ascii c in (97 <=? n)%nat && (n <=? 122)%nat.

Definition lower_ascii (c : ascii) : ascii :=
  if is_upper c then chr (Ascii.nat_of_ascii c + 32) else c.
Definition upper_ascii (c : ascii) : ascii :=
  if is_lower c then chr (Ascii.nat_of_ascii c - 32) else c.
Definition to_ascii_lowercase : string → string := smap lower_ascii.
Definition to_ascii_uppercase : string → string := smap upper_ascii.
Definition eq_ignore_ascii_case (a b : string) : bool :=
  String.eqb (to_ascii_lowercase a) (to_ascii_lowercase b).

(** [trim]: the UTF-8 encodings of the code points with the Unicode
    White_Space property, which is what [char::is_whitespace] tests. *)
Definition utf8_2 (a b : nat) : string := String (chr a) (ch1 b).
Definition utf8_3 (a b c : nat) : string := String (chr a) (utf8_2 b c).
Definition white_space : list string :=
  (ch1 <$> [9; 10; 11; 12; 13; 32]%nat)
  ++ [utf8_2 194 133; utf8_2 194 160; utf8_3 225 154 128]
  ++ (utf8_3 226 128 <$> (seq 128 11 ++ [168; 169; 175]%nat))
  ++ [utf8_3 226 129 159; utf8_3 227 128 128].

Fixpoint first_some {A B} (f : A → option B) (l : list A) : option B :=
  match l with
  | [] => None
  | x :: l => match f x with Some y => Some y | None => first_some f l end
  end.

(** Strip units for as long as the step succeeds; every unit is non-empty, so
    [String.length] steps are enough. *)
Fixpoint strip_loop (step : string → option string) (n : nat) (s : string) : string :=
  match n with
  | O => s
  | S n => match step s with Some s' => strip_loop step n s' | None => s end
  end.

Definition trim_start (s : string) : string :=
  strip_loop (λ s, first_some (λ u, strip_prefix u s) white_space) (String.length s) s.
Definition trim_end (s : string) : string :=
  strip_loop (λ s, first_some (λ u, strip_suffix u s) white_space) (String.length s) s.
Definition trim (s : string) : string := trim_end (trim_start s).

(** [trim_end_matches(c)], [trim_start_matches(c)] for one ASCII character. *)
Definition trim_end_char (c : ascii) (s : string) : string :=
  strip_loop (strip_suffix (String c EmptyString)) (String.length s) s.
Definition trim_start_char (c : ascii) (s : string) : string :=
  strip_loop (strip_prefix (String c EmptyString)) (String.length s) s.

Definition is_empty (s : string) : bool := String.eqb s EmptyString.

(** [uN::from_str_radix]: an optional '+', then at least one digit, and the
    value must fit. *)
Definition digit_value (radix : Z) (c : ascii) : option Z :=
  let n := Z.of_nat (Ascii.nat_of_ascii c) in
  let d := if is_digit c then Some (n - 48)
           else if is_lower c then Some (n - 87)
           else if is_upper c then Some (n - 55) else None in
  match d with Some v => if v <? radix then Some v else None | None => None end.

Fixpoint digits_acc (radix acc : Z) (s : string) : option Z :=
  match s with
  | EmptyString => Some acc
  | String c s' =>
      match digit_value radix c with
      | Some v => digits_acc radix (acc * radix + v) s'
      | None => None
      end
  end.

Definition from_str_radix (radix max : Z) (s : string) : option Z :=
  let body := match strip_prefix "+" s with Some r => r | None => s end in
  if is_empty body then None
  else match digits_acc radix 0 body with
       | Some v => if v <=? max then Some v else None
       | None => None
       end.

Definition parse_u64 : string → option Z := from_str_radix 10 u64_max.
Definition parse_u16 : string → option Z := from_str_radix 10 u16_max.
Definition parse_u8 : string → option Z := from_str_radix 10 u8_max.

(** [str::split_whitespace]: the maximal pieces without white space. *)
Fixpoint ws_pieces (n : nat) (s cur : string) : list string :=
  match n with
  | O => [cur]
  | S n =>
      match first_some (λ u, strip_prefix u s) white_space with
      | Some s' => cur :: ws_pieces n s' EmptyString
      | None => match s with
                | EmptyString => [cur]
                | String c s' => ws_pieces n s' (cur +:+ String c EmptyString)
                end
      end
  end.
Definition split_whitespace (s : string) : list string :=
  List.filter (λ w, negb (is_empty w)) (ws_pieces (S (String.length s)) s EmptyString).

(** Decimal [Display] of a non-negative integer. *)
Definition digit_char (d : Z) : ascii := chr (Z.to_nat (48 + d)).
Fixpoint dec_digits (fuel : nat) (n : Z) (acc : string) : string :=
  match fuel with
  | O => acc
  | S fuel =>
      let acc := String (digit_char (n mod 10)) acc in
      if n <? 10 then acc else dec_digits fuel (n / 10) acc
  end.
Definition to_dec (n : Z) : string := dec_digits (S (Z.to_nat (Z.log2 n))) n EmptyString.

(** Turn boolean tests in hypotheses and goals into propositions. *)
Ltac to_prop :=
  repeat match goal with
  | H : _ && _ = true |- _ => apply andb_true_iff in H as [? ?]
  | H : _ || _ = false |- _ => apply orb_false_iff in H as [? ?]
  | H : negb _ = true |- _ => apply negb_true_iff in H
  | H : negb _ = false |- _ => apply negb_false_iff in H
  | H : bool_decide _ = true |- _ => apply bool_decide_eq_true_1 in H
  | H : bool_decide _ = false |- _ => apply bool_decide_eq_false_1 in H
  | H : (_ <=? _)%nat = true |- _ => apply Nat.leb_le in H
  | H : (_ <=? _)%nat = false |- _ => apply Nat.leb_gt in H
  | H : (_ =? _) = true |- _ => apply Z.eqb_eq in H
  | H : (_ =? _) = false |- _ => apply Z.eqb_neq in H
  | H : (_ <? _) = true |- _ => apply Z.ltb_lt in H
  | H : (_ <? _) = false |- _ => apply Z.ltb_ge in H
  | H : (_ <=? _) = true |- _ => apply Z.leb_le in H
  | H : (_ <=? _) = false |- _ => apply Z.leb_gt in H
  end.

(** ** Generic lemmas *)

Lemma strip_prefix_Some pre s r : strip_prefix pre s = Some r ↔ s = pre +:+ r.
Proof.
  revert s; induction pre as [|a pre IH]; intros s; simpl.
  - split; congruence.
  - destruct s as [|b s]; [split; discriminate|].
    destruct (Ascii.eqb_spec a b) as [->|]; [rewrite IH|]; split; congruence.
Qed.

Lemma starts_with_true s pre : starts_with s pre = true ↔ ∃ r, s = pre +:+ r.
Proof.
  unfold starts_with. destruct (strip_prefix pre s) as [r|] eqn:E.
  - apply strip_prefix_Some in E. naive_solver.
  - split; [done|]. intros [r Hr]. apply strip_prefix_Some in Hr. congruence.
Qed.

Lemma string_app_inj_length a b c d :
  String.length a = String.length c → a +:+ b = c +:+ d → a = c ∧ b = d.
Proof.
  revert c; induction a as [|x a IH]; intros [|y c]; simpl; intros; try done.
  simplify_eq. edestruct IH as [-> ->]; eauto.
Qed.

Lemma string_length_app a b : String.length (a +:+ b) = (String.length a + String.length b)%nat.
Proof. induction a; simpl; congruence. Qed.

Lemma string_app_eq_nil r s : r +:+ s = s → r = EmptyString.
Proof.
  intros H. destruct r; [done|]. apply (f_equal String.length) in H.
  revert H. rewrite string_length_app; simpl; lia.
Qed.

Lemma strip_suffix_Some suf s r : strip_suffix suf s = Some r ↔ s = r +:+ suf.
Proof.
  revert r; induction s as [|c s IH]; intros r; simpl.
  - destruct suf; simpl; destruct r; split; simpl; congruence.
  - destruct (String.eqb_spec (String c s) suf) as [<-|Hne].
    + simpl. split; [intros [= <-]; done|]. intros H. by rewrite (string_app_eq_nil r (String c s)) by done.
    + destruct (strip_suffix suf s) as [q|] eqn:E; simpl.
      * split; [intros [= <-]; simpl; f_equal; by apply IH|].
        destruct r as [|a r]; simpl; intros H; [congruence|].
        injection H as -> H. apply IH in H. congruence.
      * split; [discriminate|].
        destruct r as [|a r]; simpl; intros H; [congruence|].
        injection H as -> H. apply IH in H. congruence.
Qed.

Lemma ends_with_true s suf : ends_with s suf = true ↔ ∃ r, s = r +:+ suf.
Proof.
  unfold ends_with. destruct (strip_suffix suf s) as [r|] eqn:E.
  - apply strip_suffix_Some in E. naive_solver.
  - split; [done|]. intros [r Hr]. apply strip_suffix_Some in Hr. congruence.
Qed.

Lemma try_each_Ok {E A} (f : A → result E unit) l :
  try_each f l = Ok tt ↔ Forall (λ x, f x = Ok tt) l.
Proof.
  induction l as [|x l IH]; simpl; [split; auto|].
  rewrite Forall_cons, <-IH. destruct (f x) as [[]|]; naive_solver.
Qed.

Lemma existsb_true {A} (P : A → bool) l : existsb P l = true ↔ ∃ x, x ∈ l ∧ P x = true.
Proof. rewrite existsb_exists. by setoid_rewrite list_elem_of_In. Qed.

Lemma existsb_ext {A} (P Q : A → bool) l : (∀ x, x ∈ l → P x = Q x) → existsb P l = existsb Q l.
Proof.
  intros H. induction l as [|x l IH]; [done|]. cbn [existsb]. rewrite (H x) by left. f_equal. apply IH. intros y Hy. apply H. by right.
Qed.

Lemma existsb_false {A} (P : A → bool) l :
  existsb P l = false ↔ Forall (λ x, P x = false) l.
Proof.
  induction l as [|x l IH]; simpl; [split; auto|].
  rewrite Forall_cons, orb_false_iff. naive_solver.
Qed.

Lemma last_cons {A} (x d : A) l : List.last (x :: l) d = List.last l x.
Proof.
  revert x d. induction l as [|y l IH]; intros x d; [done|].
  transitivity (List.last l y); [apply (IH y d) | symmetry; apply (IH y x)].
Qed.

Lemma list_last_snoc {A} (l : list A) x d : List.last (l ++ [x]) d = x.
Proof. apply List.last_last. Qed.

(** Decimal round trip. *)
Lemma digit_value_char d : 0 ≤ d < 10 → digit_value 10 (digit_char d) = Some d.
Proof.
  intros H. assert (d ∈ [0;1;2;3;4;5;6;7;8;9]) as Hd.
  { rewrite !elem_of_cons, elem_of_nil. lia. }
  revert Hd. rewrite !elem_of_cons, elem_of_nil.
  intros Hd. repeat (destruct Hd as [->|Hd]; [reflexivity|]). done.
Qed.

Lemma is_digit_char d : 0 ≤ d < 10 → is_digit (digit_char d) = true.
Proof.
  intros H. pose proof (digit_value_char d H) as Hv. unfold digit_value in Hv.
  destruct (is_digit (digit_char d)) eqn:E; [done|].
  assert (d ∈ [0;1;2;3;4;5;6;7;8;9]) as Hd.
  { rewrite !elem_of_cons, elem_of_nil. lia. }
  revert Hd E. rewrite !elem_of_cons, elem_of_nil. clear.
  intros Hd. repeat (destruct Hd as [->|Hd]; [intros E; discriminate E|]). done.
Qed.

Lemma fuel_div10 fuel n :
  0 ≤ n → n < 2 ^ Z.of_nat (S fuel) → 10 ≤ n → n / 10 < 2 ^ Z.of_nat fuel.
Proof.
  intros Hn Hlt Hge. rewrite Nat2Z.inj_succ, Z.pow_succ_r in Hlt by lia.
  apply Z.div_lt_upper_bound; lia.
Qed.

Lemma digits_acc_dec fuel n acc a :
  0 ≤ n → n < 2 ^ Z.of_nat fuel → (0 < fuel)%nat →
  ∃ k, 0 < k ∧ digits_acc 10 a (dec_digits fuel n acc) = digits_acc 10 (a * k + n) acc.
Proof.
  revert n acc. induction fuel as [|fuel IH]; intros n acc Hn Hlt Hf; [lia|]. simpl.
  assert (0 ≤ n mod 10 < 10) by (apply Z.mod_pos_bound; lia).
  destruct (n <? 10) eqn:E.
  - apply Z.ltb_lt in E. exists 10. split; [lia|]. simpl.
    rewrite digit_value_char by done. by rewrite Z.mod_small by lia.
  - apply Z.ltb_ge in E. pose proof (fuel_div10 fuel n Hn Hlt E) as Hq.
    assert (0 < n / 10) by (apply Z.div_str_pos; lia).
    destruct (decide (fuel = O)) as [->|Hf']; [simpl in Hq; lia|].
    destruct (IH (n / 10) (String (digit_char (n mod 10)) acc)) as (k & Hk & ->); try lia.
    exists (10 * k). split; [lia|]. simpl. rewrite digit_value_char by done.
    f_equal. pose proof (Z.div_mod n 10). lia.
Qed.

Lemma dec_digits_all fuel n acc :
  0 ≤ n → all_chars is_digit acc = true → all_chars is_digit (dec_digits fuel n acc) = true.
Proof.
  revert n acc. induction fuel as [|fuel IH]; intros n acc Hn Hacc; [done|]. simpl.
  assert (0 ≤ n mod 10 < 10) by (apply Z.mod_pos_bound; lia).
  assert (all_chars is_digit (String (digit_char (n mod 10)) acc) = true)
    by (simpl; by rewrite is_digit_char).
  destruct (n <? 10); [done|]. apply IH; [|done]. apply Z.div_pos; lia.
Qed.

Lemma to_dec_digits n : 0 ≤ n → all_chars is_digit (to_dec n) = true.
Proof. intros. by apply dec_digits_all. Qed.

Lemma dec_digits_nonempty fuel n acc : acc ≠ EmptyString → dec_digits fuel n acc ≠ EmptyString.
Proof.
  revert n acc. induction fuel as [|fuel IH]; intros n acc H; [done|]. simpl.
  destruct (n <? 10); [done|]. by apply IH.
Qed.

Lemma to_dec_nonempty n : to_dec n ≠ EmptyString.
Proof.
  unfold to_dec. simpl. destruct (n <? 10); [done|]. by apply dec_digits_nonempty.
Qed.

Lemma digits_acc_to_dec n : 0 ≤ n → digits_acc 10 0 (to_dec n) = Some n.
Proof.
  intros Hn. unfold to_dec.
  destruct (digits_acc_dec (S (Z.to_nat (Z.log2 n))) n EmptyString 0) as (k & _ & Hk); try lia.
  - rewrite Nat2Z.inj_succ, Z2Nat.id by apply Z.log2_nonneg.
    destruct (decide (n = 0)) as [->|]; [reflexivity|]. apply Z.log2_spec. lia.
  - rewrite Hk. simpl. done.
Qed.

Lemma from_str_radix_to_dec n max :
  0 ≤ n → from_str_radix 10 max (to_dec n) = if n <=? max then Some n else None.
Proof.
  intros Hn. unfold from_str_radix. pose proof (to_dec_digits n Hn) as Hd.
  pose proof (to_dec_nonempty n) as Hne. pose proof (digits_acc_to_dec n Hn) as Ha.
  destruct (to_dec n) as [|c s]; [done|].
  assert (strip_prefix "+" (String c s) = None) as ->.
  { simpl. destruct (Ascii.eqb_spec "+" c) as [<-|]; [discriminate Hd|done]. }
  change (is_empty (String c s)) with false. cbv iota. by rewrite Ha.
Qed.

(** Suffixes that do not start with a digit are found behind digits exactly
    where they are found without them. *)
Lemma strip_suffix_behind_digits ds suf u :
  all_chars is_digit ds = true → suf ≠ EmptyString →
  (∀ c r, suf = String c r → is_digit c = false) →
  strip_suffix suf (ds +:+ u) = (λ r, ds +:+ r) <$> strip_suffix suf u.
Proof.
  intros Hd Hne Hs. induction ds as [|c ds IH]; simpl.
  - by destruct (strip_suffix suf u).
  - simpl in Hd. apply andb_true_iff in Hd as [Hc Hd].
    destruct (String.eqb_spec (String c (ds +:+ u)) suf) as [E|_].
    + apply eq_sym, Hs in E. congruence.
    + rewrite IH by done. by destruct (strip_suffix suf u).
Qed.

Lemma first_some_None {A B} (f : A → option B) l :
  first_some f l = None ↔ Forall (λ x, f x = None) l.
Proof.
  induction l as [|x l IH]; simpl; [split; auto|].
  rewrite Forall_cons, <-IH. destruct (f x); split; [discriminate|by intros []|auto|by intros []].
Qed.

Lemma first_some_Some {A B} (f : A → option B) l y :
  first_some f l = Some y → ∃ x, x ∈ l ∧ f x = Some y.
Proof.
  induction l as [|x l IH]; simpl; [done|]. destruct (f x) eqn:E.
  - intros [= ->]. exists x. split; [left|done].
  - intros (z & Hz & Hf)%IH. exists z. split; [by right|done].
Qed.

Lemma digit_cases c : is_digit c = true → c ∈ (digit_char <$> [0;1;2;3;4;5;6;7;8;9]).
Proof.
  intros H. destruct c as [[] [] [] [] [] [] [] []]; try discriminate H;
    apply (bool_decide_unpack _); vm_compute; exact I.
Qed.

Lemma white_space_heads :
  forallb (λ u, match u with String c _ => negb (is_digit c) | EmptyString => false end)
    white_space = true.
Proof. vm_compute. reflexivity. Qed.

Lemma trim_start_digit c s : is_digit c = true → trim_start (String c s) = String c s.
Proof.
  intros Hc. unfold trim_start. simpl String.length. cbn [strip_loop].
  assert (first_some (λ u, strip_prefix u (String c s)) white_space = None) as ->; [|done].
  apply first_some_None, Forall_forall. intros u Hu.
  pose proof white_space_heads as Hw. rewrite forallb_forall in Hw.
  apply list_elem_of_In, Hw in Hu. destruct u as [|a u]; [done|]. simpl.
  destruct (Ascii.eqb_spec a c) as [->|]; [|done]. by rewrite Hc in Hu.
Qed.

Lemma trim_end_behind_digits ds u :
  all_chars is_digit ds = true →
  first_some (λ w, strip_suffix w u) white_space = None →
  trim_end (ds +:+ u) = ds +:+ u.
Proof.
  intros Hd Hu. unfold trim_end.
  destruct (String.length (ds +:+ u)) as [|n]; [done|]. cbn [strip_loop].
  assert (first_some (λ w, strip_suffix w (ds +:+ u)) white_space = None) as ->; [|done].
  rewrite first_some_None in *. rewrite Forall_forall in *. intros w Hw.
  specialize (Hu w Hw). pose proof white_space_heads as Hh. rewrite forallb_forall in Hh.
  apply list_elem_of_In, Hh in Hw. destruct w as [|a w]; [done|].
  rewrite strip_suffix_behind_digits; [by rewrite Hu|done|done|].
  intros c r [= <- <-]. by apply negb_true_iff in Hw.
Qed.

Lemma trim_number ds u :
  all_chars is_digit ds = true → ds ≠ EmptyString →
  first_some (λ w, strip_suffix w u) white_space = None →
  trim (ds +:+ u) = ds +:+ u.
Proof.
  intros Hd Hne Hu. unfold trim. destruct ds as [|c ds]; [done|].
  change (String c ds +:+ u) with (String c (ds +:+ u)). rewrite trim_start_digit.
  - change (String c (ds +:+ u)) with (String c ds +:+ u). by apply trim_end_behind_digits.
  - simpl in Hd. by apply andb_true_iff in Hd as [? _].
Qed.

(** Strings of visible ASCII characters carry no white space to trim. *)
Definition is_graph (c : ascii) : bool :=
  let n := Ascii.nat_of_ascii c in (33 <=? n)%nat && (n <=? 126)%nat.

Lemma all_chars_app P a b : all_chars P (a +:+ b) = all_chars P a && all_chars P b.
Proof. induction a as [|c a IH]; simpl; [done|]. by rewrite IH, andb_assoc. Qed.

Lemma white_space_not_graph w : w ∈ white_space → all_chars is_graph w = false.
Proof.
  intros Hw. assert (forallb (λ w, negb (all_chars is_graph w)) white_space = true) as H
    by (vm_compute; reflexivity).
  rewrite forallb_forall in H. apply list_elem_of_In, H in Hw. by apply negb_true_iff in Hw.
Qed.

Lemma strip_loop_none step n s : step s = None → strip_loop step n s = s.
Proof. intros H. destruct n; simpl; [done|]. by rewrite H. Qed.

Lemma trim_graph s : all_chars is_graph s = true → trim s = s.
Proof.
  intros Hs. unfold trim, trim_start, trim_end. rewrite !strip_loop_none; [done|..];
    rewrite ?strip_loop_none; try (apply first_some_None, Forall_forall; intros w Hw).
  all: try (destruct (strip_suffix w s) as [r|] eqn:E; [|done];
    apply strip_suffix_Some in E as ->; rewrite all_chars_app in Hs; to_prop;
    by rewrite (white_space_not_graph w Hw) in *).
  all: try (destruct (strip_prefix w s) as [r|] eqn:E; [|done];
    apply strip_prefix_Some in E as ->; rewrite all_chars_app in Hs; to_prop;
    by rewrite (white_space_not_graph w Hw) in *).
Qed.

Lemma string_app_nil_r s : s +:+ EmptyString = s.
Proof. induction s as [|c s IH]; simpl; congruence. Qed.

Lemma digits_acc_app r a ds u :
  digits_acc r a (ds +:+ u) = match digits_acc r a ds with
                              | Some v => digits_acc r v u | None => None end.
Proof.
  revert a. induction ds as [|c ds IH]; intros a; simpl; [done|].
  destruct (digit_value r c); [apply IH|done].
Qed.

(** A decimal number followed by something that is not a digit does not parse. *)
Lemma parse_number_suffix n max c u :
  0 ≤ n → digit_value 10 c = None →
  from_str_radix 10 max (to_dec n +:+ String c u) = None.
Proof.
  intros Hn Hc. unfold from_str_radix. pose proof (to_dec_digits n Hn) as Hd.
  pose proof (to_dec_nonempty n) as Hne. pose proof (digits_acc_to_dec n Hn) as Ha.
  destruct (to_dec n) as [|d s]; [done|].
  assert (strip_prefix "+" (String d s +:+ String c u) = None) as ->.
  { simpl. destruct (Ascii.eqb_spec "+" d) as [<-|]; [discriminate Hd|done]. }
  change (is_empty (String d s +:+ String c u)) with false. cbv iota.
  rewrite digits_acc_app, Ha. simpl. by rewrite Hc.
Qed.

Lemma all_chars_mono (P Q : ascii → bool) s :
  (∀ c, P c = true → Q c = true) → all_chars P s = true → all_chars Q s = true.
Proof.
  intros H. induction s as [|c s IH]; [done|]. cbn. intros [Hc Hs]%andb_true_iff.
  by rewrite H, IH.
Qed.

Lemma split_once_behind c a b :
  all_chars (λ x, negb (Ascii.eqb x c)) a = true → split_once c (a +:+ String c b) = Some (a, b).
Proof.
  induction a as [|x a IH]; cbn; [by rewrite Ascii.eqb_refl|].
  intros [Hx%negb_true_iff Ha]%andb_true_iff. by rewrite Hx, IH.
Qed.

Lemma trim_start_char_none c s :
  all_chars (λ x, negb (Ascii.eqb x c)) s = true → trim_start_char c s = s.
Proof.
  intros H. apply strip_loop_none. destruct s as [|x s]; [done|]. cbn in *.
  apply andb_true_iff in H as [Hx%negb_true_iff _]. rewrite Ascii.eqb_sym. by rewrite Hx.
Qed.

Lemma trim_end_char_none c s :
  all_chars (λ x, negb (Ascii.eqb x c)) s = true → trim_end_char c s = s.
Proof.
  intros H. apply strip_loop_none. destruct (strip_suffix _ s) as [r|] eqn:E; [|done].
  apply strip_suffix_Some in E as ->. rewrite all_chars_app in H. cbn in H.
  by rewrite Ascii.eqb_refl, andb_false_r in H.
Qed.

Lemma smap_app f a b : smap f (a +:+ b) = smap f a +:+ smap f b.
Proof. induction a; simpl; congruence. Qed.

Lemma smap_id f s (P : ascii → bool) :
  (∀ c, P c = true → f c = c) → all_chars P s = true → smap f s = s.
Proof.
  intros Hf. induction s as [|c s IH]; simpl; [done|].
  intros [Hc Hs]%andb_true_iff. by rewrite Hf, IH.
Qed.

Lemma lower_digit c : is_digit c = true → lower_ascii c = c.
Proof.
  unfold lower_ascii. destruct (is_upper c) eqn:E; [|done]. intros Hd. exfalso.
  unfold is_upper, is_digit in *. to_prop. lia.
Qed.

Lemma contains_char_digits ds c :
  all_chars is_digit ds = true → is_digit c = false → contains_char ds c = false.
Proof.
  intros Hd Hc. induction ds as [|d ds IH]; simpl in *; [done|].
  apply andb_true_iff in Hd as [Hd Hds].
  destruct (Ascii.eqb_spec d c) as [->|]; [congruence|]. by apply IH.
Qed.



Lemma string_app_assoc a b c : (a +:+ b) +:+ c = a +:+ b +:+ c.
Proof. induction a as [|x a IH]; cbn; [done|by rewrite IH]. Qed.

Lemma contains_spec s needle : contains s needle = true ↔ ∃ a b, s = a +:+ needle +:+ b.
Proof.
  induction s as [|c s IH]; cbn [contains]; rewrite orb_true_iff, starts_with_true.
  - split.
    + intros [[r Hr]|]; [|done]. by exists EmptyString, r.
    + intros ([|a1 a2] & b & Hs); [|done]. left. by exists b.
  - split.
    + intros [[r Hr]|(a & b & ->)%IH]; [by exists EmptyString, r|by exists (String c a), b].
    + intros ([|x a] & b & Hs); [left; by exists b|]. injection Hs as -> ->. right.
      apply IH. by exists a, b.
Qed.

Lemma contains_char_app a b c : contains_char (a +:+ b) c = contains_char a c || contains_char b c.
Proof. induction a as [|x a IH]; cbn; [done|]. by rewrite IH, orb_assoc. Qed.

(** The last character. *)
Fixpoint last_is (c : ascii) (s : string) : bool :=
  match s with
  | EmptyString => false
  | String x EmptyString => Ascii.eqb x c
  | String _ s => last_is c s
  end.

Lemma last_is_cons c x s : s ≠ EmptyString → last_is c (String x s) = last_is c s.
Proof. by destruct s. Qed.
Lemma last_is_app c a b : b ≠ EmptyString → last_is c (a +:+ b) = last_is c b.
Proof.
  intros Hb. induction a as [|x a IH]; [done|]. change (String x a +:+ b) with (String x (a +:+ b)).
  rewrite last_is_cons; [done|]. intros E. apply (f_equal String.length) in E. rewrite string_length_app in E.
  destruct b; [done|cbn in E; lia].
Qed.
Lemma last_is_split c s : last_is c s = true → ∃ r, s = r +:+ String c EmptyString.
Proof.
  induction s as [|x s IH]; [done|]. destruct s as [|y s].
  - cbn. intros ->%Ascii.eqb_eq. by exists EmptyString.
  - intros (r & Hr)%IH. exists (String x r). by rewrite Hr.
Qed.

(** The end of a piece: the end of the text or a separator. *)
Definition piece_end (c : ascii) (b : string) : Prop := b = EmptyString ∨ ∃ r, b = String c r.

Lemma split_char_pieces c s :
  ∃ w ws, split_char c s = w :: ws
    ∧ (∃ b, s = w +:+ b ∧ piece_end c b)
    ∧ ∀ v, v ∈ ws → ∃ a b, s = a +:+ String c v +:+ b ∧ piece_end c b.
Proof.
  unfold split_char. induction s as [|x s (w & ws & E & (b & Hs & Hb) & Hws)]; cbn [split_by].
  - exists EmptyString, []. split_and!; [done|exists EmptyString; split; [done|by left]|].
    by intros v ?%elem_of_nil.
  - rewrite E. destruct (Ascii.eqb_spec c x) as [<-|_].
    + exists EmptyString, (w :: ws). split_and!; [done|exists (String c s); split; [done|right; by exists s]|].
      intros v [->|Hv]%elem_of_cons; [exists EmptyString, b; by rewrite Hs|].
      destruct (Hws v Hv) as (a & b' & -> & ?). by exists (String c a), b'.
    + exists (String x w), ws. split_and!; [done|exists b; by rewrite Hs|].
      intros v Hv. destruct (Hws v Hv) as (a & b' & -> & ?). by exists (String x a), b'.
Qed.

(** Splitting commutes with a map that fixes the separator. *)
Lemma split_by_smap P f s :
  (∀ a, P (f a) = P a) → split_by P (smap f s) = smap f <$> split_by P s.
Proof.
  intros Hf. induction s as [|a s IH]; cbn; [done|]. rewrite Hf, IH.
  destruct (P a); [done|]. by destruct (split_by P s).
Qed.

(** Trimming twice. *)

Lemma white_space_nonempty u : u ∈ white_space → u ≠ EmptyString.
Proof.
  intros Hu ->. assert (forallb (λ u, negb (is_empty u)) white_space = true) as H
    by (vm_compute; reflexivity).
  rewrite forallb_forall in H. by apply list_elem_of_In, H in Hu.
Qed.

Lemma strip_loop_stuck step n s :
  (∀ s s', step s = Some s' → (String.length s' < String.length s)%nat) →
  (String.length s ≤ n)%nat → step (strip_loop step n s) = None.
Proof.
  intros Hstep. revert s. induction n as [|n IH]; intros s Hn; cbn [strip_loop].
  - destruct (step s) as [s'|] eqn:E; [|done]. apply Hstep in E. lia.
  - destruct (step s) as [s'|] eqn:E; [|done]. apply IH. apply Hstep in E. lia.
Qed.

Lemma strip_prefix_shorter u s s' :
  u ≠ EmptyString → strip_prefix u s = Some s' → (String.length s' < String.length s)%nat.
Proof.
  intros Hu ->%strip_prefix_Some. rewrite string_length_app. destruct u; [done|cbn; lia].
Qed.
Lemma strip_suffix_shorter u s s' :
  u ≠ EmptyString → strip_suffix u s = Some s' → (String.length s' < String.length s)%nat.
Proof.
  intros Hu ->%strip_suffix_Some. rewrite string_length_app. destruct u; [done|cbn; lia].
Qed.

Lemma trim_end_prefix n s :
  ∃ r, s = strip_loop (λ s, first_some (λ u, strip_suffix u s) white_space) n s +:+ r.
Proof.
  revert s. induction n as [|n IH]; intros s; cbn [strip_loop].
  - exists EmptyString. by rewrite string_app_nil_r.
  - destruct (first_some _ _) as [s'|] eqn:E.
    + apply first_some_Some in E as (u & _ & ->%strip_suffix_Some).
      destruct (IH s') as [r Hr]. exists (r +:+ u). by rewrite <-string_app_assoc, <-Hr.
    + exists EmptyString. by rewrite string_app_nil_r.
Qed.

Lemma trim_idem s : trim (trim s) = trim s.
Proof.
  assert (first_some (λ u, strip_suffix u (trim s)) white_space = None) as He.
  { unfold trim, trim_end at 1.
    apply (strip_loop_stuck (λ s, first_some (λ u, strip_suffix u s) white_space)
             (String.length (trim_start s)) (trim_start s)); [|done].
    intros s1 s2 (u & Hu & H)%first_some_Some.
    eapply strip_suffix_shorter; [|exact H]. by apply white_space_nonempty. }
  assert (first_some (λ u, strip_prefix u (trim s)) white_space = None) as Hs.
  { assert (first_some (λ u, strip_prefix u (trim_start s)) white_space = None) as H.
    { unfold trim_start.
      apply (strip_loop_stuck (λ s, first_some (λ u, strip_prefix u s) white_space)
               (String.length s) s); [|done].
      intros s1 s2 (u & Hu & H)%first_some_Some.
      eapply strip_prefix_shorter; [|exact H]. by apply white_space_nonempty. }
    rewrite first_some_None, Forall_forall in *. intros u Hu. specialize (H u Hu).
    destruct (strip_prefix u (trim s)) as [r|] eqn:E; [|done]. apply strip_prefix_Some in E.
    destruct (trim_end_prefix (String.length (trim_start s)) (trim_start s)) as [r' Hr'].
    fold (trim_end (trim_start s)) in Hr'. fold (trim s) in Hr'. rewrite E, string_app_assoc in Hr'.
    apply strip_prefix_Some in Hr'. congruence. }
  unfold trim at 1. unfold trim_start. rewrite (strip_loop_none _ _ _ Hs).
  unfold trim_end. by rewrite (strip_loop_none _ _ _ He).
Qed.

Lemma digit_value_range r c v : digit_value r c = Some v → 0 ≤ v < r.
Proof.
  unfold digit_value, is_digit, is_lower, is_upper.
  set (n := Ascii.nat_of_ascii c) in *.
  assert (∀ k, (k ≤ n)%nat →
    (if Z.of_nat n - Z.of_nat k <? r then Some (Z.of_nat n - Z.of_nat k) else None) = Some v →
    0 ≤ v < r) as Hk.
  { intros k Hn H. destruct (Z.ltb_spec (Z.of_nat n - Z.of_nat k) r); simplify_eq. lia. }
  destruct (_ && _) eqn:E1; [to_prop; by apply (Hk 48%nat)|].
  destruct ((97 <=? n)%nat && _) eqn:E2; [to_prop; apply (Hk 87%nat); lia|].
  destruct ((65 <=? n)%nat && _) eqn:E3; [to_prop; apply (Hk 55%nat); lia|done].
Qed.

Lemma digits_acc_nonneg r a s v : 0 ≤ a → digits_acc r a s = Some v → 0 ≤ v.
Proof.
  revert a. induction s as [|c s IH]; simpl; intros a Ha H; [by simplify_eq|].
  destruct (digit_value r c) as [d|] eqn:E; [|done].
  apply digit_value_range in E. eapply IH; [|exact H]. nia.
Qed.

Lemma from_str_radix_range r max s v : from_str_radix r max s = Some v → 0 ≤ v ≤ max.
Proof.
  unfold from_str_radix. destruct (is_empty _); [done|].
  destruct (digits_acc _ _ _) as [w|] eqn:E; [|done]. apply digits_acc_nonneg in E; [|done].
  destruct (Z.leb_spec w max); [|done]. by intros [= <-].
Qed.

(** ** Automation *)

(** ** Sorted sets of strings: [BTreeSet<String>] *)

(** [BTreeSet] insertion and iteration: ascending bytes, no duplicates. *)
Fixpoint insert_sorted (x : string) (l : list string) : list string :=
  match l with
  | [] => [x]
  | y :: l' => match String.compare x y with
               | Lt => x :: l
               | Eq => l
               | Gt => y :: insert_sorted x l'
               end
  end.

Definition str_lt (a b : string) : Prop := String.compare a b = Lt.

Fixpoint ascending (l : list string) : Prop :=
  match l with
  | [] => True
  | x :: l' => match l' with [] => True | y :: _ => str_lt x y end ∧ ascending l'
  end.

Lemma compare_gt_lt a b : String.compare a b = Gt → str_lt b a.
Proof. unfold str_lt. rewrite String.compare_antisym. by destruct (String.compare b a). Qed.

Lemma insert_sorted_elem x l y : y ∈ insert_sorted x l ↔ y = x ∨ y ∈ l.
Proof.
  induction l as [|z l IH]; simpl; [by rewrite list_elem_of_singleton, elem_of_nil; intuition|].
  destruct (String.compare x z) eqn:E; rewrite ?elem_of_cons, ?IH; [|tauto|tauto].
  apply String.compare_eq_iff in E as ->. tauto.
Qed.

Lemma insert_sorted_head x y l :
  str_lt y x → ascending (y :: l) → ascending (insert_sorted x l) →
  ascending (y :: insert_sorted x l).
Proof.
  intros Hlt [Hy _] Ha. destruct l as [|z l]; simpl in *; [done|].
  destruct (String.compare x z); done.
Qed.

Lemma insert_sorted_ascending x l : ascending l → ascending (insert_sorted x l).
Proof.
  induction l as [|y l IH]; intros Hl; [done|]. cbn [insert_sorted].
  destruct (String.compare x y) eqn:E; [done|done|].
  apply insert_sorted_head; [by apply compare_gt_lt|done|]. apply IH, Hl.
Qed.

(** Case on every [match]/[if] scrutinee in the hypothesis, keeping equations. *)
Ltac break_match_in H :=
  repeat (match type of H with
  | context [match ?x with _ => _ end] => destruct x eqn:?
  end; simplify_eq/=).

Ltac break_match :=
  repeat (match goal with
  | |- context [match ?x with _ => _ end] => destruct x eqn:?
  end; simplify_eq/=).

Create HintDb vetto.
Create Rewrite HintDb vetto.
#[export] Hint Rewrite @existsb_true @existsb_false : vetto.
