(* ===== verification/Paths.v ===== *)
(** * Paths: Rust's [Path]/[PathBuf] by components, and the normalisations of
    [src/src/policy/types.rs]

    A [path] is the list of its [std::path::Component]s on Unix; Rust compares,
    prefixes and iterates paths by component, so two spellings with the same
    components are the same path here.  [to_str] is the canonical spelling.
    The file system is a parameter ([canonicalize]). *)

From Stdlib Require Import Sorting.Sorted.
From S2P Require Import Prelude.

(** ** Components *)

Inductive component : Type :=
| RootDir
| CurDir
| ParentDir
| Normal (name : string).

#[export] Instance component_eq_dec : EqDecision component.
Proof. solve_decision. Defined.

Definition path : Type := list component.

#[export] Instance path_eq_dec : EqDecision path := _.

Definition slash : ascii := "/"%char.

Definition is_root (c : component) : bool := match c with RootDir => true | _ => false end.
Definition is_parent (c : component) : bool := match c with ParentDir => true | _ => false end.
Definition is_cur (c : component) : bool := match c with CurDir => true | _ => false end.
Definition is_normal (c : component) : bool := match c with Normal _ => true | _ => false end.

(** [Path::components] on Unix: a leading separator is [RootDir]; repeated
    separators and interior or trailing [.] vanish; a leading [.] is kept. *)
Definition segment (w : string) : list component :=
  if is_empty w then [] else if String.eqb w "." then []
  else if String.eqb w ".." then [ParentDir] else [Normal w].

Definition components (s : string) : path :=
  if starts_with s "/" then RootDir :: concat (segment <$> split_char slash s)
  else match split_char slash s with
       | w :: ws => (if String.eqb w "." then [CurDir] else segment w)
                    ++ concat (segment <$> ws)
       | [] => []
       end.

Definition is_absolute (p : path) : bool :=
  match p with c :: _ => is_root c | [] => false end.
Definition has_root : path → bool := is_absolute.

Definition component_str (c : component) : string :=
  match c with RootDir => "/" | CurDir => "." | ParentDir => ".." | Normal n => n end.

Fixpoint join_with (sep : string) (ws : list string) : string :=
  match ws with
  | [] => EmptyString
  | [w] => w
  | w :: ws => w +:+ sep +:+ join_with sep ws
  end.

Definition to_str (p : path) : string :=
  match p with
  | RootDir :: p' => "/" +:+ join_with "/" (component_str <$> p')
  | _ => join_with "/" (component_str <$> p)
  end.

(** [PathBuf::push] / [Path::join]: an absolute argument replaces the base; a
    leading [.] vanishes behind a non-empty base. *)
Definition push (base p : path) : path :=
  if is_absolute p then p
  else match base with
       | [] => p
       | _ => base ++ List.filter (λ c, negb (is_cur c)) p
       end.

(** [Path::starts_with]: component-wise prefix. *)
Fixpoint path_starts_with (p pre : path) {struct pre} : bool :=
  match pre, p with
  | [], _ => true
  | c :: pre', d :: p' => bool_decide (c = d) && path_starts_with p' pre'
  | _ :: _, [] => false
  end.

(** [Path::parent] and [PathBuf::pop]. *)
Definition parent (p : path) : option path :=
  match last p with
  | None | Some RootDir => None
  | Some _ => Some (removelast p)
  end.
Definition pop (p : path) : path * bool :=
  match parent p with Some q => (q, true) | None => (p, false) end.

(** The order of [Path]: component by component, the components in the order
    of their declaration, names by their bytes. *)
Definition component_rank (c : component) : Z :=
  match c with RootDir => 0 | CurDir => 1 | ParentDir => 2 | Normal _ => 3 end.
Definition compare_component (a b : component) : comparison :=
  match a, b with
  | Normal x, Normal y => String.compare x y
  | _, _ => component_rank a ?= component_rank b
  end.
Fixpoint compare_path (p q : path) : comparison :=
  match p, q with
  | [], [] => Eq
  | [], _ => Lt
  | _, [] => Gt
  | a :: p, b :: q => match compare_component a b with Eq => compare_path p q | o => o end
  end.

(** [sort(); dedup()]. *)
Fixpoint insert_path (p : path) (l : list path) : list path :=
  match l with
  | [] => [p]
  | q :: l' => match compare_path p q with
               | Lt => p :: l
               | Eq => l
               | Gt => q :: insert_path p l'
               end
  end.
Definition sort_dedup (l : list path) : list path := foldr insert_path [] l.

(** ** [lexical_normalize] *)

Definition normalize_step (rooted : bool) (normalized : path) (c : component) : path :=
  match c with
  | CurDir => normalized
  | ParentDir =>
      match pop normalized with
      | (q, true) => q
      | (_, false) => if rooted then normalized else push normalized [ParentDir]
      end
  | RootDir | Normal _ => push normalized [c]
  end.

Definition lexical_normalize (p : path) : path :=
  fold_left (normalize_step (has_root p)) p [].

(** ** [normalize_scope_path]: canonicalise the longest existing ancestor *)

Section Scope.
(** [std::fs::canonicalize] of the file system at hand. *)
Variable canonicalize : path → option path.

(** The loop over [cursor]; the cursor is kept reversed, so that
    [file_name]/[parent] are the head and the tail.  [unresolved] is in the
    order in which it is pushed back (the source reverses it). *)
Fixpoint resolve_ancestor (rcursor : path) (unresolved : path) (original : path) : path :=
  match canonicalize (rev rcursor) with
  | Some canonical =>
      lexical_normalize (fold_left (λ acc c, push acc [c]) unresolved canonical)
  | None =>
      match rcursor with
      | Normal n :: rest => resolve_ancestor rest (Normal n :: unresolved) original
      | _ => lexical_normalize original
      end
  end.

Definition normalize_scope_path (p : path) : path :=
  if is_absolute p then resolve_ancestor (rev p) [] p else lexical_normalize p.
End Scope.

(** ** Well-formed component lists: what [components] and [push] produce *)

Definition path_tail_ok (p : path) : bool :=
  forallb (λ c, negb (is_root c) && negb (is_cur c)) p.
Definition path_wf (p : path) : bool :=
  match p with [] => true | _ :: p' => path_tail_ok p' end.

(** Normal form: absolute with only names below the root. *)
Definition names_only (p : path) : bool := forallb is_normal p.
Definition normal_abs (p : path) : bool :=
  match p with RootDir :: p' => names_only p' | _ => false end.

(** ** Lemmas *)

Lemma path_starts_with_spec p pre : path_starts_with p pre = true ↔ ∃ r, p = pre ++ r.
Proof.
  revert p. induction pre as [|c pre IH]; intros p; simpl.
  - split; [by exists p|done].
  - destruct p as [|d p]; [split; [done|by intros [r ?]]|].
    rewrite andb_true_iff, bool_decide_eq_true, IH. split.
    + intros [-> [r ->]]. by exists r.
    + intros [r Hr]. simplify_eq/=. eauto.
Qed.

Lemma path_starts_with_refl p : path_starts_with p p = true.
Proof. apply path_starts_with_spec. exists []. by rewrite app_nil_r. Qed.

Lemma path_starts_with_trans p q r :
  path_starts_with p q = true → path_starts_with q r = true → path_starts_with p r = true.
Proof.
  rewrite !path_starts_with_spec. intros [a ->] [b ->]. exists (b ++ a). by rewrite app_assoc.
Qed.

Lemma parent_snoc p c : is_root c = false → parent (p ++ [c]) = Some p.
Proof.
  intros Hc. unfold parent. rewrite last_snoc, removelast_last. by destruct c.
Qed.

Lemma normalize_step_abs p c :
  normal_abs p = true → is_root c = false → normal_abs (normalize_step true p c) = true.
Proof.
  destruct p as [|[] p]; try discriminate. simpl. intros Hp Hc.
  destruct c as [| | |n]; try discriminate; simpl; [done| |].
  - destruct p as [|d p _] using rev_ind; [done|].
    rewrite app_comm_cons. unfold pop. rewrite parent_snoc.
    + unfold names_only in *. rewrite forallb_app in Hp. by to_prop.
    + unfold names_only in Hp. rewrite forallb_app in Hp. simpl in Hp. to_prop.
      by destruct d.
  - unfold names_only in *. by rewrite forallb_app, Hp.
Qed.

Lemma fold_normalize_abs cs p :
  normal_abs p = true → forallb (λ c, negb (is_root c)) cs = true →
  normal_abs (fold_left (normalize_step true) cs p) = true.
Proof.
  revert p. induction cs as [|c cs IH]; intros p Hp Hcs; simpl in *; [done|].
  to_prop. apply IH; [|done]. by apply normalize_step_abs.
Qed.

Lemma tail_no_root p : path_tail_ok p = true → forallb (λ c, negb (is_root c)) p = true.
Proof.
  unfold path_tail_ok. rewrite !forallb_forall. intros H c Hc.
  specialize (H c Hc). by apply andb_true_iff in H as [? _].
Qed.

(** An absolute path normalises to a root followed by names: no [.] or [..]. *)
Lemma lexical_normalize_abs p :
  path_wf p = true → is_absolute p = true → normal_abs (lexical_normalize p) = true.
Proof.
  destruct p as [|[] p]; try discriminate. intros Hwf _.
  unfold lexical_normalize. simpl. apply fold_normalize_abs; [done|].
  by apply tail_no_root.
Qed.

Lemma fold_normalize_names cs p rooted :
  names_only cs = true → p ≠ [] → fold_left (normalize_step rooted) cs p = p ++ cs.
Proof.
  revert p. induction cs as [|c cs IH]; intros p Hcs Hp; simpl in *.
  - by rewrite app_nil_r.
  - to_prop. destruct c as [| | |n]; try discriminate. simpl.
    destruct p as [|d p]; [done|]. simpl. rewrite IH; [|done|done].
    simpl. by rewrite <-app_assoc.
Qed.

(** Normal paths are fixed points, so normalisation is idempotent. *)
Lemma lexical_normalize_fixed p : normal_abs p = true → lexical_normalize p = p.
Proof.
  destruct p as [|[] p]; try discriminate. intros Hp. unfold lexical_normalize.
  simpl. rewrite fold_normalize_names; done.
Qed.

Lemma lexical_normalize_idem p :
  path_wf p = true → is_absolute p = true →
  lexical_normalize (lexical_normalize p) = lexical_normalize p.
Proof. intros. by apply lexical_normalize_fixed, lexical_normalize_abs. Qed.

Lemma segment_ok w : path_tail_ok (segment w) = true.
Proof. unfold segment, is_empty. break_match; reflexivity. Qed.

Lemma concat_segment_ok ws : path_tail_ok (concat (segment <$> ws)) = true.
Proof.
  induction ws as [|w ws IH]; [done|]. rewrite fmap_cons. cbn [concat].
  unfold path_tail_ok in *. rewrite forallb_app, IH, andb_true_r. apply segment_ok.
Qed.

Lemma tail_ok_wf p : path_tail_ok p = true → path_wf p = true.
Proof. destruct p; simpl; [done|]. intros. by to_prop. Qed.

Lemma components_wf s : path_wf (components s) = true.
Proof.
  unfold components. destruct (starts_with s "/"); [apply concat_segment_ok|].
  destruct (split_char slash s) as [|w ws]; [done|].
  destruct (String.eqb w "."); [apply concat_segment_ok|].
  apply tail_ok_wf. unfold path_tail_ok. rewrite forallb_app.
  apply andb_true_iff; split; [apply segment_ok | apply concat_segment_ok].
Qed.

(** ** Sorted path sets *)

Lemma compare_component_eq a b : compare_component a b = Eq → a = b.
Proof.
  destruct a, b; cbn; try done. intros H. f_equal. by apply String.compare_eq_iff.
Qed.

Lemma compare_path_eq p q : compare_path p q = Eq → p = q.
Proof.
  revert q. induction p as [|a p IH]; intros [|b q]; cbn; try done.
  destruct (compare_component a b) eqn:E; [|done|done]. intros H.
  f_equal; [by apply compare_component_eq|by apply IH].
Qed.

Lemma insert_path_elem p l w : w ∈ insert_path p l ↔ w = p ∨ w ∈ l.
Proof.
  induction l as [|q l IH]; simpl; [by rewrite list_elem_of_singleton, elem_of_nil; intuition|].
  destruct (compare_path p q) eqn:E; rewrite ?elem_of_cons, ?IH; [|tauto|tauto].
  apply compare_path_eq in E as ->. tauto.
Qed.

Lemma sort_dedup_elem l w : w ∈ sort_dedup l ↔ w ∈ l.
Proof.
  induction l as [|q l IH]; simpl; [done|]. by rewrite insert_path_elem, IH, elem_of_cons.
Qed.

(** The order of paths is strict, so a sorted path set has no duplicates. *)
Lemma string_compare_trans a b c :
  String.compare a b = Lt → String.compare b c = Lt → String.compare a c = Lt.
Proof.
  revert b c. induction a as [|x a IH]; intros [|y b] [|z c]; cbn; try done.
  unfold Ascii.compare.
  destruct (N.compare_spec (N_of_ascii x) (N_of_ascii y)) as [E1|E1|E1]; [..|done];
  destruct (N.compare_spec (N_of_ascii y) (N_of_ascii z)) as [E2|E2|E2]; try done;
  destruct (N.compare_spec (N_of_ascii x) (N_of_ascii z)); try done; try lia. apply IH.
Qed.

Lemma compare_component_antisym a b : compare_component b a = CompOpp (compare_component a b).
Proof. destruct a, b; cbn; try done. by rewrite String.compare_antisym. Qed.

Lemma compare_component_trans a b c :
  compare_component a b = Lt → compare_component b c = Lt → compare_component a c = Lt.
Proof. destruct a, b, c; cbn; try done. apply string_compare_trans. Qed.

Lemma compare_component_refl a : compare_component a a = Eq.
Proof.
  destruct a as [| | |n]; cbn; try done. pose proof (String.compare_antisym n n) as Ha.
  by destruct (String.compare n n).
Qed.

Lemma compare_path_antisym p q : compare_path q p = CompOpp (compare_path p q).
Proof.
  revert q. induction p as [|a p IH]; intros [|b q]; cbn; try done.
  rewrite compare_component_antisym. destruct (compare_component a b); cbn; [apply IH|done|done].
Qed.

Definition path_lt (p q : path) : Prop := compare_path p q = Lt.

Lemma path_lt_trans p q r : path_lt p q → path_lt q r → path_lt p r.
Proof.
  unfold path_lt. revert q r. induction p as [|a p IH]; intros [|b q] [|c r]; cbn; try done.
  destruct (compare_component a b) eqn:E1; [apply compare_component_eq in E1 as ->| |done];
  destruct (compare_component b c) eqn:E2; try done.
  - apply IH.
  - apply compare_component_eq in E2 as ->. by rewrite E1.
  - by rewrite (compare_component_trans a b c).
Qed.

Lemma path_lt_irrefl p : ¬ path_lt p p.
Proof.
  unfold path_lt. induction p as [|a p IH]; cbn; [done|]. by rewrite compare_component_refl.
Qed.

Lemma insert_path_sorted p l : StronglySorted path_lt l → StronglySorted path_lt (insert_path p l).
Proof.
  induction 1 as [|q l Hs IH Hf]; cbn [insert_path]; [repeat constructor|].
  destruct (compare_path p q) eqn:E; [by constructor| |].
  - constructor; [by constructor|]. constructor; [done|].
    eapply Forall_impl; [exact Hf|]. intros r Hr. by eapply path_lt_trans.
  - constructor; [done|]. rewrite Forall_forall in Hf |- *. intros r [->|Hr]%insert_path_elem; [|auto].
    unfold path_lt. by rewrite compare_path_antisym, E.
Qed.

Lemma sort_dedup_sorted l : StronglySorted path_lt (sort_dedup l).
Proof. induction l as [|p l IH]; cbn; [constructor|]. by apply insert_path_sorted. Qed.

Lemma sorted_NoDup l : StronglySorted path_lt l → NoDup l.
Proof.
  induction 1 as [|p l Hs IH Hf]; constructor; [|done]. intros Hp.
  rewrite Forall_forall in Hf. by apply (path_lt_irrefl p), Hf.
Qed.

(** ** Printing and reading back *)

Definition name_ok (n : string) : bool :=
  negb (is_empty n) && negb (String.eqb n ".") && negb (String.eqb n "..")
  && negb (contains_char n slash).

Definition component_ok (c : component) : bool :=
  match c with Normal n => name_ok n | _ => true end.

Definition path_ok (p : path) : bool := path_wf p && forallb component_ok p.

Lemma split_no_sep c w : contains_char w c = false → split_char c w = [w].
Proof.
  unfold split_char. induction w as [|a w IH]; [done|]. cbn. rewrite orb_false_iff.
  intros [Ha Hw]. rewrite Ascii.eqb_sym, Ha, IH by done. done.
Qed.

Lemma split_behind c w s :
  contains_char w c = false → split_char c (w +:+ String c s) = w :: split_char c s.
Proof.
  unfold split_char. induction w as [|a w IH]; cbn; [by rewrite Ascii.eqb_refl|].
  rewrite orb_false_iff. intros [Ha Hw]. rewrite Ascii.eqb_sym, Ha, IH by done. done.
Qed.

Lemma split_joined c ws :
  ws ≠ [] → Forall (λ w, contains_char w c = false) ws → split_char c (join_with (String c EmptyString) ws) = ws.
Proof.
  destruct ws as [|w ws]; [done|]. intros _. revert w. induction ws as [|v ws IH]; intros w [Hw Hws]%Forall_cons.
  - cbn [join_with]. by apply split_no_sep.
  - change (join_with (String c EmptyString) (w :: v :: ws)) with (w +:+ String c (join_with (String c EmptyString) (v :: ws))).
    rewrite split_behind by done. by rewrite IH.
Qed.

Lemma split_join w ws :
  Forall (λ w, contains_char w slash = false) (w :: ws) →
  split_char slash (join_with "/" (w :: ws)) = w :: ws.
Proof. by apply split_joined. Qed.

Lemma component_no_slash c :
  is_root c = false → component_ok c = true → contains_char (component_str c) slash = false.
Proof.
  destruct c as [| | |n]; try done. cbn. unfold name_ok. intros _ H. by to_prop.
Qed.

Lemma segment_component c :
  is_root c = false → is_cur c = false → component_ok c = true → segment (component_str c) = [c].
Proof.
  destruct c as [| | |n]; try done. cbn. unfold name_ok, segment. intros _ _ H. to_prop.
  destruct (is_empty n), (String.eqb n "."), (String.eqb n ".."); done.
Qed.

Lemma segments_tail p :
  path_tail_ok p = true → forallb component_ok p = true →
  concat (segment <$> (component_str <$> p)) = p
  ∧ Forall (λ w, contains_char w slash = false) (component_str <$> p).
Proof.
  induction p as [|c p IH]; [by repeat constructor|]. cbn.
  intros [[Hr Hc]%andb_true_iff Ht]%andb_true_iff [Hok Hp]%andb_true_iff.
  apply negb_true_iff in Hr, Hc. destruct (IH Ht Hp) as [Heq Hall].
  rewrite segment_component, Heq by done. split; [done|]. constructor; [by apply component_no_slash|done].
Qed.

Lemma components_to_str p : path_ok p = true → components (to_str p) = p.
Proof.
  unfold path_ok. intros [Hwf Hok]%andb_true_iff. destruct p as [|c p]; [done|].
  cbn in Hwf, Hok. apply andb_true_iff in Hok as [Hc Hok].
  destruct (segments_tail p Hwf Hok) as [Heq Hall].
  destruct (is_root c) eqn:Er.
  - destruct c; try done. unfold to_str, components.
    change ("/" +:+ join_with "/" (component_str <$> p)) with (String slash (join_with "/" (component_str <$> p))).
    replace (starts_with (String slash _) "/") with true by done.
    change (String slash (join_with "/" (component_str <$> p)))
      with (EmptyString +:+ String slash (join_with "/" (component_str <$> p))).
    rewrite split_behind by done. cbn [fmap list_fmap concat]. change (segment EmptyString) with (@nil component).
    cbn [app]. f_equal. destruct p as [|d p]; [done|]. rewrite fmap_cons in *.
    rewrite split_join by done. exact Heq.
  - assert (to_str (c :: p) = join_with "/" (component_str <$> (c :: p))) as -> by (by destruct c).
    unfold components. rewrite fmap_cons.
    assert (starts_with (join_with "/" (component_str c :: (component_str <$> p))) "/" = false) as ->.
    { pose proof (component_no_slash c Er Hc) as Hs.
      assert (component_str c ≠ EmptyString) as Hne.
      { destruct c as [| | |n]; try done. cbn in *. unfold name_ok in Hc. intros ->. done. }
      destruct (component_str c) as [|a s]; [done|]. cbn in Hs. apply orb_false_iff in Hs as [Ha _].
      apply not_true_iff_false. intros [r Hr]%starts_with_true.
      destruct p; cbn in Hr; injection Hr as ->; done. }
    rewrite split_join by (constructor; [by apply component_no_slash|done]).
    rewrite Heq. destruct c as [| | |n]; try done. cbn [component_str].
    cbn in Hc. pose proof (segment_component (Normal n) eq_refl eq_refl Hc) as Hseg. cbn in Hseg.
    rewrite Hseg. unfold name_ok in Hc. to_prop. by destruct (String.eqb n ".").
Qed.

Lemma join_snoc ws w x : join_with "/" (ws ++ [w]) +:+ x = join_with "/" (ws ++ [w +:+ x]).
Proof.
  induction ws as [|v [|u ws] IH]; [done|by cbn; rewrite !string_app_assoc|].
  change (join_with "/" ((v :: u :: ws) ++ [w])) with (v +:+ "/" +:+ join_with "/" ((u :: ws) ++ [w])).
  change (join_with "/" ((v :: u :: ws) ++ [w +:+ x]))
    with (v +:+ "/" +:+ join_with "/" ((u :: ws) ++ [w +:+ x])).
  by rewrite !string_app_assoc, IH.
Qed.

(** Text put behind a path lengthens its last name. *)
Lemma to_str_snoc q n x :
  to_str (q ++ [Normal n]) +:+ x = to_str (q ++ [Normal (n +:+ x)]).
Proof.
  assert (∀ q, join_with "/" (component_str <$> (q ++ [Normal n])) +:+ x
               = join_with "/" (component_str <$> (q ++ [Normal (n +:+ x)]))) as H
    by (intros r; rewrite !fmap_app; apply join_snoc).
  destruct q as [|[] q]; [apply (H [])|unfold to_str; cbn [app]|apply (H (_ :: q))..].
  rewrite string_app_assoc. by rewrite H.
Qed.

Lemma path_ok_snoc q n m :
  path_ok (q ++ [Normal n]) = true → name_ok m = true → path_ok (q ++ [Normal m]) = true.
Proof.
  unfold path_ok. rewrite !forallb_app. cbn. intros H Hm. to_prop. rewrite Hm.
  destruct q as [|c q]; cbn in *; [done|]. unfold path_tail_ok in *. rewrite !forallb_app in *. cbn in *.
  to_prop. by repeat (apply andb_true_iff; split).
Qed.
