(* ===== verification/Float64.v ===== *)
(** * Float64: the [f64] operations the sources use

    IEEE-754 binary64 values are the Standard Library's [spec_float] with 53
    bits of precision; [parse_f64] is Rust's [str::parse::<f64>], correctly
    rounded; [as_uint] is the saturating [as] cast and [round] rounds half away
    from zero. *)

From Stdlib Require Import Floats.SpecFloat.
From S2P Require Import Prelude.

Definition f64 : Type := spec_float.

Definition is_nan (x : f64) : bool := match x with S754_nan => true | _ => false end.

Definition prec : Z := 53.
Definition emax : Z := 1024.

Definition f64_of_Z (n : Z) : f64 := binary_normalize prec emax n 0 false.
Definition f64_mul : f64 → f64 → f64 := SFmul prec emax.
Definition f64_div : f64 → f64 → f64 := SFdiv prec emax.
Definition f64_lt : f64 → f64 → bool := SFltb.
Definition f64_le : f64 → f64 → bool := SFleb.
Definition f64_gt (x y : f64) : bool := SFltb y x.
Definition f64_is_finite (x : f64) : bool :=
  match x with S754_zero _ | S754_finite _ _ _ => true | _ => false end.

(** The integer nearest to a finite value, halves away from zero; the result of
    [f64::round] is always an integer that binary64 represents. *)
Definition round_magnitude (m : positive) (e : Z) : Z :=
  if 0 <=? e then Z.pos m * 2 ^ e
  else (2 * Z.pos m + 2 ^ (- e)) / 2 ^ (1 - e).
Definition f64_round (x : f64) : f64 :=
  match x with
  | S754_finite s m e => 
      let r := round_magnitude m e in
      if r =? 0 then S754_zero s
      else if s then SFopp (f64_of_Z r) else f64_of_Z r
  | _ => x
  end.

(** [x as uN]: truncation, saturating at the bounds; NaN gives 0. *)
Definition as_uint (max : Z) (x : f64) : Z :=
  match x with
  | S754_nan | S754_zero _ | S754_infinity true | S754_finite true _ _ => 0
  | S754_infinity false => max
  | S754_finite false m e =>
      Z.min max (if 0 <=? e then Z.pos m * 2 ^ e else Z.pos m / 2 ^ (- e))
  end.

(** ** Parsing *)

(** Decimal digits of a prefix: value, count and rest. *)
Fixpoint take_digits (acc : Z) (n : Z) (s : string) : Z * Z * string :=
  match s with
  | String c s' =>
      match digit_value 10 c with
      | Some d => take_digits (acc * 10 + d) (n + 1) s'
      | None => (acc, n, s)
      end
  | EmptyString => (acc, n, EmptyString)
  end.

(** The value [m * 10^e], correctly rounded. *)
Definition decimal_to_f64 (neg : bool) (m e : Z) : f64 :=
  match m with
  | Zpos p =>
      if 0 <=? e then
        match binary_normalize prec emax (m * 10 ^ e) 0 false with
        | S754_finite _ a b => S754_finite neg a b
        | S754_infinity _ => S754_infinity neg
        | x => x
        end
      else f64_div (S754_finite neg p 0) (S754_finite false (Z.to_pos (10 ^ (- e))) 0)
  | _ => S754_zero neg
  end.

(** [('e' | 'E') sign? digit+], or nothing. *)
Definition parse_exponent (s : string) : option Z :=
  match s with
  | EmptyString => Some 0
  | String c s' =>
      if Ascii.eqb c "e" || Ascii.eqb c "E" then
        let '(neg, body) :=
          match s' with
          | String "-" r => (true, r)
          | String "+" r => (false, r)
          | _ => (false, s')
          end in
        match take_digits 0 0 body with
        | (v, n, EmptyString) => if n =? 0 then None else Some (if neg then - v else v)
        | _ => None
        end
      else None
  end.

Definition parse_number (neg : bool) (s : string) : option f64 :=
  let '(int, n1, rest) := take_digits 0 0 s in
  let '(m, n2, rest) :=
    match rest with
    | String "." r => take_digits int 0 r
    | _ => (int, 0, rest)
    end in
  if n1 + n2 =? 0 then None
  else match parse_exponent rest with
       | Some e => Some (decimal_to_f64 neg m (e - n2))
       | None => None
       end.

Definition parse_f64 (s : string) : option f64 :=
  let '(neg, body) :=
    match s with
    | String "-" r => (true, r)
    | String "+" r => (false, r)
    | _ => (false, s)
    end in
  if is_empty body then None
  else if eq_ignore_ascii_case body "inf" || eq_ignore_ascii_case body "infinity"
  then Some (S754_infinity neg)
  else if eq_ignore_ascii_case body "nan" then Some S754_nan
  else parse_number neg body.

(** ** The order of the values that are numbers *)

Lemma f64_le_refl x : is_nan x = false → f64_le x x = true.
Proof.
  destruct x as [s|s| |s m e]; try done; intros _; unfold f64_le, SFleb; cbn.
  - by destruct s.
  - destruct s; rewrite Z.compare_refl; change (Pos.compare_cont Eq m m) with (m ?= m)%positive; by rewrite Pos.compare_refl.
Qed.

Lemma f64_le_total x y :
  is_nan x = false → is_nan y = false → f64_le x y = false → f64_le y x = true.
Proof.
  destruct x as [[]|[]| |[] m e], y as [[]|[]| |[] n f]; try done; intros _ _;
    unfold f64_le, SFleb; cbn; rewrite (Z.compare_antisym e f);
    change (Pos.compare_cont Eq m n) with (m ?= n)%positive;
    change (Pos.compare_cont Eq n m) with (n ?= m)%positive;
    rewrite (Pos.compare_antisym m n); destruct (e ?= f); try done; cbn;
    destruct (m ?= n)%positive; done.
Qed.

Lemma f64_le_trans x y z : f64_le x y = true → f64_le y z = true → f64_le x z = true.
Proof.
  destruct x as [[]|[]| |[] m e], y as [[]|[]| |[] n f], z as [[]|[]| |[] o g]; try done;
    unfold f64_le, SFleb; cbn;
    change (Pos.compare_cont Eq m n) with (m ?= n)%positive;
    change (Pos.compare_cont Eq n o) with (n ?= o)%positive;
    change (Pos.compare_cont Eq m o) with (m ?= o)%positive;
    destruct (Z.compare_spec e f), (Z.compare_spec f g), (Z.compare_spec e g); try done; try lia;
    destruct (Pos.compare_spec m n), (Pos.compare_spec n o), (Pos.compare_spec m o); try done; lia.
Qed.

(** ** Bounds and samples *)

Lemma as_uint_bounds max x : 0 ≤ max → 0 ≤ as_uint max x ≤ max.
Proof.
  intros Hm. unfold as_uint. destruct x as [[]|[]| |[] m e]; try lia.
  assert (0 ≤ if 0 <=? e then Z.pos m * 2 ^ e else Z.pos m / 2 ^ (- e)); [|lia].
  destruct (Z.leb_spec 0 e).
  - apply Z.mul_nonneg_nonneg; lia.
  - apply Z.div_pos; [lia|]. apply Z.pow_pos_nonneg; lia.
Qed.

Example parse_f64_one_and_half :
  parse_f64 "1.5" = Some (S754_finite false 6755399441055744 (-52)).
Proof. vm_compute. reflexivity. Qed.
Example parse_f64_tenth :
  parse_f64 "0.1" = Some (S754_finite false 7205759403792794 (-56)).
Proof. vm_compute. reflexivity. Qed.
Example parse_f64_big : parse_f64 "1e400" = Some (S754_infinity false).
Proof. vm_compute. reflexivity. Qed.
Example parse_f64_exact : parse_f64 "9007199254740993" = parse_f64 "9007199254740992.0".
Proof. vm_compute. reflexivity. Qed.
Example parse_f64_bad : parse_f64 "1.5x" = None ∧ parse_f64 "." = None ∧ parse_f64 "e5" = None.
Proof. vm_compute. auto. Qed.
Example round_half_away :
  f64_round (f64_div (f64_of_Z 5) (f64_of_Z 2)) = f64_of_Z 3
  ∧ f64_round (f64_div (f64_of_Z (-5)) (f64_of_Z 2)) = f64_of_Z (-3).
Proof. vm_compute. auto. Qed.
