(* ===== verification/PolicyTypes.v ===== *)
(** * PolicyTypes: the resolved policy and its value parsers

    Model of [src/src/policy/types.rs]: tiers, network modes, actions and
    verdicts, byte and CPU quantities, the strictest-wins merges, the
    environment allowlist, the [Policy] record with its scope tests, host
    clean-up and the deny-overlap analysis. *)

From S2P Require Import Prelude Paths Float64.

(** ** Enumerations *)

Inductive Tier : Type := Full | FsOnly | Seccomp.
#[export] Instance Tier_eq_dec : EqDecision Tier.
Proof. solve_decision. Defined.

Definition tier_label (t : Tier) : string :=
  match t with Full => "full" | FsOnly => "fs-only" | Seccomp => "seccomp" end.

Inductive SeccompProfile : Type := DefaultProfile | AgentMin.
#[export] Instance SeccompProfile_eq_dec : EqDecision SeccompProfile.
Proof. solve_decision. Defined.

Definition profile_parse (s : string) : option SeccompProfile :=
  if String.eqb s "default" || String.eqb s "standard" then Some DefaultProfile
  else if String.eqb s "agent-min" || String.eqb s "agent_min" then Some AgentMin
  else None.
Definition profile_label (p : SeccompProfile) : string :=
  match p with DefaultProfile => "default" | AgentMin => "agent-min" end.

Record NetRule : Type := mk_net_rule { rule_domain : string; rule_port : Z }.
#[export] Instance NetRule_eq_dec : EqDecision NetRule.
Proof. solve_decision. Defined.

Inductive NetMode : Type :=
| NetOff
| NetAllowlist (domains : list string)
| NetStrict (rules : list NetRule)
| NetAsk.
#[export] Instance NetMode_eq_dec : EqDecision NetMode.
Proof. solve_decision. Defined.

Definition net_label (m : NetMode) : string :=
  match m with
  | NetOff => "off"
  | NetAllowlist domains => "allowlist:" +:+ join_with "," domains
  | NetStrict rules =>
      "strict:" +:+ join_with ","
        ((λ r, rule_domain r +:+ ":" +:+ to_dec (rule_port r)) <$> rules)
  | NetAsk => "ask"
  end.

Definition uses_relay (m : NetMode) : bool :=
  match m with NetAllowlist _ | NetStrict _ | NetAsk => true | NetOff => false end.

(** ** Actions and verdicts *)

Inductive Action : Type :=
| FsRead (p : path)
| FsWrite (p : path)
| ProcessExec (binary : path) (args : list string)
| NetConnect (domain : string) (port : Z).

Definition action_type (a : Action) : string :=
  match a with
  | FsRead _ => "fs:read"
  | FsWrite _ => "fs:write"
  | ProcessExec _ _ => "process:exec"
  | NetConnect _ _ => "net:connect"
  end.

Definition target_display (a : Action) : string :=
  match a with
  | FsRead p | FsWrite p => to_str p
  | ProcessExec binary args =>
      match args with
      | [] => to_str binary
      | _ => to_str binary +:+ " " +:+ join_with " " args
      end
  | NetConnect domain port => domain +:+ ":" +:+ to_dec port
  end.

Inductive ActionVerdict : Type :=
| Allowed
| Denied (reason rule : string).

Definition is_allowed (v : ActionVerdict) : bool :=
  match v with Allowed => true | Denied _ _ => false end.
Definition is_denied (v : ActionVerdict) : bool :=
  match v with Denied _ _ => true | Allowed => false end.
Definition denial_reason (v : ActionVerdict) : option string :=
  match v with Denied reason _ => Some reason | Allowed => None end.
Definition denial_rule (v : ActionVerdict) : option string :=
  match v with Denied _ rule => Some rule | Allowed => None end.

Inductive PolicyError : Type :=
| CompilationFailed (msg : string)
| LockdownViolation (msg : string)
| VerificationFailed (msg : string).

Definition policy_error_exit_code (e : PolicyError) : Z :=
  match e with
  | CompilationFailed _ | VerificationFailed _ => 125
  | LockdownViolation _ => 126
  end.

(** ** Byte quantities *)

Inductive UnitStandard : Type := IecBinary | SiDecimal.

Inductive ParseBytesError : Type :=
| EmptyInput
| InvalidNumber (s : string)
| UnknownUnit (s : string)
| Overflow.

#[export] Instance ParseBytesError_eq_dec : EqDecision ParseBytesError.
Proof. solve_decision. Defined.

Definition KIB : Z := 1024.
Definition MIB : Z := 1024 * 1024.
Definition GIB : Z := 1024 * 1024 * 1024.
Definition TIB : Z := 1024 * 1024 * 1024 * 1024.
Definition KB : Z := 1000.
Definition MB : Z := 1000 * 1000.
Definition GB : Z := 1000 * 1000 * 1000.
Definition TB : Z := 1000 * 1000 * 1000 * 1000.

(** The suffix chain, in the source's order: suffix, multiplier. *)
Definition unit_table (standard : UnitStandard) : list (string * Z) :=
  let pick (i d : Z) := match standard with IecBinary => i | SiDecimal => d end in
  [("tib", TIB); ("gib", GIB); ("mib", MIB); ("kib", KIB);
   ("tb", pick TIB TB); ("gb", pick GIB GB); ("mb", pick MIB MB); ("kb", pick KIB KB);
   ("t", pick TIB TB); ("g", pick GIB GB); ("m", pick MIB MB); ("k", pick KIB KB);
   ("b", 1)].

Definition match_unit (standard : UnitStandard) (lower : string) : option (string * Z) :=
  first_some (λ '(suf, mult),
    match strip_suffix suf lower with Some n => Some (n, mult) | None => None end)
    (unit_table standard).

(** The [f64] branch for numbers with a decimal point. *)
Definition parse_fractional (trimmed : string) (mult : Z) : result ParseBytesError Z :=
  match parse_f64 trimmed with
  | None => Err (InvalidNumber trimmed)
  | Some val =>
      if negb (f64_is_finite val) || f64_lt val (f64_of_Z 0)
      then Err (InvalidNumber trimmed)
      else
        let bytes := f64_round (f64_mul val (f64_of_Z mult)) in
        if f64_gt bytes (f64_of_Z u64_max) then Err Overflow
        else Ok (as_uint u64_max bytes)
  end.

Definition parse_integral (trimmed : string) (mult : Z) : result ParseBytesError Z :=
  match parse_u64 trimmed with
  | None =>
      if starts_with trimmed "-" || negb (all_chars is_digit trimmed)
      then Err (InvalidNumber trimmed) else Err Overflow
  | Some val => ok_or (checked_mul_u64 val mult) Overflow
  end.

Definition parse_bytes_with_standard (input : string) (standard : UnitStandard) :
  result ParseBytesError Z :=
  let s := trim input in
  if is_empty s then Err EmptyInput
  else match parse_u64 s with
  | Some raw => Ok raw
  | None =>
      match match_unit standard (to_ascii_lowercase s) with
      | None => if all_chars is_digit s then Err Overflow else Err (UnknownUnit s)
      | Some (number_str, mult) =>
          let trimmed := trim number_str in
          if is_empty trimmed then Err (InvalidNumber trimmed)
          else if contains_char trimmed "." then parse_fractional trimmed mult
          else parse_integral trimmed mult
      end
  end.

Definition parse_bytes (input : string) : result ParseBytesError Z :=
  parse_bytes_with_standard input SiDecimal.

Definition parse_cgroup_memory (input : string) : result ParseBytesError (option Z) :=
  let s := trim input in
  if is_empty s || eq_ignore_ascii_case s "max" || String.eqb s "-1" then Ok None
  else Some <$> parse_bytes_with_standard s IecBinary.

Definition parse_bytes_value (input : string) : option Z :=
  match parse_cgroup_memory input with Ok v => v | Err _ => None end.

Definition parse_byte_size (value : string) : option Z :=
  match parse_bytes value with Ok v => Some v | Err _ => None end.

Definition parse_memory_bytes (input : string) : option string :=
  match parse_cgroup_memory input with
  | Err _ => None
  | Ok None => Some "max"
  | Ok (Some bytes) => Some (to_dec bytes)
  end.

(** ** CPU quantities *)

Definition parse_cpu_ratio (input : string) : option f64 :=
  let s := trim input in
  if is_empty s || eq_ignore_ascii_case s "max" || starts_with s "max " then None
  else match strip_suffix "%" s with
  | Some pct_str =>
      match parse_f64 (trim pct_str) with
      | Some pct => Some (f64_div pct (f64_of_Z 100))
      | None => None
      end
  | None =>
      if contains_char s " " then
        match split_whitespace s with
        | quota_s :: period_s :: _ =>
            if eq_ignore_ascii_case quota_s "max" then None
            else match parse_f64 quota_s, parse_f64 period_s with
                 | Some quota, Some period =>
                     if f64_gt period (f64_of_Z 0) then Some (f64_div quota period) else None
                 | _, _ => None
                 end
        | _ => None
        end
      else match parse_f64 s with
           | Some num =>
               if f64_gt num (f64_of_Z 1000) then Some (f64_div num (f64_of_Z 100000))
               else Some (f64_div num (f64_of_Z 100))
           | None => None
           end
  end.

Definition parse_cpu_max (input : string) : option string :=
  let s := trim input in
  if is_empty s || eq_ignore_ascii_case s "max" then Some "max 100000"
  else if ends_with s "%" then
    match parse_f64 (trim (trim_end_char "%" s)) with
    | None => None
    | Some pct =>
        let quota := as_uint u64_max
          (f64_mul (f64_div pct (f64_of_Z 100)) (f64_of_Z 100000)) in
        Some (to_dec quota +:+ " " +:+ to_dec 100000)
    end
  else if contains_char s " " then Some s
  else match parse_u64 s with
       | Some quota => Some (to_dec quota +:+ " 100000")
       | None => None
       end.

(** ** Strictest-wins merges *)

Definition strictest (left right : option Z) : option Z :=
  match left, right with
  | Some l, Some r => Some (Z.min l r)
  | Some v, None | None, Some v => Some v
  | None, None => None
  end.

Definition strictest_memory_str (left right : option string) : option string :=
  match left, right with
  | Some l, Some r =>
      let l_trimmed := trim l in
      let r_trimmed := trim r in
      match parse_bytes_value l_trimmed, parse_bytes_value r_trimmed with
      | Some lb, Some rb => if lb <=? rb then Some l else Some r
      | Some _, None => Some l
      | None, Some _ => Some r
      | None, None =>
          if eq_ignore_ascii_case l_trimmed "max" || eq_ignore_ascii_case r_trimmed "max"
          then Some "max" else Some l
      end
  | Some l, None => Some l
  | None, Some r => Some r
  | None, None => None
  end.

Definition pids_value (trimmed : string) : option Z :=
  if eq_ignore_ascii_case trimmed "max" then None else parse_u64 trimmed.

Definition strictest_pids_str (left right : option string) : option string :=
  match left, right with
  | Some l, Some r =>
      let l_trimmed := trim l in
      let r_trimmed := trim r in
      match pids_value l_trimmed, pids_value r_trimmed with
      | Some lp, Some rp => if lp <=? rp then Some l else Some r
      | Some _, None => Some l
      | None, Some _ => Some r
      | None, None =>
          if eq_ignore_ascii_case l_trimmed "max" || eq_ignore_ascii_case r_trimmed "max"
          then Some "max" else Some l
      end
  | Some l, None => Some l
  | None, Some r => Some r
  | None, None => None
  end.

Definition strictest_cpu_max (left right : option string) : option string :=
  match left, right with
  | Some l, Some r =>
      let l_trimmed := trim l in
      let r_trimmed := trim r in
      match parse_cpu_ratio l_trimmed, parse_cpu_ratio r_trimmed with
      | Some lr, Some rr => if f64_le lr rr then Some l else Some r
      | Some _, None => Some l
      | None, Some _ => Some r
      | None, None =>
          if starts_with l_trimmed "max" || starts_with r_trimmed "max"
          then Some "max 100000" else Some l
      end
  | Some l, None => Some l
  | None, Some r => Some r
  | None, None => None
  end.

Record CgroupConfig : Type := mk_cgroup {
  memory_max : option string;
  pids_max : option string;
  swap_max : option string;
  cgroup_cpu_max : option string;
}.
#[export] Instance CgroupConfig_eq_dec : EqDecision CgroupConfig.
Proof. solve_decision. Defined.

Definition cgroup_merge_strictest (self other : CgroupConfig) : CgroupConfig :=
  mk_cgroup (strictest_memory_str (memory_max self) (memory_max other))
            (strictest_pids_str (pids_max self) (pids_max other))
            (strictest_memory_str (swap_max self) (swap_max other))
            (strictest_cpu_max (cgroup_cpu_max self) (cgroup_cpu_max other)).

Record IoRateLimit : Type := mk_io_rate { max_iops : option Z; max_bandwidth : option Z }.
#[export] Instance IoRateLimit_eq_dec : EqDecision IoRateLimit.
Proof. solve_decision. Defined.

Definition io_merge_strictest (self other : IoRateLimit) : IoRateLimit :=
  mk_io_rate (strictest (max_iops self) (max_iops other))
             (strictest (max_bandwidth self) (max_bandwidth other)).

Record ResourceLimits : Type := mk_limits {
  cpu_seconds : option Z;
  address_space_bytes : option Z;
  processes : option Z;
  open_files : option Z;
  file_size_bytes : option Z;
  io_rate : option IoRateLimit;
}.
#[export] Instance ResourceLimits_eq_dec : EqDecision ResourceLimits.
Proof. solve_decision. Defined.

Definition limits_merge_strictest (self other : ResourceLimits) : ResourceLimits :=
  mk_limits (strictest (cpu_seconds self) (cpu_seconds other))
    (strictest (address_space_bytes self) (address_space_bytes other))
    (strictest (processes self) (processes other))
    (strictest (open_files self) (open_files other))
    (strictest (file_size_bytes self) (file_size_bytes other))
    (match io_rate self, io_rate other with
     | Some existing, Some incoming => Some (io_merge_strictest existing incoming)
     | None, Some incoming => Some incoming
     | r, _ => r
     end).

(** ** Policy layers *)

Inductive PolicySourceKind : Type :=
| SystemGlobal | UserGlobal | BuiltinProfile | Preset | AgentPreset | Repository
| RepositoryFragment | LocalOverride | CliExplicit | CliOverride.
#[export] Instance PolicySourceKind_eq_dec : EqDecision PolicySourceKind.
Proof. solve_decision. Defined.

Definition precedence (k : PolicySourceKind) : Z :=
  match k with
  | SystemGlobal => 1
  | UserGlobal => 2
  | BuiltinProfile | Preset => 3
  | AgentPreset => 4
  | Repository | RepositoryFragment => 5
  | LocalOverride => 6
  | CliExplicit | CliOverride => 7
  end.

Definition source_label (k : PolicySourceKind) : string :=
  match k with
  | SystemGlobal => "system-global"
  | UserGlobal => "user-global"
  | BuiltinProfile => "builtin-profile"
  | Preset => "preset"
  | AgentPreset => "agent-preset"
  | Repository => "repository"
  | RepositoryFragment => "repository-fragment"
  | LocalOverride => "local-override"
  | CliExplicit => "cli-explicit"
  | CliOverride => "cli-override"
  end.

Record DenyEntry : Type := mk_deny { deny_path : path; deny_is_dir : bool }.
#[export] Instance DenyEntry_eq_dec : EqDecision DenyEntry.
Proof. solve_decision. Defined.

Record PolicyMetadata : Type := mk_metadata {
  meta_name : string;
  meta_description : string;
  meta_extends : list string;
  source_kind : option PolicySourceKind;
  immutable : bool;
}.
#[export] Instance PolicyMetadata_eq_dec : EqDecision PolicyMetadata.
Proof. solve_decision. Defined.

Record EnvironmentPolicy : Type := mk_env { pass_through : list string; env_deny : list string }.
#[export] Instance EnvironmentPolicy_eq_dec : EqDecision EnvironmentPolicy.
Proof. solve_decision. Defined.

(** One pattern: a trailing [*] makes it a prefix. *)
Definition env_pattern_matches (key pattern : string) : bool :=
  match strip_suffix "*" pattern with
  | Some prefix => starts_with key prefix
  | None => String.eqb pattern key
  end.

(** [EnvironmentPolicy::allows] on Unix ([key] after [to_string_lossy]). *)
Definition env_allows (self : EnvironmentPolicy) (key : string) : bool :=
  if existsb (env_pattern_matches key) (env_deny self) then false
  else existsb (env_pattern_matches key) (pass_through self).

Record SeccompNotifyConfig : Type := mk_notify {
  notify_enabled : bool;
  default_action : option string;
  allow_syscalls : list string;
}.
#[export] Instance SeccompNotifyConfig_eq_dec : EqDecision SeccompNotifyConfig.
Proof. solve_decision. Defined.

Record Policy : Type := mk_policy {
  policy_name : string;
  metadata : PolicyMetadata;
  limits : ResourceLimits;
  allow_write : list path;
  allow_read : list path;
  deny_write : list path;
  deny_read : list path;
  deny_resolved : list DenyEntry;
  environment : EnvironmentPolicy;
  deny_network : bool;
  network_mode : option string;
  network_allow : list string;
  allow_cidr : list string;
  net_quota : gmap string Z;
  net_bind_ports : list Z;
  net_connect_ports : list Z;
  allow_unix_sockets : list string;
  deny_unix_sockets : list string;
  seccomp_profile : SeccompProfile;
  seccomp_notify : option SeccompNotifyConfig;
  cgroup : option CgroupConfig;
  cpu_max : option string;
  io_priority : option string;
  dev_allow : option (list string);
  oslog : bool;
  lpac : bool;
  is_immutable : bool;
  system_log : bool;
  auto_deny_secrets : bool;
  secret_proxies : list string;
  ro_mounts : list path;
  git_guard : bool;
  snapshot : bool;
  read_only_caches : bool;
  shadow : bool;
  tmpfs_tmp : bool;
  warnings : list string;
}.
#[export] Instance Policy_eq_dec : EqDecision Policy.
Proof. solve_decision. Defined.

Definition default_metadata : PolicyMetadata := mk_metadata "" "" [] None false.
Definition default_limits : ResourceLimits := mk_limits None None None None None None.
Definition default_env : EnvironmentPolicy := mk_env [] [].

Definition default_policy : Policy := {|
  policy_name := "default"; metadata := default_metadata; limits := default_limits;
  allow_write := []; allow_read := []; deny_write := []; deny_read := [];
  deny_resolved := []; environment := default_env; deny_network := false;
  network_mode := None; network_allow := []; allow_cidr := []; net_quota := ∅;
  net_bind_ports := []; net_connect_ports := []; allow_unix_sockets := [];
  deny_unix_sockets := []; seccomp_profile := DefaultProfile; seccomp_notify := None;
  cgroup := None; cpu_max := None; io_priority := None; dev_allow := None;
  oslog := false; lpac := false; is_immutable := false; system_log := false;
  auto_deny_secrets := false; secret_proxies := []; ro_mounts := [];
  git_guard := false; snapshot := false; read_only_caches := false; shadow := false;
  tmpfs_tmp := true; warnings := [] |}.

Definition summary (p : Policy) : string :=
  "profile '" +:+ policy_name p +:+ "': "
  +:+ to_dec (Z.of_nat (length (allow_write p))) +:+ " write root(s), "
  +:+ to_dec (Z.of_nat (length (allow_read p))) +:+ " read root(s), "
  +:+ to_dec (Z.of_nat (length (deny_resolved p))) +:+ " deny path(s) resolved".

(** ** Scope tests *)

Section Scopes.
Variable canonicalize : path → option path.
Let norm : path → path := normalize_scope_path canonicalize.

Definition in_write_scope (self : Policy) (p : path) : bool :=
  let probed := norm p in
  if existsb (λ denied, path_starts_with probed (norm denied)) (deny_write self)
  then false
  else existsb (λ root, path_starts_with probed (norm root)) (allow_write self).

Definition in_read_scope (self : Policy) (p : path) : bool :=
  let probed := norm p in
  if existsb (λ denied, path_starts_with probed (norm denied)) (deny_read self)
  then false
  else existsb (λ root, path_starts_with probed (norm root))
         (allow_read self ++ allow_write self).
End Scopes.

(** ** Host clean-up *)

Definition strip_domain_port (s : string) : string :=
  let s := trim_end_char "." (trim s) in
  match strip_prefix "[" s with
  | Some rest =>
      match split_once "]" rest with
      | Some (inside, _) => inside
      | None => s
      end
  | None =>
      match rsplit_once ":" s with
      | Some (host_part, port_part) =>
          if negb (is_empty port_part) && all_chars is_digit port_part
             && negb (contains_char host_part ":")
          then host_part else s
      | None => s
      end
  end.

(** ** Deny overlap *)

Record DenyOverlapReport : Type := mk_overlap {
  denied_path : path;
  inside_grant : bool;
  conflicting_root : option path;
}.

(** [component_matches] off Windows. *)
Definition component_matches (l r : component) : bool :=
  match l, r with
  | RootDir, RootDir | CurDir, CurDir | ParentDir, ParentDir => true
  | Normal a, Normal b => String.eqb a b
  | _, _ => false
  end.

Fixpoint path_is_inside (candidate root : path) {struct root} : bool :=
  match candidate, root with
  | _, [] => true
  | [], _ :: _ => false
  | c :: candidate, r :: root =>
      if component_matches c r then path_is_inside candidate root else false
  end.

Definition analyze_deny_overlap (policy : Policy) : list DenyOverlapReport :=
  let granted_roots := allow_write policy ++ allow_read policy in
  (λ denied,
     let conflicting := List.find (path_is_inside (deny_path denied)) granted_roots in
     mk_overlap (deny_path denied)
       (match conflicting with Some _ => true | None => false end) conflicting)
  <$> deny_resolved policy.

(** ** Lemmas: byte quantities *)

Definition unit_suffixes : list string :=
  ["tib"; "gib"; "mib"; "kib"; "tb"; "gb"; "mb"; "kb"; "t"; "g"; "m"; "k"; "b"].

(** A unit's own entry is the first of the chain that matches a number
    followed by that unit. *)
Lemma match_unit_number standard ds suf mult :
  all_chars is_digit ds = true → (suf, mult) ∈ unit_table standard →
  match_unit standard (ds +:+ suf) = Some (ds, mult).
Proof.
  intros Hd Hin. unfold match_unit.
  assert (∀ s m, s ≠ EmptyString → (∀ c r, s = String c r → is_digit c = false) →
    (match strip_suffix s (ds +:+ suf) with Some n => Some (n, m : Z) | None => None end)
    = match strip_suffix s suf with Some n => Some (ds +:+ n, m) | None => None end) as H.
  { intros s m Hne Hs. rewrite strip_suffix_behind_digits by done.
    by destruct (strip_suffix s suf). }
  unfold unit_table in *. cbn [first_some].
  rewrite !H by (first [done | intros ? ? [= <- <-]; reflexivity]).
  rewrite !elem_of_cons, elem_of_nil in Hin.
  repeat (destruct Hin as [[= -> ->]|Hin]; [simpl; by rewrite string_app_nil_r|]). done.
Qed.

Lemma unit_suffix_shape standard suf mult :
  (suf, mult) ∈ unit_table standard →
  to_ascii_lowercase suf = suf
  ∧ first_some (λ w, strip_suffix w suf) white_space = None
  ∧ ∃ c r, suf = String c r ∧ digit_value 10 c = None.
Proof.
  unfold unit_table. rewrite !elem_of_cons, elem_of_nil. intros Hin.
  repeat (destruct Hin as [[= -> ->]|Hin]; [split; [reflexivity|split; [vm_compute; reflexivity|
    by eexists _, _; split; [reflexivity|reflexivity]]]|]). done.
Qed.

Lemma trim_to_dec n : 0 ≤ n → trim (to_dec n) = to_dec n.
Proof.
  intros Hn. rewrite <-(string_app_nil_r (to_dec n)) at 1.
  rewrite trim_number; [apply string_app_nil_r|by apply to_dec_digits|apply to_dec_nonempty|].
  vm_compute. reflexivity.
Qed.

Lemma is_empty_to_dec n u : is_empty (to_dec n +:+ u) = false.
Proof. unfold is_empty. pose proof (to_dec_nonempty n). by destruct (to_dec n). Qed.

Lemma parse_bytes_with_standard_range input standard v :
  parse_bytes_with_standard input standard = Ok v → 0 ≤ v ≤ u64_max.
Proof.
  assert (∀ s v, parse_u64 s = Some v → 0 ≤ v ≤ u64_max) as Hp
    by (intros ? ?; apply from_str_radix_range).
  unfold parse_bytes_with_standard. intros H.
  destruct (is_empty _); [done|].
  destruct (parse_u64 (trim input)) eqn:E; [simplify_eq; eauto|].
  destruct (match_unit _ _) as [[n mult]|] eqn:Em; [|break_match_in H].
  destruct (is_empty (trim n)); [done|].
  destruct (contains_char _ _).
  - unfold parse_fractional in H. break_match_in H. apply as_uint_bounds. by vm_compute.
  - unfold parse_integral, checked_mul_u64 in H.
    destruct (parse_u64 (trim n)) as [w|] eqn:Ew; [|break_match_in H].
    destruct (Z.leb_spec (w * mult) u64_max); simplify_eq/=. apply Hp in Ew.
    assert (0 ≤ mult); [|nia].
    apply first_some_Some in Em as ([suf m] & Hin & Hm).
    destruct (strip_suffix suf _); [|done]. injection Hm as -> ->.
    assert (forallb (λ u, 0 <=? u.2) (unit_table standard) = true) as Hall
      by (destruct standard; vm_compute; reflexivity).
    rewrite forallb_forall in Hall. apply list_elem_of_In, Hall in Hin.
    by apply Z.leb_le in Hin.
Qed.

(** ** Properties: byte quantities *)

(** A decimal number followed by any unit of the chain (in either standard,
    any number that fits u64) parses to exactly [n * multiplier], and to
    [Overflow] exactly when that product exceeds u64: there is no wrap-around
    and no rounding on the integer path. *)
Theorem parse_bytes_unit_exact n suf mult standard :
  0 ≤ n ≤ u64_max → (suf, mult) ∈ unit_table standard →
  parse_bytes_with_standard (to_dec n +:+ suf) standard =
  if n * mult <=? u64_max then Ok (n * mult) else Err Overflow.
Proof.
  intros [Hn Hmax] Hin.
  destruct (unit_suffix_shape _ _ _ Hin) as (Hlow & Hws & c & r & -> & Hc).
  pose proof (to_dec_digits n Hn) as Hd. unfold parse_bytes_with_standard.
  rewrite trim_number, is_empty_to_dec; [|done|apply to_dec_nonempty|done].
  unfold parse_u64 at 1. rewrite parse_number_suffix by done.
  unfold to_ascii_lowercase in *. rewrite smap_app, Hlow.
  rewrite (smap_id _ _ is_digit) by (done || apply lower_digit).
  rewrite (match_unit_number standard _ _ mult) by done.
  rewrite trim_to_dec by done. rewrite <-(string_app_nil_r (to_dec n)) at 1.
  rewrite is_empty_to_dec, contains_char_digits by done.
  unfold parse_integral, parse_u64. rewrite from_str_radix_to_dec by done.
  destruct (Z.leb_spec n u64_max); [|lia].
  unfold checked_mul_u64. by destruct (n * mult <=? u64_max).
Qed.

Lemma parse_bytes_unit_exact_witness :
  parse_bytes_with_standard "18014398509481984k" IecBinary = Err Overflow
  ∧ parse_bytes_with_standard "512MiB" SiDecimal = Ok 536870912.
Proof.
  split; [|vm_compute; reflexivity].
  apply (parse_bytes_unit_exact 18014398509481984 "k" 1024 IecBinary);
    [vm_compute; split; discriminate|].
  apply (bool_decide_unpack _). vm_compute. exact I.
Defined.

(** Whatever the input, a successful byte parse is a u64: the integer path
    never wraps and the floating-point path saturates below [2^64]. *)
Theorem parse_bytes_in_range input standard v :
  parse_bytes_with_standard input standard = Ok v → 0 ≤ v ≤ u64_max.
Proof. apply parse_bytes_with_standard_range. Qed.

Lemma parse_bytes_in_range_witness : 0 ≤ 18446744073709551615 ≤ u64_max.
Proof.
  apply (parse_bytes_in_range "18446744073709551615.0b" IecBinary).
  vm_compute. reflexivity.
Defined.

(** ** Lemmas and properties: strictest-wins merges *)

(** [None] is "no ceiling". *)
Definition tighter (a b : option Z) : Prop :=
  match b with
  | None => True
  | Some y => match a with Some x => x ≤ y | None => False end
  end.

Definition io_tighter (a b : IoRateLimit) : Prop :=
  tighter (max_iops a) (max_iops b) ∧ tighter (max_bandwidth a) (max_bandwidth b).

Definition limits_tighter (a b : ResourceLimits) : Prop :=
  tighter (cpu_seconds a) (cpu_seconds b)
  ∧ tighter (address_space_bytes a) (address_space_bytes b)
  ∧ tighter (processes a) (processes b)
  ∧ tighter (open_files a) (open_files b)
  ∧ tighter (file_size_bytes a) (file_size_bytes b)
  ∧ match io_rate b with
    | None => True
    | Some y => match io_rate a with Some x => io_tighter x y | None => False end
    end.

Lemma strictest_comm a b : strictest a b = strictest b a.
Proof. destruct a, b; simpl; f_equal; lia. Qed.
Lemma strictest_assoc a b c : strictest a (strictest b c) = strictest (strictest a b) c.
Proof. destruct a, b, c; simpl; f_equal; lia. Qed.
Lemma strictest_idem a : strictest a a = a.
Proof. destruct a; simpl; f_equal; lia. Qed.
Lemma strictest_tighter a b : tighter (strictest a b) a.
Proof. destruct a, b; simpl; lia. Qed.
Lemma tighter_refl a : tighter a a.
Proof. destruct a; simpl; lia. Qed.
Lemma strictest_greatest c a b : tighter c a → tighter c b → tighter c (strictest a b).
Proof. destruct a, b, c; simpl; lia. Qed.

Lemma tighter_trans a b c : tighter a b → tighter b c → tighter a c.
Proof. destruct a, b, c; simpl; lia. Qed.
Lemma io_tighter_trans a b c : io_tighter a b → io_tighter b c → io_tighter a c.
Proof. intros [] []. split; by eapply tighter_trans. Qed.
Lemma limits_tighter_refl a : limits_tighter a a.
Proof.
  repeat split; try apply tighter_refl. destruct (io_rate a); [split; apply tighter_refl|done].
Qed.
Lemma limits_tighter_trans a b c : limits_tighter a b → limits_tighter b c → limits_tighter a c.
Proof.
  intros (?&?&?&?&?&Ha) (?&?&?&?&?&Hb). repeat split; try (by eapply tighter_trans).
  destruct (io_rate c); [|done]. destruct (io_rate b); [|done].
  destruct (io_rate a); [|done]. by eapply io_tighter_trans.
Qed.
(** A merge is at least as tight as its first argument. *)
Lemma limits_merge_tighter a b : limits_tighter (limits_merge_strictest a b) a.
Proof.
  repeat split; cbn; try apply strictest_tighter. destruct (io_rate a), (io_rate b); cbn; try done.
  - split; apply strictest_tighter.
  - split; apply tighter_refl.
Qed.

Lemma io_merge_comm a b : io_merge_strictest a b = io_merge_strictest b a.
Proof. unfold io_merge_strictest. f_equal; apply strictest_comm. Qed.
Lemma io_merge_assoc a b c :
  io_merge_strictest a (io_merge_strictest b c) = io_merge_strictest (io_merge_strictest a b) c.
Proof. unfold io_merge_strictest. f_equal; apply strictest_assoc. Qed.
Lemma io_merge_idem a : io_merge_strictest a a = a.
Proof. destruct a. unfold io_merge_strictest. f_equal; apply strictest_idem. Qed.

(** Merging resource limits is the meet of the "at least as strict" order:
    commutative, associative and idempotent, so the order and repetition of
    policy layers is irrelevant; the result is at least as strict as both
    inputs, and no stricter than it must be. *)
Theorem limits_merge_is_meet a b c :
  limits_merge_strictest a b = limits_merge_strictest b a
  ∧ limits_merge_strictest a (limits_merge_strictest b c)
    = limits_merge_strictest (limits_merge_strictest a b) c
  ∧ limits_merge_strictest a a = a
  ∧ limits_tighter (limits_merge_strictest a b) a
  ∧ limits_tighter (limits_merge_strictest a b) b
  ∧ (limits_tighter c a → limits_tighter c b →
     limits_tighter c (limits_merge_strictest a b)).
Proof.
  assert (∀ a b, limits_merge_strictest a b = limits_merge_strictest b a) as Hcomm.
  { intros x y. unfold limits_merge_strictest. f_equal; try apply strictest_comm.
    destruct (io_rate x), (io_rate y); try done. f_equal. apply io_merge_comm. }
  assert (∀ a b, limits_tighter (limits_merge_strictest a b) a) as Htight.
  { intros x y. unfold limits_tighter; simpl. split_and!; try apply strictest_tighter.
    destruct (io_rate x), (io_rate y); simpl; try done;
      split; simpl; first [apply strictest_tighter | apply tighter_refl]. }
  split_and!; [apply Hcomm| | |apply Htight|rewrite Hcomm; apply Htight|].
  - unfold limits_merge_strictest; simpl. f_equal; try apply strictest_assoc.
    destruct (io_rate a), (io_rate b), (io_rate c); try done. f_equal. apply io_merge_assoc.
  - destruct a as [? ? ? ? ? io]. unfold limits_merge_strictest; simpl.
    f_equal; try apply strictest_idem. destruct io; [|done]. f_equal. apply io_merge_idem.
  - unfold limits_tighter; simpl. intros (? & ? & ? & ? & ? & Hio1) (? & ? & ? & ? & ? & Hio2).
    split_and!; try by apply strictest_greatest.
    destruct (io_rate a), (io_rate b); try done. destruct (io_rate c); [|done].
    destruct Hio1, Hio2. split; simpl; by apply strictest_greatest.
Qed.

Definition mem_ceiling (o : option string) : option Z := s ← o; parse_bytes_value (trim s).
Definition pids_ceiling (o : option string) : option Z := s ← o; pids_value (trim s).

#[local] Opaque trim parse_bytes_value pids_value.

(** The string-level merges keep the stricter ceiling: the byte (and pids)
    ceiling denoted by the merged string is the minimum of the two, an absent,
    unlimited ([max]) or unreadable side never loosens a readable one, and a
    side that is present is never dropped. *)
Theorem strictest_str_is_min l r :
  mem_ceiling (strictest_memory_str l r) = strictest (mem_ceiling l) (mem_ceiling r)
  ∧ pids_ceiling (strictest_pids_str l r) = strictest (pids_ceiling l) (pids_ceiling r)
  ∧ (strictest_memory_str l r = None ↔ l = None ∧ r = None)
  ∧ (strictest_pids_str l r = None ↔ l = None ∧ r = None).
Proof.
  assert (mem_ceiling (Some "max") = None) as Hm by (vm_compute; reflexivity).
  assert (pids_ceiling (Some "max") = None) as Hp by (vm_compute; reflexivity).
  assert (∀ o, strictest o None = o) as Hnone by (by intros []).
  assert (∀ o, strictest None o = o) as Hnone' by (by intros []).
  destruct l as [l|], r as [r|]; simpl.
  2: rewrite !Hnone; split_and!; [reflexivity|reflexivity|split; [by intros [=]|by intros []]..].
  2: split_and!; [by destruct (parse_bytes_value (trim r))|by destruct (pids_value (trim r))
       |split; [by intros [=]|by intros []]..].
  2: split_and!; [reflexivity|reflexivity|split; [by split|by intros []]..].
  split_and!.
  - destruct (parse_bytes_value (trim l)) as [x|] eqn:El, (parse_bytes_value (trim r)) as [y|] eqn:Er.
    + unfold mem_ceiling. destruct (Z.leb_spec x y); cbn; rewrite ?El, ?Er; f_equal; lia.
    + unfold mem_ceiling. cbn. by rewrite El.
    + unfold mem_ceiling. cbn. by rewrite Er.
    + destruct (_ || _); [exact Hm|exact El].
  - destruct (pids_value (trim l)) as [x|] eqn:El, (pids_value (trim r)) as [y|] eqn:Er.
    + unfold pids_ceiling. destruct (Z.leb_spec x y); cbn; rewrite ?El, ?Er; f_equal; lia.
    + unfold pids_ceiling. cbn. by rewrite El.
    + unfold pids_ceiling. cbn. by rewrite Er.
    + destruct (_ || _); [exact Hp|exact El].
  - split; [|intros [[=] _]]. clear Hm Hp. intros H. exfalso. revert H.
    destruct (parse_bytes_value _), (parse_bytes_value _);
      repeat case_match; discriminate.
  - split; [|intros [[=] _]]. clear Hm Hp. intros H. exfalso. revert H.
    destruct (pids_value _), (pids_value _); repeat case_match; discriminate.
Qed.

#[local] Transparent trim parse_bytes_value pids_value.

(** ** Tighter CPU quotas and cgroup ceilings *)

(** The share of the CPU a quota text stands for, when it is a number. *)
Definition cpu_ratio (o : option string) : option f64 := s ← o; parse_cpu_ratio (trim s).

(** No quota text that reads as NaN. *)
Definition numeric_quota (o : option string) : Prop := from_option is_nan false (cpu_ratio o) = false.

(** A numeric quota is only ever replaced by a numeric quota that is no larger. *)
Definition cpu_tighter (new old : option string) : Prop :=
  ∀ y, cpu_ratio old = Some y → is_nan y = false →
    ∃ x, cpu_ratio new = Some x ∧ is_nan x = false ∧ f64_le x y = true.

Definition cgroup_tighter (new old : option CgroupConfig) : Prop :=
  ∀ o, old = Some o → ∃ n, new = Some n
    ∧ tighter (mem_ceiling (memory_max n)) (mem_ceiling (memory_max o))
    ∧ tighter (mem_ceiling (swap_max n)) (mem_ceiling (swap_max o))
    ∧ tighter (pids_ceiling (pids_max n)) (pids_ceiling (pids_max o))
    ∧ cpu_tighter (cgroup_cpu_max n) (cgroup_cpu_max o).

Lemma cpu_tighter_refl a : cpu_tighter a a.
Proof. intros y Hy Hn. exists y. split_and!; [done|done|by apply f64_le_refl]. Qed.

Lemma cpu_tighter_trans a b c : cpu_tighter a b → cpu_tighter b c → cpu_tighter a c.
Proof.
  intros Hab Hbc z Hz Hn. destruct (Hbc z Hz Hn) as (y & Hy & Hny & ?).
  destruct (Hab y Hy Hny) as (x & ? & ? & ?). exists x. split_and!; [done|done|].
  by eapply f64_le_trans.
Qed.

Lemma cgroup_tighter_refl a : cgroup_tighter a a.
Proof.
  intros o ->. exists o. split_and!; try apply tighter_refl; [done|apply cpu_tighter_refl].
Qed.

Lemma cgroup_tighter_trans a b c : cgroup_tighter a b → cgroup_tighter b c → cgroup_tighter a c.
Proof.
  intros Hab Hbc o Ho. destruct (Hbc o Ho) as (n & Hn & ? & ? & ? & ?).
  destruct (Hab n Hn) as (k & Hk & ? & ? & ? & ?). exists k.
  split_and!; [done|by eapply tighter_trans..|by eapply cpu_tighter_trans].
Qed.

#[local] Opaque trim parse_cpu_ratio.

(** The strictest quota keeps the first one's bound unless the second is NaN. *)
Lemma strictest_cpu_tighter l r : numeric_quota r → cpu_tighter (strictest_cpu_max l r) l.
Proof.
  unfold numeric_quota, cpu_tighter. intros Hr y Hy Hn. destruct l as [l|]; [|done].
  cbn in Hy. destruct r as [r|]; cbn in *.
  2: { exists y. split_and!; [done|done|by apply f64_le_refl]. }
  rewrite Hy. destruct (parse_cpu_ratio (trim r)) as [z|] eqn:Ez; cbn in *.
  - destruct (f64_le y z) eqn:El; cbn.
    + exists y. split_and!; [done|done|by apply f64_le_refl].
    + exists z. split_and!; [done|done|by apply f64_le_total].
  - exists y. split_and!; [done|done|by apply f64_le_refl].
Qed.

#[local] Transparent trim parse_cpu_ratio.

Lemma cgroup_merge_tighter c d :
  numeric_quota (cgroup_cpu_max d) →
  cgroup_tighter (Some (cgroup_merge_strictest c d)) (Some c).
Proof.
  intros Hd o [= <-]. eexists. split; [done|]. unfold cgroup_merge_strictest; cbn.
  pose proof (λ l r, proj1 (strictest_str_is_min l r)) as Hm.
  pose proof (λ l r, proj1 (proj2 (strictest_str_is_min l r))) as Hp.
  rewrite !Hm, Hp. split_and!; try apply strictest_tighter. by apply strictest_cpu_tighter.
Qed.

(** ** Lemmas and properties: scopes *)

Section ScopeFacts.
Variable canonicalize : path → option path.
(** [canonicalize] returns an absolute path without [.] and [..]. *)
Hypothesis canonicalize_normal :
  ∀ p q, canonicalize p = Some q → normal_abs q = true.

Lemma fold_push_names ns q :
  names_only ns = true → normal_abs q = true →
  normal_abs (fold_left (λ acc c, push acc [c]) ns q) = true.
Proof.
  revert q. induction ns as [|c ns IH]; intros q Hns Hq; simpl in *; [done|].
  to_prop. apply IH; [done|]. destruct c; try discriminate.
  destruct q as [|[] q]; try discriminate. simpl in *. unfold names_only in *.
  by rewrite forallb_app, Hq.
Qed.

Lemma resolve_ancestor_normal rc un p :
  path_wf p = true → is_absolute p = true → names_only un = true →
  normal_abs (resolve_ancestor canonicalize rc un p) = true.
Proof.
  intros Hwf Habs. revert un. induction rc as [|c rc IH]; intros un Hun; cbn.
  - destruct (canonicalize _) as [q|] eqn:E; [|by apply lexical_normalize_abs].
    apply canonicalize_normal in E.
    pose proof (fold_push_names un q Hun E). by rewrite lexical_normalize_fixed.
  - destruct (canonicalize _) as [q|] eqn:E.
    + apply canonicalize_normal in E.
      pose proof (fold_push_names un q Hun E). by rewrite lexical_normalize_fixed.
    + destruct c; try by apply lexical_normalize_abs. by apply IH.
Qed.

Lemma normalize_scope_path_normal p :
  path_wf p = true → is_absolute p = true →
  normal_abs (normalize_scope_path canonicalize p) = true.
Proof.
  intros Hwf Habs. unfold normalize_scope_path. rewrite Habs.
  by apply resolve_ancestor_normal.
Qed.

(** Write scope is containment after resolution: an absolute path in write
    scope resolves to a path without [.] or [..] that extends a resolved
    write root and extends no resolved deny root, so neither [..] nor a
    symlinked parent moves a write outside the granted roots; conversely
    every such path is in scope. *)
Theorem in_write_scope_contained pol p :
  path_wf p = true → is_absolute p = true →
  let q := normalize_scope_path canonicalize p in
  normal_abs q = true ∧
  (in_write_scope canonicalize pol p = true ↔
   (∃ root rest, root ∈ allow_write pol
      ∧ q = normalize_scope_path canonicalize root ++ rest)
   ∧ ∀ denied rest, denied ∈ deny_write pol →
      q ≠ normalize_scope_path canonicalize denied ++ rest).
Proof.
  intros Hwf Habs q. split; [by apply normalize_scope_path_normal|].
  unfold in_write_scope. fold q. destruct (existsb _ (deny_write pol)) eqn:Ed.
  - split; [done|]. intros [_ Hd]. apply existsb_true in Ed as (d & Hin & Hp).
    apply path_starts_with_spec in Hp as [r Hr]. by destruct (Hd d r Hin).
  - rewrite existsb_true. rewrite existsb_false, Forall_forall in Ed. split.
    + intros (root & Hin & Hp). apply path_starts_with_spec in Hp as [rest Hr].
      split; [by exists root, rest|]. intros d r Hd Hq. specialize (Ed d Hd).
      assert (path_starts_with q (normalize_scope_path canonicalize d) = true) as Ht
        by (apply path_starts_with_spec; eauto). congruence.
    + intros [(root & rest & Hin & Hq) _]. exists root. split; [done|].
      apply path_starts_with_spec. eauto.
Qed.
End ScopeFacts.

(** A file system on which only [/work] exists. *)
Definition demo_fs (p : path) : option path :=
  if bool_decide (p = components "/work") then Some p
  else if bool_decide (p = components "/") then Some p else None.

Definition demo_policy : Policy :=
  mk_policy "demo" default_metadata default_limits [components "/work"] []
    [components "/work/locked"] [] [] default_env false None [] [] ∅ [] [] [] []
    DefaultProfile None None None None None false false false false false [] []
    false false false false true [].

Lemma in_write_scope_contained_witness :
  normal_abs (normalize_scope_path demo_fs (components "/work/a/../../etc")) = true
  ∧ in_write_scope demo_fs demo_policy (components "/work/a/../../etc") = false
  ∧ in_write_scope demo_fs demo_policy (components "/work/new/file") = true.
Proof.
  split; [|split; vm_compute; reflexivity].
  refine (proj1 (in_write_scope_contained demo_fs _ demo_policy
    (components "/work/a/../../etc") eq_refl eq_refl)).
  intros p q. unfold demo_fs. intros H.
  destruct (bool_decide (p = components "/work")) eqn:E1.
  - apply bool_decide_eq_true_1 in E1. injection H as <-. rewrite E1. reflexivity.
  - destruct (bool_decide (p = components "/")) eqn:E2; [|discriminate H].
    apply bool_decide_eq_true_1 in E2. injection H as <-. rewrite E2. reflexivity.
Defined.

Lemma path_is_inside_starts_with c r : path_is_inside c r = path_starts_with c r.
Proof.
  revert c. induction r as [|x r IH]; intros [|y c]; simpl; try done.
  rewrite IH. destruct (component_matches y x) eqn:E.
  - destruct y, x; try discriminate; simpl in E; try (by rewrite bool_decide_eq_true_2).
    apply String.eqb_eq in E as ->. by rewrite bool_decide_eq_true_2.
  - rewrite bool_decide_eq_false_2; [done|]. intros ->. destruct y; try discriminate.
    simpl in E. by rewrite String.eqb_refl in E.
Qed.

(** The deny-overlap analysis reports each resolved deny path once, in
    order, and flags it exactly when some granted write or read root is a
    component-wise prefix of it; the reported root is such a root. *)
Theorem analyze_deny_overlap_spec pol :
  denied_path <$> analyze_deny_overlap pol = deny_path <$> deny_resolved pol
  ∧ Forall (λ r,
      (inside_grant r = true ↔
       ∃ root, root ∈ allow_write pol ++ allow_read pol
               ∧ path_starts_with (denied_path r) root = true)
      ∧ (∀ root, conflicting_root r = Some root →
         root ∈ allow_write pol ++ allow_read pol
         ∧ path_starts_with (denied_path r) root = true))
    (analyze_deny_overlap pol).
Proof.
  unfold analyze_deny_overlap. split.
  - rewrite <-list_fmap_compose. done.
  - apply Forall_fmap, Forall_forall. intros d _. simpl.
    set (roots := allow_write pol ++ allow_read pol).
    destruct (List.find _ roots) as [root|] eqn:E.
    + apply List.find_some in E as [Hin Hp]. rewrite path_is_inside_starts_with in Hp.
      apply list_elem_of_In in Hin. split; [split; [eauto|done]|].
      by intros ? [= <-].
    + split; [|done]. split; [done|]. intros (root & Hin & Hp).
      apply list_elem_of_In in Hin. apply (List.find_none _ _ E) in Hin.
      rewrite path_is_inside_starts_with in Hin. congruence.
Qed.
