(* ===== verification/Blake3.v ===== *)
(** * Blake3: the in-tree BLAKE3 implementation

    Model of [mod blake3] in [src/src/policy_ir/contract.rs].  Words are [Z]
    in [0, 2^32), bytes [Z] in [0, 2^8); arrays are lists of fixed length.
    The hasher's operations are translated loop by loop; the specification is
    the recursive tree of the BLAKE3 paper ([subtree] over 1024-byte chunks). *)

From S2P Require Import Prelude.

Definition word : Type := Z.
Definition cv : Type := list word.

Definition OUT_LEN : Z := 32.
Definition KEY_LEN : Z := 32.
Definition BLOCK_LEN : Z := 64.
Definition CHUNK_LEN : Z := 1024.

Definition CHUNK_START : word := Z.shiftl 1 0.
Definition CHUNK_END : word := Z.shiftl 1 1.
Definition PARENT : word := Z.shiftl 1 2.
Definition ROOT : word := Z.shiftl 1 3.

Definition IV : cv :=
  [0x6A09E667; 0xBB67AE85; 0x3C6EF372; 0xA54FF53A;
   0x510E527F; 0x9B05688C; 0x1F83D9AB; 0x5BE0CD19].

Definition MSG_PERMUTATION : list nat :=
  [2; 6; 3; 10; 7; 0; 4; 13; 1; 11; 12; 5; 9; 14; 15; 8]%nat.

(** ** The compression function *)

Definition wrapping_add (a b : word) : word := wrap 32 (a + b).
Definition rotate_right (x : word) (n : Z) : word :=
  Z.lor (Z.shiftr x n) (wrap 32 (Z.shiftl x (32 - n))).

Definition g (state : list word) (a b c d : nat) (mx my : word) : list word :=
  let state := <[a := wrapping_add (wrapping_add (state !!! a) (state !!! b)) mx]> state in
  let state := <[d := rotate_right (Z.lxor (state !!! d) (state !!! a)) 16]> state in
  let state := <[c := wrapping_add (state !!! c) (state !!! d)]> state in
  let state := <[b := rotate_right (Z.lxor (state !!! b) (state !!! c)) 12]> state in
  let state := <[a := wrapping_add (wrapping_add (state !!! a) (state !!! b)) my]> state in
  let state := <[d := rotate_right (Z.lxor (state !!! d) (state !!! a)) 8]> state in
  let state := <[c := wrapping_add (state !!! c) (state !!! d)]> state in
  <[b := rotate_right (Z.lxor (state !!! b) (state !!! c)) 7]> state.

Definition round (state m : list word) : list word :=
  let state := g state 0 4 8 12 (m !!! 0%nat) (m !!! 1%nat) in
  let state := g state 1 5 9 13 (m !!! 2%nat) (m !!! 3%nat) in
  let state := g state 2 6 10 14 (m !!! 4%nat) (m !!! 5%nat) in
  let state := g state 3 7 11 15 (m !!! 6%nat) (m !!! 7%nat) in
  let state := g state 0 5 10 15 (m !!! 8%nat) (m !!! 9%nat) in
  let state := g state 1 6 11 12 (m !!! 10%nat) (m !!! 11%nat) in
  let state := g state 2 7 8 13 (m !!! 12%nat) (m !!! 13%nat) in
  g state 3 4 9 14 (m !!! 14%nat) (m !!! 15%nat).

Definition permute (m : list word) : list word := (λ i, m !!! i) <$> MSG_PERMUTATION.

Fixpoint rounds (n : nat) (state block : list word) : list word :=
  match n with
  | O => state
  | S n => rounds n (round state block) (permute block)
  end.

(** The last loop of [compress], for [i in 0..8]. *)
Definition feed_forward (key : cv) (state : list word) : list word :=
  fold_left (λ st i,
    let st := <[i := Z.lxor (st !!! i) (st !!! (i + 8)%nat)]> st in
    <[(i + 8)%nat := Z.lxor (st !!! (i + 8)%nat) (key !!! i)]> st)
    (seq 0 8) state.

Definition compress (key : cv) (block : list word) (block_len counter flags : Z) :
  list word :=
  let state := key ++ take 4 IV
    ++ [wrap 32 counter; wrap 32 (Z.shiftr counter 32); block_len; flags] in
  feed_forward key (rounds 7 state block).

(** ** Output nodes *)

Record Output : Type := mk_output {
  input_cv : cv;
  block_words : list word;
  block_len : Z;
  counter : Z;
  flags : Z;
}.

Definition chaining_value (o : Output) : cv :=
  take 8 (compress (input_cv o) (block_words o) (block_len o) (counter o) (flags o)).

Definition to_le_bytes (w : word) : list Z :=
  [wrap 8 w; wrap 8 (Z.shiftr w 8); wrap 8 (Z.shiftr w 16); wrap 8 (Z.shiftr w 24)].
Definition from_le_bytes (a b c d : Z) : word :=
  a + 2 ^ 8 * b + 2 ^ 16 * c + 2 ^ 24 * d.

Definition root_output_bytes (o : Output) : list Z :=
  concat (to_le_bytes <$> take 8
    (compress (input_cv o) (block_words o) (block_len o) (counter o) (Z.lor (flags o) ROOT))).

Definition parent_output (left_cv right_cv key : cv) (flags : Z) : Output :=
  mk_output key (left_cv ++ right_cv) 64 0 (Z.lor flags PARENT).

(** ** Chunk state *)

Record ChunkState : Type := mk_chunk {
  chunk_cv : cv;
  chunk_counter : Z;
  buf : list Z;
  buf_len : nat;
  blocks_compressed : Z;
  chunk_flags : Z;
}.

Definition zero_buf : list Z := replicate 64 0.

Definition chunk_new (key : cv) (counter flags : Z) : ChunkState :=
  mk_chunk key counter zero_buf 0 0 flags.

Definition chunk_len (s : ChunkState) : Z :=
  blocks_compressed s * 64 + Z.of_nat (buf_len s).

Definition buf_word (b : list Z) (i : nat) : word :=
  from_le_bytes (b !!! (i * 4)%nat) (b !!! (i * 4 + 1)%nat)
                (b !!! (i * 4 + 2)%nat) (b !!! (i * 4 + 3)%nat).

Definition start_flag (s : ChunkState) (flags : Z) : Z :=
  if blocks_compressed s =? 0 then Z.lor flags CHUNK_START else flags.

(** The "buffer full" branch of [ChunkState::update]. *)
Definition compress_buf (s : ChunkState) : ChunkState :=
  let words := buf_word (buf s) <$> seq 0 16 in
  let state := compress (chunk_cv s) words 64 (chunk_counter s)
                 (start_flag s (chunk_flags s)) in
  mk_chunk (take 8 state) (chunk_counter s) zero_buf 0
           (blocks_compressed s + 1) (chunk_flags s).

(** [buf[buf_len .. buf_len + take].copy_from_slice(..)]. *)
Definition fill_buf (s : ChunkState) (bytes : list Z) : ChunkState :=
  mk_chunk (chunk_cv s) (chunk_counter s)
    (take (buf_len s) (buf s) ++ bytes ++ drop (buf_len s + length bytes) (buf s))
    (buf_len s + length bytes) (blocks_compressed s) (chunk_flags s).

(** One pass of the loop consumes at least one byte: [length input] passes are
    enough. *)
Fixpoint chunk_update_loop (fuel : nat) (s : ChunkState) (input : list Z) : ChunkState :=
  match fuel with
  | O => s
  | S fuel =>
      match input with
      | [] => s
      | _ =>
          let s := if (buf_len s =? 64)%nat then compress_buf s else s in
          let n := Nat.min (64 - buf_len s) (length input) in
          chunk_update_loop fuel (fill_buf s (take n input)) (drop n input)
      end
  end.
Definition chunk_update (s : ChunkState) (input : list Z) : ChunkState :=
  chunk_update_loop (length input) s input.

(** The per-word branches of [ChunkState::output]. *)
Definition output_word (s : ChunkState) (i : nat) : word :=
  let offset := (i * 4)%nat in
  if (offset + 4 <=? buf_len s)%nat then buf_word (buf s) i
  else if (offset <? buf_len s)%nat then
    let rem := (buf_len s - offset)%nat in
    let b := take rem (drop offset (buf s)) ++ replicate (4 - rem) 0 in
    buf_word b 0
  else 0.

Definition chunk_output (s : ChunkState) : Output :=
  mk_output (chunk_cv s) (output_word s <$> seq 0 16) (Z.of_nat (buf_len s))
    (chunk_counter s) (start_flag s (Z.lor (chunk_flags s) CHUNK_END)).

(** ** Hasher *)

Record Hasher : Type := mk_hasher {
  chunk_state : ChunkState;
  key : cv;
  cv_stack : list cv;  (* top of the Vec last *)
}.

Definition hasher_new : Hasher := mk_hasher (chunk_new IV 0 0) IV [].

(** The merge loop; each pass halves [total_chunks], so 64 passes are enough
    for a u64.  [pop().unwrap()] on an empty stack is the panic, [None]. *)
Fixpoint merge_loop (fuel : nat) (key : cv) (stack : list cv) (c : cv) (total_chunks : Z) :
  option (list cv * cv) :=
  if Z.land total_chunks 1 =? 0 then Some (stack, c)
  else match fuel with
  | O => None
  | S fuel =>
      match last stack with
      | None => None
      | Some left_cv =>
          let parent := parent_output left_cv c key 0 in
          merge_loop fuel key (removelast stack) (chaining_value parent)
            (Z.shiftr total_chunks 1)
      end
  end.

Definition push_stack (h : Hasher) (c : cv) : option (list cv) :=
  match merge_loop 64 (key h) (cv_stack h) c (chunk_counter (chunk_state h)) with
  | Some (stack, c) => Some (stack ++ [c])
  | None => None
  end.

(** The "chunk full" branch of [Hasher::update]. *)
Definition next_chunk (h : Hasher) : option Hasher :=
  let c := chaining_value (chunk_output (chunk_state h)) in
  let next := chunk_counter (chunk_state h) + 1 in
  match push_stack h c with
  | Some stack => Some (mk_hasher (chunk_new (key h) next 0) (key h) stack)
  | None => None
  end.

Fixpoint update_loop (fuel : nat) (h : Hasher) (input : list Z) : option Hasher :=
  match fuel with
  | O => Some h
  | S fuel =>
      match input with
      | [] => Some h
      | _ =>
          match (if chunk_len (chunk_state h) =? 1024 then next_chunk h else Some h) with
          | None => None
          | Some h =>
              let n := Nat.min (Z.to_nat (1024 - chunk_len (chunk_state h))) (length input) in
              update_loop fuel
                (mk_hasher (chunk_update (chunk_state h) (take n input)) (key h) (cv_stack h))
                (drop n input)
          end
      end
  end.
Definition update (h : Hasher) (input : list Z) : option Hasher :=
  update_loop (length input) h input.

(** The loop of [finalize] walks the stack from the top. *)
Definition finalize_output (h : Hasher) : Output :=
  fold_right (λ left_cv output, parent_output left_cv (chaining_value output) (key h) 0)
    (chunk_output (chunk_state h)) (cv_stack h).
Definition finalize (h : Hasher) : list Z := root_output_bytes (finalize_output h).

Definition hash (data : list Z) : option (list Z) := finalize <$> update hasher_new data.

(** [Hash::to_hex]. *)
Definition hex_digit (d : Z) : ascii := chr (Z.to_nat (if d <? 10 then 48 + d else 87 + d)).
Fixpoint to_hex (bytes : list Z) : string :=
  match bytes with
  | [] => EmptyString
  | b :: bs => String (hex_digit (Z.shiftr b 4)) (String (hex_digit (Z.land b 15)) (to_hex bs))
  end.

(** ** Test vectors *)

Definition pattern (n : nat) : list Z := (λ i, Z.of_nat i mod 251) <$> seq 0 n.

Example vector_empty :
  to_hex <$> hash [] =
  Some "af1349b9f5f9a1a6a0404dea36dcc9499bcb25c9adc112b7cc9a93cae41f3262".
Proof. vm_compute. reflexivity. Qed.
Example vector_1025 :
  to_hex <$> hash (pattern 1025) =
  Some "d00278ae47eb27b34faecf67b4fe263f82d5412916c1ffd97c8cb7fb814b8444".
Proof. vm_compute. reflexivity. Qed.
Example vector_3073 :
  to_hex <$> hash (pattern 3073) =
  Some "7124b49501012f81cc7f11ca069ec9226cecb8a2c850cfe644e327d22d3e1cd3".
Proof. vm_compute. reflexivity. Qed.

(** ** Specification: the BLAKE3 tree *)

Definition pad_block (bs : list Z) : list Z := bs ++ replicate (64 - length bs) 0.
Definition block_of (bs : list Z) : list word := buf_word (pad_block bs) <$> seq 0 16.

(** A chunk: all blocks but the last are chained, the last (at most 64 bytes)
    is the chunk's output node. *)
Fixpoint chunk_spec (fuel : nat) (c : cv) (first : bool) (index : Z) (bs : list Z) : Output :=
  let start flags := if first then Z.lor flags CHUNK_START else flags in
  match fuel with
  | O => mk_output c (block_of bs) (Z.of_nat (length bs)) index (start (Z.lor 0 CHUNK_END))
  | S fuel =>
      if (length bs <=? 64)%nat
      then mk_output c (block_of bs) (Z.of_nat (length bs)) index (start (Z.lor 0 CHUNK_END))
      else chunk_spec fuel
             (take 8 (compress c (block_of (take 64 bs)) 64 index (start 0)))
             false index (drop 64 bs)
  end.
Definition chunk_node (index : Z) (bs : list Z) : Output :=
  chunk_spec (length bs) IV true index bs.

(** The tree over a list of chunks: the left subtree takes the largest power of
    two that leaves at least one chunk on the right. *)
Definition left_len (n : nat) : nat := 2 ^ Nat.log2 (n - 1).
Fixpoint subtree (fuel : nat) (index : nat) (chunks : list (list Z)) : Output :=
  match fuel, chunks with
  | S fuel, _ :: _ :: _ =>
      let l := left_len (length chunks) in
      parent_output (chaining_value (subtree fuel index (take l chunks)))
        (chaining_value (subtree fuel (index + l) (drop l chunks))) IV 0
  | _, [c] => chunk_node (Z.of_nat index) c
  | _, _ => chunk_node (Z.of_nat index) []
  end.

(** Input in 1024-byte chunks, at least one. *)
Fixpoint chunks_of (fuel : nat) (bs : list Z) : list (list Z) :=
  match fuel with
  | O => [bs]
  | S fuel => if (length bs <=? 1024)%nat then [bs]
              else take 1024 bs :: chunks_of fuel (drop 1024 bs)
  end.

Definition tree (chunks : list (list Z)) : Output := subtree (length chunks) 0 chunks.
Definition blake3_spec (data : list Z) : list Z :=
  root_output_bytes (tree (chunks_of (length data) data)).

(** ** Byte-wise view of the update loops *)

Definition chunk_step (s : ChunkState) (b : Z) : ChunkState :=
  fill_buf (if (buf_len s =? 64)%nat then compress_buf s else s) [b].

(** States whose buffer holds [w], zero-padded: every state the hasher makes. *)
Definition st (c : cv) (ctr : Z) (w : list Z) (b fl : Z) : ChunkState :=
  mk_chunk c ctr (pad_block w) (length w) b fl.

Lemma chunk_new_st k ctr fl : chunk_new k ctr fl = st k ctr [] 0 fl.
Proof. done. Qed.

Lemma fill_buf_st c ctr w b fl xs :
  (length w + length xs ≤ 64)%nat →
  fill_buf (st c ctr w b fl) xs = st c ctr (w ++ xs) b fl.
Proof.
  intros Hn. unfold fill_buf, st; simpl. f_equal; [|by rewrite length_app].
  unfold pad_block. rewrite take_app_length, drop_app_ge by lia.
  rewrite drop_replicate, length_app, <-app_assoc.
  do 3 f_equal. lia.
Qed.

Lemma compress_buf_st c ctr w b fl :
  ∃ c', compress_buf (st c ctr w b fl) = st c' ctr [] (b + 1) fl.
Proof. eexists. reflexivity. Qed.

Lemma fold_step_small c ctr w b fl xs :
  (length w + length xs ≤ 64)%nat →
  fold_left chunk_step xs (st c ctr w b fl) = st c ctr (w ++ xs) b fl.
Proof.
  revert w. induction xs as [|x xs IH]; intros w Hn; simpl in *; [by rewrite app_nil_r|].
  unfold chunk_step at 2. simpl.
  destruct (Nat.eqb_spec (length w) 64); [lia|].
  rewrite fill_buf_st by (simpl; lia). rewrite IH by (rewrite length_app; simpl; lia).
  by rewrite <-app_assoc.
Qed.

Lemma chunk_update_loop_fold fuel c ctr w b fl xs :
  (length w ≤ 64)%nat → (length xs ≤ fuel)%nat →
  chunk_update_loop fuel (st c ctr w b fl) xs = fold_left chunk_step xs (st c ctr w b fl).
Proof.
  revert c w b xs. induction fuel as [|fuel IH]; intros c w b xs Hw Hf.
  { destruct xs; simpl in *; [done|lia]. }
  destruct xs as [|x xs]; [done|]. cbn [chunk_update_loop].
  assert (∃ c' w' b', (if (buf_len (st c ctr w b fl) =? 64)%nat
      then compress_buf (st c ctr w b fl) else st c ctr w b fl) = st c' ctr w' b' fl
      ∧ (length w' < 64)%nat) as (c' & w' & b' & Hs & Hw').
  { simpl. destruct (Nat.eqb_spec (length w) 64).
    - destruct (compress_buf_st c ctr w b fl) as [c' ->]. exists c', [], (b + 1). simpl. split; [done|lia].
    - exists c, w, b. split; [done|lia]. }
  rewrite Hs. simpl buf_len.
  set (n := Nat.min (64 - length w') (length (x :: xs))).
  assert (length (take n (x :: xs)) = n) as Hlen by (rewrite length_take; lia).
  assert (0 < n ∧ n ≤ 64 - length w')%nat as [Hpos Hle] by (simpl in *; lia).
  rewrite fill_buf_st by lia.
  rewrite IH; [|rewrite length_app; lia|rewrite length_drop; simpl in *; lia].
  rewrite <-(take_drop n (x :: xs)) at 3. rewrite fold_left_app. f_equal.
  destruct n as [|n]; [lia|]. cbn [take fold_left].
  unfold chunk_step at 2. rewrite Hs, fill_buf_st by (simpl; lia).
  rewrite fold_step_small; [by rewrite <-app_assoc|].
  rewrite length_app. simpl in *. lia.
Qed.

Lemma chunk_update_fold c ctr w b fl xs :
  (length w ≤ 64)%nat →
  chunk_update (st c ctr w b fl) xs = fold_left chunk_step xs (st c ctr w b fl).
Proof. intros. by apply chunk_update_loop_fold. Qed.

(** States reached by steps keep the shape and count their bytes. *)
Lemma fold_step_st c ctr w b fl xs :
  (length w ≤ 64)%nat → 0 ≤ b →
  ∃ c' w' b', fold_left chunk_step xs (st c ctr w b fl) = st c' ctr w' b' fl
    ∧ (length w' ≤ 64)%nat ∧ 0 ≤ b'
    ∧ b' * 64 + Z.of_nat (length w') = b * 64 + Z.of_nat (length w) + Z.of_nat (length xs).
Proof.
  revert c w b. induction xs as [|x xs IH]; intros c w b Hw Hb; simpl.
  { exists c, w, b. split_and!; [done|done|done|lia]. }
  unfold chunk_step at 2. simpl. destruct (Nat.eqb_spec (length w) 64) as [Hl|Hl].
  - destruct (compress_buf_st c ctr w b fl) as [c' ->]. rewrite fill_buf_st by (simpl; lia).
    destruct (IH c' ([] ++ [x]) (b + 1)) as (c2 & w2 & b2 & -> & ? & ? & ?); [simpl; lia|lia|].
    exists c2, w2, b2. simpl in *. split_and!; [done|done|done|lia].
  - rewrite fill_buf_st by (simpl; lia).
    destruct (IH c (w ++ [x]) b) as (c2 & w2 & b2 & -> & ? & ? & Hsum);
      [rewrite length_app; simpl; lia|lia|].
    exists c2, w2, b2. rewrite length_app in Hsum. simpl in *. split_and!; [done|done|done|lia].
Qed.

(** ** Chunks refine the specification *)

Lemma buf_word_pad w i :
  (length w ≤ 64)%nat → (i < 16)%nat →
  output_word (st IV 0 w 0 0) i = buf_word (pad_block w) i.
Proof.
  intros Hw Hi. unfold output_word. simpl.
  destruct (Nat.leb_spec (i * 4 + 4) (length w)); [done|].
  assert (∀ j, (length w ≤ j < 64)%nat → pad_block w !!! j = 0) as Hz.
  { intros j Hj. unfold pad_block. rewrite lookup_total_app_r by lia.
    rewrite lookup_total_replicate_2 by lia. done. }
  destruct (Nat.ltb_spec (i * 4) (length w)) as [Hlt|Hge].
  - assert (∀ k, (k < 4)%nat →
      (take (length w - i * 4) (drop (i * 4) (pad_block w))
       ++ replicate (4 - (length w - i * 4)) 0) !!! k = pad_block w !!! (i * 4 + k)%nat) as Hk.
    { intros k Hk. assert (length (pad_block w) = 64%nat) as Hl
        by (unfold pad_block; rewrite length_app, length_replicate; lia).
      destruct (decide (k < length w - i * 4)%nat).
      - rewrite lookup_total_app_l by (rewrite length_take, length_drop; lia).
        rewrite !list_lookup_total_alt, lookup_take_lt, lookup_drop by lia. done.
      - rewrite lookup_total_app_r by (rewrite length_take, length_drop; lia).
        rewrite length_take, length_drop, (Hz (i * 4 + k)%nat) by lia.
        rewrite lookup_total_replicate_2; [done|lia]. }
    unfold buf_word. rewrite !Hk by lia. do 3 f_equal; f_equal; f_equal; lia.
  - unfold buf_word. rewrite !Hz by lia. done.
Qed.

Lemma chunk_output_st c ctr w b :
  (length w ≤ 64)%nat →
  chunk_output (st c ctr w b 0) =
  mk_output c (block_of w) (Z.of_nat (length w)) ctr
    (if b =? 0 then Z.lor (Z.lor 0 CHUNK_END) CHUNK_START else Z.lor 0 CHUNK_END).
Proof.
  intros Hw. unfold chunk_output, start_flag, st. cbn -[Z.lor CHUNK_END CHUNK_START seq].
  f_equal. unfold block_of. apply list_fmap_ext. intros k i Hi.
  apply lookup_seq in Hi as [-> Hi]. simpl. by rewrite <-buf_word_pad.
Qed.

#[local] Opaque compress block_of.

Lemma chunk_spec_eq fuel c first idx bs :
  (length bs ≤ fuel)%nat →
  chunk_spec fuel c first idx bs =
  if (length bs <=? 64)%nat
  then mk_output c (block_of bs) (Z.of_nat (length bs)) idx
         (if first then Z.lor (Z.lor 0 CHUNK_END) CHUNK_START else Z.lor 0 CHUNK_END)
  else chunk_spec (length bs - 1)
         (take 8 (compress c (block_of (take 64 bs)) 64 idx
           (if first then Z.lor 0 CHUNK_START else 0)))
         false idx (drop 64 bs).
Proof.
  revert c first bs. induction fuel as [fuel IH] using lt_wf_ind. intros c first bs Hl.
  destruct fuel as [|fuel].
  { destruct bs; [reflexivity|simpl in Hl; lia]. }
  cbn [chunk_spec]. destruct (Nat.leb_spec (length bs) 64) as [|Hgt]; [done|].
  set (c' := take 8 _).
  rewrite (IH fuel) by (rewrite ?length_drop; lia).
  rewrite (IH (length bs - 1)%nat) by (rewrite ?length_drop; lia). done.
Qed.

Lemma chunk_refines c ctr w b r :
  (length w ≤ 64)%nat → 0 ≤ b →
  chunk_output (fold_left chunk_step r (st c ctr w b 0)) =
  chunk_spec (length (w ++ r)) c (b =? 0) ctr (w ++ r).
Proof.
  revert c w b. induction r as [|x r IH]; intros c w b Hw Hb; cbn [fold_left].
  { rewrite app_nil_r, chunk_spec_eq, chunk_output_st by done.
    destruct (Nat.leb_spec (length w) 64); [done|lia]. }
  unfold chunk_step at 2. simpl buf_len. destruct (Nat.eqb_spec (length w) 64) as [Hl|Hl].
  - unfold compress_buf. fold (st (take 8 (compress c (block_of w) 64 ctr
      (start_flag (st c ctr w b 0) 0))) ctr [] (b + 1) 0).
    change (fill_buf _ [x]) with (fill_buf (st (take 8 (compress c (block_of w) 64 ctr
      (start_flag (st c ctr w b 0) 0))) ctr [] (b + 1) 0) [x]).
    rewrite fill_buf_st by (simpl; lia). rewrite IH by (simpl; lia).
    rewrite (chunk_spec_eq (length (w ++ x :: r))) by done.
    rewrite take_app_length', drop_app_length' by done.
    destruct (Nat.leb_spec (length (w ++ x :: r)) 64) as [Hc|_];
      [rewrite length_app in Hc; simpl in Hc; lia|].
    destruct (Z.eqb_spec (b + 1) 0); [lia|]. simpl app.
    unfold start_flag; simpl blocks_compressed.
    rewrite (chunk_spec_eq (length (x :: r))) by done.
    rewrite (chunk_spec_eq (length (w ++ x :: r) - 1)); [done|].
    rewrite length_app. lia.
  - rewrite fill_buf_st by (simpl; lia).
    rewrite IH by (rewrite ?length_app; simpl; lia). by rewrite <-app_assoc.
Qed.

(** ** Trees and the stack of perfect subtrees *)

Definition T (idx : nat) (cs : list (list Z)) : Output := subtree (length cs) idx cs.

Lemma left_len_bounds n : (2 ≤ n)%nat → (1 ≤ left_len n < n)%nat.
Proof.
  intros Hn. unfold left_len. pose proof (Nat.log2_spec (n - 1)).
  assert (0 < 2 ^ Nat.log2 (n - 1))%nat by (apply Nat.neq_0_lt_0, Nat.pow_nonzero; lia). lia.
Qed.

Lemma subtree_S f idx cs :
  (2 ≤ length cs)%nat →
  subtree (S f) idx cs =
  parent_output (chaining_value (subtree f idx (take (left_len (length cs)) cs)))
    (chaining_value (subtree f (idx + left_len (length cs))
       (drop (left_len (length cs)) cs))) IV 0.
Proof. destruct cs as [|c1 [|c2 cs]]; simpl length; [lia|lia|]. intros _. reflexivity. Qed.

Lemma subtree_fuel fuel idx cs :
  (length cs ≤ fuel)%nat → subtree fuel idx cs = T idx cs.
Proof.
  revert idx cs. induction fuel as [fuel IH] using lt_wf_ind. intros idx cs Hl.
  destruct fuel as [|fuel]; [by destruct cs; [|simpl in Hl; lia]|].
  destruct (decide (2 ≤ length cs)%nat) as [H2|H2].
  - unfold T. pose proof (left_len_bounds _ H2) as Hb.
    replace (subtree (length cs) idx cs) with (subtree (S (length cs - 1)) idx cs)
      by (f_equal; lia).
    rewrite !subtree_S by lia.
    rewrite !(IH fuel) by (rewrite ?length_drop, ?length_take; lia).
    by rewrite !(IH (length cs - 1)%nat) by (rewrite ?length_drop, ?length_take; lia).
  - destruct cs as [|c1 [|c2 cs]]; [done|done|simpl in H2; lia].
Qed.

Lemma T_one idx c : T idx [c] = chunk_node (Z.of_nat idx) c.
Proof. done. Qed.

Lemma T_node idx cs :
  (2 ≤ length cs)%nat →
  T idx cs = parent_output (chaining_value (T idx (take (left_len (length cs)) cs)))
    (chaining_value (T (idx + left_len (length cs)) (drop (left_len (length cs)) cs))) IV 0.
Proof.
  intros H2. pose proof (left_len_bounds _ H2). unfold T at 1.
  replace (subtree (length cs) idx cs) with (subtree (S (length cs - 1)) idx cs)
    by (f_equal; lia).
  rewrite subtree_S by lia.
  by rewrite !subtree_fuel by (rewrite ?length_drop, ?length_take; lia).
Qed.

(** The stack after the complete chunks [cs]: the roots of the maximal perfect
    subtrees, largest first. *)
Fixpoint stack_of (fuel idx : nat) (cs : list (list Z)) : list cv :=
  match fuel, cs with
  | S fuel, _ :: _ =>
      let l := (2 ^ Nat.log2 (length cs))%nat in
      chaining_value (T idx (take l cs)) :: stack_of fuel (idx + l) (drop l cs)
  | _, _ => []
  end.
Definition S_of (idx : nat) (cs : list (list Z)) : list cv := stack_of (length cs) idx cs.

Lemma log2_pow_bounds n : (1 ≤ n)%nat → (1 ≤ 2 ^ Nat.log2 n ≤ n)%nat.
Proof. intros. pose proof (Nat.log2_spec n). pose proof (Nat.pow_nonzero 2 (Nat.log2 n)). lia. Qed.

Lemma stack_fuel fuel idx cs : (length cs ≤ fuel)%nat → stack_of fuel idx cs = S_of idx cs.
Proof.
  revert idx cs. induction fuel as [fuel IH] using lt_wf_ind. intros idx cs Hl.
  destruct fuel as [|fuel]; [by destruct cs; [|simpl in Hl; lia]|].
  unfold S_of. destruct cs as [|c cs]; [done|].
  pose proof (log2_pow_bounds (length (c :: cs))). simpl in *.
  cbn [stack_of length]. f_equal. fold (length (c :: cs)).
  rewrite !IH; [done| | | |]; rewrite ?length_drop; simpl; lia.
Qed.

Lemma S_of_cons idx cs :
  cs ≠ [] →
  S_of idx cs = chaining_value (T idx (take (2 ^ Nat.log2 (length cs)) cs))
    :: S_of (idx + 2 ^ Nat.log2 (length cs)) (drop (2 ^ Nat.log2 (length cs)) cs).
Proof.
  destruct cs as [|c cs]; [done|]. intros _. unfold S_of at 1. cbn [stack_of length].
  fold (length (c :: cs)). f_equal. apply stack_fuel.
  pose proof (log2_pow_bounds (length (c :: cs))). rewrite length_drop. simpl in *. lia.
Qed.

Lemma S_of_perfect idx cs k :
  length cs = (2 ^ k)%nat → S_of idx cs = [chaining_value (T idx cs)].
Proof.
  intros Hl. assert (cs ≠ []) as Hne.
  { intros ->. pose proof (Nat.pow_nonzero 2 k). simpl in *. lia. }
  rewrite S_of_cons by done. rewrite Hl, Nat.log2_pow2, <-Hl by lia.
  rewrite take_ge by lia. rewrite drop_ge by lia. done.
Qed.

Lemma log2_between k n : (2 ^ k ≤ n < 2 ^ S k)%nat → Nat.log2 n = k.
Proof. intros H. apply Nat.log2_unique; lia. Qed.

(** ** Pushing one more chunk *)

Lemma odd_land h : (Z.land (2 * h + 1) 1 =? 0) = false.
Proof.
  rewrite (Z.land_ones _ 1) by lia. change (2 ^ 1) with 2.
  rewrite Z.add_comm, Z.mul_comm, Z.mod_add by lia. done.
Qed.
Lemma even_land h : (Z.land (2 * h) 1 =? 0) = true.
Proof.
  rewrite (Z.land_ones _ 1) by lia. change (2 ^ 1) with 2.
  by rewrite Z.mul_comm, Z.mod_mul by lia.
Qed.
Lemma odd_shiftr h : Z.shiftr (2 * h + 1) 1 = h.
Proof.
  rewrite Z.shiftr_div_pow2 by lia. change (2 ^ 1) with 2.
  rewrite Z.add_comm, Z.mul_comm, Z.div_add by lia. done.
Qed.

Lemma merge_step fuel key pre left c h :
  merge_loop (S fuel) key (pre ++ [left]) c (2 * h + 1) =
  merge_loop fuel key pre (chaining_value (parent_output left c key 0)) h.
Proof.
  cbn [merge_loop]. rewrite odd_land, last_snoc, removelast_last, odd_shiftr. done.
Qed.

Lemma merge_stop fuel key stack c h :
  merge_loop fuel key stack c (2 * h) = Some (stack, c).
Proof. destruct fuel; cbn [merge_loop]; by rewrite even_land. Qed.

Lemma merge_loop_spec k fuel pre idx cs c h :
  (length cs < 2 ^ k)%nat → (k ≤ fuel)%nat → 0 ≤ h →
  merge_loop fuel IV (pre ++ S_of idx cs) (chaining_value (T (idx + length cs) [c]))
    (2 ^ Z.of_nat k * h + Z.of_nat (length cs)) =
  if (S (length cs) =? 2 ^ k)%nat
  then merge_loop (fuel - k) IV pre (chaining_value (T idx (cs ++ [c]))) h
  else match S_of idx (cs ++ [c]) with
       | [] => None
       | S' => Some (pre ++ removelast S', List.last S' [])
       end.
Proof.
  revert fuel pre idx cs h. induction k as [|k IH]; intros fuel pre idx cs h Hl Hf Hh.
  { destruct cs; [|simpl in Hl; lia]. change (S_of idx []) with (@nil cv).
    rewrite app_nil_r, Nat.sub_0_r. cbn [length Nat.pow Nat.eqb app].
    rewrite Nat.add_0_r. change (2 ^ Z.of_nat 0) with 1.
    by replace (1 * h + Z.of_nat 0) with h by lia. }
  assert (0 < 2 ^ k)%nat as Hk by (apply Nat.neq_0_lt_0, Nat.pow_nonzero; lia).
  assert (2 ^ S k = 2 * 2 ^ k)%nat as Hpow by (rewrite Nat.pow_succ_r'; lia).
  assert (2 ^ Z.of_nat (S k) = 2 * 2 ^ Z.of_nat k) as HpowZ
    by (rewrite Nat2Z.inj_succ, Z.pow_succ_r; lia).
  assert (2 ^ Z.of_nat k = Z.of_nat (2 ^ k)) as HZ by (rewrite Nat2Z.inj_pow; done).
  destruct (decide (length cs < 2 ^ k)%nat) as [Hlt|Hge].
  - (* bit k of the counter is clear *)
    replace (2 ^ Z.of_nat (S k) * h) with (2 ^ Z.of_nat k * (2 * h)) by lia.
    rewrite IH by lia. destruct (Nat.eqb_spec (S (length cs)) (2 ^ S k)); [lia|].
    destruct (Nat.eqb_spec (S (length cs)) (2 ^ k)) as [He|He]; [|done].
    rewrite merge_stop, (S_of_perfect _ _ k) by (rewrite length_app; simpl; lia).
    simpl. by rewrite app_nil_r.
  - (* bit k is set: the first entry is a perfect subtree of 2^k chunks *)
    assert (Nat.log2 (length cs) = k) as Hlog by (apply log2_between; lia).
    assert (cs ≠ []) as Hne by (intros ->; simpl in *; lia).
    rewrite (S_of_cons idx cs), Hlog by done.
    set (l := (2 ^ k)%nat) in *. set (cs1 := take l cs). set (cs2 := drop l cs).
    assert (length cs1 = l) as Hl1 by (unfold cs1; rewrite length_take; lia).
    assert (length cs2 = length cs - l)%nat as Hl2 by (unfold cs2; rewrite length_drop; lia).
    replace (2 ^ Z.of_nat (S k) * h + Z.of_nat (length cs))
      with (2 ^ Z.of_nat k * (2 * h + 1) + Z.of_nat (length cs2)) by lia.
    replace (idx + length cs)%nat with (idx + l + length cs2)%nat by lia.
    rewrite cons_middle, app_assoc, IH by lia.
    assert (cs ++ [c] = cs1 ++ cs2 ++ [c]) as Hcs
      by (rewrite app_assoc; unfold cs1, cs2; by rewrite take_drop).
    destruct (Nat.eqb_spec (S (length cs2)) l) as [He|He];
      destruct (Nat.eqb_spec (S (length cs)) (2 ^ S k)) as [He'|He']; try lia.
    + replace (fuel - k)%nat with (S (fuel - S k)) by lia. rewrite merge_step.
      do 2 f_equal. rewrite (T_node idx (cs ++ [c])) by (rewrite length_app; simpl; lia).
      assert (left_len (length (cs ++ [c])) = l) as ->.
      { unfold left_len. rewrite (log2_between k); [done|rewrite length_app; simpl; lia]. }
      by rewrite Hcs, take_app_length', drop_app_length' by done.
    + rewrite (S_of_cons idx (cs ++ [c])) by (by destruct cs).
      assert (Nat.log2 (length (cs ++ [c])) = k) as ->
        by (apply log2_between; rewrite length_app; simpl; lia).
      fold l. rewrite Hcs, take_app_length', drop_app_length' by done.
      destruct (S_of (idx + l) (cs2 ++ [c])) as [|r rs] eqn:Er.
      { exfalso. rewrite S_of_cons in Er; [done|]. by destruct cs2. }
      simpl. by rewrite <-app_assoc.
Qed.

Lemma push_spec cs c :
  Z.of_nat (length cs) < 2 ^ 64 →
  match merge_loop 64 IV (S_of 0 cs) (chaining_value (T (length cs) [c]))
          (Z.of_nat (length cs)) with
  | Some (stack, c') => Some (stack ++ [c'])
  | None => None
  end = Some (S_of 0 (cs ++ [c])).
Proof.
  intros Hl.
  assert (Z.of_nat (2 ^ 64) = 2 ^ 64) as HZ by (rewrite Nat2Z.inj_pow; done).
  pose proof (merge_loop_spec 64 64 [] 0 cs c 0) as H.
  rewrite Z.mul_0_r, Z.add_0_l in H. cbn [app] in H.
  change (0 + length cs)%nat with (length cs) in H. rewrite H; [|lia|lia|lia].
  destruct (Nat.eqb_spec (S (length cs)) (2 ^ 64)) as [He|He].
  - rewrite Nat.sub_diag. change 0 with (2 * 0). rewrite merge_stop. cbn [app].
    rewrite (S_of_perfect 0 (cs ++ [c]) 64); [done|]. rewrite length_app, <-He. simpl. lia.
  - destruct (S_of 0 (cs ++ [c])) as [|r rs] eqn:Er.
    { rewrite S_of_cons in Er; [done|]. by destruct cs. }
    cbn [app]. f_equal. symmetry. by apply app_removelast_last.
Qed.

(** [finalize] folds the stack into the tree over all chunks. *)
Lemma finalize_spec idx cs c :
  fold_right (λ left_cv output, parent_output left_cv (chaining_value output) IV 0)
    (chunk_node (Z.of_nat (idx + length cs)) c) (S_of idx cs) = T idx (cs ++ [c]).
Proof.
  remember (length cs) as n eqn:En. revert idx cs En.
  induction n as [n IH] using lt_wf_ind. intros idx cs ->.
  destruct (decide (cs = [])) as [->|Hne]; [simpl; by rewrite Nat.add_0_r|].
  assert (1 ≤ length cs)%nat as H1 by (destruct cs; simpl; [done|lia]).
  rewrite S_of_cons by done. cbn [fold_right].
  pose proof (log2_pow_bounds _ H1) as Hb. set (l := (2 ^ Nat.log2 (length cs))%nat) in *.
  rewrite (T_node idx (cs ++ [c])) by (rewrite length_app; simpl; lia).
  assert (left_len (length (cs ++ [c])) = l) as ->.
  { unfold left_len, l. rewrite length_app. simpl. do 2 f_equal. lia. }
  rewrite take_app_le, drop_app_le by lia. do 3 f_equal.
  rewrite <-(IH (length (drop l cs))); [|rewrite length_drop; lia|done].
  f_equal. f_equal. f_equal. rewrite length_drop. lia.
Qed.

(** ** The hasher represents the bytes fed to it *)

Definition represents (p : list Z) (h : Hasher) : Prop :=
  ∃ cs w, p = concat cs ++ w
    ∧ Forall (λ c, length c = 1024%nat) cs ∧ (length w ≤ 1024)%nat ∧ (w = [] → cs = [])
    ∧ h = mk_hasher (fold_left chunk_step w (chunk_new IV (Z.of_nat (length cs)) 0)) IV
            (S_of 0 cs).

Lemma chunk_len_fold ctr w :
  chunk_len (fold_left chunk_step w (chunk_new IV ctr 0)) = Z.of_nat (length w).
Proof.
  rewrite chunk_new_st.
  destruct (fold_step_st IV ctr [] 0 0 w) as (c' & w' & b' & -> & _ & _ & H); [simpl; lia|lia|].
  unfold chunk_len; simpl in *. lia.
Qed.

Lemma chunk_output_fold ctr w :
  chunk_output (fold_left chunk_step w (chunk_new IV ctr 0)) = chunk_node ctr w.
Proof. rewrite chunk_new_st, chunk_refines by (simpl; lia). done. Qed.

Lemma chunk_counter_fold ctr w :
  chunk_counter (fold_left chunk_step w (chunk_new IV ctr 0)) = ctr.
Proof.
  rewrite chunk_new_st.
  by destruct (fold_step_st IV ctr [] 0 0 w) as (c' & w' & b' & -> & _); [simpl; lia|lia|].
Qed.

Lemma concat_length_1024 (cs : list (list Z)) :
  Forall (λ c, length c = 1024%nat) cs →
  Z.of_nat (length (concat cs)) = 1024 * Z.of_nat (length cs).
Proof.
  induction 1 as [|c cs Hc _ IH]; [done|]. cbn [concat length].
  rewrite length_app, Nat2Z.inj_add, IH, Hc. lia.
Qed.

Lemma update_loop_represents fuel p h x :
  represents p h → (length x ≤ fuel)%nat →
  Z.of_nat (length p + length x) < 2 ^ 64 →
  ∃ h', update_loop fuel h x = Some h' ∧ represents (p ++ x) h'.
Proof.
  revert p h x. induction fuel as [|fuel IH]; intros p h x Hr Hx Hlen.
  { destruct x; [|simpl in Hx; lia]. exists h. by rewrite app_nil_r. }
  destruct x as [|b x]; [exists h; by rewrite app_nil_r|].
  cbn [update_loop]. remember (b :: x) as inp eqn:Einp.
  destruct Hr as (cs & w & -> & Hcs & Hw & Hne & ->). cbn [chunk_state key cv_stack].
  rewrite chunk_len_fold.
  (* after the optional chunk switch: chunks [cs'], current chunk [w'] not full *)
  assert (∃ cs' w', concat cs ++ w = concat cs' ++ w'
      ∧ Forall (λ c, length c = 1024%nat) cs' ∧ (length w' < 1024)%nat
      ∧ (if Z.of_nat (length w) =? 1024
         then next_chunk (mk_hasher (fold_left chunk_step w
                (chunk_new IV (Z.of_nat (length cs)) 0)) IV (S_of 0 cs))
         else Some (mk_hasher (fold_left chunk_step w
                (chunk_new IV (Z.of_nat (length cs)) 0)) IV (S_of 0 cs)))
        = Some (mk_hasher (fold_left chunk_step w'
                (chunk_new IV (Z.of_nat (length cs')) 0)) IV (S_of 0 cs')))
    as (cs' & w' & Hp & Hcs' & Hw' & ->).
  { destruct (Z.eqb_spec (Z.of_nat (length w)) 1024) as [Hfull|Hfull].
    - exists (cs ++ [w]), []. rewrite app_nil_r, concat_app. simpl. rewrite app_nil_r.
      split; [done|]. split; [apply Forall_app; split; [done|constructor; [lia|done]]|].
      split; [lia|]. unfold next_chunk, push_stack. cbn [chunk_state key cv_stack].
      rewrite chunk_output_fold, chunk_counter_fold.
      pose proof (concat_length_1024 cs Hcs) as Hcl. rewrite length_app in Hlen.
      change (chunk_node (Z.of_nat (length cs)) w) with (T (length cs) [w]).
      rewrite push_spec by lia. do 3 f_equal. rewrite length_app. simpl. lia.
    - exists cs, w. split_and!; [done|done|lia|done]. }
  cbn [chunk_state key cv_stack]. rewrite chunk_len_fold.
  set (n := Nat.min (Z.to_nat (1024 - Z.of_nat (length w'))) (length inp)).
  assert (0 < n ∧ n ≤ length inp ∧ length w' + n ≤ 1024)%nat as (Hn & Hn' & Hn'')
    by (unfold n; rewrite Einp; simpl length; lia).
  assert ((concat cs ++ w) ++ inp = ((concat cs' ++ w') ++ take n inp) ++ drop n inp) as ->
    by (rewrite Hp, <-(app_assoc (concat cs' ++ w')), take_drop; done).
  apply IH; [|rewrite length_drop; simpl in *; lia
             |rewrite !length_app, length_take, length_drop;
              rewrite Hp, length_app in Hlen; lia].
  exists cs', (w' ++ take n inp). rewrite <-app_assoc. split; [done|]. split; [done|].
  assert (length (take n inp) = n) as Ht by (rewrite length_take; lia).
  rewrite length_app, Ht. split; [lia|]. split.
  { intros Hnil. apply app_eq_nil in Hnil as [_ Hnil]. rewrite Hnil in Ht. simpl in Ht. lia. }
  f_equal. rewrite fold_left_app. rewrite chunk_new_st.
  destruct (fold_step_st IV (Z.of_nat (length cs')) [] 0 0 w') as (c2 & w2 & b2 & -> & Hw2 & _ & _);
    [simpl; lia|lia|]. by apply chunk_update_fold.
Qed.

Lemma chunks_of_concat fuel (cs : list (list Z)) w :
  Forall (λ c, length c = 1024%nat) cs → (length w ≤ 1024)%nat → (w = [] → cs = []) →
  (length cs ≤ fuel)%nat → chunks_of fuel (concat cs ++ w) = cs ++ [w].
Proof.
  intros Hcs Hw Hne. revert fuel. induction Hcs as [|c cs Hc Hcs IH]; intros fuel Hf.
  - destruct fuel; simpl; [done|]. destruct (Nat.leb_spec (length w) 1024); [done|lia].
  - destruct fuel as [|fuel]; simpl in Hf; [lia|]. cbn [chunks_of concat].
    rewrite <-app_assoc. destruct (Nat.leb_spec (length (c ++ concat cs ++ w)) 1024) as [Hle|_].
    + exfalso. rewrite !length_app in Hle. assert (w = []) as ->.
      { destruct w; [done|simpl in Hle; lia]. } by specialize (Hne eq_refl).
    + rewrite take_app_length', drop_app_length' by done. cbn [app]. f_equal.
      apply IH; [|lia]. intros ->. by specialize (Hne eq_refl).
Qed.

Lemma represents_chunks p h :
  represents p h → ∃ cs w, chunks_of (length p) p = cs ++ [w] ∧ p = concat cs ++ w
    ∧ h = mk_hasher (fold_left chunk_step w (chunk_new IV (Z.of_nat (length cs)) 0)) IV
            (S_of 0 cs).
Proof.
  intros (cs & w & -> & Hcs & Hw & Hne & ->). exists cs, w. split; [|done].
  apply chunks_of_concat; [done..|].
  pose proof (concat_length_1024 cs Hcs). rewrite length_app. lia.
Qed.

Lemma represents_unique p h h' : represents p h → represents p h' → h = h'.
Proof.
  intros (cs & w & Hc & _ & ->)%represents_chunks (cs' & w' & Hc' & _ & ->)%represents_chunks.
  rewrite Hc in Hc'. by apply app_inj_tail in Hc' as [-> ->].
Qed.

Lemma represents_new : represents [] hasher_new.
Proof. exists [], []. split_and!; [done|constructor|simpl; lia|done|done]. Qed.

Lemma update_represents p h x :
  represents p h → Z.of_nat (length p + length x) < 2 ^ 64 →
  ∃ h', update h x = Some h' ∧ represents (p ++ x) h'.
Proof. intros. by apply update_loop_represents. Qed.

Lemma finalize_represents p h : represents p h → finalize h = blake3_spec p.
Proof.
  intros (cs & w & Hc & _ & ->)%represents_chunks. unfold finalize, blake3_spec, tree.
  rewrite Hc. f_equal. unfold finalize_output. cbn [chunk_state key cv_stack].
  rewrite chunk_output_fold. apply (finalize_spec 0 cs w).
Qed.

#[local] Transparent compress block_of.

(** ** Properties *)

(** C36: The incremental hasher computes the BLAKE3 tree hash: for every input
    shorter than [2^64] bytes, hashing never panics (the chaining-value stack
    is never popped empty) and yields the root of the recursive binary tree
    over the 1024-byte chunks, each chunk chained over its 64-byte blocks. *)
Theorem hash_is_tree data :
  Z.of_nat (length data) < 2 ^ 64 → hash data = Some (blake3_spec data).
Proof.
  intros Hl. destruct (update_represents [] hasher_new data represents_new Hl) as (h & Hu & Hr).
  unfold hash. rewrite Hu. simpl. f_equal. by apply finalize_represents.
Qed.

Lemma hash_is_tree_witness : hash [97; 98; 99] = Some (blake3_spec [97; 98; 99]).
Proof. apply hash_is_tree. reflexivity. Defined.

(** Update is insensitive to how the input is cut: feeding two slices one
    after the other leaves the hasher in exactly the state that feeding their
    concatenation does, so every split of the message has the same digest. *)
Theorem update_split_invariant a b :
  Z.of_nat (length a + length b) < 2 ^ 64 →
  (h ← update hasher_new a; update h b) = update hasher_new (a ++ b)
  ∧ is_Some (update hasher_new (a ++ b)).
Proof.
  intros Hl.
  destruct (update_represents [] hasher_new a represents_new) as (h1 & Hu1 & Hr1); [simpl; lia|].
  destruct (update_represents a h1 b Hr1 Hl) as (h2 & Hu2 & Hr2).
  destruct (update_represents [] hasher_new (a ++ b) represents_new) as (h3 & Hu3 & Hr3);
    [simpl; rewrite length_app; lia|].
  rewrite Hu1. simpl. rewrite Hu2, Hu3. split; [|eauto]. f_equal.
  by apply (represents_unique (a ++ b)).
Qed.

Lemma update_split_invariant_witness :
  (h ← update hasher_new [104; 101]; update h [108; 108; 111])
  = update hasher_new [104; 101; 108; 108; 111].
Proof. apply (update_split_invariant [104; 101] [108; 108; 111]). reflexivity. Defined.
