(* ===== verification/Contract.v ===== *)
(** * Contract: the sealed security contract

    Model of [src/src/policy_ir/contract.rs] (records, digests, sealing and
    verification) and of the lowered-metadata record of
    [src/src/policy_ir/compiler.rs].  Canonical JSON ([serde_json]) and SHA-256
    ([sha2]) are the class [ContractCodec]; BLAKE3 is [Blake3.hash]. *)

From S2P Require Import Prelude Paths PolicyTypes Blake3.

Record DebugPortConfig : Type := mk_debug_ports {
  isolate_devtools : bool;
  isolate_node_inspect : bool;
  isolate_debugpy : bool;
  debug_allowed_ports : list Z;
}.
#[export] Instance DebugPortConfig_eq_dec : EqDecision DebugPortConfig.
Proof. solve_decision. Defined.
Definition default_debug_ports : DebugPortConfig := mk_debug_ports false true true [].

Record ProductionContract : Type := mk_production {
  installation_policy : Policy;
  prod_net : NetMode;
  prod_timeout : option Z;  (* nanoseconds *)
  prod_tier : option Tier;
  prod_backend : string;
  prod_observe_seccomp : bool;
  prod_debug_ports : option DebugPortConfig;
}.
#[export] Instance ProductionContract_eq_dec : EqDecision ProductionContract.
Proof. solve_decision. Defined.

Record CryptoContract : Type := mk_crypto {
  minisign_enabled : bool;
  cosign_enabled : bool;
  signature : option string;
  public_key : option string;
}.
#[export] Instance CryptoContract_eq_dec : EqDecision CryptoContract.
Proof. solve_decision. Defined.
Definition default_crypto : CryptoContract := mk_crypto false false None None.

Record AgentIdentity : Type := mk_agent {
  agent_name : string;
  agent_preset : string;
  agent_version : string;
  invoked_binary : path;
  invoked_args : list string;
}.
#[export] Instance AgentIdentity_eq_dec : EqDecision AgentIdentity.
Proof. solve_decision. Defined.

Record FilesystemContract : Type := mk_fs {
  workspace_root : path;
  fs_allow_read : list path;
  fs_allow_write : list path;
  fs_allow_execute : list path;
  mask_paths : list path;
  cow_overlay : bool;
  execution_root_ro : bool;
  fs_shadow : bool;
}.
#[export] Instance FilesystemContract_eq_dec : EqDecision FilesystemContract.
Proof. solve_decision. Defined.

Inductive NetworkMode : Type := NmOff | NmAllowlist | NmStrict | NmAsk | NmDirect.
#[export] Instance NetworkMode_eq_dec : EqDecision NetworkMode.
Proof. solve_decision. Defined.

(** The derived [Debug] text of [NetworkMode]. *)
Definition network_mode_debug (m : NetworkMode) : string :=
  match m with
  | NmOff => "Off" | NmAllowlist => "Allowlist" | NmStrict => "Strict"
  | NmAsk => "Ask" | NmDirect => "Direct"
  end.

Record NetworkContract : Type := mk_network {
  net_mode : NetworkMode;
  allowed_domains : list string;
  allowed_ports : list Z;
  block_cloud_metadata : bool;
  block_loopback_daemons : bool;
}.
#[export] Instance NetworkContract_eq_dec : EqDecision NetworkContract.
Proof. solve_decision. Defined.

Record ResourceContract : Type := mk_resources {
  max_pids : Z;
  max_memory_bytes : Z;
  max_cpu_percent : Z;
  max_wall_time_ms : Z;
  max_stdout_bytes : Z;
  max_file_size_bytes : Z;
}.
#[export] Instance ResourceContract_eq_dec : EqDecision ResourceContract.
Proof. solve_decision. Defined.

Record EnvironmentContract : Type := mk_environment {
  pass_through_vars : list string;
  explicit_vars : gmap string string;
  redacted_patterns : list string;
  inject_session_nonce : bool;
}.
#[export] Instance EnvironmentContract_eq_dec : EqDecision EnvironmentContract.
Proof. solve_decision. Defined.

Record AttestationContract : Type := mk_attestation {
  generate_audit_jsonl : bool;
  sign_minisign : bool;
  sign_cosign_slsa : bool;
  evidence_level_minimum : string;
}.
#[export] Instance AttestationContract_eq_dec : EqDecision AttestationContract.
Proof. solve_decision. Defined.

Record UnsealedSecurityContract : Type := mk_unsealed {
  u_production : option ProductionContract;
  u_contract_version : Z;
  u_contract_id : string;
  u_session_nonce : string;
  u_agent_identity : AgentIdentity;
  u_filesystem : FilesystemContract;
  u_network : NetworkContract;
  u_resources : ResourceContract;
  u_environment : EnvironmentContract;
  u_attestation : AttestationContract;
  u_crypto : CryptoContract;
}.

Record SecurityContract : Type := mk_contract {
  production : option ProductionContract;
  contract_version : Z;
  contract_id : string;
  session_nonce : string;
  agent_identity : AgentIdentity;
  filesystem : FilesystemContract;
  network : NetworkContract;
  resources : ResourceContract;
  c_environment : EnvironmentContract;
  attestation : AttestationContract;
  crypto : CryptoContract;
  contract_digest_blake3 : string;
  sealed_contract_hash : string;
}.
#[export] Instance SecurityContract_eq_dec : EqDecision SecurityContract.
Proof. solve_decision. Defined.

(** Third-party code: [serde_json::to_value] and [to_vec] on the contract
    payload, the text of a [serde_json::Error], and SHA-256. *)
Class ContractCodec : Type := {
  json_value : Type;
  json_error : Type;
  to_value : UnsealedSecurityContract → result json_error json_value;
  to_vec : json_value → result json_error (list Z);
  json_error_text : json_error → string;
  sha256 : list Z → list Z;
}.

(** [blake3::hash]; [Blake3.hash_is_tree] shows that it never panics on an
    input a slice can hold, so the default is never taken. *)
Definition blake3_bytes (data : list Z) : list Z := default [] (Blake3.hash data).

Definition clear_signature (u : UnsealedSecurityContract) : UnsealedSecurityContract :=
  mk_unsealed (u_production u) (u_contract_version u) (u_contract_id u)
    (u_session_nonce u) (u_agent_identity u) (u_filesystem u) (u_network u)
    (u_resources u) (u_environment u) (u_attestation u)
    (mk_crypto (minisign_enabled (u_crypto u)) (cosign_enabled (u_crypto u)) None
       (public_key (u_crypto u))).

Section Digests.
Context `{ContractCodec}.

(** The bytes both digests are taken over. *)
Definition canonical_bytes (u : UnsealedSecurityContract) : result json_error (list Z) :=
  value ← to_value (clear_signature u); to_vec value.

Definition compute_digest (u : UnsealedSecurityContract) : result json_error string :=
  json_bytes ← canonical_bytes u; Ok (to_hex (blake3_bytes json_bytes)).

Definition compute_sha256_digest (u : UnsealedSecurityContract) : result json_error string :=
  json_bytes ← canonical_bytes u; Ok (to_hex (sha256 json_bytes)).

Definition seal (u : UnsealedSecurityContract) : result json_error SecurityContract :=
  digest ← compute_digest u;
  sha256_digest ← compute_sha256_digest u;
  Ok (mk_contract (u_production u) (u_contract_version u) (u_contract_id u)
        (u_session_nonce u) (u_agent_identity u) (u_filesystem u) (u_network u)
        (u_resources u) (u_environment u) (u_attestation u) (u_crypto u)
        digest sha256_digest).

Definition unsealed (c : SecurityContract) : UnsealedSecurityContract :=
  mk_unsealed (production c) (contract_version c) (contract_id c) (session_nonce c)
    (agent_identity c) (filesystem c) (network c) (resources c) (c_environment c)
    (attestation c) (crypto c).

Definition verify_digest (c : SecurityContract) : bool :=
  match compute_digest (unsealed c) with
  | Ok expected => String.eqb expected (contract_digest_blake3 c)
  | Err _ => false
  end.

Definition verify_sha256 (c : SecurityContract) : bool :=
  match compute_sha256_digest (unsealed c) with
  | Ok expected =>
      negb (is_empty (sealed_contract_hash c))
      && String.eqb expected (sealed_contract_hash c)
  | Err _ => false
  end.

Definition unwrap_or_default (r : result json_error string) : string :=
  match r with Ok s => s | Err _ => EmptyString end.

Definition verify_sealed (c : SecurityContract) : result PolicyError unit :=
  if negb (verify_sha256 c) then
    Err (VerificationFailed ("Contract tamper detected: SHA-256 mismatch (expected: "
      +:+ unwrap_or_default (compute_sha256_digest (unsealed c)) +:+ ", found: "
      +:+ sealed_contract_hash c +:+ ")"))
  else if negb (verify_digest c) then
    Err (VerificationFailed ("Contract tamper detected: BLAKE3 mismatch (expected: "
      +:+ unwrap_or_default (compute_digest (unsealed c)) +:+ ", found: "
      +:+ contract_digest_blake3 c +:+ ")"))
  else Ok tt.

(** [with_crypto]/[with_minisign]; [None] is the [expect] panic when the
    payload does not serialise. *)
Definition with_crypto (c : SecurityContract) (k : CryptoContract) : option SecurityContract :=
  let u := unsealed c in
  let u := mk_unsealed (u_production u) (u_contract_version u) (u_contract_id u)
    (u_session_nonce u) (u_agent_identity u) (u_filesystem u) (u_network u)
    (u_resources u) (u_environment u) (u_attestation u) k in
  match seal u with Ok c' => Some c' | Err _ => None end.

Definition with_minisign (c : SecurityContract) (enabled : bool)
    (sig pk : option string) : option SecurityContract :=
  with_crypto c (mk_crypto enabled (cosign_enabled (crypto c)) sig pk).
End Digests.

Record LoweredEnforcementMetadata : Type := mk_lowered {
  landlock_abi : Z;
  read_paths : list path;
  write_paths : list path;
  lowered_mask_paths : list path;
  network_connect_ports : list Z;
  lowered_seccomp_profile : string;
  observe_seccomp : bool;
}.

Definition profile_debug (p : SeccompProfile) : string :=
  match p with DefaultProfile => "Default" | AgentMin => "AgentMin" end.

Definition lower_enforcement_metadata (c : SecurityContract) (abi : Z) :
  LoweredEnforcementMetadata :=
  mk_lowered abi (fs_allow_read (filesystem c)) (fs_allow_write (filesystem c))
    (mask_paths (filesystem c)) (allowed_ports (network c))
    (match production c with
     | None => "default"
     | Some p => profile_debug (seccomp_profile (installation_policy p))
     end)
    (match production c with None => false | Some p => prod_observe_seccomp p end).

(** ** Lemmas *)

Lemma hex_digit_value a : 0 ≤ a < 16 → digit_value 16 (hex_digit a) = Some a.
Proof.
  intros H. assert (a ∈ [0;1;2;3;4;5;6;7;8;9;10;11;12;13;14;15]) as Ha.
  { rewrite !elem_of_cons, elem_of_nil. lia. }
  revert Ha. rewrite !elem_of_cons, elem_of_nil. clear H.
  intros Ha. repeat (destruct Ha as [->|Ha]; [reflexivity|]). done.
Qed.

Lemma hex_digit_inj a b : 0 ≤ a < 16 → 0 ≤ b < 16 → hex_digit a = hex_digit b → a = b.
Proof.
  intros Ha%hex_digit_value Hb%hex_digit_value E. rewrite E in Ha. congruence.
Qed.

Lemma to_hex_inj xs ys :
  Forall (in_range 8) xs → Forall (in_range 8) ys → to_hex xs = to_hex ys → xs = ys.
Proof.
  intros Hx. revert ys. induction Hx as [|x xs Hx _ IH]; intros [|y ys] Hy; try discriminate.
  { done. }
  apply Forall_cons in Hy as [Hy Hys]. cbn [to_hex]. intros [= H1 H2 H3].
  unfold in_range in *.
  assert (∀ z, 0 ≤ z < 2 ^ 8 → 0 ≤ Z.shiftr z 4 < 16 ∧ 0 ≤ Z.land z 15 < 16
    ∧ z = 16 * Z.shiftr z 4 + Z.land z 15) as Hz.
  { intros z Hz. rewrite Z.shiftr_div_pow2 by lia.
    change 15 with (Z.ones 4). rewrite Z.land_ones by lia.
    change (2 ^ 4) with 16 in *. change (2 ^ 8) with 256 in *.
    pose proof (Z.div_mod z 16). pose proof (Z.mod_pos_bound z 16).
    assert (0 ≤ z / 16 < 16).
    { split; [apply Z.div_pos; lia | apply Z.div_lt_upper_bound; lia]. } lia. }
  destruct (Hz x Hx) as (? & ? & ->). destruct (Hz y Hy) as (? & ? & ->).
  apply hex_digit_inj in H1; [|tauto..]. apply hex_digit_inj in H2; [|tauto..].
  rewrite H1, H2. f_equal. by apply IH.
Qed.

Lemma wrap8_range z : in_range 8 (wrap 8 z).
Proof. unfold in_range, wrap. by apply Z.mod_pos_bound. Qed.

Lemma root_bytes_range o : Forall (in_range 8) (root_output_bytes o).
Proof.
  unfold root_output_bytes. apply Forall_concat, Forall_fmap, Forall_forall.
  intros w _. simpl. unfold to_le_bytes. repeat constructor; apply wrap8_range.
Qed.

Lemma blake3_bytes_range data : Forall (in_range 8) (blake3_bytes data).
Proof.
  unfold blake3_bytes, hash. destruct (update hasher_new data); simpl; [|constructor].
  apply root_bytes_range.
Qed.


(** What the development relies on of SHA-256: 32 bytes. *)
Class CodecLaws (C : ContractCodec) : Prop := {
  sha256_length : ∀ d, length (sha256 d) = 32%nat;
  sha256_range : ∀ d, Forall (in_range 8) (sha256 d);
}.

Definition set_signature (c : SecurityContract) (sig : option string) : SecurityContract :=
  mk_contract (production c) (contract_version c) (contract_id c) (session_nonce c)
    (agent_identity c) (filesystem c) (network c) (resources c) (c_environment c)
    (attestation c)
    (mk_crypto (minisign_enabled (crypto c)) (cosign_enabled (crypto c)) sig
       (public_key (crypto c)))
    (contract_digest_blake3 c) (sealed_contract_hash c).

Section SealFacts.
Context `{C : ContractCodec} `{!CodecLaws C}.

Lemma sha_hex_nonempty d : is_empty (to_hex (sha256 d)) = false.
Proof. pose proof (sha256_length d). by destruct (sha256 d). Qed.

Lemma compute_digest_ok u d :
  compute_digest u = Ok d ↔ ∃ b, canonical_bytes u = Ok b ∧ d = to_hex (blake3_bytes b).
Proof.
  unfold compute_digest. destruct (canonical_bytes u) as [b|e]; simpl; split.
  - intros [= <-]. eauto.
  - by intros (b' & [= <-] & ->).
  - done.
  - by intros (b & ? & _).
Qed.

Lemma compute_sha256_ok u d :
  compute_sha256_digest u = Ok d ↔ ∃ b, canonical_bytes u = Ok b ∧ d = to_hex (sha256 b).
Proof.
  unfold compute_sha256_digest. destruct (canonical_bytes u) as [b|e]; simpl; split.
  - intros [= <-]. eauto.
  - by intros (b' & [= <-] & ->).
  - done.
  - by intros (b & ? & _).
Qed.

Lemma verify_sealed_ok c :
  verify_sealed c = Ok tt ↔
  ∃ b, canonical_bytes (unsealed c) = Ok b
    ∧ contract_digest_blake3 c = to_hex (blake3_bytes b)
    ∧ sealed_contract_hash c = to_hex (sha256 b).
Proof.
  unfold verify_sealed, verify_sha256, verify_digest, compute_digest, compute_sha256_digest.
  destruct (canonical_bytes (unsealed c)) as [b|e]; simpl; [|by split; [|intros (? & ? & _)]].
  destruct (String.eqb_spec (to_hex (sha256 b)) (sealed_contract_hash c)) as [<-|Hs].
  - rewrite sha_hex_nonempty. simpl.
    destruct (String.eqb_spec (to_hex (blake3_bytes b)) (contract_digest_blake3 c)) as [<-|Hb];
      simpl.
    + split; [|done]. intros _. by exists b.
    + split; [done|]. intros (b' & [= <-] & ? & _). congruence.
  - rewrite andb_false_r. simpl. split; [done|]. intros (b' & [= <-] & _ & ?). congruence.
Qed.

Lemma seal_ok u c :
  seal u = Ok c →
  unsealed c = u ∧ ∃ b, canonical_bytes u = Ok b
    ∧ contract_digest_blake3 c = to_hex (blake3_bytes b)
    ∧ sealed_contract_hash c = to_hex (sha256 b).
Proof.
  unfold seal, compute_digest, compute_sha256_digest.
  destruct (canonical_bytes u) as [b|e]; simpl; [|done].
  intros [= <-]. split; [by destruct u|]. by exists b.
Qed.

(** C2: Sealing and verifying are inverse: whenever the payload serialises,
    sealing succeeds, keeps the payload unchanged and produces a contract that
    [verify_sealed] accepts; when it does not serialise, sealing reports the
    serialisation error and such a contract never verifies. *)
Theorem seal_verify_roundtrip u :
  match canonical_bytes u with
  | Ok _ => ∃ c, seal u = Ok c ∧ unsealed c = u ∧ verify_sealed c = Ok tt
  | Err e => seal u = Err e ∧ ∀ c, unsealed c = u → verify_sealed c ≠ Ok tt
  end.
Proof.
  destruct (canonical_bytes u) as [b|e] eqn:E.
  - assert (∃ c, seal u = Ok c) as [c Hc].
    { unfold seal, compute_digest, compute_sha256_digest. rewrite E. simpl. eauto. }
    exists c. split; [done|]. destruct (seal_ok u c Hc) as (Hu & b' & Hb & Hd & Hs).
    split; [done|]. apply verify_sealed_ok. rewrite Hu. eauto.
  - split.
    + unfold seal, compute_digest. by rewrite E.
    + intros c <- H. apply verify_sealed_ok in H as (b & Hb & _). congruence.
Qed.

(** C6: Tampering is detected up to a simultaneous hash collision: if a
    contract carrying the digests of a sealed one verifies, then either both
    have the same canonical bytes, or their canonical bytes are a collision of
    SHA-256 and of BLAKE3 at once. *)
Theorem tamper_needs_double_collision u c c' :
  seal u = Ok c →
  contract_digest_blake3 c' = contract_digest_blake3 c →
  sealed_contract_hash c' = sealed_contract_hash c →
  verify_sealed c' = Ok tt →
  ∃ b b', canonical_bytes u = Ok b ∧ canonical_bytes (unsealed c') = Ok b'
    ∧ (b = b' ∨ (b ≠ b' ∧ sha256 b = sha256 b' ∧ blake3_bytes b = blake3_bytes b')).
Proof.
  intros Hseal Hd Hs Hv.
  destruct (seal_ok u c Hseal) as (_ & b & Hb & Hd' & Hs').
  apply verify_sealed_ok in Hv as (b' & Hb' & Hd2 & Hs2).
  exists b, b'. split; [done|]. split; [done|].
  destruct (decide (b = b')) as [|Hne]; [by left|]. right. split; [done|].
  rewrite Hd, Hd' in Hd2. rewrite Hs, Hs' in Hs2.
  split; apply to_hex_inj; auto using sha256_range, blake3_bytes_range.
Qed.

(** The detached signature is outside the sealed bytes: replacing it never
    changes the verification outcome, while the other signing settings are
    part of them. *)
Theorem signature_is_detached c sig :
  verify_sealed (set_signature c sig) = verify_sealed c
  ∧ canonical_bytes (unsealed (set_signature c sig)) = canonical_bytes (unsealed c)
  ∧ u_crypto (clear_signature (unsealed c)) =
      mk_crypto (minisign_enabled (crypto c)) (cosign_enabled (crypto c)) None
        (public_key (crypto c)).
Proof. split; [done|]. split; done. Qed.

(** A contract that fails verification is rejected with exit code 125, and
    it fails exactly when one of the two recorded digests differs from the
    recomputed one or the payload does not serialise. *)
Theorem verify_sealed_rejects c e :
  verify_sealed c = Err e →
  policy_error_exit_code e = 125
  ∧ (match canonical_bytes (unsealed c) with
     | Err _ => True
     | Ok b => contract_digest_blake3 c ≠ to_hex (blake3_bytes b)
               ∨ sealed_contract_hash c ≠ to_hex (sha256 b)
     end).
Proof.
  intros He. split.
  - revert He. unfold verify_sealed.
    destruct (negb (verify_sha256 c)); [by intros [= <-]|].
    destruct (negb (verify_digest c)); [by intros [= <-]|done].
  - destruct (canonical_bytes (unsealed c)) as [b|] eqn:E; [|done].
    destruct (decide (contract_digest_blake3 c = to_hex (blake3_bytes b))) as [Hd|]; [|by left].
    destruct (decide (sealed_contract_hash c = to_hex (sha256 b))) as [Hs|]; [|by right].
    assert (verify_sealed c = Ok tt) by (apply verify_sealed_ok; eauto). congruence.
Qed.
End SealFacts.

(** ** A concrete codec, for samples *)

Fixpoint string_bytes (s : string) : list Z :=
  match s with
  | EmptyString => []
  | String c s => Z.of_nat (Ascii.nat_of_ascii c) :: string_bytes s
  end.

Definition demo_codec : ContractCodec := {|
  json_value := UnsealedSecurityContract;
  json_error := unit;
  to_value := λ u, Ok u;
  to_vec := λ u, Ok (string_bytes (u_contract_id u +:+ ":" +:+ u_session_nonce u));
  json_error_text := λ _, "error";
  sha256 := λ d, replicate 31 0 ++ [wrap 8 (fold_right Z.add 0 d)];
|}.

Lemma demo_codec_laws : CodecLaws demo_codec.
Proof.
  split; intros d.
  - reflexivity.
  - apply Forall_app. split; [by apply Forall_replicate|].
    constructor; [apply wrap8_range|constructor].
Qed.

Definition sample_unsealed (id : string) : UnsealedSecurityContract :=
  mk_unsealed None 1 id "nonce-12345"
    (mk_agent "claude" "claude" "0.2.24" (components "/usr/bin/claude") ["run"])
    (mk_fs (components "/workspace") [components "/workspace"; components "/usr"]
       [components "/workspace/target"] [components "/bin"; components "/usr/bin"]
       [components "/home/user/.ssh"] true true false)
    (mk_network NmAllowlist ["api.anthropic.com"] [443] true true)
    (mk_resources 128 2147483648 100 120000 10485760 104857600)
    (mk_environment ["PATH"] ∅ ["*_KEY"] true)
    (mk_attestation true true false "HOST_FACT") default_crypto.

Definition sample_contract (id : string) : SecurityContract :=
  match @seal demo_codec (sample_unsealed id) with
  | Ok c => c
  | Err _ => mk_contract None 0 "" "" (mk_agent "" "" "" [] []) (mk_fs [] [] [] [] [] false false false)
      (mk_network NmOff [] [] false false) (mk_resources 0 0 0 0 0 0)
      (mk_environment [] ∅ [] false) (mk_attestation false false false "") default_crypto "" ""
  end.

Lemma seal_verify_roundtrip_witness :
  ∃ c, @seal demo_codec (sample_unsealed "a") = Ok c
    ∧ unsealed c = sample_unsealed "a" ∧ @verify_sealed demo_codec c = Ok tt.
Proof.
  exact (@seal_verify_roundtrip demo_codec demo_codec_laws (sample_unsealed "a")).
Defined.

Lemma tamper_needs_double_collision_witness :
  ∃ b b', @canonical_bytes demo_codec (sample_unsealed "a") = Ok b
    ∧ @canonical_bytes demo_codec
        (unsealed (set_signature (sample_contract "a") (Some "00"))) = Ok b'
    ∧ (b = b' ∨ (b ≠ b' ∧ @sha256 demo_codec b = @sha256 demo_codec b'
                 ∧ blake3_bytes b = blake3_bytes b')).
Proof.
  apply (@tamper_needs_double_collision demo_codec demo_codec_laws _ (sample_contract "a"));
    vm_compute; reflexivity.
Defined.

Lemma signature_is_detached_witness :
  @verify_sealed demo_codec (set_signature (sample_contract "a") (Some "ff"))
  = @verify_sealed demo_codec (sample_contract "a").
Proof. apply (@signature_is_detached demo_codec (sample_contract "a") (Some "ff")). Defined.

Definition tampered : SecurityContract :=
  let c := sample_contract "a" in
  mk_contract None 1 "b" (session_nonce c) (agent_identity c) (filesystem c) (network c)
    (resources c) (c_environment c) (attestation c) (crypto c)
    (contract_digest_blake3 c) (sealed_contract_hash c).

Lemma verify_sealed_rejects_witness : ∃ e,
  @verify_sealed demo_codec tampered = Err e ∧ policy_error_exit_code e = 125.
Proof.
  destruct (@verify_sealed demo_codec tampered) as [[]|e] eqn:E.
  - exfalso. vm_compute in E. discriminate E.
  - exists e. split; [reflexivity|].
    exact (proj1 (@verify_sealed_rejects demo_codec demo_codec_laws tampered e E)).
Defined.
