(* ===== verification/Sync.v ===== *)
(** * Sync: enterprise policy synchronisation

    Model of [src/src/policy_ir/sync.rs].  The registry maps agent names to
    sealed contracts; a manifest is the digest-only view shipped to workers.
    [BTreeMap] is [gmap string]; the clock reading of [export_manifest] is its
    argument. *)

From S2P Require Import Prelude Paths PolicyTypes Contract.

Inductive PolicySyncError : Type :=
| DigestVerificationFailed
| PolicyDrift (agent_name expected actual : string)
| UnregisteredPolicy (agent_name : string)
| InvalidManifest (msg : string).

Definition sync_exit_code (e : PolicySyncError) : Z := 125.

Record PolicyManifestEntry : Type := mk_entry {
  entry_agent_name : string;
  entry_digest : string;
  supervisor_version : string;
  entry_network_mode : string;
  cow_overlay_enabled : bool;
}.

Record EnterpriseSyncManifest : Type := mk_manifest {
  schema_version : Z;
  timestamp_utc : string;
  policies : gmap string PolicyManifestEntry;
}.

Definition manifest_validate (m : EnterpriseSyncManifest) : result PolicySyncError unit :=
  if negb (schema_version m =? 1)
  then Err (InvalidManifest ("unsupported schema version " +:+ to_dec (schema_version m)
                             +:+ "; expected 1"))
  else Ok tt.

Record EnterprisePolicySync : Type := mk_sync {
  canonical_contracts : gmap string SecurityContract;
}.

Definition sync_new : EnterprisePolicySync := mk_sync ∅.

Definition get_contract (s : EnterprisePolicySync) (name : string) : option SecurityContract :=
  canonical_contracts s !! name.

Definition count (s : EnterprisePolicySync) : nat := size (canonical_contracts s).

Section Sync.
Context `{C : ContractCodec}.

(** [EnterpriseSyncManifest::verify_contract]. *)
Definition verify_contract (m : EnterpriseSyncManifest) (c : SecurityContract) :
  result PolicySyncError unit :=
  _ ← manifest_validate m;
  if negb (verify_digest c) then Err DigestVerificationFailed
  else
    let name := agent_name (agent_identity c) in
    entry ← ok_or (policies m !! name) (UnregisteredPolicy name);
    if negb (String.eqb (entry_digest entry) (contract_digest_blake3 c))
    then Err (PolicyDrift name (entry_digest entry) (contract_digest_blake3 c))
    else Ok tt.

Definition register_contract (s : EnterprisePolicySync) (c : SecurityContract) :
  EnterprisePolicySync * result PolicySyncError unit :=
  if negb (verify_digest c) then (s, Err DigestVerificationFailed)
  else
    let name := agent_name (agent_identity c) in
    match canonical_contracts s !! name with
    | Some existing =>
        if negb (String.eqb (contract_digest_blake3 existing) (contract_digest_blake3 c))
        then (s, Err (PolicyDrift name (contract_digest_blake3 existing)
                        (contract_digest_blake3 c)))
        else (mk_sync (<[name := c]> (canonical_contracts s)), Ok tt)
    | None => (mk_sync (<[name := c]> (canonical_contracts s)), Ok tt)
    end.

Definition verify_worker_contract (s : EnterprisePolicySync) (c : SecurityContract) :
  result PolicySyncError unit :=
  if negb (verify_digest c) then Err DigestVerificationFailed
  else
    let name := agent_name (agent_identity c) in
    canonical ← ok_or (canonical_contracts s !! name) (UnregisteredPolicy name);
    if negb (String.eqb (contract_digest_blake3 canonical) (contract_digest_blake3 c))
    then Err (PolicyDrift name (contract_digest_blake3 canonical) (contract_digest_blake3 c))
    else Ok tt.

Definition manifest_entry (name : string) (c : SecurityContract) : PolicyManifestEntry :=
  mk_entry name (contract_digest_blake3 c) (agent_version (agent_identity c))
    (network_mode_debug (net_mode (network c))) (cow_overlay (filesystem c)).

(** The loop over the registry: each contract is inserted under its key. *)
Definition export_manifest (now : string) (s : EnterprisePolicySync) : EnterpriseSyncManifest :=
  mk_manifest 1 now (map_imap (λ name c, Some (manifest_entry name c)) (canonical_contracts s)).

(** ** Invariant and runs *)

(** Every registered contract verifies and sits under its own agent name. *)
Definition sync_wf (s : EnterprisePolicySync) : Prop :=
  map_Forall (λ name c, verify_digest c = true ∧ agent_name (agent_identity c) = name)
    (canonical_contracts s).

Definition register_all (s : EnterprisePolicySync) (cs : list SecurityContract) :
  EnterprisePolicySync := fold_left (λ s c, (register_contract s c).1) cs s.

Lemma register_wf s c : sync_wf s → sync_wf (register_contract s c).1.
Proof.
  intros Hs. unfold register_contract.
  destruct (verify_digest c) eqn:Hv; simpl; [|done].
  assert (sync_wf (mk_sync (<[agent_name (agent_identity c) := c]> (canonical_contracts s)))).
  { apply map_Forall_insert_2; [by split|done]. }
  destruct (canonical_contracts s !! _); [|done]. by destruct (negb _).
Qed.

Lemma register_all_wf s cs : sync_wf s → sync_wf (register_all s cs).
Proof.
  revert s. induction cs as [|c cs IH]; intros s Hs; simpl; [done|].
  apply IH. by apply register_wf.
Qed.

Lemma register_digest_stable s c name old :
  canonical_contracts s !! name = Some old →
  ∃ new, canonical_contracts (register_contract s c).1 !! name = Some new
    ∧ contract_digest_blake3 new = contract_digest_blake3 old.
Proof.
  intros Ho. unfold register_contract.
  destruct (negb (verify_digest c)); simpl; [by eauto|].
  destruct (decide (agent_name (agent_identity c) = name)) as [<-|Hne].
  - rewrite Ho.
    destruct (String.eqb_spec (contract_digest_blake3 old) (contract_digest_blake3 c));
      simpl; [|by eauto]. exists c. by rewrite lookup_insert_eq.
  - destruct (canonical_contracts s !! agent_name _); simpl;
      [destruct (negb _); simpl; [by eauto|]|]; exists old; by rewrite lookup_insert_ne.
Qed.

(** ** Properties *)

(** Registration never drifts: from the empty registry, whatever contracts
    are offered in whatever order, every stored contract verifies and sits
    under its own agent name, and once an agent has a digest no later
    registration changes it. *)
Theorem registry_immutable cs cs' name old :
  get_contract (register_all sync_new cs) name = Some old →
  verify_digest old = true ∧ agent_name (agent_identity old) = name ∧
  ∃ new, get_contract (register_all (register_all sync_new cs) cs') name = Some new
    ∧ contract_digest_blake3 new = contract_digest_blake3 old
    ∧ verify_digest new = true.
Proof.
  intros Hold. assert (sync_wf (register_all sync_new cs)) as Hwf
    by (apply register_all_wf, map_Forall_empty).
  destruct (Hwf _ _ Hold) as [Hv Hn]. split; [done|]. split; [done|].
  clear Hn Hv. revert Hwf old Hold. generalize (register_all sync_new cs) as s.
  induction cs' as [|c cs' IH]; intros s Hwf old Hold; simpl.
  - exists old. split; [done|]. split; [done|]. by apply (Hwf _ _ Hold).
  - destruct (register_digest_stable s c name old Hold) as (mid & Hmid & Hd).
    destruct (IH _ (register_wf s c Hwf) mid Hmid) as (new & Hnew & Hdn & Hv).
    exists new. rewrite <-Hd. auto.
Qed.

(** Shipping the manifest loses nothing that verification needs: a worker
    checking a contract against the exported manifest gets exactly the result
    the registry itself gives, error included. *)
Theorem export_manifest_faithful now s c :
  verify_contract (export_manifest now s) c = verify_worker_contract s c.
Proof.
  unfold verify_contract, verify_worker_contract, export_manifest, manifest_validate. simpl.
  destruct (negb (verify_digest c)); [done|]. rewrite map_lookup_imap.
  by destruct (canonical_contracts s !! _).
Qed.

(** A worker contract is accepted exactly when its own digest verifies and
    equals the digest of the contract registered for its agent name; every
    rejection carries exit code 125. *)
Theorem verify_worker_contract_spec s c :
  (verify_worker_contract s c = Ok tt ↔
   verify_digest c = true ∧
   ∃ r, get_contract s (agent_name (agent_identity c)) = Some r
     ∧ contract_digest_blake3 r = contract_digest_blake3 c)
  ∧ ∀ e, verify_worker_contract s c = Err e → sync_exit_code e = 125.
Proof.
  split; [|done]. unfold verify_worker_contract, get_contract.
  destruct (verify_digest c); simpl; [|by split; [|intros []]].
  destruct (canonical_contracts s !! _) as [r|]; simpl.
  - destruct (String.eqb_spec (contract_digest_blake3 r) (contract_digest_blake3 c)); simpl.
    + split; [|done]. intros _. split; [done|]. by exists r.
    + split; [done|]. intros (_ & r' & [= <-] & ?). done.
  - split; [done|]. by intros (_ & r & ? & _).
Qed.
End Sync.

Lemma registry_immutable_witness :
  ∃ new, get_contract (@register_all demo_codec
            (@register_all demo_codec sync_new [sample_contract "a"])
            [sample_contract "b"; tampered]) "claude" = Some new
    ∧ contract_digest_blake3 new = contract_digest_blake3 (sample_contract "a").
Proof.
  destruct (@registry_immutable demo_codec [sample_contract "a"]
    [sample_contract "b"; tampered] "claude" (sample_contract "a"))
    as (_ & _ & new & H1 & H2 & _).
  - vm_compute. reflexivity.
  - exists new. split; [exact H1 | exact H2].
Defined.
