(* ===== verification/Ip.v ===== *)
(** * Ip: internet addresses as [std::net] parses and prints them

    The standard library's address type used by the gate and the broker: the
    octets, the recursive-descent parser behind [str::parse::<IpAddr>], the
    canonical text form and [is_loopback]. *)

From S2P Require Import Prelude.

Inductive IpAddr : Type :=
| V4 (octets : list Z)
| V6 (octets : list Z).

#[export] Instance IpAddr_eq_dec : EqDecision IpAddr.
Proof. solve_decision. Defined.

Definition octet_ok (b : Z) : bool := (0 <=? b) && (b <=? 255).
Definition ip_wf (ip : IpAddr) : bool :=
  match ip with
  | V4 o => (length o =? 4)%nat && forallb octet_ok o
  | V6 o => (length o =? 16)%nat && forallb octet_ok o
  end.

(** [octets[i]]. *)
Definition oct (o : list Z) (i : nat) : Z := nth i o 0.

(** ** The parser: a state is the unread input; a reader that fails leaves its
    caller's state untouched ([read_atomically]). *)

Definition reader (A : Type) : Type := string → option (A * string).

Definition read_given_char (c : ascii) : reader unit := λ s,
  match s with String a s' => if Ascii.eqb a c then Some (tt, s') else None | _ => None end.

(** Digits are consumed one by one; more than [max_digits] is a failure. *)
Fixpoint read_digits (radix : Z) (max_digits : nat) (acc : Z) (count : nat) (s : string)
  {struct s} :
  option (Z * nat * string) :=
  match s with
  | String c s' =>
      match digit_value radix c with
      | Some d =>
          match max_digits with
          | O => None
          | S m => read_digits radix m (acc * radix + d) (S count) s'
          end
      | None => Some (acc, count, s)
      end
  | EmptyString => Some (acc, count, s)
  end.

Definition read_number (radix : Z) (max_digits : nat) (max : Z) (allow_zero_prefix : bool) :
  reader Z := λ s,
  match read_digits radix max_digits 0 0 s with
  | Some (v, count, rest) =>
      if (count =? 0)%nat then None
      else if negb allow_zero_prefix && starts_with s "0" && (1 <? count)%nat then None
      else if v <=? max then Some (v, rest) else None
  | None => None
  end.

Definition read_separator {A} (sep : ascii) (index : nat) (inner : reader A) : reader A := λ s,
  if (0 <? index)%nat then
    match read_given_char sep s with Some (_, s') => inner s' | None => None end
  else inner s.

Fixpoint read_octets (n index : nat) : reader (list Z) := λ s,
  match n with
  | O => Some ([], s)
  | S n =>
      match read_separator "." index (read_number 10 3 255 false) s with
      | Some (v, s') =>
          match read_octets n (S index) s' with
          | Some (vs, s'') => Some (v :: vs, s'')
          | None => None
          end
      | None => None
      end
  end.
Definition read_ipv4 : reader (list Z) := read_octets 4 0.

(** [read_groups]: 16-bit groups, at most [limit - index] more of them; the flag
    reports a trailing embedded IPv4 address.  Never fails. *)
Fixpoint read_groups (n index limit : nat) (s : string) : list Z * bool * string :=
  match n with
  | O => ([], false, s)
  | S n =>
      match (if (index <? limit - 1)%nat then read_separator ":" index read_ipv4 s else None) with
      | Some ([a; b; c; d], s') => ([a * 256 + b; c * 256 + d], true, s')
      | _ =>
          match read_separator ":" index (read_number 16 4 65535 true) s with
          | Some (g, s') =>
              let '(gs, v4, s'') := read_groups n (S index) limit s' in (g :: gs, v4, s'')
          | None => ([], false, s)
          end
      end
  end.

Definition groups_to_octets (gs : list Z) : list Z :=
  concat ((λ g, [g / 256; g mod 256]) <$> gs).

Definition read_ipv6 : reader (list Z) := λ s,
  let '(head, head_v4, s1) := read_groups 8 0 8 s in
  if (length head =? 8)%nat then Some (groups_to_octets head, s1)
  else if head_v4 then None
  else match read_given_char ":" s1 with
  | None => None
  | Some (_, s2) =>
      match read_given_char ":" s2 with
      | None => None
      | Some (_, s3) =>
          let limit := (8 - (length head + 1))%nat in
          let '(tail, _, s4) := read_groups limit 0 limit s3 in
          Some (groups_to_octets
                  (head ++ replicate (8 - length head - length tail) 0 ++ tail), s4)
      end
  end.

(** [str::parse::<IpAddr>]: IPv4 first; whatever is read must be everything. *)
Definition parse_ip (s : string) : option IpAddr :=
  match read_ipv4 s with
  | Some (o, rest) => if is_empty rest then Some (V4 o) else None
  | None =>
      match read_ipv6 s with
      | Some (o, rest) => if is_empty rest then Some (V6 o) else None
      | None => None
      end
  end.

(** ** Text form *)

Definition hex_char (d : Z) : ascii := chr (Z.to_nat (if d <? 10 then 48 + d else 87 + d)).
Fixpoint hex_digits (fuel : nat) (n : Z) (acc : string) : string :=
  match fuel with
  | O => acc
  | S fuel =>
      let acc := String (hex_char (n mod 16)) acc in
      if n <? 16 then acc else hex_digits fuel (n / 16) acc
  end.
Definition hex16 (n : Z) : string := hex_digits 4 n EmptyString.

Fixpoint join (sep : string) (ws : list string) : string :=
  match ws with
  | [] => EmptyString
  | [w] => w
  | w :: ws => w +:+ sep +:+ join sep ws
  end.

Definition v4_text (o : list Z) : string := join "." (to_dec <$> o).

Fixpoint octets_to_groups (o : list Z) : list Z :=
  match o with a :: b :: o => (a * 256 + b) :: octets_to_groups o | _ => [] end.

(** The first longest run of zero groups: start and length. *)
Fixpoint zero_runs (gs : list Z) (i start len best_start best_len : nat) : nat * nat :=
  match gs with
  | [] => (best_start, best_len)
  | g :: gs =>
      if g =? 0 then
        let start := if (len =? 0)%nat then i else start in
        let len := S len in
        if (best_len <? len)%nat then zero_runs gs (S i) start len start len
        else zero_runs gs (S i) start len best_start best_len
      else zero_runs gs (S i) 0 0 best_start best_len
  end.

Definition v6_text (o : list Z) : string :=
  if forallb (Z.eqb 0) (take 10 o) && (oct o 10 =? 255) && (oct o 11 =? 255)
  then "::ffff:" +:+ v4_text (drop 12 o)
  else
    let gs := octets_to_groups o in
    let '(start, len) := zero_runs gs 0 0 0 0 0 in
    if (1 <? len)%nat
    then join ":" (hex16 <$> take start gs) +:+ "::" +:+ join ":" (hex16 <$> drop (start + len) gs)
    else join ":" (hex16 <$> gs).

Definition ip_text (ip : IpAddr) : string :=
  match ip with V4 o => v4_text o | V6 o => v6_text o end.

(** ** Predicates *)

Definition v4_is_loopback (o : list Z) : bool := oct o 0 =? 127.
Definition v6_is_loopback (o : list Z) : bool :=
  forallb (Z.eqb 0) (take 15 o) && (oct o 15 =? 1).
Definition ip_is_loopback (ip : IpAddr) : bool :=
  match ip with V4 o => v4_is_loopback o | V6 o => v6_is_loopback o end.

(** ** Samples *)

Example parse_v4 : parse_ip "169.254.169.254" = Some (V4 [169; 254; 169; 254]).
Proof. vm_compute. reflexivity. Qed.
Example parse_v4_bad :
  parse_ip "01.2.3.4" = None ∧ parse_ip "1.2.3" = None ∧ parse_ip "1.2.3.4.5" = None
  ∧ parse_ip "256.1.1.1" = None ∧ parse_ip "1.2.3.4 " = None ∧ parse_ip "2852039166" = None.
Proof. vm_compute. auto 10. Qed.
Example parse_v6_forms :
  parse_ip "::1" = Some (V6 (replicate 15 0 ++ [1]))
  ∧ parse_ip "::" = Some (V6 (replicate 16 0))
  ∧ parse_ip "::ffff:169.254.169.254"
    = Some (V6 (replicate 10 0 ++ [255; 255; 169; 254; 169; 254]))
  ∧ parse_ip "1:2:3:4:5:6:7" = None ∧ parse_ip "1::2::3" = None ∧ parse_ip "12345::" = None
  ∧ parse_ip "1:2:3:4:5:6:7::" = Some (V6 [0;1;0;2;0;3;0;4;0;5;0;6;0;7;0;0]).
Proof. vm_compute. auto 10. Qed.
Example text_v6 :
  ip_text <$> parse_ip "2606:4700:4700:0:0:0:0:1111" = Some "2606:4700:4700::1111"
  ∧ ip_text <$> parse_ip "::ffff:1.2.3.4" = Some "::ffff:1.2.3.4"
  ∧ ip_text <$> parse_ip "::" = Some "::" ∧ ip_text <$> parse_ip "1:0:2:0:3:0:4:0" = Some "1:0:2:0:3:0:4:0".
Proof. vm_compute. auto 10. Qed.

(** ** Parsed addresses are well formed *)

Lemma read_digits_range radix m acc count s v n rest :
  0 < radix → 0 ≤ acc → read_digits radix m acc count s = Some (v, n, rest) → 0 ≤ v.
Proof.
  intros Hr. revert m acc count. induction s as [|c s IH]; intros m acc count Ha H; simpl in H.
  { by simplify_eq. }
  destruct (digit_value radix c) as [d|] eqn:E; [|by simplify_eq].
  apply digit_value_range in E. destruct m; [done|]. eapply IH; [|exact H]. nia.
Qed.

Lemma read_number_range radix m max z s v rest :
  0 < radix → read_number radix m max z s = Some (v, rest) → 0 ≤ v ≤ max.
Proof.
  intros Hr. unfold read_number.
  destruct (read_digits radix m 0 0 s) as [[[w n] r]|] eqn:E; [|done].
  apply read_digits_range in E; [|done|done].
  destruct (n =? 0)%nat; [done|]. destruct (_ && _); [done|].
  destruct (Z.leb_spec w max); [|done]. intros [= <- <-]. done.
Qed.

Lemma read_octets_wf n i s o rest :
  read_octets n i s = Some (o, rest) → length o = n ∧ forallb octet_ok o = true.
Proof.
  revert i s o. induction n as [|n IH]; intros i s o H; simpl in H; [by simplify_eq|].
  destruct (read_separator _ _ _ s) as [[v s']|] eqn:E; [|done].
  destruct (read_octets n (S i) s') as [[vs s'']|] eqn:E2; [|done]. simplify_eq.
  apply IH in E2 as [<- Hall]. split; [done|]. simpl. rewrite Hall, andb_true_r.
  assert (0 ≤ v ≤ 255).
  { unfold read_separator in E. destruct (0 <? i)%nat.
    - destruct (read_given_char "." s) as [[? ?]|]; [|done]. by eapply read_number_range in E.
    - by eapply read_number_range in E. }
  unfold octet_ok. apply andb_true_iff. split; apply Z.leb_le; lia.
Qed.

Definition group_ok (g : Z) : Prop := 0 ≤ g ≤ 65535.

Lemma read_separator_number i s g rest :
  read_separator ":" i (read_number 16 4 65535 true) s = Some (g, rest) → group_ok g.
Proof.
  unfold read_separator, group_ok. intros E. destruct (0 <? i)%nat.
  - destruct (read_given_char ":" s) as [[? ?]|]; [|done]. by eapply read_number_range in E.
  - by eapply read_number_range in E.
Qed.

Lemma read_groups_wf n i limit s gs v4 rest :
  read_groups n i limit s = (gs, v4, rest) → (i + n = limit)%nat →
  (length gs ≤ n)%nat ∧ Forall group_ok gs.
Proof.
  revert i s gs v4 rest. induction n as [|n IH]; intros i s gs v4 rest H Hl; simpl in H.
  { by simplify_eq. }
  assert (∀ gs v4 rest,
    match read_separator ":" i (read_number 16 4 65535 true) s with
    | Some (g, s') =>
        let '(gs, v4, s'') := read_groups n (S i) limit s' in (g :: gs, v4, s'')
    | None => ([], false, s)
    end = (gs, v4, rest) → (length gs ≤ S n)%nat ∧ Forall group_ok gs) as Hnum.
  { intros gs' v4' rest'. destruct (read_separator ":" i (read_number 16 4 65535 true) s)
      as [[g s']|] eqn:E; [|intros; simplify_eq; simpl; split; [lia|constructor]].
    destruct (read_groups n (S i) limit s') as [[gs2 v42] s''] eqn:E2. intros; simplify_eq.
    apply IH in E2 as [? ?]; [|lia]. simpl. split; [lia|]. constructor; [|done].
    by eapply read_separator_number. }
  destruct (i <? limit - 1)%nat eqn:Hi; [|by eapply Hnum].
  destruct (read_separator ":" i read_ipv4 s) as [[o s']|] eqn:E; [|by eapply Hnum].
  assert (length o = 4%nat ∧ forallb octet_ok o = true) as [Hlen Hall].
  { unfold read_separator in E. destruct (0 <? i)%nat.
    - destruct (read_given_char ":" s) as [[? ?]|]; [|done]. by eapply read_octets_wf.
    - by eapply read_octets_wf. }
  destruct o as [|a [|b [|c [|d [|]]]]]; try discriminate Hlen. simplify_eq.
  apply Nat.ltb_lt in Hi. simpl in *. unfold octet_ok in Hall. to_prop.
  split; [lia|]. repeat constructor; unfold group_ok; lia.
Qed.

Lemma groups_to_octets_wf gs :
  Forall group_ok gs →
  length (groups_to_octets gs) = (2 * length gs)%nat
  ∧ forallb octet_ok (groups_to_octets gs) = true.
Proof.
  unfold groups_to_octets. induction 1 as [|g gs Hg _ [IHl IHa]]; [done|].
  rewrite fmap_cons. cbn [concat]. rewrite length_app, forallb_app, IHl, IHa. split.
  - simpl. lia.
  - unfold group_ok in Hg. simpl. rewrite !andb_true_r. unfold octet_ok.
    pose proof (Z.mod_pos_bound g 256). 
    assert (0 ≤ g / 256 ≤ 255).
    { split; [apply Z.div_pos; lia|]. apply Z.lt_succ_r, Z.div_lt_upper_bound; lia. }
    rewrite !andb_true_iff, !Z.leb_le. lia.
Qed.

Lemma parse_ip_wf s ip : parse_ip s = Some ip → ip_wf ip = true.
Proof.
  unfold parse_ip. destruct (read_ipv4 s) as [[o rest]|] eqn:E.
  - destruct (is_empty rest); [|done]. intros [= <-]. apply read_octets_wf in E as [Hl Ha].
    simpl. by rewrite Hl, Ha.
  - clear E. unfold read_ipv6.
    destruct (read_groups 8 0 8 s) as [[head v4] s1] eqn:E1.
    apply read_groups_wf in E1 as [Hl1 Hg1]; [|done].
    assert (∀ gs, Forall group_ok gs → length gs = 8%nat →
      ip_wf (V6 (groups_to_octets gs)) = true) as Hwf.
    { intros gs Hg Hl. destruct (groups_to_octets_wf gs Hg) as [Hlo Ha].
      unfold ip_wf. by rewrite Hlo, Hl, Ha. }
    destruct (Nat.eqb_spec (length head) 8) as [H8|H8].
    { destruct (is_empty s1); [|done]. intros [= <-]. by apply Hwf. }
    destruct v4; [done|]. destruct (read_given_char ":" s1) as [[? s2]|]; [|done].
    destruct (read_given_char ":" s2) as [[? s3]|]; [|done].
    destruct (read_groups _ 0 _ s3) as [[tail t4] s4] eqn:E2.
    apply read_groups_wf in E2 as [Hl2 Hg2]; [|lia].
    destruct (is_empty s4); [|done]. intros [= <-]. apply Hwf.
    + apply Forall_app; split; [done|]. apply Forall_app; split; [|done].
      apply Forall_replicate. by unfold group_ok.
    + rewrite !length_app, length_replicate. lia.
Qed.

(** ** Reading back the text form *)

Definition head_ok (P : ascii → bool) (s : string) : Prop :=
  match s with EmptyString => True | String c _ => P c = false end.

Definition is_radix_digit (radix : Z) (c : ascii) : bool := bool_decide (is_Some (digit_value radix c)).

(** All digits of [w] are read when they fit and something else follows. *)
Lemma read_digits_all radix m acc count w rest v :
  digits_acc radix acc w = Some v → (String.length w ≤ m)%nat →
  head_ok (is_radix_digit radix) rest →
  read_digits radix m acc count (w +:+ rest) = Some (v, (count + String.length w)%nat, rest).
Proof.
  revert m acc count. induction w as [|c w IH]; intros m acc count Hv Hm Hr; cbn in *.
  - injection Hv as ->. rewrite Nat.add_0_r. destruct rest as [|c rest]; [done|]. cbn in *.
    unfold is_radix_digit in Hr. case_bool_decide as E; [done|].
    destruct (digit_value radix c); [by destruct E|done].
  - destruct (digit_value radix c) as [d|]; [|done]. destruct m as [|m]; [lia|].
    rewrite (IH m _ (S count)); [|done|lia|done]. f_equal. f_equal. f_equal. lia.
Qed.

Lemma read_number_all radix m max zero w rest v :
  digits_acc radix 0 w = Some v → (0 < String.length w ≤ m)%nat → v ≤ max →
  zero || negb (starts_with w "0" && (1 <? String.length w)%nat) = true →
  head_ok (is_radix_digit radix) rest →
  read_number radix m max zero (w +:+ rest) = Some (v, rest).
Proof.
  intros Hv Hm Hmax Hz Hr. unfold read_number.
  rewrite (read_digits_all _ _ _ _ _ _ v) by (done || lia). cbn [Nat.add].
  destruct (String.length w =? 0)%nat eqn:E; [apply Nat.eqb_eq in E; lia|].
  assert (starts_with (w +:+ rest) "0" = starts_with w "0") as ->
    by (destruct w as [|c w]; [cbn in Hm; lia|unfold starts_with; cbn; by destruct (Ascii.eqb _ _)]).
  assert (negb zero && starts_with w "0" && (1 <? String.length w)%nat = false) as ->.
  { by destruct zero, (starts_with w "0"), (1 <? String.length w)%nat. }
  by destruct (Z.leb_spec v max); [|lia].
Qed.

(** Decimal octets and hexadecimal groups, by computation over their range. *)
Definition dec_octet_ok (n : Z) : bool :=
  bool_decide (digits_acc 10 0 (to_dec n) = Some n)
  && ((0 <? String.length (to_dec n)) && (String.length (to_dec n) <=? 3))%nat
  && negb (starts_with (to_dec n) "0" && (1 <? String.length (to_dec n))%nat).

Fixpoint all_from (P : Z → bool) (n : nat) (g : Z) : bool :=
  match n with O => true | S n => P g && all_from P n (g + 1) end.

Lemma all_from_spec P n start g :
  all_from P n start = true → start ≤ g < start + Z.of_nat n → P g = true.
Proof.
  revert start. induction n as [|n IH]; intros start H Hg; [lia|]. cbn in H.
  apply andb_true_iff in H as [H0 Hn]. destruct (decide (g = start)) as [->|]; [done|].
  apply (IH _ Hn). lia.
Qed.

Lemma dec_octets_ok : all_from dec_octet_ok (Z.to_nat 256) 0 = true.
Proof. vm_compute. reflexivity. Qed.

Lemma hex_char_value d : 0 ≤ d < 16 → digit_value 16 (hex_char d) = Some d.
Proof.
  intros Hd. apply (bool_decide_unpack _).
  refine (Is_true_true_2 _ (all_from_spec (λ d, bool_decide (digit_value 16 (hex_char d) = Some d))
            (Z.to_nat 16) 0 d _ _)); [reflexivity|lia].
Qed.

(** A group in hexadecimal: at most [fuel] more digits, which read as [n]. *)
Lemma hex_digits_value fuel n acc a :
  0 ≤ n < 16 ^ Z.of_nat fuel → (0 < fuel)%nat →
  (∃ k, digits_acc 16 a (hex_digits fuel n acc) = digits_acc 16 (a * k + n) acc)
  ∧ (String.length acc < String.length (hex_digits fuel n acc) ≤ fuel + String.length acc)%nat.
Proof.
  revert n acc. induction fuel as [|fuel IH]; intros n acc Hn Hf; [lia|].
  rewrite Nat2Z.inj_succ, Z.pow_succ_r in Hn by lia. cbn [hex_digits].
  pose proof (Z.mod_pos_bound n 16). pose proof (Z.div_mod n 16).
  destruct (Z.ltb_spec n 16).
  - split; [|cbn; lia]. exists 16. cbn. rewrite hex_char_value by lia. by rewrite Z.mod_small by lia.
  - destruct (decide (fuel = O)) as [->|Hf']; [cbn in Hn; lia|].
    destruct (IH (n / 16) (String (hex_char (n mod 16)) acc)) as [[k ->] Hl];
      [split; [apply Z.div_pos; lia|apply Z.div_lt_upper_bound; lia]|lia|].
    split; [|cbn in Hl; lia]. exists (16 * k). cbn. rewrite hex_char_value by lia.
    f_equal. lia.
Qed.

Lemma read_octet n rest :
  0 ≤ n ≤ 255 → head_ok (is_radix_digit 10) rest →
  read_number 10 3 255 false (to_dec n +:+ rest) = Some (n, rest).
Proof.
  intros Hn Hr. assert (dec_octet_ok n = true) as H by (apply (all_from_spec _ _ _ _ dec_octets_ok); lia).
  unfold dec_octet_ok in H. apply andb_true_iff in H as [[Hv [Hl Hl']%andb_true_iff]%andb_true_iff Hz].
  apply bool_decide_eq_true_1 in Hv. apply read_number_all; [done| |lia|done|done].
  split; [apply Nat.ltb_lt|apply Nat.leb_le]; done.
Qed.

Lemma read_group g rest :
  group_ok g → head_ok (is_radix_digit 16) rest →
  read_number 16 4 65535 true (hex16 g +:+ rest) = Some (g, rest).
Proof.
  unfold group_ok, hex16. intros Hn Hr.
  destruct (hex_digits_value 4 g EmptyString 0) as [[k Hk] Hl]; [lia|lia|].
  apply read_number_all; [by rewrite Hk|change (String.length EmptyString) with 0%nat in Hl; lia|lia|done|done].
Qed.

(** What follows the first element of a joined text. *)
Fixpoint sep_text (sep : ascii) (ws : list string) : string :=
  match ws with [] => EmptyString | w :: ws => String sep (w +:+ sep_text sep ws) end.

Lemma join_sep sep w ws :
  join (String sep EmptyString) (w :: ws) = w +:+ sep_text sep ws.
Proof.
  revert w. induction ws as [|v ws IH]; intros w; [by rewrite string_app_nil_r|].
  change (join (String sep EmptyString) (w :: v :: ws))
    with (w +:+ String sep (join (String sep EmptyString) (v :: ws))).
  by rewrite IH.
Qed.

Lemma head_ok_sep P sep ws rest :
  P sep = false → head_ok P rest → head_ok P (sep_text sep ws +:+ rest).
Proof. by destruct ws. Qed.

Lemma read_octets_S n i s :
  read_octets (S n) i s
  = match read_separator "." i (read_number 10 3 255 false) s with
    | Some (v, s') =>
        match read_octets n (S i) s' with Some (vs, s'') => Some (v :: vs, s'') | None => None end
    | None => None
    end.
Proof. done. Qed.

Lemma read_octets_sep os i rest :
  (0 < i)%nat → forallb octet_ok os = true → head_ok (is_radix_digit 10) rest →
  read_octets (length os) i (sep_text "." (to_dec <$> os) +:+ rest) = Some (os, rest).
Proof.
  revert i. induction os as [|o os IH]; intros i Hi Ho Hr; [done|].
  cbn in Ho. apply andb_true_iff in Ho as [Ho Hos]. unfold octet_ok in Ho. to_prop.
  cbn [length fmap list_fmap sep_text append]. rewrite read_octets_S. unfold read_separator at 1.
  destruct (Nat.ltb_spec 0 i); [|lia]. cbn [read_given_char].
  replace (Ascii.eqb "." ".") with true by reflexivity. cbv iota beta.
  rewrite string_app_assoc, read_octet by (done || by apply head_ok_sep).
  by rewrite IH by (done || lia).
Qed.

Lemma read_ipv4_text o rest :
  ip_wf (V4 o) = true → head_ok (is_radix_digit 10) rest →
  read_ipv4 (v4_text o +:+ rest) = Some (o, rest).
Proof.
  unfold ip_wf. intros [Hl Ho]%andb_true_iff Hr. apply Nat.eqb_eq in Hl.
  destruct o as [|a o]; [done|]. cbn in Hl, Ho. injection Hl as Hl.
  apply andb_true_iff in Ho as [Ha Ho]. unfold octet_ok in Ha. to_prop.
  unfold v4_text, read_ipv4. cbn [fmap list_fmap]. rewrite join_sep, string_app_assoc.
  rewrite read_octets_S. unfold read_separator at 1. cbn [Nat.ltb Nat.leb].
  rewrite read_octet by (done || by apply head_ok_sep). rewrite <-Hl.
  by rewrite read_octets_sep by (done || lia).
Qed.

(** A group in hexadecimal is not the start of an IPv4 address. *)
Lemma read_digits_stop radix m acc count w rest v k s :
  head_ok (is_radix_digit radix) rest → read_digits radix m acc count (w +:+ rest) = Some (v, k, s) →
  ∃ w1 w2, w = w1 +:+ w2 ∧ s = w2 +:+ rest.
Proof.
  revert m acc count. induction w as [|c w IH]; intros m acc count Hr H; cbn in H.
  - exists EmptyString, EmptyString. split; [done|]. destruct rest as [|c rest]; [by cbn in *; simplify_eq|].
    cbn in *. unfold is_radix_digit in Hr. case_bool_decide as E; [done|].
    destruct (digit_value radix c); [by destruct E|by simplify_eq].
  - destruct (digit_value radix c) as [d|].
    + destruct m as [|m]; [done|]. apply IH in H as (w1 & w2 & -> & ->); [|done].
      by exists (String c w1), w2.
    + simplify_eq. by exists EmptyString, (String c w).
Qed.

Lemma join_chars P sep ws :
  all_chars P sep = true → Forall (λ w, all_chars P w = true) ws → all_chars P (join sep ws) = true.
Proof.
  intros Hs. induction ws as [|w [|v ws] IH]; intros Hw; [done|by inversion Hw|].
  apply Forall_cons in Hw as [Hw Hws].
  change (join sep (w :: v :: ws)) with (w +:+ sep +:+ join sep (v :: ws)). by rewrite !all_chars_app, Hw, Hs, IH.
Qed.

Lemma hex_digits_chars fuel n acc :
  all_chars (λ c, negb (Ascii.eqb c ".")) acc = true → 0 ≤ n →
  all_chars (λ c, negb (Ascii.eqb c ".")) (hex_digits fuel n acc) = true.
Proof.
  revert n acc. induction fuel as [|fuel IH]; intros n acc Ha Hn; [done|]. cbn [hex_digits].
  assert (Ascii.eqb (hex_char (n mod 16)) "." = false) as Hc.
  { refine (proj1 (negb_true_iff _) (all_from_spec (λ d, negb (Ascii.eqb (hex_char d) "."))
              (Z.to_nat 16) 0 _ _ _)); [reflexivity|]. pose proof (Z.mod_pos_bound n 16). lia. }
  destruct (n <? 16); [cbn; by rewrite Hc|]. apply IH; [cbn; by rewrite Hc|]. apply Z.div_pos; lia.
Qed.

Lemma read_ipv4_group g rest :
  group_ok g → head_ok (is_radix_digit 10) rest → head_ok (Ascii.eqb ".") rest →
  read_ipv4 (hex16 g +:+ rest) = None.
Proof.
  unfold group_ok. intros Hg Hr Hd. unfold read_ipv4. rewrite read_octets_S. unfold read_separator at 1.
  cbn [Nat.ltb Nat.leb]. destruct (read_number 10 3 255 false _) as [[v s]|] eqn:E; [|done].
  unfold read_number in E. destruct (read_digits _ _ _ _ _) as [[[v' k] s']|] eqn:Er; [|done].
  apply read_digits_stop in Er as (w1 & w2 & Hw & ->); [|done].
  assert (all_chars (λ c, negb (Ascii.eqb c ".")) w2 = true) as Hw2.
  { pose proof (hex_digits_chars 4 g EmptyString eq_refl (proj1 Hg)) as Ha. fold (hex16 g) in Ha.
    rewrite Hw, all_chars_app in Ha. by apply andb_true_iff in Ha as [_ ?]. }
  assert (s = w2 +:+ rest) as ->.
  { destruct (k =? 0)%nat; [done|]. destruct (_ && _ && _); [done|]. destruct (v' <=? 255); by simplify_eq. }
  rewrite read_octets_S. unfold read_separator. cbn [Nat.ltb Nat.leb].
  assert (read_given_char "." (w2 +:+ rest) = None) as ->; [|done].
  destruct w2 as [|c w2]; cbn in *.
  - destruct rest as [|c rest]; [done|]. cbn in *. rewrite Ascii.eqb_sym. by rewrite Hd.
  - apply andb_true_iff in Hw2 as [Hc%negb_true_iff _]. by rewrite Hc.
Qed.

(** ** IPv6 *)

Definition stops (rest : string) : Prop := rest = EmptyString ∨ ∃ r, rest = String ":" (String ":" r).

Lemma stops_head radix rest : radix ≤ 16 → stops rest → head_ok (is_radix_digit radix) rest.
Proof.
  intros Hr [->|[r ->]]; [done|]. cbn. unfold is_radix_digit. case_bool_decide as E; [|done].
  destruct E as [v E]. cbn in E. done.
Qed.

Lemma stops_no_dot rest : stops rest → head_ok (Ascii.eqb ".") rest.
Proof. by intros [->|[r ->]]. Qed.

Lemma seps_stop gs rest :
  stops rest → let T := sep_text ":" (hex16 <$> gs) +:+ rest in
  head_ok (is_radix_digit 16) T ∧ head_ok (is_radix_digit 10) T ∧ head_ok (Ascii.eqb ".") T.
Proof.
  intros Hs T. unfold T.
  split_and!; (apply head_ok_sep; [done|]); [apply stops_head; [lia|done]..|by apply stops_no_dot].
Qed.

(** Reading one group, with the separator the position asks for. *)
Lemma read_groups_step n i limit g T :
  group_ok g → head_ok (is_radix_digit 16) T → head_ok (is_radix_digit 10) T →
  head_ok (Ascii.eqb ".") T →
  read_groups (S n) i limit ((if (0 <? i)%nat then ":" else "") +:+ hex16 g +:+ T)
  = let '(gs, v4, s) := read_groups n (S i) limit T in (g :: gs, v4, s).
Proof.
  intros Hg H16 H10 Hdot. cbn [read_groups].
  assert (∀ A (inner : reader A),
    read_separator ":" i inner ((if (0 <? i)%nat then ":" else "") +:+ hex16 g +:+ T)
    = inner (hex16 g +:+ T)) as Hsep by (intros A inner; unfold read_separator; by destruct (0 <? i)%nat).
  rewrite !Hsep, read_ipv4_group, read_group by done. by destruct (i <? limit - 1)%nat.
Qed.

Lemma read_groups_stop n i limit rest : stops rest → read_groups n i limit rest = ([], false, rest).
Proof.
  intros Hs. destruct n as [|n]; [done|]. cbn [read_groups].
  assert (∀ A (inner : reader A), inner EmptyString = None → (∀ r, inner (String ":" r) = None) →
    read_separator ":" i inner rest = None) as Hsep.
  { intros A inner Hn Hc. unfold read_separator. destruct Hs as [->|[r ->]].
    - destruct (0 <? i)%nat; (done || apply Hc).
    - cbn [read_given_char]. destruct (0 <? i)%nat; apply Hc. }
  rewrite !Hsep by done. by destruct (i <? limit - 1)%nat.
Qed.

Lemma read_groups_seps gs n i limit rest :
  (0 < i)%nat → (length gs ≤ n)%nat → Forall group_ok gs → stops rest →
  read_groups n i limit (sep_text ":" (hex16 <$> gs) +:+ rest) = (gs, false, rest).
Proof.
  revert n i. induction gs as [|g gs IH]; intros n i Hi Hn Hg Hs; [by apply read_groups_stop|].
  destruct n as [|n]; [cbn in Hn; lia|]. apply Forall_cons in Hg as [Hg Hgs].
  destruct (seps_stop gs rest Hs) as (? & ? & ?).
  pose proof (read_groups_step n i limit g (sep_text ":" (hex16 <$> gs) +:+ rest)) as Hstep.
  destruct (Nat.ltb_spec 0 i); [|lia].
  cbn [fmap list_fmap sep_text append]. rewrite string_app_assoc. cbn [append] in Hstep.
  rewrite Hstep, IH by (done || cbn in Hn; lia). done.
Qed.

Lemma read_groups_text gs n limit rest :
  (length gs ≤ n)%nat → Forall group_ok gs → stops rest →
  read_groups n 0 limit (join ":" (hex16 <$> gs) +:+ rest) = (gs, false, rest).
Proof.
  intros Hn Hg Hs. destruct gs as [|g gs]; [by apply read_groups_stop|].
  destruct n as [|n]; [cbn in Hn; lia|]. apply Forall_cons in Hg as [Hg Hgs].
  destruct (seps_stop gs rest Hs) as (? & ? & ?).
  cbn [fmap list_fmap]. rewrite join_sep, string_app_assoc.
  pose proof (read_groups_step n 0 limit g (sep_text ":" (hex16 <$> gs) +:+ rest)) as Hstep.
  cbn [Nat.ltb Nat.leb append] in Hstep. rewrite Hstep by done.
  rewrite read_groups_seps by (done || cbn in Hn; lia). done.
Qed.

(** ** The compressed run *)

Definition zeros (gs : list Z) (s l : nat) : Prop :=
  (s + l ≤ length gs)%nat ∧ ∀ j, (s ≤ j < s + l)%nat → gs !! j = Some 0.

Lemma zero_runs_spec full gs i start len bs bl :
  drop i full = gs → zeros full bs bl → (0 < len → start + len = i)%nat →
  zeros full (if (len =? 0)%nat then i else start) len →
  let '(s, l) := zero_runs gs i start len bs bl in zeros full s l.
Proof.
  revert i start len bs bl. induction gs as [|g gs IH]; intros i start len bs bl Hd Hb Hl Hz; [done|].
  assert (full !! i = Some g ∧ drop (S i) full = gs ∧ (i < length full)%nat) as (Hi & Hd' & Hlt).
  { pose proof (lookup_drop full i 0) as Hg. rewrite Hd, Nat.add_0_r in Hg. cbn in Hg.
    split_and!; [done| |by eapply lookup_lt_Some].
    replace (S i) with (i + 1)%nat by lia. rewrite <-drop_drop, Hd. done. }
  cbn [zero_runs]. destruct (Z.eqb_spec g 0) as [->|_].
  - set (st := if (len =? 0)%nat then i else start) in *.
    assert (zeros full st (S len) ∧ (st + S len = S i)%nat) as [Hz' Hs].
    { assert (st + len = i)%nat as Hst.
      { unfold st. destruct (Nat.eqb_spec len 0); [lia|]. apply Hl. lia. }
      split; [|lia]. split; [lia|]. intros j Hj. destruct (decide (j = i)) as [->|]; [done|].
      apply Hz. lia. }
    destruct (bl <? S len)%nat; apply IH; try done; intros; cbn; done.
  - apply IH; [done|done|lia|]. cbn. split; [lia|]. intros j Hj. lia.
Qed.

Lemma zeros_split gs s l :
  zeros gs s l → gs = take s gs ++ replicate l 0 ++ drop (s + l) gs.
Proof.
  intros [Hl Hz]. rewrite <-(take_drop s gs) at 1. f_equal.
  rewrite <-(take_drop l (drop s gs)) at 1. rewrite drop_drop. f_equal.
  apply list_eq. intros j. destruct (decide (j < l)%nat).
  - rewrite lookup_take_lt, lookup_drop, Hz, lookup_replicate_2 by lia. done.
  - rewrite !lookup_ge_None_2; [done|rewrite length_replicate; lia|rewrite length_take; lia].
Qed.

(** ** The round trip *)

Lemma octets_groups o :
  forallb octet_ok o = true → Nat.even (length o) = true →
  Forall group_ok (octets_to_groups o) ∧ length o = (2 * length (octets_to_groups o))%nat
  ∧ groups_to_octets (octets_to_groups o) = o.
Proof.
  revert o. fix IH 1. intros [|a [|b o]] Ho He; [by repeat constructor|done|].
  cbn in Ho. apply andb_true_iff in Ho as [Ha Ho]. apply andb_true_iff in Ho as [Hb Ho].
  unfold octet_ok in Ha, Hb. to_prop. destruct (IH o Ho He) as (Hg & Hl & Hr). cbn [octets_to_groups].
  split_and!; [constructor; [unfold group_ok; lia|done]|cbn; lia|].
  unfold groups_to_octets in *. cbn [fmap list_fmap concat app]. rewrite Hr.
  rewrite Z.div_add_l, Z.div_small, Z.add_0_r by lia.
  by rewrite Z.add_comm, Z.mod_add, Z.mod_small by lia.
Qed.

Lemma parse_ip_v6 s o : read_ipv4 s = None → read_ipv6 s = Some (o, EmptyString) → parse_ip s = Some (V6 o).
Proof. unfold parse_ip. by intros -> ->. Qed.

Lemma read_ipv4_colon r : read_ipv4 (String ":" r) = None.
Proof. done. Qed.

Lemma read_ipv4_groups gs rest :
  Forall group_ok gs → stops rest → gs ≠ [] ∨ rest ≠ EmptyString →
  read_ipv4 (join ":" (hex16 <$> gs) +:+ rest) = None.
Proof.
  intros Hg Hs Hne. destruct gs as [|g gs].
  - destruct Hs as [->|[r ->]]; [by destruct Hne|done].
  - apply Forall_cons in Hg as [Hg _]. destruct (seps_stop gs rest Hs) as (? & ? & ?).
    cbn [fmap list_fmap]. rewrite join_sep, string_app_assoc. by apply read_ipv4_group.
Qed.

(** Without compression, and with the run [start, start + len) written [::]. *)
Lemma read_given_colon r : read_given_char ":" (String ":" r) = Some (tt, r).
Proof. done. Qed.

Lemma parse_full_groups gs :
  Forall group_ok gs → length gs = 8%nat →
  parse_ip (join ":" (hex16 <$> gs)) = Some (V6 (groups_to_octets gs)).
Proof.
  intros Hg Hl. rewrite <-(string_app_nil_r (join _ _)). apply parse_ip_v6.
  - apply read_ipv4_groups; [done|by left|left; by destruct gs].
  - unfold read_ipv6. rewrite read_groups_text by (done || lia || by left). by rewrite Hl.
Qed.

Lemma parse_compressed gs s l :
  Forall group_ok gs → length gs = 8%nat → zeros gs s l → (1 < l)%nat →
  parse_ip (join ":" (hex16 <$> take s gs) +:+ "::" +:+ join ":" (hex16 <$> drop (s + l) gs))
  = Some (V6 (groups_to_octets gs)).
Proof.
  intros Hg Hl Hz Hlt. pose proof (zeros_split _ _ _ Hz) as Hsplit. destruct Hz as [Hsl _].
  set (tl := drop (s + l) gs) in *. set (hd := take s gs) in *.
  assert (length hd = s) as Hhd by (unfold hd; rewrite length_take; lia).
  assert (length tl = 8 - (s + l))%nat as Htl by (unfold tl; rewrite length_drop; lia).
  assert (Forall group_ok hd ∧ Forall group_ok tl) as [Hgh Hgt]
    by (split; [by apply Forall_take|by apply Forall_drop]).
  assert (stops ("::" +:+ join ":" (hex16 <$> tl))) as Hst by (right; by eexists).
  apply parse_ip_v6; [by apply read_ipv4_groups; [..|right]|].
  unfold read_ipv6. rewrite read_groups_text by (done || lia).
  destruct (Nat.eqb_spec (length hd) 8); [lia|]. cbn [append]. rewrite !read_given_colon.
  rewrite <-(string_app_nil_r (join ":" (hex16 <$> tl))).
  rewrite read_groups_text by (done || lia || by left). cbv iota beta.
  replace (8 - length hd - length tl)%nat with l by lia. by rewrite <-Hsplit.
Qed.

Lemma group_low a b : 0 ≤ b ≤ 255 → (a * 256 + b) `mod` 256 = b.
Proof. intros. by rewrite Z.add_comm, Z.mod_add, Z.mod_small by lia. Qed.

Lemma parse_mapped o :
  ip_wf (V4 o) = true →
  parse_ip ("::ffff:" +:+ v4_text o) = Some (V6 (replicate 10 0 ++ [255; 255] ++ o)).
Proof.
  intros Hw. apply parse_ip_v6; [done|].
  pose proof (read_ipv4_text o EmptyString Hw I) as Ho. rewrite string_app_nil_r in Ho.
  unfold ip_wf in Hw. destruct o as [|a [|b [|c [|d [|]]]]]; try done.
  apply andb_true_iff in Hw as [_ Hw]. cbn in Hw. unfold octet_ok in Hw.
  unfold read_ipv6. change (read_groups 8 0 8 ("::ffff:" +:+ v4_text [a; b; c; d]))
    with (@nil Z, false, "::ffff:" +:+ v4_text [a; b; c; d]).
  cbn [length Nat.eqb append]. rewrite !read_given_colon. set (T := String ":" (v4_text [a; b; c; d])).
  change (String "f" (String "f" (String "f" (String "f" T)))) with (hex16 65535 +:+ T).
  pose proof (read_groups_step 6 0 7 65535 T) as Hstep. cbn [Nat.ltb Nat.leb append] in Hstep.
  cbn [Nat.add Nat.sub]. rewrite Hstep by done. cbn [read_groups Nat.ltb Nat.leb Nat.sub].
  unfold T at 1. unfold read_separator at 1. cbn [Nat.ltb Nat.leb]. rewrite read_given_colon, Ho. cbv iota beta.
  f_equal. f_equal. to_prop. unfold groups_to_octets. cbn.
  rewrite !Z.div_add_l, !(Z.div_small b), !(Z.div_small d), !Z.add_0_r by lia.
  by rewrite !group_low by lia.
Qed.

Lemma parse_ip_text ip : ip_wf ip = true → parse_ip (ip_text ip) = Some ip.
Proof.
  destruct ip as [o|o]; intros Hw.
  - unfold parse_ip. pose proof (read_ipv4_text o EmptyString Hw I) as Ho.
    rewrite string_app_nil_r in Ho. cbn [ip_text]. by rewrite Ho.
  - pose proof Hw as [Hl Ho]%andb_true_iff. apply Nat.eqb_eq in Hl.
    destruct (octets_groups o Ho) as (Hg & Hlg & Hr); [by rewrite Hl|]. cbn [ip_text]. unfold v6_text.
    destruct (_ && _ && _) eqn:Em.
    + to_prop. destruct o as [|o0 [|o1 [|o2 [|o3 [|o4 [|o5 [|o6 [|o7 [|o8 [|o9 [|x [|y o]]]]]]]]]]]]; try done.
      unfold oct in *. cbn [forallb take nth] in * |-. to_prop. subst. apply (parse_mapped o).
      cbn in Hl. unfold ip_wf. apply andb_true_iff. split; [apply Nat.eqb_eq; lia|]. naive_solver.
    + pose proof (zero_runs_spec (octets_to_groups o) (octets_to_groups o) 0 0 0 0 0) as Hz.
      destruct (zero_runs _ _ _ _ _ _) as [s l].
      assert (zeros (octets_to_groups o) s l) as Hs by (apply Hz; (done || split; cbn; intros; lia)).
      destruct (Nat.ltb_spec 1 l).
      * rewrite parse_compressed by (done || lia). by rewrite Hr.
      * rewrite parse_full_groups by (done || lia). by rewrite Hr.
Qed.
