(* ===== verification/NetAddr.v ===== *)
(** * NetAddr: address classification of the network broker

    Model of the address part of [src/src/sandbox/linux/net_relay.rs]: CIDR
    blocks, DNS-over-HTTPS/TLS endpoints, cloud metadata services, NAT64
    embeddings and the forbidden destinations. *)

From S2P Require Import Prelude Ip.

(** ** CIDR blocks *)

Record IpCidr : Type := mk_cidr { cidr_network : IpAddr; prefix_len : Z }.

(** Big-endian value of octets ([u32::from_be_bytes], [u128::from_be_bytes]). *)
Definition be_value (o : list Z) : Z := fold_left (λ acc b, acc * 256 + b) o 0.

(** [!((1 << (w - p)) - 1)] at width [w]. *)
Definition cidr_mask (w p : Z) : Z :=
  if p =? w then 2 ^ w - 1 else wrap w (Z.lnot (Z.shiftl 1 (w - p) - 1)).

Definition cidr_contains (c : IpCidr) (target : IpAddr) : bool :=
  match cidr_network c, target with
  | V4 net, V4 tgt =>
      if prefix_len c =? 0 then true
      else Z.land (be_value net) (cidr_mask 32 (prefix_len c))
           =? Z.land (be_value tgt) (cidr_mask 32 (prefix_len c))
  | V6 net, V6 tgt =>
      if prefix_len c =? 0 then true
      else Z.land (be_value net) (cidr_mask 128 (prefix_len c))
           =? Z.land (be_value tgt) (cidr_mask 128 (prefix_len c))
  | _, _ => false
  end.

Inductive cidr_error : Type := InvalidPrefix | InvalidIp | PrefixTooLong (pfx : Z).

Definition strip_brackets (s : string) : string :=
  trim_end_char "]" (trim_start_char "[" s).

Definition cidr_parse (s : string) : result cidr_error IpCidr :=
  let s := trim s in
  '(ip_str, prefix_opt) ←
    match split_once "/" s with
    | Some (ip_part, prefix_part) =>
        match parse_u8 (trim prefix_part) with
        | Some prefix => Ok (trim ip_part, Some prefix)
        | None => Err InvalidPrefix
        end
    | None => Ok (s, None)
    end;
  ip ← ok_or (parse_ip (strip_brackets ip_str)) InvalidIp;
  prefix_len ←
    match ip, prefix_opt with
    | V4 _, Some pfx => if 32 <? pfx then Err (PrefixTooLong pfx) else Ok pfx
    | V6 _, Some pfx => if 128 <? pfx then Err (PrefixTooLong pfx) else Ok pfx
    | V4 _, None => Ok 32
    | V6 _, None => Ok 128
    end;
  Ok (mk_cidr ip prefix_len).

(** ** Well-known services *)

Definition DOH_DOT_DENY_IPS : list string :=
  ["1.1.1.1"; "1.0.0.1"; "8.8.8.8"; "8.8.4.4"; "9.9.9.9"; "149.112.112.112";
   "208.67.222.222"; "208.67.220.220"; "94.140.14.14"; "94.140.15.15"; "76.76.2.0";
   "76.76.10.0"; "2606:4700:4700::1111"; "2606:4700:4700::1001"; "2001:4860:4860::8888";
   "2001:4860:4860::8844"; "2620:fe::fe"; "2620:fe::9"; "2620:119:35::35";
   "2620:119:53::53"; "2a10:50c0::ad1:ff"; "2a10:50c0::ad2:ff"].

Definition DOH_DOT_DENY_DOMAINS : list string :=
  ["cloudflare-dns.com"; "one.one.one.one"; "mozilla.cloudflare-dns.com";
   "dns.cloudflare.com"; "dns.google"; "dns.google.com"; "dns.quad9.net";
   "doh.opendns.com"; "dns.adguard-dns.com"; "unfiltered.adguard-dns.com";
   "freedns.controld.com"; "dns.nextdns.io"].

Definition DOT_PORT : Z := 853.

Definition DOH_ENDPOINTS : list string :=
  ["cloudflare-dns.com"; "dns.google"; "dns.quad9.net"; "1.1.1.1"; "1.0.0.1";
   "8.8.8.8"; "8.8.4.4"; "9.9.9.9"].

(** [host.trim().trim_end_matches('.').to_ascii_lowercase()]. *)
Definition clean_host (host : string) : string :=
  to_ascii_lowercase (trim_end_char "." (trim host)).

Definition is_dot_suffix (host d : string) : bool := ends_with host ("." +:+ d).

Definition is_doh_or_dot (host : string) (port : Z) (ip : option IpAddr) : bool :=
  if port =? DOT_PORT then true
  else
    let host := clean_host host in
    if existsb (λ d, String.eqb host d || is_dot_suffix host d) DOH_DOT_DENY_DOMAINS then true
    else
      let denied_ip a := existsb (λ denied, String.eqb denied (ip_text a)) DOH_DOT_DENY_IPS in
      match parse_ip (strip_brackets host) with
      | Some a => if denied_ip a then true
                  else match ip with Some b => denied_ip b | None => false end
      | None => match ip with Some b => denied_ip b | None => false end
      end.

Definition is_doh_endpoint (host : string) : bool :=
  let host_lower := clean_host host in
  existsb (λ d, String.eqb d host_lower || is_dot_suffix host_lower d) DOH_ENDPOINTS.

(** ** IPv6 forms that carry an IPv4 address *)

Definition is_v4_mapped (o : list Z) : bool :=
  forallb (Z.eqb 0) (take 10 o) && (oct o 10 =? 255) && (oct o 11 =? 255).
Definition is_v4_compat (o : list Z) : bool := forallb (Z.eqb 0) (take 12 o).
Definition embedded_v4 (o : list Z) : list Z := [oct o 12; oct o 13; oct o 14; oct o 15].

Definition NAT64_WELL_KNOWN_PREFIX : list Z := [0; 0x64; 0xff; 0x9b; 0; 0; 0; 0; 0; 0; 0; 0].
Definition NAT64_NETWORK_PREFIX : list Z := [0; 0x64; 0xff; 0x9b; 0; 1].

Definition octets_start_with (o pre : list Z) : bool := bool_decide (take (length pre) o = pre).

Definition nat64_embedded_ipv4 (o : list Z) : option (list Z) :=
  if octets_start_with o NAT64_WELL_KNOWN_PREFIX then Some (embedded_v4 o)
  else if octets_start_with o NAT64_NETWORK_PREFIX
  then Some [oct o 6; oct o 7; oct o 9; oct o 10]
  else None.

Definition is_metadata_v4 (o : list Z) : bool :=
  ((oct o 0 =? 169) && (oct o 1 =? 254) && (oct o 2 =? 169) && (oct o 3 =? 254))
  || ((oct o 0 =? 100) && (oct o 1 =? 100) && (oct o 2 =? 100) && (oct o 3 =? 200)).

Definition is_cloud_metadata (ip : IpAddr) : bool :=
  match ip with
  | V4 o => is_metadata_v4 o
  | V6 o =>
      if is_v4_mapped o || is_v4_compat o then is_metadata_v4 (embedded_v4 o)
      else match nat64_embedded_ipv4 o with
           | Some v4 => is_metadata_v4 v4
           | None => false
           end
  end.

(** ** Forbidden destinations *)

Definition between (lo hi x : Z) : bool := (lo <=? x) && (x <=? hi).

Definition forbidden_ipv4 (o : list Z) : bool :=
  let a := oct o 0 in
  let b := oct o 1 in
  let c := oct o 2 in
  let d := oct o 3 in
  let private := (a =? 10) || ((a =? 172) && between 16 31 b) || ((a =? 192) && (b =? 168)) in
  let link_local := (a =? 169) && (b =? 254) in
  let loopback := a =? 127 in
  let shared := (a =? 100) && between 64 127 b in
  let benchmarking := (a =? 198) && between 18 19 b in
  let protocol_assignment := (a =? 192) && (b =? 0) && (c =? 0) in
  let documentation := ((a =? 192) && (b =? 0) && (c =? 2))
    || ((a =? 198) && (b =? 51) && (c =? 100))
    || ((a =? 203) && (b =? 0) && (c =? 113)) in
  let deprecated_6to4_anycast := (a =? 192) && (b =? 88) && (c =? 99) in
  let multicast_or_reserved := 224 <=? a in
  let unspecified := a =? 0 in
  let broadcast := (a =? 255) && (b =? 255) && (c =? 255) && (d =? 255) in
  let cloud_metadata := is_cloud_metadata (V4 o) in
  private || link_local || loopback || shared || benchmarking || protocol_assignment
  || documentation || deprecated_6to4_anycast || multicast_or_reserved || unspecified
  || broadcast || cloud_metadata.

Definition forbidden_destination (ip : IpAddr) : bool :=
  match ip with
  | V4 o => forbidden_ipv4 o
  | V6 o =>
      let is_metadata := is_cloud_metadata (V6 o) in
      let is_unspecified := forallb (Z.eqb 0) o in
      let is_loopback := forallb (Z.eqb 0) (take 15 o) && (oct o 15 =? 1) in
      let is_link_local := (oct o 0 =? 0xfe) && (Z.land (oct o 1) 0xc0 =? 0x80) in
      let is_unique_local := Z.land (oct o 0) 0xfe =? 0xfc in
      let is_site_local := (oct o 0 =? 0xfe) && (Z.land (oct o 1) 0xc0 =? 0xc0) in
      let is_multicast := oct o 0 =? 0xff in
      let is_documentation :=
        ((oct o 0 =? 0x20) && (oct o 1 =? 0x01) && (oct o 2 =? 0x0d) && (oct o 3 =? 0xb8))
        || ((oct o 0 =? 0x3f) && (oct o 1 =? 0xff) && (Z.land (oct o 2) 0xf0 =? 0)) in
      let is_reserved_special_use :=
        ((oct o 0 =? 0x20) && (oct o 1 =? 0x01) && (oct o 2 =? 0)
         && ((oct o 3 =? 0) || (oct o 3 =? 2)))
        || ((oct o 0 =? 0x20) && (oct o 1 =? 0x02)) in
      let is_v4_compatible := is_v4_compat o && negb is_unspecified && negb is_loopback in
      let mapped_forbidden :=
        (is_v4_mapped o || is_v4_compatible) && forbidden_ipv4 (embedded_v4 o) in
      let nat64_forbidden :=
        match nat64_embedded_ipv4 o with Some v4 => forbidden_ipv4 v4 | None => false end in
      is_metadata || is_unspecified || is_loopback || is_link_local || is_unique_local
      || is_site_local || is_multicast || is_documentation || is_reserved_special_use
      || mapped_forbidden || nat64_forbidden
  end.

Definition is_loopback_host (host : string) : bool :=
  let h := clean_host host in
  if String.eqb h "localhost" then true
  else match parse_ip (strip_brackets h) with
       | Some (V4 o) => v4_is_loopback o
       | Some (V6 o) =>
           if v6_is_loopback o then true
           else if is_v4_mapped o || is_v4_compat o then v4_is_loopback (embedded_v4 o)
           else false
       | None => false
       end.

(** ** Lemmas: masks *)

Lemma testbit_mask w p i :
  0 < p ≤ w → 0 ≤ i → Z.testbit (cidr_mask w p) i = (w - p <=? i) && (i <? w).
Proof.
  intros Hp Hi. unfold cidr_mask. destruct (Z.eqb_spec p w) as [->|Hne].
  - replace (2 ^ w - 1) with (Z.ones w) by (rewrite Z.ones_equiv; lia).
    rewrite Z.testbit_ones_nonneg by lia. rewrite Z.sub_diag.
    destruct (Z.leb_spec 0 i); [done|lia].
  - unfold wrap. rewrite Z.testbit_mod_pow2 by lia.
    rewrite Z.lnot_spec, Z.shiftl_1_l by lia.
    replace (2 ^ (w - p) - 1) with (Z.ones (w - p)) by (rewrite Z.ones_equiv; lia).
    rewrite Z.testbit_ones_nonneg by lia.
    destruct (Z.ltb_spec i w), (Z.ltb_spec i (w - p)), (Z.leb_spec (w - p) i);
      simpl; try lia; done.
Qed.

(** Equal under the mask is equal in the top [p] of [w] bits. *)
Lemma masked_eq w p x y :
  0 < p ≤ w → 0 ≤ x < 2 ^ w → 0 ≤ y < 2 ^ w →
  (Z.land x (cidr_mask w p) =? Z.land y (cidr_mask w p)) = true
  ↔ x / 2 ^ (w - p) = y / 2 ^ (w - p).
Proof.
  intros Hp Hx Hy. rewrite Z.eqb_eq. split; intros H.
  - rewrite <-!Z.shiftr_div_pow2 by lia. apply Z.bits_inj'. intros i Hi.
    rewrite !Z.shiftr_spec by done.
    destruct (Z.ltb_spec (i + (w - p)) w) as [Hlt|Hge].
    + apply (f_equal (λ z, Z.testbit z (i + (w - p)))) in H.
      rewrite !Z.land_spec, testbit_mask in H by lia.
      destruct (Z.leb_spec (w - p) (i + (w - p))), (Z.ltb_spec (i + (w - p)) w); try lia.
      by rewrite !andb_true_r in H.
    + assert (∀ z, 0 ≤ z < 2 ^ w → Z.testbit z (i + (w - p)) = false) as Hhigh.
      { intros z Hz. destruct (decide (z = 0)) as [->|]; [apply Z.testbit_0_l|].
        apply Z.bits_above_log2; [lia|]. apply Z.log2_lt_pow2; [lia|].
        eapply Z.lt_le_trans; [apply Hz|]. apply Z.pow_le_mono_r; lia. }
      by rewrite !Hhigh.
  - rewrite <-!Z.shiftr_div_pow2 in H by lia. apply Z.bits_inj'. intros i Hi.
    rewrite !Z.land_spec, testbit_mask by lia.
    destruct (Z.leb_spec (w - p) i); simpl; [|by rewrite !andb_false_r].
    f_equal. apply (f_equal (λ z, Z.testbit z (i - (w - p)))) in H.
    rewrite !Z.shiftr_spec in H by lia. by replace (i - (w - p) + (w - p)) with i in H by lia.
Qed.

Lemma be_value_range o :
  forallb octet_ok o = true → 0 ≤ be_value o < 256 ^ Z.of_nat (length o).
Proof.
  unfold be_value. intros Ho.
  assert (∀ l a n, forallb octet_ok l = true → 0 ≤ a < 256 ^ n → 0 ≤ n →
    0 ≤ fold_left (λ acc b, acc * 256 + b) l a < 256 ^ (n + Z.of_nat (length l))) as H.
  { induction l as [|b l IH]; intros a n Hl Ha Hn; cbn [fold_left length].
    - by rewrite Z.add_0_r.
    - simpl in Hl. apply andb_true_iff in Hl as [Hb Hl]. unfold octet_ok in Hb. to_prop.
      replace (n + Z.of_nat (S (length l))) with (Z.succ n + Z.of_nat (length l)) by lia.
      apply IH; [done| |lia]. rewrite Z.pow_succ_r by lia. lia. }
  specialize (H o 0 0 Ho). rewrite Z.add_0_l in H. apply H; lia.
Qed.

(** ** Properties *)

(** The network and host parts of a 32- or 128-bit address. *)
Definition same_prefix (w p : Z) (x y : list Z) : Prop :=
  be_value x / 2 ^ (w - p) = be_value y / 2 ^ (w - p).

(** A CIDR block contains exactly the addresses of its own family that
    agree with the network on the leading [prefix_len] bits, for every prefix
    length including 0 and the full width (where the shift would otherwise
    overflow). *)
Theorem cidr_contains_spec c ip :
  ip_wf (cidr_network c) = true → ip_wf ip = true →
  0 ≤ prefix_len c ≤ (match cidr_network c with V4 _ => 32 | V6 _ => 128 end) →
  cidr_contains c ip = true ↔
  match cidr_network c, ip with
  | V4 n, V4 t => same_prefix 32 (prefix_len c) n t
  | V6 n, V6 t => same_prefix 128 (prefix_len c) n t
  | _, _ => False
  end.
Proof.
  destruct c as [[n|n] p], ip as [t|t]; simpl; intros Hn Ht Hp; try by split.
  all: apply andb_true_iff in Hn as [Hnl Hna], Ht as [Htl Hta].
  all: apply Nat.eqb_eq in Hnl, Htl.
  all: pose proof (be_value_range n Hna) as Hrn; pose proof (be_value_range t Hta) as Hrt.
  all: rewrite Hnl in Hrn; rewrite Htl in Hrt; unfold same_prefix.
  all: cbn [cidr_contains cidr_network prefix_len].
  - change (256 ^ Z.of_nat 4) with (2 ^ 32) in *.
    destruct (Z.eqb_spec p 0) as [->|].
    + split; [|done]. intros _. change (32 - 0) with 32. by rewrite !Z.div_small.
    + apply masked_eq; lia.
  - change (256 ^ Z.of_nat 16) with (2 ^ 128) in *.
    destruct (Z.eqb_spec p 0) as [->|].
    + split; [|done]. intros _. change (128 - 0) with 128. by rewrite !Z.div_small.
    + apply masked_eq; lia.
Qed.

Lemma cidr_contains_spec_witness :
  cidr_contains (mk_cidr (V4 [10; 1; 128; 0]) 17) (V4 [10; 1; 200; 9]) = true
  ↔ same_prefix 32 17 [10; 1; 128; 0] [10; 1; 200; 9].
Proof.
  apply (cidr_contains_spec (mk_cidr (V4 [10; 1; 128; 0]) 17) (V4 [10; 1; 200; 9]));
    [reflexivity|reflexivity|simpl; lia].
Defined.

(** The IPv6 spellings of an IPv4 address that the classifier looks through. *)
Definition v6_forms (v : list Z) : list (list Z) :=
  [replicate 10 0 ++ [255; 255] ++ v;                       (* ::ffff:a.b.c.d *)
   NAT64_WELL_KNOWN_PREFIX ++ v;                            (* 64:ff9b::a.b.c.d *)
   NAT64_NETWORK_PREFIX ++ take 2 v ++ [0] ++ drop 2 v ++ replicate 5 0].

Lemma wf4_inv v : ip_wf (V4 v) = true → ∃ a b c d, v = [a; b; c; d].
Proof.
  intros [Hl%Nat.eqb_eq _]%andb_true_iff. destruct v as [|a [|b [|c [|d []]]]]; try discriminate.
  eauto.
Qed.

(** An IPv4 destination is classified the same way in every IPv6 spelling
    the broker can meet: a forbidden address stays forbidden, and a metadata
    address stays metadata, as an IPv4-mapped address and behind both NAT64
    prefixes. *)
Theorem forbidden_v6_forms v o :
  ip_wf (V4 v) = true → o ∈ v6_forms v →
  (forbidden_destination (V4 v) = true → forbidden_destination (V6 o) = true)
  ∧ (is_cloud_metadata (V6 o) = is_cloud_metadata (V4 v)).
Proof.
  intros Hv. destruct (wf4_inv v Hv) as (a & b & c & d & ->).
  unfold v6_forms. rewrite !elem_of_cons, elem_of_nil.
  intros [-> | [-> | [-> | []]]]; (split; [|reflexivity]);
    intros Hf; unfold forbidden_destination in *; 
    rewrite !orb_true_iff; [left; right|right|right].
  - change (is_v4_mapped _) with true. simpl orb. exact Hf.
  - exact Hf.
  - exact Hf.
Qed.

Lemma forbidden_v6_forms_witness :
  forbidden_destination (V6 (replicate 10 0 ++ [255; 255] ++ [10; 0; 0; 1])) = true.
Proof.
  apply (forbidden_v6_forms [10; 0; 0; 1]); [reflexivity| |reflexivity].
  left.
Defined.

(** Every cloud-metadata address is also a forbidden destination. *)
Lemma metadata_is_forbidden ip :
  ip_wf ip = true → is_cloud_metadata ip = true → forbidden_destination ip = true.
Proof.
  intros Hwf Hm. destruct ip as [o|o]; simpl in *.
  - unfold forbidden_ipv4. simpl is_cloud_metadata. rewrite Hm. by rewrite orb_true_r.
  - unfold forbidden_destination. simpl is_cloud_metadata. by rewrite Hm.
Qed.

