(* ===== verification/Broker.v ===== *)
(** * Broker: the host-side network broker

    Model of the decision part of [src/src/sandbox/linux/net_relay.rs] and of
    the loopback debug guard ([src/src/sandbox/linux/debug_guard.rs]): domain
    and port rules, quotas, interactive confirmation, the request decision and
    the resolve-and-connect step.  The process-wide tables ([DOMAIN_TRANSFER_STATS],
    [ASK_CACHE]) and the event bus are the state; the resolver, the connection
    attempts and the terminal are arguments. *)

From S2P Require Import Prelude Paths PolicyTypes Contract Ip NetAddr.

(** ** Debug port guard *)

Definition CHROME_DEVTOOLS_PORTS : list Z := [9222; 9223].
Definition NODE_INSPECT_PORTS : list Z := [9229; 9230].
Definition PYTHON_DEBUGPY_PORTS : list Z := [5678].

Definition mem_Z (x : Z) (l : list Z) : bool := existsb (Z.eqb x) l.

Inductive DebugPortVerdict : Type :=
| PortAllowed
| PortBlocked (port : Z) (service : string).

Record DebugPortGuard : Type := mk_guard {
  guard_config : DebugPortConfig;
  session_token : string;
  whitelisted : list Z;
}.

Definition guard_with_token (config : DebugPortConfig) (token : string) : DebugPortGuard :=
  mk_guard config token (debug_allowed_ports config).

Definition is_debug_port (g : DebugPortGuard) (port : Z) : bool :=
  if isolate_devtools (guard_config g) && mem_Z port CHROME_DEVTOOLS_PORTS then true
  else if isolate_node_inspect (guard_config g) && mem_Z port NODE_INSPECT_PORTS then true
  else if isolate_debugpy (guard_config g) && mem_Z port PYTHON_DEBUGPY_PORTS then true
  else false.

Definition identify_service (port : Z) : option string :=
  if mem_Z port CHROME_DEVTOOLS_PORTS then Some "Chrome DevTools"
  else if mem_Z port NODE_INSPECT_PORTS then Some "Node.js Inspector"
  else if mem_Z port PYTHON_DEBUGPY_PORTS then Some "Python debugpy"
  else None.

Definition check_access (g : DebugPortGuard) (port : Z) (token_candidate : option string) :
  DebugPortVerdict :=
  if mem_Z port (whitelisted g) then PortAllowed
  else if match token_candidate with
          | Some token => String.eqb (trim token) (session_token g)
          | None => false
          end then PortAllowed
  else if isolate_devtools (guard_config g) && mem_Z port CHROME_DEVTOOLS_PORTS
  then PortBlocked port "Chrome DevTools"
  else if isolate_node_inspect (guard_config g) && mem_Z port NODE_INSPECT_PORTS
  then PortBlocked port "Node.js Inspector"
  else if isolate_debugpy (guard_config g) && mem_Z port PYTHON_DEBUGPY_PORTS
  then PortBlocked port "Python debugpy"
  else PortAllowed.

Definition port_allowed (v : DebugPortVerdict) : bool :=
  match v with PortAllowed => true | PortBlocked _ _ => false end.

(** ** Configuration and state *)

Inductive BrokerPolicy : Type :=
| BpAllowlist (domains : list string)
| BpStrict (rules : list NetRule)
| BpAsk (allowlist : list string).

Record BrokerConfig : Type := mk_broker {
  bc_policy : BrokerPolicy;
  debug_guard : option DebugPortGuard;
  bc_allow_cidr : list string;
  quotas : gmap string Z;
  block_doh : bool;
  http_proxy : option string;
  https_proxy : option string;
  no_proxy : option string;
}.

Record DomainStats : Type := mk_stats { requests : Z; bytes_tx : Z; bytes_rx : Z }.
Definition default_stats : DomainStats := mk_stats 0 0 0.

Inductive BusEvent : Type :=
| Notice (message : string)
| NetRequest (host : string) (port : Z) (allowed : bool)
| DnsResolved (host : string) (ips : list string)
| NetQuotaExceeded (host : string) (limit_bytes used_bytes : Z)
| NetEgress (host ip : string) (port bytes_tx bytes_rx : Z).

Record BrokerState : Type := mk_state {
  transfer : gmap string DomainStats;
  ask_cache : gmap string bool;
  bus : list BusEvent;  (* oldest first *)
}.

Definition publish (e : BusEvent) (st : BrokerState) : BrokerState :=
  mk_state (transfer st) (ask_cache st) (bus st ++ [e]).

(** [add_domain_transfer]; the counters are u64 and wrap in release builds. *)
Definition add_domain_transfer (host : string) (tx rx : Z) (st : BrokerState) : BrokerState :=
  let k := to_ascii_lowercase (trim host) in
  let e := default default_stats (transfer st !! k) in
  mk_state (<[k := mk_stats (wrap 64 (requests e + 1)) (wrap 64 (bytes_tx e + tx))
                    (wrap 64 (bytes_rx e + rx))]> (transfer st))
    (ask_cache st) (bus st).

(** ** Domain rules *)

Definition domain_matches_pattern (host pattern : string) : bool :=
  let host := clean_host host in
  let pat := clean_host pattern in
  if String.eqb pat "*" then true
  else if String.eqb host pat then true
  else
    let by_name :=
      match strip_prefix "*." pat with
      | Some suffix => is_dot_suffix host suffix || String.eqb host suffix
      | None => is_dot_suffix host pat
      end in
    match parse_ip (strip_brackets host) with
    | Some ip => match cidr_parse pat with
                 | Ok cidr => cidr_contains cidr ip
                 | Err _ => by_name
                 end
    | None => by_name
    end.

Definition get_quota_bytes (st : BrokerState) (pattern : string) : Z :=
  fold_left (λ total '(recorded_host, s),
    if domain_matches_pattern recorded_host pattern
    then saturating_add_u64 total (saturating_add_u64 (bytes_tx s) (bytes_rx s))
    else total) (map_to_list (transfer st)) 0.

(** [sort_by_key(Reverse(len))]: stable, longest pattern first. *)
Fixpoint insert_quota (q : string * Z) (l : list (string * Z)) : list (string * Z) :=
  match l with
  | [] => [q]
  | r :: l' => if (String.length r.1 <? String.length q.1)%nat then q :: l
               else r :: insert_quota q l'
  end.
Definition find_matching_quotas (host : string) (quotas : gmap string Z) : list (string * Z) :=
  fold_left (λ acc q, insert_quota q acc)
    (List.filter (λ q, domain_matches_pattern host q.1) (map_to_list quotas)) [].

Definition domain_allowed (host : string) (allowlist : list string) : bool :=
  let host := to_ascii_lowercase (strip_domain_port host) in
  existsb (λ pat,
    let pat := to_ascii_lowercase (strip_domain_port pat) in
    if String.eqb pat "*" then true
    else match strip_prefix "*." pat with
         | Some suffix => is_dot_suffix host suffix
         | None => String.eqb host pat || is_dot_suffix host pat
         end) allowlist.

Definition strict_allowed (host : string) (port : Z) (rules : list NetRule) : bool :=
  let host := clean_host host in
  existsb (λ rule,
    if negb (rule_port rule =? port) then false
    else
      let pat := clean_host (rule_domain rule) in
      if String.eqb pat "*" || is_empty pat then false
      else match strip_prefix "*." pat with
           | Some suffix => is_dot_suffix host suffix
           | None => String.eqb host pat || is_dot_suffix host pat
           end) rules.

(** ** Interactive confirmation *)

(** What the terminal offers: whether it is one, and the line read ([None]: a
    read error or the 30 s timeout). *)
Record Terminal : Type := mk_terminal { is_tty : bool; answer_line : option string }.

(** The decision and, for a permanent answer, the key handed to
    [policy::edit::persist_net_target]. *)
Definition prompt_confirmation_interactive (host : string) (t : Terminal) :
  bool * option string :=
  let key := clean_host host in
  if negb (is_tty t) then (false, None)
  else match answer_line t with
  | None => (false, None)
  | Some line =>
      let trimmed := to_ascii_lowercase (trim line) in
      if String.eqb trimmed "y" || String.eqb trimmed "yes" then (true, None)
      else if String.eqb trimmed "p" || String.eqb trimmed "perm"
              || String.eqb trimmed "permanent" then (true, Some key)
      else (false, None)
  end.

Definition ask_confirmation (t : Terminal) (host : string) (st : BrokerState) :
  BrokerState * bool :=
  let key := clean_host host in
  match ask_cache st !! key with
  | Some allowed => (st, allowed)
  | None =>
      let allowed := (prompt_confirmation_interactive host t).1 in
      (mk_state (transfer st) (<[key := allowed]> (ask_cache st)) (bus st), allowed)
  end.

(** ** The request decision *)

Definition parsed_cidrs (config : BrokerConfig) : list IpCidr :=
  omap (λ c, match cidr_parse c with Ok c => Some c | Err _ => None end) (bc_allow_cidr config).

Definition any_contains (cidrs : list IpCidr) (ip : IpAddr) : bool :=
  existsb (λ c, cidr_contains c ip) cidrs.

Definition target_text (host : string) (port : Z) : string := host +:+ ":" +:+ to_dec port.

(** The policy's own answer, asked only when nothing allowed the host yet. *)
Definition policy_allows (t : Terminal) (config : BrokerConfig) (host : string) (port : Z)
    (st : BrokerState) : BrokerState * bool :=
  match bc_policy config with
  | BpAllowlist domains => (st, domain_allowed host domains)
  | BpStrict rules => (st, strict_allowed host port rules)
  | BpAsk allowlist =>
      if domain_allowed host allowlist then (st, true) else ask_confirmation t host st
  end.

(** The DoH/DoT block at the end of [request_allowed]. *)
Definition doh_gate (config : BrokerConfig) (host : string) (port : Z) (allowed : bool)
    (st : BrokerState) : BrokerState * bool :=
  if block_doh config then
    if port =? 853 then
      (publish (Notice ("blocked DoT attempt on port 853 to " +:+ target_text host port)) st,
       false)
    else if is_doh_endpoint host then
      (publish (Notice ("blocked DoH bypass attempt to " +:+ target_text host port)) st, false)
    else (st, allowed)
  else (st, allowed).

Definition request_allowed (t : Terminal) (host : string) (port : Z) (token : option string)
    (config : BrokerConfig) (st : BrokerState) : BrokerState * bool :=
  if is_loopback_host host
     && match debug_guard config with
        | Some guard => negb (port_allowed (check_access guard port token))
        | None => false
        end
  then (st, false)
  else if existsb (λ '(pat, limit), limit <=? get_quota_bytes st pat)
            (find_matching_quotas host (quotas config))
  then (st, false)
  else
    match parse_ip (strip_brackets host) with
    | Some ip =>
        if is_cloud_metadata ip then
          (publish (Notice ("blocked SSRF attempt to cloud metadata "
                            +:+ target_text host port)) st, false)
        else
          let by_cidr := any_contains (parsed_cidrs config) ip in
          let by_loopback := is_loopback_host host && ip_is_loopback ip in
          if forbidden_destination ip && negb by_cidr && negb by_loopback then
            (publish (Notice ("blocked SSRF attempt to forbidden destination "
                              +:+ target_text host port)) st, false)
          else
            let '(st, allowed) :=
              if by_cidr || by_loopback then (st, true)
              else policy_allows t config host port st in
            doh_gate config host port allowed st
    | None =>
        let '(st, allowed) :=
          if is_loopback_host host then (st, true)
          else policy_allows t config host port st in
        doh_gate config host port allowed st
    end.

(** ** Upstream proxies *)

Definition get_upstream_proxy (host : string) (port : Z) (config : BrokerConfig) :
  option string :=
  let excluded :=
    match no_proxy config with
    | None => false
    | Some no_proxy =>
        let h := clean_host host in
        existsb (λ item,
          let item := to_ascii_lowercase
            (trim_end_char "." (trim_start_char "." (trim item))) in
          negb (is_empty item)
          && (String.eqb item "*" || String.eqb h item || is_dot_suffix h item))
          (split_char "," no_proxy)
    end in
  if excluded then None
  else if port =? 443 then https_proxy config else http_proxy config.

(** The credentials, host and port of a proxy URL. *)
Definition proxy_parts (proxy_url : string) : option string * string * Z :=
  let trimmed := trim proxy_url in
  let trimmed := default trimmed (strip_prefix "http://" trimmed) in
  let trimmed := default trimmed (strip_prefix "https://" trimmed) in
  let '(auth, host_port) :=
    match split_once "@" trimmed with Some (u, hp) => (Some u, hp) | None => (None, trimmed) end in
  let '(p_host, p_port_str) := default (host_port, "8080") (split_once ":" host_port) in
  (auth, p_host, default 8080 (parse_u16 (trim_start_char "/" (trim_end_char "/" p_port_str)))).
Definition proxy_host_port (proxy_url : string) : string * Z :=
  let '(_, p_host, p_port) := proxy_parts proxy_url in (p_host, p_port).

Definition B64_CHARS : string := "ABCDEFGHIJKLMNOPQRSTUVWXYZabcdefghijklmnopqrstuvwxyz0123456789+/".
Definition b64_char (n : Z) : ascii := default "="%char (String.get (Z.to_nat n) B64_CHARS).
Fixpoint encode_base64 (input : string) : string :=
  let byte c := Z.of_nat (Ascii.nat_of_ascii c) in
  let enc b0 b1 b2 :=
    (b64_char (Z.shiftr b0 2), b64_char (Z.lor (Z.shiftl (Z.land b0 3) 4) (Z.shiftr b1 4)),
     b64_char (Z.lor (Z.shiftl (Z.land b1 15) 2) (Z.shiftr b2 6)), b64_char (Z.land b2 63)) in
  match input with
  | EmptyString => EmptyString
  | String a EmptyString =>
      let '(e0, e1, _, _) := enc (byte a) 0 0 in String e0 (String e1 "==")
  | String a (String b EmptyString) =>
      let '(e0, e1, e2, _) := enc (byte a) (byte b) 0 in String e0 (String e1 (String e2 "="))
  | String a (String b (String c rest)) =>
      let '(e0, e1, e2, e3) := enc (byte a) (byte b) (byte c) in
      String e0 (String e1 (String e2 (String e3 (encode_base64 rest))))
  end.

Example base64_samples :
  encode_base64 "user:pw" = "dXNlcjpwdw==" ∧ encode_base64 "user:p" = "dXNlcjpw" ∧ encode_base64 "ab" = "YWI=".
Proof. vm_compute. auto. Qed.

Definition proxy_crlf : string := String (chr 13) (String (chr 10) EmptyString).
Definition proxy_request (auth : option string) (host : string) (port : Z) : string :=
  let target := host +:+ ":" +:+ to_dec port in
  "CONNECT " +:+ target +:+ " HTTP/1.1" +:+ proxy_crlf +:+ "Host: " +:+ target +:+ proxy_crlf
  +:+ match auth with
      | Some userinfo => "Proxy-Authorization: Basic " +:+ encode_base64 userinfo +:+ proxy_crlf
      | None => EmptyString
      end
  +:+ "Proxy-Connection: Keep-Alive" +:+ proxy_crlf +:+ proxy_crlf.

(** The reply up to the read that brings the blank line; a failed read or an end of
    file before it ends [reads], and an empty read is the end of file. *)
Fixpoint read_reply (resp : string) (reads : list string) : option string :=
  match reads with
  | [] => None
  | r :: reads =>
      if is_empty r then None
      else
        let resp := resp +:+ r in
        if contains resp (proxy_crlf +:+ proxy_crlf) then Some resp else read_reply resp reads
  end.

(** The network between the broker and a proxy: [TcpStream::connect] resolves the
    proxy's host once more, after the check of its addresses, and the proxy answers a
    request with a sequence of reads. *)
Record ProxyWorld : Type := mk_proxy_world {
  resolve_again : string → Z → option (list IpAddr);
  proxy_says : IpAddr → Z → string → list string;
}.

Section Connect.
(** [to_socket_addrs]: the resolver's answer; an error is [None]. *)
Variable resolve : string → Z → option (list IpAddr).
(** Whether a TCP connection to the address succeeds. *)
Variable tcp_connects : IpAddr → Z → bool.
(** What the connection to a proxy meets. *)
Variable world : ProxyWorld.

Definition destination_ok (cidrs : list IpCidr) (host : string) (ip : IpAddr) : bool :=
  (is_loopback_host host && ip_is_loopback ip) || any_contains cidrs ip
  || negb (forbidden_destination ip).

Definition is_valid_proxy_target (proxy_url : string) (cidrs : list IpCidr) : bool :=
  let '(p_host, p_port) := proxy_host_port proxy_url in
  let p_host := strip_brackets p_host in
  if is_empty p_host then false
  else match parse_ip p_host with
  | Some ip => negb (is_cloud_metadata ip) && destination_ok cidrs p_host ip
  | None =>
      match resolve p_host p_port with
      | Some addrs =>
          negb (existsb (λ ip, is_cloud_metadata ip || negb (destination_ok cidrs p_host ip)) addrs)
      | None => true
      end
  end.

(** Where the tunnel ends: an address pinned by the broker, or the address and port
    of a proxy. *)
Inductive connection : Type :=
| Direct (ip : IpAddr) (port : Z)
| ViaProxy (proxy_url : string) (ip : IpAddr) (port : Z).

(** The address of the proxy that was dialled and agreed to the tunnel: the first
    answer that accepts a connection. *)
Definition connect_via_proxy (proxy_url host : string) (port : Z) : option (IpAddr * Z) :=
  let '(auth, p_host, p_port) := proxy_parts proxy_url in
  ip ← List.find (λ ip, tcp_connects ip p_port) (default [] (resolve_again world p_host p_port));
  resp ← read_reply EmptyString (proxy_says world ip p_port (proxy_request auth host port));
  if starts_with resp "HTTP/1.1 200" || starts_with resp "HTTP/1.0 200" then Some (ip, p_port) else None.

Definition has_ascii_ws (s : string) : bool :=
  existsb (λ b, contains_char s (chr b)) [9; 10; 12; 13; 32]%nat.

Definition resolve_and_connect (host : string) (port : Z) (config : BrokerConfig)
    (st : BrokerState) : BrokerState * option connection :=
  let host := trim_end_char "." (trim host) in
  if is_empty host || has_ascii_ws host then (st, None)
  else if is_doh_or_dot host port None then (st, None)
  else
    let cidrs := parsed_cidrs config in
    let blocked_literal :=
      match parse_ip (strip_brackets host) with
      | Some ip =>
          if is_cloud_metadata ip then Some "blocked SSRF attempt to cloud metadata "
          else if negb ((is_loopback_host host && ip_is_loopback ip) || any_contains cidrs ip)
                  && forbidden_destination ip
          then Some "blocked SSRF attempt to forbidden destination " else None
      | None => None
      end in
    match blocked_literal with
    | Some message => (publish (Notice (message +:+ target_text host port)) st, None)
    | None =>
        let resolved := default [] (resolve host port) in
        let any_forbidden := existsb (λ ip,
          if is_cloud_metadata ip then true
          else if is_doh_or_dot host port (Some ip) then true
          else if (is_loopback_host host && ip_is_loopback ip) || any_contains cidrs ip
          then false else forbidden_destination ip) resolved in
        if any_forbidden then
          (publish (Notice ("blocked SSRF attempt to forbidden destination "
                            +:+ target_text host port)) st, None)
        else
          let direct :=
            match resolved with
            | [] => (st, None)
            | _ =>
                (publish (DnsResolved host (ip_text <$> resolved)) st,
                 (λ ip, Direct ip port)
                   <$> List.find (λ ip, tcp_connects ip port) resolved)
            end in
          match get_upstream_proxy host port config with
          | Some proxy_url =>
              if is_valid_proxy_target proxy_url cidrs then
                match connect_via_proxy proxy_url host port with
                | Some (ip, p_port) => (st, Some (ViaProxy proxy_url ip p_port))
                | None => direct
                end
              else (publish (Notice ("blocked SSRF attempt via forbidden upstream proxy: "
                                     +:+ proxy_url)) st, None)
          | None => direct
          end
    end.

Inductive reply : Type := ReplyDenied | ReplyFailed | ReplyConnected (c : connection).

(** [handle_broker_connection] after the request frame was read: [D], [X], or
    [O] with the tunnel. *)
Definition handle_broker_connection (t : Terminal) (host : string) (port : Z)
    (token : option string) (config : BrokerConfig) (st : BrokerState) :
  BrokerState * reply :=
  let '(st, allowed) := request_allowed t host port token config st in
  if negb allowed then (publish (NetRequest host port false) st, ReplyDenied)
  else
    let '(st, conn) := resolve_and_connect host port config st in
    match conn with
    | Some c => (publish (NetRequest host port true) st, ReplyConnected c)
    | None => (publish (NetRequest host port false) st, ReplyFailed)
    end.
End Connect.

(** ** Lemmas *)

(** Name the pair bound by a [let '(_, _) := _ in _] in [H]. *)
Ltac break_let H :=
  match type of H with
  | context [match ?x with (_, _) => _ end] => destruct x as [?st ?allowed]
  end.

Lemma doh_gate_true config host port allowed st st' :
  doh_gate config host port allowed st = (st', true) →
  allowed = true ∧ st' = st
  ∧ (block_doh config = true → port ≠ 853 ∧ is_doh_endpoint host = false).
Proof.
  unfold doh_gate. destruct (block_doh config); [|by intros [= -> ->]].
  destruct (Z.eqb_spec port 853); [done|]. destruct (is_doh_endpoint host); [done|].
  by intros [= -> ->].
Qed.

Lemma elem_insert_quota q r l : q ∈ insert_quota r l ↔ q = r ∨ q ∈ l.
Proof.
  induction l as [|x l IH]; simpl; [by rewrite list_elem_of_singleton, elem_of_nil; intuition|].
  destruct (_ <? _)%nat; rewrite !elem_of_cons; [done|]. rewrite IH. intuition.
Qed.

Lemma elem_find_matching host quotas pat limit :
  (pat, limit) ∈ find_matching_quotas host quotas ↔
  quotas !! pat = Some limit ∧ domain_matches_pattern host pat = true.
Proof.
  unfold find_matching_quotas.
  assert (∀ l acc, (pat, limit) ∈ fold_left (λ acc q, insert_quota q acc) l acc ↔
    (pat, limit) ∈ l ∨ (pat, limit) ∈ acc) as H.
  { induction l as [|q l IH]; intros acc; cbn [fold_left].
    - rewrite elem_of_nil. intuition.
    - rewrite IH, elem_insert_quota, elem_of_cons. intuition. }
  rewrite H, elem_of_nil, list_elem_of_In, List.filter_In, <-list_elem_of_In, elem_of_map_to_list.
  simpl. intuition.
Qed.

(** The byte count of a pattern is at least that of any matching host, up to
    u64 saturation. *)
Lemma quota_bytes_lower st ptn h s :
  transfer st !! h = Some s → domain_matches_pattern h ptn = true →
  0 ≤ bytes_tx s → 0 ≤ bytes_rx s →
  (∀ k v, transfer st !! k = Some v → 0 ≤ bytes_tx v ∧ 0 ≤ bytes_rx v) →
  Z.min u64_max (bytes_tx s + bytes_rx s) ≤ get_quota_bytes st ptn.
Proof.
  intros Hl Hm Ht Hr Hpos. unfold get_quota_bytes.
  apply elem_of_map_to_list in Hl.
  assert (∀ k v, (k, v) ∈ map_to_list (transfer st) → 0 ≤ bytes_tx v ∧ 0 ≤ bytes_rx v) as Hp
    by (intros k v; rewrite elem_of_map_to_list; apply Hpos).
  revert Hl Hp. generalize (map_to_list (transfer st)). intros l.
  set (f := λ (total : Z) '((recorded_host, s0) : string * DomainStats),
    if domain_matches_pattern recorded_host ptn
    then saturating_add_u64 total (saturating_add_u64 (bytes_tx s0) (bytes_rx s0)) else total).
  assert (∀ l a, (∀ k v, (k, v) ∈ l → 0 ≤ bytes_tx v ∧ 0 ≤ bytes_rx v) → 0 ≤ a ≤ u64_max →
    a ≤ fold_left f l a ≤ u64_max) as Hmono.
  { induction l0 as [|[k v] l0 IH]; intros a Hp Ha; cbn [fold_left]; [lia|].
    assert (a ≤ f a (k, v) ≤ u64_max) as Hf.
    { unfold f. destruct (domain_matches_pattern k ptn); [|lia].
      destruct (Hp k v) as [? ?]; [left|]. unfold saturating_add_u64. lia. }
    specialize (IH (f a (k, v))). destruct IH; [intros; apply (Hp k0); by right|lia|lia]. }
  assert (∀ l a, (∀ k v, (k, v) ∈ l → 0 ≤ bytes_tx v ∧ 0 ≤ bytes_rx v) → 0 ≤ a ≤ u64_max →
    (h, s) ∈ l → Z.min u64_max (bytes_tx s + bytes_rx s) ≤ fold_left f l a) as Hmain.
  { induction l0 as [|[k v] l0 IH]; intros a Hp Ha Hin; [by apply elem_of_nil in Hin|].
    cbn [fold_left].
    assert (0 ≤ f a (k, v) ≤ u64_max) as Hf.
    { destruct (Hmono [(k, v)] a); [|done|simpl in *; lia].
      intros k' v' Hin'. apply (Hp k'). apply list_elem_of_singleton in Hin' as [= -> ->]. left. }
    apply elem_of_cons in Hin as [[= -> ->]|Hin].
    - etransitivity; [|apply Hmono; [intros k' v' ?; apply (Hp k'); by right|done]].
      unfold f. rewrite Hm. unfold saturating_add_u64. lia.
    - apply IH; [intros k' v' ?; apply (Hp k'); by right|done|done]. }
  intros Hl Hp. apply Hmain; [done|vm_compute; split; discriminate|done].
Qed.

Lemma destination_ok_true cidrs host ip :
  destination_ok cidrs host ip = true ↔
  (forbidden_destination ip = true →
   (is_loopback_host host = true ∧ ip_is_loopback ip = true) ∨ any_contains cidrs ip = true).
Proof.
  unfold destination_ok. rewrite !orb_true_iff, andb_true_iff, negb_true_iff.
  destruct (forbidden_destination ip); intuition discriminate.
Qed.

(** ** Properties *)

(** A request is let through only if every gate agrees: the loopback debug
    guard grants the port, no matching quota is used up, an address literal is
    not a cloud-metadata service and is forbidden only when a configured CIDR
    block or the loopback exception covers it, DNS-over-HTTPS/TLS targets are
    refused when blocking is on, and the host is covered by a CIDR block, the
    loopback exception or the policy. *)
Theorem request_allowed_sound t host port token config st st' :
  request_allowed t host port token config st = (st', true) →
  (is_loopback_host host = true → ∀ guard, debug_guard config = Some guard →
     check_access guard port token = PortAllowed)
  ∧ (∀ pat limit, quotas config !! pat = Some limit →
     domain_matches_pattern host pat = true → get_quota_bytes st pat < limit)
  ∧ (∀ ip, parse_ip (strip_brackets host) = Some ip →
     is_cloud_metadata ip = false
     ∧ destination_ok (parsed_cidrs config) host ip = true)
  ∧ (block_doh config = true → port ≠ 853 ∧ is_doh_endpoint host = false)
  ∧ (is_loopback_host host = true
     ∨ (∃ ip, parse_ip (strip_brackets host) = Some ip
              ∧ any_contains (parsed_cidrs config) ip = true)
     ∨ (policy_allows t config host port st).2 = true).
Proof.
  unfold request_allowed. intros H.
  destruct (is_loopback_host host && _) eqn:Hg; [done|].
  destruct (existsb _ (find_matching_quotas host (quotas config))) eqn:Hq; [done|].
  split_and!.
  - intros Hl guard Hd. rewrite Hl, Hd in Hg. simpl in Hg.
    by destruct (check_access guard port token).
  - intros pat limit Hp Hm. rewrite existsb_false, Forall_forall in Hq.
    specialize (Hq (pat, limit)). rewrite elem_find_matching in Hq.
    apply Z.leb_gt. by apply Hq.
  - intros ip Hip. rewrite Hip in H. destruct (is_cloud_metadata ip); [done|].
    split; [done|]. apply destination_ok_true. intros Hf. rewrite Hf in H. simpl in H.
    destruct (any_contains (parsed_cidrs config) ip); [by right|]. simpl in H.
    destruct (is_loopback_host host), (ip_is_loopback ip); try done. by left.
  - destruct (parse_ip _) as [ip|].
    + destruct (is_cloud_metadata ip); [done|]. destruct (_ && _ && _); [done|].
      break_let H. by apply doh_gate_true in H as (_ & _ & ?).
    + break_let H. by apply doh_gate_true in H as (_ & _ & ?).
  - destruct (parse_ip _) as [ip|].
    + destruct (is_cloud_metadata ip); [done|]. destruct (_ && _ && _); [done|].
      destruct (any_contains (parsed_cidrs config) ip) eqn:Hc; [right; left; eauto|].
      simpl in H. destruct (is_loopback_host host && ip_is_loopback ip) eqn:Hl.
      { to_prop. by left. }
      right; right. destruct (policy_allows t config host port st) as [st2 al].
      by apply doh_gate_true in H as (-> & _).
    + destruct (is_loopback_host host); [by left|]. right; right.
      destruct (policy_allows t config host port st) as [st2 al].
      by apply doh_gate_true in H as (-> & _).
Qed.

Definition no_terminal : Terminal := mk_terminal false None.
Definition demo_config : BrokerConfig :=
  mk_broker (BpStrict [mk_net_rule "api.example.com" 443])
    (Some (guard_with_token default_debug_ports "vdt_00")) [] {["example.com" := 1000]} true
    None None None.
Definition empty_state : BrokerState := mk_state ∅ ∅ [].

Lemma request_allowed_sound_witness : get_quota_bytes empty_state "example.com" < 1000.
Proof.
  refine (proj1 (proj2 (request_allowed_sound no_terminal "api.example.com" 443 None
    demo_config empty_state empty_state _)) "example.com" 1000 _ _); vm_compute; reflexivity.
Defined.

Lemma connect_via_proxy_inv tcp w url host port ip p :
  connect_via_proxy tcp w url host port = Some (ip, p) →
  (proxy_host_port url).2 = p
  ∧ ip ∈ default [] (resolve_again w (proxy_host_port url).1 p) ∧ tcp ip p = true.
Proof.
  unfold connect_via_proxy, proxy_host_port. destruct (proxy_parts url) as [[auth ph] pp].
  destruct (List.find _ _) as [a|] eqn:E; [|done]. cbn [mbind option_bind].
  destruct (read_reply _ _) as [resp|]; [|done]. cbn [mbind option_bind].
  destruct (_ || _); [|done]. intros [= -> ->]. apply List.find_some in E as [Hin Ht].
  by apply list_elem_of_In in Hin.
Qed.

(** What the check of a proxy URL says of an address it looked at. *)
Definition proxy_checked (resolve : string → Z → option (list IpAddr)) (url : string) (ip : IpAddr) : Prop :=
  let '(p_host, p_port) := proxy_host_port url in
  match parse_ip (strip_brackets p_host) with
  | Some a => ip = a
  | None => ip ∈ default [] (resolve (strip_brackets p_host) p_port)
  end.

Lemma valid_proxy_target_checked resolve url cidrs ip :
  is_valid_proxy_target resolve url cidrs = true → proxy_checked resolve url ip →
  is_cloud_metadata ip = false
  ∧ destination_ok cidrs (strip_brackets (proxy_host_port url).1) ip = true.
Proof.
  unfold is_valid_proxy_target, proxy_checked. destruct (proxy_host_port url) as [ph pp]. cbn [fst].
  destruct (is_empty _); [done|]. destruct (parse_ip _) as [a|].
  - intros [H1%negb_true_iff H2]%andb_true_iff ->. done.
  - destruct (resolve _ pp) as [addrs|]; cbn [default from_option id];
      [|by intros _ ?%not_elem_of_nil].
    intros H%negb_true_iff Hin. rewrite existsb_false, Forall_forall in H. specialize (H _ Hin).
    by apply orb_false_iff in H as [? ?%negb_false_iff].
Qed.

(** C18: The broker does not dial a forbidden address for a request.  Whenever it
    opens a tunnel, the request passed the policy and every answer of the resolver for
    the requested host - not only the chosen one, so no DNS-rebinding mix slips
    through - is no cloud-metadata service, no DoH/DoT resolver, and in forbidden space
    only under a CIDR grant or the loopback exception.  A direct tunnel ends at one of
    those checked answers, on the requested port.  A tunnel through the configured
    proxy ends at an address the proxy's host resolves to when it is dialled; that
    address is no cloud-metadata service and outside forbidden space (same exceptions)
    if the check of the proxy saw it, that is if it is the literal address of the proxy
    URL or among the answers of the earlier resolution - the code resolves the name a
    second time and does not pin it, and tests no DoH/DoT for proxies. *)
Theorem broker_never_dials_forbidden resolve tcp world t host port token config st st' c :
  handle_broker_connection resolve tcp world t host port token config st
    = (st', ReplyConnected c) →
  (request_allowed t host port token config st).2 = true
  ∧ let h := trim_end_char "." (trim host) in
    (∀ ip, ip ∈ default [] (resolve h port) →
       is_cloud_metadata ip = false ∧ is_doh_or_dot h port (Some ip) = false
       ∧ destination_ok (parsed_cidrs config) h ip = true)
    ∧ match c with
      | Direct ip p => p = port ∧ ip ∈ default [] (resolve h port) ∧ tcp ip port = true
      | ViaProxy url ip p =>
          get_upstream_proxy h port config = Some url ∧ p = (proxy_host_port url).2
          ∧ ip ∈ default [] (resolve_again world (proxy_host_port url).1 p) ∧ tcp ip p = true
          ∧ (proxy_checked resolve url ip →
             is_cloud_metadata ip = false
             ∧ destination_ok (parsed_cidrs config) (strip_brackets (proxy_host_port url).1) ip = true)
      end.
Proof.
  unfold handle_broker_connection.
  destruct (request_allowed t host port token config st) as [st1 []]; [|done].
  simpl negb. cbv iota. intros H. split; [done|].
  destruct (resolve_and_connect _ _ _ _ _ _ _) as [st2 [c'|]] eqn:E; [|done].
  injection H as _ <-. revert E. unfold resolve_and_connect.
  set (h := trim_end_char "." (trim host)).
  destruct (is_empty h || has_ascii_ws h); [done|].
  destruct (is_doh_or_dot h port None); [done|].
  destruct (match parse_ip (strip_brackets h) with Some _ => _ | None => _ end); [done|].
  destruct (existsb _ (default [] (resolve h port))) eqn:Ef; [done|].
  rewrite existsb_false, Forall_forall in Ef. intros E. split.
  - intros ip Hin. specialize (Ef ip Hin). cbv beta in Ef.
    destruct (is_cloud_metadata ip); [done|]. destruct (is_doh_or_dot h port (Some ip)); [done|].
    split; [done|]. split; [done|]. apply destination_ok_true. intros Hforb.
    destruct (is_loopback_host h), (ip_is_loopback ip),
      (any_contains (parsed_cidrs config) ip); simpl in Ef; auto; congruence.
  - assert (∀ c0 st0, (match default [] (resolve h port) with
        | [] => (st1, None)
        | _ => (publish (DnsResolved h (ip_text <$> default [] (resolve h port))) st1,
                (λ ip, Direct ip port)
                  <$> List.find (λ ip, tcp ip port) (default [] (resolve h port)))
        end) = (st0, Some c0) →
        ∃ ip, c0 = Direct ip port ∧ ip ∈ default [] (resolve h port) ∧ tcp ip port = true)
      as Hdirect.
    { intros c0 st0 E0. destruct (default [] (resolve h port)) as [|a l] eqn:Er; [done|].
      destruct (List.find _ _) as [ip|] eqn:Efind; [|done]. simpl in E0. simplify_eq.
      apply List.find_some in Efind as [Hin Ht]. apply list_elem_of_In in Hin.
      exists ip. split; [done|]. split; done. }
    destruct (get_upstream_proxy h port config) as [url|] eqn:Ep.
    + destruct (is_valid_proxy_target resolve url (parsed_cidrs config)) eqn:Ev; [|done].
      destruct (connect_via_proxy tcp world url h port) as [[a p]|] eqn:Ec.
      * injection E as _ <-. destruct (connect_via_proxy_inv _ _ _ _ _ _ _ Ec) as (<- & ? & ?).
        split_and!; [done..|]. by apply valid_proxy_target_checked.
      * apply Hdirect in E as (ip & -> & ? & ?). done.
    + apply Hdirect in E as (ip & -> & ? & ?). done.
Qed.

Definition demo_resolver (h : string) (p : Z) : option (list IpAddr) :=
  Some [V4 [93; 184; 216; 34]].

(** No proxy answers. *)
Definition no_proxies : ProxyWorld := mk_proxy_world (λ _ _, None) (λ _ _ _, []).

(** A proxy whose name first resolves to a public address and then to the metadata
    service of the cloud. *)
Definition proxy_config : BrokerConfig :=
  mk_broker (BpAllowlist ["example.com"]) None [] ∅ true None
    (Some "http://u:p@proxy.example:3128") None.
Definition rebinding_proxy : ProxyWorld :=
  mk_proxy_world (λ _ _, Some [V4 [169; 254; 169; 254]])
    (λ _ _ _, ["HTTP/1.1 200 OK" +:+ proxy_crlf; proxy_crlf]).

Lemma broker_never_dials_forbidden_witness :
  destination_ok (parsed_cidrs demo_config) "api.example.com" (V4 [93; 184; 216; 34]) = true.
Proof.
  destruct (handle_broker_connection demo_resolver (λ _ _, true) no_proxies no_terminal
    "api.example.com" 443 None demo_config empty_state) as [st' [| |c]] eqn:E.
  1,2: exfalso; vm_compute in E; discriminate E.
  destruct (broker_never_dials_forbidden demo_resolver (λ _ _, true) no_proxies
    no_terminal "api.example.com" 443 None demo_config empty_state st' c E)
    as (_ & Hall & _).
  exact (proj2 (proj2 (Hall (V4 [93; 184; 216; 34]) ltac:(left)))).
Defined.

(** The second resolution of a proxy's name is not checked: the broker dials the
    metadata service. *)
Lemma proxy_rebinding_is_dialled :
  (handle_broker_connection demo_resolver (λ _ _, true) rebinding_proxy no_terminal
     "api.example.com" 443 None proxy_config empty_state).2
  = ReplyConnected (ViaProxy "http://u:p@proxy.example:3128" (V4 [169; 254; 169; 254]) 3128).
Proof. vm_compute. reflexivity. Qed.

(** Quotas bite: once the bytes recorded for a host that matches a quota
    pattern reach the limit, every request to any host matching that pattern is
    denied, whatever the policy, token or terminal say. *)
Theorem quota_denies t host port token config st pat limit h s :
  (∀ k v, transfer st !! k = Some v → 0 ≤ bytes_tx v ∧ 0 ≤ bytes_rx v) →
  quotas config !! pat = Some limit → limit ≤ u64_max →
  domain_matches_pattern host pat = true →
  transfer st !! h = Some s → domain_matches_pattern h pat = true →
  limit ≤ bytes_tx s + bytes_rx s →
  request_allowed t host port token config st = (st, false).
Proof.
  intros Hpos Hq Hl Hm Ht Hmh Hused. unfold request_allowed.
  destruct (is_loopback_host host && _); [done|].
  assert (existsb (λ '(pat0, limit0), limit0 <=? get_quota_bytes st pat0)
    (find_matching_quotas host (quotas config)) = true) as ->; [|done].
  apply existsb_true. exists (pat, limit). rewrite elem_find_matching. split; [done|].
  apply Z.leb_le. destruct (Hpos h s Ht) as [Htx Hrx].
  pose proof (quota_bytes_lower st pat h s Ht Hmh Htx Hrx Hpos). lia.
Qed.

Lemma quota_denies_witness :
  request_allowed no_terminal "api.example.com" 443 None demo_config
    (add_domain_transfer "API.example.com " 900 100 empty_state)
  = (add_domain_transfer "API.example.com " 900 100 empty_state, false).
Proof.
  apply (quota_denies _ _ _ _ _ _ "example.com" 1000 "api.example.com" (mk_stats 1 900 100));
    try (vm_compute; first [reflexivity | discriminate]).
  intros k v. change (transfer (add_domain_transfer "API.example.com " 900 100 empty_state))
    with ({["api.example.com" := mk_stats 1 900 100]} : gmap string DomainStats).
  intros H. apply lookup_singleton_Some in H as [_ <-]. split; discriminate.
Defined.

(** The debug guard blocks exactly the isolated debugger ports that are
    neither whitelisted nor presented with the session token, and names the
    service it protects. *)
Theorem check_access_spec g port token :
  (check_access g port token = PortAllowed ↔
   is_debug_port g port = false ∨ mem_Z port (whitelisted g) = true
   ∨ (∃ tok, token = Some tok ∧ trim tok = session_token g))
  ∧ (∀ p s, check_access g port token = PortBlocked p s →
       p = port ∧ identify_service port = Some s).
Proof.
  assert (∀ a b, mem_Z port a = true → (forallb (λ x, negb (mem_Z x b)) a = true) →
    mem_Z port b = false) as Hdisj.
  { intros a b Ha Hab. unfold mem_Z in Ha. apply existsb_true in Ha as (x & Hin & Hx).
    apply Z.eqb_eq in Hx as <-. rewrite forallb_forall in Hab.
    apply list_elem_of_In, Hab in Hin. by apply negb_true_iff. }
  unfold check_access, is_debug_port, identify_service.
  destruct (mem_Z port (whitelisted g)); [split; [intuition|done]|].
  destruct (match token with Some t => _ | None => _ end) eqn:Et.
  { destruct token as [tok|]; [|done]. apply String.eqb_eq in Et.
    split; [|done]. split; [|done]. intros _. right; right. eauto. }
  assert (¬ ∃ tok, token = Some tok ∧ trim tok = session_token g) as Hno.
  { intros (tok & -> & Htok). apply String.eqb_eq in Htok. congruence. }
  destruct (mem_Z port CHROME_DEVTOOLS_PORTS) eqn:Hc.
  { pose proof (Hdisj _ NODE_INSPECT_PORTS Hc eq_refl) as ->.
    pose proof (Hdisj _ PYTHON_DEBUGPY_PORTS Hc eq_refl) as ->.
    rewrite !andb_false_r, andb_true_r.
    destruct (isolate_devtools _); split; intuition congruence. }
  rewrite !andb_false_r. destruct (mem_Z port NODE_INSPECT_PORTS) eqn:Hn.
  { pose proof (Hdisj _ PYTHON_DEBUGPY_PORTS Hn eq_refl) as ->.
    rewrite !andb_false_r, andb_true_r.
    destruct (isolate_node_inspect _); split; intuition congruence. }
  rewrite !andb_false_r. destruct (mem_Z port PYTHON_DEBUGPY_PORTS) eqn:Hp.
  - rewrite andb_true_r. destruct (isolate_debugpy _); split; intuition congruence.
  - rewrite !andb_false_r. split; intuition congruence.
Qed.
