(* ===== verification/Sni.v ===== *)
(** * Sni: the TLS server-name check of the broker's port-443 tunnels

    Model of [extract_sni], [validate_sni_host], [is_strict_subdomain] and
    [encode_base64] of [src/src/sandbox/linux/net_relay.rs].  A slice index out
    of bounds is the panic [Panic]; positions are [nat]. *)

From S2P Require Import Prelude Ip NetAddr.

(** ** Reads *)

(** [buf[i]]. *)
Definition index (buf : list Z) (i : nat) : outcome Z :=
  match buf !! i with Some b => Done b | None => Panic end.
(** [u16::from_be_bytes([buf[i], buf[i + 1]])]. *)
Definition index16 (buf : list Z) (i : nat) : outcome nat :=
  a ← index buf i; b ← index buf (i + 1); Done (Z.to_nat (a * 256 + b)).

(** [Err(())], [Ok(None)] (more data needed), [Ok(Some(name))]. *)
Inductive sni_result : Type :=
| SniErr
| SniMore
| SniName (bytes : list Z).

(** The server-name list of one extension ([pos .. stop]). *)
Fixpoint names_loop (fuel : nat) (buf : list Z) (sni_pos stop : nat) :
  outcome (option (list Z)) :=
  match fuel with
  | O => Done None
  | S fuel =>
      if (sni_pos + 3 <=? stop)%nat then
        name_type ← index buf sni_pos;
        name_len ← index16 buf (sni_pos + 1);
        let sni_pos := (sni_pos + 3)%nat in
        if (name_type =? 0) && (sni_pos + name_len <=? stop)%nat
        then Done (Some (take name_len (drop sni_pos buf)))
        else names_loop fuel buf (sni_pos + name_len) stop
      else Done None
  end.

(** The extension loop; every pass advances by at least four bytes. *)
Fixpoint extensions_loop (fuel : nat) (buf : list Z) (pos ext_end : nat) : outcome sni_result :=
  match fuel with
  | O => Done (SniName [])
  | S fuel =>
      if (pos + 4 <=? ext_end)%nat then
        ext_type ← index16 buf pos;
        ext_len ← index16 buf (pos + 2);
        let pos := (pos + 4)%nat in
        if (ext_type =? 0)%nat then
          if (ext_end <? pos + ext_len)%nat then Done SniErr
          else if (pos + ext_len <? pos + 2)%nat then Done SniErr
          else
            _ ← index16 buf pos;
            name ← names_loop (length buf) buf (pos + 2) (pos + ext_len);
            match name with
            | Some bytes => Done (SniName bytes)
            | None => extensions_loop fuel buf (pos + ext_len) ext_end
            end
        else extensions_loop fuel buf (pos + ext_len) ext_end
      else Done (SniName [])
  end.

Definition hello_body (buf : list Z) : outcome sni_result :=
  let pos := (9 + 2 + 32)%nat in
  if (length buf <=? pos)%nat then Done SniErr
  else
    session_id_len ← index buf pos;
    let pos := (pos + (1 + Z.to_nat session_id_len))%nat in
    if (length buf <? pos + 2)%nat then Done SniErr
    else
      cipher_suites_len ← index16 buf pos;
      let pos := (pos + (2 + cipher_suites_len))%nat in
      if (length buf <=? pos)%nat then Done SniErr
      else
        comp_methods_len ← index buf pos;
        let pos := (pos + (1 + Z.to_nat comp_methods_len))%nat in
        if (length buf <? pos + 2)%nat then Done (SniName [])
        else
          extensions_len ← index16 buf pos;
          let pos := (pos + 2)%nat in
          let ext_end := (pos + extensions_len)%nat in
          if (length buf <? ext_end)%nat then Done SniErr
          else extensions_loop (length buf) buf pos ext_end.

Definition extract_sni (buf : list Z) : outcome sni_result :=
  if (length buf =? 0)%nat then Done SniMore
  else
    b0 ← index buf 0;
    if negb (b0 =? 0x16) then Done SniErr
    else if (length buf <? 5)%nat then Done SniMore
    else
      record_len ← index16 buf 3;
      if (length buf <? 5 + record_len)%nat then Done SniMore
      else
        b5 ← index buf 5;
        if negb (b5 =? 1) then Done SniErr
        else
          h0 ← index buf 6; h1 ← index buf 7; h2 ← index buf 8;
          let handshake_len := Z.to_nat (h0 * 65536 + h1 * 256 + h2) in
          if (record_len <? 4 + handshake_len)%nat then Done SniErr
          else hello_body buf.

(** ** Host comparison *)

Definition labels (s : string) : list string :=
  List.filter (λ w, negb (is_empty w)) (split_char "." s).

Definition is_strict_subdomain (sub parent : string) : bool :=
  let sub_labels := labels sub in
  let parent_labels := labels parent in
  if (length parent_labels <? 2)%nat || (length sub_labels <=? length parent_labels)%nat
  then false
  else
    let offset := (length sub_labels - length parent_labels)%nat in
    bool_decide (drop offset sub_labels = parent_labels).

Definition validate_sni_host (requested sni : string) : bool :=
  let req_h := clean_host requested in
  let act := clean_host sni in
  let is_ip := match parse_ip req_h with Some _ => true | None => false end in
  if is_empty act && is_ip then true
  else if String.eqb act req_h then true
  else if negb is_ip && is_strict_subdomain act req_h then true
  else false.

(** ** Base64 for the proxy credentials *)

Definition B64_CHARS : string :=
  "ABCDEFGHIJKLMNOPQRSTUVWXYZabcdefghijklmnopqrstuvwxyz0123456789+/".
Definition b64_char (n : Z) : ascii := default "?"%char (String.get (Z.to_nat n) B64_CHARS).

(** One pass of the loop on the bytes at [i], [i + 1], [i + 2]. *)
Definition b64_group (b0 : Z) (o1 o2 : option Z) : string :=
  let b1 := default 0 o1 in
  let b2 := default 0 o2 in
  let enc0 := Z.shiftr b0 2 in
  let enc1 := Z.lor (Z.shiftl (Z.land b0 3) 4) (Z.shiftr b1 4) in
  let enc2 := Z.lor (Z.shiftl (Z.land b1 15) 2) (Z.shiftr b2 6) in
  let enc3 := Z.land b2 63 in
  String (b64_char enc0) (String (b64_char enc1)
    (String (match o1 with Some _ => b64_char enc2 | None => "="%char end)
      (String (match o2 with Some _ => b64_char enc3 | None => "="%char end) EmptyString))).

Fixpoint encode_base64 (bytes : list Z) : string :=
  match bytes with
  | [] => EmptyString
  | [b0] => b64_group b0 None None
  | [b0; b1] => b64_group b0 (Some b1) None
  | b0 :: b1 :: b2 :: rest => b64_group b0 (Some b1) (Some b2) +:+ encode_base64 rest
  end.

(** ** Reference decoder (RFC 4648) *)

Definition b64_value (c : ascii) : option Z :=
  let n := Z.of_nat (Ascii.nat_of_ascii c) in
  if is_upper c then Some (n - 65)
  else if is_lower c then Some (n - 71)
  else if is_digit c then Some (n + 4)
  else if Ascii.eqb c "+" then Some 62
  else if Ascii.eqb c "/" then Some 63
  else None.

Fixpoint decode_base64 (s : string) : option (list Z) :=
  match s with
  | EmptyString => Some []
  | String c0 (String c1 (String c2 (String c3 rest))) =>
      match b64_value c0, b64_value c1 with
      | Some v0, Some v1 =>
          let b0 := v0 * 4 + v1 / 16 in
          match b64_value c2, b64_value c3 with
          | None, None =>
              if Ascii.eqb c2 "=" && Ascii.eqb c3 "=" && is_empty rest then Some [b0] else None
          | Some v2, None =>
              if Ascii.eqb c3 "=" && is_empty rest then Some [b0; (v1 mod 16) * 16 + v2 / 4]
              else None
          | Some v2, Some v3 =>
              match decode_base64 rest with
              | Some bs => Some (b0 :: (v1 mod 16) * 16 + v2 / 4 :: (v2 mod 4) * 64 + v3 :: bs)
              | None => None
              end
          | None, Some _ => None
          end
      | _, _ => None
      end
  | _ => None
  end.

(** ** Lemmas: base64 *)

Lemma b64_value_char n : 0 ≤ n < 64 → b64_value (b64_char n) = Some n.
Proof.
  intros Hn.
  assert (forallb (λ k, bool_decide (b64_value (b64_char (Z.of_nat k)) = Some (Z.of_nat k)))
    (seq 0 64) = true) as H by (vm_compute; reflexivity).
  rewrite forallb_forall in H. specialize (H (Z.to_nat n)).
  rewrite Z2Nat.id in H by lia. eapply bool_decide_eq_true_1. apply H, in_seq. lia.
Qed.

Lemma b64_value_pad : b64_value "=" = None.
Proof. reflexivity. Qed.

(** The six-bit groups of three bytes, arithmetically. *)
Lemma b64_enc b0 b1 b2 :
  0 ≤ b0 < 256 → 0 ≤ b1 < 256 → 0 ≤ b2 < 256 →
  Z.shiftr b0 2 = b0 / 4
  ∧ Z.lor (Z.shiftl (Z.land b0 3) 4) (Z.shiftr b1 4) = (b0 mod 4) * 16 + b1 / 16
  ∧ Z.lor (Z.shiftl (Z.land b1 15) 2) (Z.shiftr b2 6) = (b1 mod 16) * 4 + b2 / 64
  ∧ Z.land b2 63 = b2 mod 64.
Proof.
  intros H0 H1 H2.
  assert (∀ x y k, 0 ≤ y < 2 ^ k → 0 ≤ k → Z.lor (Z.shiftl x k) y = x * 2 ^ k + y) as Hlor.
  { intros x y k Hy Hk. rewrite <-Z.shiftl_mul_pow2 by done. symmetry.
    rewrite Z.add_nocarry_lxor, <-Z.lxor_lor; try done.
    all: apply Z.bits_inj'; intros i Hi; rewrite Z.land_spec, Z.testbit_0_l.
    all: destruct (Z.ltb_spec i k); [by rewrite Z.shiftl_spec_low|].
    all: assert (Z.testbit y i = false) as ->; [|by rewrite andb_false_r].
    all: destruct (decide (y = 0)) as [->|]; [apply Z.testbit_0_l|].
    all: apply Z.bits_above_log2; [lia|]; apply Z.log2_lt_pow2; [lia|];
      eapply Z.lt_le_trans; [apply Hy|]; apply Z.pow_le_mono_r; lia. }
  change 3 with (Z.ones 2). change 15 with (Z.ones 4). change 63 with (Z.ones 6).
  rewrite !Z.land_ones, !Z.shiftr_div_pow2 by lia.
  change (2 ^ 2) with 4 in *. change (2 ^ 4) with 16 in *. change (2 ^ 6) with 64 in *.
  split_and!; [done| | |done].
  - rewrite Hlor; [done| |lia]. change (2 ^ 4) with 16.
    split; [apply Z.div_pos; lia|apply Z.div_lt_upper_bound; lia].
  - rewrite Hlor; [done| |lia]. change (2 ^ 2) with 4.
    split; [apply Z.div_pos; lia|apply Z.div_lt_upper_bound; lia].
Qed.

Lemma b64_bounds b0 b1 b2 :
  0 ≤ b0 < 256 → 0 ≤ b1 < 256 → 0 ≤ b2 < 256 →
  0 ≤ b0 / 4 < 64 ∧ 0 ≤ (b0 mod 4) * 16 + b1 / 16 < 64
  ∧ 0 ≤ (b1 mod 16) * 4 + b2 / 64 < 64 ∧ 0 ≤ b2 mod 64 < 64.
Proof. intros. Z.to_euclidean_division_equations. lia. Qed.

Lemma b64_unpack b0 b1 b2 :
  0 ≤ b0 < 256 → 0 ≤ b1 < 256 → 0 ≤ b2 < 256 →
  let v0 := b0 / 4 in let v1 := (b0 mod 4) * 16 + b1 / 16 in
  let v2 := (b1 mod 16) * 4 + b2 / 64 in let v3 := b2 mod 64 in
  v0 * 4 + v1 / 16 = b0 ∧ (v1 mod 16) * 16 + v2 / 4 = b1 ∧ (v2 mod 4) * 64 + v3 = b2.
Proof. intros. subst v0 v1 v2 v3. Z.to_euclidean_division_equations. lia. Qed.

Definition byte_list (bs : list Z) : Prop := Forall (λ b, 0 ≤ b < 256) bs.

(** ** Properties *)

(** The proxy credentials survive their base64 encoding: decoding with the
    RFC 4648 reference decoder returns the original bytes, for every length and
    padding case. *)
Theorem base64_roundtrip bs : byte_list bs → decode_base64 (encode_base64 bs) = Some bs.
Proof.
  unfold byte_list. remember (length bs) as n eqn:Hn. revert bs Hn.
  induction n as [n IH] using lt_wf_ind. intros bs -> Hbs.
  assert (∀ x y z, 0 ≤ x < 256 → 0 ≤ y < 256 → 0 ≤ z < 256 →
    b64_value (b64_char (Z.shiftr x 2)) = Some (x / 4)
    ∧ b64_value (b64_char (Z.lor (Z.shiftl (Z.land x 3) 4) (Z.shiftr y 4)))
      = Some ((x mod 4) * 16 + y / 16)
    ∧ b64_value (b64_char (Z.lor (Z.shiftl (Z.land y 15) 2) (Z.shiftr z 6)))
      = Some ((y mod 16) * 4 + z / 64)
    ∧ b64_value (b64_char (Z.land z 63)) = Some (z mod 64)) as Henc.
  { intros x y z Hx Hy Hz. destruct (b64_enc x y z Hx Hy Hz) as (-> & -> & -> & ->).
    destruct (b64_bounds x y z Hx Hy Hz) as (? & ? & ? & ?).
    split_and!; by apply b64_value_char. }
  destruct bs as [|b0 [|b1 [|b2 rest]]]; [done| | |];
    repeat (apply Forall_cons in Hbs as [? Hbs]); cbn [encode_base64];
    unfold b64_group; cbn [String.append decode_base64 default id from_option].
  - destruct (Henc b0 0 0) as (-> & -> & _); [done|lia|lia|]. rewrite b64_value_pad. simpl.
    destruct (b64_unpack b0 0 0) as (E & _); [done|lia|lia|]. by rewrite E.
  - destruct (Henc b0 b1 0) as (-> & -> & -> & _); [done|done|lia|]. rewrite b64_value_pad. simpl.
    destruct (b64_unpack b0 b1 0) as (E0 & E1 & _); [done|done|lia|]. by rewrite E0, E1.
  - destruct (Henc b0 b1 b2) as (-> & -> & -> & ->); [done..|].
    destruct (b64_unpack b0 b1 b2) as (E0 & E1 & E2); [done..|].
    rewrite (IH (length rest)); [by rewrite E0, E1, E2|simpl; lia|done|done].
Qed.

Lemma base64_roundtrip_witness :
  decode_base64 (encode_base64 [117; 58; 112; 119; 255]) = Some [117; 58; 112; 119; 255].
Proof. apply base64_roundtrip. repeat constructor; lia. Defined.

(** ** The ClientHello the parser is meant for *)

Definition be16 (n : nat) : list Z := [Z.of_nat n / 256; Z.of_nat n mod 256].
Definition be24 (n : nat) : list Z :=
  [Z.of_nat n / 65536; Z.of_nat n / 256 mod 256; Z.of_nat n mod 256].

Record extension : Type := mk_ext { ext_type : nat; ext_data : list Z }.
Definition ext_bytes (e : extension) : list Z :=
  be16 (ext_type e) ++ be16 (length (ext_data e)) ++ ext_data e.
Definition sni_entry (name : list Z) : list Z := [0] ++ be16 (length name) ++ name.
Definition sni_ext (name : list Z) : extension :=
  mk_ext 0 (be16 (length (sni_entry name)) ++ sni_entry name).

Record hello : Type := mk_hello {
  client_version_random : list Z;  (* 34 bytes *)
  session_id : list Z;
  cipher_suites : list Z;
  compression : list Z;
  exts_before : list extension;
  server_name : list Z;
  exts_after : list Z;
}.

Definition exts_bytes (h : hello) : list Z :=
  concat (ext_bytes <$> exts_before h) ++ ext_bytes (sni_ext (server_name h)) ++ exts_after h.
Definition hello_rest (h : hello) : list Z :=
  [Z.of_nat (length (session_id h))] ++ session_id h
  ++ be16 (length (cipher_suites h)) ++ cipher_suites h
  ++ [Z.of_nat (length (compression h))] ++ compression h
  ++ be16 (length (exts_bytes h)) ++ exts_bytes h.
Definition hello_bytes (h : hello) : list Z := client_version_random h ++ hello_rest h.
Definition handshake_bytes (h : hello) : list Z :=
  [1] ++ be24 (length (hello_bytes h)) ++ hello_bytes h.
Definition record_bytes (h : hello) : list Z :=
  [0x16; 3; 1] ++ be16 (length (handshake_bytes h)) ++ handshake_bytes h.

(** Field sizes a TLS record can carry; extensions before the server name have
    another type. *)
Definition hello_ok (h : hello) : Prop :=
  length (client_version_random h) = 34%nat
  ∧ Z.of_nat (length (handshake_bytes h)) < 65536
  ∧ Forall (λ e, (0 < ext_type e)%nat ∧ Z.of_nat (ext_type e) < 65536
                 ∧ Z.of_nat (length (ext_data e)) < 65536) (exts_before h).

(** ** Lemmas: reading at a position *)

Lemma index_at buf pos x r :
  drop pos buf = x :: r → index buf pos = Done x ∧ drop (pos + 1) buf = r.
Proof.
  intros H. unfold index. split.
  - replace pos with (pos + 0)%nat at 1 by lia. rewrite <-lookup_drop, H. done.
  - by rewrite <-drop_drop, H.
Qed.

Lemma index16_at buf pos n r :
  drop pos buf = be16 n ++ r → index16 buf pos = Done n ∧ drop (pos + 2) buf = r.
Proof.
  unfold be16. cbn [app]. intros H. destruct (index_at _ _ _ _ H) as [H1 H2].
  destruct (index_at _ _ _ _ H2) as [H3 H4]. unfold index16. rewrite H1. simpl.
  rewrite H3. simpl. split.
  - f_equal. pose proof (Z.div_mod (Z.of_nat n) 256). lia.
  - rewrite <-H4. f_equal. lia.
Qed.

Lemma drop_past {A} pos (a r buf : list A) :
  drop pos buf = a ++ r → drop (pos + length a) buf = r.
Proof. intros H. rewrite <-drop_drop, H. apply drop_app_length. Qed.

Lemma drop_length_le {A} pos (r buf : list A) :
  drop pos buf = r → r ≠ [] → length buf = (pos + length r)%nat.
Proof.
  intros H Hr. apply (f_equal length) in H. rewrite length_drop in H.
  destruct r; [done|simpl in *; lia].
Qed.

Lemma sni_entry_length name : length (sni_entry name) = (3 + length name)%nat.
Proof. unfold sni_entry, be16. simpl. lia. Qed.

Lemma ext_bytes_length e : length (ext_bytes e) = (4 + length (ext_data e))%nat.
Proof. unfold ext_bytes, be16. rewrite !length_app. simpl. lia. Qed.

Lemma sni_data_length name : length (ext_data (sni_ext name)) = (5 + length name)%nat.
Proof. unfold sni_ext, be16. cbn [ext_data]. rewrite length_app, sni_entry_length. simpl. lia. Qed.

Lemma extensions_loop_finds fuel buf pos ext_end pre name post :
  drop pos buf = concat (ext_bytes <$> pre) ++ ext_bytes (sni_ext name) ++ post →
  Forall (λ e, (0 < ext_type e)%nat) pre →
  (pos + length (concat (ext_bytes <$> pre)) + length (ext_bytes (sni_ext name)) ≤ ext_end)%nat →
  (length pre < fuel)%nat →
  extensions_loop fuel buf pos ext_end = Done (SniName name).
Proof.
  revert fuel pos. induction pre as [|e pre IH]; intros fuel pos Hd Hp Hend Hf;
    (destruct fuel as [|fuel]; [lia|]); cbn [extensions_loop].
  - cbn [fmap list_fmap concat length app] in Hd, Hend.
    rewrite ext_bytes_length, sni_data_length in Hend.
    destruct (Nat.leb_spec (pos + 4) ext_end) as [_|]; [|lia].
    unfold ext_bytes in Hd. rewrite <-!app_assoc in Hd.
    destruct (index16_at _ _ _ _ Hd) as [-> Hd2].
    destruct (index16_at _ _ _ _ Hd2) as [E3 Hd3]. rewrite done_bind. rewrite E3. rewrite done_bind.
    rewrite sni_data_length. unfold sni_ext in Hd3. cbn [ext_data] in Hd3.
    rewrite <-app_assoc in Hd3. cbn [ext_type].
    cbn [Nat.eqb]. destruct (Nat.ltb_spec ext_end (pos + 4 + (5 + length name))); [lia|].
    destruct (Nat.ltb_spec (pos + 4 + (5 + length name)) (pos + 4 + 2)); [lia|].
    replace (pos + 2 + 2)%nat with (pos + 4)%nat in Hd3 by lia.
    destruct (index16_at _ _ _ _ Hd3) as [-> Hd4]. rewrite done_bind.
    assert (0 < length buf)%nat as Hpos.
    { rewrite (drop_length_le _ _ _ Hd3); [|done]. simpl. lia. }
    destruct (length buf) as [|n]; [lia|]. cbn [names_loop].
    destruct (Nat.leb_spec (pos + 4 + 2 + 3) (pos + 4 + (5 + length name))); [|lia].
    unfold sni_entry in Hd4. cbn [app] in Hd4. rewrite <-app_assoc in Hd4.
    destruct (index_at _ _ _ _ Hd4) as [-> Hd5]. rewrite done_bind.
    destruct (index16_at _ _ _ _ Hd5) as [-> Hd6]. rewrite done_bind.
    cbn [Z.eqb andb].
    destruct (Nat.leb_spec (pos + 4 + 2 + 3 + length name)
      (pos + 4 + (5 + length name))); [|lia].
    rewrite done_bind. do 2 f_equal.
    replace (pos + 4 + 2 + 1 + 2)%nat with (pos + 4 + 2 + 3)%nat in Hd6 by lia.
    rewrite Hd6. apply take_app_length.
  - rewrite fmap_cons in *. cbn [concat] in *.
    apply Forall_cons in Hp as [He Hp]. rewrite length_app in Hend.
    rewrite (ext_bytes_length e) in Hend.
    destruct (Nat.leb_spec (pos + 4) ext_end) as [_|]; [|lia].
    unfold ext_bytes in Hd at 1. rewrite <-!app_assoc in Hd.
    destruct (index16_at _ _ _ _ Hd) as [-> Hd2].
    destruct (index16_at _ _ _ _ Hd2) as [E3 Hd3]. rewrite done_bind. rewrite E3. rewrite done_bind.
    destruct (Nat.eqb_spec (ext_type e) 0); [lia|].
    replace (pos + 2 + 2)%nat with (pos + 4)%nat in Hd3 by lia.
    apply drop_past in Hd3. simpl in Hf. apply IH; [done|done|lia|lia].
Qed.

Lemma concat_exts_length pre :
  (4 * length pre ≤ length (concat (ext_bytes <$> pre)))%nat.
Proof.
  induction pre as [|e pre IH]; [simpl; lia|].
  rewrite fmap_cons. cbn [concat length]. rewrite length_app, ext_bytes_length. lia.
Qed.

Lemma hello_body_finds h buf rest :
  hello_ok h → drop 43 buf = hello_rest h ++ rest →
  hello_body buf = Done (SniName (server_name h)).
Proof.
  intros (Hv & Hlen & Hpre) Hd. unfold hello_body.
  change (9 + 2 + 32)%nat with 43%nat. cbv zeta.
  assert (length buf = 43 + length (hello_rest h ++ rest))%nat as Hl by (by apply drop_length_le).
  unfold hello_rest in Hd, Hl. rewrite !length_app in Hl. simpl length in Hl.
  destruct (Nat.leb_spec (length buf) 43); [lia|]. rewrite <-!app_assoc in Hd. cbn [app] in Hd.
  destruct (index_at _ _ _ _ Hd) as [-> Hd1]. rewrite done_bind. rewrite Nat2Z.id.
  apply drop_past in Hd1.
  replace (43 + 1 + length (session_id h))%nat with (43 + (1 + length (session_id h)))%nat
    in Hd1 by lia. set (p1 := (43 + (1 + length (session_id h)))%nat) in *.
  destruct (Nat.ltb_spec (length buf) (p1 + 2)); [lia|].
  destruct (index16_at _ _ _ _ Hd1) as [-> Hd2]. rewrite done_bind. apply drop_past in Hd2.
  replace (p1 + 2 + length (cipher_suites h))%nat
    with (p1 + (2 + length (cipher_suites h)))%nat in Hd2 by lia.
  set (p2 := (p1 + (2 + length (cipher_suites h)))%nat) in *.
  destruct (Nat.leb_spec (length buf) p2); [lia|]. cbn [app] in Hd2.
  destruct (index_at _ _ _ _ Hd2) as [-> Hd3]. rewrite done_bind. rewrite Nat2Z.id.
  apply drop_past in Hd3.
  replace (p2 + 1 + length (compression h))%nat with (p2 + (1 + length (compression h)))%nat
    in Hd3 by lia. set (p3 := (p2 + (1 + length (compression h)))%nat) in *.
  destruct (Nat.ltb_spec (length buf) (p3 + 2)); [lia|].
  destruct (index16_at _ _ _ _ Hd3) as [-> Hd4]. rewrite done_bind.
  destruct (Nat.ltb_spec (length buf) (p3 + 2 + length (exts_bytes h))); [lia|].
  pose proof (concat_exts_length (exts_before h)).
  unfold exts_bytes in Hd4. apply extensions_loop_finds with (pre := exts_before h)
    (post := exts_after h ++ rest); [by rewrite <-!app_assoc in Hd4| | |].
  - eapply Forall_impl; [exact Hpre|]. by intros e (? & _).
  - unfold exts_bytes. rewrite !length_app. lia.
  - unfold exts_bytes in Hl. rewrite !length_app in Hl. rewrite ext_bytes_length in Hl. lia.
Qed.

(** A well-formed ClientHello yields its server name: whatever the session
    id, cipher suites, compression methods, other extensions around the
    server-name extension and bytes after the record, the parser returns
    exactly the name, so the SNI comparison is made on what the client sent. *)
Theorem extract_sni_finds_name h rest :
  hello_ok h → extract_sni (record_bytes h ++ rest) = Done (SniName (server_name h)).
Proof.
  intros Hok. pose proof Hok as (Hv & Hlen & _).
  unfold extract_sni. set (hs := handshake_bytes h) in *.
  assert (length hs = 4 + length (hello_bytes h))%nat as Hhs
    by (unfold hs, handshake_bytes, be24; rewrite !length_app; simpl; lia).
  set (buf := record_bytes h ++ rest).
  assert (length buf = 5 + length hs + length rest)%nat as Hl
    by (unfold buf, record_bytes, be16; rewrite !length_app; simpl; lia).
  destruct (Nat.eqb_spec (length buf) 0); [lia|].
  assert (drop 0 buf = 0x16 :: [3; 1] ++ be16 (length hs) ++ hs ++ rest) as Hd
    by (unfold buf, record_bytes; by rewrite <-!app_assoc).
  destruct (index_at _ _ _ _ Hd) as [-> _]. rewrite done_bind. cbn [Z.eqb Pos.eqb negb].
  destruct (Nat.ltb_spec (length buf) 5); [lia|].
  assert (drop 3 buf = be16 (length hs) ++ hs ++ rest) as Hd3
    by (unfold buf, record_bytes; by rewrite <-!app_assoc).
  destruct (index16_at _ _ _ _ Hd3) as [-> Hd5]. rewrite done_bind.
  destruct (Nat.ltb_spec (length buf) (5 + length hs)); [lia|].
  change (3 + 2)%nat with 5%nat in Hd5. unfold hs, handshake_bytes in Hd5.
  rewrite <-!app_assoc in Hd5. cbn [app] in Hd5. destruct (index_at _ _ _ _ Hd5) as [-> Hd6]. rewrite done_bind.
  cbn [Z.eqb Pos.eqb negb]. unfold be24 in Hd6. cbn [app] in Hd6.
  change (5 + 1)%nat with 6%nat in Hd6.
  destruct (index_at _ _ _ _ Hd6) as [-> Hd7]. rewrite done_bind.
  change (6 + 1)%nat with 7%nat in Hd7.
  destruct (index_at _ _ _ _ Hd7) as [-> Hd8]. rewrite done_bind.
  change (7 + 1)%nat with 8%nat in Hd8.
  destruct (index_at _ _ _ _ Hd8) as [-> Hd9]. rewrite done_bind.
  set (nb := length (hello_bytes h)) in *.
  assert (Z.of_nat nb / 65536 * 65536 + Z.of_nat nb / 256 mod 256 * 256 + Z.of_nat nb mod 256
          = Z.of_nat nb) as ->.
  { assert (0 ≤ Z.of_nat nb < 65536) by lia. clear. Z.to_euclidean_division_equations. lia. }
  rewrite Nat2Z.id. destruct (Nat.ltb_spec (length hs) (4 + nb)); [lia|].
  change (8 + 1)%nat with 9%nat in Hd9. apply (hello_body_finds h buf rest); [done|].
  unfold hello_bytes in Hd9. rewrite <-app_assoc in Hd9. apply drop_past in Hd9.
  by rewrite Hv in Hd9.
Qed.

Definition demo_hello : hello :=
  mk_hello (replicate 34 7) [1; 2; 3] [19; 1] [0] [mk_ext 43 [2; 3; 4]]
    [97; 46; 98] [0; 10; 0; 0].

Lemma extract_sni_finds_name_witness :
  extract_sni (record_bytes demo_hello ++ [23; 3; 3]) = Done (SniName [97; 46; 98]).
Proof.
  apply (extract_sni_finds_name demo_hello [23; 3; 3]). split; [reflexivity|].
  split; [vm_compute; reflexivity|]. repeat constructor.
Defined.

(** ** When the parser panics *)

Lemma index_ok buf i : (i < length buf)%nat → ∃ b, index buf i = Done b.
Proof.
  intros H. unfold index. apply lookup_lt_is_Some in H as [b ->]. by exists b.
Qed.

Lemma index16_ok buf i : (i + 1 < length buf)%nat → ∃ n, index16 buf i = Done n.
Proof.
  intros H. unfold index16. destruct (index_ok buf i) as [a ->]; [lia|]. rewrite done_bind.
  destruct (index_ok buf (i + 1)) as [b ->]; [lia|]. eauto.
Qed.

Ltac read_ok :=
  match goal with
  | |- (index ?b ?i ≫= _) ≠ Panic =>
      let H := fresh in destruct (index_ok b i) as [? H]; [lia|rewrite H, done_bind; clear H]
  | |- (index16 ?b ?i ≫= _) ≠ Panic =>
      let H := fresh in destruct (index16_ok b i) as [? H]; [lia|rewrite H, done_bind; clear H]
  end.

Lemma names_loop_total fuel buf p stop :
  (stop ≤ length buf)%nat → names_loop fuel buf p stop ≠ Panic.
Proof.
  intros Hs. revert p. induction fuel as [|fuel IH]; intros p; cbn [names_loop]; [done|].
  destruct (Nat.leb_spec (p + 3) stop); [|done]. read_ok. read_ok.
  destruct (_ && _); [done|apply IH].
Qed.

Lemma extensions_loop_total fuel buf p e :
  (e ≤ length buf)%nat → extensions_loop fuel buf p e ≠ Panic.
Proof.
  intros He. revert p. induction fuel as [|fuel IH]; intros p; cbn [extensions_loop]; [done|].
  destruct (Nat.leb_spec (p + 4) e); [|done]. read_ok. read_ok.
  destruct (_ =? 0)%nat; [|apply IH].
  destruct (Nat.ltb_spec e (p + 4 + x0)); [done|].
  destruct (Nat.ltb_spec (p + 4 + x0) (p + 4 + 2)); [done|]. read_ok.
  pose proof (names_loop_total (length buf) buf (p + 4 + 2) (p + 4 + x0)) as Hn.
  destruct (names_loop _ _ _ _) as [[bs|]|]; [done|apply IH|].
  exfalso. apply Hn; [lia|reflexivity].
Qed.

Lemma hello_body_total buf : hello_body buf ≠ Panic.
Proof.
  unfold hello_body. cbv zeta.
  destruct (Nat.leb_spec (length buf) (9 + 2 + 32)); [done|]. read_ok.
  match goal with |- context [(length buf <? ?n)%nat] => destruct (Nat.ltb_spec (length buf) n) end;
    [done|]. read_ok.
  match goal with |- context [(length buf <=? ?n)%nat] => destruct (Nat.leb_spec (length buf) n) end;
    [done|]. read_ok.
  match goal with |- context [(length buf <? ?n)%nat] => destruct (Nat.ltb_spec (length buf) n) end;
    [done|]. read_ok.
  match goal with |- context [(length buf <? ?n)%nat] => destruct (Nat.ltb_spec (length buf) n) end;
    [done|]. apply extensions_loop_total. lia.
Qed.

(** The parser panics exactly on a handshake record that is complete
    according to its own length field but ends before the nine bytes the parser
    indexes unconditionally: an out-of-bounds read a client can trigger with a
    five-byte record; on every input of nine or more bytes it returns. *)
Theorem extract_sni_panics buf :
  extract_sni buf = Panic ↔
  ∃ v1 v2 n, take 5 buf = [0x16; v1; v2] ++ n
    ∧ length n = 2%nat
    ∧ (∃ rl, index16 buf 3 = Done rl ∧ (5 + rl ≤ length buf)%nat)
    ∧ (length buf = 5%nat ∨ (buf !! 5%nat = Some 1 ∧ (length buf < 9)%nat)).
Proof.
  unfold extract_sni. destruct (decide (length buf < 5)%nat) as [Hs|Hs].
  { split.
    - destruct (Nat.eqb_spec (length buf) 0); [done|]. intros H. exfalso. revert H.
      match goal with |- ?x = _ → False => change (x ≠ Panic) end. read_ok. destruct (negb _); [done|]. destruct (Nat.ltb_spec (length buf) 5); [done|lia].
    - intros (v1 & v2 & n & Ht & Hn & _). apply (f_equal length) in Ht.
      rewrite length_take, length_app, Hn in Ht.
      change (length [22; v1; v2]) with 3%nat in Ht. lia. }
  destruct buf as [|b0 [|v1 [|v2 [|l1 [|l2 rest]]]]]; try (simpl in Hs; lia).
  set (buf := b0 :: v1 :: v2 :: l1 :: l2 :: rest) in *.
  destruct (index16_ok buf 3) as [rl Hrl]; [unfold buf; simpl; lia|].
  change (index buf 0) with (@Done Z b0). rewrite Hrl, !done_bind.
  destruct (Nat.eqb_spec (length buf) 0); [done|].
  destruct (Nat.ltb_spec (length buf) 5); [lia|].
  destruct (Z.eqb_spec b0 0x16) as [->|Hb0]; cbn [negb]; cycle 1.
  { split; [done|]. intros (? & ? & n0 & Ht & _). simpl in Ht. congruence. }
  destruct (Nat.ltb_spec (length buf) (5 + rl)) as [Hlt|Hge].
  { split; [done|]. intros (? & ? & ? & _ & _ & (rl' & E & ?) & _). simplify_eq. lia. }
  destruct rest as [|b5 rest].
  { change (index buf 5) with (@Panic Z). simpl. split; [|done]. intros _.
    exists v1, v2, [l1; l2]. split_and!; [done|done| |by left]. exists rl. done. }
  change (index buf 5) with (@Done Z b5). rewrite done_bind.
  destruct (Z.eqb_spec b5 1) as [->|Hb5]; cbn [negb]; cycle 1.
  { split; [done|]. intros (? & ? & ? & _ & _ & _ & [H5|[H5 _]]);
      [unfold buf in H5; simpl in H5; lia|]. unfold buf in H5. simpl in H5. congruence. }
  destruct (decide (length buf < 9)%nat) as [H9|H9].
  - split.
    + intros _. exists v1, v2, [l1; l2]. split_and!; [done|done| |by right]. exists rl. done.
    + intros _. destruct rest as [|c1 [|c2 [|c3 rest]]];
        try reflexivity. unfold buf in H9; simpl in H9; lia.
  - split.
    + intros Hpan. exfalso. revert Hpan.
      match goal with |- ?x = _ → False => change (x ≠ Panic) end. do 3 read_ok. destruct (_ <? _)%nat; [done|].
      apply hello_body_total.
    + intros (? & ? & ? & _ & _ & _ & [H5|[_ H5]]); lia.
Qed.

(** Five bytes from the client are enough. *)
Lemma extract_sni_panic_input : extract_sni [0x16; 3; 1; 0; 0] = Panic.
Proof. reflexivity. Qed.
