(* ===== verification/Gate.v ===== *)
(** * Gate: the capability gate of the sealed contract

    Model of the action-authorisation half of [src/src/policy_ir/compiler.rs]
    ([authorize_action] and what it calls), on Unix.  A path argument is its
    component list, so the messages print its canonical spelling. *)

From S2P Require Import Prelude Paths PolicyTypes Contract Ip NetAddr.

(** ** Derived [Debug] texts used in the messages *)

(** [{:?}] of a path: quoted, with quotes, backslashes and the usual control
    characters escaped. *)
Definition debug_char (c : ascii) : string :=
  match Ascii.nat_of_ascii c with
  | 34%nat => ch1 92 +:+ ch1 34
  | 92%nat => ch1 92 +:+ ch1 92
  | 9%nat => ch1 92 +:+ "t"
  | 10%nat => ch1 92 +:+ "n"
  | 13%nat => ch1 92 +:+ "r"
  | 0%nat => ch1 92 +:+ "0"
  | _ => String c EmptyString
  end.
Fixpoint debug_chars (s : string) : string :=
  match s with EmptyString => EmptyString | String c s => debug_char c +:+ debug_chars s end.
Definition path_debug (p : path) : string := ch1 34 +:+ debug_chars (to_str p) +:+ ch1 34.

Definition ports_debug (ports : list Z) : string :=
  "[" +:+ join_with ", " (to_dec <$> ports) +:+ "]".

(** ** Paths *)

Definition resolve_and_check_traversal (workspace_root target_path : path) : path * bool :=
  let has_parent_dir := existsb is_parent target_path in
  let ws_norm := lexical_normalize workspace_root in
  if is_absolute target_path || has_root target_path then
    let norm := lexical_normalize target_path in
    (norm, has_parent_dir && path_starts_with target_path ws_norm
           && negb (path_starts_with norm ws_norm))
  else
    let norm := lexical_normalize (push workspace_root target_path) in
    (norm, has_parent_dir && negb (path_starts_with norm ws_norm)).

(** [resolved == root || resolved.starts_with(root)] for a normalised root. *)
Definition covered_by (resolved root : path) : bool :=
  let norm_root := lexical_normalize root in
  bool_decide (resolved = norm_root) || path_starts_with resolved norm_root.

(** The collision test for writes also covers the parents of a mask. *)
Definition write_collides (ws_root resolved root : path) : bool :=
  let norm_mask := lexical_normalize root in
  bool_decide (resolved = norm_mask) || path_starts_with resolved norm_mask
  || (path_starts_with norm_mask resolved && negb (bool_decide (resolved = ws_root))).

Definition is_empty_path (p : path) : bool := match p with [] => true | _ => false end.

(** The first entry of [roots] that collides. *)
Definition first_collision (collides : path → bool) (roots : list path) : option path :=
  List.find collides roots.

Definition installed_deny_read (contract : SecurityContract) : list path :=
  match production contract with
  | Some prod => deny_read (installation_policy prod)
  | None => []
  end.
Definition installed_deny_write (contract : SecurityContract) : list path :=
  match production contract with
  | Some prod => deny_write (installation_policy prod)
  | None => []
  end.

(** ** File system *)

Definition authorize_fs_read (contract : SecurityContract) (target_path : path) : ActionVerdict :=
  let fs := filesystem contract in
  if is_empty_path target_path then Denied "Read target path is empty" "fs_empty_path"
  else
    let '(resolved, is_traversal) :=
      resolve_and_check_traversal (workspace_root fs) target_path in
    if is_traversal then
      Denied ("Read target " +:+ path_debug target_path
              +:+ " attempts directory traversal escaping workspace "
              +:+ path_debug (workspace_root fs)) "path_traversal"
    else
      match first_collision (covered_by resolved) (mask_paths fs) with
      | Some mask =>
          Denied ("Read target " +:+ path_debug target_path
                  +:+ " collides with mandatory secret mask " +:+ path_debug mask)
                 ("secret_mask:" +:+ path_debug mask)
      | None =>
          match first_collision (covered_by resolved) (installed_deny_read contract) with
          | Some denied =>
              Denied ("Read target " +:+ path_debug target_path
                      +:+ " collides with policy deny_read " +:+ path_debug denied)
                     ("deny_read:" +:+ path_debug denied)
          | None =>
              if existsb (covered_by resolved)
                   (fs_allow_read fs ++ fs_allow_write fs ++ [workspace_root fs])
              then Allowed
              else Denied ("Read target " +:+ path_debug target_path
                           +:+ " is outside allowed read roots") "fs_read_scope"
          end
      end.

Definition authorize_fs_write (contract : SecurityContract) (target_path : path) : ActionVerdict :=
  let fs := filesystem contract in
  if is_empty_path target_path then Denied "Write target path is empty" "fs_empty_path"
  else
    let '(resolved, is_traversal) :=
      resolve_and_check_traversal (workspace_root fs) target_path in
    if is_traversal then
      Denied ("Write target " +:+ path_debug target_path
              +:+ " attempts directory traversal escaping workspace "
              +:+ path_debug (workspace_root fs)) "path_traversal"
    else
      let ws_root := lexical_normalize (workspace_root fs) in
      match first_collision (write_collides ws_root resolved) (mask_paths fs) with
      | Some mask =>
          Denied ("Write target " +:+ path_debug target_path
                  +:+ " collides with mandatory secret mask " +:+ path_debug mask)
                 ("secret_mask:" +:+ path_debug mask)
      | None =>
          match first_collision (write_collides ws_root resolved)
                  (installed_deny_write contract) with
          | Some denied =>
              Denied ("Write target " +:+ path_debug target_path
                      +:+ " collides with policy deny_write " +:+ path_debug denied)
                     ("deny_write:" +:+ path_debug denied)
          | None =>
              match fs_allow_write fs with
              | [] =>
                  Denied ("Write target " +:+ path_debug target_path
                          +:+ " denied: write access is disabled (allow_write is empty)")
                         "fs_write_empty"
              | roots =>
                  if existsb (covered_by resolved) roots then Allowed
                  else Denied ("Write target " +:+ path_debug target_path
                               +:+ " is outside allowed write roots") "fs_write_scope"
              end
          end
      end.

(** ** Processes *)

Definition authorize_process_exec (contract : SecurityContract) (binary : path)
    (_args : list string) : ActionVerdict :=
  let fs := filesystem contract in
  if is_empty_path binary then Denied "Binary path is empty" "exec_empty_path"
  else
    let '(resolved, is_traversal) := resolve_and_check_traversal (workspace_root fs) binary in
    if is_traversal then
      Denied ("Execution binary " +:+ path_debug binary
              +:+ " attempts directory traversal outside workspace") "path_traversal"
    else
      match first_collision (covered_by resolved) (mask_paths fs) with
      | Some mask =>
          Denied ("Execution binary " +:+ path_debug binary
                  +:+ " collides with secret mask " +:+ path_debug mask)
                 ("secret_mask:" +:+ path_debug mask)
      | None =>
          let invoked := invoked_binary (agent_identity contract) in
          let norm_invoked := lexical_normalize invoked in
          if bool_decide (resolved = norm_invoked)
             || bool_decide (lexical_normalize binary = norm_invoked)
             || bool_decide (binary = invoked)
          then Allowed
          else if existsb (covered_by resolved) (fs_allow_execute fs) then Allowed
          else Denied ("Execution binary " +:+ path_debug binary
                       +:+ " is not authorized by allow_execute or invoked_binary")
                      "process_exec_scope"
      end.

(** ** Network *)

Definition domain_pattern_matches (host pat : string) : bool :=
  let pat := to_ascii_lowercase (trim_end_char "." (strip_domain_port pat)) in
  if String.eqb pat "*" then true
  else match strip_prefix "*." pat with
       | Some suffix => ends_with host ("." +:+ suffix)
       | None => String.eqb host pat || ends_with host ("." +:+ pat)
       end.

Definition is_domain_in_allowlist (host : string) (allowed_domains : list string) : bool :=
  existsb (domain_pattern_matches host) allowed_domains.

Definition metadata_names : list string :=
  ["169.254.169.254"; "100.100.100.200"; "169.254.169.253"; "instance-data";
   "metadata.google.internal"; "metadata.azure.com"].

Definition is_cloud_metadata_target (host : string) : bool :=
  let clean := strip_brackets host in
  if existsb (String.eqb clean) metadata_names then true
  else match parse_ip clean with
       | Some (V4 o) => is_metadata_v4 o
       | Some (V6 o) =>
           if is_v4_mapped o || is_v4_compat o then is_metadata_v4 (embedded_v4 o) else false
       | None => false
       end.

Definition is_loopback_target (host : string) : bool :=
  let clean := strip_brackets host in
  if String.eqb clean "localhost" || ends_with clean ".localhost" then true
  else match parse_ip clean with
       | Some ip => ip_is_loopback ip
       | None => String.eqb clean "127.0.0.1" || starts_with clean "127." || String.eqb clean "::1"
       end.

Definition authorize_net_connect (contract : SecurityContract) (domain : string) (port : Z) :
  ActionVerdict :=
  let net := network contract in
  let clean_domain := trim_end_char "." (trim domain) in
  let target := clean_domain +:+ ":" +:+ to_dec port in
  if is_empty clean_domain then
    Denied "Network destination host/domain is empty" "net_empty_domain"
  else
    let host := to_ascii_lowercase (strip_domain_port clean_domain) in
    let gates :=
      if block_cloud_metadata net && is_cloud_metadata_target host then
        Denied ("SSRF attempt to cloud metadata " +:+ target +:+ " blocked")
               "cloud_metadata_block"
      else if block_loopback_daemons net && is_loopback_target host then
        Denied ("Connection to loopback interface " +:+ target +:+ " blocked")
               "loopback_block"
      else if bool_decide (net_mode net = NmDirect) then Allowed
      else if negb (is_domain_in_allowlist host (allowed_domains net)) then
        Denied ("Domain '" +:+ clean_domain +:+ "' is not in allowed network domains list")
               "net_domain_allowlist"
      else if negb (bool_decide (allowed_ports net = []))
              && negb (existsb (Z.eqb port) (allowed_ports net)) then
        Denied ("Port " +:+ to_dec port +:+ " is not in allowed network ports "
                +:+ ports_debug (allowed_ports net)) "net_port_allowlist"
      else Allowed in
    match net_mode net with
    | NmOff =>
        Denied ("Outbound network egress to " +:+ target
                +:+ " is disabled (NetworkMode::Off)") "net_mode:off"
    | NmAsk =>
        if negb (is_domain_in_allowlist host (allowed_domains net)) then
          Denied ("Connection to " +:+ target
                  +:+ " requires interactive approval (NetworkMode::Ask)")
                 "net_mode:ask_unapproved"
        else gates
    | NmAllowlist | NmStrict | NmDirect => gates
    end.

Definition authorize_action (contract : SecurityContract) (action : Action) : ActionVerdict :=
  match action with
  | FsRead target_path => authorize_fs_read contract target_path
  | FsWrite target_path => authorize_fs_write contract target_path
  | ProcessExec binary args => authorize_process_exec contract binary args
  | NetConnect domain port => authorize_net_connect contract domain port
  end.

(** ** Specification vocabulary *)

(** [below root p]: the normalised root is an ancestor of [p], or [p] itself. *)
Definition below (root p : path) : Prop := ∃ rest, p = lexical_normalize root ++ rest.

(** The path a target stands for, and whether it is an escape attempt. *)
Definition resolved (contract : SecurityContract) (p : path) : path :=
  (resolve_and_check_traversal (workspace_root (filesystem contract)) p).1.
Definition escapes (contract : SecurityContract) (p : path) : bool :=
  (resolve_and_check_traversal (workspace_root (filesystem contract)) p).2.

(** The domain patterns: everything, strict subdomains, or a domain with its
    subdomains; a match always falls on a label boundary. *)
Definition pattern_covers (host pat : string) : Prop :=
  pat = "*"
  ∨ (∃ suffix sub, pat = "*." +:+ suffix ∧ pat ≠ "*" ∧ host = sub +:+ "." +:+ suffix)
  ∨ (strip_prefix "*." pat = None
     ∧ (host = pat ∨ ∃ sub, host = sub +:+ "." +:+ pat)).

(** ** Lemmas *)

Lemma covered_by_spec r root : covered_by r root = true ↔ below root r.
Proof.
  unfold covered_by, below. rewrite orb_true_iff, bool_decide_eq_true, path_starts_with_spec.
  split; [intros [->|H]; [exists []; by rewrite app_nil_r|done] | by right].
Qed.

Lemma covered_by_false r root : covered_by r root = false ↔ ¬ below root r.
Proof. rewrite <-covered_by_spec. by destruct (covered_by r root). Qed.

Lemma write_collides_false ws r root :
  write_collides ws r root = false ↔
  ¬ below root r ∧ ((∃ rest, lexical_normalize root = r ++ rest) → r = ws).
Proof.
  unfold write_collides. fold (covered_by r root).
  rewrite orb_false_iff, covered_by_false, andb_false_iff, negb_false_iff, bool_decide_eq_true,
    <-path_starts_with_spec.
  destruct (path_starts_with _ r); intuition discriminate.
Qed.

Lemma first_collision_None f roots :
  first_collision f roots = None ↔ ∀ m, m ∈ roots → f m = false.
Proof.
  unfold first_collision. induction roots as [|x l IH]; simpl.
  - split; [intros _ m Hm; by apply elem_of_nil in Hm|done].
  - destruct (f x) eqn:E.
    + split; [done|]. intros H. rewrite H in E; [done|left].
    + rewrite IH. setoid_rewrite elem_of_cons. split; [intros H m [->|]; auto|auto].
Qed.

Lemma is_empty_path_false p : is_empty_path p = false ↔ p ≠ [].
Proof. by destruct p. Qed.

Lemma push_relative ws p :
  ws ≠ [] → is_absolute p = false → push ws p = ws ++ List.filter (λ c, negb (is_cur c)) p.
Proof. intros Hne Hr. unfold push. rewrite Hr. by destruct ws. Qed.

(** Without [..], the kept components of a relative path are names. *)
Lemma relative_names p :
  path_wf p = true → is_absolute p = false → existsb is_parent p = false →
  names_only (List.filter (λ c, negb (is_cur c)) p) = true.
Proof.
  intros Hwf Hrel Hpar. assert (forallb (λ c, negb (is_root c)) p = true) as Hroot.
  { destruct p as [|c p]; [done|]. simpl in *. rewrite Hrel. by apply tail_no_root. }
  clear Hwf Hrel. unfold names_only. induction p as [|c p IH]; [done|]. simpl in *. to_prop.
  destruct c; try discriminate; simpl; auto.
Qed.

Lemma normalize_push_relative ws p :
  path_wf ws = true → is_absolute ws = true → is_absolute p = false →
  lexical_normalize (push ws p)
  = fold_left (normalize_step true) (List.filter (λ c, negb (is_cur c)) p) (lexical_normalize ws).
Proof.
  intros _ Habs Hrel. assert (ws ≠ []) by (by destruct ws).
  rewrite push_relative by done. unfold lexical_normalize. rewrite fold_left_app.
  destruct ws as [|[] ws]; done.
Qed.

(** A relative target that is not an escape attempt resolves inside the
    workspace, whether or not it contains [..]. *)
Lemma relative_stays_inside ws p :
  path_wf ws = true → is_absolute ws = true → path_wf p = true → is_absolute p = false →
  (resolve_and_check_traversal ws p).2 = false →
  below ws (resolve_and_check_traversal ws p).1.
Proof.
  intros Hws Habs Hp Hrel. unfold resolve_and_check_traversal, has_root. rewrite Hrel. simpl.
  intros [Hpar|Hin]%andb_false_iff.
  - rewrite normalize_push_relative by done.
    pose proof (lexical_normalize_abs ws Hws Habs) as Hn.
    rewrite fold_normalize_names; [by eexists|by apply relative_names|].
    by destruct (lexical_normalize ws).
  - apply negb_false_iff, path_starts_with_spec in Hin. done.
Qed.

Lemma filter_tail_ok p :
  path_wf p = true → is_absolute p = false →
  path_tail_ok (List.filter (λ c, negb (is_cur c)) p) = true.
Proof.
  intros Hwf Hrel. assert (forallb (λ c, negb (is_root c)) p = true) as Hroot.
  { destruct p as [|c p]; [done|]. simpl in *. rewrite Hrel. by apply tail_no_root. }
  clear Hwf Hrel. unfold path_tail_ok. induction p as [|c p IH]; [done|]. simpl in *. to_prop.
  destruct (is_cur c) eqn:E; simpl; [auto|]. rewrite H, E. auto.
Qed.

(** Every target resolves to an absolute path without [.] or [..]. *)
Lemma resolved_normal contract p :
  path_wf (workspace_root (filesystem contract)) = true →
  is_absolute (workspace_root (filesystem contract)) = true → path_wf p = true →
  normal_abs (resolved contract p) = true.
Proof.
  intros Hws Habs Hp. unfold resolved, resolve_and_check_traversal, has_root.
  destruct (is_absolute p) eqn:E; simpl; [by apply lexical_normalize_abs|].
  rewrite normalize_push_relative by done. apply fold_normalize_abs;
    [by apply lexical_normalize_abs | by apply tail_no_root, filter_tail_ok].
Qed.

(** The scope test shared by the three file operations. *)
Lemma existsb_covered r roots :
  existsb (covered_by r) roots = true ↔ ∃ root, root ∈ roots ∧ below root r.
Proof. rewrite existsb_true. by setoid_rewrite covered_by_spec. Qed.

Lemma no_collision_covered r roots :
  first_collision (covered_by r) roots = None ↔ ∀ m, m ∈ roots → ¬ below m r.
Proof. rewrite first_collision_None. by setoid_rewrite covered_by_false. Qed.

Lemma no_collision_write ws r roots :
  first_collision (write_collides ws r) roots = None ↔
  ∀ m, m ∈ roots → ¬ below m r ∧ ((∃ rest, lexical_normalize m = r ++ rest) → r = ws).
Proof. rewrite first_collision_None. by setoid_rewrite write_collides_false. Qed.

Lemma fs_read_allowed contract p :
  authorize_fs_read contract p = Allowed ↔
  p ≠ [] ∧ escapes contract p = false
  ∧ (∀ m, m ∈ mask_paths (filesystem contract) ++ installed_deny_read contract →
       ¬ below m (resolved contract p))
  ∧ ∃ root, root ∈ fs_allow_read (filesystem contract) ++ fs_allow_write (filesystem contract)
                   ++ [workspace_root (filesystem contract)]
      ∧ below root (resolved contract p).
Proof.
  unfold authorize_fs_read, escapes, resolved. rewrite <-is_empty_path_false.
  destruct (resolve_and_check_traversal _ p) as [r t]. cbn [fst snd].
  setoid_rewrite elem_of_app at 1. rewrite <-existsb_covered.
  destruct (is_empty_path p); [intuition discriminate|].
  destruct t; [intuition discriminate|].
  destruct (first_collision _ (mask_paths _)) eqn:Em.
  { split; [done|]. intros (_ & _ & H & _). assert (first_collision (covered_by r)
      (mask_paths (filesystem contract)) = None); [|congruence].
    apply no_collision_covered. auto. }
  rewrite no_collision_covered in Em.
  destruct (first_collision _ (installed_deny_read _)) eqn:Ed.
  { split; [done|]. intros (_ & _ & H & _). assert (first_collision (covered_by r)
      (installed_deny_read contract) = None); [|congruence].
    apply no_collision_covered. auto. }
  rewrite no_collision_covered in Ed.
  destruct (existsb _ _).
  - split; [intros _|done]. split_and!; try done. intros m [?|?]; auto.
  - split; [done|]. intros (_ & _ & _ & ?). done.
Qed.

Lemma fs_write_allowed contract p :
  authorize_fs_write contract p = Allowed ↔
  p ≠ [] ∧ escapes contract p = false
  ∧ (∀ m, m ∈ mask_paths (filesystem contract) ++ installed_deny_write contract →
       ¬ below m (resolved contract p)
       ∧ ((∃ rest, lexical_normalize m = resolved contract p ++ rest) →
          resolved contract p = lexical_normalize (workspace_root (filesystem contract))))
  ∧ ∃ root, root ∈ fs_allow_write (filesystem contract) ∧ below root (resolved contract p).
Proof.
  unfold authorize_fs_write, escapes, resolved. rewrite <-is_empty_path_false.
  destruct (resolve_and_check_traversal _ p) as [r t]. cbn [fst snd].
  setoid_rewrite elem_of_app. rewrite <-existsb_covered.
  destruct (is_empty_path p); [intuition discriminate|].
  destruct t; [intuition discriminate|]. cbv zeta.
  set (ws := lexical_normalize (workspace_root (filesystem contract))).
  destruct (first_collision _ (mask_paths _)) eqn:Em.
  { split; [done|]. intros (_ & _ & H & _). assert (first_collision (write_collides ws r)
      (mask_paths (filesystem contract)) = None); [|congruence].
    apply no_collision_write. auto. }
  rewrite no_collision_write in Em.
  destruct (first_collision _ (installed_deny_write _)) eqn:Ed.
  { split; [done|]. intros (_ & _ & H & _). assert (first_collision (write_collides ws r)
      (installed_deny_write contract) = None); [|congruence].
    apply no_collision_write. auto. }
  rewrite no_collision_write in Ed.
  destruct (fs_allow_write _) as [|root roots]; [simpl; intuition discriminate|].
  destruct (existsb _ _).
  - split; [intros _|done]. split_and!; try done. intros m [?|?]; auto.
  - split; [done|]. intros (_ & _ & _ & ?). done.
Qed.

Lemma process_exec_allowed contract p args :
  authorize_process_exec contract p args = Allowed ↔
  p ≠ [] ∧ escapes contract p = false
  ∧ (∀ m, m ∈ mask_paths (filesystem contract) → ¬ below m (resolved contract p))
  ∧ (let invoked := invoked_binary (agent_identity contract) in
     resolved contract p = lexical_normalize invoked
     ∨ lexical_normalize p = lexical_normalize invoked ∨ p = invoked
     ∨ ∃ root, root ∈ fs_allow_execute (filesystem contract)
               ∧ below root (resolved contract p)).
Proof.
  unfold authorize_process_exec, escapes, resolved. rewrite <-is_empty_path_false.
  destruct (resolve_and_check_traversal _ p) as [r t]. cbn [fst snd].
  rewrite <-existsb_covered.
  destruct (is_empty_path p); [intuition discriminate|].
  destruct t; [intuition discriminate|]. cbv zeta.
  destruct (first_collision _ _) eqn:Em.
  { split; [done|]. intros (_ & _ & H & _). apply no_collision_covered in H. congruence. }
  rewrite no_collision_covered in Em.
  repeat case_bool_decide; destruct (existsb _ _); simpl; intuition discriminate.
Qed.

Lemma strip_prefix_app pre s : strip_prefix pre (pre +:+ s) = Some s.
Proof. by apply strip_prefix_Some. Qed.

Lemma pattern_covers_spec host pat :
  domain_pattern_matches host pat = true ↔
  pattern_covers host (to_ascii_lowercase (trim_end_char "." (strip_domain_port pat))).
Proof.
  unfold domain_pattern_matches, pattern_covers.
  set (q := to_ascii_lowercase _). clearbody q.
  destruct (String.eqb_spec q "*") as [->|Hq]; [intuition|].
  destruct (strip_prefix "*." q) as [suffix|] eqn:E.
  - apply strip_prefix_Some in E as ->. rewrite ends_with_true. split.
    + intros [sub ->]. right; left. by exists suffix, sub.
    + intros [?|[(s' & sub & Hs & _ & ->)|[? _]]]; [done| |done].
      injection Hs as ->. by exists sub.
  - rewrite orb_true_iff, String.eqb_eq, ends_with_true. split; [intuition|].
    intros [?|[(s' & sub & -> & _)|[_ ?]]]; [done| |done].
    change ("*." +:+ s') with (String "*" (String "." s')) in E. simpl in E. done.
Qed.

Lemma domain_in_allowlist_spec host domains :
  is_domain_in_allowlist host domains = true ↔
  ∃ pat, pat ∈ domains
    ∧ pattern_covers host (to_ascii_lowercase (trim_end_char "." (strip_domain_port pat))).
Proof.
  unfold is_domain_in_allowlist. rewrite existsb_true. by setoid_rewrite pattern_covers_spec.
Qed.

Lemma mem_port port ports : existsb (Z.eqb port) ports = true ↔ port ∈ ports.
Proof.
  rewrite existsb_true. setoid_rewrite Z.eqb_eq. split; [by intros (x & ? & ->)|by exists port].
Qed.

(** ** Properties *)

(** C7: Confinement of the file-system gate: with an absolute workspace, every
    target that a read, a write or an execution is authorised for resolves to an
    absolute path without [.] or [..], lies below no secret mask, and, when it
    was given relative to the workspace (with or without [..] components),
    resolves inside the workspace. *)
Theorem gate_confines contract a p :
  path_wf (workspace_root (filesystem contract)) = true →
  is_absolute (workspace_root (filesystem contract)) = true →
  path_wf p = true →
  (a = FsRead p ∨ a = FsWrite p ∨ ∃ args, a = ProcessExec p args) →
  authorize_action contract a = Allowed →
  normal_abs (resolved contract p) = true
  ∧ (∀ m, m ∈ mask_paths (filesystem contract) → ¬ below m (resolved contract p))
  ∧ (is_absolute p = false → below (workspace_root (filesystem contract)) (resolved contract p)).
Proof.
  intros Hws Habs Hp Ha H.
  assert (escapes contract p = false ∧ ∀ m, m ∈ mask_paths (filesystem contract) →
    ¬ below m (resolved contract p)) as [He Hm].
  { destruct Ha as [->|[->|[args ->]]]; simpl in H.
    - apply fs_read_allowed in H as (_ & ? & Hm & _). split; [done|].
      intros m Hin. apply Hm, elem_of_app. by left.
    - apply fs_write_allowed in H as (_ & ? & Hm & _). split; [done|].
      intros m Hin. apply Hm, elem_of_app. by left.
    - apply process_exec_allowed in H as (_ & ? & Hm & _). done. }
  split_and!; [by apply resolved_normal|done|].
  intros Hrel. by apply relative_stays_inside.
Qed.

Lemma gate_confines_witness :
  below (components "/workspace")
    (resolved (sample_contract "a") (components "target/../target/./out")).
Proof.
  refine (proj2 (proj2 (gate_confines (sample_contract "a")
    (FsWrite (components "target/../target/./out")) (components "target/../target/./out")
    _ _ _ (or_intror (or_introl eq_refl)) _)) _); vm_compute; reflexivity.
Defined.

(** What the write gate authorises, exactly: a non-empty target that is no
    escape attempt, that is neither below a mask or an installed [deny_write]
    nor a strict ancestor of one (the workspace root excepted), and that is
    below one of the write roots. *)
Theorem fs_write_gate contract p :
  is_allowed (authorize_action contract (FsWrite p)) = true ↔
  p ≠ [] ∧ escapes contract p = false
  ∧ (∀ m, m ∈ mask_paths (filesystem contract) ++ installed_deny_write contract →
       ¬ below m (resolved contract p)
       ∧ ((∃ rest, lexical_normalize m = resolved contract p ++ rest) →
          resolved contract p = lexical_normalize (workspace_root (filesystem contract))))
  ∧ ∃ root, root ∈ fs_allow_write (filesystem contract) ∧ below root (resolved contract p).
Proof. simpl. rewrite <-fs_write_allowed. by destruct (authorize_fs_write contract p). Qed.

(** Write implies read: a target the write gate authorises is authorised
    for reading too, unless the installed policy denies reading it. *)
Theorem write_implies_read contract p :
  authorize_action contract (FsWrite p) = Allowed →
  (∀ d, d ∈ installed_deny_read contract → ¬ below d (resolved contract p)) →
  authorize_action contract (FsRead p) = Allowed.
Proof.
  simpl. rewrite fs_write_allowed, fs_read_allowed. intros (? & ? & Hm & root & ? & ?) Hd.
  split_and!; [done|done| |].
  - intros m [Hin|Hin]%elem_of_app; [|by apply Hd]. apply Hm, elem_of_app. by left.
  - exists root. split; [|done]. apply elem_of_app. right. apply elem_of_app. by left.
Qed.

Lemma write_implies_read_witness :
  authorize_action (sample_contract "a") (FsRead (components "/workspace/target/x")) = Allowed.
Proof.
  apply (write_implies_read (sample_contract "a") (components "/workspace/target/x")).
  - vm_compute. reflexivity.
  - intros d Hd. apply elem_of_nil in Hd. destruct Hd.
Defined.

(** What the network gate authorises, exactly: a non-empty host under a mode
    other than off, not a cloud-metadata service and not loopback when those
    are blocked, and, unless the mode is direct, a host that an allowed pattern
    covers on a label boundary, on a port that is listed when ports are. *)
Theorem net_connect_gate contract domain port :
  let net := network contract in
  let clean := trim_end_char "." (trim domain) in
  let host := to_ascii_lowercase (strip_domain_port clean) in
  is_allowed (authorize_action contract (NetConnect domain port)) = true ↔
  clean ≠ EmptyString ∧ net_mode net ≠ NmOff
  ∧ (block_cloud_metadata net = true → is_cloud_metadata_target host = false)
  ∧ (block_loopback_daemons net = true → is_loopback_target host = false)
  ∧ (net_mode net = NmDirect
     ∨ ((∃ pat, pat ∈ allowed_domains net
           ∧ pattern_covers host
               (to_ascii_lowercase (trim_end_char "." (strip_domain_port pat))))
        ∧ (allowed_ports net = [] ∨ port ∈ allowed_ports net))).
Proof.
  intros net clean host. simpl. unfold authorize_net_connect. fold net clean host.
  rewrite <-domain_in_allowlist_spec, <-mem_port.
  assert (is_empty clean = true ↔ clean = EmptyString) as He by apply String.eqb_eq.
  destruct (is_empty clean) eqn:E.
  { split; [done|]. intros [Hne _]. by destruct Hne; apply He. }
  destruct (is_domain_in_allowlist host (allowed_domains net)),
    (existsb (Z.eqb port) (allowed_ports net)),
    (block_cloud_metadata net), (is_cloud_metadata_target host),
    (block_loopback_daemons net), (is_loopback_target host);
    destruct (net_mode net) eqn:Em; repeat case_bool_decide; simpl;
    intuition (try discriminate; try congruence).
Qed.

(** The gate and the broker agree on cloud-metadata addresses: for a host
    that is an address literal, unless it is NAT64-embedded or the literal
    169.254.169.253, the gate's metadata test is the broker's; whenever the
    gate's test passes such an address, the broker's does. *)
Theorem metadata_tests_agree host ip :
  parse_ip (strip_brackets host) = Some ip →
  existsb (String.eqb (strip_brackets host)) metadata_names = false →
  (∀ o, ip = V6 o → nat64_embedded_ipv4 o = None) →
  is_cloud_metadata_target host = is_cloud_metadata ip.
Proof.
  intros Hip Hn H64. unfold is_cloud_metadata_target. rewrite Hn, Hip.
  destruct ip as [o|o]; [done|]. simpl. by rewrite (H64 o eq_refl).
Qed.

Lemma metadata_tests_agree_witness :
  is_cloud_metadata_target "[::ffff:a9fe:a9fe]"
  = is_cloud_metadata (V6 [0; 0; 0; 0; 0; 0; 0; 0; 0; 0; 255; 255; 169; 254; 169; 254]).
Proof.
  apply metadata_tests_agree; [vm_compute; reflexivity..|].
  intros o [= <-]. reflexivity.
Defined.

(** The NAT64 form of the metadata address passes the gate in direct mode and
    is refused by the broker's address test only. *)
Lemma gate_misses_nat64_metadata :
  is_cloud_metadata_target "64:ff9b::a9fe:a9fe" = false
  ∧ (is_cloud_metadata <$> parse_ip "64:ff9b::a9fe:a9fe") = Some true.
Proof. split; vm_compute; reflexivity. Qed.

(** The IPv4-mapped loopback address is not recognised as loopback by the gate. *)
Lemma gate_misses_mapped_loopback :
  is_loopback_target "::ffff:127.0.0.1" = false
  ∧ is_loopback_host "::ffff:127.0.0.1" = true.
Proof. split; vm_compute; reflexivity. Qed.

(** The pattern [*.] loses its dot and becomes the pattern that covers every host. *)
Lemma star_dot_covers_everything host : domain_pattern_matches host "*." = true.
Proof. reflexivity. Qed.
