(* ===== verification/Compiler.v ===== *)
(** * Compiler: from a resolved policy to a sealed contract

    Model of the compiling half of [src/src/policy_ir/compiler.rs]:
    [compile_effective] (production inputs, no reinterpretation), [compile]
    (request-oriented) and the resource resolution they use, on Unix.  The file
    system ([exists], [canonicalize]), the home directory and the crate version
    are arguments; a path argument is its component list. *)

From S2P Require Import Prelude Float64 Paths PolicyTypes Contract Gate.

Inductive CompilerError : Type :=
| PathCanonicalizationFailed (msg : string)
| ConflictingPermissions (msg : string)
| UnsupportedCapability (msg : string)
| MissingMandatoryField (msg : string).

(** ** System roots *)

Definition system_roots : list path :=
  components <$> ["/etc"; "/usr"; "/bin"; "/sbin"; "/lib"; "/lib32"; "/lib64"; "/boot";
                  "/sys"; "/proc"; "/root"].

Definition is_forbidden_system_root (p : path) : bool :=
  if bool_decide (p = [RootDir]) then true
  else if existsb (λ sp, bool_decide (p = sp) || path_starts_with p sp) system_roots then true
  else path_starts_with p (components "/dev")
       && negb (bool_decide (p = components "/dev/null")).

(** ** Inputs *)

Record EffectivePolicyInput : Type := mk_input {
  in_policy : Policy;
  argv : list string;
  cwd : path;
  in_env : gmap string string;
  in_net : NetMode;
  nonce : string;
  timeout : option Z;  (* nanoseconds *)
  in_tier : option Tier;
  in_backend : string;
  in_observe_seccomp : bool;
  in_debug_ports : option DebugPortConfig;
}.

(** ** Resources *)

Definition cpu_str_to_percent (s : string) : option Z :=
  match parse_cpu_ratio s with
  | Some ratio =>
      Some (Z.max (as_uint u32_max (f64_round (f64_mul ratio (f64_of_Z 100)))) 1)
  | None => None
  end.

Definition cgroup_field (f : CgroupConfig → option string) (p : Policy) : option string :=
  match cgroup p with Some c => f c | None => None end.

Definition resolve_cpu_percent (p : Policy) : Z :=
  let pol_cpu := cpu_max p ≫= cpu_str_to_percent in
  let cg_cpu := cgroup_field cgroup_cpu_max p ≫= cpu_str_to_percent in
  match pol_cpu, cg_cpu with
  | Some p1, Some p2 => Z.min p1 p2
  | Some v, None | None, Some v => v
  | None, None => 100
  end.

Definition positive (o : option Z) : option Z :=
  match o with Some v => if 0 <? v then Some v else None | None => None end.

Definition resolve_max_memory_bytes (p : Policy) : Z :=
  let as_bytes := positive (address_space_bytes (limits p)) in
  let cg_bytes := positive (cgroup_field memory_max p ≫= parse_bytes_value) in
  match as_bytes, cg_bytes with
  | Some a, Some c => Z.min a c
  | Some a, None => a
  | None, Some c => c
  | None, None => 0
  end.

Definition resolve_max_pids (p : Policy) : result CompilerError Z :=
  let proc_limit := positive (processes (limits p)) in
  let cg_limit := positive (cgroup_field pids_max p ≫= λ s,
    if eq_ignore_ascii_case (trim s) "max" then None else parse_u64 (trim s)) in
  let effective_pids :=
    match proc_limit, cg_limit with
    | Some p1, Some p2 => Z.min p1 p2
    | Some v, None | None, Some v => v
    | None, None => 0
    end in
  if effective_pids <=? u32_max then Ok effective_pids
  else Err (UnsupportedCapability "process limit exceeds contract v1 range").

(** ** Path checks *)

(** Splitting the spelling at both separators finds a [..]: a [..] component,
    or one between backslashes inside a name. *)
Definition has_traversal (p : path) : bool :=
  existsb (λ c, existsb (String.eqb "..") (split_char (chr 92) (component_str c))) p
  || existsb is_parent p.

Fixpoint check_traversal (what : string) (ps : list path) : result CompilerError unit :=
  match ps with
  | [] => Ok tt
  | p :: ps =>
      if has_traversal p then
        Err (ConflictingPermissions (what +:+ " target " +:+ path_debug p
                                     +:+ " attempts directory traversal"))
      else check_traversal what ps
  end.

(** [if !v.contains(&x) { v.push(x) }]. *)
Definition push_new {A} `{EqDecision A} (v : list A) (x : A) : list A :=
  if bool_decide (x ∈ v) then v else v ++ [x].

Definition normalize_reads (workspace_root : path) (reads : list path) : list path :=
  fold_left (λ acc p,
    push_new acc (lexical_normalize (if is_absolute p then p else push workspace_root p)))
    reads [].

Section Compile.
Context `{C : ContractCodec}.
Variable exists_ : path → bool.
Variable canonicalize : path → option path.
Variable home_dir : option path.
Variable crate_version : string.

(** The climb to the nearest existing ancestor.  The cursor is reversed; the
    second component is the suffix in the order it is pushed back.  [None] is
    the traversal error. *)
Fixpoint ascend (rcursor suffix : path) : option (path * path) :=
  if exists_ (rev rcursor) then Some (rev rcursor, suffix)
  else match rcursor with
       | [] => Some ([], suffix)
       | ParentDir :: _ => None
       | CurDir :: rest => ascend rest suffix
       | RootDir :: _ => Some (rev rcursor, RootDir :: suffix)
       | Normal n :: rest => ascend rest (Normal n :: suffix)
       end.

Definition push_all (base suffix : path) : path := fold_left (λ acc c, push acc [c]) suffix base.

(** One write target of [compile_effective]. *)
Definition effective_write (workspace_root p : path) : result CompilerError path :=
  let is_rel := negb (is_absolute p) in
  let normalized := if is_rel then push workspace_root p else p in
  if is_forbidden_system_root normalized then
    Err (ConflictingPermissions ("Write target " +:+ path_debug p
                                 +:+ " exposes protected system root"))
  else
    match ascend (rev normalized) [] with
    | None => Err (ConflictingPermissions ("Write target " +:+ path_debug p
                                           +:+ " attempts directory traversal"))
    | Some (ancestor, suffix) =>
        let canon_ancestor := default ancestor (canonicalize ancestor) in
        if is_forbidden_system_root canon_ancestor then
          Err (ConflictingPermissions ("Write target ancestor " +:+ path_debug canon_ancestor
                                       +:+ " exposes protected system root"))
        else
          let canon_ws := default workspace_root (canonicalize workspace_root) in
          if is_rel && negb (path_starts_with canon_ancestor canon_ws)
             && negb (path_starts_with canon_ancestor workspace_root) then
            Err (ConflictingPermissions ("Write target ancestor " +:+ path_debug canon_ancestor
                                         +:+ " escapes workspace " +:+ path_debug workspace_root))
          else Ok (lexical_normalize (push_all canon_ancestor suffix))
    end.

Fixpoint effective_writes (workspace_root : path) (acc : list path) (writes : list path) :
  result CompilerError (list path) :=
  match writes with
  | [] => Ok acc
  | p :: writes =>
      w ← effective_write workspace_root p;
      effective_writes workspace_root (push_new acc w) writes
  end.

Definition mandatory_masks (workspace_root : path) : list path :=
  let home := default (components "/root") home_dir in
  [push home (components ".ssh"); push home (components ".aws"); push home (components ".gnupg");
   push workspace_root (components ".env"); push workspace_root (components ".git/config")].

Definition effective_masks (workspace_root : path) (p : Policy) : list path :=
  fold_left push_new (mandatory_masks workspace_root) (deny_path <$> deny_resolved p).

(** The write-against-mask test; [exempt] holds the roots that may contain a
    mask. *)
Definition mask_conflict (exempt : list path) (w m : path) : bool :=
  bool_decide (w = m) || path_starts_with w m
  || (negb (bool_decide (w ∈ exempt)) && path_starts_with m w).

Definition mask_error (what : string) (w m : path) : CompilerError :=
  ConflictingPermissions ("Write target " +:+ path_debug w +:+ " collides with " +:+ what
                          +:+ " " +:+ path_debug m).

Definition check_pairs (what : string) (conflict : path → path → bool) (ws ms : list path) :
  result CompilerError unit :=
  try_each (λ w, try_each (λ m, if conflict w m then Err (mask_error what w m) else Ok tt) ms) ws.

Definition network_inputs (net : NetMode) : NetworkMode * list string * list Z :=
  match net with
  | NetOff => (NmOff, [], [])
  | NetAllowlist domains => (NmAllowlist, domains, [])
  | NetStrict rules => (NmStrict, rule_domain <$> rules, rule_port <$> rules)
  | NetAsk => (NmAsk, [], [])
  end.

Definition default_exec : list path := [components "/usr"; components "/bin"].

Definition effective_execute (invoked_bin : path) : list path :=
  if is_absolute invoked_bin then
    match parent invoked_bin with
    | Some parent_buf => push_new default_exec parent_buf
    | None => default_exec
    end
  else default_exec.

Definition PROD_MAX_STDIO : Z := Z.shiftl 1 20.

Definition compile_effective (input : EffectivePolicyInput) :
  result CompilerError SecurityContract :=
  let policy := in_policy input in
  let workspace_root := cwd input in
  match argv input with
  | [] => Err (MissingMandatoryField "command or nonce")
  | argv0 :: args =>
      if is_empty argv0 || is_empty (nonce input)
      then Err (MissingMandatoryField "command or nonce")
      else
        _ ← check_traversal "Read" (allow_read policy);
        let reads := normalize_reads workspace_root (allow_read policy) in
        _ ← check_traversal "Write" (allow_write policy);
        writes ← effective_writes workspace_root [] (allow_write policy);
        let masks := effective_masks workspace_root policy in
        _ ← check_pairs "secret mask"
              (mask_conflict [workspace_root; components "/tmp"]) writes masks;
        _ ← check_pairs "explicit deny_write"
              (λ w d, bool_decide (w = d) || path_starts_with w d) writes (deny_write policy);
        let '(mode, domains, ports) := network_inputs (in_net input) in
        let ports := fold_left push_new (net_connect_ports policy) ports in
        pids ← resolve_max_pids policy;
        let wall_ms := default 0 (timeout input) / 1000000 in
        _ ← (if wall_ms <=? u64_max then Ok tt
             else Err (UnsupportedCapability "timeout exceeds contract range"));
        match seal (mk_unsealed
          (Some (mk_production policy (in_net input) (timeout input) (in_tier input)
             (in_backend input) (in_observe_seccomp input) (in_debug_ports input)))
          1 ("production-" +:+ nonce input) (nonce input)
          (mk_agent (policy_name policy) (policy_name policy) crate_version
             (components argv0) args)
          (mk_fs workspace_root reads writes (effective_execute (components argv0)) masks
             (snapshot policy) false (shadow policy))
          (mk_network mode domains ports (uses_relay (in_net input)) (uses_relay (in_net input)))
          (mk_resources pids (resolve_max_memory_bytes policy) (resolve_cpu_percent policy)
             wall_ms PROD_MAX_STDIO (default 0 (file_size_bytes (limits policy))))
          (mk_environment (pass_through (environment policy)) (in_env input)
             (env_deny (environment policy)) true)
          (mk_attestation true false false "HOST_FACT") default_crypto)
        with
        | Ok c => Ok c
        | Err e => Err (UnsupportedCapability ("contract serialization: " +:+ json_error_text e))
        end
  end.

(** ** The request-oriented compiler *)

(** The text of an [io::Error] from [canonicalize], and the session nonce
    ([generate_session_nonce]: 32 hex digits from clock, pid and a counter). *)
Variable io_error : path → string.
Variable session_nonce : string.

Definition drop_cur (p : path) : path := List.filter (λ c, negb (is_cur c)) p.

Definition rebase (workspace_root p : path) : path :=
  if is_absolute p then p else push_all workspace_root (drop_cur p).

Fixpoint request_reads (workspace_root : path) (reads : list path) :
  result CompilerError (list path) :=
  match reads with
  | [] => Ok []
  | p :: reads =>
      _ ← check_traversal "Read" [p];
      canon ← ok_or (canonicalize (rebase workspace_root p))
                (PathCanonicalizationFailed ("Read path invalid: " +:+ path_debug p));
      rest ← request_reads workspace_root reads;
      Ok (canon :: rest)
  end.

Definition request_write (workspace_root p : path) : result CompilerError path :=
  _ ← check_traversal "Write" [p];
  match ascend (rev (rebase workspace_root p)) [] with
  | None => Err (ConflictingPermissions ("Write target " +:+ path_debug p
                                         +:+ " attempts directory traversal"))
  | Some (ancestor, suffix) =>
      canon_ancestor ← ok_or (canonicalize ancestor)
        (PathCanonicalizationFailed ("Write ancestor invalid for " +:+ path_debug p
                                     +:+ ": " +:+ io_error ancestor));
      if path_starts_with canon_ancestor workspace_root
      then Ok (push_all canon_ancestor suffix)
      else Err (ConflictingPermissions ("Write target ancestor " +:+ path_debug canon_ancestor
                                        +:+ " escapes workspace " +:+ path_debug workspace_root))
  end.

Fixpoint request_writes (workspace_root : path) (writes : list path) :
  result CompilerError (list path) :=
  match writes with
  | [] => Ok []
  | p :: writes =>
      w ← request_write workspace_root p;
      rest ← request_writes workspace_root writes;
      Ok (w :: rest)
  end.

Definition compile (agent : string) (workspace_raw : path)
    (cli_net_override : option NetworkMode) (raw_reads raw_writes : list path) :
  result CompilerError SecurityContract :=
  workspace_root ← ok_or (canonicalize workspace_raw)
    (PathCanonicalizationFailed ("Workspace invalid: " +:+ io_error workspace_raw));
  reads ← request_reads workspace_root raw_reads;
  writes ← request_writes workspace_root raw_writes;
  let reads := sort_dedup (workspace_root :: reads) in
  let writes := sort_dedup writes in
  let masks := mandatory_masks workspace_root in
  _ ← check_pairs "mandatory secret mask" (mask_conflict [workspace_root]) writes masks;
  match seal (mk_unsealed None 1 ("contract-" +:+ String.substring 0 12 session_nonce)
    session_nonce
    (mk_agent agent "default" crate_version (components "/bin/sh") [])
    (mk_fs workspace_root reads writes default_exec masks true true false)
    (mk_network (default NmOff cli_net_override) [] [80; 443] true true)
    (mk_resources 128 (2 * 1024 * 1024 * 1024) 100 120000 (10 * 1024 * 1024) 2147483648)
    (mk_environment ["PATH"; "LANG"; "TERM"] ∅
       ["*_KEY"; "*_SECRET"; "*_TOKEN"; "AWS_*"; "GITHUB_*"] true)
    (mk_attestation true true false "HOST_FACT") default_crypto)
  with
  | Ok c => Ok c
  | Err e => Err (PathCanonicalizationFailed ("Failed to seal contract: " +:+ json_error_text e))
  end.
End Compile.

(** ** Lemmas *)

(** What the compiler relies on of the file system: canonical paths are
    absolute names, what exists canonicalises, and the root exists. *)
Class FsLaws (exists_ : path → bool) (canonicalize : path → option path) : Prop := {
  canonicalize_normal : ∀ p q, canonicalize p = Some q → normal_abs q = true;
  exists_canonicalizes : ∀ p, exists_ p = true → is_Some (canonicalize p);
  root_exists : exists_ [RootDir] = true;
}.

Lemma push_new_elem {A} `{EqDecision A} (v : list A) (x y : A) :
  y ∈ push_new v x ↔ y ∈ v ∨ y = x.
Proof.
  unfold push_new. case_bool_decide as H; [|by rewrite elem_of_app, list_elem_of_singleton].
  split; [by left|intros [?| ->]; done].
Qed.

Lemma fold_push_new_elem {A} `{EqDecision A} (xs v : list A) (y : A) :
  y ∈ fold_left push_new xs v ↔ y ∈ v ∨ y ∈ xs.
Proof.
  revert v. induction xs as [|x xs IH]; intros v; simpl; [by rewrite elem_of_nil; intuition|].
  rewrite IH, push_new_elem, elem_of_cons. intuition.
Qed.

Lemma check_pairs_Ok what conflict ws ms :
  check_pairs what conflict ws ms = Ok tt ↔
  ∀ w m, w ∈ ws → m ∈ ms → conflict w m = false.
Proof.
  unfold check_pairs. rewrite try_each_Ok, Forall_forall. split.
  - intros H w m Hw Hm. specialize (H w Hw). rewrite try_each_Ok, Forall_forall in H.
    specialize (H m Hm). by destruct (conflict w m).
  - intros H w Hw. rewrite try_each_Ok, Forall_forall. intros m Hm. by rewrite H.
Qed.

Lemma check_traversal_Ok what ps :
  check_traversal what ps = Ok tt → ∀ p, p ∈ ps → existsb is_parent p = false.
Proof.
  induction ps as [|q ps IH]; simpl; intros H p Hp; [by apply elem_of_nil in Hp|].
  destruct (has_traversal q) eqn:E; [done|]. apply elem_of_cons in Hp as [->|Hp]; [|auto].
  unfold has_traversal in E. by apply orb_false_iff in E as [_ ?].
Qed.

Lemma push_all_names base ns :
  normal_abs base = true → names_only ns = true → push_all base ns = base ++ ns.
Proof.
  unfold push_all. revert base. induction ns as [|c ns IH]; intros base Hb Hn; simpl in *.
  - by rewrite app_nil_r.
  - to_prop. destruct c; try discriminate.
    assert (push base [Normal name] = base ++ [Normal name]) as ->
      by (destruct base as [|[] ?]; done).
    rewrite IH; [by rewrite <-app_assoc| |done]. destruct base as [|[] base]; try discriminate.
    simpl in *. unfold names_only in *. by rewrite forallb_app, Hb.
Qed.

Lemma normal_abs_app b ns :
  normal_abs b = true → names_only ns = true → normal_abs (b ++ ns) = true.
Proof.
  destruct b as [|[] b]; try discriminate. simpl. unfold names_only. intros Hb Hn.
  by rewrite forallb_app, Hb.
Qed.

(** The climb from an absolute normal path stops at an existing ancestor. *)
Lemma ascend_normal exists_ rc suffix :
  exists_ [RootDir] = true → normal_abs (rev rc) = true → names_only suffix = true →
  ∃ a ns, ascend exists_ rc suffix = Some (a, ns) ∧ exists_ a = true ∧ names_only ns = true
          ∧ a ++ ns = rev rc ++ suffix.
Proof.
  intros Hroot. revert suffix. induction rc as [|c rc IH]; intros suffix Hn Hs; [done|].
  cbn [ascend]. destruct (exists_ (rev (c :: rc))) eqn:E; [by exists (rev (c :: rc)), suffix|].
  simpl in Hn. destruct (rev rc) as [|d q] eqn:Erc.
  { destruct c; try discriminate. simpl in E. rewrite Erc in E. simpl in E. congruence. }
  destruct d; try discriminate. simpl in Hn. unfold names_only in Hn.
  rewrite forallb_app in Hn. simpl in Hn. to_prop. destruct c; try discriminate.
  destruct (IH (Normal name :: suffix)) as (a & ns & ? & ? & ? & Ha); [done|done|].
  exists a, ns. split_and!; [done..|]. rewrite Ha. simpl. rewrite Erc.
  by rewrite <-app_assoc.
Qed.

Lemma system_roots_short sp : sp ∈ system_roots → ∃ n, sp = [RootDir; Normal n].
Proof.
  unfold system_roots. rewrite list_elem_of_fmap. intros (s & -> & Hs).
  repeat (apply elem_of_cons in Hs as [->|Hs]; [by eexists|]). by apply elem_of_nil in Hs.
Qed.

Lemma starts_with_short q ns n :
  q ≠ [RootDir] → normal_abs q = true →
  path_starts_with (q ++ ns) [RootDir; Normal n] = path_starts_with q [RootDir; Normal n].
Proof. destruct q as [|[] [|? q]]; try discriminate; done. Qed.

(** Names below a path that is no system root lead into no system root, except
    below the null device. *)
Lemma forbidden_extend q ns :
  normal_abs q = true → is_forbidden_system_root q = false →
  is_forbidden_system_root (q ++ ns) = false ∨ q = components "/dev/null".
Proof.
  intros Hn. unfold is_forbidden_system_root. case_bool_decide as Hroot; [done|].
  destruct (existsb _ system_roots) eqn:Es; [done|]. intros Hdev.
  change (components "/dev") with [RootDir; Normal "dev"] in *.
  rewrite starts_with_short by done.
  destruct (path_starts_with q [RootDir; Normal "dev"]) eqn:Ed.
  { right. simpl in Hdev. apply negb_false_iff, bool_decide_eq_true in Hdev. done. }
  left. rewrite bool_decide_eq_false_2 by (destruct q as [|[] [|? q]]; try discriminate; done).
  match goal with |- context [existsb ?f system_roots] =>
    destruct (existsb f system_roots) eqn:E' end; [|done].
  apply existsb_true in E' as (sp & Hsp & Hc). rewrite existsb_false, Forall_forall in Es.
  specialize (Es sp Hsp). destruct (system_roots_short sp Hsp) as [n ->].
  apply orb_true_iff in Hc as [Hc|Hc].
  - apply bool_decide_eq_true in Hc. apply orb_false_iff in Es as [Es1 Es2].
    rewrite <-(starts_with_short q ns n) in Es2 by done.
    rewrite Hc in Es2. simpl in Es2. by rewrite bool_decide_eq_true_2 in Es2.
  - rewrite starts_with_short in Hc by done. by rewrite Hc, orb_true_r in Es.
Qed.

Lemma push_normal ws p :
  normal_abs ws = true → path_wf p = true → is_absolute p = false →
  existsb is_parent p = false → normal_abs (push ws p) = true.
Proof.
  intros Hws Hwf Hrel Hpar. rewrite push_relative; [|by destruct ws|done].
  apply normal_abs_app; [done|]. by apply relative_names.
Qed.

(** An absolute path without [..] is normal. *)
Lemma absolute_normal p :
  path_wf p = true → is_absolute p = true → existsb is_parent p = false →
  normal_abs p = true.
Proof.
  destruct p as [|[] p]; try discriminate. simpl. intros Hwf _ Hpar.
  unfold names_only, path_tail_ok in *. induction p as [|c p IH]; [done|]. simpl in *. to_prop.
  destruct c; try discriminate. simpl. by apply IH.
Qed.

(** One accepted write target: a normal absolute path that leaves the
    protected system roots alone (the null device is a permitted root). *)
Definition write_root_ok (w : path) : Prop :=
  normal_abs w = true
  ∧ (is_forbidden_system_root w = false ∨ path_starts_with w (components "/dev/null") = true).

Lemma effective_write_ok exists_ canonicalize `{!FsLaws exists_ canonicalize} ws p w :
  normal_abs ws = true → path_wf p = true → existsb is_parent p = false →
  effective_write exists_ canonicalize ws p = Ok w → write_root_ok w.
Proof.
  intros Hws Hwf Hpar. unfold effective_write. cbv zeta.
  assert (normal_abs (if negb (is_absolute p) then push ws p else p) = true) as Hn.
  { destruct (is_absolute p) eqn:E; simpl; [by apply absolute_normal|by apply push_normal]. }
  destruct (is_forbidden_system_root _); [done|].
  match goal with |- context [ascend exists_ ?rc ?s] =>
    destruct (ascend_normal exists_ rc s root_exists) as (a & ns & -> & Ha & Hns & _) end;
    [by rewrite rev_involutive|done|].
  destruct (exists_canonicalizes a Ha) as [q Hq]. rewrite Hq. simpl.
  destruct (is_forbidden_system_root q) eqn:Ef; [done|].
  destruct (_ && _ && _); [done|]. intros [= <-].
  pose proof (canonicalize_normal a q Hq) as Hqn.
  rewrite push_all_names by done. pose proof (normal_abs_app q ns Hqn Hns) as Hqns.
  rewrite lexical_normalize_fixed by done. split; [done|].
  destruct (forbidden_extend q ns Hqn Ef) as [?| ->]; [by left|right].
  apply path_starts_with_spec. by exists ns.
Qed.

Lemma effective_writes_ok exists_ canonicalize `{!FsLaws exists_ canonicalize} ws writes acc out :
  normal_abs ws = true →
  (∀ p, p ∈ writes → path_wf p = true ∧ existsb is_parent p = false) →
  (∀ w, w ∈ acc → write_root_ok w) →
  effective_writes exists_ canonicalize ws acc writes = Ok out →
  ∀ w, w ∈ out → write_root_ok w.
Proof.
  intros Hws. revert acc. induction writes as [|p writes IH]; simpl; intros acc Hp Hacc.
  { by intros [= <-]. }
  destruct (effective_write _ _ ws p) as [w|] eqn:E; [|done]. apply IH.
  - intros p' Hp'. apply Hp. by right.
  - intros w' [?| ->]%push_new_elem; [by apply Hacc|].
    destruct (Hp p) as [? ?]; [left|]. by eapply effective_write_ok.
Qed.

Lemma mask_conflict_false exempt w m :
  mask_conflict exempt w m = false →
  w ≠ m ∧ path_starts_with w m = false ∧ (w ∉ exempt → path_starts_with m w = false).
Proof.
  unfold mask_conflict. repeat case_bool_decide; simpl; try done.
  - rewrite orb_false_r. intros. split_and!; [done|done|]. intros ?. contradiction.
  - rewrite orb_false_iff. intros [? ?]. done.
Qed.

Section CompileFacts.
Context `{C : ContractCodec}.

(** What an accepted input passed, and what the contract then holds. *)
Lemma compile_effective_inv exists_ canonicalize home version input c :
  compile_effective exists_ canonicalize home version input = Ok c →
  ∃ argv0 args writes pids,
    argv input = argv0 :: args ∧ is_empty argv0 = false ∧ is_empty (nonce input) = false
    ∧ check_traversal "Read" (allow_read (in_policy input)) = Ok tt
    ∧ check_traversal "Write" (allow_write (in_policy input)) = Ok tt
    ∧ effective_writes exists_ canonicalize (cwd input) [] (allow_write (in_policy input))
      = Ok writes
    ∧ check_pairs "secret mask" (mask_conflict [cwd input; components "/tmp"]) writes
        (effective_masks home (cwd input) (in_policy input)) = Ok tt
    ∧ check_pairs "explicit deny_write" (λ w d, bool_decide (w = d) || path_starts_with w d)
        writes (deny_write (in_policy input)) = Ok tt
    ∧ resolve_max_pids (in_policy input) = Ok pids
    ∧ default 0 (timeout input) / 1000000 ≤ u64_max
    ∧ filesystem c = mk_fs (cwd input) (normalize_reads (cwd input) (allow_read (in_policy input)))
        writes (effective_execute (components argv0))
        (effective_masks home (cwd input) (in_policy input)) (snapshot (in_policy input)) false
        (shadow (in_policy input))
    ∧ max_pids (resources c) = pids
    ∧ max_wall_time_ms (resources c) = default 0 (timeout input) / 1000000
    ∧ seal (unsealed c) = Ok c.
Proof.
  unfold compile_effective. destruct (argv input) as [|argv0 args]; [done|].
  destruct (is_empty argv0 || is_empty (nonce input)) eqn:E; [done|].
  apply orb_false_iff in E as [? ?].
  destruct (check_traversal "Read" _) as [[]|] eqn:?; [|done]. cbn [mbind result_bind].
  destruct (check_traversal "Write" _) as [[]|] eqn:?; [|done]. cbn [mbind result_bind].
  destruct (effective_writes _ _ _ _ _) as [writes|] eqn:?; [|done]. cbn [mbind result_bind].
  destruct (check_pairs "secret mask" _ _ _) as [[]|] eqn:?; [|done]. cbn [mbind result_bind].
  destruct (check_pairs "explicit deny_write" _ _ _) as [[]|] eqn:?; [|done].
  cbn [mbind result_bind]. destruct (network_inputs _) as [[mode domains] ports].
  destruct (resolve_max_pids _) as [pids|] eqn:?; [|done]. cbn [mbind result_bind].
  destruct (Z.leb_spec (default 0 (timeout input) / 1000000) u64_max); [|done].
  cbn [mbind result_bind].
  destruct (seal _) as [c'|] eqn:Hseal; [|done]. intros [= <-].
  destruct (seal_ok _ _ Hseal) as [Hu _].
  assert (seal (unsealed c') = Ok c') as Hs by (by rewrite Hu).
  exists argv0, args, writes, pids. unfold unsealed in Hu. injection Hu as ? ? ? ? ? Hf ? Hr ? ? ?.
  rewrite Hf, Hr. by split_and!.
Qed.

(** ** Properties *)

(** The write roots of a compiled contract: absolute paths without [.] or
    [..] outside the protected system roots (the null device apart), none equal
    to, below or - the workspace and /tmp apart - above a secret mask, and none
    below an explicit [deny_write] entry. *)
Theorem compile_effective_writes exists_ canonicalize `{!FsLaws exists_ canonicalize}
    home version input c :
  normal_abs (cwd input) = true →
  (∀ p, p ∈ allow_write (in_policy input) → path_wf p = true) →
  compile_effective exists_ canonicalize home version input = Ok c →
  ∀ w, w ∈ fs_allow_write (filesystem c) →
    write_root_ok w
    ∧ (∀ m, m ∈ mask_paths (filesystem c) →
         path_starts_with w m = false
         ∧ (w ≠ cwd input → w ≠ components "/tmp" → path_starts_with m w = false))
    ∧ (∀ d, d ∈ deny_write (in_policy input) → path_starts_with w d = false).
Proof.
  intros Hcwd Hwf H w Hw.
  destruct (compile_effective_inv _ _ _ _ _ _ H)
    as (argv0 & args & writes & pids & _ & _ & _ & _ & Hct & Hew & Hmask & Hdeny & _ & _
        & Hfs & _).
  rewrite Hfs in *. simpl in *. split_and!.
  - eapply (effective_writes_ok exists_ canonicalize (cwd input)); [done| |
      intros ? Hin; by apply elem_of_nil in Hin|exact Hew|done].
    intros p Hp. split; [by apply Hwf|]. by eapply check_traversal_Ok.
  - intros m Hm. rewrite check_pairs_Ok in Hmask. specialize (Hmask w m Hw Hm).
    apply mask_conflict_false in Hmask as (_ & ? & Hex). split; [done|]. intros ? ?.
    apply Hex. rewrite !not_elem_of_cons. split_and!; [done..|apply not_elem_of_nil].
  - intros d Hd. rewrite check_pairs_Ok in Hdeny. specialize (Hdeny w d Hw Hd).
    by apply orb_false_iff in Hdeny as [_ ?].
Qed.

(** C8: From policy to gate, end to end: every contract that [compile_effective]
    returns passes verification as it is, and with it the gate authorises no
    read, write or execution at or below the user's SSH, AWS and GnuPG
    directories, the workspace's [.env] and [.git/config], or a resolved deny
    entry of the policy. *)
Theorem compiled_contract_guards_secrets `{!CodecLaws C} exists_ canonicalize
    home version input c :
  compile_effective exists_ canonicalize home version input = Ok c →
  verify_sealed c = Ok tt
  ∧ ∀ a p m,
      (a = FsRead p ∨ a = FsWrite p ∨ ∃ args, a = ProcessExec p args) →
      authorize_action c a = Allowed →
      m ∈ [push (default (components "/root") home) (components ".ssh");
           push (default (components "/root") home) (components ".aws");
           push (default (components "/root") home) (components ".gnupg");
           push (cwd input) (components ".env");
           push (cwd input) (components ".git/config")]
      ∨ m ∈ deny_path <$> deny_resolved (in_policy input) →
      ¬ below m (resolved c p).
Proof.
  intros H. destruct (compile_effective_inv _ _ _ _ _ _ H)
    as (argv0 & args & writes & pids & _ & _ & _ & _ & _ & _ & _ & _ & _ & _ & Hfs & _ & _ & Hs).
  split; [by apply verify_sealed_ok; destruct (seal_ok _ _ Hs) as [_ ?]|].
  intros a p m Ha Hok Hm. assert (m ∈ mask_paths (filesystem c)) as Hin.
  { rewrite Hfs. simpl. unfold effective_masks. rewrite fold_push_new_elem. by destruct Hm; [right|left]. }
  destruct Ha as [->|[->|[args' ->]]]; simpl in Hok.
  - apply fs_read_allowed in Hok as (_ & _ & Hok & _). apply Hok, elem_of_app. by left.
  - apply fs_write_allowed in Hok as (_ & _ & Hok & _). apply Hok, elem_of_app. by left.
  - apply process_exec_allowed in Hok as (_ & _ & Hok & _). by apply Hok.
Qed.
End CompileFacts.

(** A sample file system: every absolute path exists and canonicalises lexically. *)
Definition demo_exists (p : path) : bool := is_absolute p && path_wf p.
Definition demo_canonicalize (p : path) : option path :=
  if is_absolute p && path_wf p then Some (lexical_normalize p) else None.

Definition sample_policy : Policy := {|
  policy_name := "claude"; metadata := default_metadata; limits := default_limits;
  allow_write := [components "target"; components "/home/user/work"];
  allow_read := [components "/usr"; components "src"]; deny_write := [components "/home/user/x"];
  deny_read := []; deny_resolved := [mk_deny (components "/home/user/.netrc") false];
  environment := default_env; deny_network := false; network_mode := None; network_allow := [];
  allow_cidr := []; net_quota := ∅; net_bind_ports := []; net_connect_ports := [];
  allow_unix_sockets := []; deny_unix_sockets := []; seccomp_profile := DefaultProfile;
  seccomp_notify := None; cgroup := None; cpu_max := None; io_priority := None;
  dev_allow := None; oslog := false; lpac := false; is_immutable := false;
  system_log := false; auto_deny_secrets := false; secret_proxies := []; ro_mounts := [];
  git_guard := false; snapshot := false; read_only_caches := false; shadow := false;
  tmpfs_tmp := true; warnings := [] |}.
Definition sample_input (net : NetMode) : EffectivePolicyInput :=
  mk_input sample_policy ["/usr/bin/claude"; "run"] (components "/workspace") ∅ net "n1" None
    None "linux" false None.
Definition sample_compiled (net : NetMode) : result CompilerError SecurityContract :=
  @compile_effective demo_codec demo_exists demo_canonicalize (Some (components "/home/user"))
    "0.6.3" (sample_input net).

Lemma demo_fs_laws : FsLaws demo_exists demo_canonicalize.
Proof.
  split; unfold demo_exists, demo_canonicalize.
  - intros p q. destruct (is_absolute p) eqn:Ha; [|done]. destruct (path_wf p) eqn:Hw; [|done].
    intros [= <-]. by apply lexical_normalize_abs.
  - intros p ->. by eexists.
  - done.
Qed.

(** The contract the sample input compiles to. *)
Definition compiled_or (net : NetMode) : SecurityContract :=
  match sample_compiled net with Ok c => c | Err _ => sample_contract "a" end.

Lemma compile_effective_writes_witness :
  write_root_ok (components "/workspace/target")
  ∧ path_starts_with (components "/workspace/target") (components "/home/user/.ssh") = false.
Proof.
  destruct (@compile_effective_writes demo_codec demo_exists demo_canonicalize demo_fs_laws
    (Some (components "/home/user")) "0.6.3" (sample_input NetOff) (compiled_or NetOff))
    with (w := components "/workspace/target") as (Hok & Hm & _).
  - reflexivity.
  - intros p Hp. unfold sample_input, sample_policy in Hp. simpl in Hp.
    repeat (apply elem_of_cons in Hp as [->|Hp]; [reflexivity|]). by apply elem_of_nil in Hp.
  - vm_compute. reflexivity.
  - apply (bool_decide_unpack _). vm_compute. exact I.
  - split; [exact Hok|]. refine (proj1 (Hm (components "/home/user/.ssh") _)).
    apply (bool_decide_unpack _). vm_compute. exact I.
Defined.

Lemma compiled_contract_guards_secrets_witness :
  @verify_sealed demo_codec (compiled_or NetOff) = Ok tt
  ∧ ¬ below (components "/home/user/.ssh") (resolved (compiled_or NetOff) (components "target/a.o")).
Proof.
  destruct (@compiled_contract_guards_secrets demo_codec demo_codec_laws demo_exists
    demo_canonicalize (Some (components "/home/user")) "0.6.3" (sample_input NetOff)
    (compiled_or NetOff)) as [Hv Hm]; [vm_compute; reflexivity|].
  split; [exact Hv|].
  apply (Hm (FsWrite (components "target/a.o"))); [by right; left|vm_compute; reflexivity|].
  left. left.
Defined.

(** Strict rules pair a domain with a port; the contract keeps the two lists
    apart, so the gate authorises every allowed domain on every allowed port.
    The broker's rule test keeps the pairs. *)
Lemma strict_rules_lose_pairing :
  authorize_action
    (compiled_or (NetStrict [mk_net_rule "a.example" 443; mk_net_rule "b.example" 22]))
    (NetConnect "a.example" 22) = Allowed.
Proof. vm_compute. reflexivity. Qed.

(** ** Resource bounds *)

Definition cgroup_pids (p : Policy) : option Z :=
  cgroup_field pids_max p ≫= λ s,
    if eq_ignore_ascii_case (trim s) "max" then None else parse_u64 (trim s).

Lemma positive_Some o v : positive o = Some v ↔ o = Some v ∧ 0 < v.
Proof.
  unfold positive. destruct o as [w|]; [|split; [done|by intros [? _]]].
  destruct (Z.ltb_spec 0 w); split; [intros [= ->]; done|by intros [[= ->] _]|done|].
  intros [[= ->] ?]. lia.
Qed.

(** The process limit of a contract: zero when the policy configures no
    positive limit, otherwise the smallest configured one; a limit that does
    not fit the contract's 32 bits is an error, never truncated. *)
Theorem resolve_max_pids_spec p :
  let limit v := (processes (limits p) = Some v ∨ cgroup_pids p = Some v) ∧ 0 < v in
  match resolve_max_pids p with
  | Ok v => v ≤ u32_max ∧ (∀ l, limit l → v ≤ l)
            ∧ (v = 0 ∧ (∀ l, ¬ limit l) ∨ limit v)
  | Err _ => ∃ v, limit v ∧ u32_max < v ∧ ∀ l, limit l → v ≤ l
  end.
Proof.
  intros limit. unfold resolve_max_pids. fold (cgroup_pids p).
  assert (∀ v, limit v ↔ positive (processes (limits p)) = Some v
                         ∨ positive (cgroup_pids p) = Some v) as Hl
    by (intros v; unfold limit; rewrite !positive_Some; intuition).
  clearbody limit.
  set (v := match positive (processes (limits p)) with Some _ => _ | None => _ end).
  assert ((∀ l, positive (processes (limits p)) = Some l ∨ positive (cgroup_pids p) = Some l
                → v ≤ l)
    ∧ (v = 0 ∧ (∀ l, ¬ (positive (processes (limits p)) = Some l
                        ∨ positive (cgroup_pids p) = Some l))
       ∨ positive (processes (limits p)) = Some v ∨ positive (cgroup_pids p) = Some v))
    as [Hmin Hval].
  { unfold v. destruct (positive (processes (limits p))) as [a|],
      (positive (cgroup_pids p)) as [b|]; split.
    all: try (intros l [[= <-]|[= <-]]; lia).
    all: try (left; split; [done|intros l [?|?]; done]).
    all: right; try (by left); try (by right).
    destruct (Z.min_spec a b) as [[_ ->]|[_ ->]]; [by left|by right]. }
  clearbody v. setoid_rewrite <-Hl in Hmin. setoid_rewrite <-Hl in Hval.
  destruct (Z.leb_spec v u32_max); [done|]. exists v. split_and!; [|done|done].
  destruct Hval as [[-> _]|?]; [|done]. by compute in H.
Qed.

(** ** The request-oriented compiler *)


Lemma rebase_normal ws p :
  normal_abs ws = true → path_wf p = true → existsb is_parent p = false →
  normal_abs (rebase ws p) = true.
Proof.
  intros Hws Hwf Hpar. unfold rebase. destruct (is_absolute p) eqn:E; [by apply absolute_normal|].
  pose proof (relative_names p Hwf E Hpar) as Hn.
  unfold drop_cur. rewrite push_all_names by done. by apply normal_abs_app.
Qed.

Lemma request_write_ok exists_ canonicalize `{!FsLaws exists_ canonicalize} io ws p w :
  normal_abs ws = true → path_wf p = true →
  request_write exists_ canonicalize io ws p = Ok w →
  normal_abs w = true ∧ path_starts_with w ws = true.
Proof.
  intros Hws Hwf. unfold request_write.
  destruct (check_traversal "Write" [p]) as [[]|] eqn:Ht; [|done]. cbn [mbind result_bind].
  assert (existsb is_parent p = false) as Hpar by (eapply check_traversal_Ok; [done|left]).
  match goal with |- context [ascend exists_ ?rc ?s] =>
    destruct (ascend_normal exists_ rc s root_exists) as (a & ns & -> & Ha & Hns & _) end;
    [by rewrite rev_involutive; apply rebase_normal|done|].
  destruct (exists_canonicalizes a Ha) as [q Hq]. rewrite Hq. cbn [ok_or mbind result_bind].
  destruct (path_starts_with q ws) eqn:Es; [|done]. intros [= <-].
  pose proof (canonicalize_normal a q Hq) as Hqn. rewrite push_all_names by done.
  split; [by apply normal_abs_app|].
  apply path_starts_with_spec in Es as [r ->]. apply path_starts_with_spec.
  exists (r ++ ns). by rewrite app_assoc.
Qed.

Lemma request_writes_ok exists_ canonicalize `{!FsLaws exists_ canonicalize} io ws writes out :
  normal_abs ws = true → (∀ p, p ∈ writes → path_wf p = true) →
  request_writes exists_ canonicalize io ws writes = Ok out →
  ∀ w, w ∈ out → normal_abs w = true ∧ path_starts_with w ws = true.
Proof.
  intros Hws. revert out. induction writes as [|p writes IH]; simpl; intros out Hp.
  { intros [= <-] w Hw. by apply elem_of_nil in Hw. }
  destruct (request_write _ _ _ ws p) as [w0|] eqn:E; [|done]. cbn [mbind result_bind].
  destruct (request_writes _ _ _ ws writes) as [rest|]; [|done]. cbn [mbind result_bind].
  intros [= <-] w [->|Hw]%elem_of_cons.
  - eapply (request_write_ok exists_ canonicalize); [done|apply Hp; left|done].
  - eapply IH; [|done|done]. intros p' ?. apply Hp. by right.
Qed.

(** The request-oriented compiler contains every write target in the
    canonical workspace, symbolic links of existing ancestors included, refuses
    the secret masks and their ancestors below the workspace root, keeps
    networking off unless the caller asks for it, and returns a contract that
    verifies. *)
Theorem compile_contains_writes `{C : ContractCodec} `{!CodecLaws C}
    exists_ canonicalize `{!FsLaws exists_ canonicalize}
    home version io session agent workspace_raw net reads writes c :
  (∀ p, p ∈ writes → path_wf p = true) →
  compile exists_ canonicalize home version io session agent workspace_raw net reads writes
    = Ok c →
  canonicalize workspace_raw = Some (workspace_root (filesystem c))
  ∧ (∀ w, w ∈ fs_allow_write (filesystem c) →
       normal_abs w = true ∧ path_starts_with w (workspace_root (filesystem c)) = true
       ∧ ∀ m, m ∈ mandatory_masks home (workspace_root (filesystem c)) →
           path_starts_with w m = false
           ∧ (w ≠ workspace_root (filesystem c) → path_starts_with m w = false))
  ∧ net_mode (network c) = default NmOff net
  ∧ verify_sealed c = Ok tt.
Proof.
  intros Hp. unfold compile.
  destruct (canonicalize workspace_raw) as [ws|] eqn:Hc; [|done]. cbn [ok_or mbind result_bind].
  destruct (request_reads _ ws reads) as [rs|]; [|done]. cbn [mbind result_bind].
  destruct (request_writes _ _ _ ws writes) as [out|] eqn:Hw; [|done]. cbn [mbind result_bind].
  destruct (check_pairs _ _ _ _) as [[]|] eqn:Hm; [|done]. cbn [mbind result_bind].
  destruct (seal _) as [c'|] eqn:Hs; [|done]. intros [= <-].
  destruct (seal_ok _ _ Hs) as [Hu Hd]. rewrite <-Hu in Hd. apply verify_sealed_ok in Hd.
  unfold unsealed in Hu. injection Hu as ? ? ? ? ? Hfs Hnet ? ? ? ?. rewrite Hfs, Hnet. simpl.
  split_and!; [done| |done|done]. intros w Hin.
  destruct (request_writes_ok exists_ canonicalize io ws writes out) with (w := w) as [? ?];
    [by eapply canonicalize_normal|done|done|by apply sort_dedup_elem|].
  split_and!; [done|done|]. intros m Hmask. rewrite check_pairs_Ok in Hm.
  destruct (mask_conflict_false _ _ _ (Hm w m Hin Hmask)) as (_ & ? & Hex).
  split; [done|]. intros Hne. apply Hex. by rewrite list_elem_of_singleton.
Qed.

Definition sample_request : result CompilerError SecurityContract :=
  @compile demo_codec demo_exists demo_canonicalize (Some (components "/home/user")) "0.6.3"
    to_str "0123456789abcdef0123456789abcdef" "claude" (components "/w") None
    [components "src"] [components "out/new.txt"].

Lemma compile_contains_writes_witness :
  match sample_request with
  | Ok c => path_starts_with (components "/w/out/new.txt") (workspace_root (filesystem c)) = true
  | Err _ => False
  end.
Proof.
  destruct sample_request as [c|e] eqn:E; [|vm_compute in E; discriminate E].
  assert (∀ p, p ∈ [components "out/new.txt"] → path_wf p = true) as Hp
    by (intros p ->%list_elem_of_singleton; reflexivity).
  destruct (@compile_contains_writes demo_codec demo_codec_laws demo_exists demo_canonicalize
    demo_fs_laws _ _ _ _ _ _ _ _ _ c Hp E) as (_ & Hw & _).
  apply Hw. assert (fs_allow_write (filesystem c) = [components "/w/out/new.txt"]) as ->.
  { vm_compute in E. injection E as <-. reflexivity. }
  left.
Defined.
