(* ===== verification/Plan.v ===== *)
(** * Plan: normalised policy requests

    Model of the compile/validate/normalize part of [src/src/policy_ir/mod.rs]:
    a requested policy becomes a sorted, duplicate-free plan whose write roots
    are all covered by read roots. *)

From S2P Require Import Prelude.

Inductive SecurityLevel : Type := Strict | Standard | Permissive.
#[export] Instance SecurityLevel_eq_dec : EqDecision SecurityLevel.
Proof. solve_decision. Defined.

Definition level_label (l : SecurityLevel) : string :=
  match l with Strict => "STRICT" | Standard => "STANDARD" | Permissive => "PERMISSIVE" end.

(** [RequestedPolicy] and [CompiledPolicy] have the same fields. *)
Record RequestedPolicy : Type := mk_request {
  req_level : SecurityLevel;
  req_allow_read : list string;
  req_allow_write : list string;
}.
Record CompiledPolicy : Type := mk_compiled {
  level : SecurityLevel;
  plan_allow_read : list string;
  plan_allow_write : list string;
}.

(** One entry: trimmed, without trailing slashes; [None] for a blank one. *)
Definition normalize_entry (p : string) : option string :=
  let t := trim p in
  if is_empty t then None
  else let t := trim_end_char "/" t in Some (if is_empty t then "/" else t).

Definition normalize (paths : list string) : list string :=
  fold_left (λ seen p, match normalize_entry p with
                       | Some t => insert_sorted t seen
                       | None => seen
                       end) paths [].

Definition under (p root : string) : bool :=
  if String.eqb root "/" then starts_with p "/"
  else String.eqb p root || starts_with p (root +:+ "/").

Definition validate (c : CompiledPolicy) : result string unit :=
  try_each (λ w,
    if existsb (under w) (plan_allow_read c) then Ok tt
    else Err ("policy_ir: allow_write '" +:+ w +:+ "' is not under any allow_read root"))
    (plan_allow_write c).

Definition compile (req : RequestedPolicy) : result string CompiledPolicy :=
  let reads := normalize (req_allow_read req) in
  let writes := normalize (req_allow_write req) in
  if existsb (λ p, String.eqb p "/") writes then
    Err ("policy_ir: allow_write contains filesystem root " +:+ ch1 34 +:+ "/" +:+ ch1 34)
  else if negb (bool_decide (req_level req = Permissive))
          && existsb (λ p, String.eqb p "/") reads then
    Err ("policy_ir: allow_read contains filesystem root " +:+ ch1 34 +:+ "/" +:+ ch1 34
         +:+ " without PERMISSIVE level")
  else
    let compiled := mk_compiled (req_level req) reads writes in
    _ ← validate compiled; Ok compiled.

(** ** Lemmas *)

Lemma normalize_spec paths :
  ascending (normalize paths)
  ∧ ∀ t, t ∈ normalize paths ↔ ∃ p, p ∈ paths ∧ normalize_entry p = Some t.
Proof.
  unfold normalize. assert (∀ acc, ascending acc →
    let r := fold_left (λ seen p, match normalize_entry p with
                       | Some t => insert_sorted t seen | None => seen end) paths acc in
    ascending r ∧ ∀ t, t ∈ r ↔ t ∈ acc ∨ ∃ p, p ∈ paths ∧ normalize_entry p = Some t) as H.
  { induction paths as [|p paths IH]; intros acc Hacc; simpl.
    - split; [done|]. intros t. split; [by left|]. intros [?|(p & Hp & _)]; [done|].
      by apply elem_of_nil in Hp.
    - destruct (IH (match normalize_entry p with
                    | Some t => insert_sorted t acc | None => acc end)) as [Ha Hel].
      { destruct (normalize_entry p); [by apply insert_sorted_ascending|done]. }
      split; [done|]. intros t. rewrite Hel. setoid_rewrite elem_of_cons.
      destruct (normalize_entry p) as [u|] eqn:E.
      + rewrite insert_sorted_elem. split.
        * intros [[->|?]|(q & ? & ?)]; [right; exists p; auto|by left|right; exists q; auto].
        * intros [?|(q & [->|?] & Hq)]; [by left; right|left; left; congruence|right; eauto].
      + split; [intros [?|(q & ? & ?)]; [by left|right; exists q; auto]|].
        intros [?|(q & [->|?] & Hq)]; [by left|congruence|right; eauto]. }
  destruct (H [] I) as [Ha Hel]. split; [done|]. intros t. rewrite Hel, elem_of_nil.
  intuition.
Qed.

Lemma validate_Ok c :
  validate c = Ok tt ↔
  ∀ w, w ∈ plan_allow_write c → ∃ r, r ∈ plan_allow_read c ∧ under w r = true.
Proof.
  unfold validate. rewrite try_each_Ok, Forall_forall. setoid_rewrite <-existsb_true.
  split; intros H w Hw; specialize (H w Hw); by destruct (existsb _ _).
Qed.

Lemma has_root_entry (l : list string) : existsb (λ p, String.eqb p "/") l = true ↔ "/" ∈ l.
Proof.
  rewrite existsb_true. setoid_rewrite String.eqb_eq.
  split; [by intros (x & ? & ->)|by exists "/"].
Qed.

Lemma normalize_entry_nonempty p t : normalize_entry p = Some t → t ≠ EmptyString.
Proof.
  unfold normalize_entry. cbv zeta. destruct (is_empty (trim p)); [done|].
  destruct (is_empty (trim_end_char "/" (trim p))) eqn:E; intros [= <-]; [done|].
  intros Ht. rewrite Ht in E. discriminate E.
Qed.

(** ** Properties *)

(** The request compiler succeeds exactly when neither the file-system root
    is requested for writing, nor for reading below the permissive level, and
    every write root lies under a read root; the plan then holds the sorted,
    duplicate-free, non-empty normalised entries of the request. *)
Theorem plan_compile_spec req c :
  compile req = Ok c ↔
  c = mk_compiled (req_level req) (normalize (req_allow_read req)) (normalize (req_allow_write req))
  ∧ "/" ∉ plan_allow_write c
  ∧ (level c = Permissive ∨ "/" ∉ plan_allow_read c)
  ∧ (∀ w, w ∈ plan_allow_write c → ∃ r, r ∈ plan_allow_read c ∧ under w r = true)
  ∧ ascending (plan_allow_read c) ∧ ascending (plan_allow_write c)
  ∧ "" ∉ plan_allow_read c ∧ "" ∉ plan_allow_write c.
Proof.
  assert (∀ l, "" ∉ normalize l) as Hne.
  { intros l Hin. apply normalize_spec in Hin as (p & _ & Hp).
    by apply normalize_entry_nonempty in Hp. }
  unfold compile. set (r := normalize (req_allow_read req)).
  set (w := normalize (req_allow_write req)).
  pose proof (has_root_entry w) as Hw. pose proof (has_root_entry r) as Hr.
  destruct (existsb _ w).
  { split; [done|]. intros (-> & Hn & _). destruct Hn. by apply Hw. }
  case_bool_decide as Hl; simpl.
  - destruct (validate _) as [[]|] eqn:Hv; cbn [mbind result_bind].
    + split; [|by intros [-> _]]. intros [= <-].
      rewrite validate_Ok in Hv. simpl in *. split_and!; try apply normalize_spec; try apply Hne;
        [done|by rewrite <-Hw|by left|done].
    + split; [done|]. intros (-> & _ & _ & Hc & _). by rewrite <-validate_Ok, Hv in Hc.
  - destruct (existsb _ r).
    { split; [done|]. intros (-> & _ & [?|Hn] & _); [done|]. destruct Hn. by apply Hr. }
    destruct (validate _) as [[]|] eqn:Hv; cbn [mbind result_bind].
    + split; [|by intros [-> _]]. intros [= <-].
      rewrite validate_Ok in Hv. simpl in *. split_and!; try apply normalize_spec; try apply Hne;
        [done|by rewrite <-Hw|right; by rewrite <-Hr|done].
    + split; [done|]. intros (-> & _ & _ & Hc & _). by rewrite <-validate_Ok, Hv in Hc.
Qed.
