(* ===== verification/Verdict.v ===== *)
(** * Verdict: the verdict engine

    Model of [src/src/audit/verdict.rs]: the two-dimensional verdict, the
    truth table of [evaluate_with_strength], the recommended actions and the
    signature check, on Unix.  Hex decoding slices a [str] by byte offsets, so
    it can panic inside a multi-byte character. *)

From S2P Require Import Prelude Blake3 Contract.

Inductive VerdictStatus : Type := Pass | Fail | StInconclusive | StNotApplicable.
#[export] Instance VerdictStatus_eq_dec : EqDecision VerdictStatus.
Proof. solve_decision. Defined.
Definition status_label (s : VerdictStatus) : string :=
  match s with
  | Pass => "PASS" | Fail => "FAIL" | StInconclusive => "INCONCLUSIVE"
  | StNotApplicable => "NOT_APPLICABLE"
  end.

Inductive SecurityVerdict : Type := Satisfied | Violated | Inconclusive | NotApplicable.
#[export] Instance SecurityVerdict_eq_dec : EqDecision SecurityVerdict.
Proof. solve_decision. Defined.
Definition security_label (s : SecurityVerdict) : string :=
  match s with
  | Satisfied => "SATISFIED" | Violated => "VIOLATED" | Inconclusive => "INCONCLUSIVE"
  | NotApplicable => "NOT_APPLICABLE"
  end.

Inductive EvidenceStrength : Type := Strong | Partial | Unsupported.
#[export] Instance EvidenceStrength_eq_dec : EqDecision EvidenceStrength.
Proof. solve_decision. Defined.
Definition strength_label (s : EvidenceStrength) : string :=
  match s with Strong => "STRONG" | Partial => "PARTIAL" | Unsupported => "UNSUPPORTED" end.

Record FinalVerdict : Type := mk_verdict {
  status : VerdictStatus;
  strength : EvidenceStrength;
  security_verdict : SecurityVerdict;
  exit_code : Z;
  reason : string;
}.

Definition with_status (st : VerdictStatus) (strength : EvidenceStrength) (exit_code : Z)
    (reason : string) : FinalVerdict :=
  mk_verdict st strength
    (match st with
     | Pass => Satisfied | Fail => Violated | StInconclusive => Inconclusive
     | StNotApplicable => NotApplicable
     end) exit_code reason.

Definition display_badge (v : FinalVerdict) : string :=
  status_label (status v) +:+ " [" +:+ strength_label (strength v) +:+ "]".
Definition security_badge (v : FinalVerdict) : string :=
  security_label (security_verdict v) +:+ " [" +:+ strength_label (strength v) +:+ "]".

Definition recommended_action (v : FinalVerdict) : string :=
  match security_verdict v, strength v with
  | Satisfied, Strong => "Commit CoW changes to host workspace."
  | Satisfied, Partial => "Commit CoW changes to host workspace with partial warning."
  | Satisfied, Unsupported => "Invalid verdict: unsupported platform cannot pass."
  | Violated, _ => "Wipe CoW layer; abort session immediately."
  | Inconclusive, _ => "Wipe CoW layer; audit ledger inconclusive."
  | NotApplicable, _ => "Execution aborted pre-launch."
  end.

Definition is_success (v : FinalVerdict) : bool :=
  bool_decide (security_verdict v = Satisfied) && bool_decide (status v = Pass)
  && negb (bool_decide (strength v = Unsupported)) && (exit_code v =? 0).
Definition is_contract_satisfied (v : FinalVerdict) : bool :=
  bool_decide (security_verdict v = Satisfied) && negb (bool_decide (strength v = Unsupported)).

(** ** Hex decoding *)

(** A UTF-8 continuation byte: not a character boundary. *)
Definition is_continuation (c : ascii) : bool :=
  let n := Ascii.nat_of_ascii c in (128 <=? n)%nat && (n <=? 191)%nat.
Definition at_boundary (s : string) : bool :=
  match s with EmptyString => true | String c _ => negb (is_continuation c) end.

(** Two bytes at a time; the offset is the index in the error message. *)
Fixpoint decode_pairs (i : Z) (s : string) : outcome (result string (list Z)) :=
  match s with
  | String a (String b rest) =>
      if negb (at_boundary s && at_boundary rest) then Panic
      else match from_str_radix 16 u8_max (String a (String b EmptyString)) with
           | None => Done (Err ("invalid hex byte at index " +:+ to_dec i
                                +:+ ": invalid digit found in string"))
           | Some v =>
               r ← decode_pairs (i + 2) rest;
               Done (match r with Ok vs => Ok (v :: vs) | Err e => Err e end)
           end
  | _ => Done (Ok [])
  end.

Definition decode_hex (s : string) : outcome (result string (list Z)) :=
  let s := trim s in
  if negb (Nat.even (String.length s)) then Done (Err "hex string must have even length")
  else decode_pairs 0 s.

(** ** Signature check *)

Section Verify.
Context `{ContractCodec}.

Definition bind_hex (o : outcome (result string (list Z)))
    (f : list Z → outcome (result string unit)) : outcome (result string unit) :=
  r ← o; match r with Ok bytes => f bytes | Err e => Done (Err e) end.

Definition verify_contract_signature (contract : SecurityContract) : outcome (result string unit) :=
  match signature (crypto contract) with
  | None => Done (Err "cryptographic signature is missing from contract")
  | Some sig_hex =>
      if is_empty (trim sig_hex) then Done (Err "cryptographic signature is empty")
      else match public_key (crypto contract) with
      | None => Done (Err "cryptographic public key is missing from contract")
      | Some pubkey_hex =>
          if is_empty (trim pubkey_hex) then Done (Err "cryptographic public key is empty")
          else
            bind_hex (decode_hex pubkey_hex) (λ pubkey_bytes,
            if negb (length pubkey_bytes =? 32)%nat then
              Done (Err ("invalid public key length: expected 32 bytes, got "
                         +:+ to_dec (Z.of_nat (length pubkey_bytes))))
            else
              bind_hex (decode_hex sig_hex) (λ sig_bytes,
              if negb (length sig_bytes =? 64)%nat then
                Done (Err ("invalid signature length: expected 64 bytes, got "
                           +:+ to_dec (Z.of_nat (length sig_bytes))))
              else if negb (verify_digest contract) then
                Done (Err "contract digest verification failed against payload")
              else if forallb (Z.eqb 0xff) sig_bytes || forallb (Z.eqb 0) sig_bytes then
                Done (Err "signature verification failed against contract digest")
              else Done (Ok tt)))
      end
  end.

(** ** The truth table *)

Definition SIGXFSZ : Z := 25.

Definition is_sigxfsz (agent_exit_code : Z) : bool :=
  (agent_exit_code =? 128 + SIGXFSZ) || (agent_exit_code =? - SIGXFSZ)
  || (agent_exit_code =? 153) || (agent_exit_code =? -25).

(** After the signature gate. *)
Definition clean_verdict (contract : SecurityContract) (agent_exit_code : Z)
    (strength : EvidenceStrength) : FinalVerdict :=
  if is_sigxfsz agent_exit_code then
    mk_verdict Pass strength Satisfied agent_exit_code
      ("vetto: process killed by kernel with SIGXFSZ (file size limit exceeded: "
       +:+ to_dec (max_file_size_bytes (resources contract))
       +:+ " bytes). Increase limit via --limits fsize=<bytes> or policy TOML.")
  else
    mk_verdict Pass strength Satisfied agent_exit_code
      "All security contract invariants satisfied with authoritative host facts".

Definition evaluate_with_strength (contract : SecurityContract)
    (kernel_denials unauthorized_writes zombies_survived : Z) (evidence_channel_intact : bool)
    (agent_exit_code : Z) (strength : EvidenceStrength) : outcome FinalVerdict :=
  if bool_decide (strength = Unsupported) then
    Done (mk_verdict Fail Unsupported Violated 125
            "Platform lacks necessary kernel enforcement primitives: fail-closed")
  else if 0 <? kernel_denials then
    Done (mk_verdict Fail strength Violated 125
            ("Contract violation: " +:+ to_dec kernel_denials
             +:+ " kernel capability denials recorded"))
  else if negb evidence_channel_intact then
    Done (mk_verdict StInconclusive strength Inconclusive 125
            "Evidence capture channel dropped events: audit ledger inconclusive")
  else if 0 <? unauthorized_writes then
    if fs_shadow (filesystem contract) then
      Done (mk_verdict Pass strength Satisfied agent_exit_code
              ("[SHADOW VIOLATION] VFS violation: " +:+ to_dec unauthorized_writes
               +:+ " writes outside authorized workspace"))
    else
      Done (mk_verdict Fail strength Violated 125
              ("VFS violation: " +:+ to_dec unauthorized_writes
               +:+ " writes outside authorized workspace"))
  else if 0 <? zombies_survived then
    Done (mk_verdict Fail strength Violated 125
            ("Lifecycle breach: " +:+ to_dec zombies_survived
             +:+ " descendant processes escaped extinction"))
  else if minisign_enabled (crypto contract) then
    r ← verify_contract_signature contract;
    Done (match r with
          | Err err => mk_verdict Fail Strong Violated 125
              ("Cryptographic signing verification failed (INV-36): " +:+ err)
          | Ok _ => clean_verdict contract agent_exit_code strength
          end)
  else Done (clean_verdict contract agent_exit_code strength).

Definition evaluate (contract : SecurityContract)
    (kernel_denials unauthorized_writes zombies_survived : Z) (evidence_channel_intact : bool)
    (agent_exit_code : Z) : outcome FinalVerdict :=
  evaluate_with_strength contract kernel_denials unauthorized_writes zombies_survived
    evidence_channel_intact agent_exit_code Strong.
End Verify.

(** ** Lemmas *)

Lemma hex_digit_graph d : 0 ≤ d < 16 → is_graph (hex_digit d) = true.
Proof.
  intros H. assert (d ∈ [0;1;2;3;4;5;6;7;8;9;10;11;12;13;14;15]) as Hd.
  { rewrite !elem_of_cons, elem_of_nil. lia. }
  revert Hd. rewrite !elem_of_cons, elem_of_nil. clear H.
  intros Hd. repeat (destruct Hd as [->|Hd]; [reflexivity|]). done.
Qed.

Lemma graph_boundary s : all_chars is_graph s = true → at_boundary s = true.
Proof.
  destruct s as [|c s]; simpl; [done|]. unfold is_graph, is_continuation. intros H. to_prop.
  apply negb_true_iff, andb_false_iff. left. apply Nat.leb_gt. lia.
Qed.

(** The high and low half of a byte. *)
Lemma byte_halves b :
  in_range 8 b → 0 ≤ Z.shiftr b 4 < 16 ∧ 0 ≤ Z.land b 15 < 16
                 ∧ b = 16 * Z.shiftr b 4 + Z.land b 15.
Proof.
  unfold in_range. intros Hb. rewrite Z.shiftr_div_pow2 by lia.
  change 15 with (Z.ones 4). rewrite Z.land_ones by lia.
  change (2 ^ 4) with 16 in *. change (2 ^ 8) with 256 in *.
  pose proof (Z.div_mod b 16). pose proof (Z.mod_pos_bound b 16).
  assert (0 ≤ b / 16 < 16).
  { split; [apply Z.div_pos; lia | apply Z.div_lt_upper_bound; lia]. }
  lia.
Qed.

Lemma to_hex_graph bs : Forall (in_range 8) bs → all_chars is_graph (to_hex bs) = true.
Proof.
  induction 1 as [|b bs Hb _ IH]; [done|]. destruct (byte_halves b Hb) as (? & ? & _).
  cbn [to_hex all_chars]. rewrite !hex_digit_graph by done. exact IH.
Qed.

Lemma to_hex_length bs : String.length (to_hex bs) = (2 * length bs)%nat.
Proof. induction bs as [|b bs IH]; simpl in *; [done|]. rewrite IH. lia. Qed.

Lemma from_hex_pair a b :
  0 ≤ a < 16 → 0 ≤ b < 16 →
  from_str_radix 16 u8_max (String (hex_digit a) (String (hex_digit b) EmptyString))
  = Some (16 * a + b).
Proof.
  intros Ha Hb. unfold from_str_radix.
  assert (strip_prefix "+" (String (hex_digit a) (String (hex_digit b) EmptyString)) = None) as ->.
  { simpl. destruct (Ascii.eqb_spec "+" (hex_digit a)) as [E|]; [|done].
    pose proof (hex_digit_value a Ha) as H. rewrite <-E in H. discriminate H. }
  cbn [is_empty String.eqb digits_acc]. rewrite !hex_digit_value by done.
  change (is_empty (String (hex_digit a) (String (hex_digit b) EmptyString))) with false.
  cbv iota. replace ((0 * 16 + a) * 16 + b) with (16 * a + b) by lia.
  destruct (Z.leb_spec (16 * a + b) u8_max) as [|H]; [done|]. unfold u8_max in H. lia.
Qed.

Lemma decode_pairs_to_hex i bs :
  Forall (in_range 8) bs → decode_pairs i (to_hex bs) = Done (Ok bs).
Proof.
  intros H. revert i. induction H as [|b bs Hb Hbs IH]; intros i; [done|].
  destruct (byte_halves b Hb) as (? & ? & Eb). cbn [to_hex decode_pairs].
  rewrite (graph_boundary (to_hex bs)) by by apply to_hex_graph.
  rewrite (graph_boundary (String _ _)).
  - cbn [andb negb]. rewrite from_hex_pair by done. rewrite IH, done_bind, <-Eb. done.
  - cbn [all_chars]. rewrite !hex_digit_graph by done. by apply to_hex_graph.
Qed.

Lemma decode_pairs_ascii i s : all_chars is_graph s = true → decode_pairs i s ≠ Panic.
Proof.
  remember (String.length s) as n eqn:Hn. revert i s Hn.
  induction n as [n IH] using lt_wf_ind. intros i s Hn Hs.
  destruct s as [|a [|b rest]]; [done|done|]. cbn [decode_pairs].
  rewrite (graph_boundary (String a (String b rest)) Hs). simpl in Hs. to_prop.
  rewrite (graph_boundary rest) by done. cbn [andb negb].
  destruct (from_str_radix _ _ _); [|done].
  specialize (IH (String.length rest)). destruct (decode_pairs (i + 2) rest) eqn:E; [done|].
  exfalso. eapply IH; [simpl in Hn; lia|reflexivity|done|exact E].
Qed.

(** ** Properties *)

Lemma evaluate_satisfied `{C : ContractCodec} c denials writes zombies intact code st v :
  evaluate_with_strength c denials writes zombies intact code st = Done v →
  is_contract_satisfied v = true ↔
  st ≠ Unsupported ∧ denials ≤ 0 ∧ intact = true
  ∧ ((0 < writes ∧ fs_shadow (filesystem c) = true)
     ∨ (writes ≤ 0 ∧ zombies ≤ 0
        ∧ (minisign_enabled (crypto c) = true → verify_contract_signature c = Done (Ok tt)))).
Proof.
  unfold evaluate_with_strength, clean_verdict, is_contract_satisfied.
  case_bool_decide as Hst; [intros [= <-]; simpl; split; [done|by intros []]|].
  destruct (Z.ltb_spec 0 denials); [intros [= <-]; simpl; split; [done|lia]|].
  destruct intact; [|intros [= <-]; simpl; split; [done|by intros (_ & _ & ? & _)]]. simpl.
  destruct (Z.ltb_spec 0 writes).
  { destruct (fs_shadow _); intros [= <-]; simpl; rewrite ?bool_decide_eq_false_2 by done; simpl;
      (split; [try done|intros (_ & _ & _ & [[_ ?]|[? _]]); [done|lia]]).
    intros _. split_and!; try done. by left. }
  destruct (Z.ltb_spec 0 zombies);
    [intros [= <-]; simpl; split; [done|intros (_ & _ & _ & [[? _]|(_ & ? & _)]); lia]|].
  assert (∀ P : Prop, P → st ≠ Unsupported ∧ denials ≤ 0 ∧ true = true
    ∧ (0 < writes ∧ fs_shadow (filesystem c) = true ∨ writes ≤ 0 ∧ zombies ≤ 0 ∧ P)) as Hok
    by (intros; split_and!; auto).
  destruct (minisign_enabled _).
  - destruct (verify_contract_signature c) as [[[]|e]|] eqn:E; [| |done]; rewrite done_bind.
    + destruct (is_sigxfsz code); intros [= <-]; simpl; rewrite bool_decide_eq_false_2 by done;
        (split; [intros _; by apply Hok|done]).
    + intros [= <-]. simpl. split; [done|].
      intros (_ & _ & _ & [[? _]|(_ & _ & H')]); [lia|]. by specialize (H' eq_refl).
  - destruct (is_sigxfsz code); intros [= <-]; simpl; rewrite bool_decide_eq_false_2 by done;
      (split; [intros _; by apply Hok|done]).
Qed.

(** C28: The verdict's truth table for an enforcing contract (one whose file system is
    not in shadow mode): whenever the engine returns, it reports a satisfied contract
    exactly when the platform enforces, no kernel denial was recorded, the evidence
    channel is intact, no write outside the workspace was seen, no descendant survived,
    and the signature - when signing is required - was accepted. *)
Theorem evaluate_satisfied_iff `{C : ContractCodec} c denials writes zombies intact code st v :
  fs_shadow (filesystem c) = false →
  evaluate_with_strength c denials writes zombies intact code st = Done v →
  is_contract_satisfied v = true ↔
  st ≠ Unsupported ∧ denials ≤ 0 ∧ intact = true ∧ writes ≤ 0 ∧ zombies ≤ 0
  ∧ (minisign_enabled (crypto c) = true → verify_contract_signature c = Done (Ok tt)).
Proof.
  intros Hs H. rewrite (evaluate_satisfied _ _ _ _ _ _ _ _ H), Hs. split.
  - intros (? & ? & ? & [[_ ?]|(? & ? & ?)]); [done|by split_and!].
  - intros (? & ? & ? & ? & ? & ?). split_and!; try done. right. by split_and!.
Qed.

(** In shadow mode a write outside the workspace decides alone: the contract is
    satisfied whatever survived and whether or not the signature was accepted. *)
Lemma shadow_write_satisfies `{C : ContractCodec} c writes zombies code st :
  fs_shadow (filesystem c) = true → st ≠ Unsupported → 0 < writes →
  ∃ v, evaluate_with_strength c 0 writes zombies true code st = Done v ∧ is_contract_satisfied v = true.
Proof.
  intros Hs Hst Hw. unfold evaluate_with_strength, clean_verdict.
  rewrite bool_decide_eq_false_2 by done. cbn [Z.ltb Z.compare negb]. rewrite (proj2 (Z.ltb_lt _ _) Hw), Hs.
  eexists. split; [reflexivity|]. unfold is_contract_satisfied. simpl. by rewrite bool_decide_eq_false_2.
Qed.

Lemma evaluate_satisfied_iff_witness :
  is_contract_satisfied (mk_verdict Pass Strong Satisfied 3
    "All security contract invariants satisfied with authoritative host facts") = true.
Proof.
  apply (proj2 (@evaluate_satisfied_iff demo_codec (sample_contract "a") 0 0 0 true 3 Strong _
    eq_refl eq_refl)).
  split; [discriminate|]. split; [lia|]. split; [reflexivity|].
  split; [lia|]. split; [lia|]. intros Hm. discriminate Hm.
Defined.

(** The engine's verdicts are coherent: a satisfied verdict is a pass that
    hands on the agent's own exit code; every other verdict exits with 125, is
    no success and has the overlay wiped, never committed. *)
Theorem evaluate_fail_closed `{C : ContractCodec} c denials writes zombies intact code st :
  match evaluate_with_strength c denials writes zombies intact code st with
  | Panic => minisign_enabled (crypto c) = true
  | Done v =>
      (is_contract_satisfied v = true ∧ status v = Pass ∧ security_verdict v = Satisfied
       ∧ strength v = st ∧ exit_code v = code ∧ is_success v = (code =? 0))
      ∨ (is_contract_satisfied v = false ∧ is_success v = false ∧ exit_code v = 125
         ∧ status v ≠ Pass
         ∧ recommended_action v ∈ ["Wipe CoW layer; abort session immediately.";
                                   "Wipe CoW layer; audit ledger inconclusive."])
  end.
Proof.
  assert (∀ e s c' r, s ≠ Satisfied → s ≠ NotApplicable → e ≠ Pass →
    let v := mk_verdict e c' s 125 r in
    is_contract_satisfied v = false ∧ is_success v = false ∧ exit_code v = 125 ∧ status v ≠ Pass
    ∧ recommended_action v ∈ ["Wipe CoW layer; abort session immediately.";
                              "Wipe CoW layer; audit ledger inconclusive."]) as Hbad.
  { intros e s c' r Hs Hn He. unfold is_contract_satisfied, is_success. simpl.
    rewrite !(bool_decide_eq_false_2 (s = Satisfied)) by done. split_and!; try done.
    destruct s; [done|left|right; left|done]. }
  assert (∀ r, st ≠ Unsupported → let v := mk_verdict Pass st Satisfied code r in
    is_contract_satisfied v = true ∧ status v = Pass ∧ security_verdict v = Satisfied
    ∧ strength v = st ∧ exit_code v = code ∧ is_success v = (code =? 0)) as Hgood.
  { intros r Hs. unfold is_contract_satisfied, is_success. simpl.
    by rewrite bool_decide_eq_false_2. }
  unfold evaluate_with_strength, clean_verdict.
  case_bool_decide; [right; by apply Hbad|].
  destruct (0 <? denials); [right; by apply Hbad|].
  destruct intact; [|right; by apply Hbad]. simpl.
  destruct (0 <? writes); [destruct (fs_shadow _); [left; by apply Hgood|right; by apply Hbad]|].
  destruct (0 <? zombies); [right; by apply Hbad|].
  destruct (minisign_enabled _); [|destruct (is_sigxfsz code); left; by apply Hgood].
  destruct (verify_contract_signature c) as [[[]|e]|]; [| |done]; rewrite done_bind.
  - destruct (is_sigxfsz code); left; by apply Hgood.
  - right; by apply Hbad.
Qed.

(** Hex encoding (the digests' [to_hex]) and [decode_hex] are inverse on
    every byte string, surrounding white space or not decoded digits
    notwithstanding; no panic, no error. *)
Theorem decode_hex_roundtrip bs :
  Forall (in_range 8) bs → decode_hex (to_hex bs) = Done (Ok bs).
Proof.
  intros H. unfold decode_hex. cbv zeta. rewrite trim_graph by by apply to_hex_graph.
  rewrite to_hex_length.
  assert (Nat.even (2 * length bs) = true) as -> by (apply Nat.even_spec; by exists (length bs)).
  by apply decode_pairs_to_hex.
Qed.

Lemma decode_hex_roundtrip_witness : decode_hex "00ff7f" = Done (Ok [0; 255; 127]).
Proof.
  apply (decode_hex_roundtrip [0; 255; 127]).
  repeat constructor; vm_compute; discriminate.
Defined.

(** A visible ASCII string never makes the decoder panic; a multi-byte
    character at an even offset does. *)
Lemma decode_hex_ascii_total s : all_chars is_graph s = true → decode_hex s ≠ Panic.
Proof.
  intros H. unfold decode_hex. cbv zeta. rewrite trim_graph by done.
  destruct (negb _); [done|]. by apply decode_pairs_ascii.
Qed.
Lemma decode_hex_panics : decode_hex (utf8_3 226 130 172 +:+ "0") = Panic.
Proof. reflexivity. Qed.

(** [u8::from_str_radix] accepts a sign: ["+f"] decodes to one byte. *)
Lemma decode_hex_accepts_sign : decode_hex "+f" = Done (Ok [15]).
Proof. reflexivity. Qed.

(** The signature check compares nothing with the contract digest: for a
    contract whose digest verifies, every 32-byte key with every 64-byte string
    that is neither all zeros nor all ones is accepted as its signature. *)
Theorem signature_check_accepts_any `{C : ContractCodec} c key sig :
  Forall (in_range 8) key → Forall (in_range 8) sig →
  length key = 32%nat → length sig = 64%nat →
  forallb (Z.eqb 0xff) sig = false → forallb (Z.eqb 0) sig = false →
  signature (crypto c) = Some (to_hex sig) → public_key (crypto c) = Some (to_hex key) →
  verify_contract_signature c = Done (if verify_digest c then Ok tt
    else Err "contract digest verification failed against payload").
Proof.
  intros Hk Hs Lk Ls Hff H00 Es Ek. unfold verify_contract_signature. rewrite Es, Ek.
  rewrite !trim_graph by by apply to_hex_graph.
  assert (∀ bs, (0 < length bs)%nat → is_empty (to_hex bs) = false) as Hne
    by (intros [|b bs]; simpl; [lia|done]).
  rewrite !Hne by lia. unfold bind_hex.
  unfold decode_hex. cbv zeta. rewrite !trim_graph by by apply to_hex_graph.
  rewrite !to_hex_length.
  assert (∀ n, Nat.even (2 * n) = true) as Hev by (intros n; apply Nat.even_spec; by exists n).
  rewrite !Hev. cbn [negb].
  rewrite (decode_pairs_to_hex 0 key Hk), done_bind, Lk. cbn [Nat.eqb negb].
  rewrite (decode_pairs_to_hex 0 sig Hs), done_bind, Ls. cbn [Nat.eqb negb].
  rewrite Hff, H00. by destruct (verify_digest c).
Qed.

(** The sample contract with an arbitrary key and signature. *)
Definition forged_contract : SecurityContract :=
  match @with_minisign demo_codec (sample_contract "a") true
          (Some (to_hex (replicate 64 7))) (Some (to_hex (replicate 32 1))) with
  | Some c => c
  | None => sample_contract "a"
  end.

Lemma signature_check_accepts_any_witness :
  @verify_contract_signature demo_codec forged_contract
  = Done (if @verify_digest demo_codec forged_contract then Ok tt
          else Err "contract digest verification failed against payload").
Proof.
  apply (@signature_check_accepts_any demo_codec forged_contract
    (replicate 32 1) (replicate 64 7)); try (vm_compute; reflexivity);
    apply Forall_replicate; split; vm_compute; congruence.
Defined.

(** In shadow mode unauthorised writes end the evaluation with a pass before
    surviving descendants and a missing signature are looked at. *)
Definition shadow_contract : SecurityContract :=
  let c := sample_contract "a" in
  let f := filesystem c in
  mk_contract (production c) (contract_version c) (contract_id c) (session_nonce c)
    (agent_identity c)
    (mk_fs (workspace_root f) (fs_allow_read f) (fs_allow_write f) (fs_allow_execute f)
       (mask_paths f) (cow_overlay f) (execution_root_ro f) true)
    (network c) (resources c) (c_environment c) (attestation c)
    (mk_crypto true false None None) (contract_digest_blake3 c) (sealed_contract_hash c).

Lemma shadow_pass_hides_survivors :
  ∃ v, @evaluate demo_codec shadow_contract 0 1 5 true 0 = Done v ∧ is_success v = true.
Proof. eexists. split; vm_compute; reflexivity. Qed.
Lemma survivors_alone_fail :
  ∃ v, @evaluate demo_codec shadow_contract 0 0 5 true 0 = Done v ∧ exit_code v = 125.
Proof. eexists. split; vm_compute; reflexivity. Qed.
