(* ===== verification/Seccomp.v ===== *)
(** * Seccomp: the BPF filter of the network kill-switch

    Model of [src/src/sandbox/linux/seccomp_netblock.rs]: the program builder
    with its placeholder branches and their patching, the classic-BPF machine
    that runs the program in the kernel, and the decision the program is meant
    to take.  The constants of the [libc] crate for the target are the class
    [Libc]; the target architecture is an argument. *)

From S2P Require Import Prelude PolicyTypes.

(** ** The platform *)

Inductive sysname : Type :=
| SYS_socket | SYS_socketpair | SYS_clone3
| SYS_umount2 | SYS_mount | SYS_pivot_root | SYS_move_mount | SYS_open_tree | SYS_fsopen
| SYS_fsconfig | SYS_fsmount | SYS_fspick | SYS_mount_setattr | SYS_io_uring_setup
| SYS_io_uring_enter | SYS_io_uring_register | SYS_userfaultfd | SYS_ptrace
| SYS_process_vm_readv | SYS_process_vm_writev | SYS_pidfd_getfd | SYS_kexec_load
| SYS_kexec_file_load | SYS_init_module | SYS_finit_module | SYS_delete_module
| SYS_perf_event_open | SYS_bpf | SYS_reboot | SYS_swapon | SYS_swapoff | SYS_unshare | SYS_setns
| SYS_personality | SYS_acct | SYS_vhangup | SYS_quotactl | SYS_settimeofday | SYS_clock_settime
| SYS_adjtimex | SYS_clock_adjtime | SYS_fanotify_init | SYS_fanotify_mark | SYS_syslog
| SYS_chroot | SYS_lookup_dcookie | SYS_vmsplice | SYS_sysfs | SYS_ustat | SYS_iopl | SYS_ioperm
| SYS_modify_ldt.
#[export] Instance sysname_eq_dec : EqDecision sysname.
Proof. solve_decision. Defined.

Class Libc : Type := {
  sysno : sysname → Z;
  AF_UNIX : Z;
  AF_INET : Z;
  AF_INET6 : Z;
  SOCK_RAW : Z;
  EPERM : Z;
  ENOSYS : Z;
  EACCES : Z;
}.

Inductive target_arch : Type := X86_64 | Aarch64 | OtherArch.

Definition AUDIT_ARCH_X86_64 : Z := 0xC000003E.
Definition AUDIT_ARCH_AARCH64 : Z := 0xC00000B7.
Definition native_audit_arch (a : target_arch) : Z :=
  match a with X86_64 => AUDIT_ARCH_X86_64 | Aarch64 => AUDIT_ARCH_AARCH64 | OtherArch => 0 end.

Definition HARDENING_SYSCALLS : list sysname :=
  [SYS_umount2; SYS_mount; SYS_pivot_root; SYS_move_mount; SYS_open_tree; SYS_fsopen;
   SYS_fsconfig; SYS_fsmount; SYS_fspick; SYS_mount_setattr; SYS_io_uring_setup;
   SYS_io_uring_enter; SYS_io_uring_register; SYS_userfaultfd; SYS_ptrace;
   SYS_process_vm_readv; SYS_process_vm_writev; SYS_pidfd_getfd; SYS_kexec_load;
   SYS_kexec_file_load; SYS_init_module; SYS_finit_module; SYS_delete_module;
   SYS_perf_event_open; SYS_bpf; SYS_reboot; SYS_swapon; SYS_swapoff; SYS_unshare; SYS_setns].

Definition AGENT_MIN_EXTRA_SYSCALLS (a : target_arch) : list sysname :=
  match a with
  | X86_64 =>
      [SYS_personality; SYS_acct; SYS_vhangup; SYS_quotactl; SYS_settimeofday;
       SYS_clock_settime; SYS_adjtimex; SYS_clock_adjtime; SYS_fanotify_init;
       SYS_fanotify_mark; SYS_syslog; SYS_chroot; SYS_lookup_dcookie; SYS_vmsplice;
       SYS_sysfs; SYS_ustat; SYS_iopl; SYS_ioperm; SYS_modify_ldt]
  | Aarch64 =>
      [SYS_personality; SYS_acct; SYS_vhangup; SYS_quotactl; SYS_settimeofday;
       SYS_clock_settime; SYS_adjtimex; SYS_clock_adjtime; SYS_fanotify_init;
       SYS_fanotify_mark; SYS_syslog; SYS_chroot; SYS_lookup_dcookie; SYS_vmsplice]
  | OtherArch => []
  end.

Definition SECCOMP_RET_ERRNO : Z := 0x00050000.
Definition SECCOMP_RET_KILL_PROCESS : Z := 0x80000000.
Definition SECCOMP_RET_ALLOW : Z := 0x7fff0000.
Definition EAFNOSUPPORT : Z := 97.

Inductive SocketPolicy : Type := UnixOnly | UnixAndIp.

(** ** The program *)

Record SockFilter : Type := mk_filter { code : Z; jt : Z; jf : Z; k : Z }.

Definition bpf_stmt (code k : Z) : SockFilter := mk_filter code 0 0 k.
Definition bpf_jump (code k jt jf : Z) : SockFilter := mk_filter code jt jf k.

Definition BPF_LD_BPF_W_BPF_ABS : Z := 0x20.
Definition BPF_JMP_JEQ_K : Z := 0x15.
Definition BPF_JMP_JSET_K : Z := 0x45.
Definition BPF_ALU_AND_K : Z := 0x54.
Definition BPF_RET : Z := 0x06.
Definition X32_SYSCALL_BIT : Z := 0x40000000.

(** [None] is either [expect] panic. *)
Definition jump_offset (from to : nat) : option Z :=
  if (to <? from + 1)%nat then None
  else let off := Z.of_nat (to - (from + 1)) in
       if off <=? u8_max then Some off else None.

(** [program[from].jt = jump_offset(from, to)]. *)
Definition set_jt (i : SockFilter) (off : Z) : SockFilter := mk_filter (code i) off (jf i) (k i).
Definition patch (to from : nat) (program : list SockFilter) : option (list SockFilter) :=
  off ← jump_offset from to;
  i ← program !! from;
  Some (<[from := set_jt i off]> program).

Fixpoint patch_all (to : nat) (froms : list nat) (program : list SockFilter) :
  option (list SockFilter) :=
  match froms with
  | [] => Some program
  | from :: froms => p ← patch to from program; patch_all to froms p
  end.

Section Program.
Context `{Libc}.

Definition jump_placeholders (ns : list sysname) : list SockFilter :=
  (λ n, bpf_jump BPF_JMP_JEQ_K (sysno n) 0 0) <$> ns.

Definition hardening (arch : target_arch) (profile : SeccompProfile) : list sysname :=
  HARDENING_SYSCALLS ++
  match profile with AgentMin => AGENT_MIN_EXTRA_SYSCALLS arch | DefaultProfile => [] end.

Definition build_program_for_profile (arch : target_arch) (socket_policy : SocketPolicy)
    (profile : SeccompProfile) : option (list SockFilter) :=
  let '(inet_jt, inet_jf, inet6_jt, inet6_jf) :=
    match socket_policy with UnixOnly => (1, 1, 0, 0) | UnixAndIp => (2, 0, 1, 0) end in
  let program :=
    [bpf_stmt BPF_LD_BPF_W_BPF_ABS 4;
     bpf_jump BPF_JMP_JEQ_K (native_audit_arch arch) 1 0;
     bpf_stmt BPF_RET SECCOMP_RET_KILL_PROCESS;
     bpf_stmt BPF_LD_BPF_W_BPF_ABS 0;
     bpf_jump BPF_JMP_JSET_K X32_SYSCALL_BIT 0 1;
     bpf_stmt BPF_RET SECCOMP_RET_KILL_PROCESS] in
  let socket_index := length program in
  let program := program ++ [bpf_jump BPF_JMP_JEQ_K (sysno SYS_socket) 0 0] in
  let socketpair_index := length program in
  let program := program ++ [bpf_jump BPF_JMP_JEQ_K (sysno SYS_socketpair) 0 0] in
  let clone3_index := length program in
  let program := program ++ [bpf_jump BPF_JMP_JEQ_K (sysno SYS_clone3) 0 0] in
  let hardening_start := length program in
  let program := program ++ jump_placeholders (hardening arch profile) in
  let allow_index := length program in
  let program := program ++ [bpf_stmt BPF_RET SECCOMP_RET_ALLOW] in
  let hardening_deny_index := length program in
  let program := program ++ [bpf_stmt BPF_RET (Z.lor SECCOMP_RET_ERRNO EPERM)] in
  let clone3_deny_index := length program in
  let program := program ++ [bpf_stmt BPF_RET (Z.lor SECCOMP_RET_ERRNO ENOSYS)] in
  let socket_check_start := length program in
  let program := program ++ [bpf_stmt BPF_LD_BPF_W_BPF_ABS 24; bpf_stmt BPF_ALU_AND_K 0x0f] in
  let raw_jump_index := length program in
  let program := program ++ [bpf_jump BPF_JMP_JEQ_K SOCK_RAW 0 0] in
  let domain_index := length program in
  let program := program ++
    [bpf_stmt BPF_LD_BPF_W_BPF_ABS 16;
     bpf_jump BPF_JMP_JEQ_K AF_UNIX 0 0;
     bpf_jump BPF_JMP_JEQ_K AF_INET inet_jt inet_jf;
     bpf_jump BPF_JMP_JEQ_K AF_INET6 inet6_jt inet6_jf;
     bpf_stmt BPF_RET (Z.lor SECCOMP_RET_ERRNO EAFNOSUPPORT);
     bpf_stmt BPF_RET SECCOMP_RET_ALLOW] in
  let permitted_family_index := (length program - 1)%nat in
  let raw_deny_index := length program in
  let program := program ++ [bpf_stmt BPF_RET (Z.lor SECCOMP_RET_ERRNO EACCES)] in
  program ← patch socket_check_start socket_index program;
  program ← patch socket_check_start socketpair_index program;
  program ← patch clone3_deny_index clone3_index program;
  program ← patch raw_deny_index raw_jump_index program;
  program ← patch_all hardening_deny_index
              (seq hardening_start (allow_index - hardening_start)) program;
  patch permitted_family_index (domain_index + 1) program.

Definition build_program (arch : target_arch) (socket_policy : SocketPolicy) :
  option (list SockFilter) :=
  build_program_for_profile arch socket_policy DefaultProfile.
End Program.

(** ** The classic-BPF machine on [seccomp_data] *)

Record seccomp_data : Type := mk_data {
  nr : Z;
  sd_arch : Z;
  instruction_pointer : Z;
  args : list Z;  (* six 64-bit words *)
}.

(** The 32-bit word at a byte offset (little endian). *)
Definition low32 (x : Z) : Z := x mod 2 ^ 32.
Definition high32 (x : Z) : Z := Z.shiftr x 32.
Definition data_word (d : seccomp_data) (offset : Z) : option Z :=
  if offset =? 0 then Some (nr d)
  else if offset =? 4 then Some (sd_arch d)
  else if offset =? 8 then Some (low32 (instruction_pointer d))
  else if offset =? 12 then Some (high32 (instruction_pointer d))
  else if (16 <=? offset) && (offset <? 64) && (offset mod 4 =? 0) then
    let word := args d !! Z.to_nat ((offset - 16) / 8) in
    if offset mod 8 =? 0 then low32 <$> word else high32 <$> word
  else None.

(** One accumulator; jumps only go forward, so the machine is structurally
    recursive on the program suffix; [skip] instructions are passed over. *)
Fixpoint run (d : seccomp_data) (program : list SockFilter) (skip : nat) (acc : Z) : option Z :=
  match program with
  | [] => None
  | i :: rest =>
      match skip with
      | S skip => run d rest skip acc
      | O =>
          if code i =? BPF_LD_BPF_W_BPF_ABS then
            match data_word d (k i) with Some w => run d rest 0 w | None => None end
          else if code i =? BPF_ALU_AND_K then run d rest 0 (Z.land acc (k i))
          else if code i =? BPF_JMP_JEQ_K then
            run d rest (Z.to_nat (if acc =? k i then jt i else jf i)) acc
          else if code i =? BPF_JMP_JSET_K then
            run d rest (Z.to_nat (if Z.land acc (k i) =? 0 then jf i else jt i)) acc
          else if code i =? BPF_RET then Some (k i)
          else None
      end
  end.

(** ** The intended decision *)

Section Decision.
Context `{Libc}.

Definition family_allowed (policy : SocketPolicy) (family : Z) : bool :=
  (family =? AF_UNIX)
  || match policy with
     | UnixOnly => false
     | UnixAndIp => (family =? AF_INET) || (family =? AF_INET6)
     end.

Definition socket_decision (policy : SocketPolicy) (family sock_type : Z) : Z :=
  if Z.land sock_type 0x0f =? SOCK_RAW then Z.lor SECCOMP_RET_ERRNO EACCES
  else if family_allowed policy family then SECCOMP_RET_ALLOW
  else Z.lor SECCOMP_RET_ERRNO EAFNOSUPPORT.

Definition arg (d : seccomp_data) (i : nat) : Z := low32 (default 0 (args d !! i)).

Definition decision (arch : target_arch) (policy : SocketPolicy) (profile : SeccompProfile)
    (d : seccomp_data) : Z :=
  if negb (sd_arch d =? native_audit_arch arch) then SECCOMP_RET_KILL_PROCESS
  else if negb (Z.land (nr d) X32_SYSCALL_BIT =? 0) then SECCOMP_RET_KILL_PROCESS
  else if (nr d =? sysno SYS_socket) || (nr d =? sysno SYS_socketpair)
  then socket_decision policy (arg d 0) (arg d 1)
  else if nr d =? sysno SYS_clone3 then Z.lor SECCOMP_RET_ERRNO ENOSYS
  else if existsb (λ s, nr d =? sysno s) (hardening arch profile)
  then Z.lor SECCOMP_RET_ERRNO EPERM
  else SECCOMP_RET_ALLOW.
End Decision.

(** ** Lemmas *)

Section Chains.
Context `{Libc}.

(** A patched block of equality branches that all leave to the same place,
    [m] instructions behind the block. *)
Fixpoint chain (ns : list sysname) (m : Z) : list SockFilter :=
  match ns with
  | [] => []
  | n :: ns => bpf_jump BPF_JMP_JEQ_K (sysno n) (Z.of_nat (length ns) + m) 0 :: chain ns m
  end.

Lemma run_skip d p q n acc : length p = n → run d (p ++ q) n acc = run d q 0 acc.
Proof. intros <-. induction p as [|i p IH]; [done|exact IH]. Qed.

Lemma run_skip_more d p q n m acc :
  n = (length p + m)%nat → run d (p ++ q) n acc = run d q m acc.
Proof. intros ->. induction p as [|i p IH]; [done|exact IH]. Qed.

Lemma chain_length ns m : length (chain ns m) = length ns.
Proof. induction ns as [|n ns IH]; simpl; congruence. Qed.

Lemma run_chain d ns m rest acc :
  0 ≤ m →
  run d (chain ns m ++ rest) 0 acc
  = run d rest (if existsb (λ s, acc =? sysno s) ns then Z.to_nat m else 0) acc.
Proof.
  intros Hm. induction ns as [|n ns IH]; [done|]. cbn [chain app run existsb].
  cbn [code bpf_jump k jt jf]. change (BPF_JMP_JEQ_K =? BPF_LD_BPF_W_BPF_ABS) with false.
  change (BPF_JMP_JEQ_K =? BPF_ALU_AND_K) with false.
  change (BPF_JMP_JEQ_K =? BPF_JMP_JEQ_K) with true. cbv iota.
  destruct (acc =? sysno n); cbn [orb]; [|exact IH].
  apply run_skip_more. rewrite chain_length. lia.
Qed.
End Chains.

(** The patched program, written out. *)
Definition expected_program `{Libc} (arch : target_arch) (policy : SocketPolicy)
    (profile : SeccompProfile) : list SockFilter :=
  let h := Z.of_nat (length (hardening arch profile)) in
  [bpf_stmt BPF_LD_BPF_W_BPF_ABS 4;
   bpf_jump BPF_JMP_JEQ_K (native_audit_arch arch) 1 0;
   bpf_stmt BPF_RET SECCOMP_RET_KILL_PROCESS;
   bpf_stmt BPF_LD_BPF_W_BPF_ABS 0;
   bpf_jump BPF_JMP_JSET_K X32_SYSCALL_BIT 0 1;
   bpf_stmt BPF_RET SECCOMP_RET_KILL_PROCESS;
   bpf_jump BPF_JMP_JEQ_K (sysno SYS_socket) (h + 5) 0;
   bpf_jump BPF_JMP_JEQ_K (sysno SYS_socketpair) (h + 4) 0;
   bpf_jump BPF_JMP_JEQ_K (sysno SYS_clone3) (h + 2) 0]
  ++ chain (hardening arch profile) 1
  ++ [bpf_stmt BPF_RET SECCOMP_RET_ALLOW;
      bpf_stmt BPF_RET (Z.lor SECCOMP_RET_ERRNO EPERM);
      bpf_stmt BPF_RET (Z.lor SECCOMP_RET_ERRNO ENOSYS);
      bpf_stmt BPF_LD_BPF_W_BPF_ABS 24;
      bpf_stmt BPF_ALU_AND_K 0x0f;
      bpf_jump BPF_JMP_JEQ_K SOCK_RAW 6 0;
      bpf_stmt BPF_LD_BPF_W_BPF_ABS 16;
      bpf_jump BPF_JMP_JEQ_K AF_UNIX 3 0;
      bpf_jump BPF_JMP_JEQ_K AF_INET (match policy with UnixOnly => 1 | UnixAndIp => 2 end)
        (match policy with UnixOnly => 1 | UnixAndIp => 0 end);
      bpf_jump BPF_JMP_JEQ_K AF_INET6 (match policy with UnixOnly => 0 | UnixAndIp => 1 end) 0;
      bpf_stmt BPF_RET (Z.lor SECCOMP_RET_ERRNO EAFNOSUPPORT);
      bpf_stmt BPF_RET SECCOMP_RET_ALLOW;
      bpf_stmt BPF_RET (Z.lor SECCOMP_RET_ERRNO EACCES)].

Lemma build_program_expected `{Libc} arch policy profile :
  build_program_for_profile arch policy profile = Some (expected_program arch policy profile).
Proof.
  unfold build_program_for_profile, expected_program.
  generalize (Z.lor SECCOMP_RET_ERRNO EPERM) (Z.lor SECCOMP_RET_ERRNO ENOSYS)
    (Z.lor SECCOMP_RET_ERRNO EACCES). intros eperm enosys eacces.
  destruct arch, policy, profile; vm_compute; reflexivity.
Qed.

(** One step of the machine per instruction form. *)
Lemma run_ld d off rest acc :
  run d (bpf_stmt BPF_LD_BPF_W_BPF_ABS off :: rest) 0 acc
  = match data_word d off with Some w => run d rest 0 w | None => None end.
Proof. reflexivity. Qed.
Lemma run_and d m rest acc :
  run d (bpf_stmt BPF_ALU_AND_K m :: rest) 0 acc = run d rest 0 (Z.land acc m).
Proof. reflexivity. Qed.
Lemma run_ret d v rest acc : run d (bpf_stmt BPF_RET v :: rest) 0 acc = Some v.
Proof. reflexivity. Qed.
Lemma run_jeq d v t f rest acc :
  run d (bpf_jump BPF_JMP_JEQ_K v t f :: rest) 0 acc
  = run d rest (Z.to_nat (if acc =? v then t else f)) acc.
Proof. reflexivity. Qed.
Lemma run_jset d v t f rest acc :
  run d (bpf_jump BPF_JMP_JSET_K v t f :: rest) 0 acc
  = run d rest (Z.to_nat (if Z.land acc v =? 0 then f else t)) acc.
Proof. reflexivity. Qed.
Lemma run_pass d i rest n acc : run d (i :: rest) (S n) acc = run d rest n acc.
Proof. reflexivity. Qed.

Create Rewrite HintDb bpf.
#[local] Hint Rewrite @run_ld @run_and @run_ret @run_jeq @run_jset @run_pass : bpf.

(** The argument words of a system call record are there. *)
Lemma data_word_arg d i :
  (i < 6)%nat → length (args d) = 6%nat →
  data_word d (16 + 8 * Z.of_nat i) = Some (arg d i).
Proof.
  intros Hi Hl. unfold data_word, arg.
  assert (∀ c, 0 ≤ c < 16 → (16 + 8 * Z.of_nat i =? c) = false) as Hc by (intros; lia).
  rewrite !Hc by lia. clear Hc.
  replace ((16 <=? 16 + 8 * Z.of_nat i) && (16 + 8 * Z.of_nat i <? 64)) with true by lia.
  replace (16 + 8 * Z.of_nat i - 16) with (Z.of_nat i * 8) by lia.
  rewrite Z.div_mul, Nat2Z.id by lia.
  assert ((16 + 8 * Z.of_nat i) mod 8 = 0) as ->
    by (Z.to_euclidean_division_equations; lia).
  assert ((16 + 8 * Z.of_nat i) mod 4 = 0) as ->
    by (Z.to_euclidean_division_equations; lia).
  cbn [Z.eqb andb]. destruct (args d !! i) as [x|] eqn:E; [done|].
  apply lookup_ge_None in E. lia.
Qed.

(** The socket part of the program, from the load of the socket type. *)
Lemma run_socket_part `{Libc} d policy acc :
  length (args d) = 6%nat →
  run d
    [bpf_stmt BPF_LD_BPF_W_BPF_ABS 24;
     bpf_stmt BPF_ALU_AND_K 0x0f;
     bpf_jump BPF_JMP_JEQ_K SOCK_RAW 6 0;
     bpf_stmt BPF_LD_BPF_W_BPF_ABS 16;
     bpf_jump BPF_JMP_JEQ_K AF_UNIX 3 0;
     bpf_jump BPF_JMP_JEQ_K AF_INET (match policy with UnixOnly => 1 | UnixAndIp => 2 end)
       (match policy with UnixOnly => 1 | UnixAndIp => 0 end);
     bpf_jump BPF_JMP_JEQ_K AF_INET6 (match policy with UnixOnly => 0 | UnixAndIp => 1 end) 0;
     bpf_stmt BPF_RET (Z.lor SECCOMP_RET_ERRNO EAFNOSUPPORT);
     bpf_stmt BPF_RET SECCOMP_RET_ALLOW;
     bpf_stmt BPF_RET (Z.lor SECCOMP_RET_ERRNO EACCES)] 0 acc
  = Some (socket_decision policy (arg d 0) (arg d 1)).
Proof.
  intros Hl. unfold socket_decision, family_allowed.
  pose proof (data_word_arg d 0 ltac:(lia) Hl) as H0.
  pose proof (data_word_arg d 1 ltac:(lia) Hl) as H1.
  change (16 + 8 * Z.of_nat 0) with 16 in H0. change (16 + 8 * Z.of_nat 1) with 24 in H1.
  rewrite run_ld, H1, run_and, run_jeq.
  destruct (_ =? SOCK_RAW); [reflexivity|]. change (Z.to_nat 0) with 0%nat.
  rewrite run_ld, H0, run_jeq.
  destruct (_ =? AF_UNIX); [reflexivity|]. change (Z.to_nat 0) with 0%nat.
  rewrite run_jeq. destruct (_ =? AF_INET); [by destruct policy|].
  destruct policy; [reflexivity|]. change (Z.to_nat 0) with 0%nat. rewrite run_jeq.
  by destruct (_ =? AF_INET6).
Qed.

(** The whole program, run from the start. *)
Lemma run_expected `{Libc} arch policy profile d :
  length (args d) = 6%nat →
  run d (expected_program arch policy profile) 0 0 = Some (decision arch policy profile d).
Proof.
  intros Hl. unfold expected_program, decision. set (h := hardening arch profile).
  cbn [app]. rewrite run_ld. change (data_word d 4) with (Some (sd_arch d)). cbv iota.
  rewrite run_jeq. destruct (_ =? native_audit_arch arch); [|reflexivity]. cbn [negb].
  change (Z.to_nat 1) with 1%nat. rewrite run_pass, run_ld.
  change (data_word d 0) with (Some (nr d)). cbv iota. rewrite run_jset.
  destruct (Z.land (nr d) X32_SYSCALL_BIT =? 0); [|reflexivity]. cbn [negb].
  change (Z.to_nat 1) with 1%nat. rewrite run_pass, run_jeq.
  match goal with |- run d (?a :: ?b :: chain h 1 ++ ?ret :: ?eperm :: ?enosys :: ?sock) _ _ = _ =>
    pose proof (run_skip_more d (a :: b :: chain h 1 ++ [ret; eperm; enosys]) sock) as Hsocket;
    pose proof (run_skip_more d (b :: chain h 1 ++ [ret; eperm; enosys]) sock) as Hpair;
    pose proof (run_skip_more d (chain h 1 ++ [ret; eperm]) (enosys :: sock)) as Hclone
  end.
  repeat (rewrite <-app_comm_cons in Hsocket || rewrite <-app_assoc in Hsocket).
  repeat (rewrite <-app_comm_cons in Hpair || rewrite <-app_assoc in Hpair).
  rewrite <-app_assoc in Hclone. cbn [app] in Hsocket, Hpair, Hclone.
  destruct (nr d =? sysno SYS_socket); cbn [orb].
  { rewrite (Hsocket _ 0%nat); [by apply run_socket_part|].
    cbn [length]. rewrite length_app, chain_length. cbn [length]. lia. }
  change (Z.to_nat 0) with 0%nat. rewrite run_jeq.
  destruct (nr d =? sysno SYS_socketpair).
  { rewrite (Hpair _ 0%nat); [by apply run_socket_part|].
    cbn [length]. rewrite length_app, chain_length. cbn [length]. lia. }
  change (Z.to_nat 0) with 0%nat. rewrite run_jeq. destruct (nr d =? sysno SYS_clone3).
  { rewrite (Hclone _ 0%nat); [reflexivity|]. rewrite length_app, chain_length. cbn [length]. lia. }
  change (Z.to_nat 0) with 0%nat. rewrite run_chain by lia.
  by destruct (existsb _ h).
Qed.

(** ** Properties *)

(** C24: The assembled and patched BPF program implements the intended
    decision: on every target, socket policy and profile the builder does not
    panic, and on every system-call record the kernel's machine returns the
    decision's action - kill for a foreign or x32 ABI, the family and raw-socket
    test for socket and socketpair, ENOSYS for clone3, EPERM for the hardening
    list, and allow for everything else. *)
Theorem filter_implements_decision `{Libc} arch policy profile :
  ∃ program, build_program_for_profile arch policy profile = Some program
    ∧ ∀ d, length (args d) = 6%nat → run d program 0 0 = Some (decision arch policy profile d).
Proof.
  exists (expected_program arch policy profile). split; [apply build_program_expected|].
  intros d. apply run_expected.
Qed.

(** What the safety of the filter relies on of the target's constants: system
    calls have distinct numbers and error numbers are 16-bit. *)
Class LibcLaws (L : Libc) : Prop := {
  sysno_inj : ∀ a b, sysno a = sysno b → a = b;
  errno_range : in_range 16 EPERM ∧ in_range 16 ENOSYS ∧ in_range 16 EACCES;
}.

Lemma errno_not_allow e : in_range 16 e → Z.lor SECCOMP_RET_ERRNO e ≠ SECCOMP_RET_ALLOW.
Proof.
  intros [H0 H16] E. assert (Z.testbit (Z.lor SECCOMP_RET_ERRNO e) 20 = false) as Hb.
  { rewrite Z.lor_spec. change (Z.testbit SECCOMP_RET_ERRNO 20) with false. cbn [orb].
    destruct (decide (e = 0)) as [->|]; [apply Z.bits_0|].
    apply Z.bits_above_log2; [done|]. apply Z.log2_lt_pow2; [lia|].
    change (2 ^ 20) with 1048576. change (2 ^ 16) with 65536 in H16. lia. }
  rewrite E in Hb. discriminate Hb.
Qed.

Lemma hardening_no_socket arch profile s :
  s ∈ SYS_clone3 :: hardening arch profile → s ∉ [SYS_socket; SYS_socketpair].
Proof.
  revert s. apply Forall_forall. destruct arch, profile;
    apply (bool_decide_unpack _); vm_compute; exact I.
Qed.

(** Safety of the filter: a system call the filter lets through comes from
    the native ABI, is not on the hardening list and is not clone3, and when it
    creates a socket, the socket is not raw and its family is one the policy
    permits - AF_UNIX alone under the network kill-switch. *)
Theorem filter_allows_only `{L : Libc} `{!LibcLaws L} arch policy profile program d :
  build_program_for_profile arch policy profile = Some program →
  length (args d) = 6%nat →
  run d program 0 0 = Some SECCOMP_RET_ALLOW →
  sd_arch d = native_audit_arch arch ∧ Z.land (nr d) X32_SYSCALL_BIT = 0
  ∧ (∀ s, s ∈ SYS_clone3 :: hardening arch profile → nr d ≠ sysno s)
  ∧ (∀ s, s ∈ [SYS_socket; SYS_socketpair] → nr d = sysno s →
       Z.land (arg d 1) 0x0f ≠ SOCK_RAW
       ∧ (arg d 0 = AF_UNIX
          ∨ (policy = UnixAndIp ∧ (arg d 0 = AF_INET ∨ arg d 0 = AF_INET6)))).
Proof.
  intros Hb Hl. rewrite build_program_expected in Hb. injection Hb as <-.
  rewrite run_expected by done. unfold decision, socket_decision, family_allowed.
  destruct errno_range as (He1 & He2 & He3).
  apply errno_not_allow in He1, He2, He3.
  destruct (Z.eqb_spec (sd_arch d) (native_audit_arch arch)) as [Ha|]; [|done]. cbn [negb].
  destruct (Z.eqb_spec (Z.land (nr d) X32_SYSCALL_BIT) 0) as [Hx|]; [|done]. cbn [negb].
  assert (∀ s t, nr d = sysno s → nr d = sysno t → s = t) as Hinj
    by (intros s t Hs Ht; apply sysno_inj; congruence).
  destruct ((nr d =? _) || _) eqn:Es.
  - intros Hallow. apply orb_true_iff in Es. rewrite !Z.eqb_eq in Es. split_and!; [done|done| |].
    + intros s Hs E. pose proof (hardening_no_socket arch profile s Hs) as Hn.
      destruct Hn. destruct Es as [Es|Es]; rewrite (Hinj s _ E Es); [left|right; left].
    + intros s _ _. destruct (Z.eqb_spec (Z.land (arg d 1) 15) SOCK_RAW); [congruence|].
      split; [done|]. destruct (Z.eqb_spec (arg d 0) AF_UNIX); [by left|right]. cbn [orb] in Hallow.
      destruct policy; [discriminate Hallow|]. split; [done|].
      destruct (Z.eqb_spec (arg d 0) AF_INET); [by left|].
      destruct (Z.eqb_spec (arg d 0) AF_INET6); [by right|discriminate Hallow].
  - apply orb_false_iff in Es as [Es1 Es2]. rewrite Z.eqb_neq in Es1, Es2.
    destruct (Z.eqb_spec (nr d) (sysno SYS_clone3)) as [|Hc]; [congruence|].
    destruct (existsb _ _) eqn:Eh; [congruence|]. intros _. split_and!; [done|done| |].
    + intros s [->|Hs]%elem_of_cons; [done|].
      rewrite existsb_false, Forall_forall in Eh. by apply Z.eqb_neq, Eh.
    + intros s [->|[->|Hs]%elem_of_cons]%elem_of_cons E; [done|done|by apply elem_of_nil in Hs].
Qed.

(** The constants of [libc] for x86_64 Linux. *)
Definition x86_64_sysno (s : sysname) : Z :=
  match s with
  | SYS_socket => 41 | SYS_socketpair => 53 | SYS_clone3 => 435 | SYS_umount2 => 166
  | SYS_mount => 165 | SYS_pivot_root => 155 | SYS_move_mount => 429 | SYS_open_tree => 428
  | SYS_fsopen => 430 | SYS_fsconfig => 431 | SYS_fsmount => 432 | SYS_fspick => 433
  | SYS_mount_setattr => 442 | SYS_io_uring_setup => 425 | SYS_io_uring_enter => 426
  | SYS_io_uring_register => 427 | SYS_userfaultfd => 323 | SYS_ptrace => 101
  | SYS_process_vm_readv => 310 | SYS_process_vm_writev => 311 | SYS_pidfd_getfd => 438
  | SYS_kexec_load => 246 | SYS_kexec_file_load => 320 | SYS_init_module => 175
  | SYS_finit_module => 313 | SYS_delete_module => 176 | SYS_perf_event_open => 298
  | SYS_bpf => 321 | SYS_reboot => 169 | SYS_swapon => 167 | SYS_swapoff => 168
  | SYS_unshare => 272 | SYS_setns => 308 | SYS_personality => 135 | SYS_acct => 163
  | SYS_vhangup => 153 | SYS_quotactl => 179 | SYS_settimeofday => 164
  | SYS_clock_settime => 227 | SYS_adjtimex => 159 | SYS_clock_adjtime => 305
  | SYS_fanotify_init => 300 | SYS_fanotify_mark => 301 | SYS_syslog => 103
  | SYS_chroot => 161 | SYS_lookup_dcookie => 212 | SYS_vmsplice => 278 | SYS_sysfs => 139
  | SYS_ustat => 136 | SYS_iopl => 172 | SYS_ioperm => 173 | SYS_modify_ldt => 154
  end.
Definition x86_64_libc : Libc := {|
  sysno := x86_64_sysno; AF_UNIX := 1; AF_INET := 2; AF_INET6 := 10; SOCK_RAW := 3;
  EPERM := 1; ENOSYS := 38; EACCES := 13;
|}.

(** The inverse of the table shows that it is injective. *)
Definition named_syscalls : list sysname :=
  [SYS_socket; SYS_socketpair; SYS_clone3] ++ HARDENING_SYSCALLS
  ++ AGENT_MIN_EXTRA_SYSCALLS X86_64.
Lemma x86_64_inverse s : List.find (λ t, x86_64_sysno t =? x86_64_sysno s) named_syscalls = Some s.
Proof. destruct s; reflexivity. Qed.

Lemma x86_64_laws : LibcLaws x86_64_libc.
Proof.
  split; [|vm_compute; intuition discriminate].
  intros a b E. simpl in E. pose proof (x86_64_inverse a) as Ha.
  rewrite E, x86_64_inverse in Ha. congruence.
Qed.

(** [openat] is let through. *)
Definition openat_call : seccomp_data := mk_data 257 AUDIT_ARCH_X86_64 0 [0; 0; 0; 0; 0; 0].

Lemma filter_allows_only_witness :
  Z.land (nr openat_call) X32_SYSCALL_BIT = 0 ∧ nr openat_call ≠ x86_64_sysno SYS_mount.
Proof.
  destruct (@build_program_for_profile x86_64_libc X86_64 UnixOnly AgentMin) as [p|] eqn:E;
    [|vm_compute in E; discriminate E].
  destruct (@filter_allows_only x86_64_libc x86_64_laws X86_64 UnixOnly AgentMin p openat_call E
    eq_refl) as (_ & Hx & Hn & _).
  - vm_compute in E. injection E as <-. vm_compute. reflexivity.
  - split; [exact Hx|]. apply (Hn SYS_mount). apply (bool_decide_unpack _). vm_compute. exact I.
Defined.

(** ** What the kernel's checker asks of a program *)

Definition known_opcode (c : Z) : bool :=
  existsb (Z.eqb c)
    [BPF_LD_BPF_W_BPF_ABS; BPF_JMP_JEQ_K; BPF_JMP_JSET_K; BPF_ALU_AND_K; BPF_RET].
Definition is_jump (c : Z) : bool := (c =? BPF_JMP_JEQ_K) || (c =? BPF_JMP_JSET_K).

(** Every opcode is known, loads are aligned words of [seccomp_data], every
    branch is a byte and lands inside the program, the last instruction
    returns. *)
Fixpoint checked (program : list SockFilter) : bool :=
  match program with
  | [] => true
  | i :: rest =>
      known_opcode (code i)
      && (if code i =? BPF_LD_BPF_W_BPF_ABS then (k i <? 64) && (k i mod 4 =? 0) else true)
      && (if is_jump (code i) then
            (0 <=? jt i) && (jt i <=? u8_max) && (jt i <? Z.of_nat (length rest))
            && (0 <=? jf i) && (jf i <=? u8_max) && (jf i <? Z.of_nat (length rest))
          else true)
      && match rest with [] => code i =? BPF_RET | _ => checked rest end
  end.

(** The program passes the kernel's checks on every target: known opcodes,
    aligned loads inside the record, branches that fit their byte and land
    inside the program, a final return, and a length within the classic limit
    of 4096 instructions and the 16-bit length field. *)
Theorem filter_is_accepted `{Libc} arch policy profile :
  ∃ program, build_program_for_profile arch policy profile = Some program
    ∧ checked program = true ∧ 0 < Z.of_nat (length program) ≤ 4096.
Proof.
  exists (expected_program arch policy profile). split; [apply build_program_expected|].
  unfold expected_program. generalize (Z.lor SECCOMP_RET_ERRNO EPERM)
    (Z.lor SECCOMP_RET_ERRNO ENOSYS) (Z.lor SECCOMP_RET_ERRNO EACCES). intros eperm enosys eacces.
  destruct arch, policy, profile; vm_compute; split; try reflexivity; split; congruence.
Qed.
