(* ===== verification/Landlock.v ===== *)
(** * Landlock: file-system and port rules

    Model of [src/src/sandbox/linux/landlock.rs]: the access masks per ABI, the
    preparation of path and port rules, the ABI negotiation and the application
    of a ruleset as a sequence of kernel calls.  The file system ([exists],
    [is_dir], opening a path) and the kernel are arguments; the kernel answers a
    call from the history of the calls before it.  Paths are compared by their
    components, so two spellings of a path share one rule. *)

From S2P Require Import Prelude Paths.

(** ** Access rights *)

Definition bit (n : Z) : Z := Z.shiftl 1 n.

Definition EXECUTE : Z := bit 0.
Definition WRITE_FILE : Z := bit 1.
Definition READ_FILE : Z := bit 2.
Definition READ_DIR : Z := bit 3.
Definition REMOVE_DIR : Z := bit 4.
Definition REMOVE_FILE : Z := bit 5.
Definition MAKE_CHAR : Z := bit 6.
Definition MAKE_DIR : Z := bit 7.
Definition MAKE_REG : Z := bit 8.
Definition MAKE_SOCK : Z := bit 9.
Definition MAKE_FIFO : Z := bit 10.
Definition MAKE_BLOCK : Z := bit 11.
Definition MAKE_SYM : Z := bit 12.
Definition REFER : Z := bit 13.
Definition TRUNCATE : Z := bit 14.
Definition IOCTL_DEV : Z := bit 15.
Definition NET_BIND_TCP : Z := bit 0.
Definition NET_CONNECT_TCP : Z := bit 1.
Definition SCOPE_ABSTRACT_UNIX_SOCKET : Z := bit 0.
Definition SCOPE_SIGNAL : Z := bit 1.

(** [a | b | ...]. *)
Definition union_of (rights : list Z) : Z := fold_left Z.lor rights 0.
Definition when (b : bool) (right : Z) : Z := if b then right else 0.

Definition ruleset_attr_size_for_abi (abi : Z) : Z :=
  if 6 <=? abi then 24 else if 4 <=? abi then 16 else 8.

Definition handled_fs_mask (abi : Z) : Z :=
  union_of
    [EXECUTE; WRITE_FILE; READ_FILE; READ_DIR; REMOVE_DIR; REMOVE_FILE; MAKE_CHAR; MAKE_DIR;
     MAKE_REG; MAKE_SOCK; MAKE_FIFO; MAKE_BLOCK; MAKE_SYM;
     when (2 <=? abi) REFER; when (3 <=? abi) TRUNCATE; when (5 <=? abi) IOCTL_DEV].
Definition handled_net_mask (abi : Z) : Z :=
  if 4 <=? abi then Z.lor NET_BIND_TCP NET_CONNECT_TCP else 0.
Definition handled_scope_mask (abi : Z) : Z :=
  if 6 <=? abi then Z.lor SCOPE_ABSTRACT_UNIX_SOCKET SCOPE_SIGNAL else 0.

Definition read_only_rights (is_dir : bool) (abi : Z) : Z :=
  union_of [READ_FILE; EXECUTE; when is_dir READ_DIR; when (5 <=? abi) IOCTL_DEV].

Definition write_rights (abi : Z) : Z :=
  union_of
    [read_only_rights true abi; WRITE_FILE; REMOVE_DIR; REMOVE_FILE; MAKE_DIR; MAKE_REG;
     MAKE_SYM; MAKE_FIFO; MAKE_SOCK; MAKE_CHAR; MAKE_BLOCK;
     when (2 <=? abi) REFER; when (3 <=? abi) TRUNCATE; when (5 <=? abi) IOCTL_DEV].

(** What a rule on a file may grant. *)
Definition file_mask (abi : Z) : Z :=
  union_of [READ_FILE; WRITE_FILE; EXECUTE; when (3 <=? abi) TRUNCATE; when (5 <=? abi) IOCTL_DEV].

(** ** Prepared rules *)

Record PreparedRule : Type := mk_rule { rule_path : path; allowed_access : Z }.
Record PreparedNetPortRule : Type := mk_port_rule { port : Z; port_access : Z }.
Record PreparedRuleset : Type := mk_ruleset {
  abi : Z;
  rules : list PreparedRule;
  net_rules : list PreparedNetPortRule;
}.

(** [*map.entry(port).or_default() |= right] on an ordered map. *)
Fixpoint port_entry (p right : Z) (m : list (Z * Z)) : list (Z * Z) :=
  match m with
  | [] => [(p, right)]
  | (q, r) :: m' =>
      if p <? q then (p, right) :: m
      else if p =? q then (q, Z.lor r right) :: m'
      else (q, r) :: port_entry p right m'
  end.

Definition prepare_net_port_rules (abi : Z) (bind_ports connect_ports : list Z) :
  list PreparedNetPortRule :=
  if abi <? 4 then []
  else
    let m := fold_left (λ m p, port_entry p NET_BIND_TCP m) bind_ports [] in
    let m := fold_left (λ m p, port_entry p NET_CONNECT_TCP m) connect_ports m in
    (λ '(p, a), mk_port_rule p a) <$> m.

(** [wanted.entry(path).or_insert(0) |= rights]. *)
Fixpoint want (p : path) (rights : Z) (wanted : list (path * Z)) : list (path * Z) :=
  match wanted with
  | [] => [(p, Z.lor 0 rights)]
  | (q, r) :: w => if bool_decide (p = q) then (q, Z.lor r rights) :: w
                   else (q, r) :: want p rights w
  end.

Fixpoint insert_rule (x : PreparedRule) (l : list PreparedRule) : list PreparedRule :=
  match l with
  | [] => [x]
  | y :: l' => match compare_path (rule_path x) (rule_path y) with
               | Gt => y :: insert_rule x l'
               | _ => x :: l
               end
  end.
Definition sort_rules (l : list PreparedRule) : list PreparedRule := foldr insert_rule [] l.

Section Prepare.
Variable exists_ : path → bool.
Variable is_dir : path → bool.

Definition effective_rights (abi : Z) (p : path) (rights : Z) : Z :=
  if is_dir p then rights else Z.land rights (file_mask abi).

Definition write_root_rights (abi : Z) (strip_read_on_write : bool) : Z :=
  if strip_read_on_write then Z.ldiff (write_rights abi) READ_FILE else write_rights abi.

Definition wanted_rights (abi : Z) (allow_write allow_read : list path) (strip : bool) :
  list (path * Z) :=
  let wanted := fold_left (λ w p, want p (read_only_rights (is_dir p) abi) w)
                  (List.filter exists_ allow_read) [] in
  fold_left (λ w p, want p (write_root_rights abi strip) w) (List.filter exists_ allow_write) wanted.

Definition prepare_ruleset_with_net_for_abi (abi : Z) (allow_write allow_read : list path)
    (strip_read_on_write : bool) (bind_ports connect_ports : list Z) : PreparedRuleset :=
  let wanted := wanted_rights abi allow_write allow_read strip_read_on_write in
  let rules := omap (λ '(p, rights),
    let effective := effective_rights abi p rights in
    if effective =? 0 then None else Some (mk_rule p effective)) wanted in
  mk_ruleset abi (sort_rules rules) (prepare_net_port_rules abi bind_ports connect_ports).

Definition prepare_ruleset_for_abi (abi : Z) (allow_write allow_read : list path)
    (strip_read_on_write : bool) : PreparedRuleset :=
  prepare_ruleset_with_net_for_abi abi allow_write allow_read strip_read_on_write [] [].
End Prepare.

(** ** Application: kernel calls *)

Record LandlockRulesetAttr : Type := mk_attr {
  handled_access_fs : Z;
  handled_access_net : Z;
  handled_access_scope : Z;
}.

Inductive call : Type :=
| CreateRuleset (attr : LandlockRulesetAttr) (size : Z)
| AddPathRule (p : path) (access : Z)
| AddNetRule (p access : Z)
| SetNoNewPrivs
| RestrictSelf.

Definition EINVAL : Z := 22.
Definition E2BIG : Z := 7.
Definition EOPNOTSUPP : Z := 95.
Definition ENOPKG : Z := 65.

(** [VettoError::Landlock], by the step that failed. *)
Inductive LandlockError : Type :=
| NoLandlock
| NetIsolation (errno : Z)
| CreateFailed (errno : Z)
| OpenError (msg : string)
| AddRuleFailed (p : path) (errno : Z)
| NetAbiTooOld (abi : Z)
| AddNetRuleFailed (p access errno : Z)
| NoNewPrivsFailed (errno : Z)
| RestrictFailed (errno : Z).

Section Apply.
Variable exists_ : path → bool.
Variable is_dir : path → bool.
(** [open_path_fd]: whether the opened inode is a directory, or the message. *)
Variable open_path : path → result string bool.
(** The kernel: [None] is success, [Some e] the error number. *)
Variable kernel : list call → call → option Z.

(** Calls made so far, oldest first. *)
Definition steps (A : Type) : Type := list call → list call * result LandlockError A.
Definition sys (c : call) : list call → list call * option Z := λ h, (h ++ [c], kernel h c).

Definition ruleset_attr (abi : Z) (has_net : bool) : LandlockRulesetAttr :=
  mk_attr (handled_fs_mask abi) (if has_net && (4 <=? abi) then handled_net_mask abi else 0)
    (handled_scope_mask abi).

(** The negotiation loop; every retry lowers the ABI, so [Z.to_nat abi] rounds
    are enough. *)
Fixpoint create_ruleset_dynamic (fuel : nat) (abi : Z) (has_net : bool) :
  steps (Z * bool) := λ h,
  let '(h, r) := sys (CreateRuleset (ruleset_attr abi has_net) (ruleset_attr_size_for_abi abi)) h in
  match r with
  | None => (h, Ok (abi, has_net && (4 <=? abi)))
  | Some e =>
      if (e =? EINVAL) || (e =? E2BIG) then
        if has_net then (h, Err (NetIsolation e))
        else if 1 <? abi then
          match fuel with
          | S fuel => create_ruleset_dynamic fuel (abi - 1) has_net h
          | O => (h, Err (CreateFailed e))
          end
        else (h, Err (CreateFailed e))
      else (h, Err (CreateFailed e))
  end.

Definition is_loop_message (msg : string) : bool :=
  contains msg "Too many levels of symbolic links" || contains msg "ELOOP".

Fixpoint add_path_rules (abi : Z) (rs : list PreparedRule) : steps unit := λ h,
  match rs with
  | [] => (h, Ok tt)
  | r :: rs =>
      match open_path (rule_path r) with
      | Err msg => if is_loop_message msg then add_path_rules abi rs h
                   else (h, Err (OpenError msg))
      | Ok opened_dir =>
          let effective := if opened_dir then allowed_access r
                           else Z.land (allowed_access r) (file_mask abi) in
          if effective =? 0 then add_path_rules abi rs h
          else
            let '(h, e) := sys (AddPathRule (rule_path r) effective) h in
            match e with
            | Some e => (h, Err (AddRuleFailed (rule_path r) e))
            | None => add_path_rules abi rs h
            end
      end
  end.

Definition pty_paths : list path := components <$> ["/dev/ptmx"; "/dev/pts"; "/dev/tty"].

(** Failures are ignored. *)
Definition add_pty_rule (h : list call) (p : path) : list call :=
  if negb (exists_ p) then h
  else match open_path p with
       | Err _ => h
       | Ok opened_dir =>
           (sys (AddPathRule p
              (if opened_dir then union_of [READ_FILE; WRITE_FILE; READ_DIR; IOCTL_DEV]
               else union_of [READ_FILE; WRITE_FILE; IOCTL_DEV])) h).1
       end.
Definition add_pty_whitelist (abi : Z) (h : list call) : list call :=
  if abi <? 5 then h else fold_left add_pty_rule pty_paths h.

Fixpoint add_net_rules (strict_net : bool) (rs : list PreparedNetPortRule) : steps unit := λ h,
  match rs with
  | [] => (h, Ok tt)
  | r :: rs =>
      let '(h, e) := sys (AddNetRule (port r) (port_access r)) h in
      match e with
      | None => add_net_rules strict_net rs h
      | Some e =>
          if ((e =? EOPNOTSUPP) || (e =? ENOPKG)) && negb strict_net then (h, Ok tt)
          else (h, Err (AddNetRuleFailed (port r) (port_access r) e))
      end
  end.

Definition apply_net_port_rules (abi : Z) (bind_ports connect_ports : list Z)
    (strict_net : bool) : steps unit := λ h,
  if abi <? 4 then
    if strict_net then (h, Err (NetAbiTooOld abi)) else (h, Ok tt)
  else add_net_rules strict_net (prepare_net_port_rules abi bind_ports connect_ports) h.

(** [abi_version] is the probe; the loop's bound is the detected ABI. *)
Definition apply_policy_advanced (abi_version : option Z) (allow_write allow_read : list path)
    (strip_read_on_write : bool) (bind_ports connect_ports : list Z) (strict_net : bool) :
  steps unit := λ h,
  match abi_version with
  | None => (h, Err NoLandlock)
  | Some detected_abi =>
      let has_net := negb (bool_decide (bind_ports = [])) || negb (bool_decide (connect_ports = []))
                     || strict_net in
      let '(h, r) := create_ruleset_dynamic (Z.to_nat detected_abi) detected_abi has_net h in
      match r with
      | Err e => (h, Err e)
      | Ok (effective_abi, _net_active) =>
          let prepared := prepare_ruleset_with_net_for_abi exists_ is_dir effective_abi
            allow_write allow_read strip_read_on_write bind_ports connect_ports in
          let '(h, r) := add_path_rules effective_abi (rules prepared) h in
          match r with
          | Err e => (h, Err e)
          | Ok _ =>
              let h := add_pty_whitelist effective_abi h in
              let '(h, r) :=
                if has_net
                then apply_net_port_rules effective_abi bind_ports connect_ports strict_net h
                else (h, Ok tt) in
              match r with
              | Err e => (h, Err e)
              | Ok _ =>
                  let '(h, e) := sys SetNoNewPrivs h in
                  match e with
                  | Some e => (h, Err (NoNewPrivsFailed e))
                  | None =>
                      let '(h, e) := sys RestrictSelf h in
                      match e with
                      | Some e => (h, Err (RestrictFailed e))
                      | None => (h, Ok tt)
                      end
                  end
              end
          end
      end
  end.
End Apply.

(** ** Lemmas: the prepared rules *)

(** [p] holds the right [b] in a table of rights. *)
Definition granted (wanted : list (path * Z)) (p : path) (b : Z) : Prop :=
  ∃ r, (p, r) ∈ wanted ∧ Z.testbit r b = true.

Lemma granted_nil p b : ¬ granted [] p b.
Proof. intros (r & H & _). by apply elem_of_nil in H. Qed.

Lemma granted_cons q r w p b :
  granted ((q, r) :: w) p b ↔ (p = q ∧ Z.testbit r b = true) ∨ granted w p b.
Proof.
  unfold granted. split.
  - intros (r' & [[= -> ->]|H]%elem_of_cons & Hb); [by left|right; eauto].
  - intros [[-> Hb]|(r' & H & Hb)]; [exists r; split; [left|done]|exists r'; split; [by right|done]].
Qed.

Lemma granted_want p r w q b :
  granted (want p r w) q b ↔ granted w q b ∨ (q = p ∧ Z.testbit r b = true).
Proof.
  induction w as [|[q0 r0] w IH]; simpl.
  - rewrite granted_cons. pose proof (granted_nil q b). tauto.
  - case_bool_decide as E; rewrite !granted_cons; [|rewrite IH; tauto].
    subst q0. rewrite Z.lor_spec, orb_true_iff. tauto.
Qed.

Lemma granted_fold (f : path → Z) ps w q b :
  granted (fold_left (λ w p, want p (f p) w) ps w) q b ↔
  granted w q b ∨ (q ∈ ps ∧ Z.testbit (f q) b = true).
Proof.
  revert w. induction ps as [|p ps IH]; intros w; simpl.
  - rewrite elem_of_nil. tauto.
  - rewrite IH, granted_want, elem_of_cons. split.
    + intros [[?|[-> ?]]|[? ?]]; [by left|right; split; [by left|done]|right; split; [by right|done]].
    + intros [?|[[->|?] ?]]; [by left; left|by left; right|by right].
Qed.

Lemma elem_filter_exists (f : path → bool) l p :
  p ∈ List.filter f l ↔ p ∈ l ∧ f p = true.
Proof. rewrite !list_elem_of_In. apply filter_In. Qed.

Lemma insert_rule_elem x l r : r ∈ insert_rule x l ↔ r = x ∨ r ∈ l.
Proof.
  induction l as [|y l IH]; simpl; [by rewrite list_elem_of_singleton, elem_of_nil; tauto|].
  destruct (compare_path _ _); rewrite !elem_of_cons, ?IH; tauto.
Qed.

Lemma sort_rules_elem l r : r ∈ sort_rules l ↔ r ∈ l.
Proof.
  induction l as [|x l IH]; simpl; [done|]. rewrite insert_rule_elem, IH, elem_of_cons. done.
Qed.

Lemma effective_bit is_dir abi p r b :
  Z.testbit (effective_rights is_dir abi p r) b = true ↔
  Z.testbit r b = true ∧ (is_dir p = true ∨ Z.testbit (file_mask abi) b = true).
Proof.
  unfold effective_rights. destruct (is_dir p); [tauto|].
  rewrite Z.land_spec, andb_true_iff. intuition discriminate.
Qed.

Section PrepareFacts.
Context (exists_ is_dir : path → bool).

Lemma wanted_granted abi aw ar strip p b :
  granted (wanted_rights exists_ is_dir abi aw ar strip) p b ↔
  exists_ p = true
  ∧ ((p ∈ ar ∧ Z.testbit (read_only_rights (is_dir p) abi) b = true)
     ∨ (p ∈ aw ∧ Z.testbit (write_root_rights abi strip) b = true)).
Proof.
  unfold wanted_rights. rewrite !granted_fold, !elem_filter_exists.
  pose proof (granted_nil p b). tauto.
Qed.

Lemma rule_elem abi aw ar strip bs cs r :
  r ∈ rules (prepare_ruleset_with_net_for_abi exists_ is_dir abi aw ar strip bs cs) ↔
  ∃ rights, (rule_path r, rights) ∈ wanted_rights exists_ is_dir abi aw ar strip
    ∧ allowed_access r = effective_rights is_dir abi (rule_path r) rights
    ∧ allowed_access r ≠ 0.
Proof.
  unfold prepare_ruleset_with_net_for_abi. simpl. rewrite sort_rules_elem, list_elem_of_omap. split.
  - intros ([p rights] & Hin & Hr).
    destruct (Z.eqb_spec (effective_rights is_dir abi p rights) 0); [done|].
    injection Hr as <-. simpl. by exists rights.
  - intros (rights & Hin & Ha & Hn). exists (rule_path r, rights). split; [done|].
    rewrite <-Ha. destruct (Z.eqb_spec (allowed_access r) 0); [done|]. by destruct r.
Qed.

(** Whether some prepared rule grants right [b] on [q]. *)
Definition rules_grant (rs : list PreparedRule) (q : path) (b : Z) : Prop :=
  ∃ r, r ∈ rs ∧ path_starts_with q (rule_path r) = true ∧ Z.testbit (allowed_access r) b = true.

Lemma rules_grant_iff abi aw ar strip bs cs q b :
  rules_grant (rules (prepare_ruleset_with_net_for_abi exists_ is_dir abi aw ar strip bs cs)) q b ↔
  ∃ p, path_starts_with q p = true ∧ exists_ p = true
    ∧ (is_dir p = true ∨ Z.testbit (file_mask abi) b = true)
    ∧ ((p ∈ ar ∧ Z.testbit (read_only_rights (is_dir p) abi) b = true)
       ∨ (p ∈ aw ∧ Z.testbit (write_root_rights abi strip) b = true)).
Proof.
  unfold rules_grant. split.
  - intros (r & (rights & Hin & Ha & _)%rule_elem & Hq & Hb).
    rewrite Ha in Hb. apply effective_bit in Hb as [Hb Hd].
    assert (granted (wanted_rights exists_ is_dir abi aw ar strip) (rule_path r) b) as Hg
      by (by exists rights).
    apply wanted_granted in Hg as [? ?]. by exists (rule_path r).
  - intros (p & Hq & He & Hd & Hg).
    assert (granted (wanted_rights exists_ is_dir abi aw ar strip) p b) as (rights & Hin & Hb)
      by (by apply wanted_granted).
    assert (Z.testbit (effective_rights is_dir abi p rights) b = true) as Hb'
      by (by apply effective_bit).
    exists (mk_rule p (effective_rights is_dir abi p rights)). split; [|done].
    apply rule_elem. exists rights. simpl. split_and!; [done|done|].
    intros E. rewrite E, Z.bits_0 in Hb'. discriminate Hb'.
Qed.
End PrepareFacts.

(** Masks as bits: the ABI tests become free booleans and the masks constants. *)
Ltac case_abi :=
  repeat match goal with |- context [?n <=? ?a] => is_var a; destruct (n <=? a) end.

Lemma bits_sub a b i :
  Z.ldiff a b = 0 → Z.testbit a i = true → Z.testbit b i = true.
Proof.
  intros H Ha. destruct (Z.testbit b i) eqn:E; [done|].
  assert (Z.testbit (Z.ldiff a b) i = true) as Hd by (by rewrite Z.ldiff_spec, Ha, E).
  rewrite H, Z.bits_0 in Hd. discriminate Hd.
Qed.

Lemma write_rights_handled abi : Z.ldiff (write_rights abi) (handled_fs_mask abi) = 0.
Proof. unfold write_rights, read_only_rights, handled_fs_mask, when. case_abi; reflexivity. Qed.

Lemma read_rights_handled d abi : Z.ldiff (read_only_rights d abi) (handled_fs_mask abi) = 0.
Proof. unfold read_only_rights, handled_fs_mask, when. case_abi; destruct d; reflexivity. Qed.

(** The rights that change the file system. *)
Definition mutating : list Z := [1; 4; 5; 6; 7; 8; 9; 10; 11; 12; 13; 14].

Lemma read_rights_not_mutating d abi b :
  b ∈ mutating → Z.testbit (read_only_rights d abi) b = false.
Proof.
  unfold mutating, read_only_rights, when. intros Hb.
  case_abi; destruct d; repeat (apply elem_of_cons in Hb as [->|Hb]; [reflexivity|]);
    by apply elem_of_nil in Hb.
Qed.

Lemma write_root_strip_read abi : Z.testbit (write_root_rights abi true) 2 = false.
Proof. unfold write_root_rights. by rewrite Z.ldiff_spec, andb_false_r. Qed.

(** ** Properties of the prepared rules *)

(** What the prepared rules grant, exactly: a right on a path is granted if
    and only if an existing read root above it carries it among the read-only
    rights, or an existing write root above it carries it among the write
    rights (without READ_FILE when stripped), cut down to the file rights where
    the root is no directory. *)
Theorem prepared_rules_exact exists_ is_dir abi aw ar strip bs cs q b :
  rules_grant (rules (prepare_ruleset_with_net_for_abi exists_ is_dir abi aw ar strip bs cs)) q b ↔
  ∃ p, path_starts_with q p = true ∧ exists_ p = true
    ∧ (is_dir p = true ∨ Z.testbit (file_mask abi) b = true)
    ∧ ((p ∈ ar ∧ Z.testbit (read_only_rights (is_dir p) abi) b = true)
       ∨ (p ∈ aw ∧ Z.testbit (write_root_rights abi strip) b = true)).
Proof. apply rules_grant_iff. Qed.

(** The prepared rules keep the two lists apart on every ABI: a right that
    changes the file system is granted only below a write root, and when
    reading is stripped from write roots READ_FILE is granted only below a read
    root; every rule asks for a non-empty subset of the rights the ruleset
    handles. *)
Theorem prepared_rules_separate exists_ is_dir abi aw ar strip bs cs q :
  let rs := rules (prepare_ruleset_with_net_for_abi exists_ is_dir abi aw ar strip bs cs) in
  (∀ b, b ∈ mutating → rules_grant rs q b → ∃ p, p ∈ aw ∧ path_starts_with q p = true)
  ∧ (strip = true → rules_grant rs q 2 → ∃ p, p ∈ ar ∧ path_starts_with q p = true)
  ∧ (∀ r, r ∈ rs → allowed_access r ≠ 0
      ∧ ∀ b, Z.testbit (allowed_access r) b = true → Z.testbit (handled_fs_mask abi) b = true).
Proof.
  cbv zeta. split_and!.
  - intros b Hb (p & Hq & _ & _ & [[_ Hr]|[Hp _]])%rules_grant_iff; [|by exists p].
    by rewrite read_rights_not_mutating in Hr.
  - intros -> (p & Hq & _ & _ & [[Hp _]|[_ Hr]])%rules_grant_iff; [by exists p|].
    by rewrite write_root_strip_read in Hr.
  - intros r Hin. pose proof (proj1 (rule_elem _ _ _ _ _ _ _ _ _) Hin) as (rights & Hw & Ha & Hn).
    split; [done|]. intros b Hb. rewrite Ha in Hb. apply effective_bit in Hb as [Hb _].
    assert (granted (wanted_rights exists_ is_dir abi aw ar strip) (rule_path r) b) as Hg
      by (by exists rights).
    apply wanted_granted in Hg as (_ & [[_ Hr]|[_ Hr]]).
    + by apply (bits_sub _ _ _ (read_rights_handled _ _)) in Hr.
    + apply (bits_sub _ _ _ (write_rights_handled _)). unfold write_root_rights in Hr.
      destruct strip; [|done]. rewrite Z.ldiff_spec in Hr. by apply andb_true_iff in Hr as [? _].
Qed.

(** ** Lemmas: application *)

Section ApplyFacts.
Context (exists_ : path → bool) (is_dir : path → bool).
Context (open_path : path → result string bool).
Context (kernel : list call → call → option Z).

(** A call of the history that the kernel accepted when it was made. *)
Definition accepted (h : list call) (c : call) : Prop :=
  ∃ before after, h = before ++ c :: after ∧ kernel before c = None.

Lemma accepted_last h c : kernel h c = None → accepted (h ++ [c]) c.
Proof. intros H. by exists h, []. Qed.

Lemma accepted_app h l c : accepted h c → accepted (h ++ l) c.
Proof. intros (b & a & -> & H). exists b, (a ++ l). by rewrite <-app_assoc. Qed.

Definition create_call (has_net : bool) (abi : Z) : call :=
  CreateRuleset (ruleset_attr abi has_net) (ruleset_attr_size_for_abi abi).

(** Creation calls for higher ABIs, each refused as unknown to the kernel. *)
Definition refused (has_net : bool) (abi : Z) (h tries : list call) : Prop :=
  ∀ before c after, tries = before ++ c :: after →
    ∃ a e, abi < a ∧ c = create_call has_net a ∧ kernel (h ++ before) c = Some e ∧ (e = EINVAL ∨ e = E2BIG).

(** Negotiation ends with the ruleset it reports, accepted after refusals only; with
    network rules it never lowers the ABI. *)
Lemma create_ruleset_ok fuel abi has_net h h' eabi net :
  create_ruleset_dynamic kernel fuel abi has_net h = (h', Ok (eabi, net)) →
  ∃ tries, h' = h ++ tries ++ [create_call has_net eabi] ∧ refused has_net eabi h tries
    ∧ kernel (h ++ tries) (create_call has_net eabi) = None
    ∧ eabi ≤ abi ∧ (has_net = true → eabi = abi).
Proof.
  assert (∀ a, refused has_net a h []) as Hnil by (by intros a [|x ?] c after [=]).
  revert abi h Hnil. induction fuel as [|fuel IH]; intros abi h Hnil; cbn [create_ruleset_dynamic sys];
    change (CreateRuleset _ _) with (create_call has_net abi);
    destruct (kernel h (create_call has_net abi)) as [e|] eqn:Hk.
  1,3: destruct (_ || _) eqn:He; [|done]; destruct has_net; [done|]; destruct (Z.ltb_spec 1 abi); [|done];
    try done.
  2,3: intros [= <- <- <-]; exists []; rewrite app_nil_r; split_and!; done.
  intros (tries & -> & Ht & Hk' & Hle & Hn)%IH; [|by intros a [|x ?] c after [=]].
  exists (create_call false abi :: tries).
  rewrite <-!app_assoc in *. cbn [app] in *. split_and!; try done; [|lia].
  intros before c after E. destruct before as [|x before]; cbn [app] in E; injection E as <- E.
  - rewrite app_nil_r. exists abi, e. split_and!; [lia|done|done|].
    apply orb_true_iff in He as [He|He]; apply Z.eqb_eq in He; auto.
  - destruct (Ht before c after E) as (a & e' & ? & ? & Hka & ?). rewrite <-app_assoc in Hka.
    exists a, e'. by split_and!.
Qed.

(** A path rule that was added descends from a prepared rule. *)
Definition from_rules (abi : Z) (rs : list PreparedRule) (c : call) : Prop :=
  ∃ r a, c = AddPathRule (rule_path r) a ∧ r ∈ rs
    ∧ (a = allowed_access r ∨ a = Z.land (allowed_access r) (file_mask abi)).

Lemma add_path_rules_steps abi rs h h' r :
  add_path_rules open_path kernel abi rs h = (h', r) →
  ∃ added, h' = h ++ added ∧ Forall (from_rules abi rs) added.
Proof.
  revert h. induction rs as [|x rs IH]; intros h; cbn [add_path_rules sys].
  { intros [= <- <-]. exists []. by rewrite app_nil_r. }
  assert (∀ added, Forall (from_rules abi rs) added → Forall (from_rules abi (x :: rs)) added)
    as Hw.
  { intros added H. eapply Forall_impl; [exact H|]. intros c (y & a & ? & Hy & ?).
    exists y, a. split_and!; [done|by right|done]. }
  assert (∀ h, add_path_rules open_path kernel abi rs h = (h', r) →
    ∃ added, h' = h ++ added ∧ Forall (from_rules abi (x :: rs)) added) as IH'.
  { intros ? (added & -> & Ha)%IH. exists added. split; [done|by apply Hw]. }
  destruct (open_path (rule_path x)) as [d|msg].
  - set (a := if d then _ else _). destruct (a =? 0); [apply IH'|].
    assert (from_rules abi (x :: rs) (AddPathRule (rule_path x) a)) as Hx.
    { exists x, a. split_and!; [done|left|]. destruct d; [by left|by right]. }
    destruct (kernel h _).
    + intros [= <- <-]. exists [AddPathRule (rule_path x) a]. split; [done|by constructor].
    + intros (added & -> & Ha)%IH'. exists (AddPathRule (rule_path x) a :: added).
      rewrite <-app_assoc. split; [done|by constructor].
  - destruct (is_loop_message msg); [apply IH'|]. intros [= <- <-]. exists [].
    by rewrite app_nil_r.
Qed.

(** Every prepared rule that can be opened and grants something was accepted. *)
Lemma add_path_rules_complete abi rs h h' :
  add_path_rules open_path kernel abi rs h = (h', Ok tt) →
  (∃ l, h' = h ++ l)
  ∧ ∀ r d, r ∈ rs → open_path (rule_path r) = Ok d →
      let a := if d : bool then allowed_access r else Z.land (allowed_access r) (file_mask abi) in
      a ≠ 0 → accepted h' (AddPathRule (rule_path r) a).
Proof.
  revert h. induction rs as [|x rs IH]; intros h; cbn [add_path_rules sys].
  { intros [= <-]. split; [exists []; by rewrite app_nil_r|]. by intros r d ?%not_elem_of_nil. }
  destruct (open_path (rule_path x)) as [dx|msg] eqn:Ex.
  - cbv zeta. destruct (Z.eqb_spec (if dx then allowed_access x else Z.land (allowed_access x) (file_mask abi)) 0) as [E0|].
    + intros [Hl Hall]%IH. split; [done|]. intros r d [->|Hr]%elem_of_cons Hd Ha; [|by apply Hall].
      rewrite Ex in Hd. by injection Hd as <-.
    + destruct (kernel h _) eqn:Hk; [done|]. intros [[l ->] Hall]%IH. rewrite <-app_assoc.
      split; [by eexists|]. intros r d [->|Hr]%elem_of_cons Hd Ha.
      * rewrite Ex in Hd. injection Hd as <-. rewrite app_assoc. by apply accepted_app, accepted_last.
      * rewrite app_assoc. by apply Hall.
  - destruct (is_loop_message msg); [|done]. intros [Hl Hall]%IH. split; [done|].
    intros r d [->|Hr]%elem_of_cons Hd; [congruence|by apply Hall].
Qed.

Lemma add_pty_steps abi h :
  ∃ added, add_pty_whitelist exists_ open_path kernel abi h = h ++ added
    ∧ Forall (λ c, ∃ p a, c = AddPathRule p a ∧ p ∈ pty_paths) added.
Proof.
  unfold add_pty_whitelist. destruct (abi <? 5); [exists []; by rewrite app_nil_r|].
  assert (∀ ps, (∀ p, p ∈ ps → p ∈ pty_paths) → ∀ h,
    ∃ added, fold_left (add_pty_rule exists_ open_path kernel) ps h = h ++ added
      ∧ Forall (λ c, ∃ p a, c = AddPathRule p a ∧ p ∈ pty_paths) added) as H; [|by apply H].
  clear h. induction ps as [|p ps IH]; intros Hp h; simpl; [exists []; by rewrite app_nil_r|].
  assert (∃ one, add_pty_rule exists_ open_path kernel h p = h ++ one
    ∧ Forall (λ c, ∃ p a, c = AddPathRule p a ∧ p ∈ pty_paths) one) as (one & -> & Hone).
  { unfold add_pty_rule. destruct (exists_ p); simpl; [|exists []; by rewrite app_nil_r].
    destruct (open_path p) as [d|]; [|exists []; by rewrite app_nil_r].
    eexists [_]. split; [done|]. constructor; [|done]. eexists _, _. split; [done|].
    apply Hp. left. }
  destruct (IH (λ p H, Hp p (list_elem_of_further _ _ _ H)) (h ++ one)) as (added & -> & Ha).
  exists (one ++ added). rewrite <-app_assoc. split; [done|]. by apply Forall_app.
Qed.

Lemma add_net_steps strict rs h h' r :
  add_net_rules kernel strict rs h = (h', r) →
  ∃ added, h' = h ++ added
    ∧ Forall (λ c, ∃ x, c = AddNetRule (port x) (port_access x) ∧ x ∈ rs) added
    ∧ (strict = true → r = Ok tt →
       ∀ x, x ∈ rs → accepted h' (AddNetRule (port x) (port_access x))).
Proof.
  revert h. induction rs as [|x rs IH]; intros h; cbn [add_net_rules sys].
  { intros [= <- <-]. exists []. rewrite app_nil_r. split_and!; [done|done|].
    intros _ _ y Hy. by apply elem_of_nil in Hy. }
  set (c := AddNetRule (port x) (port_access x)).
  assert (∃ y, c = AddNetRule (port y) (port_access y) ∧ y ∈ x :: rs) as Hc
    by (exists x; split; [done|left]).
  destruct (kernel h c) eqn:Hk.
  - intros H. exists [c]. assert (h' = h ++ [c] ∧ (strict = true → r ≠ Ok tt)) as [-> Hr].
    { destruct (_ || _), strict; cbn [andb negb] in H; by injection H as <- <-. }
    split_and!; [done|by constructor|]. intros Hs Ho. by destruct (Hr Hs).
  - intros (added & -> & Ha & Hall)%IH. exists (c :: added). rewrite <-app_assoc.
    split_and!; [done| |].
    + constructor; [done|]. eapply Forall_impl; [exact Ha|]. intros c' (y & ? & ?).
      exists y. split; [done|by right].
    + intros Hs Ho y [->|Hy]%elem_of_cons; rewrite app_assoc.
      * by apply accepted_app, accepted_last.
      * by apply Hall.
Qed.


Lemma apply_net_steps abi (has_net : bool) bs cs strict h h' r :
  (strict = true → has_net = true) →
  (if has_net then apply_net_port_rules kernel abi bs cs strict h else (h, Ok tt)) = (h', r) →
  r = Ok tt →
  ∃ nets, h' = h ++ nets ∧ Forall (λ c, ∃ p a, c = AddNetRule p a) nets
    ∧ (strict = true → 4 ≤ abi
       ∧ ∀ x, x ∈ prepare_net_port_rules abi bs cs → accepted h' (AddNetRule (port x) (port_access x))).
Proof.
  intros Hs. destruct has_net; cycle 1.
  { intros [= <- <-] _. exists []. rewrite app_nil_r. split_and!; [done|done|]. intros H.
    by specialize (Hs H). }
  unfold apply_net_port_rules. destruct (Z.ltb_spec abi 4).
  { destruct strict; intros [= <- <-]; [done|]. intros _. exists []. by rewrite app_nil_r. }
  intros (nets & -> & Hn & Hall)%add_net_steps ->. exists nets. split_and!; [done| |].
  - eapply Forall_impl; [exact Hn|]. intros c (x & -> & _). by eexists _, _.
  - intros Hst. split; [done|]. by apply Hall.
Qed.

(** A successful application ends by restricting the process. *)
Lemma apply_restricts version aw ar strip bs cs strict h :
  apply_policy_advanced exists_ is_dir open_path kernel version aw ar strip bs cs strict [] = (h, Ok tt) →
  ∃ pre, h = pre ++ [RestrictSelf] ∧ kernel pre RestrictSelf = None.
Proof.
  unfold apply_policy_advanced. destruct version as [detected|]; [|done]. set (has_net := _ || strict).
  destruct (create_ruleset_dynamic _ _ _ _ _) as [h1 [[eabi net]|]]; [|done].
  destruct (add_path_rules _ _ _ _ _) as [h2 [[]|]]; [|done]. cbv zeta.
  destruct (if has_net then _ else _) as [h3 [[]|]]; [|done]. cbn [sys].
  destruct (kernel h3 SetNoNewPrivs); [done|]. destruct (kernel _ RestrictSelf) eqn:Hk; [done|]. intros [= <-]. by eexists.
Qed.
End ApplyFacts.

(** ** Properties of the application *)

(** C25: A successful application ends in enforcement and enforces what was
    asked.  The calls made are: creations refused as unknown by the kernel, each for a
    higher ABI; then one accepted creation, of the ruleset for the effective ABI with
    all its file-system rights handled; then rules only; then no-new-privileges and the
    restriction, both accepted.  Network rules never lower the ABI.  Every prepared
    path rule that can be opened and grants something was accepted, and every path
    rule added comes from the prepared ones, cut to no more than its rights, or from
    the PTY whitelist.  Strict networking is only reported enforced with TCP handled
    and every port rule accepted. *)
Theorem apply_policy_enforces exists_ is_dir open_path kernel version aw ar strip bs cs strict h :
  apply_policy_advanced exists_ is_dir open_path kernel version aw ar strip bs cs strict []
    = (h, Ok tt) →
  ∃ tries mid detected eabi,
    let has_net := negb (bool_decide (bs = [])) || negb (bool_decide (cs = [])) || strict in
    let prepared := prepare_ruleset_with_net_for_abi exists_ is_dir eabi aw ar strip bs cs in
    let pre := tries ++ create_call has_net eabi :: mid in
    version = Some detected ∧ eabi ≤ detected ∧ (has_net = true → eabi = detected)
    ∧ h = pre ++ [SetNoNewPrivs; RestrictSelf]
    ∧ refused kernel has_net eabi [] tries
    ∧ kernel tries (create_call has_net eabi) = None
    ∧ Forall (λ c, ∃ p a, c = AddPathRule p a ∨ ∃ q, c = AddNetRule q a) mid
    ∧ kernel pre SetNoNewPrivs = None ∧ kernel (pre ++ [SetNoNewPrivs]) RestrictSelf = None
    ∧ (strict = true → handled_access_net (ruleset_attr eabi has_net)
                       = Z.lor NET_BIND_TCP NET_CONNECT_TCP
         ∧ ∀ x, x ∈ net_rules prepared → accepted kernel pre (AddNetRule (port x) (port_access x)))
    ∧ (∀ r d, r ∈ rules prepared → open_path (rule_path r) = Ok d →
         let a := if d : bool then allowed_access r else Z.land (allowed_access r) (file_mask eabi) in
         a ≠ 0 → accepted kernel pre (AddPathRule (rule_path r) a))
    ∧ ∀ p a, AddPathRule p a ∈ mid →
        p ∈ pty_paths
        ∨ ∃ r, r ∈ rules prepared ∧ p = rule_path r
               ∧ ∀ b, Z.testbit a b = true → Z.testbit (allowed_access r) b = true.
Proof.
  unfold apply_policy_advanced. destruct version as [detected|]; [|done].
  set (has_net := _ || strict).
  destruct (create_ruleset_dynamic _ _ _ _ _) as [h1 [[eabi net]|]] eqn:Hc; [|done].
  apply create_ruleset_ok in Hc as (tries & -> & Ht & Hk0 & Hle & Hnet). cbn [app] in Hk0 |- *.
  set (prepared := prepare_ruleset_with_net_for_abi _ _ _ _ _ _ _ _). cbv zeta.
  destruct (add_path_rules _ _ _ _ _) as [h2 [[]|]] eqn:Hp; [|done].
  pose proof (add_path_rules_complete _ _ _ _ _ _ Hp) as [_ Hpaths].
  apply add_path_rules_steps in Hp as (added & -> & Ha).
  match goal with |- context [add_pty_whitelist _ _ _ _ ?h] =>
    destruct (add_pty_steps exists_ open_path kernel eabi h) as (pty & -> & Hpty) end.
  destruct (if has_net then _ else _) as [h3 [[]|]] eqn:Hn; [|done].
  assert (strict = true → has_net = true) as Hsn by (unfold has_net; intros ->; apply orb_true_r).
  destruct (apply_net_steps kernel _ _ _ _ _ _ _ _ Hsn Hn eq_refl) as (nets & -> & Hnets & Hall).
  cbn [sys]. destruct (kernel _ SetNoNewPrivs) eqn:Hk1; [done|].
  destruct (kernel _ RestrictSelf) eqn:Hk2; [done|]. intros [= <-].
  assert (∀ l, (((tries ++ [create_call has_net eabi]) ++ added) ++ pty) ++ l
    = tries ++ create_call has_net eabi :: added ++ pty ++ l) as Ecat by (intros l; by rewrite <-!app_assoc).
  rewrite Ecat in *. exists tries, (added ++ pty ++ nets), detected, eabi.
  split_and!; [done|done|done|by rewrite <-app_assoc|exact Ht|exact Hk0| |exact Hk1|exact Hk2| | |].
  - rewrite !Forall_app. split_and!; (eapply Forall_impl; [eassumption|]); cbn.
    + intros c (r & a & -> & _). by exists (rule_path r), a; left.
    + intros c (p & a & -> & _). by exists p, a; left.
    + intros c (q & a & ->). exists [], a. right. by exists q.
  - intros Hs. destruct (Hall Hs) as [Habi Hin]. split; [|exact Hin].
    unfold ruleset_attr, handled_net_mask. cbn [handled_access_net].
    rewrite (Hsn Hs). by rewrite (proj2 (Z.leb_le 4 eabi) Habi).
  - intros r d Hr Hd Hne. pose proof (Hpaths r d Hr Hd Hne) as Hacc.
    apply (accepted_app _ _ (pty ++ nets)) in Hacc. by rewrite <-!app_assoc in Hacc.
  - intros p a. rewrite !elem_of_app. rewrite Forall_forall in Ha.  rewrite Forall_forall in Hpty.
    rewrite Forall_forall in Hnets. intros [Hin|[Hin|Hin]].
    + destruct (Ha _ Hin) as (r & a' & [= -> ->] & Hr & Hor).
      right. exists r. split_and!; [done|done|]. intros b.
      destruct Hor as [->| ->]; [done|]. rewrite Z.land_spec. by intros [? _]%andb_true_iff.
    + destruct (Hpty _ Hin) as (? & ? & [= <- <-] & ?). by left.
    + by destruct (Hnets _ Hin) as (? & ? & ?).
Qed.

(** A kernel that supports ABI 4 only and accepts everything else. *)
Definition abi4_kernel (_ : list call) (c : call) : option Z :=
  match c with
  | CreateRuleset attr _ =>
      if Z.ldiff (handled_access_fs attr) (handled_fs_mask 4) =? 0 then None else Some EINVAL
  | _ => None
  end.
Definition sample_apply : list call * result LandlockError unit :=
  apply_policy_advanced (λ _, true) (λ _, true) (λ _, Ok true) abi4_kernel (Some 4)
    [components "/work"] [components "/usr"] true [] [443] true [].

Lemma apply_policy_enforces_witness :
  List.last sample_apply.1 SetNoNewPrivs = RestrictSelf
  ∧ accepted abi4_kernel sample_apply.1 (create_call true 4).
Proof.
  destruct sample_apply as [h [[]|e]] eqn:E; [|vm_compute in E; discriminate E].
  destruct (apply_policy_enforces _ _ _ _ _ _ _ _ _ _ _ h E)
    as (tries & mid & detected & eabi & Hv & _ & Hn & -> & _ & Hc & _).
  injection Hv as <-. rewrite (Hn eq_refl) in *. cbn [fst]. split.
  - match goal with |- context [?pre ++ [SetNoNewPrivs; RestrictSelf]] =>
      change (pre ++ [SetNoNewPrivs; RestrictSelf]) with (pre ++ [SetNoNewPrivs] ++ [RestrictSelf]) end.
    rewrite app_assoc. apply list_last_snoc.
  - exists tries, (mid ++ [SetNoNewPrivs; RestrictSelf]). split; [by rewrite <-app_assoc|exact Hc].
Defined.

(** Without network rules an old kernel is met by lowering the ABI. *)
Example negotiation_lowers_abi :
  (create_ruleset_dynamic abi4_kernel 6 6 false []).2 = Ok (4, false).
Proof. reflexivity. Qed.
