(* ===== verification/Termination.v ===== *)
(** * Termination: deadline kill, extinction check and exit codes

    Model of [src/src/sandbox/killer.rs] (the deadline loop), of
    [src/src/proctree.rs] (the extinction verifier), and of the exit-code
    mappings of [src/src/exit_codes.rs], [src/src/error.rs] and
    [src/src/supervise/error.rs].  A killer works on a world: the child, the
    clock and the sleeping thread; the worlds are instances of [WaitKill]. *)

From S2P Require Import Prelude PolicyTypes.

(** ** Extinction *)

Definition MAX_EXTINCTION_DEADLINE_MS : Z := 500.
Definition FAIL_CLOSED_EXTINCTION_EXIT_CODE : Z := 125.

Inductive PlatformExtinctionTier : Type :=
| LinuxTier1Proven | WindowsTier3Proven | MacOsTier2BestEffort.

Definition is_authoritative (t : PlatformExtinctionTier) : bool :=
  match t with LinuxTier1Proven | WindowsTier3Proven => true | MacOsTier2BestEffort => false end.

Definition dash : string := utf8_3 226 128 148.
Definition platform_label (t : PlatformExtinctionTier) : string :=
  match t with
  | LinuxTier1Proven => "Linux (cgroups v2 " +:+ dash +:+ " Proven)"
  | WindowsTier3Proven => "Windows (Job Object " +:+ dash +:+ " Proven)"
  | MacOsTier2BestEffort => "macOS (Multi-Phase Sweep " +:+ dash +:+ " Best-Effort)"
  end.

Record ExtinctionProof : Type := mk_proof {
  proof_platform : PlatformExtinctionTier;
  proof_processes : Z;
  proof_resources : Z;
  proof_elapsed_ms : Z;
  mathematically_proven : bool;
}.

Record ExtinctionBreach : Type := mk_breach {
  breach_platform : PlatformExtinctionTier;
  breach_exit_code : Z;
  breach_reason : string;
  breach_processes : Z;
  breach_resources : Z;
  breach_elapsed_ms : Z;
}.

Definition verify (platform : PlatformExtinctionTier)
    (surviving_processes surviving_resources elapsed_ms : Z) :
  result ExtinctionBreach ExtinctionProof :=
  let breach reason :=
    Err (mk_breach platform FAIL_CLOSED_EXTINCTION_EXIT_CODE reason surviving_processes
           surviving_resources elapsed_ms) in
  if 0 <? surviving_processes then
    breach ("Lifecycle breach: " +:+ to_dec surviving_processes
            +:+ " descendant processes escaped extinction boundary")
  else if 0 <? surviving_resources then
    breach ("Resource breach: " +:+ to_dec surviving_resources
            +:+ " execution resources (pipes/mounts/IPC) leaked")
  else if MAX_EXTINCTION_DEADLINE_MS <? elapsed_ms then
    breach ("Extinction deadline exceeded: elapsed " +:+ to_dec elapsed_ms +:+ "ms > "
            +:+ to_dec MAX_EXTINCTION_DEADLINE_MS +:+ "ms max limit")
  else Ok (mk_proof platform 0 0 elapsed_ms (is_authoritative platform)).

(** ** The deadline loop *)

Inductive KillOutcome : Type := Exited | KilledOnDeadline.

(** [trait WaitKill] with the thread's clock: [now] is [Instant::now()] in
    nanoseconds and [sleep] is [thread::sleep]. *)
Class WaitKill (W : Type) : Type := {
  try_wait : W → W * option Z;
  terminate : W → W;
  terminate_graceful : W → W;
  now : W → W * Z;
  sleep : Z → W → W;
}.

Definition seconds (n : Z) : Z := n * 1000000000.

Section Killer.
Context {W : Type} `{WaitKill W}.

(** Poll until a reading of the clock reaches [end_]: the loop inside each
    escalation phase.  [None] in the outer option is exhausted fuel. *)
Fixpoint poll_until (fuel : nat) (end_ poll : Z) (w : W) : option (W * option Z) :=
  match fuel with
  | O => None
  | S fuel =>
      let '(w, code) := try_wait w in
      match code with
      | Some c => Some (w, Some c)
      | None =>
          let '(w, t) := now w in
          if end_ <=? t then Some (w, None) else poll_until fuel end_ poll (sleep poll w)
      end
  end.

(** Phase 2: forceful termination. *)
Definition force_kill (fuel : nat) (poll : Z) (w : W) : option (W * (KillOutcome * Z)) :=
  let w := terminate w in
  let '(w, t) := now w in
  '(w, code) ← poll_until fuel (t + seconds 10) poll w;
  match code with
  | Some c => Some (w, (KilledOnDeadline, c))
  | None => Some (terminate w, (KilledOnDeadline, -1))
  end.

(** Phase 1: graceful termination. *)
Definition escalate (fuel : nat) (poll grace : Z) (w : W) : option (W * (KillOutcome * Z)) :=
  let w := terminate_graceful w in
  let '(w, t) := now w in
  '(w, code) ← poll_until fuel (t + grace) poll w;
  match code with
  | Some c => Some (w, (KilledOnDeadline, c))
  | None => force_kill fuel poll w
  end.

Definition kill_on_deadline_with_grace (fuel : nat) (deadline poll grace : Z) (w : W) :
  option (W * (KillOutcome * Z)) :=
  '(w, code) ← poll_until fuel deadline poll w;
  match code with
  | Some c => Some (w, (Exited, c))
  | None => escalate fuel poll grace w
  end.

Definition kill_on_deadline_with (fuel : nat) (deadline poll : Z) (w : W) :
  option (W * (KillOutcome * Z)) :=
  kill_on_deadline_with_grace fuel deadline poll (seconds 2) w.

(** ** What the loop may do to the child *)

(** Worlds reached by waiting only: polls, clock readings and sleep. *)
Inductive waits : W → W → Prop :=
| waits_refl w : waits w w
| waits_poll w w' : waits (try_wait w).1 w' → waits w w'
| waits_now w w' : waits (now w).1 w' → waits w w'
| waits_sleep d w w' : waits (sleep d w) w' → waits w w'.

Lemma waits_trans w1 w2 w3 : waits w1 w2 → waits w2 w3 → waits w1 w3.
Proof. induction 1; eauto using waits. Qed.

Lemma poll_until_waits fuel end_ poll w w' code :
  poll_until fuel end_ poll w = Some (w', code) → waits w w'.
Proof.
  revert w. induction fuel as [|fuel IH]; intros w Hp; [done|]. simpl in Hp.
  apply waits_poll. destruct (try_wait w) as [w1 [c|]]; simpl; [injection Hp as -> _; constructor|].
  apply waits_now. destruct (now w1) as [w2 t]; simpl.
  destruct (end_ <=? t); [injection Hp as -> _; constructor|].
  eapply waits_sleep, IH, Hp.
Qed.
End Killer.

(** A clock that never goes back and a sleep that lasts at least its duration;
    [time w] is a clock reading taken in [w]. *)
Class ClockLaws (W : Type) `{WaitKill W} (time : W → Z) : Prop := {
  now_reads w : (now w).2 = time (now w).1;
  now_later w : time w ≤ time (now w).1;
  poll_later w : time w ≤ time (try_wait w).1;
  kill_later w : time w ≤ time (terminate w);
  graceful_later w : time w ≤ time (terminate_graceful w);
  sleep_lasts d w : 0 ≤ d → time w + d ≤ time (sleep d w);
}.

Section KillerFacts.
Context {W : Type} `{K : WaitKill W} {time : W → Z} {L : ClockLaws W time}.

Lemma poll_until_done fuel end_ poll w :
  0 < poll → end_ - time w ≤ Z.of_nat fuel * poll →
  ∃ w' code, poll_until (S fuel) end_ poll w = Some (w', code)
    ∧ waits w w' ∧ (code = None → end_ ≤ time w').
Proof.
  intros Hp. revert w. induction fuel as [|fuel IH]; intros w Hf.
  all: pose proof (poll_later w) as H1; cbn [poll_until] in *.
  all: destruct (try_wait w) as [w1 [c|]] eqn:E1; simpl in H1.
  1,3: exists w1, (Some c); split_and!; [done| |done]; apply waits_poll; rewrite E1; constructor.
  all: pose proof (now_later w1) as H2; pose proof (now_reads w1) as H3;
    destruct (now w1) as [w2 t] eqn:E2; simpl in H2, H3; subst t.
  all: destruct (Z.leb_spec end_ (time w2)).
  1,3: exists w2, None; split_and!; [done| |done]; apply waits_poll; rewrite E1; simpl;
    apply waits_now; rewrite E2; constructor.
  - lia.
  - pose proof (sleep_lasts poll w2).
    destruct (IH (sleep poll w2)) as (w' & code & Hw & Hr & Hc); [lia|].
    exists w', code. split_and!; [exact Hw| |done].
    apply waits_poll. rewrite E1. simpl. apply waits_now. rewrite E2. simpl. by eapply waits_sleep.
Qed.

(** With poll interval, grace and clock as [std] has them, the killer
    always returns.  If it reports [Exited] it only waited: the child was not
    touched.  Otherwise the deadline had passed, the child was asked to stop
    first, killed only after the grace period, and after ten more seconds
    without an exit it is killed once more and reported as -1. *)
Theorem kill_on_deadline_spec fuel deadline poll grace w :
  0 < poll → deadline - time w ≤ Z.of_nat fuel * poll → grace ≤ Z.of_nat fuel * poll →
  seconds 10 ≤ Z.of_nat fuel * poll →
  ∃ w' outcome code,
    kill_on_deadline_with_grace (S fuel) deadline poll grace w = Some (w', (outcome, code))
    ∧ match outcome with
      | Exited => waits w w'
      | KilledOnDeadline =>
          ∃ w1, waits w w1 ∧ deadline ≤ time w1 ∧
            (waits (terminate_graceful w1) w'
             ∨ ∃ w2, waits (terminate_graceful w1) w2 ∧ time w1 + grace ≤ time w2 ∧
                 (waits (terminate w2) w'
                  ∨ ∃ w3, waits (terminate w2) w3 ∧ time w2 + seconds 10 ≤ time w3
                          ∧ w' = terminate w3 ∧ code = -1))
      end.
Proof.
  intros Hp Hd Hg Ht. unfold kill_on_deadline_with_grace.
  destruct (poll_until_done fuel deadline poll w Hp Hd) as (w1 & c1 & -> & Hw1 & Hc1).
  cbn [mbind option_bind]. destruct c1 as [c|]; [by exists w1, Exited, c|].
  specialize (Hc1 eq_refl). unfold escalate.
  pose proof (graceful_later w1) as Hl1. pose proof (now_later (terminate_graceful w1)) as Hl2.
  pose proof (now_reads (terminate_graceful w1)) as Hl3.
  destruct (now (terminate_graceful w1)) as [w1' t] eqn:E1. simpl in Hl2, Hl3. subst t.
  destruct (poll_until_done fuel (time w1' + grace) poll w1' Hp) as (w2 & c2 & -> & Hw2 & Hc2);
    [lia|].
  assert (waits (terminate_graceful w1) w2) as Hw2'.
  { apply waits_now. by rewrite E1. }
  cbn [mbind option_bind].
  destruct c2 as [c|]; [by exists w2, KilledOnDeadline, c; eauto 10|].
  specialize (Hc2 eq_refl). unfold force_kill.
  pose proof (kill_later w2) as Hk1. pose proof (now_later (terminate w2)) as Hk2.
  pose proof (now_reads (terminate w2)) as Hk3.
  destruct (now (terminate w2)) as [w2' t] eqn:E2. simpl in Hk2, Hk3. subst t.
  destruct (poll_until_done fuel (time w2' + seconds 10) poll w2' Hp)
    as (w3 & c3 & -> & Hw3 & Hc3); [lia|].
  assert (waits (terminate w2) w3) as Hw3'.
  { apply waits_now. by rewrite E2. }
  cbn [mbind option_bind]. exists (match c3 with Some _ => w3 | None => terminate w3 end).
  exists KilledOnDeadline, (default (-1) c3).
  split; [by destruct c3|]. exists w1. split_and!; [done..|]. right. exists w2.
  split_and!; [done|lia|]. destruct c3 as [c|]; [by left|]. right. exists w3.
  specialize (Hc3 eq_refl). split_and!; [done|lia|done..].
Qed.
End KillerFacts.

(** ** Exit codes *)

Definition EXIT_SUCCESS : Z := 0.
Definition EXIT_AGENT_ERROR : Z := 1.
Definition EXIT_INVALID_USAGE : Z := 2.
Definition EXIT_TIMEOUT : Z := 124.
Definition EXIT_FAIL_CLOSED : Z := 125.
Definition EXIT_POLICY_BLOCKED : Z := 126.
Definition EXIT_COMMAND_NOT_FOUND : Z := 127.
Definition EXIT_SIGNAL_BASE : Z := 128.

(** [i32] bounds and saturating operations. *)
Definition i32_min : Z := - 2 ^ 31.
Definition i32_max : Z := 2 ^ 31 - 1.
Definition saturate_i32 (x : Z) : Z := Z.max i32_min (Z.min i32_max x).

Definition map_session_exit_code (raw_exit_code : Z) (timed_out fail_on_block_triggered : bool) : Z :=
  if raw_exit_code =? EXIT_FAIL_CLOSED then EXIT_FAIL_CLOSED
  else if timed_out then EXIT_TIMEOUT
  else if fail_on_block_triggered then EXIT_POLICY_BLOCKED
  else if raw_exit_code <? 0 then
    let sig := saturate_i32 (- raw_exit_code) in
    saturate_i32 (EXIT_SIGNAL_BASE + sig)
  else raw_exit_code.

(** The em dash of the messages. *)
Definition recap_hint (final_code blocked_total : Z) (timed_out : bool) : option string :=
  if timed_out || (final_code =? EXIT_TIMEOUT) then
    Some ("session hit the deadline " +:+ dash
          +:+ " re-run with a larger --timeout or split the task")
  else if final_code =? EXIT_POLICY_BLOCKED then
    Some (to_dec blocked_total +:+ " boundary denials tripped fail-on-block " +:+ dash
          +:+ " 'vetto audit --latest' shows what the kernel denied; adjust grants with 'vetto allow'/'vetto deny'")
  else if final_code =? EXIT_FAIL_CLOSED then
    Some ("sandbox refused fail-closed " +:+ dash
          +:+ " run 'vetto doctor' for the capability picture, or 'vetto audit --latest' to inspect session events")
  else if final_code =? EXIT_COMMAND_NOT_FOUND then
    Some ("agent binary not found in PATH " +:+ dash
          +:+ " 'vetto enable <agent>' wires the shim, or check PATH")
  else if negb (final_code =? EXIT_SUCCESS) then
    Some ("agent exited " +:+ (if final_code <? 0 then "-" +:+ to_dec (- final_code)
                               else to_dec final_code) +:+ " " +:+ dash
          +:+ " run 'vetto audit --latest' to inspect session events and denials")
  else if 0 <? blocked_total then
    Some (to_dec blocked_total +:+ " denials contained, exit 0 " +:+ dash
          +:+ " 'vetto audit --latest' shows what was denied")
  else None.

Inductive VettoError : Type :=
| VLandlock (msg : string) | VNamespace (msg : string) | VMount (msg : string)
| VSeccomp (msg : string) | VSandbox (msg : string) | VPty (msg : string) | VCli (msg : string)
| VPolicy (err : PolicyError) | PolicyLockdownViolation (msg : string)
| UnsupportedPlatform (what : string).

Definition vetto_exit_code (e : VettoError) : Z :=
  match e with
  | VLandlock _ | VNamespace _ | VMount _ | VSeccomp _ | VSandbox _ | UnsupportedPlatform _ =>
      EXIT_FAIL_CLOSED
  | VPty _ | VCli _ => EXIT_AGENT_ERROR
  | VPolicy err => policy_error_exit_code err
  | PolicyLockdownViolation _ => EXIT_POLICY_BLOCKED
  end.

(** The wrapped errors play no part in the mapping. *)
Inductive SuperviseError : Type :=
| EmptyAgentCommand | ExecutableNotFound (cmd : string) | NetworkRelayTierMismatch (tier : string)
| PolicyLoadFailed | PreflightVerificationFailed (leaks : Z) | StdioAllocationFailed
| ProcessSpawnFailed | SignalInstallationFailed (msg : string) | IoPumpFailed
| ReportGenerationFailed | Fatal.

Definition supervise_exit_code (e : SuperviseError) : Z :=
  match e with
  | ExecutableNotFound _ => EXIT_COMMAND_NOT_FOUND
  | PreflightVerificationFailed _ | NetworkRelayTierMismatch _ | PolicyLoadFailed
  | StdioAllocationFailed | ProcessSpawnFailed | Fatal | SignalInstallationFailed _ =>
      EXIT_FAIL_CLOSED
  | EmptyAgentCommand => EXIT_INVALID_USAGE
  | IoPumpFailed | ReportGenerationFailed => EXIT_AGENT_ERROR
  end.

(** An [anyhow::Error]: one of the typed errors, or any other with its text. *)
Inductive AnyError : Type :=
| TypedVetto (e : VettoError)
| TypedSupervise (e : SuperviseError)
| TypedPolicy (e : PolicyError)
| Untyped (msg : string).

Definition fail_closed_phrases : list string :=
  ["fail-closed"; "policy compilation failed"; "failed to parse policy"; "unknown field";
   "unknown profile"; "unknown preset"; "unknown agent"; "git_guard"; "destructive";
   "boundary verification failed"; "refusing to run"; "not supported"; "sandbox setup failed";
   "landlock"; "seccomp"; "cgroup"; "namespace"; "mount"].

(** [lowercase] is [str::to_lowercase]. *)
Definition map_error_to_exit_code (lowercase : string → string) (err : AnyError) : Z :=
  match err with
  | TypedVetto e => vetto_exit_code e
  | TypedSupervise e => supervise_exit_code e
  | TypedPolicy e => policy_error_exit_code e
  | Untyped text =>
      let msg := lowercase text in
      if contains msg "not found in path" || contains msg "no such file or directory"
      then EXIT_COMMAND_NOT_FOUND
      else if contains msg "lockdown violation" || contains msg "fail-on-block"
      then EXIT_POLICY_BLOCKED
      else if existsb (contains msg) fail_closed_phrases then EXIT_FAIL_CLOSED
      else EXIT_AGENT_ERROR
  end.

(** ** Properties *)

(** The extinction check accepts exactly when no process and no resource
    survived and the deadline was kept; its proof records an empty tree and is
    authoritative only on Linux and Windows; every breach carries 125. *)
Theorem extinction_verify_spec platform processes resources elapsed :
  0 ≤ processes → 0 ≤ resources →
  match verify platform processes resources elapsed with
  | Ok proof =>
      processes = 0 ∧ resources = 0 ∧ elapsed ≤ 500
      ∧ proof = mk_proof platform 0 0 elapsed (is_authoritative platform)
  | Err breach =>
      (0 < processes ∨ 0 < resources ∨ 500 < elapsed)
      ∧ breach_exit_code breach = 125 ∧ breach_platform breach = platform
      ∧ breach_processes breach = processes ∧ breach_resources breach = resources
  end.
Proof.
  intros Hp Hr. unfold verify, MAX_EXTINCTION_DEADLINE_MS.
  destruct (Z.ltb_spec 0 processes); [simpl; tauto|].
  destruct (Z.ltb_spec 0 resources); [simpl; tauto|].
  destruct (Z.ltb_spec 500 elapsed); simpl; [tauto|]. repeat split; lia.
Qed.

(** The session exit code is a valid [i32]; a fail-closed run stays 125
    whatever else happened, otherwise a timeout is 124 and a tripped block
    threshold 126; a child killed by signal [s] gives 128 + [s], a normal exit
    its own code; and only a child that exited 0 gives 0. *)
Theorem map_session_exit_code_spec raw timed_out blocked :
  i32_min ≤ raw ≤ i32_max →
  let code := map_session_exit_code raw timed_out blocked in
  i32_min ≤ code ≤ i32_max
  ∧ (raw = 125 → code = 125)
  ∧ (raw ≠ 125 → timed_out = true → code = 124)
  ∧ (raw ≠ 125 → timed_out = false → blocked = true → code = 126)
  ∧ (timed_out = false → blocked = false → - (i32_max - 128) ≤ raw < 0 → code = 128 - raw)
  ∧ (raw ≠ 125 → timed_out = false → blocked = false → 0 ≤ raw → code = raw)
  ∧ (code = 0 ↔ raw = 0 ∧ timed_out = false ∧ blocked = false).
Proof.
  intros Hr. cbv zeta. unfold map_session_exit_code, saturate_i32, i32_min, i32_max,
    EXIT_FAIL_CLOSED, EXIT_TIMEOUT, EXIT_POLICY_BLOCKED, EXIT_SIGNAL_BASE in *.
  destruct (Z.eqb_spec raw 125); [repeat split; (lia || intros (?&?&?); lia)|].
  destruct timed_out; [repeat split; (lia || done || intros (?&?&?); done)|].
  destruct blocked; [repeat split; (lia || done || intros (?&?&?); done)|].
  destruct (Z.ltb_spec raw 0); repeat split; (lia || done || intros (?&?&?); lia).
Qed.

(** The recap is silent exactly on a clean run. *)
Lemma recap_hint_silent code blocked timed_out :
  0 ≤ blocked →
  recap_hint code blocked timed_out = None ↔ code = 0 ∧ blocked = 0 ∧ timed_out = false.
Proof.
  intros Hb. unfold recap_hint, EXIT_TIMEOUT, EXIT_POLICY_BLOCKED, EXIT_FAIL_CLOSED,
    EXIT_COMMAND_NOT_FOUND, EXIT_SUCCESS.
  destruct timed_out; simpl; [split; [done|by intros (_&_&?)]|].
  destruct (Z.eqb_spec code 124); [split; [done|lia]|].
  destruct (Z.eqb_spec code 126); [split; [done|lia]|].
  destruct (Z.eqb_spec code 125); [split; [done|lia]|].
  destruct (Z.eqb_spec code 127); [split; [done|lia]|].
  destruct (Z.eqb_spec code 0); simpl; [|split; [done|lia]].
  destruct (Z.ltb_spec 0 blocked); split; (done || lia).
Qed.

(** ** Witnesses *)

(** A child that exits with 137 once killed; the clock advances by sleeping. *)
Record DemoWorld : Type := mk_world { demo_time : Z; demo_killed : bool }.
#[export] Instance demo_wait_kill : WaitKill DemoWorld := {|
  try_wait w := (w, if demo_killed w then Some 137 else None);
  terminate w := mk_world (demo_time w) true;
  terminate_graceful w := w;
  now w := (w, demo_time w);
  sleep d w := mk_world (demo_time w + d) (demo_killed w);
|}.
#[export] Instance demo_clock_laws : ClockLaws DemoWorld demo_time.
Proof. split; try done; intros; simpl; lia. Qed.

Lemma kill_on_deadline_spec_witness :
  ∃ w' outcome code,
    kill_on_deadline_with_grace 3 (seconds 4) (seconds 5) (seconds 2) (mk_world 0 false)
    = Some (w', (outcome, code)).
Proof.
  destruct (kill_on_deadline_spec (time := demo_time) 2 (seconds 4) (seconds 5) (seconds 2)
    (mk_world 0 false)) as (w' & outcome & code & H & _);
    [vm_compute; done|vm_compute; discriminate..|]. by exists w', outcome, code.
Defined.

Lemma extinction_verify_spec_witness :
  ∃ p, verify LinuxTier1Proven 0 0 20 = Ok p ∧ mathematically_proven p = true.
Proof.
  pose proof (extinction_verify_spec LinuxTier1Proven 0 0 20 ltac:(lia) ltac:(lia)) as H.
  destruct (verify LinuxTier1Proven 0 0 20) as [p|b] eqn:E; [|vm_compute in E; discriminate E].
  destruct H as (_ & _ & _ & ->). by eexists.
Defined.

Lemma map_session_exit_code_spec_witness : map_session_exit_code (-9) false false = 137.
Proof.
  refine (proj1 (proj2 (proj2 (proj2 (proj2 (map_session_exit_code_spec (-9) false false _)))))
    eq_refl eq_refl _); unfold i32_min, i32_max; lia.
Defined.
