(* ===== verification/EnvFilter.v ===== *)
(** * EnvFilter: the environment boundary filter

    Model of [src/src/sandbox/envfilter.rs]: the wildcard matcher with its
    backtracking loop, the hard-deny test, the filter and the PATH sanitiser.
    [str::to_uppercase] (Unicode) is an argument. *)

From S2P Require Import Prelude Paths.

(** ** Wildcards *)

Definition star : ascii := "*".
Definition any : ascii := "?".

(** The main loop: [P] and [T] are the upper-cased bytes, [p_idx] and [t_idx]
    the cursors, [star_idx] the last star seen and [match_idx] the text position
    it was tried at.  The inner [option] is [star_idx]; [None] as a result is
    exhausted fuel.  A [return false] is [Some None], leaving the loop is
    [Some (Some p_idx)]. *)
Fixpoint wildcard_loop (fuel : nat) (P T : list ascii) (p_idx t_idx : nat)
    (star_idx : option nat) (match_idx : nat) : option (option nat) :=
  match fuel with
  | O => None
  | S fuel =>
      match T !! t_idx with
      | None => Some (Some p_idx)
      | Some t =>
          let backtrack :=
            match star_idx with
            | Some s_idx =>
                wildcard_loop fuel P T (s_idx + 1) (match_idx + 1) star_idx (match_idx + 1)
            | None => Some None
            end in
          match P !! p_idx with
          | Some p =>
              if Ascii.eqb p any || Ascii.eqb p t then
                wildcard_loop fuel P T (p_idx + 1) (t_idx + 1) star_idx match_idx
              else if Ascii.eqb p star then
                wildcard_loop fuel P T (p_idx + 1) t_idx (Some p_idx) t_idx
              else backtrack
          | None => backtrack
          end
      end
  end.

(** The trailing loop skips stars; the test that follows it. *)
Definition only_stars (P : list ascii) (p_idx : nat) : bool :=
  forallb (λ c, Ascii.eqb c star) (drop p_idx P).

Definition wildcard_fuel (P T : list ascii) : nat :=
  (length T + 2) * (length P + 2) + (length P + 2).

Definition matches_bytes (P T : list ascii) : bool :=
  match wildcard_loop (wildcard_fuel P T) P T 0 0 None 0 with
  | Some (Some p_idx) => only_stars P p_idx
  | _ => false
  end.

Definition upper_bytes (s : string) : list ascii :=
  list_ascii_of_string (to_ascii_uppercase s).
Definition matches_wildcard_pattern (pattern text : string) : bool :=
  matches_bytes (upper_bytes pattern) (upper_bytes text).

(** ** Secret-shaped names *)

Definition HARD_DENY_PREFIXES : list string :=
  ["AWS_"; "GCP_"; "GOOGLE_"; "AZURE_"; "OPENAI_"; "ANTHROPIC_"; "CLAUDE_"; "CODEX_"; "GH_";
   "GITHUB_"; "GITLAB_"; "NPM_"; "PYPI_"; "DOCKER_"; "KUBE"; "VAULT_"; "SECRET"; "TOKEN";
   "PRIVATE"; "CREDENTIAL"; "LDAP_"; "DB_"; "DATABASE_"; "STRIPE_"; "SENDGRID_"; "SLACK_";
   "DISCORD_"; "TELEGRAM_"; "TWILIO_"; "API_KEY"; "AUTH_"; "SESSION_"; "COOKIE_"; "BEARER";
   "BASIC_"; "OAUTH"].

Definition DEFAULT_REDACTED_PATTERNS : list string :=
  ["*_KEY"; "*_TOKEN"; "*_SECRET"; "AWS_*"; "GITHUB_*"; "GH_*"; "ANTHROPIC_*"; "OPENAI_*";
   "CODEX_*"; "CLAUDE_*"; "AZURE_*"; "GCP_*"; "GOOGLE_*"; "*_PASSWORD"; "*_CREDENTIAL";
   "*_CREDENTIALS"; "*_AUTH"; "*_PRIVATE_KEY"].

Section Filter.
Variable to_uppercase : string → string.

Definition is_hard_denied (name : string) : bool :=
  let upper := to_uppercase name in
  existsb (starts_with upper) HARD_DENY_PREFIXES
  || existsb (λ pat, matches_wildcard_pattern pat upper) DEFAULT_REDACTED_PATTERNS
  || contains upper "SECRET" || contains upper "PRIVATE_KEY" || contains upper "CREDENTIALS"
  || ends_with upper "_KEY" || ends_with upper "_TOKEN" || ends_with upper "_SECRET".

Definition is_redacted (name : string) (patterns : list string) : bool :=
  if is_hard_denied name then true
  else existsb (λ pat, matches_wildcard_pattern pat name) patterns.

(** ** PATH *)

Definition path_component_ok (comp : string) : bool :=
  negb (is_empty comp || String.eqb comp "." || starts_with comp "~").

(** [seen] holds the pushed components, so it is [out] as a set. *)
Definition sanitize_components (comps : list string) : list string :=
  fold_left (λ out comp,
    if path_component_ok comp && negb (bool_decide (comp ∈ out)) then out ++ [comp] else out)
    comps [].

Definition sanitize_path (p : string) : string :=
  match sanitize_components (split_char ":" p) with
  | [] => "/usr/bin:/bin"
  | out => join_with ":" out
  end.

Definition nul : ascii := chr 0.
(** No empty name, no [=] or NUL in the name, no NUL in the value. *)
Definition passable (name value : string) : bool :=
  negb (is_empty name || contains_char name "=" || contains_char name nul
        || contains_char value nul).

Definition filter_env (vars : list (string * string)) (strict_path : bool) :
  list (string * string) :=
  fold_left (λ out '(name, value),
    if negb (passable name value) then out
    else if is_hard_denied name then out
    else if strict_path && eq_ignore_ascii_case name "PATH"
    then out ++ [(name, sanitize_path value)]
    else out ++ [(name, value)]) vars [].
End Filter.

(** ** Specification: wildcard matching as a relation *)

Inductive glob : list ascii → list ascii → Prop :=
| glob_nil : glob [] []
| glob_zero P T : glob P T → glob (star :: P) T
| glob_more P c T : glob (star :: P) T → glob (star :: P) (c :: T)
| glob_any P c T : glob P T → glob (any :: P) (c :: T)
| glob_char P c T : c ≠ star → c ≠ any → glob P T → glob (c :: P) (c :: T).

(** A segment of a pattern without stars. *)
Definition fixed (seg : list ascii) : Prop := star ∉ seg.

Lemma glob_fixed_length seg P T : fixed seg → glob (seg ++ P) T →
  (length seg ≤ length T)%nat ∧ glob P (drop (length seg) T).
Proof.
  unfold fixed. revert T. induction seg as [|c seg IH]; intros T Hf Hg; [split; [simpl; lia|done]|].
  apply not_elem_of_cons in Hf as [Hc Hf]. simpl in Hg.
  inversion Hg; subst; try done; destruct (IH T0 Hf ltac:(done)) as [? ?];
    (split; [simpl; lia|done]).
Qed.

(** A star absorbs any prefix of the text. *)
Lemma glob_absorb P T k : glob (star :: P) (drop k T) → glob (star :: P) T.
Proof.
  revert k. induction T as [|c T IH]; intros k Hg; [by rewrite drop_nil in Hg|].
  destruct k as [|k]; [done|]. simpl in Hg. apply glob_more. by eapply IH.
Qed.

Lemma glob_star_inv P T : glob (star :: P) T → ∃ k, (k ≤ length T)%nat ∧ glob P (drop k T).
Proof.
  intros H. remember (star :: P) as Q eqn:EQ. revert P EQ.
  induction H as [|P T Hg|P c T Hg IH|P c T Hg|P c T Hc ? Hg]; intros Q [= ->]; subst.
  - exists 0%nat. split; [lia|done].
  - destruct (IH Q eq_refl) as (k & ? & ?). exists (S k). simpl. split; [lia|done].
  - done.
Qed.

Lemma glob_nil_stars P : glob P [] ↔ forallb (λ c, Ascii.eqb c star) P = true.
Proof.
  induction P as [|c P IH]; simpl; [split; [done|constructor]|].
  destruct (Ascii.eqb_spec c star) as [->|Hc]; simpl.
  - rewrite <-IH. split; [|apply glob_zero]. by inversion 1.
  - split; [by inversion 1|done].
Qed.

(** ** The loop decides the relation *)

Section Loop.
Variables (P T : list ascii).

(** The match is still possible from this loop state: with the cursors, or by
    moving the last star's text position. *)
Definition alive (p t : nat) (st : option nat) (m : nat) : Prop :=
  glob (drop p P) (drop t T)
  ∨ match st with
    | Some s => ∃ k, (m < k ≤ length T)%nat ∧ glob (drop (S s) P) (drop k T)
    | None => False
    end.

Lemma loop_sound fuel p t st m p' :
  (∀ s, st = Some s → P !! s = Some star) → (m ≤ t)%nat →
  wildcard_loop fuel P T p t st m = Some (Some p') → only_stars P p' = true → alive p t st m.
Proof.
  revert p t st m. induction fuel as [|fuel IH]; intros p t st m Hst Hm Hl Ho; [done|].
  cbn [wildcard_loop] in Hl. destruct (T !! t) as [c|] eqn:Et.
  2:{ injection Hl as <-. left. rewrite (drop_ge T) by (by apply lookup_ge_None).
      by apply glob_nil_stars. }
  assert (t < length T)%nat as Htl by (by eapply lookup_lt_Some).
  assert (∀ s, st = Some s →
    wildcard_loop fuel P T (s + 1) (m + 1) st (m + 1) = Some (Some p') → alive p t st m) as Hback.
  { intros s -> H. apply IH in H; [|done..]. right. destruct H as [H|(k & Hk & H)].
    - exists (m + 1)%nat. replace (S s) with (s + 1)%nat by lia. split; [lia|done].
    - exists k. split; [lia|done]. }
  destruct (P !! p) as [c'|] eqn:Ep.
  2:{ destruct st as [s|]; [by eapply Hback|done]. }
  destruct (Ascii.eqb c' any || Ascii.eqb c' c) eqn:Ec.
  - apply IH in Hl; [|done|lia|done]. destruct Hl as [Hl|Hl]; [left|right; exact Hl].
    rewrite (drop_S _ _ _ Ep), (drop_S _ _ _ Et).
    replace (p + 1)%nat with (S p) in Hl by lia. replace (t + 1)%nat with (S t) in Hl by lia.
    apply orb_true_iff in Ec as [Ec|Ec]; apply Ascii.eqb_eq in Ec as ->; [by constructor|].
    destruct (decide (c = star)) as [->|?]; [by apply glob_more, glob_zero|].
    destruct (decide (c = any)) as [->|?]; by constructor.
  - destruct (Ascii.eqb_spec c' star) as [->|].
    2:{ destruct st as [s|]; [by eapply Hback|done]. }
    apply IH in Hl; [|by intros s [= <-]|done|done]. left. rewrite (drop_S _ _ _ Ep).
    replace (p + 1)%nat with (S p) in Hl by lia.
    destruct Hl as [Hl|(k & Hk & Hl)]; [by apply glob_zero|].
    apply (glob_absorb _ _ (k - t)). rewrite drop_drop. replace (t + (k - t))%nat with k by lia.
    by apply glob_zero.
Qed.

(** Since the last star the pattern moved over a fixed segment, one character
    for each. *)
Definition tracked (p t : nat) (st : option nat) (m : nat) : Prop :=
  match st with
  | None => True
  | Some s => P !! s = Some star
              ∧ ∃ seg, drop (S s) P = seg ++ drop p P ∧ fixed seg ∧ (m + length seg)%nat = t
  end.

Lemma tracked_step p t st m c :
  P !! p = Some c → c ≠ star → tracked p t st m → tracked (p + 1) (t + 1) st m.
Proof.
  intros Hp Hc. destruct st as [s|]; [|done]. intros (Hs & seg & Hd & Hf & Hl).
  split; [done|]. exists (seg ++ [c]). rewrite <-app_assoc. simpl.
  replace (p + 1)%nat with (S p) by lia. rewrite <-(drop_S _ _ _ Hp).
  split_and!; [done| |rewrite length_app; simpl; lia].
  unfold fixed. rewrite not_elem_of_app, not_elem_of_cons. split_and!; [done..|apply not_elem_of_nil].
Qed.

(** What remains after the fixed segment still has to match. *)
Lemma tracked_alive p t st m :
  tracked p t st m → (t ≤ length T)%nat → alive p t st m →
  ∃ k, (t ≤ k ≤ length T)%nat ∧ glob (drop p P) (drop k T).
Proof.
  intros Htr Ht [H|H]; [by exists t|]. destruct st as [s|]; [|done].
  destruct Htr as (_ & seg & Hd & Hf & Hl). destruct H as (k & Hk & H). rewrite Hd in H.
  apply glob_fixed_length in H as [Hlen H]; [|done].
  rewrite length_drop in Hlen. rewrite drop_drop in H.
  exists (k + length seg)%nat. split; [lia|done].
Qed.

Lemma loop_complete fuel p t st m r :
  star ∉ T → tracked p t st m → (t ≤ length T)%nat → (m ≤ t)%nat → alive p t st m →
  wildcard_loop fuel P T p t st m = Some r → ∃ p', r = Some p' ∧ only_stars P p' = true.
Proof.
  intros HT. revert p t st m. induction fuel as [|fuel IH]; intros p t st m Htr Ht Hm Ha Hl; [done|].
  cbn [wildcard_loop] in Hl. destruct (T !! t) as [c|] eqn:Et.
  2:{ injection Hl as <-. exists p. split; [done|]. apply lookup_ge_None in Et.
      destruct (tracked_alive _ _ _ _ Htr Ht Ha) as (k & Hk & H).
      rewrite (drop_ge T) in H by lia. by apply glob_nil_stars. }
  assert (t < length T)%nat as Htl by (by eapply lookup_lt_Some).
  assert (c ≠ star) as Hc by (intros ->; by apply HT, (list_elem_of_lookup_2 _ t)).
  assert (¬ glob (drop p P) (drop t T) →
    match st with
    | Some s => wildcard_loop fuel P T (s + 1) (m + 1) st (m + 1)
    | None => Some None
    end = Some r → ∃ p', r = Some p' ∧ only_stars P p' = true) as Hback.
  { intros Hno H. destruct Ha as [?|Ha]; [done|]. destruct st as [s|]; [|done].
    destruct Ha as (k & Hk & Ha). replace (s + 1)%nat with (S s) in H by lia.
    eapply IH, H; [|lia|lia|].
    - destruct Htr as [Hs _]. split; [done|]. exists []. split_and!; [done| |simpl; lia].
      apply not_elem_of_nil.
    - destruct (decide (k = (m + 1)%nat)) as [->|]; [by left|]. right. exists k. split; [lia|done]. }
  destruct (P !! p) as [c'|] eqn:Ep.
  2:{ apply Hback; [|done]. rewrite (drop_ge P) by (by apply lookup_ge_None).
      rewrite (drop_S _ _ _ Et). by inversion 1. }
  destruct (Ascii.eqb c' any || Ascii.eqb c' c) eqn:Ec.
  - assert (c' ≠ star) as Hc'.
    { intros ->. apply orb_true_iff in Ec as [E|E]; [done|].
      apply Ascii.eqb_eq in E. by subst c. }
    eapply IH, Hl; [by eapply tracked_step|lia|lia|].
    destruct Ha as [Ha|Ha]; [left|right; exact Ha].
    rewrite (drop_S _ _ _ Ep), (drop_S _ _ _ Et) in Ha.
    replace (p + 1)%nat with (S p) by lia. replace (t + 1)%nat with (S t) by lia.
    by inversion Ha; subst.
  - destruct (Ascii.eqb_spec c' star) as [->|Hs].
    + eapply IH, Hl; [|lia|lia|].
      * split; [done|]. exists []. replace (p + 1)%nat with (S p) by lia.
        split_and!; [done|apply not_elem_of_nil|simpl; lia].
      * destruct (tracked_alive _ _ _ _ Htr Ht Ha) as (k & Hk & H).
        rewrite (drop_S _ _ _ Ep) in H. apply glob_star_inv in H as (j & Hj & H).
        rewrite length_drop in Hj. rewrite drop_drop in H.
        replace (p + 1)%nat with (S p) by lia.
        destruct (decide ((k + j)%nat = t)) as [<-|]; [by left|]. right.
        exists (k + j)%nat. split; [lia|done].
    + apply Hback; [|done]. rewrite (drop_S _ _ _ Ep), (drop_S _ _ _ Et).
      apply orb_false_iff in Ec as [E1%Ascii.eqb_neq E2%Ascii.eqb_neq]. by inversion 1; subst.
Qed.

(** The loop's measure. *)
Lemma loop_total fuel p t st m :
  (match st with Some s => s < length P ∧ m ≤ t | None => True end)%nat →
  (p ≤ length P)%nat → (t ≤ length T)%nat →
  ((match st with Some _ => length T + 1 - m | None => length T + 2 end) * (length P + 2)
   + (length P + 1 - p) < fuel)%nat →
  wildcard_loop fuel P T p t st m ≠ None.
Proof.
  revert p t st m. induction fuel as [|fuel IH]; intros p t st m Hs Hp Ht Hf; [lia|].
  cbn [wildcard_loop]. destruct (T !! t) as [c|] eqn:Et; [|done].
  apply lookup_lt_Some in Et.
  assert (match st with
    | Some s => wildcard_loop fuel P T (s + 1) (m + 1) st (m + 1)
    | None => Some None
    end ≠ None) as Hback.
  { destruct st as [s|]; [|done]. apply IH; [lia..|].
    destruct Hs as [Hs Hm].
    replace (length T + 1 - m)%nat with (S (length T + 1 - (m + 1))) in Hf by lia. lia. }
  destruct (P !! p) as [c'|] eqn:Ep; [|done]. apply lookup_lt_Some in Ep.
  destruct (Ascii.eqb c' any || Ascii.eqb c' c).
  { apply IH; [by destruct st as [s|]; [lia|]|lia|lia|lia]. }
  destruct (Ascii.eqb c' star); [|done].
  apply IH; [lia..|].
  assert (length T + 1 - t ≤ match st with Some _ => length T + 1 - m | None => length T + 2 end)%nat
    by (destruct st; lia).
  nia.
Qed.
End Loop.

Lemma wildcard_loop_total P T : wildcard_loop (wildcard_fuel P T) P T 0 0 None 0 ≠ None.
Proof. apply loop_total; [done|lia|lia|]. unfold wildcard_fuel. lia. Qed.

Lemma matches_bytes_sound P T : matches_bytes P T = true → glob P T.
Proof.
  unfold matches_bytes. destruct (wildcard_loop _ _ _ _ _ _ _) as [[p|]|] eqn:E; [|done..].
  intros Ho. eapply loop_sound in E as [E|[]]; [exact E|done|done|done].
Qed.

Lemma matches_bytes_complete P T : star ∉ T → glob P T → matches_bytes P T = true.
Proof.
  intros HT Hg. unfold matches_bytes.
  destruct (wildcard_loop _ _ _ _ _ _ _) as [r|] eqn:E; [|by apply wildcard_loop_total in E].
  eapply loop_complete in E as (p & -> & Ho); [exact Ho|done|done|lia|done|by left].
Qed.

Lemma smap_star s : contains_char s star = false → star ∉ list_ascii_of_string (smap upper_ascii s).
Proof.
  induction s as [|c s IH]; simpl; [intros _; apply not_elem_of_nil|].
  intros [Hc Hs]%orb_false_iff. apply not_elem_of_cons. split; [|by apply IH].
  intros E. apply Ascii.eqb_neq in Hc. apply Hc. revert E. clear.
  unfold upper_ascii, is_lower. destruct (_ && _) eqn:El; [|done]. intros E.
  destruct c as [[] [] [] [] [] [] [] []]; try discriminate El; discriminate E.
Qed.

(** The backtracking matcher decides wildcard matching: what it accepts
    matches the pattern as a relation, and on a text without a star character
    it accepts everything that matches (letters without case). *)
Theorem wildcard_matches_glob pattern text :
  (matches_wildcard_pattern pattern text = true → glob (upper_bytes pattern) (upper_bytes text))
  ∧ (contains_char text star = false → glob (upper_bytes pattern) (upper_bytes text) →
     matches_wildcard_pattern pattern text = true).
Proof.
  split; [apply matches_bytes_sound|]. intros Ht. apply matches_bytes_complete. by apply smap_star.
Qed.

(** On a text with a star the literal test comes first and swallows the
    pattern's star, so a name that starts with a star escapes the redaction
    pattern it matches. *)
Lemma wildcard_misses_star_text :
  matches_wildcard_pattern "*_PASSWORD" "*DB_PASSWORD" = false
  ∧ glob (upper_bytes "*_PASSWORD") (upper_bytes "*DB_PASSWORD")
  ∧ is_hard_denied to_ascii_uppercase "*DB_PASSWORD" = false.
Proof.
  split_and!; [reflexivity| |vm_compute; reflexivity].
  do 3 apply glob_more. apply glob_zero. repeat (apply glob_char; [done..|]). constructor.
Qed.

(** ** The filter and the PATH sanitiser *)

Lemma fold_app_omap {A B} (f : A → option B) xs acc :
  fold_left (λ out x, match f x with Some y => out ++ [y] | None => out end) xs acc
  = acc ++ omap f xs.
Proof.
  revert acc. induction xs as [|x xs IH]; intros acc; simpl; [by rewrite app_nil_r|].
  rewrite IH. destruct (f x); [by rewrite <-app_assoc|done].
Qed.

Lemma elem_of_sanitize comps c :
  c ∈ sanitize_components comps ↔ c ∈ comps ∧ path_component_ok c = true.
Proof.
  unfold sanitize_components.
  assert (∀ acc, c ∈ fold_left (λ out comp,
      if path_component_ok comp && negb (bool_decide (comp ∈ out)) then out ++ [comp] else out)
      comps acc ↔ c ∈ acc ∨ c ∈ comps ∧ path_component_ok c = true) as H.
  { induction comps as [|x comps IH]; intros acc; simpl; [rewrite elem_of_nil; tauto|].
    rewrite IH, elem_of_cons.
    destruct (path_component_ok x) eqn:Ex; simpl; [|naive_solver congruence].
    case_bool_decide; simpl; [naive_solver|].
    rewrite elem_of_app, list_elem_of_singleton. naive_solver. }
  rewrite H, elem_of_nil. tauto.
Qed.

Lemma sanitize_NoDup comps : NoDup (sanitize_components comps).
Proof.
  unfold sanitize_components. assert (NoDup (@nil string)) as H by constructor.
  revert H. generalize (@nil string) at 1 3 as acc.
  induction comps as [|x comps IH]; intros acc H; simpl; [done|]. apply IH.
  destruct (path_component_ok x); simpl; [|done]. case_bool_decide; simpl; [done|].
  apply NoDup_app. split_and!; [done| |apply NoDup_singleton].
  intros y Hy ->%list_elem_of_singleton. done.
Qed.

Lemma fold_left_ext {A B} (f g : A → B → A) xs acc :
  (∀ a x, f a x = g a x) → fold_left f xs acc = fold_left g xs acc.
Proof.
  intros H. revert acc. induction xs as [|x xs IH]; intros acc; [done|]. simpl. by rewrite H.
Qed.

Section Facts.
Variable to_uppercase : string → string.

Definition filter_one (strict_path : bool) (nv : string * string) : option (string * string) :=
  if negb (passable nv.1 nv.2) then None
  else if is_hard_denied to_uppercase nv.1 then None
  else if strict_path && eq_ignore_ascii_case nv.1 "PATH"
  then Some (nv.1, sanitize_path nv.2) else Some nv.

Lemma filter_env_omap vars strict_path :
  filter_env to_uppercase vars strict_path = omap (filter_one strict_path) vars.
Proof.
  change (omap (filter_one strict_path) vars) with ([] ++ omap (filter_one strict_path) vars).
  unfold filter_env. rewrite <-(fold_app_omap (filter_one strict_path) vars []).
  apply fold_left_ext. intros out [n v]. unfold filter_one. simpl.
  destruct (passable n v), (is_hard_denied to_uppercase n); try done.
  by destruct (strict_path && eq_ignore_ascii_case n "PATH").
Qed.

(** The child's environment holds a variable exactly when the parent's did
    with a usable name and value and the name is not secret-shaped (with no
    star in it, it then matches no redaction pattern); PATH loses its empty,
    dot, tilde and repeated entries. *)
Theorem filter_env_spec vars strict_path n v :
  (n, v) ∈ filter_env to_uppercase vars strict_path ↔
  ∃ v0, (n, v0) ∈ vars ∧ passable n v0 = true ∧ is_hard_denied to_uppercase n = false
    ∧ (contains_char (to_uppercase n) star = false →
       ∀ pat, pat ∈ DEFAULT_REDACTED_PATTERNS →
         ¬ glob (upper_bytes pat) (upper_bytes (to_uppercase n)))
    ∧ v = if strict_path && eq_ignore_ascii_case n "PATH" then sanitize_path v0 else v0.
Proof.
  rewrite filter_env_omap, list_elem_of_omap. split.
  - intros ([n0 v0] & Hin & H). unfold filter_one in H. simpl in H.
    destruct (passable n0 v0) eqn:Ep; [|done]. cbn [negb] in H.
    destruct (is_hard_denied to_uppercase n0) eqn:Ed; [done|].
    assert (n = n0 ∧ v = if strict_path && eq_ignore_ascii_case n "PATH"
                         then sanitize_path v0 else v0) as [-> Hv].
    { destruct (strict_path && eq_ignore_ascii_case n0 "PATH") eqn:Es; injection H as <- <-;
        by rewrite Es. }
    exists v0. split_and!; [done..| |done]. intros Hs pat Hpat Hg.
    unfold is_hard_denied in Ed. rewrite !orb_false_iff in Ed.
    destruct Ed as [[[[[[[_ Ed] _] _] _] _] _] _].
    rewrite existsb_false, Forall_forall in Ed. specialize (Ed pat Hpat).
    unfold matches_wildcard_pattern in Ed. rewrite matches_bytes_complete in Ed; [done| |done].
    by apply smap_star.
  - intros (v0 & Hin & Hp & Hd & _ & ->). exists (n, v0). split; [done|].
    unfold filter_one. simpl. rewrite Hp, Hd. cbn [negb].
    by destruct (strict_path && eq_ignore_ascii_case n "PATH").
Qed.
End Facts.

Lemma wildcard_matches_glob_witness : matches_wildcard_pattern "*_key" "OPENAI_Api_Key" = true.
Proof.
  apply (proj2 (wildcard_matches_glob "*_key" "OPENAI_Api_Key")); [reflexivity|].
  do 10 apply glob_more. apply glob_zero.
  repeat (apply glob_char; [done..|]). constructor.
Defined.

Lemma filter_env_spec_witness :
  ("PATH", "/usr/bin:/bin") ∈ filter_env to_ascii_uppercase
    [("AWS_SECRET", "x"); ("PATH", ":/usr/bin:.:~/bin:/bin:/usr/bin")] true.
Proof.
  apply (proj2 (filter_env_spec to_ascii_uppercase
    [("AWS_SECRET", "x"); ("PATH", ":/usr/bin:.:~/bin:/bin:/usr/bin")] true
    "PATH" "/usr/bin:/bin")).
  exists ":/usr/bin:.:~/bin:/bin:/usr/bin". split_and!; [by right; left|reflexivity| | |].
  - vm_compute. reflexivity.
  - intros _ pat Hpat Hg. apply matches_bytes_complete in Hg.
    + revert Hpat Hg. unfold DEFAULT_REDACTED_PATTERNS. rewrite !elem_of_cons, elem_of_nil.
      intros Hpat. repeat (destruct Hpat as [->|Hpat]; [vm_compute; discriminate|]). done.
    + apply (smap_star "PATH"). reflexivity.
  - vm_compute. reflexivity.
Defined.
