(* ===== verification/Schema.v ===== *)
(** * Schema: the layers a policy is written in

    Model of [src/src/policy/loader/schema.rs] (the TOML structures and their
    conversions).  The TOML parser is a third-party crate; its result, a
    [RawLayer], is where this model starts.  A [HashMap] of the file is the
    list of its pairs in the order the code iterates over them. *)

From S2P Require Import Prelude PolicyTypes Termination.

(** ** The raw sections; a missing key is [None] *)

Inductive RawStringList : Type := One (value : string) | Many (values : list string).

Definition into_vec (l : RawStringList) : list string :=
  match l with One value => [value] | Many values => values end.

(** [opt.clone().into_vec()] of an optional list; [[]] when the key is absent. *)
Definition entries_of (l : option RawStringList) : list string := from_option into_vec [] l.

(** A key of an optional section. *)
Definition key {S A} (section : option S) (f : S → option A) : option A :=
  match section with Some s => f s | None => None end.

Inductive RawValueOrString : Type := Num (n : Z) | Str (s : string).

Definition to_string_repr (v : RawValueOrString) : string :=
  match v with Num n => to_dec n | Str s => s end.

Record RawMetadata : Type := mk_raw_metadata {
  rmeta_name : option string;
  rmeta_description : option string;
  rmeta_extends : option RawStringList;
}.

Record RawSeccompNotify : Type := mk_raw_notify {
  rnotify_enabled : option bool;
  rnotify_default_action : option string;
  rnotify_allow_syscalls : option RawStringList;
}.

Record RawSecurity : Type := mk_raw_security {
  sec_immutable : option bool;
  sec_system_log : option bool;
  sec_auto_deny_secrets : option bool;
  sec_git_guard : option bool;
  sec_seccomp_profile : option string;
  sec_seccomp_notify : option RawSeccompNotify;
}.

Record RawFilesystem : Type := mk_raw_filesystem {
  fs_allow_write : option RawStringList;
  fs_allow_read : option RawStringList;
  fs_deny : option RawStringList;
  fs_deny_write : option RawStringList;
  fs_deny_read : option RawStringList;
  fs_deny_preset : option RawStringList;
  fs_deny_glob : option RawStringList;
  fs_ro_mounts : option RawStringList;
  fs_read_only_caches : option bool;
  fs_shadow : option bool;
  fs_tmpfs_tmp : option bool;
  fs_dev_allow : option RawStringList;
}.

Record RawSecrets : Type := mk_raw_secrets {
  secrets_proxy : option RawStringList;
  secrets_auto_deny : option bool;
}.

Record RawDeny : Type := mk_raw_deny { rdeny_paths : option RawStringList }.

Record RawEnvironment : Type := mk_raw_environment {
  renv_pass_through : option RawStringList;
  renv_deny : option RawStringList;
  renv_deny_env : option RawStringList;
}.

Record RawNetPorts : Type := mk_raw_ports { ports_allow_tcp_connect : option (list Z) }.

Record RawNetwork : Type := mk_raw_network {
  rnet_mode : option string;
  rnet_allow : option RawStringList;
  rnet_allow_domains : option RawStringList;
  rnet_deny : option RawStringList;
  rnet_deny_domains : option RawStringList;
  rnet_deny_network : option RawStringList;
  rnet_net_preset : option RawStringList;
  rnet_net_presets : option RawStringList;
  rnet_allow_cidr : option RawStringList;
  rnet_net_quota : option (list (string * string));
  rnet_net_ports : option RawNetPorts;
  rnet_allow_tcp_connect : option (list Z);
  rnet_allow_tcp_bind : option (list Z);
}.

Record RawUnixSockets : Type := mk_raw_sockets {
  rsock_allow : option RawStringList;
  rsock_deny : option RawStringList;
}.

Record RawIoRate : Type := mk_raw_io_rate {
  rio_max_iops : option Z;
  rio_max_bandwidth : option string;
}.

Record RawCgroup : Type := mk_raw_cgroup {
  rcg_memory_max : option RawValueOrString;
  rcg_pids_max : option RawValueOrString;
  rcg_swap_max : option RawValueOrString;
  rcg_cpu_max : option RawValueOrString;
}.

Record RawLimits : Type := mk_raw_limits {
  rlim_cpu_seconds : option Z;
  rlim_address_space_bytes : option Z;
  rlim_processes : option Z;
  rlim_open_files : option Z;
  rlim_file_size_bytes : option Z;
  rlim_cgroup : option RawCgroup;
  rlim_cpu_max : option string;
  rlim_io_priority : option string;
  rlim_io_rate : option RawIoRate;
}.

Record RawProcess : Type := mk_raw_process {
  rproc_allowed_binaries : option RawStringList;
  rproc_foreground_args : option RawStringList;
}.

Record RawLayer : Type := mk_raw_layer {
  layer_metadata : option RawMetadata;
  layer_security : option RawSecurity;
  layer_filesystem : option RawFilesystem;
  layer_secrets : option RawSecrets;
  layer_display_only_deny : option RawDeny;
  layer_environment : option RawEnvironment;
  layer_network : option RawNetwork;
  layer_unix_sockets : option RawUnixSockets;
  layer_net_ports : option RawNetPorts;
  layer_limits : option RawLimits;
  layer_cgroup : option RawCgroup;
  layer_process : option RawProcess;
}.

(** The [Default] of each section. *)
Definition no_metadata : RawMetadata := mk_raw_metadata None None None.
Definition no_security : RawSecurity := mk_raw_security None None None None None None.
Definition no_filesystem : RawFilesystem :=
  mk_raw_filesystem None None None None None None None None None None None None.
Definition no_network : RawNetwork :=
  mk_raw_network None None None None None None None None None None None None None.
Definition no_limits : RawLimits :=
  mk_raw_limits None None None None None None None None None.
Definition no_cgroup : RawCgroup := mk_raw_cgroup None None None None.
Definition no_layer : RawLayer :=
  mk_raw_layer None None None None None None None None None None None None.

(** ** Conversions *)

Definition io_rate_of (rate : RawIoRate) : IoRateLimit :=
  mk_io_rate (rio_max_iops rate) (rio_max_bandwidth rate ≫= parse_byte_size).

Definition to_resource_limits (l : RawLimits) : ResourceLimits :=
  mk_limits (rlim_cpu_seconds l) (rlim_address_space_bytes l) (rlim_processes l)
    (rlim_open_files l) (rlim_file_size_bytes l) (io_rate_of <$> rlim_io_rate l).

Definition cgroup_config_of (cg : RawCgroup) : CgroupConfig :=
  mk_cgroup (to_string_repr <$> rcg_memory_max cg) (to_string_repr <$> rcg_pids_max cg)
            (to_string_repr <$> rcg_swap_max cg) (to_string_repr <$> rcg_cpu_max cg).

Definition notify_config_of (n : RawSeccompNotify) : SeccompNotifyConfig :=
  mk_notify (default true (rnotify_enabled n)) (rnotify_default_action n)
            (entries_of (rnotify_allow_syscalls n)).

(** Membership of a name in the alternatives of a [match] arm. *)
Definition one_of (s : string) (names : list string) : bool := existsb (String.eqb s) names.

(** The first arm of a table whose alternatives name [s]. *)
Fixpoint match_arms {A} (s : string) (arms : list (list string * A)) : option A :=
  match arms with
  | [] => None
  | (names, a) :: arms => if one_of s names then Some a else match_arms s arms
  end.

Definition net_preset_arms : list (list string * list string) := [
  (["npm"], ["registry.npmjs.org"]);
  (["git"], ["github.com"; "api.github.com"; "codeload.github.com"]);
  (["pip"; "pypi"], ["pypi.org"; "files.pythonhosted.org"]);
  (["huggingface"; "hf"], ["huggingface.co"; "cdn-lfs.huggingface.co"]);
  (["cargo"; "crates"], ["crates.io"; "static.crates.io"; "index.crates.io"]);
  (["go"; "golang"], ["proxy.golang.org"; "sum.golang.org"]);
  (["maven"], ["repo1.maven.org"; "repo.maven.apache.org"]);
  (["nuget"], ["api.nuget.org"])].

Definition expand_net_preset (name : string) : result AnyError (list string) :=
  let unknown := to_ascii_lowercase (trim name) in
  ok_or (match_arms unknown net_preset_arms)
    (Untyped ("unknown net preset '" +:+ unknown +:+ "'; known presets: npm, git, pip, "
              +:+ "huggingface, cargo, go, maven, nuget")).

Definition parse_quota_bytes (s : string) : result AnyError Z :=
  ok_or (parse_bytes_value s) (Untyped ("invalid quota value '" +:+ s +:+ "'")).

(** A quota is a 64-bit byte count. *)
Lemma parse_quota_bytes_range s v : parse_quota_bytes s = Ok v → 0 ≤ v ≤ u64_max.
Proof.
  unfold parse_quota_bytes, ok_or, parse_bytes_value, parse_cgroup_memory. intros H.
  destruct (_ || _ || _); [done|].
  destruct (parse_bytes_with_standard (trim s) IecBinary) as [b|e] eqn:E; simplify_eq/=.
  by apply (parse_bytes_with_standard_range (trim s) IecBinary).
Qed.

(** A bandwidth that does not parse is dropped without an error: the section
    then carries no bandwidth ceiling. *)
Lemma unparsable_bandwidth_is_unlimited iops s :
  parse_byte_size s = None → max_bandwidth (io_rate_of (mk_raw_io_rate iops (Some s))) = None.
Proof. intros H. unfold io_rate_of. cbn. by rewrite H. Qed.

Lemma match_arms_spec {A} s (arms : list (list string * A)) :
  is_Some (match_arms s arms) ↔ s ∈ concat (fst <$> arms).
Proof.
  induction arms as [|[names a] arms IH]; cbn [match_arms fmap list_fmap concat fst].
  - split; [by intros [? ?]|by intros ?%elem_of_nil].
  - rewrite elem_of_app. unfold one_of. destruct (existsb _ names) eqn:E.
    + split; [intros _; left|by eauto]. apply existsb_true in E as (x & Hx & ->%String.eqb_eq). done.
    + rewrite IH. split; [by right|]. intros [Hin|?]; [|done].
      apply existsb_false in E. rewrite Forall_forall in E. apply E in Hin.
      by rewrite String.eqb_refl in Hin.
Qed.
