(* ===== verification/Presets.v ===== *)
(** * Presets: built-in profiles, agents and presets

    Model of [src/src/policy/defaults.rs] (names of the embedded profiles and
    agents) and of [src/src/policy/presets.rs] (security presets, network
    allowlists of the agents, deny presets).  The embedded texts are the files
    [src/profiles/*.toml]; a text is known here by the path it is included
    from.  [env_var] is [std::env::var]. *)

From S2P Require Import Prelude PolicyTypes Termination Schema.

(** ** Names of profiles and agents (defaults.rs) *)

Definition PROFILE_NAMES : list string := ["default"; "strict"; "audit"; "permissive"].

Definition AGENT_PROFILE_NAMES : list string := [
   "codex"; "claude"; "antigravity"; "aider"; "cursor"; "cline"; "opencode"; "copilot";
   "windsurf"; "goose"; "openhands"; "devin"; "smolagents"; "omp"; "zcode"; "kimi"; "grok";
   "hermes"; "kilo"; "pi"; "command_code"; "freebuff"; "deepseek_harness"; "omnigent";
   "crewai"; "autogen"; "amp"; "custom"; "swebench"; "qwen_code"; "roo_code"; "browser_use"].

Definition DEFAULT_ENV_PASSTHROUGH : list string := [
   "HOME"; "PATH"; "SHELL"; "USER"; "LOGNAME"; "TERM"; "COLORTERM"; "LANG"; "LC_*"; "EDITOR";
   "GIT_AUTHOR_NAME"; "GIT_AUTHOR_EMAIL"; "GIT_COMMITTER_NAME"; "GIT_COMMITTER_EMAIL";
   "CARGO_HOME"; "RUSTUP_HOME"; "NVM_DIR"; "NODE_PATH"; "TMPDIR"; "PWD"; "OLDPWD";
   "XDG_RUNTIME_DIR"; "XDG_CONFIG_HOME"; "DISPLAY"; "WAYLAND_DISPLAY"; "XDG_CURRENT_DESKTOP";
   "XDG_SESSION_TYPE"; "XDG_SESSION_DESKTOP"; "XAUTHORITY"; "DBUS_SESSION_BUS_ADDRESS";
   "BROWSER"; "NO_COLOR"; "CI"; "TERM_PROGRAM"; "VETTO_SANDBOXED"; "VETTO_SHIM_ACTIVE";
   "VETTO_WRAPPED"; "VETTO_GIT_GUARD"].

(** The file a built-in profile's text is included from. *)
Definition builtin (name : string) : option string :=
  match_arms name [
    (["default"], "profiles/default.toml"); (["strict"], "profiles/strict.toml");
    (["audit"], "profiles/audit.toml"); (["permissive"], "profiles/permissive.toml")].

Definition canonical_arms : list (list string * string) := [
  (["codex"; "codex-cli"], "codex");
  (["claude"; "claude-code"], "claude");
  (["aider"; "aider-chat"], "aider");
  (["cursor"; "cursor-agent"; "cursor-server"], "cursor");
  (["cline"; "cline-cli"], "cline");
  (["opencode"; "opencode-ai"], "opencode");
  (["copilot"; "github-copilot-cli"; "gh-copilot"], "copilot");
  (["antigravity"; "antigravity-cli"; "agy"], "antigravity");
  (["windsurf"; "windsurf-cli"], "windsurf");
  (["goose"; "goose-ai"], "goose");
  (["openhands"; "all-hands"], "openhands");
  (["devin"; "devin-cli"], "devin");
  (["smolagents"; "smol-agents"; "smolagent"], "smolagents");
  (["omp"; "omp-cli"], "omp");
  (["zcode"; "zcode-cli"], "zcode");
  (["kimi"; "kimi-code"; "kimi-cli"], "kimi");
  (["grok"; "grok-build"; "grok-cli"], "grok");
  (["hermes"; "hermes-agent"], "hermes");
  (["kilo"; "kilo-code"], "kilo");
  (["pi"; "pi-agent"], "pi");
  (["command-code"; "command_code"; "commandcode"], "command_code");
  (["freebuff"; "freebuff-agent"], "freebuff");
  (["deepseek-harness"; "deepseek_harness"; "deepseek"], "deepseek_harness");
  (["omnigent"; "omnigent-ai"; "omnigent-cli"], "omnigent");
  (["crewai"; "crew-ai"], "crewai");
  (["autogen"; "autogen-studio"; "autogenstudio"], "autogen");
  (["amp"; "amp-cli"], "amp");
  (["custom"], "custom");
  (["swebench"], "swebench");
  (["qwen-code"; "qwen_code"; "qwencode"; "qwen"], "qwen_code");
  (["roo-code"; "roo_code"; "roocode"; "roo"], "roo_code");
  (["browser-use"; "browser_use"; "browseruse"], "browser_use")].

Definition canonical_agent_name (name : string) : option string :=
  match_arms (to_ascii_lowercase (trim name)) canonical_arms.

Definition agent_text_arms : list (list string * string) := [
  (["codex"], "profiles/agents/codex.toml");
  (["claude"], "profiles/agents/claude.toml");
  (["antigravity"], "profiles/agents/antigravity.toml");
  (["aider"], "profiles/agents/aider.toml");
  (["cursor"], "profiles/agents/cursor.toml");
  (["cline"], "profiles/agents/cline.toml");
  (["opencode"], "profiles/agents/opencode.toml");
  (["copilot"], "profiles/agents/copilot.toml");
  (["windsurf"], "profiles/agents/windsurf.toml");
  (["goose"], "profiles/agents/goose.toml");
  (["openhands"], "profiles/agents/openhands.toml");
  (["devin"], "profiles/agents/devin.toml");
  (["smolagents"], "profiles/agents/smolagents.toml");
  (["omp"], "profiles/agents/omp.toml");
  (["zcode"], "profiles/agents/zcode.toml");
  (["kimi"], "profiles/agents/kimi.toml");
  (["grok"], "profiles/agents/grok.toml");
  (["hermes"], "profiles/agents/hermes.toml");
  (["kilo"], "profiles/agents/kilo.toml");
  (["pi"], "profiles/agents/pi.toml");
  (["command_code"], "profiles/agents/command_code.toml");
  (["freebuff"], "profiles/agents/freebuff.toml");
  (["deepseek_harness"], "profiles/agents/deepseek_harness.toml");
  (["omnigent"], "profiles/agents/omnigent.toml");
  (["crewai"], "profiles/agents/crewai.toml");
  (["autogen"], "profiles/agents/autogen.toml");
  (["amp"], "profiles/agents/amp.toml");
  (["custom"], "profiles/agents/custom.toml");
  (["swebench"], "profiles/agents/swebench.toml");
  (["qwen_code"], "profiles/agents/qwen_code.toml");
  (["roo_code"], "profiles/agents/roo_code.toml");
  (["browser_use"], "profiles/agents/browser_use.toml")].

Definition agent_builtin (name : string) : option string :=
  canonical ← canonical_agent_name name; match_arms canonical agent_text_arms.

Definition resolve_preset_toml (name : string) : option string :=
  match agent_builtin name with Some text => Some text | None => builtin name end.

(** ** Security presets (presets.rs) *)

Inductive SecurityPreset : Type := Paranoid | Balanced | Yolo.
#[export] Instance SecurityPreset_eq_dec : EqDecision SecurityPreset.
Proof. solve_decision. Defined.

Definition preset_as_str (p : SecurityPreset) : string :=
  match p with Paranoid => "paranoid" | Balanced => "balanced" | Yolo => "yolo" end.

Definition preset_parse (s : string) : result AnyError SecurityPreset :=
  let other := to_ascii_lowercase (trim s) in
  ok_or (match_arms other [(["paranoid"], Paranoid); (["balanced"], Balanced); (["yolo"], Yolo)])
    (Untyped ("unknown preset '" +:+ other
              +:+ "' (expected 'paranoid', 'balanced', or 'yolo')")).

Definition CANONICAL_PACKAGE_REGISTRY_DOMAINS : list string := [
  "registry.npmjs.org"; "pypi.org"; "files.pythonhosted.org"; "crates.io"; "index.crates.io";
  "static.crates.io"; "proxy.golang.org"; "sum.golang.org"; "registry.yarnpkg.com";
  "github.com"; "api.github.com"; "raw.githubusercontent.com"; "objects.githubusercontent.com"].

Definition agent_domains_a : list (list string * list string) := [
  (["claude"],
   ["api.anthropic.com"; "auth.anthropic.com"; "claude.ai"; "statsig.anthropic.com";
    "platform.anthropic.com"]);
  (["codex"],
   ["api.openai.com"; "chatgpt.com"; "auth.openai.com"; "cdn.oaistatic.com"; "chat.openai.com";
    "platform.openai.com"]);
  (["omp"],
   ["omp.sh"; "api.anthropic.com"; "api.openai.com"; "generativelanguage.googleapis.com";
    "openrouter.ai"]);
  (["zcode"],
   ["z.ai"; "api.z.ai"; "glm.z.ai"; "api.openai.com"]);
  (["kimi"],
   ["code.kimi.com"; "api.moonshot.cn"; "api.moonshot.ai"]);
  (["grok"],
   ["x.ai"; "api.x.ai"; "grok.com"]);
  (["antigravity"; "agy"],
   ["accounts.google.com"; "oauth2.googleapis.com"; "antigravity.google"; "www.googleapis.com";
    "cloudcode-pa.googleapis.com"; "daily-cloudcode-pa.googleapis.com";
    "antigravity-unleash.goog"; "alkalimodelplatform-pa.googleapis.com";
    "generativelanguage.googleapis.com"; "aicode.googleapis.com";
    "businessaicode.googleapis.com"; "aiplatform.googleapis.com"; "play.googleapis.com";
    "googleusercontent.com"]);
  (["aider"],
   ["api.openai.com"; "api.anthropic.com"; "auth.anthropic.com"; "openrouter.ai";
    "api.deepseek.com"; "api.groq.com"; "generativelanguage.googleapis.com"; "api.mistral.ai";
    "api.cohere.ai"; "api.cohere.com"; "api.together.xyz"; "api.perplexity.ai"; "aider.chat";
    "api.github.com"; "github.com"; "registry.npmjs.org"; "pypi.org"; "files.pythonhosted.org"]);
  (["opencode"],
   ["api.openai.com"; "api.anthropic.com"; "openrouter.ai"; "opencode.ai";
    "integrate.api.nvidia.com"; "agentrouter.org"; "aihubmix.com"; "api.github.com";
    "github.com"; "localhost"; "127.0.0.1"]);
  (["cursor"],
   ["api2.cursor.sh"; "api.cursor.sh"; "auth.cursor.sh"; "repo.cursor.sh"]);
  (["copilot"],
   ["api.github.com"; "copilot-proxy.githubusercontent.com"]);
  (["cline"],
   ["api.anthropic.com"; "api.openai.com"; "openrouter.ai"; "otel.cline.bot"; "api.cline.bot";
    "data.cline.bot"; "registry.npmjs.org"]);
  (["windsurf"],
   ["api.codeium.com"; "windsurf.codeium.com"]);
  (["goose"],
   ["api.openai.com"; "api.anthropic.com"; "openrouter.ai"])].

Definition agent_domains_b : list (list string * list string) := [
  (["openhands"],
   ["api.all-hands.dev"; "api.openai.com"; "api.anthropic.com"]);
  (["devin"],
   ["api.devin.ai"; "cognition.ai"; "api.openai.com"]);
  (["smolagents"],
   ["api.openai.com"; "api.anthropic.com"; "openrouter.ai"; "huggingface.co"; "hf.co";
    "cas.huggingface.co"]);
  (["hermes"],
   ["api.openai.com"; "api.anthropic.com"; "openrouter.ai"; "nousresearch.com";
    "api.together.xyz"]);
  (["kilo"],
   ["api.openai.com"; "api.anthropic.com"; "api.kilo.ai"; "openrouter.ai"]);
  (["pi"],
   ["api.openai.com"; "api.anthropic.com"; "api.groq.com"; "openrouter.ai"]);
  (["command_code"],
   ["api.cohere.com"; "api.cohere.ai"; "api.openai.com"; "api.anthropic.com"; "openrouter.ai"]);
  (["freebuff"],
   ["api.deepseek.com"; "api.openai.com"; "api.anthropic.com"; "openrouter.ai"]);
  (["deepseek_harness"],
   ["api.deepseek.com"; "api.openai.com"; "api.anthropic.com"; "openrouter.ai"])].

Definition agent_domains_c : list (list string * list string) := [
  (["omnigent"],
   ["api.omnigent.ai"; "api.openai.com"; "api.anthropic.com"; "openrouter.ai";
    "api.together.xyz"]);
  (["crewai"],
   ["api.openai.com"; "api.anthropic.com"; "generativelanguage.googleapis.com"; "api.groq.com";
    "api.cohere.com"; "api.cohere.ai"; "openrouter.ai"; "app.crewai.com";
    "telemetry.crewai.com"; "google.serper.dev"; "api.exa.ai"; "github.com"; "api.github.com"]);
  (["autogen"],
   ["api.openai.com"; "api.anthropic.com"; "generativelanguage.googleapis.com"; "api.groq.com";
    "openrouter.ai"; "api.mistral.ai"; "api.together.xyz"; "api.cohere.com"; "api.cohere.ai";
    "github.com"; "api.github.com"]);
  (["amp"],
   ["ampcode.com"; "sourcegraph.com"; "auth.sourcegraph.com"; "api.anthropic.com";
    "api.openai.com"]);
  (["swebench"],
   []);
  (["qwen_code"],
   ["dashscope.aliyuncs.com"; "api.deepseek.com"; "api.openai.com"; "api.anthropic.com";
    "openrouter.ai"; "huggingface.co"; "hf.co"]);
  (["roo_code"],
   ["api.anthropic.com"; "api.openai.com"; "openrouter.ai"; "api.deepseek.com";
    "generativelanguage.googleapis.com"; "api.groq.com"]);
  (["browser_use"],
   ["api.openai.com"; "api.anthropic.com"; "openrouter.ai"; "api.deepseek.com";
    "generativelanguage.googleapis.com"; "playwright.dev"])].

Definition agent_domains : list (list string * list string) :=
  agent_domains_a ++ agent_domains_b ++ agent_domains_c.

(** What follows the first occurrence of [needle]. *)
Fixpoint after_first (needle s : string) : option string :=
  match strip_prefix needle s with
  | Some rest => Some rest
  | None => match s with EmptyString => None | String _ s => after_first needle s end
  end.

Definition is_authority_end (c : ascii) : bool :=
  Ascii.eqb c "/" || Ascii.eqb c "?" || Ascii.eqb c "#".

(** [host[:port]] or [[v6]]: the host part. *)
Definition host_without_port (host_and_port : string) : string :=
  if starts_with host_and_port "[" then
    match split_once "]" host_and_port with
    | Some (String _ inside, _) => inside
    | _ => host_and_port
    end
  else match rsplit_once ":" host_and_port with
       | Some (h, p) =>
           if negb (is_empty p) && all_chars is_digit p && negb (contains_char h ":")
           then h else host_and_port
       | None => host_and_port
       end.

Definition extract_host_from_url (s : string) : option string :=
  let s := trim s in
  if is_empty s then None
  else
    let without_scheme := default s (after_first "://" s) in
    let host_and_port := default without_scheme (head (split_by is_authority_end without_scheme)) in
    let host_and_port :=
      match rsplit_once "@" host_and_port with Some (_, h) => h | None => host_and_port end in
    let host := to_ascii_lowercase (trim_end_char "." (trim (host_without_port host_and_port))) in
    if is_empty host then None else Some host.

(** [if !domains.contains(d) { domains.push(d) }]. *)
Definition push_new (domains : list string) (d : string) : list string :=
  if decide (d ∈ domains) then domains else domains ++ [d].

Definition base_url_vars : list string :=
  ["OPENAI_BASE_URL"; "ANTHROPIC_BASE_URL"; "DEEPSEEK_BASE_URL"; "OPENROUTER_BASE_URL";
   "OLLAMA_API_BASE"].

Section Agents.
Variable env_var : string → option string.

Definition push_base_url (domains : list string) (var : string) : list string :=
  match env_var var ≫= extract_host_from_url with
  | Some h =>
      if String.eqb h "localhost" || String.eqb h "127.0.0.1"
      then push_new (push_new domains "localhost") "127.0.0.1"
      else push_new domains h
  | None => domains
  end.

Definition agent_network_allowlist (agent : string) : list string :=
  let canon := default agent (canonical_agent_name agent) in
  let domains := default [] (match_arms canon agent_domains) in
  match domains with
  | [] => []
  | _ => foldl push_new (foldl push_base_url domains base_url_vars)
           CANONICAL_PACKAGE_REGISTRY_DOMAINS
  end.

Definition agent_default_limits (agent : string) : option RawLimits :=
  let canon := default agent (canonical_agent_name agent) in
  if String.eqb canon "opencode"
  then Some (mk_raw_limits None None None None (Some 2147483648) None None None None)
  else None.

Definition standard_secret_deny_paths : list string := [
   "$PROJECT/.env"; "$PROJECT/.env.*"; "$PROJECT/**/.env"; "$PROJECT/**/.env.*";
   "$PROJECT/*.pem"; "$PROJECT/**/*.pem"; "$PROJECT/*.key"; "$PROJECT/**/*.key";
   "$PROJECT/*.p12"; "$PROJECT/**/*.p12"; "$PROJECT/*.pfx"; "$PROJECT/**/*.pfx";
   "$PROJECT/*.kdbx"; "$PROJECT/**/*.kdbx"; "$PROJECT/.git/config"; "$PROJECT/.[eE][nN][vV]";
   "$PROJECT/.[eE][nN][vV].*"; "$PROJECT/**/.[eE][nN][vV]"; "$PROJECT/**/.[eE][nN][vV].*";
   "$PROJECT/*.[pP][eE][mM]"; "$PROJECT/**/*.[pP][eE][mM]"; "$PROJECT/*.[kK][eE][yY]";
   "$PROJECT/**/*.[kK][eE][yY]"; "$PROJECT/*.[pP]12"; "$PROJECT/**/*.[pP]12";
   "$PROJECT/*.[pP][fF][xX]"; "$PROJECT/**/*.[pP][fF][xX]"; "$PROJECT/*.[kK][dD][bB][xX]";
   "$PROJECT/**/*.[kK][dD][bB][xX]"].

Definition net_off : RawNetwork :=
  mk_raw_network (Some "off") None None None None None None None None None None None None.
Definition net_allowlist (domains : list string) : RawNetwork :=
  mk_raw_network (Some ("allowlist:" +:+ Paths.join_with "," domains)) (Some (Many domains))
    None None None None None None None None None None None.

Definition preset_fs (allow_write allow_read : list string) : RawFilesystem :=
  mk_raw_filesystem (Some (Many allow_write)) (Some (Many allow_read)) None
    (Some (Many ["$PROJECT/.git"])) None None None None None None None None.

Definition preset_with (name description : string) (fs : RawFilesystem)
    (net : option RawNetwork) (limits : option RawLimits) : RawLayer :=
  mk_raw_layer (Some (mk_raw_metadata (Some name) (Some description) None)) None (Some fs) None
    (Some (mk_raw_deny (Some (Many standard_secret_deny_paths)))) None net None None limits
    None None.

Definition preset_layer (preset : SecurityPreset) (agent : option string) : RawLayer :=
  let network_domains := from_option agent_network_allowlist [] agent in
  match preset with
  | Paranoid =>
      preset_with "preset:paranoid" "Paranoid preset: everything closed, network off"
        (preset_fs ["$PROJECT"; "/tmp"; "/dev/null"] ["$PROJECT"]) (Some net_off) None
  | Balanced =>
      preset_with "preset:balanced" "Balanced preset: standard development access"
        (preset_fs ["$PROJECT"; "/tmp"; "/dev/null"]
           ["$PROJECT"; "$HOME/.cargo"; "$HOME/.rustup"; "$HOME/.npm"; "$HOME/.cache";
            "$HOME/.local/share"])
        (Some (match network_domains with [] => net_off | _ => net_allowlist network_domains end))
        (agent ≫= agent_default_limits)
  | Yolo =>
      preset_with "preset:yolo" "Yolo preset: permissive write/read with secret masking"
        (preset_fs ["$PROJECT"; "/tmp"; "/dev/null"; "$HOME"] ["/"])
        (match network_domains with [] => None | _ => Some (net_allowlist network_domains) end)
        (agent ≫= agent_default_limits)
  end.

End Agents.

(** ** Deny presets *)

Definition deny_preset_arms : list (list string * list string) := [
  (["ssh"],
   ["$HOME/.ssh"]);
  (["aws"],
   ["$HOME/.aws"]);
  (["gcp"; "gcloud"],
   ["$HOME/.config/gcloud"]);
  (["kube"; "kubernetes"],
   ["$HOME/.kube"]);
  (["docker"],
   ["$HOME/.docker"; "$HOME/.docker/config.json"]);
  (["gnupg"; "gpg"],
   ["$HOME/.gnupg"]);
  (["git"],
   ["$HOME/.git-credentials"; "$HOME/.netrc"]);
  (["npm"],
   ["$HOME/.npmrc"]);
  (["cargo"],
   ["$HOME/.cargo/credentials"; "$HOME/.cargo/credentials.toml"]);
  (["codex"; "codex-cli"],
   ["$HOME/.codex"; "$HOME/.config/codex"]);
  (["claude"; "claude-code"],
   ["$HOME/.claude"; "$HOME/.config/claude"; "$HOME/.claude.json"]);
  (["antigravity"; "antigravity-cli"; "agy"],
   ["$HOME/.gemini"; "$HOME/.config/Antigravity"]);
  (["aider"; "aider-chat"],
   ["$HOME/.aider"; "$HOME/.config/aider"; "$HOME/.aider.conf.yml"]);
  (["cursor"; "cursor-agent"; "cursor-server"],
   ["$HOME/.cursor"; "$HOME/.config/Cursor"]);
  (["cline"; "cline-cli"],
   ["$HOME/.cline"; "$HOME/.config/cline"]);
  (["opencode"; "opencode-ai"],
   ["$HOME/.opencode"; "$HOME/.config/opencode"]);
  (["copilot"; "github-copilot-cli"; "gh-copilot"],
   ["$HOME/.copilot"; "$HOME/.config/github-copilot"]);
  (["windsurf"; "windsurf-cli"],
   ["$HOME/.windsurf"; "$HOME/.codeium"; "$HOME/.config/windsurf"]);
  (["goose"; "goose-ai"],
   ["$HOME/.goose"; "$HOME/.config/goose"]);
  (["openhands"; "all-hands"],
   ["$HOME/.openhands"; "$HOME/.config/openhands"]);
  (["devin"; "devin-cli"],
   ["$HOME/.devin"; "$HOME/.config/devin"]);
  (["smolagents"; "smol-agents"; "smolagent"],
   ["$HOME/.smolagents"; "$HOME/.cache/huggingface"; "$HOME/.cache/smolagents"]);
  (["omp"; "omp-cli"],
   ["$HOME/.omp"; "$HOME/.config/omp"]);
  (["zcode"; "zcode-cli"],
   ["$HOME/.zcode"; "$HOME/.config/zcode"]);
  (["kimi"; "kimi-code"; "kimi-cli"],
   ["$HOME/.kimi"; "$HOME/.config/kimi"]);
  (["grok"; "grok-build"; "grok-cli"],
   ["$HOME/.grok"; "$HOME/.config/grok"]);
  (["hermes"; "hermes-agent"],
   ["$HOME/.hermes"; "$HOME/.config/hermes"]);
  (["kilo"; "kilo-code"],
   ["$HOME/.kilo"; "$HOME/.config/kilo"]);
  (["pi"; "pi-agent"],
   ["$HOME/.pi"; "$HOME/.config/pi"]);
  (["command_code"; "command-code"; "commandcode"],
   ["$HOME/.command-code"; "$HOME/.config/command-code"]);
  (["freebuff"; "freebuff-agent"],
   ["$HOME/.freebuff"; "$HOME/.config/freebuff"]);
  (["deepseek"; "deepseek_harness"; "deepseek-harness"],
   ["$HOME/.deepseek"; "$HOME/.config/deepseek"]);
  (["omnigent"; "omnigent-ai"; "omnigent-cli"],
   ["$HOME/.omnigent"; "$HOME/.config/omnigent"]);
  (["crewai"; "crew-ai"],
   ["$HOME/.crewai"; "$HOME/.config/crewai"]);
  (["autogen"; "autogen-studio"; "autogenstudio"],
   ["$HOME/.autogen"; "$HOME/.autogenstudio"; "$HOME/.config/autogen"]);
  (["amp"; "amp-cli"],
   ["$HOME/.amp"; "$HOME/.config/amp"]);
  (["custom"],
   ["$HOME/.config/vetto/agents/custom"]);
  (["swebench"],
   ["$HOME/.swebench"]);
  (["qwen_code"; "qwen-code"; "qwencode"; "qwen"],
   ["$HOME/.qwen"; "$HOME/.config/qwen"; "$HOME/.config/qwen-code"]);
  (["roo_code"; "roo-code"; "roocode"; "roo"],
   ["$HOME/.roo"; "$HOME/.config/roo"; "$HOME/.config/roo-code"]);
  (["browser_use"; "browser-use"; "browseruse"],
   ["$HOME/.browser-use"; "$HOME/.config/browser-use"])].

Definition resolve_preset (name : string) : option (list string) :=
  match_arms (to_ascii_lowercase name) deny_preset_arms.

Definition KNOWN_PRESETS : list string := [
   "ssh"; "aws"; "gcp"; "gcloud"; "kube"; "kubernetes"; "docker"; "gnupg"; "gpg"; "git";
   "npm"; "cargo"; "codex"; "codex-cli"; "claude"; "claude-code"; "antigravity";
   "antigravity-cli"; "agy"; "aider"; "aider-chat"; "cursor"; "cursor-agent"; "cursor-server";
   "cline"; "cline-cli"; "opencode"; "opencode-ai"; "copilot"; "github-copilot-cli";
   "gh-copilot"; "windsurf"; "windsurf-cli"; "goose"; "goose-ai"; "openhands"; "all-hands";
   "devin"; "devin-cli"; "smolagents"; "smol-agents"; "smolagent"; "omp"; "omp-cli"; "zcode";
   "zcode-cli"; "kimi"; "kimi-code"; "kimi-cli"; "grok"; "grok-build"; "grok-cli"; "hermes";
   "hermes-agent"; "kilo"; "kilo-code"; "pi"; "pi-agent"; "command_code"; "command-code";
   "commandcode"; "freebuff"; "freebuff-agent"; "deepseek"; "deepseek_harness";
   "deepseek-harness"; "omnigent"; "omnigent-ai"; "omnigent-cli"; "crewai"; "crew-ai";
   "autogen"; "autogen-studio"; "autogenstudio"; "amp"; "amp-cli"; "custom"; "swebench";
   "qwen_code"; "qwen-code"; "qwencode"; "qwen"; "roo_code"; "roo-code"; "roocode"; "roo";
   "browser_use"; "browser-use"; "browseruse"].

(** ** Lemmas *)

Lemma subset_dec_spec {A} `{EqDecision A} (l1 l2 : list A) :
  forallb (λ x, bool_decide (x ∈ l2)) l1 = true → ∀ x, x ∈ l1 → x ∈ l2.
Proof.
  rewrite forallb_forall. intros H x Hx%list_elem_of_In. by apply H in Hx as ?%bool_decide_eq_true.
Qed.

Lemma same_names (l1 l2 : list string) :
  forallb (λ x, bool_decide (x ∈ l2)) l1 && forallb (λ x, bool_decide (x ∈ l1)) l2 = true →
  ∀ x, x ∈ l1 ↔ x ∈ l2.
Proof. intros [? ?]%andb_true_iff x. split; by apply subset_dec_spec. Qed.

Lemma match_arms_elem {A} s (arms : list (list string * A)) a :
  match_arms s arms = Some a → a ∈ snd <$> arms.
Proof.
  induction arms as [|[names b] arms IH]; cbn [match_arms fmap list_fmap snd]; [done|].
  destruct (one_of s names); [intros [= <-]; by left|right; auto].
Qed.

(** The advertised deny presets are exactly the ones that resolve: a name
    (in any letter case) has deny paths exactly when its lower-case form is
    listed in [KNOWN_PRESETS], and every deny path is below the home directory. *)
Theorem resolve_preset_known name :
  (is_Some (resolve_preset name) ↔ to_ascii_lowercase name ∈ KNOWN_PRESETS)
  ∧ ∀ p, p ∈ default [] (resolve_preset name) → starts_with p "$HOME/" = true.
Proof.
  split.
  - unfold resolve_preset. rewrite match_arms_spec. apply same_names. vm_compute. reflexivity.
  - unfold resolve_preset. destruct (match_arms _ _) as [ps|] eqn:E; [|by intros p ?%elem_of_nil].
    apply match_arms_elem in E. simpl. 
    assert (forallb (forallb (λ p, starts_with p "$HOME/")) (snd <$> deny_preset_arms) = true)
      as Hall by (vm_compute; reflexivity).
    rewrite forallb_forall in Hall. apply list_elem_of_In, Hall in E.
    rewrite forallb_forall in E. intros p Hp. by apply E, list_elem_of_In.
Qed.

Lemma canonical_names name c :
  canonical_agent_name name = Some c → c ∈ AGENT_PROFILE_NAMES.
Proof.
  intros H%match_arms_elem. revert H. apply subset_dec_spec. vm_compute. reflexivity.
Qed.

(** Every agent name the program accepts leads to an embedded profile: an
    alias resolves exactly when its profile text does, and then to one of the
    advertised agents, which is its own canonical name. *)
Theorem agent_names_total name :
  (is_Some (agent_builtin name) ↔ is_Some (canonical_agent_name name))
  ∧ ∀ c, canonical_agent_name name = Some c →
      c ∈ AGENT_PROFILE_NAMES ∧ canonical_agent_name c = Some c.
Proof.
  assert (∀ c, c ∈ AGENT_PROFILE_NAMES →
    canonical_agent_name c = Some c ∧ is_Some (match_arms c agent_text_arms)) as Hc.
  { assert (forallb (λ c, bool_decide (canonical_agent_name c = Some c)
      && bool_decide (is_Some (match_arms c agent_text_arms))) AGENT_PROFILE_NAMES = true) as Hall
      by (vm_compute; reflexivity).
    rewrite forallb_forall in Hall. intros c Hin%list_elem_of_In.
    apply Hall, andb_true_iff in Hin as [H1 H2].
    by apply bool_decide_eq_true in H1, H2. }
  split.
  - unfold agent_builtin. destruct (canonical_agent_name name) as [c|] eqn:E; cbn.
    + split; [by eauto|]. intros _. by apply Hc, (canonical_names name).
    + split; by intros [? ?].
  - intros c Hn%canonical_names. split; [done|]. by apply Hc.
Qed.

(** No preset unmasks a secret: whatever the preset and the agent, every
    standard secret path is among the denied paths of the preset's layer; the
    paranoid preset has the network off and writes only to the project, [/tmp]
    and [/dev/null]. *)
Theorem presets_mask_secrets env preset agent :
  entries_of (key (layer_display_only_deny (preset_layer env preset agent)) rdeny_paths)
    = standard_secret_deny_paths
  ∧ entries_of (key (layer_filesystem (preset_layer env preset agent)) fs_deny_write)
    = ["$PROJECT/.git"]
  ∧ layer_network (preset_layer env Paranoid agent) = Some net_off
  ∧ entries_of (key (layer_filesystem (preset_layer env Paranoid agent)) fs_allow_write)
    = ["$PROJECT"; "/tmp"; "/dev/null"].
Proof. split_and!; [by destruct preset..|done|done]. Qed.

(** ** The network allowlist of an agent *)

Lemma push_host_elem ds d x : x ∈ push_new ds d ↔ x ∈ ds ∨ x = d.
Proof. unfold push_new. case_decide; set_solver. Qed.

Lemma foldl_push_host_elem ds l x : x ∈ foldl push_new ds l ↔ x ∈ ds ∨ x ∈ l.
Proof.
  revert ds. induction l as [|d l IH]; intros ds; cbn [foldl]; [set_solver|].
  rewrite IH, push_host_elem. set_solver.
Qed.

Definition is_loopback_name (h : string) : bool :=
  String.eqb h "localhost" || String.eqb h "127.0.0.1".

(** A host named by the base-URL variable [var]; either loopback name brings both. *)
Definition base_url_host (env : string → option string) (var x : string) : Prop :=
  ∃ h, env var ≫= extract_host_from_url = Some h
       ∧ if is_loopback_name h then is_loopback_name x = true else x = h.

Lemma push_base_url_elem env ds var x :
  x ∈ push_base_url env ds var ↔ x ∈ ds ∨ base_url_host env var x.
Proof.
  unfold push_base_url, base_url_host. destruct (env var ≫= extract_host_from_url) as [h|].
  - unfold is_loopback_name. destruct (String.eqb h "localhost" || String.eqb h "127.0.0.1") eqn:E.
    + rewrite !push_host_elem. split.
      * intros [[?| ->]| ->]; [by left|right; exists h; by rewrite E..].
      * intros [?|(h' & [= <-] & Hx)]; [by auto|]. rewrite E in Hx.
        apply orb_true_iff in Hx as [->%String.eqb_eq| ->%String.eqb_eq]; auto.
    + rewrite push_host_elem. split.
      * intros [?| ->]; [by left|right; exists h; by rewrite E].
      * intros [?|(h' & [= <-] & Hx)]; [by auto|]. rewrite E in Hx. by right.
  - split; [by left|]. intros [?|(h & ? & _)]; done.
Qed.

Lemma foldl_base_url_elem env ds vars x :
  x ∈ foldl (push_base_url env) ds vars ↔ x ∈ ds ∨ ∃ var, var ∈ vars ∧ base_url_host env var x.
Proof.
  revert ds. induction vars as [|v vars IH]; intros ds; cbn [foldl].
  - split; [by left|]. intros [?|(v & Hv%elem_of_nil & _)]; done.
  - rewrite IH, push_base_url_elem. setoid_rewrite elem_of_cons. naive_solver.
Qed.

(** The domains opened for an agent are exactly its table entry, the hosts
    its base-URL variables name, and the package registries; an agent without a
    table entry gets nothing at all, whatever the environment holds. *)
Theorem agent_network_allowlist_spec env agent x :
  let base := default [] (match_arms (default agent (canonical_agent_name agent)) agent_domains) in
  x ∈ agent_network_allowlist env agent ↔
    base ≠ [] ∧ (x ∈ base ∨ x ∈ CANONICAL_PACKAGE_REGISTRY_DOMAINS
                 ∨ ∃ var, var ∈ base_url_vars ∧ base_url_host env var x).
Proof.
  intros base. unfold agent_network_allowlist. fold base.
  destruct base as [|d ds] eqn:E; [split; [by intros ?%elem_of_nil|by intros [? _]]|].
  rewrite foldl_push_host_elem, foldl_base_url_elem. split.
  - intros H. split; [done|]. tauto.
  - intros [_ H]. tauto.
Qed.
