(* ===== verification/Merge.v ===== *)
(** * Merge: layering of policies

    Model of [src/src/policy/loader/merge.rs]: the accumulated
    [MergedPolicy], the application of one layer ([apply]), inheritance of
    built-in profiles ([merge_layer]), the command-line overrides and the
    final deduplication.  An operation that fails has no result: every caller
    drops the half-updated value with the error. *)

From S2P Require Import Prelude Paths PolicyTypes Termination Schema Presets.

(** ** The accumulated policy *)

Record MergedPolicy : Type := mk_merged {
  m_metadata : PolicyMetadata;
  m_limits : ResourceLimits;
  m_active_preset : option SecurityPreset;
  m_allow_write : list string;
  m_allow_read : list string;
  m_deny_write : list string;
  m_deny_read : list string;
  m_deny_paths : list string;
  m_deny_preset : list string;
  m_deny_glob : list string;
  m_ro_mounts : list string;
  m_pass_through : list string;
  m_deny_env : list string;
  m_deny_network : list string;
  m_secret_proxies : list string;
  m_network_mode : option string;
  m_network_allow : list string;
  m_allow_cidr : list string;
  m_net_quota : gmap string Z;
  m_net_bind_ports : list Z;
  m_net_connect_ports : list Z;
  m_allow_unix_sockets : list string;
  m_deny_unix_sockets : list string;
  m_oslog : bool;
  m_lpac : bool;
  m_is_immutable : bool;
  m_system_log : bool;
  m_auto_deny_secrets : bool;
  m_git_guard : bool;
  m_snapshot : bool;
  m_read_only_caches : bool;
  m_shadow : bool;
  m_tmpfs_tmp : option bool;
  m_seccomp_profile : option string;
  m_seccomp_notify : option SeccompNotifyConfig;
  m_cgroup : option CgroupConfig;
  m_cpu_max : option string;
  m_io_priority : option string;
  m_dev_allow : option (list string);
  m_require_signed : bool;
}.

Definition default_merged : MergedPolicy :=
  mk_merged default_metadata default_limits None [] [] [] [] [] [] [] [] [] [] [] [] None [] []
    ∅ [] [] [] [] false false false false false false false false false None None None None
    None None None false.

(** ** Small updates *)

(** [if let Some(true) = flag { x = true }]. *)
Definition set_true (flag : option bool) (x : bool) : bool :=
  match flag with Some true => true | _ => x end.

(** [if let Some(v) = new { x = Some(v) }]. *)
Definition replace_with {A} (new old : option A) : option A :=
  match new with Some _ => new | None => old end.

Definition is_repo_kind (k : PolicySourceKind) : bool :=
  bool_decide (k = Repository) || bool_decide (k = RepositoryFragment).
Definition is_preset_kind (k : PolicySourceKind) : bool :=
  bool_decide (k = AgentPreset) || bool_decide (k = Preset).

Definition SYSTEM_WRITE_ROOTS : list string :=
  ["/"; "/usr"; "/bin"; "/sbin"; "/lib"; "/lib64"; "/etc"; "/boot"; "C:\"; "C:\Windows";
   "C:\Program Files"; "C:\Program Files (x86)"].

Definition locked_down : AnyError :=
  TypedVetto (PolicyLockdownViolation "cannot unset immutable enterprise lockdown").

Definition check_lockdown (m : MergedPolicy) (layer : RawLayer) (kind : PolicySourceKind) :
  result AnyError unit :=
  if m_is_immutable m && (precedence SystemGlobal <? precedence kind)
     && bool_decide (key (layer_security layer) sec_immutable = Some false)
  then Err locked_down else Ok tt.

Definition apply_metadata (old : PolicyMetadata) (new : option RawMetadata) : PolicyMetadata :=
  match new with
  | None => old
  | Some r =>
      mk_metadata
        (match rmeta_name r with
         | Some name => if is_empty name then meta_name old else name
         | None => meta_name old
         end)
        (default (meta_description old) (rmeta_description r))
        (meta_extends old) (source_kind old) (immutable old)
  end.

(** ** The network section *)

Fixpoint expand_presets (names : list string) : result AnyError (list string) :=
  match names with
  | [] => Ok []
  | name :: names =>
      domains ← expand_net_preset name;
      rest ← expand_presets names;
      Ok (domains ++ rest)
  end.

Definition clean_quota_domain (domain : string) : string :=
  to_ascii_lowercase (trim_end_char "." (trim domain)).

Fixpoint insert_quotas (quotas : list (string * string)) (q : gmap string Z) :
  result AnyError (gmap string Z) :=
  match quotas with
  | [] => Ok q
  | (domain, val) :: quotas =>
      bytes ← parse_quota_bytes val;
      insert_quotas quotas (<[clean_quota_domain domain := bytes]> q)
  end.

(** The fields the network sections write. *)
Record NetMerge : Type := mk_net_merge {
  nm_mode : option string;
  nm_allow : list string;
  nm_deny : list string;
  nm_cidr : list string;
  nm_quota : gmap string Z;
  nm_connect : list Z;
  nm_bind : list Z;
}.

Definition net_of (m : MergedPolicy) : NetMerge :=
  mk_net_merge (m_network_mode m) (m_network_allow m) (m_deny_network m) (m_allow_cidr m)
    (m_net_quota m) (m_net_connect_ports m) (m_net_bind_ports m).

Definition ports_of (ports : option RawNetPorts) : list Z :=
  default [] (key ports ports_allow_tcp_connect).

Definition apply_network (n : NetMerge) (net : option RawNetwork) : result AnyError NetMerge :=
  match net with
  | None => Ok n
  | Some r =>
      domains ← expand_presets (entries_of (rnet_net_preset r) ++ entries_of (rnet_net_presets r));
      quota ← insert_quotas (default [] (rnet_net_quota r)) (nm_quota n);
      Ok (mk_net_merge (replace_with (rnet_mode r) (nm_mode n))
        (nm_allow n ++ entries_of (rnet_allow r) ++ entries_of (rnet_allow_domains r) ++ domains)
        (nm_deny n ++ entries_of (rnet_deny r) ++ entries_of (rnet_deny_domains r)
         ++ entries_of (rnet_deny_network r))
        (nm_cidr n ++ entries_of (rnet_allow_cidr r))
        quota
        (nm_connect n ++ ports_of (rnet_net_ports r) ++ default [] (rnet_allow_tcp_connect r))
        (nm_bind n ++ default [] (rnet_allow_tcp_bind r)))
  end.

Definition skip_network (m : MergedPolicy) (kind : PolicySourceKind) : bool :=
  is_repo_kind kind && bool_decide (m_active_preset m = Some Paranoid).

Definition apply_networks (m : MergedPolicy) (layer : RawLayer) (kind : PolicySourceKind) :
  result AnyError NetMerge :=
  if skip_network m kind then Ok (net_of m)
  else
    n ← apply_network (net_of m) (layer_network layer);
    Ok (mk_net_merge (nm_mode n) (nm_allow n) (nm_deny n) (nm_cidr n) (nm_quota n)
          (nm_connect n ++ ports_of (layer_net_ports layer)) (nm_bind n)).

(** ** The limits *)

Definition with_file_size (l : ResourceLimits) (fsize : option Z) : ResourceLimits :=
  mk_limits (cpu_seconds l) (address_space_bytes l) (processes l) (open_files l) fsize (io_rate l).

(** A preset raises the file size instead of tightening it. *)
Definition apply_limits (old : ResourceLimits) (kind : PolicySourceKind)
    (limits : option RawLimits) : ResourceLimits :=
  match limits with
  | None => old
  | Some r =>
      let incoming := to_resource_limits r in
      match is_preset_kind kind, file_size_bytes incoming with
      | true, Some fsize =>
          let raised := from_option (λ curr, Z.max curr fsize) fsize (file_size_bytes old) in
          limits_merge_strictest (with_file_size old (Some raised)) (with_file_size incoming None)
      | _, _ => limits_merge_strictest old incoming
      end
  end.

Definition apply_cgroup (old : option CgroupConfig) (cg : option RawCgroup) : option CgroupConfig :=
  match cg with
  | None => old
  | Some r =>
      let incoming := cgroup_config_of r in
      Some (from_option (λ existing, cgroup_merge_strictest existing incoming) incoming old)
  end.

Definition apply_cpu_max (old cpu : option string) : option string :=
  match cpu with Some _ => strictest_cpu_max old cpu | None => old end.

(** ** Applying one layer *)

Section Apply.
(** [fs::canonicalize], and [HOME] or else [USERPROFILE]. *)
Variable canonicalize : path → option path.
Variable home_var : option path.

Definition cannot_grant (what w : string) : AnyError :=
  Untyped ("fail-closed: repository policy cannot grant write access to " +:+ what +:+ " '" +:+ w
           +:+ "' (exit 125)").

Definition check_repository_write (w : string) : result AnyError unit :=
  let p := components w in
  let can_str := from_option to_str w (canonicalize p) in
  if one_of can_str SYSTEM_WRITE_ROOTS then Err (cannot_grant "system root" w)
  else match home_var with
       | Some h =>
           if bool_decide (default p (canonicalize p) = h) || String.eqb w "$HOME" || String.eqb w "~"
           then Err (cannot_grant "$HOME" w) else Ok tt
       | None => Ok tt
       end.

Definition check_repository_writes (layer : RawLayer) (kind : PolicySourceKind) :
  result AnyError unit :=
  if is_repo_kind kind
  then try_each check_repository_write (entries_of (key (layer_filesystem layer) fs_allow_write))
  else Ok tt.

(** The update proper, once every check has passed. *)
Definition applied (m : MergedPolicy) (layer : RawLayer) (kind : PolicySourceKind) (n : NetMerge) :
  MergedPolicy :=
  let sec := λ A, @key _ A (layer_security layer) in
  let fs := λ A, @key _ A (layer_filesystem layer) in
  let env f := entries_of (key (layer_environment layer) f) in
  let fs_deny_all := entries_of (fs _ fs_deny) in
  mk_merged
    (apply_metadata (m_metadata m) (layer_metadata layer))
    (apply_limits (m_limits m) kind (layer_limits layer))
    (m_active_preset m)
    (m_allow_write m ++ entries_of (fs _ fs_allow_write))
    (m_allow_read m ++ entries_of (fs _ fs_allow_read))
    (m_deny_write m ++ fs_deny_all ++ entries_of (fs _ fs_deny_write))
    (m_deny_read m ++ fs_deny_all ++ entries_of (fs _ fs_deny_read))
    (m_deny_paths m ++ fs_deny_all ++ entries_of (key (layer_display_only_deny layer) rdeny_paths))
    (m_deny_preset m ++ entries_of (fs _ fs_deny_preset))
    (m_deny_glob m ++ entries_of (fs _ fs_deny_glob))
    (m_ro_mounts m ++ entries_of (fs _ fs_ro_mounts))
    (m_pass_through m ++ env renv_pass_through)
    (m_deny_env m ++ env renv_deny ++ env renv_deny_env)
    (nm_deny n)
    (m_secret_proxies m ++ entries_of (key (layer_secrets layer) secrets_proxy))
    (nm_mode n) (nm_allow n) (nm_cidr n) (nm_quota n) (nm_bind n) (nm_connect n)
    (m_allow_unix_sockets m ++ entries_of (key (layer_unix_sockets layer) rsock_allow))
    (m_deny_unix_sockets m ++ entries_of (key (layer_unix_sockets layer) rsock_deny))
    (m_oslog m) (m_lpac m)
    (set_true (sec _ sec_immutable) (m_is_immutable m))
    (default (m_system_log m) (sec _ sec_system_log))
    (set_true (key (layer_secrets layer) secrets_auto_deny)
       (set_true (sec _ sec_auto_deny_secrets) (m_auto_deny_secrets m)))
    (set_true (sec _ sec_git_guard) (m_git_guard m))
    (m_snapshot m)
    (default (m_read_only_caches m) (fs _ fs_read_only_caches))
    (default (m_shadow m) (fs _ fs_shadow))
    (replace_with (fs _ fs_tmpfs_tmp) (m_tmpfs_tmp m))
    (replace_with (sec _ sec_seccomp_profile) (m_seccomp_profile m))
    (replace_with (notify_config_of <$> sec _ sec_seccomp_notify) (m_seccomp_notify m))
    (apply_cgroup (apply_cgroup (m_cgroup m) (key (layer_limits layer) rlim_cgroup))
       (layer_cgroup layer))
    (apply_cpu_max (m_cpu_max m) (key (layer_limits layer) rlim_cpu_max))
    (replace_with (key (layer_limits layer) rlim_io_priority) (m_io_priority m))
    (replace_with (into_vec <$> fs _ fs_dev_allow) (m_dev_allow m))
    (m_require_signed m).

Definition apply (m : MergedPolicy) (layer : RawLayer) (kind : PolicySourceKind) :
  result AnyError MergedPolicy :=
  _ ← check_lockdown m layer kind;
  _ ← check_repository_writes layer kind;
  n ← apply_networks m layer kind;
  Ok (applied m layer kind n).
End Apply.

(** ** Updates of one field *)

Definition with_metadata (m : MergedPolicy) (meta : PolicyMetadata) : MergedPolicy :=
  mk_merged meta (m_limits m) (m_active_preset m) (m_allow_write m) (m_allow_read m)
    (m_deny_write m) (m_deny_read m) (m_deny_paths m) (m_deny_preset m) (m_deny_glob m)
    (m_ro_mounts m) (m_pass_through m) (m_deny_env m) (m_deny_network m) (m_secret_proxies m)
    (m_network_mode m) (m_network_allow m) (m_allow_cidr m) (m_net_quota m) (m_net_bind_ports m)
    (m_net_connect_ports m) (m_allow_unix_sockets m) (m_deny_unix_sockets m) (m_oslog m)
    (m_lpac m) (m_is_immutable m) (m_system_log m) (m_auto_deny_secrets m) (m_git_guard m)
    (m_snapshot m) (m_read_only_caches m) (m_shadow m) (m_tmpfs_tmp m) (m_seccomp_profile m)
    (m_seccomp_notify m) (m_cgroup m) (m_cpu_max m) (m_io_priority m) (m_dev_allow m)
    (m_require_signed m).

Definition with_pass_through (m : MergedPolicy) (names : list string) : MergedPolicy :=
  mk_merged (m_metadata m) (m_limits m) (m_active_preset m) (m_allow_write m) (m_allow_read m)
    (m_deny_write m) (m_deny_read m) (m_deny_paths m) (m_deny_preset m) (m_deny_glob m)
    (m_ro_mounts m) names (m_deny_env m) (m_deny_network m) (m_secret_proxies m)
    (m_network_mode m) (m_network_allow m) (m_allow_cidr m) (m_net_quota m) (m_net_bind_ports m)
    (m_net_connect_ports m) (m_allow_unix_sockets m) (m_deny_unix_sockets m) (m_oslog m)
    (m_lpac m) (m_is_immutable m) (m_system_log m) (m_auto_deny_secrets m) (m_git_guard m)
    (m_snapshot m) (m_read_only_caches m) (m_shadow m) (m_tmpfs_tmp m) (m_seccomp_profile m)
    (m_seccomp_notify m) (m_cgroup m) (m_cpu_max m) (m_io_priority m) (m_dev_allow m)
    (m_require_signed m).

Definition with_active_preset (m : MergedPolicy) (preset : SecurityPreset) : MergedPolicy :=
  mk_merged (m_metadata m) (m_limits m) (Some preset) (m_allow_write m) (m_allow_read m)
    (m_deny_write m) (m_deny_read m) (m_deny_paths m) (m_deny_preset m) (m_deny_glob m)
    (m_ro_mounts m) (m_pass_through m) (m_deny_env m) (m_deny_network m) (m_secret_proxies m)
    (m_network_mode m) (m_network_allow m) (m_allow_cidr m) (m_net_quota m) (m_net_bind_ports m)
    (m_net_connect_ports m) (m_allow_unix_sockets m) (m_deny_unix_sockets m) (m_oslog m)
    (m_lpac m) (m_is_immutable m) (m_system_log m) (m_auto_deny_secrets m) (m_git_guard m)
    (m_snapshot m) (m_read_only_caches m) (m_shadow m) (m_tmpfs_tmp m) (m_seccomp_profile m)
    (m_seccomp_notify m) (m_cgroup m) (m_cpu_max m) (m_io_priority m) (m_dev_allow m)
    (m_require_signed m).

Definition with_extends (meta : PolicyMetadata) (extends : list string) : PolicyMetadata :=
  mk_metadata (meta_name meta) (meta_description meta) extends (source_kind meta) (immutable meta).

(** ** Deduplication *)

(** [retain(|v| seen.insert(v))]: the first of equal values stays. *)
Fixpoint retain_new (seen : gset string) (values : list string) : list string :=
  match values with
  | [] => []
  | v :: values =>
      if decide (v ∈ seen) then retain_new seen values
      else v :: retain_new ({[v]} ∪ seen) values
  end.

Definition deduplicate_strings (values : list string) : list string := retain_new ∅ values.

(** [sort_unstable(); dedup()]. *)
Fixpoint insert_port (x : Z) (l : list Z) : list Z :=
  match l with
  | [] => [x]
  | y :: l' => if x <? y then x :: l else if x =? y then l else y :: insert_port x l'
  end.
Definition sort_dedup_ports (l : list Z) : list Z := foldr insert_port [] l.

Definition deduplicate (m : MergedPolicy) : MergedPolicy :=
  mk_merged (with_extends (m_metadata m) (deduplicate_strings (meta_extends (m_metadata m))))
    (m_limits m) (m_active_preset m) (deduplicate_strings (m_allow_write m))
    (deduplicate_strings (m_allow_read m)) (deduplicate_strings (m_deny_write m))
    (deduplicate_strings (m_deny_read m)) (deduplicate_strings (m_deny_paths m))
    (deduplicate_strings (m_deny_preset m)) (deduplicate_strings (m_deny_glob m))
    (deduplicate_strings (m_ro_mounts m)) (deduplicate_strings (m_pass_through m))
    (deduplicate_strings (m_deny_env m)) (deduplicate_strings (m_deny_network m))
    (deduplicate_strings (m_secret_proxies m)) (m_network_mode m)
    (deduplicate_strings (m_network_allow m)) (deduplicate_strings (m_allow_cidr m))
    (m_net_quota m) (sort_dedup_ports (m_net_bind_ports m))
    (sort_dedup_ports (m_net_connect_ports m)) (deduplicate_strings (m_allow_unix_sockets m))
    (deduplicate_strings (m_deny_unix_sockets m)) (m_oslog m) (m_lpac m) (m_is_immutable m)
    (m_system_log m) (m_auto_deny_secrets m) (m_git_guard m) (m_snapshot m) (m_read_only_caches m)
    (m_shadow m) (m_tmpfs_tmp m) (m_seccomp_profile m) (m_seccomp_notify m) (m_cgroup m)
    (m_cpu_max m) (m_io_priority m) (m_dev_allow m) (m_require_signed m).

(** ** Command-line overrides *)

Record PolicyOverrides : Type := mk_overrides {
  o_allow_write : list string;
  o_allow_read : list string;
  o_deny_write : list string;
  o_deny_read : list string;
  o_display_only_deny : list string;
  o_deny_glob : list string;
  o_ro_mounts : list string;
  o_pass_through : list string;
  o_deny_env : list string;
  o_deny_network : list string;
  o_oslog : option bool;
  o_lpac : option bool;
  o_name : option string;
  o_description : option string;
  o_limits : option ResourceLimits;
  o_git_guard : option bool;
  o_snapshot : option bool;
  o_read_only_caches : option bool;
  o_shadow : option bool;
  o_tmpfs_tmp : option bool;
  o_auto_deny_secrets : option bool;
  o_net_quota : gmap string Z;
  o_deny_unix_sockets : list string;
}.

Definition no_overrides : PolicyOverrides :=
  mk_overrides [] [] [] [] [] [] [] [] [] [] None None None None None None None None None None
    None ∅ [].

Definition override_metadata (meta : PolicyMetadata) (name description : option string) :
  PolicyMetadata :=
  apply_metadata meta (Some (mk_raw_metadata name description None)).

Definition no_allow_in_lockdown : AnyError :=
  TypedVetto (PolicyLockdownViolation
    "cannot add filesystem allow paths via CLI in enterprise lockdown mode").

Definition overridden (m : MergedPolicy) (o : PolicyOverrides) : MergedPolicy :=
  mk_merged (override_metadata (m_metadata m) (o_name o) (o_description o))
    (from_option (limits_merge_strictest (m_limits m)) (m_limits m) (o_limits o))
    (m_active_preset m) (m_allow_write m ++ o_allow_write o) (m_allow_read m ++ o_allow_read o)
    (m_deny_write m ++ o_deny_write o) (m_deny_read m ++ o_deny_read o)
    (m_deny_paths m ++ o_display_only_deny o) (m_deny_preset m) (m_deny_glob m ++ o_deny_glob o)
    (m_ro_mounts m ++ o_ro_mounts o) (m_pass_through m ++ o_pass_through o)
    (m_deny_env m ++ o_deny_env o) (m_deny_network m ++ o_deny_network o) (m_secret_proxies m)
    (m_network_mode m) (m_network_allow m) (m_allow_cidr m) (o_net_quota o ∪ m_net_quota m)
    (m_net_bind_ports m) (m_net_connect_ports m) (m_allow_unix_sockets m)
    (deduplicate_strings (m_deny_unix_sockets m ++ o_deny_unix_sockets o))
    (default (m_oslog m) (o_oslog o)) (default (m_lpac m) (o_lpac o)) (m_is_immutable m)
    (m_system_log m) (set_true (o_auto_deny_secrets o) (m_auto_deny_secrets m))
    (set_true (o_git_guard o) (m_git_guard m)) (set_true (o_snapshot o) (m_snapshot m))
    (set_true (o_read_only_caches o) (m_read_only_caches m)) (set_true (o_shadow o) (m_shadow m))
    (replace_with (o_tmpfs_tmp o) (m_tmpfs_tmp m)) (m_seccomp_profile m) (m_seccomp_notify m)
    (m_cgroup m) (m_cpu_max m) (m_io_priority m) (m_dev_allow m) (m_require_signed m).

Definition is_nil {A} (l : list A) : bool := match l with [] => true | _ => false end.

Definition apply_overrides (m : MergedPolicy) (o : PolicyOverrides) : result AnyError MergedPolicy :=
  if m_is_immutable m && (negb (is_nil (o_allow_write o)) || negb (is_nil (o_allow_read o)))
  then Err no_allow_in_lockdown else Ok (overridden m o).

(** ** Inheritance *)

Definition is_name_char (c : ascii) : bool :=
  is_digit c || is_upper c || is_lower c || Ascii.eqb c "_" || Ascii.eqb c "-".

Definition validate_parent_name (parent : string) : result AnyError unit :=
  if is_empty parent || String.eqb parent "." || String.eqb parent ".."
     || contains_char parent "/" || contains_char parent "\" || negb (all_chars is_name_char parent)
  then Err (Untyped ("invalid inherited profile name '" +:+ parent +:+ "'")) else Ok tt.

Section Inheritance.
Variable canonicalize : path → option path.
Variable home_var : option path.
(** [toml::from_str], and the embedded text of a profile. *)
Variable toml_from_str : string → result string RawLayer.
Variable profile_text : string → string.

Definition parse_layer (text label : string) : result AnyError RawLayer :=
  match toml_from_str text with
  | Ok layer => Ok layer
  | Err err =>
      Err (TypedPolicy (CompilationFailed
        ("failed to parse policy '" +:+ label +:+ "': " +:+ err)))
  end.

(** The layer of a parent that may be inherited. *)
Definition parent_layer (source : string) (stack : list string) (parent : string) :
  result AnyError RawLayer :=
  _ ← validate_parent_name parent;
  if decide (parent ∈ stack)
  then Err (Untyped ("policy inheritance cycle involving '" +:+ parent +:+ "' in " +:+ source))
  else
    text ← ok_or (builtin parent)
      (Untyped ("unknown inherited profile '" +:+ parent
                +:+ "'; only built-in profiles may be extended"));
    parse_layer (profile_text text) ("inherited:" +:+ parent).

Definition push_extends (m : MergedPolicy) (parent : string) : MergedPolicy :=
  with_metadata m (with_extends (m_metadata m) (push_new (meta_extends (m_metadata m)) parent)).

(** The loop over the parents; [rec] merges one of them.  [None]: out of fuel. *)
Fixpoint inherit
    (rec : RawLayer → string → list string → MergedPolicy → option (result AnyError MergedPolicy))
    (source : string) (stack parents : list string) (m : MergedPolicy) :
  option (result AnyError MergedPolicy) :=
  match parents with
  | [] => Some (Ok m)
  | parent :: parents =>
      match parent_layer source stack parent with
      | Err e => Some (Err e)
      | Ok pl =>
          match rec pl ("inherited:" +:+ parent) (stack ++ [parent]) m with
          | Some (Ok m') => inherit rec source stack parents (push_extends m' parent)
          | r => r
          end
      end
  end.

Definition parents_of (layer : RawLayer) : list string :=
  entries_of (key (layer_metadata layer) rmeta_extends).

Fixpoint merge_layer_fuel (fuel : nat) (layer : RawLayer) (source : string) (stack : list string)
    (m : MergedPolicy) (kind : PolicySourceKind) : option (result AnyError MergedPolicy) :=
  match fuel with
  | O => None
  | S fuel =>
      r ← inherit (λ pl src st m, merge_layer_fuel fuel pl src st m BuiltinProfile)
            source stack (parents_of layer) m;
      Some (m' ← r; apply canonicalize home_var m' layer kind)
  end.

(** One level per built-in profile, and the layer itself. *)
Definition merge_layer (layer : RawLayer) (source : string) (stack : list string)
    (m : MergedPolicy) (kind : PolicySourceKind) : result AnyError MergedPolicy :=
  match merge_layer_fuel (S (length PROFILE_NAMES)) layer source stack m kind with
  | Some r => r
  | None => Err (Untyped "inheritance does not end")
  end.

(** [LayeredPolicyLoader::merge] and [merge_all]. *)
Definition merge (m : MergedPolicy) (layer : RawLayer) (kind : PolicySourceKind) :
  result AnyError MergedPolicy := merge_layer layer "merge" [] m kind.

Fixpoint merge_from (m : MergedPolicy) (layers : list (RawLayer * PolicySourceKind)) :
  result AnyError MergedPolicy :=
  match layers with
  | [] => Ok m
  | (layer, kind) :: layers => m' ← merge m layer kind; merge_from m' layers
  end.

Definition merge_all (layers : list (RawLayer * PolicySourceKind)) :
  result AnyError MergedPolicy := merge_from default_merged layers.
End Inheritance.

(** ** Bounded inheritance *)

Lemma builtin_names name text : builtin name = Some text → name ∈ PROFILE_NAMES.
Proof.
  intros H. assert (is_Some (builtin name)) as Hs by eauto.
  unfold builtin in Hs. apply match_arms_spec in Hs. exact Hs.
Qed.

Lemma result_bind_ok {E A B} (r : result E A) (f : A → result E B) b :
  (a ← r; f a) = Ok b → ∃ a, r = Ok a ∧ f a = Ok b.
Proof. destruct r as [a|e]; [|done]. intros H. by exists a. Qed.

(** Profiles a parent may still name. *)
Definition room (stack : list string) : nat :=
  length (filter (.∉ stack) PROFILE_NAMES).

Lemma room_le (stack : list string) p l :
  (length (filter (.∉ stack ++ [p]) l) ≤ length (filter (.∉ stack) l))%nat.
Proof.
  induction l as [|q l IH]; [done|]. rewrite !filter_cons.
  destruct (decide (q ∉ stack)) as [|Hq]; [case_decide; simpl; lia|].
  rewrite decide_False by (rewrite elem_of_app; tauto). done.
Qed.

Lemma room_push (stack : list string) p :
  p ∈ PROFILE_NAMES → p ∉ stack → (room (stack ++ [p]) < room stack)%nat.
Proof.
  unfold room. generalize PROFILE_NAMES as l. intros l Hin Hns.
  induction l as [|q l IH]; [by apply elem_of_nil in Hin|]. rewrite !filter_cons.
  pose proof (room_le stack p l). apply elem_of_cons in Hin as [<-|Hin].
  - rewrite decide_False by set_solver. rewrite decide_True by done. simpl. lia.
  - apply IH in Hin. destruct (decide (q ∉ stack)) as [|Hq]; [case_decide; simpl; lia|].
    rewrite decide_False by (rewrite elem_of_app; tauto). done.
Qed.

Section InheritanceFacts.
Context (canonicalize : path → option path) (home_var : option path).
Context (toml_from_str : string → result string RawLayer) (profile_text : string → string).
Local Abbreviation parent_layer := (parent_layer toml_from_str profile_text).
Local Abbreviation inherit := (inherit toml_from_str profile_text).
Local Abbreviation merge_layer_fuel :=
  (merge_layer_fuel canonicalize home_var toml_from_str profile_text).
Local Abbreviation merge_layer := (merge_layer canonicalize home_var toml_from_str profile_text).
Local Abbreviation apply := (apply canonicalize home_var).

Lemma parent_layer_ok source stack parent pl :
  parent_layer source stack parent = Ok pl →
  parent ∈ PROFILE_NAMES ∧ parent ∉ stack.
Proof.
  unfold Merge.parent_layer. intros (? & _ & H)%result_bind_ok. case_decide; [done|].
  apply result_bind_ok in H as (text & H & _). split; [|done].
  destruct (builtin parent) eqn:E; simplify_eq/=. by eapply builtin_names.
Qed.

Lemma inherit_ends rec source stack parents m :
  (∀ parent pl m, parent ∈ PROFILE_NAMES → parent ∉ stack →
     is_Some (rec pl ("inherited:" +:+ parent) (stack ++ [parent]) m)) →
  is_Some (inherit rec source stack parents m).
Proof.
  intros Hrec. revert m. induction parents as [|parent parents IH]; intros m; [by eauto|].
  cbn [Merge.inherit]. destruct (parent_layer _ _ _) as [pl|e] eqn:E; [|by eauto].
  apply parent_layer_ok in E as [Hp Hs]. 
  destruct (Hrec parent pl m Hp Hs) as [[m'|e] ->]; [apply IH|by eauto].
Qed.

Lemma merge_layer_fuel_ends fuel layer source stack m kind :
  (room stack < fuel)%nat → is_Some (merge_layer_fuel fuel layer source stack m kind).
Proof.
  revert layer source stack m kind. induction fuel as [|fuel IH]; intros * Hf; [lia|].
  cbn [Merge.merge_layer_fuel].
  destruct (inherit_ends (λ pl src st m, merge_layer_fuel fuel pl src st m BuiltinProfile)
    source stack (parents_of layer) m) as [r ->]; [|by eauto].
  intros parent pl m' Hp Hs. apply IH. pose proof (room_push stack parent Hp Hs). lia.
Qed.

(** Policy inheritance always ends: merging a layer under any stack of
    profiles in progress never exhausts the recursion bound of one level per
    built-in profile, because every level pushes a new built-in name. *)
Theorem merge_layer_ends layer source stack m kind :
  is_Some (Merge.merge_layer_fuel canonicalize home_var toml_from_str profile_text
             (S (length PROFILE_NAMES)) layer source stack m kind).
Proof.
  apply merge_layer_fuel_ends. unfold room. pose proof (length_filter (.∉ stack) PROFILE_NAMES). lia.
Qed.

(** A relation between the accumulated policies before and after survives
    inheritance when one [apply] and one recorded parent satisfy it. *)
Lemma merge_layer_ind (R : MergedPolicy → MergedPolicy → Prop)
    (P : RawLayer → PolicySourceKind → Prop) :
  PreOrder R →
  (∀ m layer kind m', P layer kind → apply m layer kind = Ok m' → R m m') →
  (∀ m parent, R m (push_extends m parent)) →
  (∀ source stack parent pl, parent_layer source stack parent = Ok pl → P pl BuiltinProfile) →
  ∀ layer source stack m kind m', P layer kind →
    merge_layer layer source stack m kind = Ok m' → R m m'.
Proof.
  intros Hpre Happ Hpush HB layer source stack m kind m' HP Hm.
  unfold Merge.merge_layer in Hm. destruct (merge_layer_fuel _ _ _ _ _ _) as [r|] eqn:E; [|done].
  subst r. revert E. generalize (S (length PROFILE_NAMES)). intros fuel.
  revert layer source stack m kind m' HP. induction fuel as [|fuel IH]; intros * HP E; [done|].
  cbn [Merge.merge_layer_fuel] in E.
  destruct (inherit _ _ _ _ _) as [r|] eqn:Ei; [|done]. injection E as E.
  apply result_bind_ok in E as (m1 & -> & Ha). 
  etransitivity; [|by eapply Happ]. clear Ha.
  revert m Ei. induction (parents_of layer) as [|p ps IHp]; intros m Ei; [by simplify_eq/=|].
  cbn [Merge.inherit] in Ei. destruct (parent_layer _ _ _) as [pl|e] eqn:Hpl; [|done].
  destruct (merge_layer_fuel fuel _ _ _ _ _) as [[m2|e]|] eqn:E2; [|done|done].
  etransitivity; [exact (IH _ _ _ _ _ _ (HB _ _ _ _ Hpl) E2)|]. etransitivity; [apply (Hpush _ p)|]. by apply IHp.
Qed.

(** ** What a layer can do *)

Lemma apply_ok m layer kind m' :
  apply m layer kind = Ok m' →
  check_lockdown m layer kind = Ok tt
  ∧ check_repository_writes canonicalize home_var layer kind = Ok tt
  ∧ ∃ n, apply_networks m layer kind = Ok n ∧ m' = applied m layer kind n.
Proof.
  unfold Merge.apply. intros ([] & Hl & H1)%result_bind_ok.
  apply result_bind_ok in H1 as ([] & Hr & H2). apply result_bind_ok in H2 as (n & Hn & H3).
  simplify_eq/=. eauto.
Qed.

Lemma apply_network_denies n net n' :
  apply_network n net = Ok n' → nm_deny n `prefix_of` nm_deny n'.
Proof.
  destruct net as [r|]; [|by intros [= <-]]. unfold apply_network.
  intros (? & _ & H1)%result_bind_ok. apply result_bind_ok in H1 as (? & _ & H2). simplify_eq/=.
  by apply prefix_app_r.
Qed.

Lemma apply_networks_denies m layer kind n :
  apply_networks m layer kind = Ok n → m_deny_network m `prefix_of` nm_deny n.
Proof.
  unfold apply_networks. case_match; [by intros [= <-]|].
  intros (n1 & Hn%apply_network_denies & ?)%result_bind_ok. by simplify_eq/=.
Qed.

(** Every denial and switch of the first policy is one of the second. *)
Definition keeps_denials (m m' : MergedPolicy) : Prop :=
  m_deny_write m `prefix_of` m_deny_write m' ∧ m_deny_read m `prefix_of` m_deny_read m'
  ∧ m_deny_paths m `prefix_of` m_deny_paths m' ∧ m_deny_preset m `prefix_of` m_deny_preset m'
  ∧ m_deny_glob m `prefix_of` m_deny_glob m' ∧ m_deny_env m `prefix_of` m_deny_env m'
  ∧ m_deny_network m `prefix_of` m_deny_network m'
  ∧ m_deny_unix_sockets m `prefix_of` m_deny_unix_sockets m'
  ∧ (m_is_immutable m = true → m_is_immutable m' = true)
  ∧ (m_git_guard m = true → m_git_guard m' = true)
  ∧ (m_auto_deny_secrets m = true → m_auto_deny_secrets m' = true).

(** Every restriction: the denials, and the limits - the process limits, the
    cgroup ceilings and the CPU quota - at least as tight. *)
Definition restricts (m m' : MergedPolicy) : Prop :=
  keeps_denials m m' ∧ limits_tighter (m_limits m') (m_limits m)
  ∧ cgroup_tighter (m_cgroup m') (m_cgroup m) ∧ cpu_tighter (m_cpu_max m') (m_cpu_max m).

(** The CPU quotas a layer sets; none reads as NaN. *)
Definition numeric_quotas (layer : RawLayer) : Prop :=
  numeric_quota (key (layer_limits layer) rlim_cpu_max)
  ∧ (∀ cg, key (layer_limits layer) rlim_cgroup = Some cg →
       numeric_quota (cgroup_cpu_max (cgroup_config_of cg)))
  ∧ (∀ cg, layer_cgroup layer = Some cg → numeric_quota (cgroup_cpu_max (cgroup_config_of cg))).

#[export] Instance keeps_denials_preorder : PreOrder keeps_denials.
Proof.
  split; [intros m|intros m1 m2 m3]; unfold keeps_denials.
  - split_and!; auto.
  - intros H1 H2. destruct_and!. split_and!; first [by etransitivity|tauto].
Qed.

#[export] Instance restricts_preorder : PreOrder restricts.
Proof.
  split.
  - intros m. split_and!; [done|apply limits_tighter_refl|apply cgroup_tighter_refl
      |apply cpu_tighter_refl].
  - intros m1 m2 m3 (?&?&?&?) (?&?&?&?). split_and!; [by etransitivity
      |by eapply limits_tighter_trans|by eapply cgroup_tighter_trans|by eapply cpu_tighter_trans].
Qed.

Lemma set_true_keeps flag x : x = true → set_true flag x = true.
Proof. by destruct flag as [[]|]. Qed.

Lemma apply_limits_tighter l kind limits :
  is_preset_kind kind = false → limits_tighter (apply_limits l kind limits) l.
Proof.
  intros Hk. unfold apply_limits. rewrite Hk. destruct limits; [apply limits_merge_tighter|].
  apply limits_tighter_refl.
Qed.

Lemma apply_cgroup_tighter old cg :
  (∀ r, cg = Some r → numeric_quota (cgroup_cpu_max (cgroup_config_of r))) →
  cgroup_tighter (apply_cgroup old cg) old.
Proof.
  intros Hq. destruct cg as [r|]; [|apply cgroup_tighter_refl]. destruct old as [o|]; [|done].
  by apply cgroup_merge_tighter, Hq.
Qed.

Lemma apply_cpu_max_tighter old cpu : numeric_quota cpu → cpu_tighter (apply_cpu_max old cpu) old.
Proof.
  intros Hq. destruct cpu; [by apply strictest_cpu_tighter|apply cpu_tighter_refl].
Qed.

Lemma apply_keeps_denials m layer kind m' :
  apply m layer kind = Ok m' → keeps_denials m m'.
Proof.
  intros (_ & _ & n & Hn%apply_networks_denies & ->)%apply_ok. unfold keeps_denials; cbn.
  split_and!; try (by apply prefix_app_r); try (by intros ?; repeat apply set_true_keeps).
  exact Hn.
Qed.

Lemma push_extends_keeps m p : keeps_denials m (push_extends m p).
Proof. unfold keeps_denials; cbn. split_and!; auto. Qed.

(** No layer whatever removes a denial. *)
Lemma merge_layer_keeps_denials layer source stack m kind m' :
  merge_layer layer source stack m kind = Ok m' → keeps_denials m m'.
Proof.
  apply (merge_layer_ind keeps_denials (λ _ _, True)); [apply _|..|done|done].
  - intros. by eapply apply_keeps_denials.
  - apply push_extends_keeps.
Qed.

(** C11: No layer outside the presets loosens a denial or a limit, however many
    profiles it inherits: the deny lists (paths, reads, writes, presets, globs,
    environment, network, sockets) only grow at their end, the immutable,
    git-guard and secret-masking switches stay on, and the process limits, the
    I/O rates, the cgroup's memory, swap and process ceilings and the CPU quotas
    stay at least as tight - provided no CPU quota of the layer or of an
    embedded profile it may inherit reads as NaN, which the strictest-wins
    comparison would let through. *)
Theorem merge_layer_restricts layer source stack m kind m' :
  numeric_quotas layer →
  (∀ src st parent pl, parent_layer src st parent = Ok pl → numeric_quotas pl) →
  is_preset_kind kind = false → merge_layer layer source stack m kind = Ok m' → restricts m m'.
Proof.
  intros Hq Hp Hk.
  apply (merge_layer_ind restricts (λ l k, is_preset_kind k = false ∧ numeric_quotas l));
    [apply _| | | |done].
  - intros m1 l k m2 [Hk' (Hc & Hg & Hg')] Hm. split; [by eapply apply_keeps_denials|].
    apply apply_ok in Hm as (_ & _ & n & _ & ->). cbn. split_and!.
    + by apply apply_limits_tighter.
    + eapply cgroup_tighter_trans; by apply apply_cgroup_tighter.
    + by apply apply_cpu_max_tighter.
  - intros m1 p. split_and!; [apply push_extends_keeps|apply limits_tighter_refl
      |apply cgroup_tighter_refl|apply cpu_tighter_refl].
  - intros src st parent pl Hpl. split; [done|]. by eapply Hp.
Qed.

(** C29: Enterprise lockdown is sticky and its violations are final: once a layer
    made the policy immutable it stays immutable, a later layer that sets
    [immutable = false] (whatever else it holds) and a command line that adds
    allow paths both fail, with the policy-blocked exit code 126. *)
Theorem lockdown_is_enforced m layer kind o lowercase :
  m_is_immutable m = true →
  (∀ m', apply m layer kind = Ok m' → m_is_immutable m' = true)
  ∧ (key (layer_security layer) sec_immutable = Some false → kind ≠ SystemGlobal →
     ∃ e, apply m layer kind = Err e ∧ map_error_to_exit_code lowercase e = 126)
  ∧ (o_allow_write o ≠ [] ∨ o_allow_read o ≠ [] →
     ∃ e, apply_overrides m o = Err e ∧ map_error_to_exit_code lowercase e = 126).
Proof.
  intros Hm. split_and!.
  - intros m' (_ & _ & n & _ & ->)%apply_ok. cbn. by apply set_true_keeps.
  - intros Hs Hk. exists locked_down. split; [|done]. unfold Merge.apply, check_lockdown.
    rewrite Hm, Hs, bool_decide_eq_true_2 by done. by destruct kind.
  - intros Ho. exists no_allow_in_lockdown. split; [|done]. unfold apply_overrides. rewrite Hm.
    destruct (o_allow_write o); [|done]. destruct (o_allow_read o); [|done]. naive_solver.
Qed.

(** A repository layer stays inside the repository's rights: when it is
    accepted, no path it makes writable is (after canonicalisation) a system
    root or the home directory, nor spelled [$HOME] or [~]; and under the
    paranoid preset it changes no network field at all. *)
Theorem repository_layer_confined m layer kind m' :
  is_repo_kind kind = true → apply m layer kind = Ok m' →
  (∀ w, w ∈ entries_of (key (layer_filesystem layer) fs_allow_write) →
     from_option to_str w (canonicalize (components w)) ∉ SYSTEM_WRITE_ROOTS
     ∧ (∀ h, home_var = Some h →
          default (components w) (canonicalize (components w)) ≠ h ∧ w ≠ "$HOME" ∧ w ≠ "~"))
  ∧ (m_active_preset m = Some Paranoid → net_of m' = net_of m).
Proof.
  intros Hk (_ & Hw & n & Hn & ->)%apply_ok. split.
  - unfold check_repository_writes in Hw. rewrite Hk, try_each_Ok, Forall_forall in Hw.
    intros w Hin. specialize (Hw w Hin). unfold check_repository_write in Hw. split.
    + intros Hin'. destruct (one_of _ _) eqn:E; [done|].
      apply existsb_false in E. rewrite Forall_forall in E. apply E in Hin'.
      by rewrite String.eqb_refl in Hin'.
    + intros h ->. destruct (one_of _ _); [done|]. case_bool_decide; [done|].
      destruct (String.eqb_spec w "$HOME"); [done|]. destruct (String.eqb_spec w "~"); done.
  - intros Hp. unfold apply_networks, skip_network in Hn.
    rewrite Hk, Hp in Hn. simplify_eq/=. by destruct m.
Qed.
End InheritanceFacts.

(** ** Deduplication *)

Lemma retain_new_elem seen values v :
  v ∈ retain_new seen values ↔ v ∈ values ∧ v ∉ seen.
Proof.
  revert seen. induction values as [|x values IH]; intros seen; cbn [retain_new]; [set_solver|].
  case_decide; rewrite ?elem_of_cons, IH; [set_solver|].
  destruct (decide (v = x)); set_solver.
Qed.

Lemma retain_new_NoDup seen values : NoDup (retain_new seen values).
Proof.
  revert seen. induction values as [|x values IH]; intros seen; cbn [retain_new]; [constructor|].
  case_decide; [done|]. constructor; [rewrite retain_new_elem; set_solver|done].
Qed.

Lemma retain_new_app seen l1 l2 :
  retain_new seen (l1 ++ l2) = retain_new seen l1 ++ retain_new (list_to_set l1 ∪ seen) l2.
Proof.
  revert seen. induction l1 as [|x l1 IH]; intros seen; cbn [retain_new app].
  - f_equal. apply set_eq. set_solver.
  - case_decide as Hx; rewrite IH; cbn [app].
    + do 2 f_equal. apply set_eq. set_solver.
    + do 3 f_equal. apply set_eq. set_solver.
Qed.

Lemma retain_new_filter seen seen' l :
  retain_new (seen ∪ seen') l = filter (.∉ seen) (retain_new seen' l).
Proof.
  revert seen'. induction l as [|x l IH]; intros seen'; cbn [retain_new]; [done|].
  destruct (decide (x ∈ seen')) as [Hx|Hx].
  - rewrite decide_True by set_solver. apply IH.
  - rewrite filter_cons. destruct (decide (x ∈ seen)) as [Hs|Hs].
    + rewrite decide_True by set_solver. rewrite decide_False by tauto. rewrite <-IH.
      f_equal. apply set_eq. set_solver.
    + rewrite decide_False by set_solver. rewrite decide_True by done. rewrite <-IH.
      do 2 f_equal. apply set_eq. set_solver.
Qed.

(** Deduplication keeps exactly the first occurrence of every entry: the
    result has the same entries, none twice, and appending later layers only
    appends the entries that are new. *)
Theorem deduplicate_strings_spec l1 l2 :
  NoDup (deduplicate_strings l1)
  ∧ (∀ v, v ∈ deduplicate_strings l1 ↔ v ∈ l1)
  ∧ deduplicate_strings (l1 ++ l2)
    = deduplicate_strings l1 ++ filter (.∉ l1) (deduplicate_strings l2).
Proof.
  split_and!; [apply retain_new_NoDup|intros v; unfold deduplicate_strings;
    rewrite retain_new_elem; set_solver|].
  unfold deduplicate_strings. rewrite retain_new_app, retain_new_filter. f_equal.
  apply list_filter_iff. intros v. set_solver.
Qed.

(** ** A concrete instance *)

(** A host without symbolic links whose home is [/home/u]. *)
Definition demo_canonicalize (p : path) : option path :=
  if is_absolute p then Some p else None.
Definition demo_home : option path := Some (components "/home/u").

Definition demo_fs (allow_write deny_write : list string) : RawFilesystem :=
  mk_raw_filesystem (Some (Many allow_write)) None None (Some (Many deny_write)) None None None
    None None None None None.

Definition demo_layer (sec : option RawSecurity) (fs : RawFilesystem) (net : option RawNetwork)
    (extends : option RawStringList) : RawLayer :=
  mk_raw_layer (Some (mk_raw_metadata None None extends)) sec (Some fs) None None None net None
    None None None None.

Definition demo_immutable (b : bool) : RawSecurity :=
  mk_raw_security (Some b) None None None None None.

(** Every embedded profile protects [.git]. *)
Definition demo_toml (text : string) : result string RawLayer :=
  Ok (demo_layer None (demo_fs [] ["$PROJECT/.git"]) None None).
Definition demo_text (file : string) : string := file.

Definition demo_merge_layer := merge_layer demo_canonicalize demo_home demo_toml demo_text.
Definition demo_apply := apply demo_canonicalize demo_home.

(** A user layer extending [strict]. *)
Definition demo_user_layer : RawLayer :=
  demo_layer None (demo_fs ["$PROJECT"] ["$PROJECT/ci"]) None (Some (One "strict")).

Definition demo_user_result : result AnyError MergedPolicy :=
  demo_merge_layer demo_user_layer "user" [] default_merged UserGlobal.

Definition ok_or_default (r : result AnyError MergedPolicy) : MergedPolicy :=
  match r with Ok m => m | Err _ => default_merged end.

Lemma demo_user_ok :
  demo_user_result = Ok (ok_or_default demo_user_result)
  ∧ m_deny_write (ok_or_default demo_user_result) = ["$PROJECT/.git"; "$PROJECT/ci"]
  ∧ meta_extends (m_metadata (ok_or_default demo_user_result)) = ["strict"].
Proof. split_and!; vm_compute; reflexivity. Qed.

(** A layer with CPU quotas and cgroup ceilings. *)
Definition demo_quotas (cpu mem : string) : RawLayer :=
  mk_raw_layer None None None None None None None None None
    (Some (mk_raw_limits None None (Some 64) None None None (Some cpu) None None))
    (Some (mk_raw_cgroup (Some (Str mem)) None None (Some (Str cpu)))) None.
Definition demo_tight : MergedPolicy :=
  ok_or_default (demo_apply default_merged (demo_quotas "50%" "1M") SystemGlobal).
Definition demo_loose_result : result AnyError MergedPolicy :=
  demo_merge_layer (demo_quotas "80%" "2M") "user" [] demo_tight UserGlobal.

Lemma merge_layer_restricts_witness :
  demo_loose_result = Ok (ok_or_default demo_loose_result)
  ∧ restricts demo_tight (ok_or_default demo_loose_result)
  ∧ m_cpu_max (ok_or_default demo_loose_result) = Some "50%".
Proof.
  assert (demo_loose_result = Ok (ok_or_default demo_loose_result)) as Hok
    by (vm_compute; reflexivity).
  split; [exact Hok|]. split; [|vm_compute; reflexivity].
  refine (merge_layer_restricts demo_canonicalize demo_home demo_toml demo_text
    (demo_quotas "80%" "2M") "user" [] demo_tight UserGlobal _ _ _ eq_refl Hok).
  - split; [vm_compute; reflexivity|].
    split; intros cg H; [discriminate H|injection H as <-; vm_compute; reflexivity].
  - intros src st parent pl H. unfold parent_layer in H.
    apply result_bind_ok in H as (_ & _ & H). destruct (decide _); [discriminate H|].
    apply result_bind_ok in H as (text & _ & H).
    injection H as <-. split; [vm_compute; reflexivity|].
    split; intros cg H; discriminate H.
Defined.

(** The policy after an enterprise layer that is immutable and turns the network off. *)
Definition demo_enterprise : RawLayer :=
  demo_layer (Some (demo_immutable true)) (demo_fs [] ["$HOME/.ssh"]) (Some net_off) None.
Definition demo_locked : MergedPolicy :=
  ok_or_default (demo_apply default_merged demo_enterprise SystemGlobal).
Definition demo_unlock : RawLayer :=
  demo_layer (Some (demo_immutable false)) (demo_fs [] []) None None.

Lemma demo_locked_immutable : m_is_immutable demo_locked = true.
Proof. vm_compute. reflexivity. Qed.

Lemma lockdown_is_enforced_witness :
  m_is_immutable demo_locked = true
  ∧ ∃ e, demo_apply demo_locked demo_unlock Repository = Err e
         ∧ map_error_to_exit_code to_ascii_lowercase e = 126.
Proof.
  split; [exact demo_locked_immutable|].
  refine (proj1 (proj2 (lockdown_is_enforced demo_canonicalize demo_home demo_locked demo_unlock
    Repository no_overrides to_ascii_lowercase demo_locked_immutable)) _ _);
    [vm_compute; reflexivity|discriminate].
Defined.

Definition demo_repo : RawLayer :=
  demo_layer None (demo_fs ["$PROJECT/build"] []) (Some (net_allowlist ["evil.example"])) None.
Definition demo_paranoid : MergedPolicy := with_active_preset default_merged Paranoid.
Definition demo_repo_result : MergedPolicy :=
  ok_or_default (demo_apply demo_paranoid demo_repo Repository).

Lemma demo_repo_ok : demo_apply demo_paranoid demo_repo Repository = Ok demo_repo_result.
Proof. vm_compute. reflexivity. Qed.

Lemma repository_layer_confined_witness :
  demo_apply demo_paranoid demo_repo Repository = Ok demo_repo_result
  ∧ net_of demo_repo_result = net_of demo_paranoid.
Proof.
  split; [exact demo_repo_ok|].
  exact (proj2 (repository_layer_confined demo_canonicalize demo_home demo_paranoid demo_repo
    Repository demo_repo_result eq_refl demo_repo_ok) eq_refl).
Defined.

(** ** What the checks do not cover *)

(** Under enterprise lockdown a repository layer still turns the network back
    on and still adds a write root: only [immutable = false] is refused. *)
Lemma lockdown_leaves_network_open :
  ∃ m', demo_apply demo_locked demo_repo Repository = Ok m'
    ∧ m_network_mode demo_locked = Some "off"
    ∧ m_network_mode m' = Some "allowlist:evil.example"
    ∧ m_allow_write m' = ["$PROJECT/build"].
Proof.
  exists (ok_or_default (demo_apply demo_locked demo_repo Repository)).
  split_and!; vm_compute; reflexivity.
Qed.

(** [$HOME/] is not one of the refused spellings of the home directory. *)
Lemma home_slash_is_not_refused :
  check_repository_write demo_canonicalize demo_home "$HOME" ≠ Ok tt
  ∧ check_repository_write demo_canonicalize demo_home "$HOME/" = Ok tt.
Proof. split; vm_compute; [discriminate|reflexivity]. Qed.

(** Two quotas whose domains differ in case only: the one visited last stays,
    and a [HashMap] does not say which that is. *)
Lemma quota_merge_depends_on_order :
  ∃ q1 q2, insert_quotas [("a.example", "1k"); ("A.example", "2k")] ∅ = Ok q1
    ∧ insert_quotas [("A.example", "2k"); ("a.example", "1k")] ∅ = Ok q2 ∧ q1 ≠ q2.
Proof.
  exists {["a.example" := 2048]}, {["a.example" := 1024]}.
  split_and!; [vm_compute; reflexivity|vm_compute; reflexivity|].
  intros H%(f_equal (.!! "a.example")). vm_compute in H. congruence.
Qed.

(** A misspelt network preset of a profile ends with exit code 1, not with the
    fail-closed 125 of the other load errors. *)
Lemma unknown_net_preset_exits_1 :
  ∃ e, expand_net_preset "npmjs" = Err e ∧ map_error_to_exit_code to_ascii_lowercase e = 1.
Proof. eexists. split; vm_compute; reflexivity. Qed.
