(* ===== verification/EditRules.v ===== *)
(** * EditRules: what [vetto allow] and [vetto deny] accept

    Model of the target rules of [src/src/policy/edit.rs]: validation of paths,
    normalisation of CIDR blocks and domains, and the request a command line
    stands for.  Writing the policy file is in [Edit]. *)

From S2P Require Import Prelude Paths PolicyTypes Termination Ip Schema Presets Merge NetAddr.

(** ** Grants *)

Inductive Grant : Type :=
| FsReadWrite | FsRead | Net | NetPreset | NetCidr | NetDeny | Deny | DenyGlob.
#[export] Instance Grant_eq_dec : EqDecision Grant.
Proof. solve_decision. Defined.

Definition section_key (g : Grant) (read_only : bool) : string * string :=
  match g with
  | Net => ("network", "allow")
  | NetPreset => ("network", "net_presets")
  | NetCidr => ("network", "allow_cidr")
  | NetDeny => ("network", "deny")
  | Deny => ("display_only_deny", "paths")
  | DenyGlob => ("filesystem", "deny_glob")
  | FsReadWrite => if read_only then ("filesystem", "allow_read") else ("filesystem", "allow_write")
  | FsRead => ("filesystem", "allow_read")
  end.

(** ** Network targets *)

Definition bail {A} (msg : string) : result AnyError A := Err (Untyped msg).

(** The text before the first character satisfying [P] (all of it without one). *)
Fixpoint until (P : ascii → bool) (s : string) : string :=
  match s with
  | EmptyString => EmptyString
  | String a s' => if P a then EmptyString else String a (until P s')
  end.

Definition one_char (cs : list ascii) (a : ascii) : bool := existsb (Ascii.eqb a) cs.

Definition strip_scheme (s : string) : string :=
  match strip_prefix "https://" s with
  | Some rest => rest
  | None => match strip_prefix "http://" s with Some rest => rest | None => s end
  end.

Definition strip_ip_brackets (s : string) : string :=
  trim_end_char "]" (trim_start_char "[" (trim s)).

Definition prefix_limit (ip : IpAddr) : Z := match ip with V4 _ => 32 | V6 _ => 128 end.

Definition cidr_text (ip : IpAddr) (prefix_len : Z) : string :=
  ip_text ip +:+ "/" +:+ to_dec prefix_len.

Definition prefix_too_long (ip : IpAddr) (prefix_len : Z) : string :=
  (match ip with V4 _ => "IPv4 CIDR prefix length must be 0..=32, got "
               | V6 _ => "IPv6 CIDR prefix length must be 0..=128, got " end) +:+ to_dec prefix_len.

Definition parse_and_validate_cidr (raw : string) : result AnyError string :=
  let s := strip_scheme (trim raw) in
  match split_once "/" s with
  | Some (ip_part, prefix_part) =>
      prefix_len ← ok_or (parse_u8 (until (one_char ["?"%char; "#"%char]) (trim prefix_part)))
        (Untyped ("invalid prefix in CIDR '" +:+ raw +:+ "'"));
      ip ← ok_or (parse_ip (strip_ip_brackets ip_part)) (Untyped ("invalid IP in CIDR '" +:+ raw +:+ "'"));
      if prefix_limit ip <? prefix_len then bail (prefix_too_long ip prefix_len)
      else Ok (cidr_text ip prefix_len)
  | None =>
      let s_no_path := until (one_char ["/"%char; "?"%char; "#"%char]) s in
      ip ← ok_or (parse_ip (strip_ip_brackets (strip_domain_port s_no_path)))
        (Untyped ("invalid IP address '" +:+ raw +:+ "'"));
      Ok (cidr_text ip (prefix_limit ip))
  end.

Definition try_parse_cidr_or_ip (raw : string) : option string :=
  match parse_and_validate_cidr raw with Ok s => Some s | Err _ => None end.

Definition normalize_net_target (raw : string) : string :=
  let s := until (one_char ["/"%char; "?"%char; "#"%char]) (strip_scheme (trim raw)) in
  to_ascii_lowercase (trim_end_char "." (trim (strip_domain_port s))).

(** ** Paths *)

Definition is_redundant (seg : string) : bool := is_empty seg || String.eqb seg ".".

Definition normalize_path_for_validation (raw : string) : string :=
  let trimmed := trim raw in
  if is_empty trimmed then EmptyString
  else
    let parts := List.filter (λ seg, negb (is_redundant seg)) (split_char slash trimmed) in
    if starts_with trimmed "/" then
      if is_nil parts then "/" else "/" +:+ join_with "/" parts
    else if is_nil parts then "." else join_with "/" parts.

(** The seven tests of a credential directory [d], on one spelling [s]. *)
Definition names_directory (d s : string) : bool :=
  String.eqb s d || starts_with s (d +:+ "/") || contains s ("/" +:+ d +:+ "/")
  || ends_with s ("/" +:+ d) || String.eqb s ("~/" +:+ d) || starts_with s ("~/" +:+ d +:+ "/")
  || contains s ("$home/" +:+ d).

Definition names_env_file (s : string) : bool :=
  String.eqb s ".env" || starts_with s ".env." || starts_with s ".env_" || starts_with s ".env-"
  || starts_with s ".env/" || ends_with s "/.env" || contains s "/.env." || contains s "/.env_"
  || contains s "/.env-" || contains s "/.env/".

Definition below (d s : string) : bool := String.eqb s d || starts_with s (d +:+ "/").

(** The tests of numbers 5 and 6, in their order, each made on the lower-case
    normalised and on the lower-case raw text, with the refusal. *)
Definition path_rules : list ((string → bool) * string) := [
  ((λ s, below "/etc/shadow" s || starts_with s "/etc/shadow-"),
   "access to critical system path '/etc/shadow' is strictly prohibited");
  (below "/etc/passwd", "access to critical system path '/etc/passwd' is strictly prohibited");
  ((λ s, below "/etc/sudoers" s || starts_with s "/etc/sudoers.d"),
   "access to critical system path '/etc/sudoers' is strictly prohibited");
  ((λ s, below "/etc" s || String.eqb s "/etc/*"),
   "system directory '/etc' is strictly prohibited in allow rules");
  ((λ s, String.eqb s "/usr" || String.eqb s "/usr/" || String.eqb s "/usr/*"),
   "system directory '/usr' is strictly prohibited in allow rules");
  ((λ s, below "/bin" s || String.eqb s "/bin/*"),
   "system directory '/bin' is strictly prohibited in allow rules");
  ((λ s, below "/sbin" s || String.eqb s "/sbin/*"),
   "system directory '/sbin' is strictly prohibited in allow rules");
  (names_directory ".ssh", "credential directory '.ssh' is strictly prohibited in allow rules");
  (names_directory ".aws", "credential directory '.aws' is strictly prohibited in allow rules");
  (names_env_file, "environment secret file '.env*' is strictly prohibited in allow rules");
  ((λ s, contains s ".git-credentials" || contains s ".netrc"),
   "credential file is strictly prohibited in allow rules");
  (names_directory ".git", "git metadata directory '.git' is strictly prohibited in allow rules")].

Fixpoint check_rules (rules : list ((string → bool) * string)) (lower lower_raw : string) :
  result AnyError unit :=
  match rules with
  | [] => Ok tt
  | (test, refusal) :: rules =>
      if test lower || test lower_raw then bail refusal else check_rules rules lower lower_raw
  end.

Definition has_parent_segment (s : string) : bool := existsb (String.eqb "..") (split_char slash s).

Definition blanket_roots : list string := ["/"; "/*"; "*"; "/*.*"].
Definition home_spellings : list string := ["~"; "$HOME"; "%USERPROFILE%"].
Definition nul : ascii := chr 0.
Definition backslash : ascii := chr 92.
Definition backslashes_prohibited : string :=
  "backslashes ('\') are strictly prohibited; use standard '/' path separators".
Definition traversal_prohibited (rules : string) : string :=
  "directory traversal ('..') is strictly prohibited in " +:+ rules +:+ " rules".

Definition validate_dangerous_path (raw : string) : result AnyError unit :=
  let trimmed := trim raw in
  if is_empty trimmed then bail "target path cannot be empty"
  else if contains_char trimmed nul then bail "null bytes ('\0') are strictly prohibited in paths"
  else if contains_char trimmed backslash then bail backslashes_prohibited
  else if has_parent_segment trimmed then bail (traversal_prohibited "allow")
  else
    let normalized := normalize_path_for_validation trimmed in
    if has_parent_segment normalized then bail (traversal_prohibited "allow")
    else if one_of normalized blanket_roots || one_of trimmed blanket_roots
    then bail "blanket root path is strictly prohibited in allow rules"
    else if one_of normalized home_spellings || one_of trimmed home_spellings
    then bail "entire user home directory cannot be granted in allow rules"
    else check_rules path_rules (to_ascii_lowercase normalized) (to_ascii_lowercase trimmed).

Definition validate_deny_path_syntax (raw : string) : result AnyError unit :=
  let trimmed := trim raw in
  if is_empty trimmed then bail "target path cannot be empty"
  else if contains_char trimmed backslash then bail backslashes_prohibited
  else if has_parent_segment trimmed then bail (traversal_prohibited "deny")
  else if has_parent_segment (normalize_path_for_validation trimmed)
  then bail (traversal_prohibited "deny")
  else Ok tt.

(** ** Requests *)

(** One edit of the policy file. *)
Record Request : Type := mk_request { grant : Grant; target : string; quota : option string }.

Definition nonempty_trim (s : option string) : option string :=
  match s with
  | Some t => if is_empty (trim t) then None else Some (trim t)
  | None => None
  end.

Definition no_target : AnyError :=
  Untyped "target path, domain, CIDR, or --preset must be provided".
Definition quota_with_preset (p : string) : AnyError :=
  Untyped ("--quota cannot be specified with " +:+ p).
Definition invalid_domain (d : string) : AnyError :=
  Untyped ("invalid network domain '" +:+ d +:+ "'").

(** [allow_path]: validation, then the edit. *)
Definition allow_path (p : string) (read_only : bool) : result AnyError Request :=
  _ ← validate_dangerous_path p;
  Ok (mk_request (if read_only then FsRead else FsReadWrite) p None).

Definition domain_request (g : Grant) (shown domain : string) (quota : option string) :
  result AnyError Request :=
  let normalized := normalize_net_target domain in
  if is_empty normalized then Err (invalid_domain shown) else Ok (mk_request g normalized quota).

(** [allow_domain] and [persist_net_target] ([quota] is [None] there). *)
Definition allow_domain (domain : string) (quota : option string) : result AnyError Request :=
  let clean := trim domain in
  match try_parse_cidr_or_ip clean with
  | Some cidr => Ok (mk_request NetCidr cidr quota)
  | None => domain_request Net domain clean quota
  end.
Definition persist_net_target (target : string) : result AnyError Request :=
  allow_domain target None.

Definition deny_domain (domain : string) : result AnyError Request :=
  domain_request NetDeny domain (trim domain) None.

(** [deny_path]: validation, then the edit. *)
Definition deny_path (p : string) : result AnyError Request :=
  _ ← validate_deny_path_syntax p;
  Ok (mk_request Deny p None).

(** [run_allow] up to its single edit. *)
Definition run_allow (target preset quota : option string) (read_only net cidr : bool) :
  result AnyError Request :=
  _ ← match quota with Some q => parse_quota_bytes q | None => Ok 0 end;
  match preset with
  | Some p =>
      if bool_decide (is_Some quota) then Err (quota_with_preset "--preset")
      else
        let preset_clean := to_ascii_lowercase (trim p) in
        _ ← expand_net_preset preset_clean;
        Ok (mk_request NetPreset preset_clean None)
  | None =>
      raw_target ← ok_or (nonempty_trim target) no_target;
      if cidr then
        normalized ← parse_and_validate_cidr raw_target;
        Ok (mk_request NetCidr normalized quota)
      else if net || bool_decide (is_Some quota) then
        let candidate := to_ascii_lowercase raw_target in
        match expand_net_preset candidate with
        | Ok _ =>
            if bool_decide (is_Some quota)
            then Err (quota_with_preset ("preset '" +:+ candidate +:+ "'"))
            else Ok (mk_request NetPreset candidate None)
        | Err _ =>
            match try_parse_cidr_or_ip raw_target with
            | Some normalized_cidr => Ok (mk_request NetCidr normalized_cidr quota)
            | None => domain_request Net raw_target raw_target quota
            end
        end
      else allow_path raw_target read_only
  end.

Definition no_deny_target : AnyError := Untyped "target path or --preset must be provided".

(** The deny preset a command line names, by option or as a bare word. *)
Definition named_preset (clean_preset clean_target : option string) : option string :=
  match clean_preset with
  | Some p => Some p
  | None =>
      match clean_target with
      | Some t =>
          if negb (contains_char t "/") && negb (contains_char t backslash)
             && existsb (λ p, eq_ignore_ascii_case p t) KNOWN_PRESETS
          then Some t else None
      | None => None
      end
  end.

Definition unknown_deny_preset (p : string) : AnyError :=
  Untyped ("unknown preset '" +:+ p +:+ "' (known presets: " +:+ join_with ", " KNOWN_PRESETS
           +:+ ")").

(** The edits of [run_deny] in order: each is made once the ones before it are
    written, and the first error ends the command. *)
Definition run_deny (target preset : option string) (glob net : bool) :
  list (result AnyError Request) :=
  let clean_preset := nonempty_trim preset in
  let clean_target := nonempty_trim target in
  if net then
    [if bool_decide (is_Some preset) || glob
     then bail "--net cannot be combined with --preset or --glob"
     else match clean_target with
          | Some t => deny_domain t
          | None => bail "network domain must be provided with --net"
          end]
  else if glob then
    [if bool_decide (is_Some preset) then bail "--glob cannot be combined with --preset"
     else match clean_target with
          | Some t => Ok (mk_request DenyGlob t None)
          | None => bail "target pattern must be provided with --glob"
          end]
  else match named_preset clean_preset clean_target with
  | Some preset_name =>
      match resolve_preset preset_name with
      | Some paths => deny_path <$> paths
      | None => [Err (unknown_deny_preset preset_name)]
      end
  | None =>
      match clean_target with
      | Some t => [deny_path t]
      | None => [Err no_deny_target]
      end
  end.

(** ** Lemmas: pieces of a path *)


Lemma split_slash_lower s :
  split_char slash (to_ascii_lowercase s) = to_ascii_lowercase <$> split_char slash s.
Proof.
  apply split_by_smap. intros a. unfold lower_ascii. destruct (is_upper a) eqn:E; [|done].
  destruct a as [[] [] [] [] [] [] [] []]; try discriminate E; reflexivity.
Qed.

(** ** Lemmas: the directory and file tests *)

Lemma contains_app a n b : contains (a +:+ n +:+ b) n = true.
Proof. apply contains_spec. by exists a, b. Qed.
Lemma starts_with_app n b : starts_with (n +:+ b) n = true.
Proof. apply starts_with_true. by exists b. Qed.
Lemma ends_with_app a n : ends_with (a +:+ n) n = true.
Proof. apply ends_with_true. by exists a. Qed.

Lemma string_eqb_refl s : String.eqb s s = true.
Proof. apply String.eqb_refl. Qed.

(** Where a piece [d] stands in [s]. *)
Lemma piece_cases d s :
  d ∈ split_char slash s →
  s = d ∨ starts_with s (d +:+ "/") = true ∨ ends_with s ("/" +:+ d) = true
  ∨ contains s ("/" +:+ d +:+ "/") = true.
Proof.
  intros Hin. destruct (split_char_pieces slash s) as (w & ws & E & (b & Hs & Hb) & Hws).
  rewrite E in Hin. apply elem_of_cons in Hin as [->|Hin].
  - destruct Hb as [->|[r ->]]; [left; by rewrite Hs, string_app_nil_r|]. right; left.
    apply starts_with_true. exists r. by rewrite string_app_assoc.
  - destruct (Hws d Hin) as (a & b' & Hs' & [->|[r ->]]).
    + right; right; left. apply ends_with_true. exists a. by rewrite string_app_nil_r in Hs'.
    + right; right; right. apply contains_spec. exists a, r. rewrite Hs'.
      f_equal. cbn. f_equal. by rewrite string_app_assoc.
Qed.

(** Where no test finds the directory [d], no piece of the path is [d]. *)
Lemma no_directory_piece d s : names_directory d s = false → d ∉ split_char slash s.
Proof.
  unfold names_directory. intros H Hin. to_prop.
  destruct (piece_cases d s Hin) as [->|[?|[?|?]]]; [|congruence..].
  by rewrite String.eqb_refl in *.
Qed.

(** A piece that starts with [p] makes the text start with [p] or contain it
    behind a separator. *)
Lemma piece_prefix p x s :
  p +:+ x ∈ split_char slash s → starts_with s p = true ∨ contains s ("/" +:+ p) = true.
Proof.
  intros Hin. destruct (split_char_pieces slash s) as (w & ws & E & (b & Hs & Hb) & Hws).
  rewrite E in Hin. apply elem_of_cons in Hin as [<-|Hin].
  - left. apply starts_with_true. exists (x +:+ b). by rewrite Hs, string_app_assoc.
  - right. destruct (Hws _ Hin) as (a & b' & Hs' & _). apply contains_spec. exists a, (x +:+ b').
    rewrite Hs'. f_equal. cbn. f_equal. by rewrite string_app_assoc.
Qed.

(** A piece that contains [n] makes the text contain it. *)
Lemma piece_contains n p s :
  p ∈ split_char slash s → contains p n = true → contains s n = true.
Proof.
  intros Hin (u & v & ->)%contains_spec.
  destruct (split_char_pieces slash s) as (w & ws & E & (b & Hs & Hb) & Hws).
  rewrite E in Hin. apply contains_spec. apply elem_of_cons in Hin as [<-|Hin].
  - exists u, (v +:+ b). by rewrite Hs, !string_app_assoc.
  - destruct (Hws _ Hin) as (a & b' & Hs' & _). exists (a +:+ String slash u), (v +:+ b').
    rewrite Hs', !string_app_assoc. f_equal. cbn. f_equal. by rewrite !string_app_assoc.
Qed.

(** ** Lemmas: what the rules leave *)

(** The names no piece of an accepted path has, letters without case. *)
Definition secret_name (n : string) : bool :=
  one_of n [".ssh"; ".aws"; ".git"; ".env"] || starts_with n ".env." || starts_with n ".env_"
  || starts_with n ".env-" || contains n ".git-credentials" || contains n ".netrc".

Lemma check_rules_ok rules a b :
  check_rules rules a b = Ok tt ↔ Forall (λ r, r.1 a = false ∧ r.1 b = false) rules.
Proof.
  induction rules as [|[t refusal] rules IH]; cbn [check_rules]; [by split|].
  rewrite Forall_cons, <-IH. cbn. rewrite <-orb_false_iff. destruct (t a || t b); naive_solver.
Qed.

Lemma one_of_false s names : one_of s names = false ↔ s ∉ names.
Proof.
  unfold one_of. rewrite existsb_false, Forall_forall. split.
  - intros H Hin. apply H in Hin. by rewrite String.eqb_refl in Hin.
  - intros H x Hx. apply String.eqb_neq. by intros ->.
Qed.

Lemma no_secret_piece s n :
  Forall (λ t, t s = false)
    [names_directory ".ssh"; names_directory ".aws"; names_env_file;
     (λ s, contains s ".git-credentials" || contains s ".netrc"); names_directory ".git"] →
  n ∈ split_char slash s → secret_name n = false.
Proof.
  rewrite !Forall_cons. intros (Hssh & Haws & Henv & Hcred & Hgit & _) Hin.
  unfold secret_name, names_env_file in *. to_prop.
  assert (∀ p, starts_with s p = false → contains s ("/" +:+ p) = false → starts_with n p = false) as Hp.
  { intros p Hs1 Hs2. apply not_true_iff_false. intros [r ->]%starts_with_true.
    apply piece_prefix in Hin as [|]; congruence. }
  assert (∀ d, contains s d = false → contains n d = false) as Hc.
  { intros d Hd. apply not_true_iff_false. intros Hn. by rewrite (piece_contains d n s) in Hd. }
  rewrite !Hp, !Hc, !orb_false_r by done. apply one_of_false.
  rewrite !elem_of_cons, elem_of_nil. intros [->|[->|[->|[->|[]]]]];
    try (by eapply no_directory_piece in Hin).
  destruct (piece_cases _ _ Hin) as [->|[?|[?|?]]]; [by cbn in *|cbn in *; congruence..].
Qed.

(** ** Lemmas: components of an accepted path *)

Definition names (s : string) : list string :=
  List.filter (λ seg, negb (is_redundant seg)) (split_char slash s).

Lemma segments_names ws :
  ".." ∉ ws → concat (segment <$> ws) = Normal <$> List.filter (λ w, negb (is_redundant w)) ws.
Proof.
  induction ws as [|w ws IH]; intros Hn; [done|]. apply not_elem_of_cons in Hn as [Hw Hn].
  cbn. rewrite IH by done. unfold segment, is_redundant.
  destruct (is_empty w); [done|]. cbn. destruct (String.eqb w "."); [done|].
  destruct (String.eqb_spec w ".."); [by subst|done].
Qed.

Lemma components_names s :
  ".." ∉ split_char slash s →
  components s = (if starts_with s "/" then [RootDir]
                  else if bool_decide (head (split_char slash s) = Some ".") then [CurDir] else [])
                 ++ (Normal <$> names s).
Proof.
  intros Hn. unfold components, names. destruct (starts_with s "/"); [by rewrite segments_names|].
  destruct (split_char slash s) as [|w ws]; [done|]. cbn [head].
  pose proof Hn as [_ Hws]%not_elem_of_cons. pose proof (segments_names _ Hn) as Hall.
  cbn [fmap list_fmap concat] in Hall. rewrite segments_names in Hall |- * by done.
  destruct (String.eqb_spec w ".") as [->|Hne]; [done|].
  rewrite bool_decide_eq_false_2 by congruence. exact Hall.
Qed.

Lemma names_lower s : names (to_ascii_lowercase s) = to_ascii_lowercase <$> names s.
Proof.
  unfold names. rewrite split_slash_lower. induction (split_char slash s) as [|w ws IH]; [done|].
  cbn. rewrite IH. replace (is_redundant (to_ascii_lowercase w)) with (is_redundant w);
    [by destruct (is_redundant w)|].
  unfold is_redundant. destruct w as [|a w]; [done|]. cbn. f_equal.
  destruct a as [[] [] [] [] [] [] [] []]; cbn; try done; by destruct w.
Qed.

Lemma no_parent_component t : ".." ∉ split_char slash t → ParentDir ∉ components t.
Proof.
  intros H Hin. rewrite (components_names t H) in Hin. apply elem_of_app in Hin as [Hin|Hin].
  - destruct (starts_with t "/"); [by apply list_elem_of_singleton in Hin|].
    case_bool_decide; [by apply list_elem_of_singleton in Hin|by apply elem_of_nil in Hin].
  - by apply list_elem_of_fmap in Hin as (? & ? & _).
Qed.

Lemma normal_component t n :
  ".." ∉ split_char slash t → Normal n ∈ components t → n ∈ split_char slash t.
Proof.
  intros H Hin. rewrite (components_names t H) in Hin. apply elem_of_app in Hin as [Hin|Hin].
  - destruct (starts_with t "/"); [by apply list_elem_of_singleton in Hin|].
    case_bool_decide; [by apply list_elem_of_singleton in Hin|by apply elem_of_nil in Hin].
  - apply list_elem_of_fmap in Hin as (? & [= ->] & Hin). unfold names in Hin.
    by apply list_elem_of_In, filter_In in Hin as [Hin%list_elem_of_In _].
Qed.

Lemma filter_normals ns : List.filter is_normal (Normal <$> ns) = Normal <$> ns.
Proof. induction ns as [|n ns IH]; cbn; [done|by rewrite IH]. Qed.

(** ** What [vetto allow] accepts *)

Lemma validate_ok raw :
  validate_dangerous_path raw = Ok tt →
  let t := trim raw in
  (is_empty t = false ∧ contains_char t nul = false ∧ contains_char t backslash = false)
  ∧ ".." ∉ split_char slash t
  ∧ normalize_path_for_validation t ∉ blanket_roots ++ home_spellings
  ∧ Forall (λ r, r.1 (to_ascii_lowercase (normalize_path_for_validation t)) = false
                 ∧ r.1 (to_ascii_lowercase t) = false) path_rules.
Proof.
  intros H t. revert H. unfold validate_dangerous_path. fold t. cbv zeta. unfold bail.
  destruct (is_empty t), (contains_char t nul), (contains_char t backslash); try done.
  destruct (has_parent_segment t) eqn:Ep; [done|]. destruct (has_parent_segment (normalize_path_for_validation t)); [done|].
  destruct (one_of _ blanket_roots || _) eqn:Eb; [done|].
  destruct (one_of _ home_spellings || _) eqn:Eh; [done|].
  to_prop. intros Hr%check_rules_ok. split_and!; [done|done|done| | |done].
  - intros Hin. unfold has_parent_segment in Ep. rewrite existsb_false, Forall_forall in Ep.
    by apply Ep in Hin.
  - rewrite elem_of_app. intros [Hin|Hin]; by apply one_of_false in Hin.
Qed.

(** The normalised text of an accepted path, by the names of its components. *)
Lemma normalized_names raw :
  let t := trim raw in
  normalize_path_for_validation t
  = if is_empty t then EmptyString
    else if starts_with t "/" then "/" +:+ join_with "/" (names t)
    else if is_nil (names t) then "." else join_with "/" (names t).
Proof.
  intros t. unfold normalize_path_for_validation. unfold t. rewrite trim_idem.
  fold t. fold (names t). destruct (is_empty t), (starts_with t "/"); try done.
  by destruct (names t).
Qed.

Lemma join_cons n ns :
  ∃ b, join_with "/" (n :: ns) = n +:+ b ∧ piece_end slash b.
Proof.
  destruct ns as [|m ns]; cbn.
  - exists EmptyString. split; [by rewrite string_app_nil_r|by left].
  - exists ("/" +:+ join_with "/" (m :: ns)). split; [done|]. right. by eexists.
Qed.

Lemma below_head d n ns :
  below ("/" +:+ d) (to_ascii_lowercase ("/" +:+ join_with "/" (n :: ns))) = false →
  to_ascii_lowercase n ≠ d.
Proof.
  intros H Hn. unfold below in H. to_prop.
  destruct (join_cons n ns) as (b & Hj & [->|[r ->]]); rewrite Hj in *.
  - rewrite string_app_nil_r in *. unfold to_ascii_lowercase in *. cbn in *. by rewrite Hn, !Ascii.eqb_refl, String.eqb_refl in *.
  - assert (starts_with (to_ascii_lowercase ("/" +:+ n +:+ String slash r)) (("/" +:+ d) +:+ "/") = true);
      [|congruence].
    apply starts_with_true. exists (to_ascii_lowercase r). unfold to_ascii_lowercase in *.
    cbn. by rewrite smap_app, Hn, string_app_assoc.
Qed.

Local Abbreviation passes a b := (Forall (λ r, r.1 a = false ∧ r.1 b = false) path_rules).

Lemma accepted_names a t n :
  passes a (to_ascii_lowercase t) → ".." ∉ split_char slash t → Normal n ∈ components t →
  secret_name (to_ascii_lowercase n) = false.
Proof.
  unfold path_rules. rewrite !Forall_cons. cbn [fst]. intros Hr Hdots Hn.
  apply (no_secret_piece (to_ascii_lowercase t)); [rewrite !Forall_cons; naive_solver|].
  rewrite split_slash_lower. apply list_elem_of_fmap. eexists. split; [done|].
  by apply normal_component.
Qed.

Lemma accepted_absolute b n ns :
  passes (to_ascii_lowercase ("/" +:+ join_with "/" (n :: ns))) b →
  to_ascii_lowercase n ∉ ["etc"; "bin"; "sbin"]
  ∧ (to_ascii_lowercase n = "usr" → Normal <$> ns ≠ [] ∧ Normal <$> ns ≠ [Normal "*"]).
Proof.
  unfold path_rules. rewrite !Forall_cons. cbn [fst].
  intros (_ & _ & _ & [He _] & [Hu _] & [Hb _] & [Hs _] & _). to_prop. split.
  - rewrite !elem_of_cons, elem_of_nil.
    intros [Hn|[Hn|[Hn|[]]]]; revert Hn; by apply (below_head _ n ns).
  - unfold to_ascii_lowercase in *. intros Hn.
    split; intros Hns; destruct ns as [|m [|? ?]]; try done; cbn in *.
    + by rewrite Hn in *.
    + injection Hns as ->. rewrite smap_app, Hn in *. done.
Qed.

(** The refusals of [vetto allow] look at what a path names, not at how it is
    spelled.  A path that passes is not empty, holds no NUL and no backslash, and
    whatever its slashes and [.] steps its components are these: no parent step and no
    component named (in any letter case) like a credential directory, an environment
    file or a git directory; when it is absolute it names something below the root other
    than [*] and [*.*], its first name is none of [etc], [bin] and [sbin], and below
    [usr] it names something other than [*]; when it is relative its names are not [*]
    alone nor a spelling of the home directory.  Other patterns ([/**], [/usr/**]) and
    system directories (say [/lib]) pass. *)
Theorem allowed_path_components raw :
  validate_dangerous_path raw = Ok tt →
  let p := components (trim raw) in
  (trim raw ≠ EmptyString ∧ contains_char (trim raw) nul = false ∧ contains_char (trim raw) backslash = false)
  ∧ (∀ c, c ∈ p → c ≠ ParentDir ∧ ∀ n, c = Normal n → secret_name (to_ascii_lowercase n) = false)
  ∧ (is_absolute p = true →
     ∃ n rest, p = RootDir :: Normal n :: rest
       ∧ (rest = [] → n ∉ ["*"; "*.*"])
       ∧ to_ascii_lowercase n ∉ ["etc"; "bin"; "sbin"]
       ∧ (to_ascii_lowercase n = "usr" → rest ≠ [] ∧ rest ≠ [Normal "*"]))
  ∧ (is_absolute p = false →
     List.filter is_normal p ∉ [[Normal "*"]; [Normal "~"]; [Normal "$HOME"]; [Normal "%USERPROFILE%"]]).
Proof.
  intros H p. apply validate_ok in H as ((Hne & Hnul & Hback) & Hdots & Hblank & Hrules). set (t := trim raw) in *.
  assert (p = _) as Hp by (apply (components_names t Hdots)).
  pose proof (normalized_names raw) as Hnorm. cbv zeta in Hnorm. fold t in Hnorm. rewrite Hne in Hnorm.
  split; [split_and!; [by intros E; rewrite E in Hne|done|done]|split; [|split]].
  - intros c Hc. split; [|intros n ->; by eapply accepted_names].
    intros ->. by apply (no_parent_component t).
  - intros Ha. assert (starts_with t "/" = true) as Hst.
    { rewrite Hp in Ha. destruct (starts_with t "/"); [done|]. by destruct (bool_decide _), (names t). }
    rewrite Hst in Hp, Hnorm. rewrite Hnorm in Hblank, Hrules. destruct (names t) as [|n ns] eqn:En.
    { destruct Hblank. rewrite elem_of_app. left. by left. }
    exists n, (Normal <$> ns). split; [done|]. split; [|by apply (accepted_absolute _ _ _ Hrules)].
    destruct ns as [|m ns]; [|done]. intros _ Hn. apply Hblank. apply elem_of_app. left.
    unfold blanket_roots. rewrite !elem_of_cons, elem_of_nil in Hn.
    destruct Hn as [->|[->|[]]]; cbn [join_with String.append]; set_solver.
  - intros Ha. destruct (starts_with t "/") eqn:Hst; [by rewrite Hp in Ha|].
    assert (List.filter is_normal p = Normal <$> names t) as ->.
    { rewrite Hp. by destruct (bool_decide _), (names t) as [|n ns]; cbn; rewrite ?filter_normals. }
    intros Hin. destruct Hblank. rewrite Hnorm.
    destruct (names t) as [|n [|m ns]]; rewrite !elem_of_cons, elem_of_nil in Hin; cbn in Hin;
      [naive_solver| |naive_solver].
    cbn [join_with is_nil]. apply elem_of_app. unfold blanket_roots, home_spellings.
    rewrite !elem_of_cons. naive_solver.
Qed.

(** ** Lemmas: texts of addresses *)

Definition ip_char (c : ascii) : bool :=
  is_digit c || (is_lower c && is_radix_digit 16 c) || Ascii.eqb c "." || Ascii.eqb c ":".

Lemma hex_chars fuel n acc :
  0 ≤ n → all_chars ip_char acc = true → all_chars ip_char (hex_digits fuel n acc) = true.
Proof.
  revert n acc. induction fuel as [|fuel IH]; intros n acc Hn Ha; [done|]. cbn [hex_digits].
  assert (ip_char (hex_char (n mod 16)) = true) as Hc.
  { refine (all_from_spec (λ d, ip_char (hex_char d)) (Z.to_nat 16) 0 _ _ _); [reflexivity|].
    pose proof (Z.mod_pos_bound n 16). lia. }
  destruct (n <? 16); [cbn; by rewrite Hc|]. apply IH; [apply Z.div_pos; lia|cbn; by rewrite Hc].
Qed.

Lemma v4_chars o : forallb octet_ok o = true → all_chars ip_char (v4_text o) = true.
Proof.
  intros Ho. apply join_chars; [done|]. apply Forall_fmap, Forall_forall. intros n Hn.
  rewrite forallb_forall in Ho. apply list_elem_of_In, Ho in Hn. unfold octet_ok in Hn. to_prop.
  apply (all_chars_mono is_digit); [by intros c Hc; unfold ip_char; rewrite Hc|]. cbn.
  by apply to_dec_digits.
Qed.

Lemma groups_chars gs : Forall group_ok gs → all_chars ip_char (join ":" (hex16 <$> gs)) = true.
Proof.
  intros Hg. apply join_chars; [done|]. apply Forall_fmap. eapply Forall_impl; [exact Hg|].
  intros g [? _]. by apply hex_chars.
Qed.

Lemma ip_chars ip : ip_wf ip = true → all_chars ip_char (ip_text ip) = true.
Proof.
  destruct ip as [o|o]; cbn; intros [Hl Ho]%andb_true_iff; [by apply v4_chars|].
  destruct (octets_groups o Ho) as (Hg & _ & _); [by apply Nat.eqb_eq in Hl as ->|].
  unfold v6_text. destruct (_ && _ && _).
  - rewrite all_chars_app, v4_chars; [done|]. rewrite <-(take_drop 12 o), forallb_app in Ho.
    by apply andb_true_iff in Ho as [_ ?].
  - destruct (zero_runs _ _ _ _ _ _) as [s l]. destruct (1 <? l)%nat; [|by apply groups_chars].
    rewrite !all_chars_app, !groups_chars; [done|by apply Forall_drop|by apply Forall_take].
Qed.

Lemma ip_chars_other c s :
  ip_char c = false → all_chars ip_char s = true → all_chars (λ x, negb (Ascii.eqb x c)) s = true.
Proof.
  intros Hc. apply all_chars_mono. intros x Hx. apply negb_true_iff, Ascii.eqb_neq. congruence.
Qed.

Lemma ip_graph s : all_chars ip_char s = true → all_chars is_graph s = true.
Proof.
  apply all_chars_mono. intros c Hc. destruct c as [[] [] [] [] [] [] [] []]; done.
Qed.

Lemma dec_graph n : 0 ≤ n → all_chars is_graph (to_dec n) = true.
Proof.
  intros Hn. apply (all_chars_mono is_digit); [|by apply to_dec_digits].
  intros c Hc. destruct c as [[] [] [] [] [] [] [] []]; done.
Qed.

Lemma cidr_text_graph ip n : ip_wf ip = true → 0 ≤ n → all_chars is_graph (cidr_text ip n) = true.
Proof.
  intros Hw Hn. unfold cidr_text. rewrite !all_chars_app, dec_graph, ip_graph by (done || by apply ip_chars).
  done.
Qed.

Lemma trim_ip ip : ip_wf ip = true → trim (ip_text ip) = ip_text ip.
Proof. intros Hw. by apply trim_graph, ip_graph, ip_chars. Qed.

Lemma strip_ip_text ip :
  ip_wf ip = true → NetAddr.strip_brackets (ip_text ip) = ip_text ip.
Proof.
  intros Hw. unfold NetAddr.strip_brackets.
  rewrite trim_start_char_none, trim_end_char_none; [done|..]; by apply ip_chars_other, ip_chars.
Qed.

(** What is written for a network is read back as that network, by the broker
    and by the editor. *)
Lemma cidr_parse_text ip n :
  ip_wf ip = true → 0 ≤ n ≤ prefix_limit ip → cidr_parse (cidr_text ip n) = Ok (mk_cidr ip n).
Proof.
  intros Hw Hn. unfold cidr_parse. rewrite trim_graph by (apply cidr_text_graph; [done|lia]).
  unfold cidr_text. change ("/" +:+ to_dec n) with (String "/" (to_dec n)).
  rewrite split_once_behind by (by apply ip_chars_other, ip_chars). cbv zeta beta iota.
  rewrite (trim_graph (to_dec n)) by (apply dec_graph; lia). unfold parse_u8.
  rewrite from_str_radix_to_dec by lia.
  assert (n ≤ u8_max) as Hmax by (unfold prefix_limit, u8_max in *; destruct ip; lia).
  destruct (Z.leb_spec n u8_max); [|lia]. cbn [mbind result_bind].
  rewrite trim_ip, strip_ip_text, parse_ip_text by done. cbn [ok_or mbind result_bind].
  unfold prefix_limit in Hn. by destruct ip; [destruct (Z.ltb_spec 32 n)|destruct (Z.ltb_spec 128 n)]; try lia.
Qed.

Lemma strip_scheme_cidr ip n : ip_wf ip = true → strip_scheme (cidr_text ip n) = cidr_text ip n.
Proof.
  intros Hw. pose proof (ip_chars_other "h" _ eq_refl (ip_chars ip Hw)) as Hh. unfold strip_scheme, cidr_text.
  by destruct (ip_text ip) as [|c s]; [|cbn in Hh; apply andb_true_iff in Hh as [Hc%negb_true_iff _];
    cbn [strip_prefix append]; rewrite Ascii.eqb_sym, Hc].
Qed.

Lemma until_none P s : all_chars (λ c, negb (P c)) s = true → until P s = s.
Proof.
  induction s as [|c s IH]; [done|]. cbn. intros [Hc%negb_true_iff Hs]%andb_true_iff.
  by rewrite Hc, IH.
Qed.

Lemma validate_cidr_text ip n :
  ip_wf ip = true → 0 ≤ n ≤ prefix_limit ip →
  parse_and_validate_cidr (cidr_text ip n) = Ok (cidr_text ip n).
Proof.
  intros Hw Hn. unfold parse_and_validate_cidr.
  rewrite trim_graph, strip_scheme_cidr by (done || (apply cidr_text_graph; [done|lia])).
  unfold cidr_text at 1. change ("/" +:+ to_dec n) with (String "/" (to_dec n)).
  rewrite split_once_behind by (by apply ip_chars_other, ip_chars). cbv zeta beta iota.
  rewrite (trim_graph (to_dec n)) by (apply dec_graph; lia).
  rewrite until_none.
  2: { apply (all_chars_mono is_digit); [|apply to_dec_digits; lia].
       intros c Hc. destruct c as [[] [] [] [] [] [] [] []]; done. }
  unfold parse_u8. rewrite from_str_radix_to_dec by lia.
  assert (n ≤ u8_max) as Hmax by (unfold prefix_limit, u8_max in *; destruct ip; lia).
  destruct (Z.leb_spec n u8_max); [|lia]. cbn [ok_or mbind result_bind].
  unfold strip_ip_brackets. fold (NetAddr.strip_brackets (trim (ip_text ip))).
  rewrite trim_ip, strip_ip_text, parse_ip_text by done. cbn [ok_or mbind result_bind].
  by destruct (Z.ltb_spec (prefix_limit ip) n); [lia|].
Qed.

Lemma validate_cidr_shape raw s :
  parse_and_validate_cidr raw = Ok s →
  ∃ ip n, ip_wf ip = true ∧ 0 ≤ n ≤ prefix_limit ip ∧ s = cidr_text ip n.
Proof.
  unfold parse_and_validate_cidr. destruct (split_once "/" _) as [[ip_part prefix_part]|].
  - destruct (parse_u8 _) as [n|] eqn:En; [|done]. cbn [ok_or mbind result_bind].
    destruct (parse_ip _) as [ip|] eqn:Ei; [|done]. cbn [ok_or mbind result_bind].
    destruct (Z.ltb_spec (prefix_limit ip) n); [done|]. intros [= <-]. exists ip, n.
    apply from_str_radix_range in En. apply parse_ip_wf in Ei. split_and!; [done|lia..|done].
  - destruct (parse_ip _) as [ip|] eqn:Ei; [|done]. cbn [ok_or mbind result_bind]. intros [= <-].
    exists ip, (prefix_limit ip). apply parse_ip_wf in Ei. split_and!; [done|by destruct ip|done|done].
Qed.

(** A network grant means what was asked: whatever spelling the user gave, an
    accepted CIDR target is the canonical text of one network; the broker reads
    it back as exactly that network, and the editor accepts it again unchanged
    (so edits by different spellings of one network coincide). *)
Theorem cidr_grant_roundtrip raw s :
  parse_and_validate_cidr raw = Ok s →
  ∃ ip n, s = cidr_text ip n ∧ ip_wf ip = true ∧ 0 ≤ n ≤ prefix_limit ip
    ∧ cidr_parse s = Ok (mk_cidr ip n) ∧ parse_and_validate_cidr s = Ok s.
Proof.
  intros (ip & n & Hw & Hn & ->)%validate_cidr_shape. exists ip, n.
  split_and!; [done|done|lia|lia|by apply cidr_parse_text|by apply validate_cidr_text].
Qed.

(** ** The request a command line stands for *)

Lemma until_chars P s : all_chars (λ c, negb (P c)) (until P s) = true.
Proof. induction s as [|c s IH]; cbn; [done|]. destruct (P c) eqn:E; [done|]. cbn. by rewrite E, IH. Qed.

Lemma until_prefix P s : ∃ r, s = until P s +:+ r.
Proof.
  induction s as [|c s [r Hr]]; [by exists EmptyString|]. cbn. destruct (P c); [by eexists|].
  exists r. cbn. by rewrite <-Hr.
Qed.

Lemma strip_loop_suffix_chars Q step n s :
  (∀ s s', step s = Some s' → all_chars Q s = true → all_chars Q s' = true) →
  all_chars Q s = true → all_chars Q (strip_loop step n s) = true.
Proof.
  intros Hstep. revert s. induction n as [|n IH]; intros s Hs; [done|]. cbn.
  destruct (step s) as [s'|] eqn:E; [|done]. eauto.
Qed.

Lemma strip_suffix_chars Q u s s' : strip_suffix u s = Some s' → all_chars Q s = true → all_chars Q s' = true.
Proof. intros ->%strip_suffix_Some. rewrite all_chars_app. by intros [? _]%andb_true_iff. Qed.
Lemma strip_prefix_chars Q u s s' : strip_prefix u s = Some s' → all_chars Q s = true → all_chars Q s' = true.
Proof. intros ->%strip_prefix_Some. rewrite all_chars_app. by intros [_ ?]%andb_true_iff. Qed.

Lemma trim_chars Q s : all_chars Q s = true → all_chars Q (trim s) = true.
Proof.
  intros Hs. unfold trim, trim_end, trim_start. apply strip_loop_suffix_chars.
  - intros x y (u & _ & Hu)%first_some_Some. by eapply strip_suffix_chars.
  - apply strip_loop_suffix_chars; [|done]. intros x y (u & _ & Hu)%first_some_Some.
    by eapply strip_prefix_chars.
Qed.

Lemma trim_end_char_chars Q c s : all_chars Q s = true → all_chars Q (trim_end_char c s) = true.
Proof. apply strip_loop_suffix_chars. intros x y. apply strip_suffix_chars. Qed.

Lemma split_once_chars Q c s l r : split_once c s = Some (l, r) → all_chars Q s = true → all_chars Q l = true.
Proof.
  revert l r. induction s as [|a s IH]; intros l r; [done|]. cbn.
  destruct (Ascii.eqb a c); [by intros [= <- _]|].
  destruct (split_once c s) as [[l' r']|]; [|done]. intros [= <- <-] [Ha Hs]%andb_true_iff. cbn.
  by rewrite Ha, (IH l' r').
Qed.
Lemma rsplit_once_chars Q c s l r : rsplit_once c s = Some (l, r) → all_chars Q s = true → all_chars Q l = true.
Proof.
  revert l r. induction s as [|a s IH]; intros l r; [done|]. cbn.
  destruct (rsplit_once c s) as [[l' r']|]; [|by destruct (Ascii.eqb a c); [intros [= <- _]|]].
  intros [= <- <-] [Ha Hs]%andb_true_iff. cbn. by rewrite Ha, (IH l' r').
Qed.

Lemma strip_domain_port_chars Q s : all_chars Q s = true → all_chars Q (strip_domain_port s) = true.
Proof.
  intros Hs. unfold strip_domain_port.
  assert (all_chars Q (trim_end_char "." (trim s)) = true) as Ht by (by apply trim_end_char_chars, trim_chars).
  destruct (strip_prefix "[" _) as [rest|] eqn:Er.
  - apply strip_prefix_chars with (Q := Q) in Er; [|done].
    destruct (split_once "]" rest) as [[i o]|] eqn:E; [|done]. by eapply split_once_chars.
  - destruct (rsplit_once ":" _) as [[h p]|] eqn:E; [|done].
    destruct (_ && _ && _); [|done]. by eapply rsplit_once_chars.
Qed.

Lemma lower_not_upper s : all_chars (λ c, negb (is_upper c)) (to_ascii_lowercase s) = true.
Proof.
  induction s as [|c s IH]; [done|]. cbn. rewrite IH, andb_true_r.
  destruct c as [[] [] [] [] [] [] [] []]; reflexivity.
Qed.

Definition not_url (c : ascii) : bool := negb (one_char ["/"%char; "?"%char; "#"%char] c).

Lemma lower_chars s : all_chars not_url s = true → all_chars not_url (to_ascii_lowercase s) = true.
Proof.
  induction s as [|c s IH]; [done|]. cbn. intros [Hc Hs]%andb_true_iff. rewrite IH, andb_true_r by done.
  by destruct c as [[] [] [] [] [] [] [] []].
Qed.

(** A domain written to the policy is in lower case and free of paths, queries
    and fragments. *)
Lemma normalize_net_target_chars raw :
  all_chars (λ c, negb (is_upper c)) (normalize_net_target raw) = true
  ∧ all_chars not_url (normalize_net_target raw) = true.
Proof.
  split; [apply lower_not_upper|]. unfold normalize_net_target.
  apply lower_chars, trim_end_char_chars, trim_chars, strip_domain_port_chars, until_chars.
Qed.

Definition domain_shape (d : string) : Prop :=
  d ≠ EmptyString ∧ all_chars (λ c, negb (is_upper c)) d = true ∧ all_chars not_url d = true.

(** What each kind of grant may hold. *)
Definition target_ok (r : Request) : Prop :=
  match grant r with
  | FsRead | FsReadWrite => validate_dangerous_path (target r) = Ok tt ∧ quota r = None
  | NetPreset => is_ok (expand_net_preset (target r)) = true ∧ quota r = None
  | NetCidr => ∃ ip n, ip_wf ip = true ∧ 0 ≤ n ≤ prefix_limit ip ∧ target r = cidr_text ip n
  | Net | NetDeny => domain_shape (target r)
  | Deny => validate_deny_path_syntax (target r) = Ok tt ∧ quota r = None
  | DenyGlob => target r ≠ EmptyString ∧ quota r = None
  end.

Lemma try_parse_shape raw s :
  try_parse_cidr_or_ip raw = Some s →
  ∃ ip n, ip_wf ip = true ∧ 0 ≤ n ≤ prefix_limit ip ∧ s = cidr_text ip n.
Proof.
  unfold try_parse_cidr_or_ip. destruct (parse_and_validate_cidr raw) eqn:E; [|done].
  intros [= <-]. by eapply validate_cidr_shape.
Qed.

Lemma domain_request_ok g shown d q r :
  g = Net ∨ g = NetDeny → domain_request g shown d q = Ok r →
  grant r = g ∧ quota r = q ∧ target_ok r.
Proof.
  intros Hg. unfold domain_request. destruct (is_empty _) eqn:E; [done|]. intros [= <-].
  split_and!; [done|done|]. destruct (normalize_net_target_chars d) as [Hu Hn].
  assert (domain_shape (normalize_net_target d)); [|by destruct Hg as [-> | ->]].
  split_and!; [|done|done]. intros H. by rewrite H in E.
Qed.

(** What [vetto allow] writes: when the command line stands for an edit, its
    target fits its kind - a path passed the validation, a network is canonical,
    a domain is a lower-case name, a preset exists - and the quota is the given
    one (then it parses), or none for the kinds that take none. A path is granted
    only when neither a network flag, nor a preset, nor a quota was given, and
    for reading only when that was asked; a CIDR flag never widens to a domain. *)
Theorem run_allow_spec target_arg preset q read_only net cidr r :
  run_allow target_arg preset q read_only net cidr = Ok r →
  target_ok r
  ∧ (quota r = None ∨ quota r = q ∧ ∀ t, q = Some t → is_ok (parse_quota_bytes t) = true)
  ∧ match grant r with
    | FsRead | FsReadWrite =>
        preset = None ∧ q = None ∧ net = false ∧ cidr = false ∧ (grant r = FsRead ↔ read_only = true)
    | NetPreset => q = None ∧ (preset = None → cidr = false ∧ net = true)
    | NetCidr => preset = None
    | Net => preset = None ∧ cidr = false
    | _ => False
    end.
Proof.
  unfold run_allow. intros (v & Hq & H)%result_bind_ok.
  assert (∀ t, q = Some t → is_ok (parse_quota_bytes t) = true) as Hquota.
  { intros t ->. by rewrite Hq. }
  destruct preset as [p|].
  { case_bool_decide as E; [done|]. assert (q = None) as -> by (destruct q; [by destruct E|done]).
    apply result_bind_ok in H as (ds & Hd & [= <-]). split; [split; [cbn; by rewrite Hd|done]|split; [by left|done]]. }
  apply result_bind_ok in H as (t & _ & H). destruct cidr.
  { apply result_bind_ok in H as (s & Hs & [= <-]). split; [by eapply validate_cidr_shape|split; [by right|done]]. }
  destruct (net || _) eqn:En.
  - destruct (expand_net_preset _) as [ds|] eqn:Ed.
    + case_bool_decide as E; [done|]. injection H as <-.
      assert (q = None) as -> by (destruct q; [by destruct E|done]).
      split; [split; [cbn; by rewrite Ed|done]|split; [by left|]].
      split; [done|]. intros _. split; [done|]. by destruct net.
    + destruct (try_parse_cidr_or_ip t) as [s|] eqn:Et.
      * injection H as <-. split; [by eapply try_parse_shape|split; [by right|done]].
      * apply domain_request_ok in H as (Hg & Hqr & Ht); [|by left]. rewrite Hg.
        split; [done|split; [by right|done]].
  - to_prop. assert (q = None) as -> by (destruct q; [|done]; naive_solver).
    unfold allow_path in H. apply result_bind_ok in H as ([] & Hv & [= <-]).
    split; [by destruct read_only|split; [by destruct read_only; left|by destruct read_only]].
Qed.

(** ** What [vetto deny] writes *)

Lemma preset_paths_valid :
  forallb (λ arm, negb (is_nil arm)
                  && forallb (λ p, is_ok (validate_deny_path_syntax p)) arm)
    (snd <$> deny_preset_arms) = true.
Proof. vm_compute. reflexivity. Qed.

Lemma deny_preset_requests name paths :
  resolve_preset name = Some paths →
  paths ≠ [] ∧ deny_path <$> paths = (λ p, Ok (mk_request Deny p None)) <$> paths.
Proof.
  intros H%match_arms_elem. pose proof preset_paths_valid as Hv. rewrite forallb_forall in Hv.
  apply list_elem_of_In, Hv in H. apply andb_true_iff in H as [Hne H]. split; [by destruct paths|].
  apply list_fmap_ext. intros i p Hi. rewrite forallb_forall in H.
  apply list_elem_of_lookup_2, list_elem_of_In, H in Hi. unfold deny_path.
  by destruct (validate_deny_path_syntax p) as [[]|].
Qed.

Lemma nonempty_trim_ne s t : nonempty_trim s = Some t → t ≠ EmptyString.
Proof.
  destruct s as [s|]; [|done]. cbn. destruct (is_empty (trim s)) eqn:E; [done|]. intros [= <-] H.
  by rewrite H in E.
Qed.

Definition denies (r : Request) : Prop :=
  match grant r with NetDeny | Deny | DenyGlob => target_ok r | _ => False end.

Lemma deny_path_ok p r : deny_path p = Ok r → denies r ∧ r = mk_request Deny p None.
Proof. unfold deny_path. intros ([] & Hv & [= <-])%result_bind_ok. by repeat split. Qed.

Lemma deny_domain_ok d r : deny_domain d = Ok r → denies r.
Proof.
  unfold deny_domain. intros H. apply domain_request_ok in H as (Hg & _ & Ht); [|by right]. unfold denies. by rewrite Hg.
Qed.

(** [vetto deny] only ever tightens: every edit it makes is a denial whose
    target is valid for its kind, it always makes an edit or reports an error,
    and naming a preset denies every path of that preset, in order, without a
    path that the validation would refuse half-way. *)
Theorem run_deny_spec target_arg preset glob net :
  let rs := run_deny target_arg preset glob net in
  rs ≠ [] ∧ (∀ r, Ok r ∈ rs → denies r)
  ∧ ∀ name paths, net = false → glob = false →
      named_preset (nonempty_trim preset) (nonempty_trim target_arg) = Some name →
      resolve_preset name = Some paths → rs = (λ p, Ok (mk_request Deny p None)) <$> paths.
Proof.
  cbv zeta. unfold run_deny. destruct net; [split_and!; [done| |done]|].
  { intros r Hr%list_elem_of_singleton. destruct (_ || glob); [done|].
    destruct (nonempty_trim target_arg); [|done]. by apply eq_sym, deny_domain_ok in Hr. }
  destruct glob; [split_and!; [done| |done]|].
  { intros r Hr%list_elem_of_singleton. case_bool_decide; [done|].
    destruct (nonempty_trim target_arg) as [t|] eqn:E; [|done]. injection Hr as ->.
    split; [by eapply nonempty_trim_ne|done]. }
  destruct (named_preset _ _) as [name|].
  - destruct (resolve_preset name) as [paths|] eqn:Er.
    + destruct (deny_preset_requests name paths Er) as [Hne Heq]. rewrite Heq. split_and!.
      * by destruct paths.
      * rewrite <-Heq. intros r (p & Hp & _)%list_elem_of_fmap. by apply eq_sym, deny_path_ok in Hp as [? _].
      * intros name' paths' _ _ [= <-]. rewrite Er. by intros [= <-].
    + split_and!; [done|by intros r ?%list_elem_of_singleton|]. intros n ps _ _ [= <-]. by rewrite Er.
  - destruct (nonempty_trim target_arg) as [t|]; split_and!; try done.
    + intros r Hr%list_elem_of_singleton. by apply eq_sym, deny_path_ok in Hr as [? _].
    + by intros r ?%list_elem_of_singleton.
Qed.

(** ** Witnesses *)

Lemma allowed_path_components_witness :
  validate_dangerous_path "/srv//data/./cache" = Ok tt
  ∧ ∃ n rest, components (trim "/srv//data/./cache") = RootDir :: Normal n :: rest
              ∧ to_ascii_lowercase n ∉ ["etc"; "bin"; "sbin"].
Proof.
  split; [vm_compute; reflexivity|].
  destruct (allowed_path_components "/srv//data/./cache" ltac:(vm_compute; reflexivity)) as (_ & _ & H & _).
  destruct (H ltac:(vm_compute; reflexivity)) as (n & rest & Hp & _ & Hn & _). by exists n, rest.
Defined.

Lemma cidr_grant_roundtrip_witness :
  parse_and_validate_cidr "https://[2001:db8:0:0::]/32?x" = Ok "2001:db8::/32"
  ∧ parse_and_validate_cidr "2001:db8::/32" = Ok "2001:db8::/32".
Proof.
  split; [vm_compute; reflexivity|].
  destruct (cidr_grant_roundtrip "https://[2001:db8:0:0::]/32?x" "2001:db8::/32"
    ltac:(vm_compute; reflexivity)) as (? & ? & _ & _ & _ & _ & H).
  exact H.
Defined.

Definition demo_allow : result AnyError Request :=
  run_allow (Some " 10.1.2.3:80 ") None (Some "5mb") false false false.
Definition demo_request : Request := mk_request NetCidr "10.1.2.3/32" (Some "5mb").

Lemma run_allow_spec_witness : demo_allow = Ok demo_request ∧ target_ok demo_request.
Proof.
  split; [vm_compute; reflexivity|].
  exact (proj1 (run_allow_spec (Some " 10.1.2.3:80 ") None (Some "5mb") false false false demo_request
    ltac:(vm_compute; reflexivity))).
Defined.

(** ** What the rules miss *)

(** The blanket-root test lists four spellings; a recursive glob of the root is
    not among them. *)
Lemma recursive_root_glob_is_accepted :
  Forall (λ p, validate_dangerous_path p = Ok tt) ["/**"; "/usr/**"; "/lib"; "/boot"].
Proof. repeat constructor. Qed.

(** The scheme is only recognised in lower case: otherwise the scheme itself is
    taken for the domain. *)
Lemma upper_case_scheme_becomes_domain :
  run_allow (Some "HTTPS://example.com/x") None None false true false
  = Ok (mk_request Net "https:" None).
Proof. vm_compute. reflexivity. Qed.
