(* ===== verification/Edit.v ===== *)
(** * Edit: writing an edit into the policy file

    Model of the rest of [src/src/policy/edit.rs]: the edit of a parsed document
    ([edit_document], [set_domain_quota]) and its transactional write
    ([apply_with_quota_atomic]).  The document library is the class [TomlEdit];
    the disk is explicit state whose operations may fail as an oracle says,
    half-written files included. *)

From S2P Require Import Prelude Paths PolicyTypes Termination Schema Presets Merge EditRules.


(** ** Documents: what the code uses of toml_edit *)

Class TomlEdit : Type := {
  Tbl : Type; Item : Type; Value : Type; Arr : Type; Inline : Type;
  parse_doc : string → result string Tbl; doc_text : Tbl → string;
  empty_table : Tbl; table_get : Tbl → string → option Item;
  table_insert : Tbl → string → Item → Tbl;
  of_table : Tbl → Item; as_table : Item → option Tbl;
  of_value : Value → Item; as_value : Item → option Value;
  of_array : Arr → Value; as_array : Value → option Arr;
  of_inline : Inline → Item; as_inline_table : Item → option Inline;
  inline_insert : Inline → string → string → Inline;
  empty_array : Arr; array_strs : Arr → list (option string); array_push : Arr → string → Arr;
  of_str : string → Item; as_str : Item → option string;
}.

(** Insertion replaces or adds one key; the views of an item undo its
    constructors; a push adds one string at the end. *)
Class TomlLaws `{TE : TomlEdit} : Prop := {
  get_insert t k i : table_get (table_insert t k i) k = Some i;
  get_insert_ne t k k' i : k ≠ k' → table_get (table_insert t k i) k' = table_get t k';
  insert_same t k i : table_get t k = Some i → table_insert t k i = t;
  get_empty k : table_get empty_table k = None;
  table_view t : as_table (of_table t) = Some t;
  table_of_view i t : as_table i = Some t → i = of_table t;
  value_view v : as_value (of_value v) = Some v;
  value_of_view i v : as_value i = Some v → i = of_value v;
  array_view a : as_array (of_array a) = Some a;
  array_of_view v a : as_array v = Some a → v = of_array a;
  str_view s : as_str (of_str s) = Some s;
  strs_empty : array_strs empty_array = [];
  strs_push a s : array_strs (array_push a s) = array_strs a ++ [Some s];
}.

Section Document.
Context `{TE : TomlEdit}.

(** [table.get(key)], with [default] inserted first when it is absent. *)
Definition get_or_insert (t : Tbl) (k : string) (default : Item) : Item :=
  match table_get t k with Some i => i | None => default end.

Definition section_table (section : string) (i : Item) : result AnyError Tbl :=
  ok_or (as_table i) (Untyped ("policy section [" +:+ section +:+ "] is not a table")).

Definition key_array (section key : string) (i : Item) : result AnyError Arr :=
  v ← ok_or (as_value i) (Untyped ("policy key [" +:+ section +:+ "." +:+ key +:+ "] is not a value"));
  ok_or (as_array v)
    (Untyped ("policy key [" +:+ section +:+ "." +:+ key +:+ "] is not a string array")).

Definition is_net_grant (g : Grant) : bool :=
  match g with Net | NetPreset | NetCidr => true | _ => false end.

(** The mode of the network table becomes [allowlist] when absent or [off]. *)
Definition default_mode (inner : Tbl) : Tbl :=
  match table_get inner "mode" with
  | None => table_insert inner "mode" (of_str "allowlist")
  | Some item =>
      if bool_decide (as_str item = Some "off")
      then table_insert inner "mode" (of_str "allowlist") else inner
  end.

Definition add_string (a : Arr) (target : string) : Arr * bool :=
  if bool_decide (Some target ∈ array_strs a) then (a, false) else (array_push a target, true).

Definition edit_document (doc : Tbl) (g : Grant) (target : string) : result AnyError (Tbl * bool) :=
  let '(section, key) := section_key g false in
  inner ← section_table section (get_or_insert doc section (of_table empty_table));
  array ← key_array section key (get_or_insert inner key (of_value (of_array empty_array)));
  let '(array, added) := add_string array target in
  let inner := table_insert inner key (of_value (of_array array)) in
  let inner := if is_net_grant g then default_mode inner else inner in
  Ok (table_insert doc section (of_table inner), added).

Definition set_domain_quota (doc : Tbl) (domain quota : string) : result AnyError Tbl :=
  let clean_domain := to_ascii_lowercase (trim_end_char "." (trim domain)) in
  net_table ← section_table "network" (get_or_insert doc "network" (of_table empty_table));
  let quota_item := get_or_insert net_table "net_quota" (of_table empty_table) in
  quota_item ← match as_table quota_item with
    | Some tbl => Ok (of_table (table_insert tbl clean_domain (of_str quota)))
    | None =>
        match as_inline_table quota_item with
        | Some inline => Ok (of_inline (inline_insert inline clean_domain quota))
        | None => Err (Untyped "network.net_quota is not a table")
        end
    end;
  Ok (table_insert doc "network" (of_table (table_insert net_table "net_quota" quota_item))).

(** Both edits of a request. *)
Definition edit_request (doc : Tbl) (r : Request) : result AnyError Tbl :=
  '(doc, _) ← edit_document doc (grant r) (target r);
  match quota r with
  | Some q => set_domain_quota doc (target r) q
  | None => Ok doc
  end.
End Document.

(** ** The disk *)

(** What one operation does: it works, it fails without effect, or it fails
    having written the first [n] bytes. *)
Inductive IoFault : Type := Works | FailsUntouched | FailsAfter (n : nat).

Record World : Type := mk_world { files : path → option string; ops : nat }.

Class EditHost : Type := {
  (** [HOME] or else [USERPROFILE]; what exists as a directory; the process id;
      the fate of each operation, and the text of its error. *)
  home_dir : option path;
  dir_exists : path → bool;
  pid : Z;
  fault : nat → IoFault;
  io_text : nat → string;
}.

Definition set_file (fs : path → option string) (p : path) (c : option string) : path → option string :=
  λ q, if decide (q = p) then c else fs q.

Fixpoint take_bytes (n : nat) (s : string) : string :=
  match n, s with
  | S n, String a s => String a (take_bytes n s)
  | _, _ => EmptyString
  end.

Section Disk.
Context `{EH : EditHost}.

Definition next (w : World) (fs : path → option string) : World := mk_world fs (S (ops w)).

(** An operation that leaves the files alone. *)
Definition fs_effectless (w : World) : World * bool :=
  (next w (files w), match fault (ops w) with Works => true | _ => false end).

(** Writing [c] into the (truncated) file [p]. *)
Definition fs_write (p : path) (c : string) (w : World) : World * bool :=
  match fault (ops w) with
  | Works => (next w (set_file (files w) p (Some c)), true)
  | FailsUntouched => (next w (files w), false)
  | FailsAfter n => (next w (set_file (files w) p (Some (take_bytes n c))), false)
  end.

(** [fs::copy]: the destination is truncated, then filled. *)
Definition fs_copy (src dst : path) (w : World) : World * bool :=
  match files w src with
  | Some c => fs_write dst c w
  | None => (next w (files w), false)
  end.

Definition fs_read_to_string (p : path) (w : World) : World * option string :=
  (next w (files w), match fault (ops w) with Works => files w p | _ => None end).

(** [fs::rename] and [fs::remove_file] take effect entirely or not at all. *)
Definition fs_rename (src dst : path) (w : World) : World * bool :=
  match fault (ops w), files w src with
  | Works, Some c => (next w (set_file (set_file (files w) dst (Some c)) src None), true)
  | _, _ => (next w (files w), false)
  end.

Definition fs_remove_file (p : path) (w : World) : World * bool :=
  match fault (ops w) with
  | Works => (next w (set_file (files w) p None), bool_decide (is_Some (files w p)))
  | _ => (next w (files w), false)
  end.

Definition exists_file (w : World) (p : path) : bool := bool_decide (is_Some (files w p)).

(** ** The transaction *)

Definition dot_vetto : path := components ".vetto".
Definition dot_vetto_policy : path := components ".vetto/policy.toml".

Definition resolve_target_file (w : World) (global : bool) (custom_policy : option path) :
  result AnyError path :=
  if global then
    home ← ok_or home_dir (Untyped "neither HOME nor USERPROFILE is set");
    Ok (push (push home (components ".vetto")) (components "config.toml"))
  else match custom_policy with
  | Some custom => Ok custom
  | None =>
      if exists_file w dot_vetto_policy then Ok dot_vetto_policy
      else if exists_file w (components "policy.toml") then Ok (components "policy.toml")
      else if exists_file w (components "vetto.toml") then Ok (components "vetto.toml")
      else if dir_exists dot_vetto then Ok dot_vetto_policy
      else Ok (components "vetto.toml")
  end.

Definition newline : string := ch1 10.
Definition PROJECT_HEADER : string :=
  "# vetto project policy." +:+ newline
  +:+ "# This file is merged over the built-in profile and agent preset; CLI flags win." +:+ newline
  +:+ "# Manage it with `vetto allow` / `vetto deny`, or by hand " +:+ utf8_3 226 128 148
  +:+ " every key is" +:+ newline
  +:+ "# validated on load and documented in the README." +:+ newline.

Definition bak_path (p : path) : path := components (to_str p +:+ ".bak").

Definition file_name (p : path) : option string :=
  match last p with Some (Normal n) => Some n | _ => None end.

Definition tmp_path (p : path) : path :=
  push (default [CurDir] (parent p))
    [Normal ("." +:+ default "policy.toml" (file_name p) +:+ ".tmp." +:+ to_dec pid)].

Definition context (what : string) (p : path) : AnyError := Untyped (what +:+ " " +:+ to_str p).

(** [let _ = fs::copy(bak, path)] when there is a backup. *)
Definition restore (bak : option path) (p : path) (w : World) : World :=
  match bak with Some b => (fs_copy b p w).1 | None => w end.
End Disk.

Section Apply.
Context `{TE : TomlEdit} `{EH : EditHost}.
Variable toml_from_str : string → result string RawLayer.

(** The directory of the policy file is created when it is missing. *)
Definition make_parent (p : path) (w : World) : World * bool :=
  match parent p with
  | Some dir => if negb (is_nil dir) && negb (dir_exists dir) then fs_effectless w else (w, true)
  | None => (w, true)
  end.

(** The backup of an existing file; the flag reports success. *)
Definition make_backup (p : path) (w : World) : World * option path * bool :=
  if exists_file w p then let '(w, ok) := fs_copy p (bak_path p) w in (w, Some (bak_path p), ok)
  else (w, None, true).

Definition read_policy (p : path) (w : World) : World * option string :=
  if exists_file w p then fs_read_to_string p w else (w, Some PROJECT_HEADER).

(** The new text, parsed, edited and printed. *)
Definition edited_text (raw : string) (p : path) (r : Request) : result AnyError string :=
  match parse_doc raw with
  | Ok doc => doc_text <$> edit_request doc r
  | Err _ => Err (context "parse" p)
  end.

Definition validation_failed (err : string) : AnyError :=
  TypedPolicy (CompilationFailed
    ("validation failed for edited policy: Policy compilation failed: failed to parse policy "
     +:+ "'edit_validation': " +:+ err)).

(** Creating, filling and syncing the temporary file. *)
Definition write_temp (tmp : path) (text : string) (w : World) : World * result AnyError unit :=
  let '(w, ok) := fs_write tmp "" w in
  if negb ok then (w, Err (context "create temp file" tmp))
  else
    let '(w, ok) := fs_write tmp text w in
    if negb ok then (w, Err (context "write to temp file" tmp))
    else
      let '(w, ok) := fs_effectless w in
      (w, if ok then Ok tt else Err (context "sync temp file" tmp)).

Definition rename_failed (p : path) (err : string) : AnyError :=
  Untyped ("failed to rename temp file to " +:+ to_str p +:+ ": " +:+ err).

(** The replacement of the policy file. *)
Definition commit (bak : option path) (p : path) (text : string) (w : World) :
  World * result AnyError path :=
  let tmp := tmp_path p in
  match write_temp tmp text w with
  | (w, Err e) => (w, Err e)
  | (w, Ok _) =>
      match fs_rename tmp p w with
      | (w', true) => (w', Ok p)
      | (w', false) =>
          (restore bak p (fs_remove_file tmp w').1, Err (rename_failed p (io_text (ops w))))
      end
  end.

(** From the text that was read to the outcome. *)
Definition replace_policy (bak : option path) (p : path) (raw : string) (r : Request) (w : World) :
  World * result AnyError path :=
  match edited_text raw p r with
  | Err e => (w, Err e)
  | Ok text =>
      match toml_from_str text with
      | Err err => (restore bak p w, Err (validation_failed err))
      | Ok _ => commit bak p text w
      end
  end.

Definition apply_with_quota_atomic (r : Request) (global : bool) (custom_policy : option path)
    (w : World) : World * result AnyError path :=
  match resolve_target_file w global custom_policy with
  | Err e => (w, Err e)
  | Ok p =>
      let '(w, ok) := make_parent p w in
      if negb ok then (w, Err (context "create" (default [] (parent p))))
      else
        let '(w, bak, ok) := make_backup p w in
        if negb ok then (w, Err (context "create backup" (bak_path p)))
        else match read_policy p w with
             | (w, None) => (w, Err (context "read" p))
             | (w, Some raw) => replace_policy bak p raw r w
             end
  end.

(** [run_allow], and [run_deny] with its edits one after the other. *)
Definition run_allow_command (target preset quota : option string)
    (read_only net cidr global : bool) (custom_policy : option path) (w : World) :
  World * result AnyError unit :=
  match run_allow target preset quota read_only net cidr with
  | Err e => (w, Err e)
  | Ok r => let '(w, res) := apply_with_quota_atomic r global custom_policy w in
            (w, _ ← res; Ok tt)
  end.

Fixpoint apply_all (rs : list (result AnyError Request)) (global : bool)
    (custom_policy : option path) (w : World) : World * result AnyError unit :=
  match rs with
  | [] => (w, Ok tt)
  | Err e :: _ => (w, Err e)
  | Ok r :: rs =>
      match apply_with_quota_atomic r global custom_policy w with
      | (w, Ok _) => apply_all rs global custom_policy w
      | (w, Err e) => (w, Err e)
      end
  end.

Definition run_deny_command (target preset : option string) (glob net global : bool)
    (custom_policy : option path) (w : World) : World * result AnyError unit :=
  apply_all (run_deny target preset glob net) global custom_policy w.
End Apply.

(** ** Lemmas: documents *)

Section DocumentFacts.
Context `{TL : TomlLaws}.

Definition get_array (inner : Tbl) (key : string) : option Arr :=
  match table_get inner key with
  | Some i => match as_value i with Some v => as_array v | None => None end
  | None => None
  end.

Definition get_section (doc : Tbl) (section : string) : option Tbl :=
  match table_get doc section with Some i => as_table i | None => None end.

(** The strings of the array at [section.key] ([None]: not a string). *)
Definition strings_at (doc : Tbl) (section key : string) : list (option string) :=
  match get_section doc section with
  | Some inner => from_option array_strs [] (get_array inner key)
  | None => []
  end.

(** The item at [section.key]. *)
Definition item_at (doc : Tbl) (section key : string) : option Item :=
  match get_section doc section with Some inner => table_get inner key | None => None end.

Lemma item_at_insert doc section inner k :
  item_at (table_insert doc section (of_table inner)) section k = table_get inner k.
Proof. unfold item_at, get_section. rewrite get_insert. by rewrite table_view. Qed.

Lemma item_at_insert_ne doc section section' inner k :
  section ≠ section' →
  item_at (table_insert doc section (of_table inner)) section' k = item_at doc section' k.
Proof. intros H. unfold item_at, get_section. by rewrite get_insert_ne. Qed.

Lemma default_mode_spec inner :
  table_get (default_mode inner) "mode"
  = match table_get inner "mode" with
    | None => Some (of_str "allowlist")
    | Some i => if bool_decide (as_str i = Some "off") then Some (of_str "allowlist") else Some i
    end
  ∧ ∀ k, k ≠ "mode" → table_get (default_mode inner) k = table_get inner k.
Proof.
  unfold default_mode. destruct (table_get inner "mode") as [i|] eqn:E.
  - destruct (bool_decide _); [split; [apply get_insert|]|by split].
    intros k Hk. by apply get_insert_ne.
  - split; [apply get_insert|]. intros k Hk. by apply get_insert_ne.
Qed.

Lemma default_mode_idem inner : default_mode (default_mode inner) = default_mode inner.
Proof.
  pose proof (default_mode_spec inner) as [Hm _]. unfold default_mode at 1. rewrite Hm.
  assert (bool_decide (as_str (of_str "allowlist") = Some "off") = false) as Hs
    by (apply bool_decide_eq_false_2; by rewrite str_view).
  destruct (table_get inner "mode") as [i|]; [destruct (bool_decide _) eqn:E|]; by rewrite ?Hs, ?E.
Qed.

(** The items of the section table a document has, or starts with. *)
Lemma section_items doc section inner :
  section_table section (get_or_insert doc section (of_table empty_table)) = Ok inner →
  ∀ k, item_at doc section k = table_get inner k.
Proof.
  unfold section_table, get_or_insert, item_at, get_section. intros H k.
  destruct (table_get doc section) as [i|]; cbn in *.
  - destruct (as_table i); by simplify_eq/=.
  - rewrite table_view in H. simplify_eq/=. by rewrite get_empty.
Qed.

Lemma array_strings section key inner a :
  key_array section key (get_or_insert inner key (of_value (of_array empty_array))) = Ok a →
  from_option array_strs [] (get_array inner key) = array_strs a.
Proof.
  unfold key_array, get_or_insert, get_array. intros (v & Hv & Ha)%result_bind_ok.
  destruct (table_get inner key) as [i|]; cbn in *.
  - destruct (as_value i) as [v'|]; simplify_eq/=. destruct (as_array v) as [a'|]; by simplify_eq/=.
  - rewrite value_view in Hv. simplify_eq/=. rewrite array_view in Ha. simplify_eq/=.
    by rewrite strs_empty.
Qed.

(** A successful edit: what it read and what it wrote. *)
Lemma edit_document_shape doc g t doc' added :
  edit_document doc g t = Ok (doc', added) →
  let '(section, key) := section_key g false in
  ∃ inner a inner',
    (∀ k, item_at doc section k = table_get inner k)
    ∧ strings_at doc section key = array_strs a
    ∧ added = bool_decide (Some t ∉ array_strs a)
    ∧ inner' = table_insert inner key (of_value (of_array (add_string a t).1))
    ∧ doc' = table_insert doc section (of_table (if is_net_grant g then default_mode inner' else inner')).
Proof.
  unfold edit_document. destruct (section_key g false) as [section key].
  intros (inner & Hi & H)%result_bind_ok. apply result_bind_ok in H as (a & Ha & H).
  destruct (add_string a t) as [a' ad] eqn:Ead. injection H as <- <-.
  exists inner, a, (table_insert inner key (of_value (of_array a'))).
  split_and!; [by apply section_items| | | |done].
  - unfold strings_at. apply array_strings in Ha. rewrite <-Ha.
    pose proof (section_items _ _ _ Hi key) as Hk. unfold item_at in Hk. unfold get_array.
    destruct (get_section doc section) as [inner0|]; by rewrite <-Hk.
  - unfold add_string in Ead. case_bool_decide; simplify_eq.
    + symmetry. apply bool_decide_eq_false_2. tauto.
    + symmetry. by apply bool_decide_eq_true_2.
  - by rewrite Ead.
Qed.

Lemma section_key_not_mode g : (section_key g false).2 ≠ "mode".
Proof. by destruct g. Qed.
Lemma net_section g : is_net_grant g = true → (section_key g false).1 = "network".
Proof. by destruct g. Qed.

Lemma add_string_spec a t :
  array_strs (add_string a t).1
  = array_strs a ++ (if bool_decide (Some t ∉ array_strs a) then [Some t] else []).
Proof.
  unfold add_string. case_bool_decide as E.
  - rewrite bool_decide_eq_false_2 by tauto. by rewrite app_nil_r.
  - rewrite bool_decide_eq_true_2 by done. apply strs_push.
Qed.

Lemma final_items g key inner' k :
  key ≠ "mode" → k ≠ "mode" ∨ is_net_grant g = false →
  table_get (if is_net_grant g then default_mode inner' else inner') k = table_get inner' k.
Proof.
  intros _ [Hk|Hg]; [|by rewrite Hg]. destruct (is_net_grant g); [|done]. by apply default_mode_spec.
Qed.

(** Editing a document that already holds the target, under a mode that is
    already set, changes nothing. *)
Lemma edit_document_again doc g t inner a :
  let '(section, key) := section_key g false in
  table_get doc section = Some (of_table inner) →
  table_get inner key = Some (of_value (of_array a)) → Some t ∈ array_strs a →
  (is_net_grant g = true → default_mode inner = inner) →
  edit_document doc g t = Ok (doc, false).
Proof.
  destruct (section_key g false) as [section key] eqn:Es. intros Hs Hk Hin Hm.
  unfold edit_document. rewrite Es. unfold get_or_insert. rewrite Hs.
  unfold section_table. rewrite table_view. cbn [ok_or mbind result_bind]. rewrite Hk.
  unfold key_array. rewrite value_view. cbn [ok_or mbind result_bind]. rewrite array_view.
  cbn [ok_or mbind result_bind]. unfold add_string. rewrite bool_decide_eq_true_2 by done.
  rewrite (insert_same inner) by done.
  assert ((if is_net_grant g then default_mode inner else inner) = inner) as ->
    by (destruct (is_net_grant g); auto).
  by rewrite insert_same.
Qed.

(** One edit of a policy document does what was asked and nothing else: the
    grant's array ends with the target, once; a network grant turns an absent
    mode or [off] into [allowlist] and keeps any other mode; every other key of
    every section is untouched; and repeating the edit changes nothing. *)
Theorem edit_document_spec doc g t doc' added :
  edit_document doc g t = Ok (doc', added) →
  let '(section, key) := section_key g false in
  strings_at doc' section key = strings_at doc section key ++ (if added then [Some t] else [])
  ∧ (added = true ↔ Some t ∉ strings_at doc section key)
  ∧ (is_net_grant g = true →
     item_at doc' "network" "mode"
     = match item_at doc "network" "mode" with
       | None => Some (of_str "allowlist")
       | Some i => if bool_decide (as_str i = Some "off") then Some (of_str "allowlist") else Some i
       end)
  ∧ (∀ s k, (s, k) ≠ (section, key) → (is_net_grant g = true → (s, k) ≠ ("network", "mode")) →
     item_at doc' s k = item_at doc s k)
  ∧ edit_document doc' g t = Ok (doc', false).
Proof.
  intros H. apply edit_document_shape in H.
  pose proof (section_key_not_mode g) as Hmode. pose proof (net_section g) as Hnet.
  pose proof (edit_document_again doc' g t) as Hagain.
  destruct (section_key g false) as [section key]. cbn in Hmode, Hnet.
  destruct H as (inner & a & inner' & Hitems & Hstr & -> & Hinner & ->).
  set (final := if is_net_grant g then default_mode inner' else inner') in *.
  assert (table_get final key = Some (of_value (of_array (add_string a t).1))) as Hkey.
  { unfold final. rewrite (final_items g key) by (done || by left). rewrite Hinner. apply get_insert. }
  split_and!.
  - rewrite Hstr. unfold strings_at, get_section, get_array.
    rewrite get_insert, table_view, Hkey, value_view, array_view. apply add_string_spec.
  - rewrite Hstr. by rewrite bool_decide_eq_true.
  - intros Hg. rewrite (Hnet Hg) in *. rewrite item_at_insert. unfold final. rewrite Hg.
    rewrite (proj1 (default_mode_spec inner')), Hinner, get_insert_ne by done. by rewrite Hitems.
  - intros s k Hne Hm. destruct (decide (s = section)) as [->|Hs]; [|by apply item_at_insert_ne].
    rewrite item_at_insert, Hitems. unfold final. rewrite (final_items g key); [|done|].
    + rewrite Hinner. apply get_insert_ne. congruence.
    + destruct (is_net_grant g); [|by right]. left. rewrite (Hnet eq_refl) in Hm. naive_solver.
  - apply (Hagain final (add_string a t).1); [apply get_insert|done| |].
    + rewrite add_string_spec, elem_of_app. case_bool_decide; [right; by left|].
      left. destruct (decide (Some t ∈ array_strs a)); [done|tauto].
    + intros Hg. unfold final. rewrite Hg. apply default_mode_idem.
Qed.
End DocumentFacts.

(** ** Lemmas: the disk *)

Section DiskFacts.
Context `{EH : EditHost}.

(** Only the files [ps] may differ. *)
Definition same_but (ps : list path) (w w' : World) : Prop :=
  ∀ q, q ∉ ps → files w' q = files w q.

Lemma same_but_refl ps w : same_but ps w w.
Proof. by intros q _. Qed.
Lemma same_but_trans ps w1 w2 w3 : same_but ps w1 w2 → same_but ps w2 w3 → same_but ps w1 w3.
Proof. intros Ha Hb q Hq. by rewrite Hb, Ha. Qed.
Lemma same_but_mono ps ps' w w' : ps ⊆ ps' → same_but ps w w' → same_but ps' w w'.
Proof. intros Hs H q Hq. apply H. set_solver. Qed.

Lemma set_file_other fs p c q : q ≠ p → set_file fs p c q = fs q.
Proof. intros H. unfold set_file. by destruct (decide (q = p)). Qed.
Lemma set_file_same fs p c : set_file fs p c p = c.
Proof. unfold set_file. by destruct (decide (p = p)). Qed.

(** A write that failed half-way at a point the oracle names. *)
Definition torn (p : path) (c : string) (w' : World) : Prop :=
  ∃ k n, fault k = FailsAfter n ∧ files w' p = Some (take_bytes n c).

Lemma fs_write_spec p c w w' ok :
  fs_write p c w = (w', ok) →
  same_but [p] w w'
  ∧ (if ok then files w' p = Some c else files w' p = files w p ∨ torn p c w').
Proof.
  unfold fs_write, next. destruct (fault (ops w)) as [| |n] eqn:E; intros [= <- <-]; cbn; split.
  - intros q Hq. cbn. apply set_file_other. set_solver.
  - apply set_file_same.
  - by intros q _.
  - by left.
  - intros q Hq. cbn. apply set_file_other. set_solver.
  - right. exists (ops w), n. split; [done|]. apply set_file_same.
Qed.

Lemma fs_copy_spec src dst w w' ok :
  fs_copy src dst w = (w', ok) →
  same_but [dst] w w'
  ∧ (if ok then files w' dst = files w src ∧ is_Some (files w src)
     else files w' dst = files w dst ∨ ∃ c, files w src = Some c ∧ torn dst c w').
Proof.
  unfold fs_copy. destruct (files w src) as [c|] eqn:E.
  - intros [Hs H]%fs_write_spec. split; [done|]. destruct ok; [by rewrite H|].
    destruct H as [H|H]; [by left|right]. by exists c.
  - intros [= <- <-]. cbn. split; [by intros q _|by left].
Qed.

Lemma fs_rename_spec src dst w w' ok :
  fs_rename src dst w = (w', ok) → src ≠ dst →
  same_but [src; dst] w w'
  ∧ (if ok then files w' dst = files w src ∧ is_Some (files w src) else files w' = files w).
Proof.
  unfold fs_rename, next. destruct (fault (ops w)); [destruct (files w src) as [c|] eqn:E| |];
    intros [= <- <-] Hne; cbn; (split; [|try done]).
  - intros q Hq. cbn. rewrite !set_file_other by set_solver. done.
  - rewrite set_file_other by done. by rewrite set_file_same.
  - by intros q _.
  - by intros q _.
  - by intros q _.
Qed.

Lemma fs_remove_same p w : same_but [p] w (fs_remove_file p w).1.
Proof.
  unfold fs_remove_file. intros q Hq. destruct (fault (ops w)); cbn; [|done..].
  apply set_file_other. set_solver.
Qed.

(** ** Lemmas: the names of the transaction *)

(** A path to a file, as [PathBuf] holds it. *)
Definition is_file_path (p : path) : Prop := path_ok p = true ∧ ∃ q n, p = q ++ [Normal n].

Lemma name_ok_bak n : name_ok n = true → name_ok (n +:+ ".bak") = true.
Proof.
  unfold name_ok. intros [_ Hs%negb_true_iff]%andb_true_iff.
  assert (∀ s, (String.length s < 3)%nat → String.eqb (n +:+ ".bak") s = false) as Hl.
  { intros s Hs'. apply String.eqb_neq. intros <-. rewrite string_length_app in Hs'. cbn in Hs'. lia. }
  unfold is_empty. rewrite contains_char_app, Hs, !Hl by (cbn; lia). done.
Qed.

Lemma last_name_ok q n : path_ok (q ++ [Normal n]) = true → name_ok n = true.
Proof.
  unfold path_ok. rewrite forallb_app. cbn. intros [_ [_ H]%andb_true_iff]%andb_true_iff.
  by rewrite andb_true_r in H.
Qed.

Lemma bak_shape q n :
  path_ok (q ++ [Normal n]) = true → bak_path (q ++ [Normal n]) = q ++ [Normal (n +:+ ".bak")].
Proof.
  intros Hp. unfold bak_path. rewrite to_str_snoc. apply components_to_str.
  apply (path_ok_snoc _ n); [done|]. by eapply name_ok_bak, last_name_ok.
Qed.

Lemma tmp_shape q n : tmp_path (q ++ [Normal n]) = q ++ [Normal ("." +:+ n +:+ ".tmp." +:+ to_dec pid)].
Proof.
  unfold tmp_path, file_name. rewrite parent_snoc, last_snoc by done. cbn [default from_option].
  unfold push. by destruct q.
Qed.

Lemma transaction_names p :
  is_file_path p → bak_path p ≠ p ∧ tmp_path p ≠ p ∧ bak_path p ≠ tmp_path p.
Proof.
  intros (Hp & q & n & ->). rewrite bak_shape, tmp_shape by done.
  assert (∀ a b, String.length a ≠ String.length b → q ++ [Normal a] ≠ q ++ [Normal b]) as Hne.
  { intros a b Hl E. apply app_inj_tail in E as [_ [= ->]]. done. }
  split_and!; apply Hne; cbn; rewrite !string_length_app; cbn; lia.
Qed.
End DiskFacts.

(** ** Lemmas: the transaction *)

Section ApplyFacts.
Context `{TE : TomlEdit} `{EH : EditHost}.
Variable toml_from_str : string → result string RawLayer.
Local Abbreviation valid_layer text := (is_ok (toml_from_str text) = true).

(** What a failed transaction may leave at [p]: its content, or a torn copy of
    it. *)
Definition kept (p : path) (w w' : World) : Prop :=
  files w' p = files w p ∨ ∃ c, files w p = Some c ∧ torn p c w'.

Lemma kept_same p w w' : files w' p = files w p → kept p w w'.
Proof. by left. Qed.

(** The backup, when there is one, holds what [p] held. *)
Definition backs_up (p : path) (bak : option path) (w : World) : Prop :=
  match bak with
  | Some b => b = bak_path p ∧ files w b = files w p ∧ is_Some (files w p)
  | None => files w p = None
  end.

Lemma restore_spec p bak w w0 :
  is_file_path p → backs_up p bak w0 → same_but [tmp_path p] w0 w →
  same_but [p; tmp_path p] w0 (restore bak p w) ∧ kept p w0 (restore bak p w).
Proof.
  intros (Hbp & Htp & Hbt)%transaction_names Hb Hs. unfold restore. destruct bak as [b|].
  - destruct Hb as (-> & Hb & Hsome). destruct (fs_copy (bak_path p) p w) as [w' ok] eqn:E. cbn.
    apply fs_copy_spec in E as [Hs' Hok].
    assert (files w (bak_path p) = files w0 p) as Hbak by (rewrite (Hs _) by set_solver; done).
    split.
    + eapply same_but_trans; (eapply same_but_mono; [|done]; set_solver).
    + destruct ok.
      * left. destruct Hok as [Hok _]. congruence.
      * destruct Hok as [Hok|(c & Hc & Ht)]; [left; rewrite Hok; apply Hs; set_solver|].
        right. exists c. split; [congruence|done].
  - split; [eapply same_but_mono; [|done]; set_solver|]. left. apply Hs. set_solver.
Qed.

Lemma write_temp_spec tmp text w w' res :
  write_temp tmp text w = (w', res) →
  same_but [tmp] w w' ∧ (res = Ok tt → files w' tmp = Some text).
Proof.
  unfold write_temp. destruct (fs_write tmp "" w) as [w1 ok1] eqn:E1.
  apply fs_write_spec in E1 as [Hs1 _]. destruct ok1; cbn; [|by intros [= <- <-]].
  destruct (fs_write tmp text w1) as [w2 ok2] eqn:E2. apply fs_write_spec in E2 as [Hs2 H2].
  assert (same_but [tmp] w w2) as Hs by (by eapply same_but_trans).
  destruct ok2; cbn; [|by intros [= <- <-]]. intros [= <- <-].
  split; [exact Hs|]. by intros _.
Qed.

Lemma commit_spec bak p text w w' res :
  is_file_path p → backs_up p bak w → commit bak p text w = (w', res) →
  same_but [p; tmp_path p] w w'
  ∧ match res with
    | Ok p' => p' = p ∧ files w' p = Some text
    | Err _ => kept p w w'
    end.
Proof.
  intros Hp Hb. pose proof (transaction_names p Hp) as (Hbp & Htp & Hbt). unfold commit.
  destruct (write_temp _ _ _) as [w1 res1] eqn:E1. apply write_temp_spec in E1 as [Hs1 H1].
  destruct res1 as [[]|e].
  - destruct (fs_rename (tmp_path p) p w1) as [w2 ok] eqn:E2.
    apply fs_rename_spec in E2 as [Hs2 H2]; [|done]. destruct ok; intros [= <- <-].
    + split; [|destruct H2 as [H2 _]; split; [done|by rewrite H2, H1]].
      eapply same_but_trans; (eapply same_but_mono; [|done]; set_solver).
    + apply restore_spec; [done|done|]. eapply same_but_trans; [exact Hs1|].
      intros q Hq. rewrite (fs_remove_same _ _ q Hq). by rewrite H2.
  - intros [= <- <-]. split; [eapply same_but_mono; [|done]; set_solver|].
    left. apply Hs1. set_solver.
Qed.

Lemma replace_policy_spec bak p raw r w w' res :
  is_file_path p → backs_up p bak w → replace_policy toml_from_str bak p raw r w = (w', res) →
  same_but [p; tmp_path p] w w'
  ∧ match res with
    | Ok p' => p' = p ∧ ∃ text, edited_text raw p r = Ok text ∧ valid_layer text
                                ∧ files w' p = Some text
    | Err _ => kept p w w'
    end.
Proof.
  intros Hp Hb. unfold replace_policy.
  destruct (edited_text raw p r) as [text|e]; [|intros [= <- <-]; split; [apply same_but_refl|by left]].
  destruct (toml_from_str text) as [layer|err] eqn:Et.
  - intros [Hs H]%commit_spec; [|done..]. split; [done|]. destruct res; [|done].
    destruct H as [-> H]. split; [done|]. exists text. by rewrite Et.
  - intros [= <- <-]. apply restore_spec; [done|done|apply same_but_refl].
Qed.

Lemma make_parent_same p w w' ok : make_parent p w = (w', ok) → files w' = files w.
Proof.
  unfold make_parent. destruct (parent p) as [dir|]; [|by intros [= <- <-]].
  destruct (_ && _); by intros [= <- <-].
Qed.

Lemma make_backup_spec p w w' bak ok :
  is_file_path p → make_backup p w = (w', bak, ok) →
  same_but [bak_path p] w w' ∧ (ok = true → backs_up p bak w').
Proof.
  intros (Hbp & _ & _)%transaction_names. unfold make_backup, exists_file. case_bool_decide as Hex.
  - destruct (fs_copy _ _ _) as [w1 ok1] eqn:E. intros [= <- <- <-].
    apply fs_copy_spec in E as [Hs H]. split; [done|]. intros ->. destruct H as [H Hsome].
    assert (files w1 p = files w p) as Hw by (apply Hs; set_solver).
    split_and!; [done|congruence|by rewrite Hw].
  - intros [= <- <- <-]. split; [apply same_but_refl|]. intros _. cbn.
    destruct (files w p); [by destruct Hex|done].
Qed.

Lemma read_policy_spec p w w' raw :
  read_policy p w = (w', raw) →
  files w' = files w ∧ ∀ t, raw = Some t → t = default PROJECT_HEADER (files w p).
Proof.
  unfold read_policy, exists_file, fs_read_to_string. case_bool_decide as Hex.
  - intros [= <- <-]. split; [done|]. intros t. destruct (fault (ops w)); [|done..].
    by intros ->.
  - intros [= <- <-]. split; [done|]. intros t [= <-]. destruct (files w p); [by destruct Hex|done].
Qed.

(** Up to the point where the new text replaces the old one, only the backup
    was written. *)
Lemma apply_steps r global custom w w' res p :
  resolve_target_file w global custom = Ok p → is_file_path p →
  apply_with_quota_atomic toml_from_str r global custom w = (w', res) →
  (∃ e, res = Err e ∧ same_but [bak_path p] w w')
  ∨ ∃ bak w3, backs_up p bak w3 ∧ same_but [bak_path p] w w3
      ∧ replace_policy toml_from_str bak p (default PROJECT_HEADER (files w p)) r w3 = (w', res).
Proof.
  intros Hres Hp. pose proof (transaction_names p Hp) as (Hbp & _ & _).
  unfold apply_with_quota_atomic. rewrite Hres.
  destruct (make_parent p w) as [w1 ok1] eqn:E1. apply make_parent_same in E1.
  destruct ok1; cbn; [|intros [= <- <-]; left; eexists; split; [done|by intros q _; rewrite E1]].
  destruct (make_backup p w1) as [[w2 bak] ok2] eqn:E2. apply make_backup_spec in E2 as [Hs2 Hb2]; [|done].
  assert (same_but [bak_path p] w w2) as Hs by (intros q Hq; rewrite (Hs2 q Hq); by rewrite E1).
  destruct ok2; cbn; [|intros [= <- <-]; left; by eexists].
  specialize (Hb2 eq_refl). destruct (read_policy p w2) as [w3 raw] eqn:E3.
  apply read_policy_spec in E3 as [E3 Hraw].
  assert (same_but [bak_path p] w w3) as Hs3 by (intros q Hq; rewrite E3; by apply Hs).
  destruct raw as [raw|]; [|intros [= <- <-]; left; by eexists].
  intros H. right. exists bak, w3. split_and!; [by unfold backs_up in *; rewrite E3|done|].
  rewrite (Hraw raw eq_refl), (Hs p) in H by set_solver. done.
Qed.

(** C31: The edit of a policy file is a transaction. Whatever operation fails, no
    file but the policy, its backup and its temporary file changes. When it
    succeeds, the policy holds the printed edit of the text that was read, which
    is a valid policy layer, and the old text is in the backup. When it fails,
    the policy is as it was - or, only when the disk fails half-way through a
    copy of the backup over it, a beginning of its old text. *)
Theorem edit_is_transactional r global custom w w' res p :
  resolve_target_file w global custom = Ok p → is_file_path p →
  apply_with_quota_atomic toml_from_str r global custom w = (w', res) →
  same_but [p; bak_path p; tmp_path p] w w'
  ∧ match res with
    | Ok p' => p' = p ∧ ∃ text,
        edited_text (default PROJECT_HEADER (files w p)) p r = Ok text ∧ valid_layer text
        ∧ files w' p = Some text
        ∧ (is_Some (files w p) → files w' (bak_path p) = files w p)
    | Err _ => kept p w w'
    end.
Proof.
  intros Hres Hp H. pose proof (transaction_names p Hp) as (Hbp & Htp & Hbt).
  apply (apply_steps _ _ _ _ _ _ p) in H as [(e & -> & Hs)|(bak & w3 & Hb & Hs & H)]; [| |done..].
  { split; [by eapply same_but_mono; [|exact Hs]; set_solver|]. left. apply Hs. set_solver. }
  assert (files w3 p = files w p) as Hw3 by (apply Hs; set_solver).
  apply replace_policy_spec in H as [Hs4 H]; [|done..]. split.
  { eapply same_but_trans; (eapply same_but_mono; [|done]; set_solver). }
  destruct res as [p'|e].
  - destruct H as (-> & text & Ht & Hv & Hf). split; [done|]. exists text.
    split_and!; [done|done|done|]. intros Hsome. rewrite (Hs4 (bak_path p)) by set_solver.
    destruct bak as [b|]; cbn in Hb; [by destruct Hb as (-> & -> & _)|].
    rewrite Hw3 in Hb. rewrite Hb in Hsome. by destruct Hsome.
  - destruct H as [H|(c & Hc & Ht)]; [left; congruence|right]. exists c. split; [congruence|done].
Qed.
End ApplyFacts.

Section CommandFacts.
Context `{TE : TomlEdit} `{EH : EditHost}.
Variable toml_from_str : string → result string RawLayer.

(** The file is absent or its text is a policy layer: what [toml::from_str::<RawLayer>]
    accepts. *)
Definition parses (p : path) (w : World) : Prop :=
  match files w p with Some text => is_ok (toml_from_str text) = true | None => True end.

(** The files a command with these options may edit. *)
Definition policy_files (global : bool) (custom : option path) : list path :=
  if global
  then match home_dir with
       | Some home => [push (push home (components ".vetto")) (components "config.toml")]
       | None => []
       end
  else match custom with
       | Some p => [p]
       | None => [dot_vetto_policy; components "policy.toml"; components "vetto.toml"]
       end.

Lemma resolve_policy_files w global custom p :
  resolve_target_file w global custom = Ok p → p ∈ policy_files global custom.
Proof.
  unfold resolve_target_file, policy_files. destruct global.
  - destruct home_dir as [home|]; [|done]. intros [= <-]. left.
  - destruct custom as [c|]; [intros [= <-]; left|].
    destruct (exists_file w dot_vetto_policy); [intros [= <-]; left|].
    destruct (exists_file w (components "policy.toml")); [intros [= <-]; right; left|].
    destruct (exists_file w (components "vetto.toml")); [intros [= <-]; right; right; left|].
    destruct (dir_exists dot_vetto); intros [= <-]; [left|right; right; left].
Qed.

(** The backup and the temporary file of one are none of the others. *)
Lemma policy_files_apart global custom p q :
  p ∈ policy_files global custom → q ∈ policy_files global custom → is_file_path p → q ≠ p →
  q ∉ [p; bak_path p; tmp_path p].
Proof.
  intros Hp Hq Hf Hne. assert (q ≠ bak_path p ∧ q ≠ tmp_path p) as [? ?]; [|set_solver].
  unfold policy_files in Hp, Hq. destruct global; [destruct home_dir; set_solver|].
  destruct custom; [set_solver|]. destruct Hf as (Hok & r & n & ->). rewrite bak_shape, tmp_shape by done.
  assert (∃ r' m, q = r' ++ [Normal m] ∧ (String.length m ≤ 11)%nat) as (r' & m & -> & Hm).
  { repeat (apply elem_of_cons in Hq as [->|Hq]); [exists [Normal ".vetto"], "policy.toml"
      |exists [], "policy.toml"|exists [], "vetto.toml"|by apply elem_of_nil in Hq]; split; [reflexivity|cbn; lia
      |reflexivity|cbn; lia|reflexivity|cbn; lia]. }
  assert (10 ≤ String.length n)%nat as Hn.
  { repeat (apply elem_of_cons in Hp as [Hp|Hp]); [| | |by apply elem_of_nil in Hp].
    - change dot_vetto_policy with ([Normal ".vetto"] ++ [Normal "policy.toml"]) in Hp.
      apply app_inj_tail in Hp as [_ [= ->]]. cbn. lia.
    - change (components "policy.toml") with ([] ++ [Normal "policy.toml"]) in Hp.
      apply app_inj_tail in Hp as [_ [= ->]]. cbn. lia.
    - change (components "vetto.toml") with ([] ++ [Normal "vetto.toml"]) in Hp.
      apply app_inj_tail in Hp as [_ [= ->]]. cbn. lia. }
  split; intros [_ [= E]]%app_inj_tail; apply (f_equal String.length) in E;
    cbn in E; rewrite !string_length_app in E; cbn in E; lia.
Qed.

Lemma apply_parses r global custom w w' res :
  (∀ k n, fault k ≠ FailsAfter n) → (∀ p, p ∈ policy_files global custom → is_file_path p) →
  apply_with_quota_atomic toml_from_str r global custom w = (w', res) →
  (∀ p, p ∈ policy_files global custom → parses p w) → ∀ p, p ∈ policy_files global custom → parses p w'.
Proof.
  intros Hf Hfiles H Hl p Hin. pose proof (Hl p Hin) as Hlp. unfold parses in *.
  destruct (resolve_target_file w global custom) as [t|e] eqn:Et.
  2: { unfold apply_with_quota_atomic in H. rewrite Et in H. by injection H as <- _. }
  pose proof (resolve_policy_files _ _ _ _ Et) as Ht. pose proof (Hfiles t Ht) as Hft.
  destruct (decide (p = t)) as [->|Hne].
  - pose proof (transaction_names t Hft) as (? & ? & ?).
    apply (apply_steps _ _ _ _ _ _ _ t) in H as [(e & _ & Hs)|(bak & w3 & Hb & Hs & H)]; [| |done..].
    { by rewrite (Hs t) by set_solver. }
    rewrite <-(Hs t) in Hlp by set_solver.
    apply replace_policy_spec in H as [_ H]; [|done..]. destruct res as [p'|e].
    + destruct H as (_ & text & _ & Hv & ->). done.
    + destruct H as [->|(c & _ & k & n & Hk & _)]; [exact Hlp|]. by destruct (Hf k n).
  - pose proof (policy_files_apart _ _ _ _ Ht Hin Hft Hne) as Hap.
    apply (apply_steps _ _ _ _ _ _ _ t) in H as [(e & _ & Hs)|(bak & w3 & Hb & Hs & H)]; [| |done..].
    { by rewrite (Hs p) by set_solver. }
    apply replace_policy_spec in H as [Hs' _]; [|done..]. by rewrite (Hs' p), (Hs p) by set_solver.
Qed.

(** C32: No command line leaves a policy file that is not TOML of a policy layer: as
    long as writes fail cleanly (no half-written copy) and the files the options may
    pick - the user's configuration, the named file, or the project's three candidates -
    have plain names, [vetto deny] with any arguments (a preset of many entries
    included, however many of them succeed before a failure) and [vetto allow] leave
    every such file absent or deserialisable as a layer, if it was so before.  The
    later checks of the loader are not part of this. *)
Theorem commands_keep_policy_parsing target preset quota read_only glob net cidr global custom w :
  (∀ k n, fault k ≠ FailsAfter n) → (∀ p, p ∈ policy_files global custom → is_file_path p) →
  (∀ p, p ∈ policy_files global custom → parses p w) →
  ∀ p, p ∈ policy_files global custom →
    parses p (run_deny_command toml_from_str target preset glob net global custom w).1
    ∧ parses p (run_allow_command toml_from_str target preset quota read_only net cidr global custom w).1.
Proof.
  intros Hf Hfiles Hl p Hp. split.
  - unfold run_deny_command. generalize (run_deny target preset glob net). intros rs. revert w Hl.
    induction rs as [|[r|e] rs IH]; intros w Hl; cbn [apply_all]; [by apply Hl| |by apply Hl].
    destruct (apply_with_quota_atomic toml_from_str r global custom w) as [w1 res1] eqn:E.
    pose proof (apply_parses _ _ _ _ _ _ Hf Hfiles E Hl) as H1.
    destruct res1; [by apply IH|by apply H1].
  - unfold run_allow_command. destruct (run_allow _ _ _ _ _ _) as [r|e]; [|by apply Hl].
    destruct (apply_with_quota_atomic toml_from_str r global custom w) as [w1 res1] eqn:E. cbn.
    by eapply apply_parses.
Qed.
End CommandFacts.

(** ** A concrete document library and disk *)

Inductive DemoItem : Type :=
| DTable (t : list (string * DemoItem)) | DString (s : string) | DArray (a : list (option string))
| DInline (i : list (string * string)).
Inductive DemoValue : Type := VString (s : string) | VArray (a : list (option string)).

Fixpoint assoc {A} (t : list (string * A)) (k : string) : option A :=
  match t with [] => None | (k', i) :: t => if String.eqb k' k then Some i else assoc t k end.
Fixpoint upsert {A} (t : list (string * A)) (k : string) (i : A) : list (string * A) :=
  match t with
  | [] => [(k, i)]
  | (k', j) :: t => if String.eqb k' k then (k', i) :: t else (k', j) :: upsert t k i
  end.

Definition demo_texts (i : DemoItem) : list string :=
  match i with DArray a => omap id a | DString s => [s] | _ => [] end.
Definition demo_print (t : list (string * DemoItem)) : string :=
  join_with newline (concat ((λ s, match s.2 with
    | DTable inner => ("[" +:+ s.1 +:+ "]")
                      :: ((λ e, e.1 +:+ " = " +:+ join_with "," (demo_texts e.2)) <$> inner)
    | _ => []
    end) <$> t)).

#[export] Instance demo_toml : TomlEdit := {|
  Tbl := list (string * DemoItem); Item := DemoItem; Value := DemoValue;
  Arr := list (option string); Inline := list (string * string);
  parse_doc text := if contains text "[[" then Err "unexpected [[" else Ok [];
  doc_text := demo_print;
  empty_table := []; table_get := assoc; table_insert := upsert;
  of_table := DTable; as_table i := match i with DTable t => Some t | _ => None end;
  of_value v := match v with VString s => DString s | VArray a => DArray a end;
  as_value i := match i with DString s => Some (VString s) | DArray a => Some (VArray a) | _ => None end;
  of_array := VArray; as_array v := match v with VArray a => Some a | _ => None end;
  of_inline := DInline; as_inline_table i := match i with DInline t => Some t | _ => None end;
  inline_insert := upsert;
  empty_array := []; array_strs a := a; array_push a s := a ++ [Some s];
  of_str := DString; as_str i := match i with DString s => Some s | _ => None end;
|}.

Lemma assoc_upsert {A} (t : list (string * A)) k i : assoc (upsert t k i) k = Some i.
Proof.
  induction t as [|[k' j] t IH]; cbn; [by rewrite String.eqb_refl|].
  destruct (String.eqb k' k) eqn:E; cbn; by rewrite E.
Qed.
Lemma assoc_upsert_ne {A} (t : list (string * A)) k k' i : k ≠ k' → assoc (upsert t k i) k' = assoc t k'.
Proof.
  intros Hk. induction t as [|[k0 j] t IH]; cbn; [by destruct (String.eqb_spec k k')|].
  destruct (String.eqb_spec k0 k) as [->|]; cbn; [by destruct (String.eqb_spec k k')|by rewrite IH].
Qed.
Lemma upsert_same {A} (t : list (string * A)) k i : assoc t k = Some i → upsert t k i = t.
Proof.
  induction t as [|[k' j] t IH]; cbn; [done|].
  destruct (String.eqb k' k); [by intros [= ->]|]. intros H. by rewrite IH.
Qed.

#[export] Instance demo_toml_laws : TomlLaws.
Proof.
  split; cbn; try done.
  - intros. apply assoc_upsert.
  - intros. by apply assoc_upsert_ne.
  - intros. by apply upsert_same.
  - intros i x H. by destruct i; simplify_eq.
  - intros v. by destruct v.
  - intros i x H. by destruct i; simplify_eq.
  - intros v x H. by destruct v; simplify_eq.
Qed.

(** A host whose operations meet the given faults, first to last. *)
Definition demo_host (faults : list IoFault) : EditHost := {|
  home_dir := Some (components "/home/u"); dir_exists := λ _, true; pid := 7;
  fault := λ k, nth k faults Works; io_text := λ _, "I/O error"; |}.

Definition demo_disk (text : string) : World :=
  mk_world (λ q, if decide (q = components "vetto.toml") then Some text else None) 0.
Definition demo_request_p : Request := mk_request Deny "$HOME/.ssh" None.
Definition demo_load (text : string) : result string RawLayer :=
  if contains text ".ssh" then Ok no_layer else Err "missing field".

Lemma edit_document_spec_witness :
  ∃ doc', edit_document (TE := demo_toml) [] Net "a.b" = Ok (doc', true)
          ∧ edit_document (TE := demo_toml) doc' Net "a.b" = Ok (doc', false).
Proof.
  eexists. split; [reflexivity|].
  refine (proj2 (proj2 (proj2 (proj2 (edit_document_spec (TE := demo_toml) [] Net "a.b" _ true eq_refl))))).
Defined.

Definition demo_applied (faults : list IoFault) (r : Request) : World * result AnyError path :=
  apply_with_quota_atomic (EH := demo_host faults) demo_load r false None (demo_disk "old").

Lemma vetto_toml_is_file : is_file_path (components "vetto.toml").
Proof. split; [reflexivity|]. by exists [], "vetto.toml". Qed.

Lemma edit_is_transactional_witness :
  is_ok (demo_applied [] demo_request_p).2 = true
  ∧ files (demo_applied [] demo_request_p).1 (bak_path (components "vetto.toml")) = Some "old".
Proof.
  split; [vm_compute; reflexivity|].
  destruct (demo_applied [] demo_request_p) as [w' res] eqn:E.
  pose proof (edit_is_transactional (EH := demo_host []) demo_load demo_request_p false None
    (demo_disk "old") w' res (components "vetto.toml") eq_refl vetto_toml_is_file E) as [_ H].
  destruct res as [p'|e]; [|by vm_compute in E].
  destruct H as (_ & text & _ & _ & _ & H). apply H. by exists "old".
Defined.

Lemma commands_keep_policy_parsing_witness :
  parses demo_load (components "vetto.toml")
    (run_deny_command (EH := demo_host []) demo_load None (Some "ssh") false false false None
       (demo_disk "x.ssh")).1.
Proof.
  refine (proj1 (commands_keep_policy_parsing (EH := demo_host []) demo_load None (Some "ssh") None
    false false false false false None (demo_disk "x.ssh") _ _ _ (components "vetto.toml") _)).
  - intros k n. cbn. by destruct k.
  - intros p Hp. unfold policy_files in Hp.
    repeat (apply elem_of_cons in Hp as [->|Hp]; [split; [reflexivity|]|]).
    + by exists [Normal ".vetto"], "policy.toml".
    + by exists [], "policy.toml".
    + by exists [], "vetto.toml".
    + exfalso. revert Hp. apply not_elem_of_nil.
  - intros p Hp. unfold policy_files in Hp.
    repeat (apply elem_of_cons in Hp as [->|Hp]; [vm_compute; first [reflexivity | exact I]|]).
    exfalso. revert Hp. apply not_elem_of_nil.
  - right. right. left.
Defined.

(** ** What the transaction risks *)

(** When the edited text is not a valid layer, the policy file - which was not
    touched yet - is overwritten from its backup; a disk error there empties
    it. *)
Lemma restore_may_empty_the_policy :
  let w := demo_applied [Works; Works; FailsAfter 0] (mk_request Deny "/x" None) in
  is_ok w.2 = false ∧ files w.1 (components "vetto.toml") = Some "".
Proof. vm_compute. split; reflexivity. Qed.

(** A read-write grant is written to one array only. *)
Lemma read_write_grant_skips_allow_read doc t doc' added :
  edit_document (TE := demo_toml) doc FsReadWrite t = Ok (doc', added) →
  item_at (TE := demo_toml) doc' "filesystem" "allow_read"
  = item_at (TE := demo_toml) doc "filesystem" "allow_read".
Proof.
  intros H. apply edit_document_shape in H as (inner & a & inner' & Hi & _ & _ & -> & ->).
  rewrite item_at_insert, Hi. apply get_insert_ne. done.
Qed.
