(* ===== verification/LimitsSpec.v ===== *)
(** * LimitsSpec: the [--limits] option

    Model of [src/src/policy/limits_spec.rs]: the [key=value] pairs, their
    values, and the strictest-wins application to a loaded policy.
    [display_f64] is the [Display] of [f64] (the standard library's shortest
    decimal form), used to write a percentage back. *)

From S2P Require Import Prelude Float64 PolicyTypes Termination Schema Merge.

Definition VALID_KEYS : string :=
  "cpu, as, mem, memory, procs, pids, nofile, fsize, max_iops, max_bandwidth, cpu_max, "
  +:+ "cpu_percent".

Definition BYTE_SUFFIX_DOC : string :=
  "byte values accept a plain integer or an integer with a case-insensitive suffix k/m/g/t "
  +:+ "(1024-based binary), kib/mib/gib/tib (1024-based binary), or kb/mb/gb/tb (1000-based "
  +:+ "decimal)".

Inductive LimitKey : Type :=
| Cpu | AddressSpace | Processes | OpenFiles | FileSize | MaxIops | MaxBandwidth | CpuMax.
#[export] Instance LimitKey_eq_dec : EqDecision LimitKey.
Proof. solve_decision. Defined.

Definition from_name (name : string) : option LimitKey :=
  match_arms name [
    (["cpu"], Cpu); (["as"; "mem"; "memory"], AddressSpace); (["procs"; "pids"], Processes);
    (["nofile"], OpenFiles); (["fsize"], FileSize); (["max_iops"; "iops"], MaxIops);
    (["max_bandwidth"; "bandwidth"; "max_bw"; "bw"], MaxBandwidth);
    (["cpu_max"; "cpu_percent"; "cpu_pct"], CpuMax)].

Definition is_bytes (k : LimitKey) : bool :=
  match k with AddressSpace | FileSize | MaxBandwidth => true | _ => false end.

(** [get_or_insert_with(Default::default)]. *)
Definition io_of (l : ResourceLimits) : IoRateLimit := default (mk_io_rate None None) (io_rate l).

Definition apply_key (k : LimitKey) (l : ResourceLimits) (value : Z) : ResourceLimits :=
  let s := λ current, strictest current (Some value) in
  match k with
  | Cpu => mk_limits (s (cpu_seconds l)) (address_space_bytes l) (processes l) (open_files l)
             (file_size_bytes l) (io_rate l)
  | AddressSpace => mk_limits (cpu_seconds l) (s (address_space_bytes l)) (processes l)
                      (open_files l) (file_size_bytes l) (io_rate l)
  | Processes => mk_limits (cpu_seconds l) (address_space_bytes l) (s (processes l)) (open_files l)
                   (file_size_bytes l) (io_rate l)
  | OpenFiles => mk_limits (cpu_seconds l) (address_space_bytes l) (processes l) (s (open_files l))
                   (file_size_bytes l) (io_rate l)
  | FileSize => mk_limits (cpu_seconds l) (address_space_bytes l) (processes l) (open_files l)
                  (s (file_size_bytes l)) (io_rate l)
  | MaxIops => mk_limits (cpu_seconds l) (address_space_bytes l) (processes l) (open_files l)
                 (file_size_bytes l) (Some (mk_io_rate (s (max_iops (io_of l))) (max_bandwidth (io_of l))))
  | MaxBandwidth => mk_limits (cpu_seconds l) (address_space_bytes l) (processes l) (open_files l)
                      (file_size_bytes l)
                      (Some (mk_io_rate (max_iops (io_of l)) (s (max_bandwidth (io_of l)))))
  | CpuMax => l
  end.

(** ** Values *)

Definition invalid_value (value pair why : string) : AnyError :=
  Untyped ("invalid --limits value '" +:+ value +:+ "' in pair '" +:+ pair +:+ "': " +:+ why).

Definition parse_bytes_error (e : ParseBytesError) : string :=
  match e with
  | EmptyInput => "byte string is empty"
  | InvalidNumber s => "invalid numeric value: '" +:+ s +:+ "'"
  | UnknownUnit s => "unknown unit suffix: '" +:+ s +:+ "'"
  | PolicyTypes.Overflow => "arithmetic overflow calculating byte size"
  end.

Definition parse_value (k : LimitKey) (value pair : string) : result AnyError Z :=
  if is_bytes k then
    match parse_bytes value with
    | Ok v => Ok v
    | Err e => Err (invalid_value value pair (parse_bytes_error e +:+ " (" +:+ BYTE_SUFFIX_DOC +:+ ")"))
    end
  else ok_or (parse_u64 value)
         (invalid_value value pair "expected a plain integer (no suffix)").

Section Values.
Variable display_f64 : f64 → string.

Definition positive_number (s value pair bad zero : string) : result AnyError f64 :=
  num ← ok_or (parse_f64 s) (invalid_value value pair bad);
  if f64_le num (f64_of_Z 0) then Err (invalid_value value pair zero) else Ok num.

Definition parse_cpu_value (value pair : string) : result AnyError string :=
  let s := trim value in
  if is_empty s then Err (invalid_value value pair "empty CPU limit")
  else if eq_ignore_ascii_case s "max" then Ok "max"
  else match strip_suffix "%" s with
  | Some pct_str =>
      num ← positive_number (trim pct_str) value pair "invalid CPU percentage"
              "CPU percentage must be > 0";
      Ok (display_f64 num +:+ "%")
  | None =>
      if contains_char s " " then
        match split_whitespace s with
        | [q_str; p_str] =>
            _ ← (if eq_ignore_ascii_case q_str "max" then Ok (f64_of_Z 1)
                 else positive_number q_str value pair "invalid quota" "quota must be > 0");
            _ ← positive_number p_str value pair "invalid period" "period must be > 0";
            Ok (q_str +:+ " " +:+ p_str)
        | _ :: _ :: _ => Err (invalid_value value pair "too many parts")
        | _ => Err (invalid_value value pair "expected 'quota period'")
        end
      else match parse_f64 s with
           | Some num =>
               if f64_le num (f64_of_Z 0)
               then Err (invalid_value value pair "CPU limit must be > 0")
               else Ok (display_f64 num +:+ "%")
           | None => Err (invalid_value value pair
               "expected a percentage (e.g. 50%), quota/period, or 'max'")
           end
  end.

(** ** Pairs *)

Definition empty_pair (position : Z) (spec : string) : AnyError :=
  Untyped ("invalid --limits entry at position " +:+ to_dec position +:+ " in '" +:+ spec
           +:+ "': empty pair (expected key=value, e.g. cpu=300,as=4g)").
Definition no_equals (pair : string) : AnyError :=
  Untyped ("invalid --limits entry '" +:+ pair +:+ "' (expected key=value); valid keys: "
           +:+ VALID_KEYS).
Definition unknown_key (key pair : string) : AnyError :=
  Untyped ("unknown --limits key '" +:+ key +:+ "' in pair '" +:+ pair +:+ "'; valid keys: "
           +:+ VALID_KEYS).
Definition no_pairs : AnyError :=
  Untyped ("--limits requires at least one key=value pair (valid keys: " +:+ VALID_KEYS +:+ ")").

(** What one pair asks for. *)
Inductive Parsed : Type := Ceiling (k : LimitKey) (value : Z) | CpuQuota (quota : string).

Definition parse_pair (spec : string) (position : Z) (raw : string) : result AnyError Parsed :=
  let pair := trim raw in
  if is_empty pair then Err (empty_pair position spec)
  else
    '(name, value) ← ok_or (split_once "=" pair) (no_equals pair);
    let key_name := to_ascii_lowercase (trim name) in
    let value := trim value in
    k ← ok_or (from_name key_name) (unknown_key key_name pair);
    if decide (k = CpuMax) then CpuQuota <$> parse_cpu_value value pair
    else Ceiling k <$> parse_value k value pair.

Definition apply_parsed (acc : ResourceLimits * option string) (p : Parsed) :
  ResourceLimits * option string :=
  match p with
  | Ceiling k v => (apply_key k acc.1 v, acc.2)
  | CpuQuota q => (acc.1, strictest_cpu_max acc.2 (Some q))
  end.

Fixpoint parse_pairs (spec : string) (position : Z) (raws : list string)
    (acc : ResourceLimits * option string) : result AnyError (ResourceLimits * option string) :=
  match raws with
  | [] => Ok acc
  | raw :: raws =>
      p ← parse_pair spec position raw;
      parse_pairs spec (position + 1) raws (apply_parsed acc p)
  end.

Definition parse_spec_with_cpu (spec : string) : result AnyError (ResourceLimits * option string) :=
  if is_empty (trim spec) then Err no_pairs
  else parse_pairs spec 1 (split_char "," spec) (default_limits, None).

Definition parse_spec (spec : string) : result AnyError ResourceLimits :=
  '(limits, _) ← parse_spec_with_cpu spec; Ok limits.

Definition with_limits (p : Policy) (l : ResourceLimits) (cpu : option string)
    (cg : option CgroupConfig) : Policy :=
  {| policy_name := policy_name p; metadata := metadata p; limits := l;
     allow_write := allow_write p; allow_read := allow_read p; deny_write := deny_write p;
     deny_read := deny_read p; deny_resolved := deny_resolved p; environment := environment p;
     deny_network := deny_network p; network_mode := network_mode p;
     network_allow := network_allow p; allow_cidr := allow_cidr p; net_quota := net_quota p;
     net_bind_ports := net_bind_ports p; net_connect_ports := net_connect_ports p;
     allow_unix_sockets := allow_unix_sockets p; deny_unix_sockets := deny_unix_sockets p;
     seccomp_profile := seccomp_profile p; seccomp_notify := seccomp_notify p;
     cgroup := cg; cpu_max := cpu; io_priority := io_priority p;
     dev_allow := dev_allow p; oslog := oslog p; lpac := lpac p; is_immutable := is_immutable p;
     system_log := system_log p; auto_deny_secrets := auto_deny_secrets p;
     secret_proxies := secret_proxies p; ro_mounts := ro_mounts p; git_guard := git_guard p;
     snapshot := snapshot p; read_only_caches := read_only_caches p; shadow := shadow p;
     tmpfs_tmp := tmpfs_tmp p; warnings := warnings p |}.

Definition cap_cgroup (cpu : option string) (c : CgroupConfig) : CgroupConfig :=
  mk_cgroup (memory_max c) (pids_max c) (swap_max c) (apply_cpu_max (cgroup_cpu_max c) cpu).

Definition apply_cli (p : Policy) (spec : string) : result AnyError Policy :=
  '(limits', cpu) ← parse_spec_with_cpu spec;
  Ok (with_limits p (limits_merge_strictest (limits p) limits') (apply_cpu_max (cpu_max p) cpu)
        (cap_cgroup cpu <$> cgroup p)).
End Values.

(** ** Lemmas *)

Definition field_of (k : LimitKey) (l : ResourceLimits) : option Z :=
  match k with
  | Cpu => cpu_seconds l
  | AddressSpace => address_space_bytes l
  | Processes => processes l
  | OpenFiles => open_files l
  | FileSize => file_size_bytes l
  | MaxIops => io_rate l ≫= max_iops
  | MaxBandwidth => io_rate l ≫= max_bandwidth
  | CpuMax => None
  end.

Lemma field_apply_same k l v :
  k ≠ CpuMax → field_of k (apply_key k l v) = strictest (field_of k l) (Some v).
Proof.
  intros Hk. destruct k; cbn; try done; unfold io_of; by destruct (io_rate l) as [[]|].
Qed.

Lemma field_apply_other k k' l v : k ≠ k' → field_of k (apply_key k' l v) = field_of k l.
Proof.
  intros Hk. destruct k, k'; cbn; try done; unfold io_of; by destruct (io_rate l) as [[]|].
Qed.

(** The ceilings of a list of parsed pairs for one key. *)
Definition values_of (k : LimitKey) (ps : list Parsed) : list Z :=
  omap (λ p, match p with Ceiling k' v => if decide (k' = k) then Some v else None
                        | CpuQuota _ => None end) ps.

Definition min_of (start : option Z) (vs : list Z) : option Z :=
  foldl (λ acc v, strictest acc (Some v)) start vs.

Lemma field_apply_all k ps acc :
  k ≠ CpuMax →
  field_of k (foldl apply_parsed acc ps).1 = min_of (field_of k acc.1) (values_of k ps).
Proof.
  intros Hk. revert acc. induction ps as [|p ps IH]; intros acc; [done|].
  cbn [foldl]. rewrite IH. destruct p as [k' v|q]; cbn; [|done].
  destruct (decide (k' = k)) as [->|Hne]; cbn.
  - by rewrite field_apply_same.
  - by rewrite field_apply_other.
Qed.

Lemma min_of_spec start vs :
  (∀ v, v ∈ vs → tighter (min_of start vs) (Some v)) ∧ tighter (min_of start vs) start
  ∧ (min_of start vs = start ∨ ∃ v, v ∈ vs ∧ min_of start vs = Some v).
Proof.
  revert start. induction vs as [|v vs IH]; intros start; cbn [min_of foldl].
  - split_and!; [by intros v ?%elem_of_nil|apply tighter_refl|by left].
  - fold (min_of (strictest start (Some v)) vs).
    destruct (IH (strictest start (Some v))) as (H1 & H2 & H3). split_and!.
    + intros w [->|Hw]%elem_of_cons; [|by apply H1].
      eapply tighter_trans; [exact H2|]. rewrite strictest_comm. apply strictest_tighter.
    + eapply tighter_trans; [exact H2|]. apply strictest_tighter.
    + destruct H3 as [->|(w & Hw & ->)].
      * destruct start as [s|]; cbn; [|right; exists v; split; [by left|done]].
        destruct (Z.min_spec s v) as [[_ ->]|[_ ->]]; [by left|].
        right. exists v. split; [by left|done].
      * right. exists w. split; [by right|done].
Qed.

Section Facts.
Context (display_f64 : f64 → string).

Lemma parse_pairs_ok spec pos raws acc r :
  parse_pairs display_f64 spec pos raws acc = Ok r →
  ∃ ps, r = foldl apply_parsed acc ps
    ∧ Forall2 (λ raw p, ∃ i, parse_pair display_f64 spec i raw = Ok p) raws ps.
Proof.
  revert pos acc. induction raws as [|raw raws IH]; intros pos acc; cbn [parse_pairs].
  - intros [= <-]. exists []. split; [done|constructor].
  - intros (p & Hp & (ps & -> & Hps)%IH)%result_bind_ok. exists (p :: ps).
    split; [done|]. constructor; [by exists pos|done].
Qed.

(** The [--limits] option drops nothing and invents nothing: when it parses,
    every comma-separated entry is a pair that parses, and each ceiling of the
    result is exactly the smallest value given for its key (none when the key
    is absent). *)
Theorem parse_spec_strictest spec l c :
  parse_spec_with_cpu display_f64 spec = Ok (l, c) →
  ∃ ps, Forall2 (λ raw p, ∃ i, parse_pair display_f64 spec i raw = Ok p) (split_char "," spec) ps
    ∧ ∀ k, k ≠ CpuMax →
        (∀ v, v ∈ values_of k ps → tighter (field_of k l) (Some v))
        ∧ (field_of k l = None ∨ ∃ v, v ∈ values_of k ps ∧ field_of k l = Some v)
        ∧ (values_of k ps = [] → field_of k l = None).
Proof.
  unfold parse_spec_with_cpu. destruct (is_empty _); [done|].
  intros (ps & Hr & Hps)%parse_pairs_ok. exists ps. split; [done|]. intros k Hk.
  assert (field_of k l = min_of None (values_of k ps)) as ->.
  { pose proof (field_apply_all k ps (default_limits, None) Hk) as Hf. rewrite <-Hr in Hf. cbn in Hf.
    rewrite Hf. by destruct k. }
  destruct (min_of_spec None (values_of k ps)) as (H1 & _ & H2). split_and!; [done|done|].
  by intros ->.
Qed.

(** The [--limits] option never loosens a policy: when it applies, every
    resource limit stays at least as tight, the CPU quotas of the policy and of
    its cgroup become the strictest of the old and the given one, and nothing
    else of the policy changes. *)
Theorem apply_cli_tightens p spec p' :
  apply_cli display_f64 p spec = Ok p' →
  limits_tighter (limits p') (limits p)
  ∧ p' = with_limits p (limits p') (cpu_max p') (cgroup p')
  ∧ ∃ cpu, cpu_max p' = apply_cpu_max (cpu_max p) cpu ∧ cgroup p' = cap_cgroup cpu <$> cgroup p.
Proof.
  unfold apply_cli. intros ([l q] & _ & [= <-])%result_bind_ok.
  split_and!; [apply limits_merge_tighter|done|by exists q].
Qed.
End Facts.

(** ** A concrete instance *)

(** [Display] on the values of the examples. *)
Definition demo_display (x : f64) : string :=
  match x with SpecFloat.S754_nan => "NaN" | _ => "50" end.

Definition demo_limits : ResourceLimits :=
  mk_limits (Some 60) (Some 4000000000) None None None (Some (mk_io_rate (Some 100) None)).
Definition demo_spec : string := "cpu=300, cpu=60,as=4g,iops=100,cpu_max=50%".

Lemma demo_spec_parses :
  parse_spec_with_cpu demo_display demo_spec = Ok (demo_limits, Some "50%").
Proof. vm_compute. reflexivity. Qed.

Lemma parse_spec_strictest_witness :
  parse_spec_with_cpu demo_display demo_spec = Ok (demo_limits, Some "50%")
  ∧ (field_of Cpu demo_limits = None ∨ ∃ v, field_of Cpu demo_limits = Some v).
Proof.
  split; [exact demo_spec_parses|].
  destruct (parse_spec_strictest demo_display demo_spec demo_limits (Some "50%") demo_spec_parses)
    as (ps & _ & Hk).
  destruct (Hk Cpu ltac:(discriminate)) as (_ & [Hn|(v & _ & Hv)] & _); [by left|right; by exists v].
Defined.

Definition demo_base : Policy :=
  with_limits default_policy default_limits (Some "80%") (Some (mk_cgroup None None None None)).
Definition demo_capped : Policy :=
  with_limits default_policy demo_limits (Some "50%") (Some (mk_cgroup None None None (Some "50%"))).

Lemma demo_cli_ok : apply_cli demo_display demo_base demo_spec = Ok demo_capped.
Proof. vm_compute. reflexivity. Qed.

Lemma apply_cli_tightens_witness :
  apply_cli demo_display demo_base demo_spec = Ok demo_capped
  ∧ limits_tighter (limits demo_capped) (limits demo_base).
Proof.
  split; [exact demo_cli_ok|].
  exact (proj1 (apply_cli_tightens demo_display demo_base demo_spec demo_capped demo_cli_ok)).
Defined.

(** ** What the checks miss *)

(** [NaN] is not at most zero, so it passes for a positive percentage, and the
    comparison of the merge then prefers it to every real quota. *)
Lemma nan_quota_wins :
  parse_cpu_value demo_display "NaN%" "cpu_max=NaN%" = Ok "NaN%"
  ∧ strictest_cpu_max (Some "50%") (Some "NaN%") = Some "NaN%"
  ∧ parse_cpu_max "NaN%" = Some "0 100000".
Proof. split_and!; vm_compute; reflexivity. Qed.
