(* ===== verification/Globs.v ===== *)
(** * Globs: policy entries become paths, and the post-load checks

    Model of [src/src/policy/glob_resolve.rs] (variables, glob expansion,
    secret shapes) and of [src/src/policy/checker.rs] (the checks after
    loading).  The file system, the environment and the glob crate are the
    operations of the class [LoadHost]. *)

From S2P Require Import Prelude Paths PolicyTypes Termination Schema Merge.

(** ** The host *)

Inductive FileKind : Type := KindDir | KindFile | KindSymlink | KindOther.
#[export] Instance FileKind_eq_dec : EqDecision FileKind.
Proof. solve_decision. Defined.

Class LoadHost : Type := {
  (** [fs::canonicalize], [fs::symlink_metadata]; [Path::exists], [is_file] and
      [is_dir], which follow links; [fs::read_dir] (each entry or its error),
      [fs::read_to_string] *)
  host_canonicalize : path → option path;
  host_kind : path → result string FileKind;
  host_exists : path → bool;
  host_is_file : path → bool;
  host_is_dir : path → bool;
  host_read_dir : path → result string (list (result string path));
  host_read_to_string : path → result string string;
  (** [glob::glob_with], the readable matches in order ([[]] for a bad pattern) *)
  host_glob : string → list path;
  (** [env::var_os], [env::current_dir], [getuid] *)
  host_env : string → option string;
  host_cwd : option path;
  host_uid : Z;
}.

(** ** Variables *)

Record Vars : Type := mk_vars {
  project : path;
  home : path;
  runtime_dir : option path;
}.

(** [str::replace]: leftmost occurrences, none overlapping.  [fuel] bounds the
    scan by the length of the string. *)
Fixpoint replace_fuel (fuel : nat) (needle repl s : string) : string :=
  match fuel, s with
  | S fuel, String c s' =>
      match strip_prefix needle s with
      | Some rest => repl +:+ replace_fuel fuel needle repl rest
      | None => String c (replace_fuel fuel needle repl s')
      end
  | _, _ => s
  end.
Definition replace (needle repl s : string) : string :=
  replace_fuel (String.length s) needle repl s.

Definition substitute_with_agent (entry : string) (vars : Vars) (agent : option path) : path :=
  let s := replace "$HOME" (to_str (home vars)) (replace "$PROJECT" (to_str (project vars)) entry) in
  let s := from_option (λ a, replace "$AGENT" (to_str a) s) s agent in
  let s := from_option (λ d, replace "$XDG_RUNTIME_DIR" (to_str d) s) s (runtime_dir vars) in
  components (match strip_prefix "~/" s with
              | Some rest => to_str (home vars) +:+ "/" +:+ rest
              | None => s
              end).

Definition is_glob_char (c : ascii) : bool := Ascii.eqb c "*" || Ascii.eqb c "?" || Ascii.eqb c "[".
Fixpoint any_char (P : ascii → bool) (s : string) : bool :=
  match s with EmptyString => false | String c s => P c || any_char P s end.
Definition has_glob (p : path) : bool := any_char is_glob_char (to_str p).

Definition GLOB_LIMIT : nat := Z.to_nat 50000.

(** ** Secret shapes *)

Definition file_name (p : path) : option string :=
  match last p with Some (Normal n) => Some n | _ => None end.

Definition is_secret_shaped (p : path) : bool :=
  match file_name p with
  | None => false
  | Some name =>
      let lower := to_ascii_lowercase name in
      if String.eqb lower ".env" || starts_with lower ".env." then true
      else if String.eqb lower "config"
              && from_option (λ n, eq_ignore_ascii_case n ".git") false (parent p ≫= file_name)
      then true
      else ends_with lower ".pem" || ends_with lower ".key" || ends_with lower ".p12"
           || ends_with lower ".pfx" || ends_with lower ".kdbx"
  end.

Section Host.
Context `{LoadHost}.

(** The project is the home directory or the root. *)
Definition is_home_or_root (vars : Vars) : bool :=
  bool_decide (project vars = home vars) || bool_decide (parent (project vars) = None)
  || match host_canonicalize (project vars), host_canonicalize (home vars) with
     | Some cp, Some ch => bool_decide (cp = ch) || bool_decide (parent cp = None)
     | _, _ => false
     end.

Definition resolve_entry_with_agent (entry : string) (vars : Vars) (agent : option path) :
  list path :=
  let pattern_str :=
    if any_char is_glob_char entry && negb (starts_with entry "/") && negb (starts_with entry "~")
       && negb (starts_with entry "$")
    then "$PROJECT/" +:+ entry else entry in
  let substituted := substitute_with_agent pattern_str vars agent in
  if negb (has_glob substituted) then [substituted]
  else if is_home_or_root vars && (contains entry "**" || contains (to_str substituted) "**")
  then []
  else take GLOB_LIMIT (host_glob (to_str substituted)).

Definition resolve_entry (entry : string) (vars : Vars) : list path :=
  resolve_entry_with_agent entry vars None.

(** ** Checks after loading (checker.rs) *)

Definition home_dir : option path :=
  components <$> match host_env "HOME" with Some h => Some h | None => host_env "USERPROFILE" end.

Definition canonical_or_self (p : path) : path := default p (host_canonicalize p).

Definition dangerous_write (w : path) : AnyError :=
  Untyped ("fail-closed: allow_write includes dangerous system path '" +:+ to_str w
           +:+ "' (exit 125)").
Definition home_write_warning (w : path) : string :=
  "allow_write includes $HOME '" +:+ to_str w +:+ "' " +:+ dash
  +:+ " user files and configuration are mutable".
Definition home_read_warning : string :=
  "allow_read includes $HOME itself " +:+ dash
  +:+ " all user secrets are readable regardless of display_only_deny".
Definition missing_write_warning (w : path) : string :=
  "allow_write path '" +:+ to_str w +:+ "' does not exist; dropped".

(** The first loop: fails on a system root, warns about the home directory. *)
Fixpoint check_writes (name : string) (writes : list path) : result AnyError (list string) :=
  match writes with
  | [] => Ok []
  | w :: writes =>
      let canonical := canonical_or_self w in
      if one_of (to_str canonical) SYSTEM_WRITE_ROOTS then Err (dangerous_write w)
      else
        rest ← check_writes name writes;
        Ok (match home_dir with
            | Some h => if bool_decide (canonical = h) && negb (contains name "yolo")
                        then home_write_warning w :: rest else rest
            | None => rest
            end)
  end.

Definition reads_home (reads : list path) : bool :=
  match home_dir with
  | Some h => existsb (λ p, bool_decide (host_canonicalize p = Some h)) reads
  | None => false
  end.

Definition covered_by (existing : list path) (p : path) : bool :=
  existsb (λ root, match host_canonicalize p, host_canonicalize root with
                   | Some p_canon, Some r_canon => path_starts_with p_canon r_canon
                   | _, _ => path_starts_with p root
                   end) existing.

Definition missing_warnings (existing writes : list path) : list string :=
  missing_write_warning <$>
    List.filter (λ p, negb (host_exists p) && negb (covered_by existing p)) writes.

Definition with_checked (p : Policy) (writes : list path) (ws : list string) : Policy :=
  {| policy_name := policy_name p; metadata := metadata p; limits := limits p;
     allow_write := writes; allow_read := allow_read p; deny_write := deny_write p;
     deny_read := deny_read p; deny_resolved := deny_resolved p; environment := environment p;
     deny_network := deny_network p; network_mode := network_mode p;
     network_allow := network_allow p; allow_cidr := allow_cidr p; net_quota := net_quota p;
     net_bind_ports := net_bind_ports p; net_connect_ports := net_connect_ports p;
     allow_unix_sockets := allow_unix_sockets p; deny_unix_sockets := deny_unix_sockets p;
     seccomp_profile := seccomp_profile p; seccomp_notify := seccomp_notify p;
     cgroup := cgroup p; cpu_max := cpu_max p; io_priority := io_priority p;
     dev_allow := dev_allow p; oslog := oslog p; lpac := lpac p; is_immutable := is_immutable p;
     system_log := system_log p; auto_deny_secrets := auto_deny_secrets p;
     secret_proxies := secret_proxies p; ro_mounts := ro_mounts p; git_guard := git_guard p;
     snapshot := snapshot p; read_only_caches := read_only_caches p; shadow := shadow p;
     tmpfs_tmp := tmpfs_tmp p; warnings := ws |}.

Definition check (p : Policy) : result AnyError Policy :=
  home_writes ← check_writes (meta_name (metadata p)) (allow_write p);
  let existing := List.filter host_exists (allow_write p) in
  Ok (with_checked p existing
        (warnings p ++ home_writes
         ++ (if reads_home (allow_read p) then [home_read_warning] else [])
         ++ missing_warnings existing (allow_write p))).

End Host.

(** ** Properties: the checks *)

Lemma one_of_true s names : one_of s names = true ↔ s ∈ names.
Proof.
  unfold one_of. rewrite existsb_true. split; [by intros (x & Hx & ->%String.eqb_eq)|].
  intros Hs. exists s. by rewrite String.eqb_refl.
Qed.

Lemma filter_elem {A} (P : A → bool) l x : x ∈ List.filter P l ↔ x ∈ l ∧ P x = true.
Proof. by rewrite !list_elem_of_In, filter_In. Qed.

Section CheckFacts.
Context `{LoadHost}.

Definition system_root (w : path) : Prop := to_str (canonical_or_self w) ∈ SYSTEM_WRITE_ROOTS.

Lemma check_writes_ok name writes :
  is_ok (check_writes name writes) = true ↔ ∀ w, w ∈ writes → ¬ system_root w.
Proof.
  induction writes as [|w writes IH]; cbn [check_writes].
  - split; [by intros _ w ?%elem_of_nil|done].
  - rewrite <-!Forall_forall in IH |- *. rewrite Forall_cons, <-IH. unfold system_root at 1.
    destruct (one_of _ _) eqn:E.
    + apply one_of_true in E. split; [done|]. by intros [? _].
    + assert (¬ to_str (canonical_or_self w) ∈ SYSTEM_WRITE_ROOTS)
        by (by rewrite <-one_of_true, E).
      destruct (check_writes name writes) as [ws|e]; cbn; [done|]. split; [done|]. by intros [_ ?].
Qed.

(** The checks after loading refuse exactly the policies that may write to a
    system root (after canonicalisation); an accepted policy keeps the write
    roots that exist, in order, and nothing else of it changes but the warnings,
    which only grow: a dropped root that no kept root covers is always named. *)
Theorem check_spec p :
  (is_ok (check p) = true ↔ ∀ w, w ∈ allow_write p → ¬ system_root w)
  ∧ ∀ p', check p = Ok p' →
      allow_write p' = List.filter host_exists (allow_write p)
      ∧ p' = with_checked p (allow_write p') (warnings p')
      ∧ warnings p `prefix_of` warnings p'
      ∧ ∀ w, w ∈ allow_write p → host_exists w = false →
          covered_by (allow_write p') w = false → missing_write_warning w ∈ warnings p'.
Proof.
  unfold check. split.
  - rewrite <-(check_writes_ok (meta_name (metadata p))). by destruct (check_writes _ _).
  - intros p' Hp. destruct (check_writes _ _) as [ws|e]; [|done]. injection Hp as <-.
    split_and!; [done|done|by apply prefix_app_r|].
    intros w Hw He Hc. cbn [allow_write warnings with_checked] in *. rewrite !elem_of_app. do 3 right. unfold missing_warnings.
    apply list_elem_of_fmap. exists w. split; [done|]. apply filter_elem. by rewrite He, Hc.
Qed.
End CheckFacts.

(** ** Properties: secret shapes *)

Lemma lower_ascii_idem c : lower_ascii (lower_ascii c) = lower_ascii c.
Proof. by destruct c as [[] [] [] [] [] [] [] []]. Qed.
Lemma lowercase_idem s : to_ascii_lowercase (to_ascii_lowercase s) = to_ascii_lowercase s.
Proof.
  unfold to_ascii_lowercase. induction s as [|c s IH]; [done|]. cbn [smap].
  by rewrite lower_ascii_idem, IH.
Qed.

Definition lower_component (c : component) : component :=
  match c with Normal n => Normal (to_ascii_lowercase n) | c => c end.
Definition lower_path (p : path) : path := lower_component <$> p.

Lemma file_name_lower p : file_name (lower_path p) = to_ascii_lowercase <$> file_name p.
Proof.
  unfold file_name, lower_path. rewrite fmap_last. by destruct (last p) as [[]|].
Qed.

Lemma parent_lower p : parent (lower_path p) = lower_path <$> parent p.
Proof.
  destruct p as [|c p _] using rev_ind; [done|]. unfold lower_path. rewrite fmap_app. cbn.
  destruct (is_root c) eqn:E.
  - unfold parent. rewrite !last_snoc. by destruct c.
  - rewrite !parent_snoc; [done|done|by destruct c].
Qed.

(** Whether a file is shaped like a secret does not depend on the letter case
    of its path. *)
Theorem secret_shape_ignores_case p q :
  lower_path p = lower_path q → is_secret_shaped p = is_secret_shaped q.
Proof.
  assert (∀ p, is_secret_shaped p = is_secret_shaped (lower_path p)) as Hl.
  { intros r. unfold is_secret_shaped. rewrite file_name_lower, parent_lower.
    destruct (file_name r) as [n|]; cbn; [|done]. rewrite lowercase_idem.
    destruct (parent r) as [d|]; cbn; [|done]. rewrite file_name_lower.
    destruct (file_name d) as [m|]; cbn; [|done].
    unfold eq_ignore_ascii_case. by rewrite lowercase_idem. }
  intros Hpq. by rewrite Hl, Hpq, <-Hl.
Qed.

Lemma secret_shape_ignores_case_witness :
  lower_path (components "/p/Client.PEM") = lower_path (components "/P/client.pem")
  ∧ is_secret_shaped (components "/p/Client.PEM") = is_secret_shaped (components "/P/client.pem").
Proof.
  split; [vm_compute; reflexivity|].
  apply secret_shape_ignores_case. vm_compute. reflexivity.
Defined.
