(* ===== verification/Resolve.v ===== *)
(** * Resolve: from the merged policy to the resolved one

    Model of [src/src/policy/loader/resolve.rs]: agent roots, path lists,
    normalised environment patterns, the FS-ONLY masking of project reads by
    tree enumeration, and [build_policy].  The enumeration recurses over the
    directories of the host: [fuel] bounds its depth, and its own entry budget
    is a bound that always suffices. *)

From Stdlib Require Import Sorting.Sorted.
From S2P Require Import Prelude Paths PolicyTypes Termination Schema Presets Merge Globs.

Definition FS_ONLY_ENUMERATION_BUDGET : Z := 20000.

Definition PACKAGE_CACHE_PATHS : list string :=
  [".npm"; ".cache/pip"; ".cache/uv"; ".cache/yarn"; ".cargo/registry"; ".cargo/git";
   "go/pkg/mod"; ".cache/ms-playwright"; ".cache/puppeteer"; ".cache/huggingface";
   ".cache/transformers"; ".cache/torch"].

Definition resolve_package_cache_paths (home : path) : list path :=
  (λ p, push home (components p)) <$> PACKAGE_CACHE_PATHS.

Definition agent_root_arms : list (list string * string) := [
  (["codex"], ".codex"); (["claude"], ".claude"); (["antigravity"; "agy"], ".gemini");
  (["aider"], ".aider"); (["cursor"], ".cursor"); (["cline"], ".cline");
  (["opencode"], ".config/opencode"); (["copilot"], ".config/github-copilot");
  (["windsurf"], ".windsurf"); (["goose"], ".config/goose"); (["openhands"], ".openhands");
  (["devin"], ".devin"); (["smolagents"], ".cache/smolagents"); (["amp"], ".amp");
  (["omp"], ".omp"); (["zcode"], ".zcode"); (["kimi"], ".kimi"); (["grok"], ".grok");
  (["hermes"], ".hermes"); (["kilo"], ".kilo"); (["pi"], ".pi");
  (["command_code"], ".command-code"); (["freebuff"], ".freebuff");
  (["deepseek_harness"], ".deepseek"); (["omnigent"], ".omnigent"); (["crewai"], ".crewai");
  (["autogen"], ".autogen"); (["custom"], ".config/vetto/agents/custom");
  (["swebench"], ".swebench"); (["qwen_code"], ".qwen"); (["roo_code"], ".roo");
  (["browser_use"], ".browser-use")].

Definition unknown_agent (agent : string) : string :=
  "unknown agent '" +:+ agent +:+ "'; known agents: " +:+ join_with ", " AGENT_PROFILE_NAMES.

Definition agent_root (home : path) (agent : string) : result AnyError path :=
  let canon := default agent (canonical_agent_name agent) in
  match match_arms canon agent_root_arms with
  | Some suffix => Ok (push home (components suffix))
  | None => Err (Untyped (unknown_agent agent))
  end.

(** ** Environment patterns *)

Definition is_env_char (c : ascii) : bool :=
  is_digit c || is_upper c || is_lower c || Ascii.eqb c "_".

Definition env_pattern_ok (pattern : string) : bool :=
  let prefix := default pattern (strip_suffix "*" pattern) in
  negb (is_empty prefix || String.eqb pattern "*" || contains_char pattern "="
        || contains_char pattern (chr 0) || negb (all_chars is_env_char prefix)
        || (contains_char pattern "*" && negb (ends_with pattern "*"))).

Definition normalize_env_patterns (patterns : list string) : list string :=
  foldl (λ out p, if env_pattern_ok p then insert_sorted p out else out) [] patterns.

(** ** Enumeration *)

Inductive Cleanliness : Type := Clean | Dirty.

Inductive EnumerationError : Type :=
| BudgetExceeded
| EnumIo (operation : string) (where_ : path) (source : string).

(** What the enumeration carries: the read roots found, the entries counted,
    the entries left out. *)
Record Enum : Type := mk_enum { e_out : list path; e_count : Z; e_excluded : Z }.

Section Host.
Context `{LoadHost}.

Definition is_enumeration_excluded (p : path) (deny_set : list path) : bool :=
  bool_decide (p ∈ deny_set) || is_secret_shaped p.

Definition count_entry (e : Enum) : Enum := mk_enum (e_out e) (e_count e + 1) (e_excluded e).
Definition exclude_entry (e : Enum) : Enum := mk_enum (e_out e) (e_count e) (e_excluded e + 1).
Definition push_out (e : Enum) (p : path) : Enum :=
  mk_enum (e_out e ++ [p]) (e_count e) (e_excluded e).

(** The loop over the entries of one directory; [rec] enumerates a
    subdirectory, [clean] is [all_clean].  [None]: out of fuel. *)
Fixpoint enumerate_entries
    (rec : path → Enum → option (result EnumerationError (Cleanliness * Enum)))
    (dir : path) (deny_set : list path) (entries : list (result string path)) (clean : bool)
    (e : Enum) : option (result EnumerationError (bool * Enum)) :=
  match entries with
  | [] => Some (Ok (clean, e))
  | Err source :: _ => Some (Err (EnumIo "directory entry iteration" dir source))
  | Ok p :: entries =>
      let e := count_entry e in
      if FS_ONLY_ENUMERATION_BUDGET <? e_count e then Some (Err BudgetExceeded)
      else match host_kind p with
      | Err source => Some (Err (EnumIo "symlink_metadata" p source))
      | Ok KindDir =>
          if is_enumeration_excluded p deny_set
          then enumerate_entries rec dir deny_set entries false (exclude_entry e)
          else match rec p e with
               | Some (Ok (Clean, e)) => enumerate_entries rec dir deny_set entries clean e
               | Some (Ok (Dirty, e)) => enumerate_entries rec dir deny_set entries false e
               | Some (Err err) => Some (Err err)
               | None => None
               end
      | Ok KindSymlink => enumerate_entries rec dir deny_set entries false e
      | Ok _ =>
          if is_enumeration_excluded p deny_set
          then enumerate_entries rec dir deny_set entries false (exclude_entry e)
          else enumerate_entries rec dir deny_set entries clean (push_out e p)
      end
  end.

Fixpoint enumerate_fuel (fuel : nat) (deny_set : list path) (dir : path) (e : Enum) :
  option (result EnumerationError (Cleanliness * Enum)) :=
  match fuel with
  | O => None
  | S fuel =>
      if FS_ONLY_ENUMERATION_BUDGET <? e_count e then Some (Err BudgetExceeded)
      else if is_enumeration_excluded dir deny_set then Some (Ok (Dirty, exclude_entry e))
      else match host_read_dir dir with
      | Err source => Some (Err (EnumIo "read_dir" dir source))
      | Ok entries =>
          match enumerate_entries (enumerate_fuel fuel deny_set) dir deny_set entries true e with
          | Some (Ok (true, e')) =>
              Some (Ok (Clean, mk_enum (take (length (e_out e)) (e_out e') ++ [dir])
                                 (e_count e') (e_excluded e')))
          | Some (Ok (false, e')) => Some (Ok (Dirty, e'))
          | Some (Err err) => Some (Err err)
          | None => None
          end
      end
  end.

(** One level per entry the budget still allows, and the root itself. *)
Definition enumeration_fuel (e : Enum) : nat :=
  S (Z.to_nat (FS_ONLY_ENUMERATION_BUDGET + 1 - e_count e)).

Definition enumerate_tree (dir : path) (deny_set : list path) (e : Enum) :
  result EnumerationError (Cleanliness * Enum) :=
  default (Err BudgetExceeded) (enumerate_fuel (enumeration_fuel e) deny_set dir e).

(** ** Containment *)

Definition absolute_for_containment (p base : path) : option path :=
  if is_absolute p then Some p
  else
    base ← (if is_absolute base then Some base else (λ cwd, push cwd base) <$> host_cwd);
    Some (push base p).

Definition lexical_for_containment (p base : path) : option path :=
  lexical_normalize <$> absolute_for_containment p base.

(** The loop of [normalize_for_containment]; the cursor is kept reversed. *)
Fixpoint normalize_cursor (rcursor unresolved : path) : option path :=
  match host_canonicalize (rev rcursor) with
  | Some canonical => Some (lexical_normalize (foldl (λ acc c, push acc [c]) canonical unresolved))
  | None =>
      match rcursor with
      | Normal n :: rest => normalize_cursor rest (Normal n :: unresolved)
      | _ => None
      end
  end.

Definition normalize_for_containment (p base : path) : option path :=
  absolute ← absolute_for_containment p base;
  match host_canonicalize absolute with
  | Some canonical => Some canonical
  | None => normalize_cursor (rev absolute) []
  end.

Definition paths_overlap (l r : path) : bool := path_starts_with l r || path_starts_with r l.

(** ** The FS-ONLY mask *)

Definition is_temp_root (p : path) : bool :=
  bool_decide (p = components "/tmp") || bool_decide (p = components "/var/tmp")
  || path_starts_with p (components "/dev").

Definition is_dir (p : path) : bool := bool_decide (host_kind p = Ok KindDir).

(** Lexical and canonical form of each directory root; [None] when one has none. *)
Fixpoint normalized_roots (project : path) (roots : list path) : option (list (path * path)) :=
  match roots with
  | [] => Some []
  | root :: roots =>
      lexical ← lexical_for_containment root project;
      canonical ← normalize_for_containment root project;
      rest ← normalized_roots project roots;
      Some ((lexical, canonical) :: rest)
  end.

(** A read rule that neither covers nor lies inside a write root. *)
Definition keeps_read (project : path) (roots : list (path * path)) (p : path) : bool :=
  match lexical_for_containment p project, normalize_for_containment p project with
  | Some lexical, Some normalized =>
      negb (existsb (λ r, paths_overlap lexical r.1 || paths_overlap normalized r.2) roots)
  | _, _ => false
  end.

Definition removed_read_warning : string :=
  "fs-only tier: removed a read rule that covered a write root wholesale "
  +:+ "(would have defeated secret masking)".
Definition excluded_warning (excluded : Z) : string :=
  "fs-only tier: " +:+ to_dec excluded +:+ " secret-shaped or denied project entry(s) excluded "
  +:+ "from read access by tree enumeration".
Definition enumeration_refused (err : EnumerationError) : AnyError :=
  Untyped (match err with
  | BudgetExceeded =>
      "fs-only tier: project tree exceeds the " +:+ to_dec FS_ONLY_ENUMERATION_BUDGET
      +:+ "-entry enumeration budget; refusing to run rather than fall back to whole-tree "
      +:+ "read access"
  | EnumIo operation p source =>
      "fs-only tier: " +:+ operation +:+ " failed for '" +:+ to_str p +:+ "': " +:+ source
      +:+ "; refusing to run"
  end).
Definition cannot_normalize : AnyError :=
  Untyped "fs-only tier: could not normalize a project root safely".

Fixpoint enumerate_roots (roots deny_set : list path) (e : Enum) : result AnyError Enum :=
  match roots with
  | [] => Ok e
  | root :: roots =>
      match enumerate_tree root deny_set e with
      | Ok (_, e) => enumerate_roots roots deny_set e
      | Err err => Err (enumeration_refused err)
      end
  end.

(** [if let Some(pos) = position(== root) { remove(pos); excluded += 1 }]. *)
Fixpoint remove_first (p : path) (l : list path) : option (list path) :=
  match l with
  | [] => None
  | q :: l' => if bool_decide (q = p) then Some l' else (cons q) <$> remove_first p l'
  end.

Definition drop_excluded_root (deny_set : list path) (e : Enum) (root : path) : Enum :=
  if is_enumeration_excluded root deny_set then
    match remove_first root (e_out e) with
    | Some out => mk_enum out (e_count e) (e_excluded e + 1)
    | None => e
    end
  else e.

(** The read roots and the new warnings. *)
Definition mask_project_reads_for_fs_only (allow_read allow_write deny_set : list path)
    (project : path) : result AnyError (list path * list string) :=
  let project_roots := List.filter (λ p, negb (is_temp_root p)) allow_write in
  match project_roots with
  | [] => Ok (allow_read, [])
  | _ =>
      let dir_roots := List.filter is_dir project_roots in
      roots ← ok_or (normalized_roots project dir_roots) cannot_normalize;
      let kept := List.filter (keeps_read project roots) allow_read in
      e ← enumerate_roots dir_roots deny_set (mk_enum kept 0 0);
      let e := foldl (drop_excluded_root deny_set) e project_roots in
      Ok (e_out e,
          (if bool_decide (length kept = length allow_read) then [] else [removed_read_warning])
          ++ (if 0 <? e_excluded e then [excluded_warning (e_excluded e)] else []))
  end.

(** ** Lists of entries *)

Definition needs_agent (entry : string) : AnyError :=
  Untyped ("policy path '" +:+ entry +:+ "' requires an agent context for $AGENT").

Fixpoint resolve_entries (entries : list string) (vars : Vars) (agent : option path) :
  result AnyError (list path) :=
  match entries with
  | [] => Ok []
  | e :: entries =>
      if contains e "$AGENT" && bool_decide (agent = None) then Err (needs_agent e)
      else rest ← resolve_entries entries vars agent;
           Ok (resolve_entry_with_agent e vars agent ++ rest)
  end.

Definition resolve_list (entries : list string) (vars : Vars) (agent : option path) :
  result AnyError (list path) := sort_dedup <$> resolve_entries entries vars agent.

(** ** Denied entries *)

Record Denied : Type := mk_denied { d_set : list path; d_resolved : list DenyEntry }.

Definition deny_one (agent : option path) (d : Denied) (p : path) : Denied :=
  if bool_decide (agent = Some p) || bool_decide (p ∈ d_set d) then d
  else mk_denied (d_set d ++ [p])
         (d_resolved d ++ match host_kind p with
                          | Ok k => [mk_deny p (bool_decide (k = KindDir))]
                          | Err _ => []
                          end).

Fixpoint deny_all (entries : list string) (vars : Vars) (agent : option path) (d : Denied) :
  result AnyError Denied :=
  match entries with
  | [] => Ok d
  | e :: entries =>
      ps ← resolve_list [e] vars agent;
      deny_all entries vars agent (foldl (deny_one agent) d ps)
  end.

Definition preset_entries (m : MergedPolicy) : list string :=
  concat ((λ n, default [] (resolve_preset n)) <$> m_deny_preset m).
Definition preset_warnings (m : MergedPolicy) : list string :=
  (λ n, "unknown deny_preset '" +:+ n +:+ "'") <$>
    List.filter (λ n, bool_decide (resolve_preset n = None)) (m_deny_preset m).

Definition all_deny_entries (m : MergedPolicy) : list string :=
  m_deny_paths m ++ m_deny_read m ++ m_deny_write m ++ m_deny_unix_sockets m
  ++ preset_entries m ++ m_deny_glob m.

(** ** [build_policy] *)

Definition push_new_path (l : list path) (p : path) : list path :=
  if bool_decide (p ∈ l) then l else l ++ [p].

(** [retain(|a| !denied.iter().any(|d| a == d || a.starts_with(d)))]. *)
Definition subtract (denied allowed : list path) : list path :=
  List.filter (λ a, negb (existsb (λ d, bool_decide (a = d) || path_starts_with a d) denied))
    allowed.

Definition without_cache (writes : list path) (cache : path) : list path :=
  List.filter (λ p, negb (bool_decide (p = cache)) && negb (path_starts_with p cache)) writes.

Definition resolve_runtime_dir : option path :=
  match host_env "XDG_RUNTIME_DIR" with
  | Some val => if is_empty val then Some (components ("/run/user/" +:+ to_dec host_uid))
                else Some (components val)
  | None => Some (components ("/run/user/" +:+ to_dec host_uid))
  end.

Definition seccomp_profile_of (m : MergedPolicy) : result AnyError SeccompProfile :=
  match m_seccomp_profile m with
  | Some name =>
      ok_or (profile_parse name)
        (Untyped ("unknown seccomp_profile '" +:+ name
                  +:+ "'; known profiles: default, agent-min"))
  | None => Ok DefaultProfile
  end.

(** The resolved roots, before the fields that are copied. *)
Record Roots : Type := mk_roots {
  r_write : list path;
  r_read : list path;
  r_deny_write : list path;
  r_deny_read : list path;
  r_ro_mounts : list path;
  r_denied : Denied;
  r_warnings : list string;
}.

Definition resolve_roots (project home : path) (tier : Tier) (m : MergedPolicy)
    (agent : option path) : result AnyError Roots :=
  let vars := mk_vars project home resolve_runtime_dir in
  let lists l := resolve_list l vars agent in
  writes ← lists (m_allow_write m);
  reads ← lists (m_allow_read m);
  deny_writes ← lists (m_deny_write m);
  deny_reads ← lists (m_deny_read m);
  ro ← lists (m_ro_mounts m);
  let reads := foldl push_new_path reads ro in
  let caches := if m_read_only_caches m then resolve_package_cache_paths home else [] in
  let reads := foldl push_new_path reads caches in
  let deny_writes := foldl push_new_path deny_writes caches in
  let writes := foldl without_cache writes caches in
  denied ← deny_all (all_deny_entries m) vars agent (mk_denied [] []);
  let writes := subtract deny_writes writes in
  let reads := subtract deny_reads reads in
  masked ← (if bool_decide (tier = FsOnly)
            then mask_project_reads_for_fs_only reads writes (d_set denied) project
            else Ok (reads, []));
  let allow_socks :=
    match lists (m_allow_unix_sockets m) with Ok ps => ps | Err _ => [] end in
  let deny_socks :=
    match lists (m_deny_unix_sockets m) with Ok ps => ps | Err _ => [] end in
  let reads := subtract deny_socks (foldl push_new_path masked.1 allow_socks) in
  let writes := subtract deny_socks (foldl push_new_path writes allow_socks) in
  Ok (mk_roots (sort_dedup writes) (sort_dedup reads) deny_writes deny_reads ro denied
        (preset_warnings m ++ masked.2)).

(** The policy literal, before the checks. *)
Definition resolved_policy (profile : string) (custom : bool) (m : MergedPolicy) (r : Roots)
    (prof : SeccompProfile) : Policy :=
  let name := if is_empty (meta_name (m_metadata m))
              then (if custom then "custom:" +:+ profile else profile)
              else meta_name (m_metadata m) in
  {|
    policy_name := name; metadata := m_metadata m; limits := m_limits m;
    allow_write := r_write r; allow_read := r_read r; deny_write := r_deny_write r;
    deny_read := r_deny_read r; deny_resolved := d_resolved (r_denied r);
    environment := mk_env (normalize_env_patterns (m_pass_through m))
                          (normalize_env_patterns (m_deny_env m));
    deny_network := negb (is_nil (m_deny_network m)); network_mode := m_network_mode m;
    network_allow := m_network_allow m; allow_cidr := m_allow_cidr m; net_quota := m_net_quota m;
    net_bind_ports := m_net_bind_ports m; net_connect_ports := m_net_connect_ports m;
    allow_unix_sockets := m_allow_unix_sockets m; deny_unix_sockets := m_deny_unix_sockets m;
    seccomp_profile := prof; seccomp_notify := m_seccomp_notify m; cgroup := m_cgroup m;
    cpu_max := m_cpu_max m; io_priority := m_io_priority m; dev_allow := m_dev_allow m;
    oslog := m_oslog m; lpac := m_lpac m; is_immutable := m_is_immutable m;
    system_log := m_system_log m; auto_deny_secrets := m_auto_deny_secrets m;
    secret_proxies := m_secret_proxies m; ro_mounts := r_ro_mounts r;
    git_guard := m_git_guard m; snapshot := m_snapshot m;
    read_only_caches := m_read_only_caches m; shadow := m_shadow m;
    tmpfs_tmp := default true (m_tmpfs_tmp m); warnings := r_warnings r |}.

Definition build_policy (profile : string) (custom : bool) (project home : path) (tier : Tier)
    (m : MergedPolicy) (agent : option path) : result AnyError Policy :=
  r ← resolve_roots project home tier m agent;
  prof ← seccomp_profile_of m;
  check (resolved_policy profile custom m r prof).

End Host.

(** ** Trees *)

Section EnumerationFacts.
Context `{LH : LoadHost} (deny_set : list path).
Local Abbreviation excluded p := (is_enumeration_excluded p deny_set).

(** [p] is [root] or reached from it through directories (never through links). *)
Inductive in_tree (root : path) : path → Prop :=
| in_root : in_tree root root
| in_entry d p entries :
    in_tree root d → host_kind d = Ok KindDir → host_read_dir d = Ok entries →
    Ok p ∈ entries → in_tree root p.

Definition is_leaf (k : FileKind) : bool :=
  match k with KindFile | KindOther => true | KindDir | KindSymlink => false end.

(** A file below [root] with nothing excluded on the way. *)
Inductive readable : path → path → Prop :=
| readable_file p k :
    host_kind p = Ok k → is_leaf k = true → excluded p = false → readable p p
| readable_dir root entries p q :
    host_kind root = Ok KindDir → excluded root = false → host_read_dir root = Ok entries →
    Ok p ∈ entries → readable p q → readable root q.

(** Nothing in the tree of [o] is excluded, and no link leads out of it. *)
Definition clean_tree (o : path) : Prop :=
  ∀ p, in_tree o p → excluded p = false ∧ host_kind p ≠ Ok KindSymlink.

Lemma in_tree_trans a b c : in_tree a b → in_tree b c → in_tree a c.
Proof. intros Hab Hbc. induction Hbc; [done|]. by eapply in_entry. Qed.

Lemma in_tree_head root p :
  in_tree root p →
  p = root ∨ ∃ entries q, host_kind root = Ok KindDir ∧ host_read_dir root = Ok entries
                          ∧ Ok q ∈ entries ∧ in_tree q p.
Proof.
  induction 1 as [|d p entries Hd IH Hk Hr Hp]; [by left|]. right.
  destruct IH as [->|(es & q & ? & ? & ? & Hq)].
  - exists entries, p. split_and!; [done..|constructor].
  - exists es, q. split_and!; [done..|]. by eapply in_entry.
Qed.

Lemma readable_in_tree root q : readable root q → in_tree root q.
Proof.
  induction 1 as [|root es p q Hk He Hr Hp _ IH]; [constructor|].
  eapply in_tree_trans; [|exact IH]. by eapply in_entry; [constructor|..].
Qed.

Lemma clean_file p k :
  host_kind p = Ok k → is_leaf k = true → excluded p = false → clean_tree p.
Proof.
  intros Hk Hl He q [->|(es & r & Hd & _)]%in_tree_head.
  - rewrite Hk. split; [done|]. by intros [= ->].
  - rewrite Hk in Hd. by simplify_eq.
Qed.

Lemma readable_kind root q : readable root q → host_kind root ≠ Ok KindSymlink.
Proof. intros Hq Hs. destruct Hq; rewrite Hs in *; by simplify_eq. Qed.

(** ** What an enumeration returns *)

Definition enum_step (e e' : Enum) (new : list path) : Prop :=
  e_out e' = e_out e ++ new ∧ e_count e ≤ e_count e' ∧ e_excluded e ≤ e_excluded e'
  ∧ ∀ o, o ∈ new → clean_tree o.

Definition covers (new : list path) (root : path) : Prop :=
  ∀ q, readable root q → ∃ o, o ∈ new ∧ in_tree o q.

Lemma enum_step_refl e : enum_step e e [].
Proof. split_and!; [by rewrite app_nil_r|lia|lia|]. by intros o ?%elem_of_nil. Qed.

Lemma enum_step_trans e1 e2 e3 n1 n2 :
  enum_step e1 e2 n1 → enum_step e2 e3 n2 → enum_step e1 e3 (n1 ++ n2).
Proof.
  intros (Ho1 & ? & ? & Hn1) (Ho2 & ? & ? & Hn2). split_and!; [|lia|lia|].
  - by rewrite Ho2, Ho1, app_assoc.
  - intros o [?|?]%elem_of_app; auto.
Qed.

Lemma covers_l n1 n2 p : covers n1 p → covers (n1 ++ n2) p.
Proof. intros Hc q (o & ? & ?)%Hc. exists o. split; [apply elem_of_app; by left|done]. Qed.
Lemma covers_r n1 n2 p : covers n2 p → covers (n1 ++ n2) p.
Proof. intros Hc q (o & ? & ?)%Hc. exists o. split; [apply elem_of_app; by right|done]. Qed.

Lemma covers_excluded new p : excluded p = true → covers new p.
Proof. intros He q Hq. destruct Hq; congruence. Qed.
Lemma covers_symlink new p : host_kind p = Ok KindSymlink → covers new p.
Proof. by intros He q ?%readable_kind. Qed.

Definition dir_spec (dir : path) (e : Enum) (c : Cleanliness) (e' : Enum) : Prop :=
  e_count e' ≤ FS_ONLY_ENUMERATION_BUDGET
  ∧ ∃ new, enum_step e e' new ∧ covers new dir ∧ (c = Clean → new = [dir]).

Definition entries_spec (entries : list (result string path)) (clean : bool) (e : Enum)
    (c : bool) (e' : Enum) : Prop :=
  (e_count e ≤ FS_ONLY_ENUMERATION_BUDGET → e_count e' ≤ FS_ONLY_ENUMERATION_BUDGET)
  ∧ ∃ new, enum_step e e' new ∧ (∀ p, Ok p ∈ entries → covers new p)
           ∧ (c = true → clean = true ∧ ∀ p, Ok p ∈ entries → clean_tree p).

(** One entry handled (with what it [added]), then the rest. *)
Lemma entries_spec_cons p entries clean clean' e e1 c e' added :
  e_count e1 ≤ FS_ONLY_ENUMERATION_BUDGET →
  enum_step e e1 added → covers added p →
  (clean' = true → clean = true ∧ clean_tree p) →
  entries_spec entries clean' e1 c e' → entries_spec (Ok p :: entries) clean e c e'.
Proof.
  intros Hb Hs1 Hp Hc (Hb2 & new & Hs2 & Hcov & Hcl). split; [auto|].
  exists (added ++ new). split_and!.
  - by eapply enum_step_trans.
  - intros q [[= ->]|Hq]%elem_of_cons; [by apply covers_l|]. by apply covers_r, Hcov.
  - intros [Hc' Hall]%Hcl. destruct (Hc Hc') as [-> Hcp]. split; [done|].
    intros q [[= ->]|Hq]%elem_of_cons; [done|]. by apply Hall.
Qed.

Lemma enum_step_count e : enum_step e (count_entry e) [].
Proof. destruct (enum_step_refl e) as (? & ? & ? & ?). split_and!; cbn; [done|lia|lia|done]. Qed.
Lemma enum_step_exclude e e1 : enum_step e e1 [] → enum_step e (exclude_entry e1) [].
Proof. intros (? & ? & ? & ?). split_and!; cbn; [done|lia|lia|done]. Qed.

Lemma enumerate_entries_spec rec dir entries :
  (∀ p e c e', host_kind p = Ok KindDir → rec p e = Some (Ok (c, e')) → dir_spec p e c e') →
  ∀ clean e c e',
    enumerate_entries rec dir deny_set entries clean e = Some (Ok (c, e')) →
    entries_spec entries clean e c e'.
Proof.
  intros Hrec. induction entries as [|[p|err] entries IH]; intros clean e c e' He.
  - injection He as <- <-. split; [done|]. exists []. split_and!; [apply enum_step_refl|..].
    + by intros p ?%elem_of_nil.
    + intros ->. split; [done|]. by intros p ?%elem_of_nil.
  - cbn [enumerate_entries] in He. destruct (Z.ltb_spec FS_ONLY_ENUMERATION_BUDGET (e_count (count_entry e)));
      [done|]. pose proof (enum_step_count e) as Hce.
    destruct (host_kind p) as [k|] eqn:Hk; [|done].
    destruct (decide (k = KindDir)) as [->|Hnd]; [|destruct (decide (k = KindSymlink)) as [->|Hns]].
    + destruct (excluded p) eqn:Hx.
      { by eapply (entries_spec_cons _ _ _ false);
          [|exact (enum_step_exclude _ _ Hce)|apply covers_excluded| |apply IH]. }
      destruct (rec p _) as [[[[] e1]|]|] eqn:Er; [..|done|done];
        apply (Hrec _ _ _ _ Hk) in Er as (Hb & new & Hs & Hcov & Hn);
        apply IH in He; (eapply entries_spec_cons; [exact Hb| |exact Hcov| |exact He]).
      * by eapply (enum_step_trans _ _ _ []).
      * intros ->. split; [done|]. apply Hs. rewrite Hn by done. by left.
      * by eapply (enum_step_trans _ _ _ []).
      * done.
    + by eapply (entries_spec_cons _ _ _ false); [|exact Hce|apply covers_symlink| |apply IH].
    + assert (is_leaf k = true) as Hl by by destruct k.
      assert ((if excluded p
               then enumerate_entries rec dir deny_set entries false (exclude_entry (count_entry e))
               else enumerate_entries rec dir deny_set entries clean (push_out (count_entry e) p))
              = Some (Ok (c, e'))) as He' by by destruct k.
      clear He. rename He' into He. destruct (excluded p) eqn:Hx.
      { by eapply (entries_spec_cons _ _ _ false);
          [|exact (enum_step_exclude _ _ Hce)|apply covers_excluded| |apply IH]. }
      assert (clean_tree p) as Hcl by by eapply clean_file.
      eapply (entries_spec_cons _ _ _ _ _ (push_out (count_entry e) p) _ _ [p]); [done|..|by apply IH].
      * split_and!; cbn; [done|lia|lia|]. by intros o ->%list_elem_of_singleton.
      * intros q Hq. exists p. split; [by left|]. by apply readable_in_tree.
      * by intros ->.
  - done.
Qed.

Lemma enumerate_fuel_spec fuel dir e c e' :
  host_kind dir = Ok KindDir →
  enumerate_fuel fuel deny_set dir e = Some (Ok (c, e')) → dir_spec dir e c e'.
Proof.
  revert dir e c e'. induction fuel as [|fuel IH]; intros dir e c e' Hk He; [done|].
  cbn [enumerate_fuel] in He.
  destruct (Z.ltb_spec FS_ONLY_ENUMERATION_BUDGET (e_count e)); [done|].
  destruct (excluded dir) eqn:Hx.
  { injection He as <- <-. split; [done|]. exists [].
    split_and!; [apply enum_step_exclude, enum_step_refl|by apply covers_excluded|done]. }
  destruct (host_read_dir dir) as [entries|] eqn:Hd; [|done].
  destruct (enumerate_entries _ _ _ _ _ _) as [[[b e1]|]|] eqn:Ee; [|done|done].
  apply enumerate_entries_spec in Ee as (Hb & new & Hs & Hcov & Hcl); [|by intros; eapply IH].
  destruct b; injection He as <- <-; (split; [by apply Hb|]).
  - exists [dir]. split_and!; [..|done].
    + destruct Hs as (Ho & ? & ? & Hn). split_and!; cbn; [|done|done|].
      * by rewrite Ho, take_app_length.
      * intros o ->%list_elem_of_singleton q [->|(es & r & _ & Hes & Hr & Hq)]%in_tree_head.
        { by rewrite Hk. }
        rewrite Hd in Hes. injection Hes as <-. by apply (proj2 (Hcl eq_refl) r).
    + intros q Hq. exists dir. split; [by left|]. by apply readable_in_tree.
  - exists new. split_and!; [done|..|done]. intros q Hq.
    destruct Hq as [p k Hkp Hl|root es p q Hkr _ Hes Hp Hq]; [rewrite Hk in Hkp; by simplify_eq|].
    rewrite Hd in Hes. injection Hes as <-. by apply (Hcov p).
Qed.

(** ** Termination *)

Lemma enumerate_entries_end rec dir entries c0 :
  (∀ p e, host_kind p = Ok KindDir → c0 < e_count e → is_Some (rec p e)) →
  (∀ p e c e', host_kind p = Ok KindDir → rec p e = Some (Ok (c, e')) → e_count e ≤ e_count e') →
  ∀ clean e, c0 ≤ e_count e → is_Some (enumerate_entries rec dir deny_set entries clean e).
Proof.
  intros Hrec Hmono. induction entries as [|[p|err] entries IH]; intros clean e Hc; [by eauto| |by eauto].
  cbn [enumerate_entries]. destruct (Z.ltb _ _); [by eauto|].
  destruct (host_kind p) as [[]|] eqn:Hk; [..|by eauto].
  - destruct (excluded p); [apply IH; cbn; lia|].
    destruct (Hrec p (count_entry e) Hk) as [r Hr]; [cbn; lia|]. rewrite Hr.
    destruct r as [[[] e1]|]; [..|by eauto]; apply Hmono in Hr; try done; apply IH; cbn in *; lia.
  - destruct (excluded p); apply IH; cbn; lia.
  - apply IH. cbn. lia.
  - destruct (excluded p); apply IH; cbn; lia.
Qed.

Lemma enumerate_fuel_ends fuel dir e :
  (Z.to_nat (FS_ONLY_ENUMERATION_BUDGET + 1 - e_count e) < fuel)%nat →
  is_Some (enumerate_fuel fuel deny_set dir e).
Proof.
  revert dir e. induction fuel as [|fuel IH]; intros dir e Hf; [lia|]. cbn [enumerate_fuel].
  destruct (Z.ltb_spec FS_ONLY_ENUMERATION_BUDGET (e_count e)); [by eauto|].
  destruct (excluded dir); [by eauto|]. destruct (host_read_dir dir) as [entries|]; [|by eauto].
  destruct (enumerate_entries_end (enumerate_fuel fuel deny_set) dir entries (e_count e))
    with (clean := true) (e := e) as [r ->]; [..|lia|].
  - intros p e1 _ Hlt. apply IH. lia.
  - intros p e1 c e2 Hk (_ & new & (_ & ? & _) & _)%enumerate_fuel_spec; done.
  - destruct r as [[[] ?]|]; by eauto.
Qed.

(** C33: The FS-ONLY enumeration ends on every host, even one whose directories
    nest without end: one level of recursion per entry the 20,000-entry budget
    still allows is enough, and an accepted enumeration never exceeds it. *)
Theorem enumeration_ends dir e :
  is_Some (enumerate_fuel (enumeration_fuel e) deny_set dir e)
  ∧ ∀ c e', host_kind dir = Ok KindDir → enumerate_tree dir deny_set e = Ok (c, e') →
      e_count e ≤ e_count e' ≤ FS_ONLY_ENUMERATION_BUDGET.
Proof.
  assert (is_Some (enumerate_fuel (enumeration_fuel e) deny_set dir e)) as Hs
    by (apply enumerate_fuel_ends; unfold enumeration_fuel; lia).
  split; [done|]. intros c e' Hk He. unfold enumerate_tree in He. destruct Hs as [r Hr].
  rewrite Hr in He. cbn in He. subst r.
  apply enumerate_fuel_spec in Hr as (? & new & (_ & ? & _) & _); [lia|done].
Qed.

(** Tree enumeration grants reads exactly: every path it adds has nothing
    secret-shaped or denied in its tree and no symbolic link, and every file
    reachable without passing such an entry is in the tree of one of them. *)
Theorem enumerate_tree_spec dir e c e' :
  host_kind dir = Ok KindDir → enumerate_tree dir deny_set e = Ok (c, e') →
  ∃ new, e_out e' = e_out e ++ new
    ∧ (∀ o, o ∈ new → clean_tree o)
    ∧ (∀ q, readable dir q → ∃ o, o ∈ new ∧ in_tree o q)
    ∧ (c = Clean → new = [dir]).
Proof.
  intros Hk He. unfold enumerate_tree in He.
  destruct (enumerate_fuel _ _ _ _) as [r|] eqn:Er; [|done]. cbn in He. subst r.
  apply enumerate_fuel_spec in Er as (_ & new & (Ho & _ & _ & Hn) & Hcov & Hc); [|done].
  by exists new.
Qed.

(** ** The FS-ONLY mask *)

(** [DirEntry::path]: the directory joined with the entry's name. *)
Definition read_dir_joins : Prop :=
  ∀ d entries p, host_read_dir d = Ok entries → Ok p ∈ entries → ∃ n, p = d ++ [Normal n].

Lemma in_tree_names root p :
  read_dir_joins → in_tree root p → ∃ r, p = root ++ r ∧ names_only r = true.
Proof.
  intros Hj. induction 1 as [|d p es Hd (r & -> & Hr) Hk Hes Hp].
  - exists []. by rewrite app_nil_r.
  - destruct (Hj _ _ _ Hes Hp) as [n ->]. exists (r ++ [Normal n]). rewrite app_assoc.
    split; [done|]. unfold names_only in *. by rewrite forallb_app, Hr.
Qed.

Lemma prefixes_overlap (p a b ra rb : path) : p = a ++ ra → p = b ++ rb → paths_overlap a b = true.
Proof.
  intros -> Hp. unfold paths_overlap. apply orb_true_iff. rewrite !path_starts_with_spec.
  destruct (app_eq_inv _ _ _ _ Hp) as [(k & -> & _)|(k & -> & _)]; eauto.
Qed.

Lemma normal_abs_prefix a r : a ≠ [] → normal_abs (a ++ r) = true → normal_abs a = true.
Proof.
  intros Ha. destruct a as [|c a]; [done|]. destruct c; cbn; try done.
  unfold names_only. by rewrite forallb_app, andb_true_iff; intros [? _].
Qed.

Lemma lexical_fixed p base : normal_abs p = true → lexical_for_containment p base = Some p.
Proof.
  intros Hp. unfold lexical_for_containment, absolute_for_containment.
  assert (is_absolute p = true) as -> by (by destruct p as [|[]]).
  cbn. f_equal. by apply lexical_normalize_fixed.
Qed.

Lemma normalized_roots_elem project roots out root :
  normalized_roots project roots = Some out → root ∈ roots →
  ∃ l c, lexical_for_containment root project = Some l ∧ (l, c) ∈ out.
Proof.
  revert out. induction roots as [|r roots IH]; intros out Ho Hin; [by apply elem_of_nil in Hin|].
  cbn [normalized_roots] in Ho.
  destruct (lexical_for_containment r project) as [l|] eqn:El; [|done].
  destruct (normalize_for_containment r project) as [c|]; [|done]. cbn in Ho.
  destruct (normalized_roots project roots) as [rest|]; [|done]. injection Ho as <-.
  apply elem_of_cons in Hin as [->|Hin].
  - exists l, c. split; [done|]. by left.
  - destruct (IH rest eq_refl Hin) as (l' & c' & ? & ?). exists l', c'. split; [done|]. by right.
Qed.

(** A kept read rule has no path of a directory root in its tree. *)
Lemma kept_outside project roots out root q p :
  read_dir_joins → normalized_roots project roots = Some out → root ∈ roots →
  normal_abs root = true → keeps_read project out q = true → in_tree root p → ¬ in_tree q p.
Proof.
  intros Hj Ho Hin Hn Hkeep Hr Hq.
  destruct (in_tree_names _ _ Hj Hr) as (r1 & Hp1 & Hr1), (in_tree_names _ _ Hj Hq) as (r2 & Hp2 & Hr2).
  assert (normal_abs p = true) as Hp.
  { subst p. destruct root as [|[] root]; try done. cbn in *.
    unfold names_only in *. by rewrite forallb_app, Hn, Hr1. }
  assert (normal_abs q = true) as Hqn.
  { apply (normal_abs_prefix q r2); [|by rewrite <-Hp2]. intros ->. cbn in Hp2. subst r2.
    by destruct p as [|[]]. }
  destruct (normalized_roots_elem _ _ _ _ Ho Hin) as (l & c & Hl & Hlc).
  rewrite lexical_fixed in Hl by done. injection Hl as <-.
  unfold keeps_read in Hkeep. rewrite lexical_fixed in Hkeep by done.
  destruct (normalize_for_containment q project) as [k|]; [|done].
  apply negb_true_iff, existsb_false in Hkeep. rewrite Forall_forall in Hkeep.
  apply Hkeep in Hlc. cbn in Hlc. by rewrite (prefixes_overlap p q root r2 r1) in Hlc.
Qed.

Lemma enumerate_roots_spec roots e e' :
  (∀ r, r ∈ roots → host_kind r = Ok KindDir) → enumerate_roots roots deny_set e = Ok e' →
  ∃ new, e_out e' = e_out e ++ new ∧ (∀ o, o ∈ new → clean_tree o)
         ∧ ∀ root, root ∈ roots → covers new root.
Proof.
  revert e. induction roots as [|r roots IH]; intros e Hk He.
  - injection He as <-. exists []. rewrite app_nil_r.
    split_and!; [done|by intros o ?%elem_of_nil|by intros o ?%elem_of_nil].
  - cbn [enumerate_roots] in He. destruct (enumerate_tree r deny_set e) as [[c e1]|] eqn:Er; [|done].
    unfold enumerate_tree in Er.
    destruct (enumerate_fuel _ _ _ _) as [x|] eqn:Ef; [|done]. cbn in Er. subst x.
    apply enumerate_fuel_spec in Ef as (_ & n1 & (Ho1 & _ & _ & Hc1) & Hv1 & _);
      [|by apply Hk; left].
    destruct (IH e1) as (n2 & Ho2 & Hc2 & Hv2); [by intros; apply Hk; right|done|].
    exists (n1 ++ n2). split_and!.
    + by rewrite Ho2, Ho1, app_assoc.
    + intros o [?|?]%elem_of_app; auto.
    + intros root [->|?]%elem_of_cons; [by apply covers_l|by apply covers_r, Hv2].
Qed.

Lemma remove_first_elem p l l' q :
  remove_first p l = Some l' → (q ∈ l' → q ∈ l) ∧ (q ∈ l → q ≠ p → q ∈ l').
Proof.
  revert l'. induction l as [|x l IH]; intros l'; cbn [remove_first]; [done|].
  case_bool_decide as Hx.
  - intros [= <-]. subst x. rewrite elem_of_cons. split; [by right|]. by intros [->|?].
  - destruct (remove_first p l) as [l1|]; [|done]. intros [= <-].
    destruct (IH l1 eq_refl) as [H1 H2]. rewrite !elem_of_cons. split; [tauto|].
    intros [->|?] Hne; [by left|right; auto].
Qed.

Lemma drop_excluded_elem roots e q :
  (q ∈ e_out (foldl (drop_excluded_root deny_set) e roots) → q ∈ e_out e)
  ∧ (q ∈ e_out e → excluded q = false → q ∈ e_out (foldl (drop_excluded_root deny_set) e roots)).
Proof.
  revert e. induction roots as [|r roots IH]; intros e; cbn [foldl]; [done|].
  destruct (IH (drop_excluded_root deny_set e r)) as [H1 H2].
  assert ((q ∈ e_out (drop_excluded_root deny_set e r) → q ∈ e_out e)
    ∧ (q ∈ e_out e → excluded q = false → q ∈ e_out (drop_excluded_root deny_set e r)))
    as [H3 H4]; [|by auto].
  unfold drop_excluded_root. destruct (excluded r) eqn:Hr; [|done].
  destruct (remove_first r (e_out e)) as [out|] eqn:Eo; [|done]. cbn.
  destruct (remove_first_elem _ _ _ q Eo) as [H3 H4]. split; [done|].
  intros Hq Hx. apply H4; [done|]. intros ->. congruence.
Qed.

(** What the mask leaves: kept rules, and clean trees covering the readable files. *)
Lemma mask_shape allow_read allow_write project reads ws :
  mask_project_reads_for_fs_only allow_read allow_write deny_set project = Ok (reads, ws) →
  let dirs := List.filter is_dir (List.filter (λ p, negb (is_temp_root p)) allow_write) in
  dirs = [] ∨ ∃ roots, normalized_roots project dirs = Some roots
    ∧ (∀ q, q ∈ reads → keeps_read project roots q = true ∨ clean_tree q)
    ∧ ∀ root, root ∈ dirs → covers reads root.
Proof.
  unfold mask_project_reads_for_fs_only.
  destruct (List.filter (λ p, negb (is_temp_root p)) allow_write) as [|w writes] eqn:Ew; [by left|].
  rewrite <-Ew. set (projs := List.filter _ allow_write) in *.
  destruct (normalized_roots project (List.filter is_dir projs)) as [roots|] eqn:Er; [|done].
  cbn [ok_or mbind result_bind]. 
  destruct (enumerate_roots _ _ _) as [e|] eqn:Ee; [|done].
  intros [= <- _]. right. exists roots. split; [done|].
  apply enumerate_roots_spec in Ee as (new & Ho & Hc & Hv); cycle 1.
  { intros r [_ Hr]%filter_elem. by apply bool_decide_eq_true in Hr. }
  cbn in Ho. split.
  - intros q Hq. apply drop_excluded_elem in Hq. rewrite Ho in Hq.
    apply elem_of_app in Hq as [[_ ?]%filter_elem|?]; [by left|right; auto].
  - intros root Hroot q Hq. destruct (Hv _ Hroot _ Hq) as (o & Hon & Hot). exists o.
    split; [|done]. apply drop_excluded_elem; [rewrite Ho; apply elem_of_app; by right|].
    by apply (Hc o Hon o); constructor.
Qed.

(** C10: In the FS-ONLY tier no read grant reaches a secret of the project: when
    the mask succeeds, no granted read root has in its tree a secret-shaped or
    denied path of a (normal, non-temporary) writable directory, while every
    file of the directory that is not behind such a path stays readable. *)
Theorem mask_hides_secrets allow_read allow_write project reads ws root :
  read_dir_joins →
  mask_project_reads_for_fs_only allow_read allow_write deny_set project = Ok (reads, ws) →
  root ∈ allow_write → is_temp_root root = false → host_kind root = Ok KindDir →
  normal_abs root = true →
  (∀ p q, in_tree root p → excluded p = true → q ∈ reads → ¬ in_tree q p)
  ∧ ∀ p, readable root p → ∃ q, q ∈ reads ∧ in_tree q p.
Proof.
  intros Hj Hm Hw Ht Hk Hn. 
  assert (root ∈ List.filter is_dir (List.filter (λ p, negb (is_temp_root p)) allow_write)) as Hin.
  { rewrite !filter_elem. split_and!; [done|by rewrite Ht|]. unfold is_dir. by rewrite Hk. }
  destruct (mask_shape _ _ _ _ _ Hm) as [Hnil|(roots & Hroots & Hq & Hcov)].
  { rewrite Hnil in Hin. by apply elem_of_nil in Hin. }
  split; [|by apply Hcov]. intros p q Hp Hx Hin' Hqp.
  destruct (Hq q Hin') as [Hkeep|Hclean].
  - by eapply kept_outside.
  - destruct (Hclean p Hqp). congruence.
Qed.
End EnumerationFacts.

(** ** Properties: environment patterns *)

Lemma foldl_insert_spec (P : string → bool) ps acc :
  ascending acc →
  let out := foldl (λ out p, if P p then insert_sorted p out else out) acc ps in
  ascending out ∧ ∀ p, p ∈ out ↔ p ∈ acc ∨ (p ∈ ps ∧ P p = true).
Proof.
  revert acc. induction ps as [|x ps IH]; intros acc Ha; cbn [foldl].
  - split; [done|]. intros p. split; [by left|]. intros [?|[?%elem_of_nil _]]; done.
  - destruct (P x) eqn:Hx.
    + destruct (IH (insert_sorted x acc)) as [Hs Hel]; [by apply insert_sorted_ascending|].
      split; [done|]. intros p. rewrite Hel, insert_sorted_elem, elem_of_cons. naive_solver.
    + destruct (IH acc Ha) as [Hs Hel]. split; [done|]. intros p. rewrite Hel, elem_of_cons.
      naive_solver congruence.
Qed.

Lemma env_chars_no n c :
  all_chars is_env_char n = true → is_env_char c = false → contains_char n c = false.
Proof.
  induction n as [|d n IH]; cbn; [done|]. intros [Hd Hn]%andb_true_iff Hc.
  rewrite IH by done. destruct (Ascii.eqb_spec d c) as [->|]; [congruence|done].
Qed.

Lemma env_pattern_shape p :
  env_pattern_ok p = true ↔
    ∃ n, n ≠ "" ∧ all_chars is_env_char n = true ∧ (p = n ∨ p = n +:+ "*").
Proof.
  unfold env_pattern_ok. rewrite negb_true_iff, !orb_false_iff, negb_false_iff, andb_false_iff,
    negb_false_iff. split.
  - intros [[[[[He _] _] _] Hall] _].
    exists (default p (strip_suffix "*" p)). split_and!; [by intros Hn; rewrite Hn in He|done|].
    destruct (strip_suffix "*" p) as [n|] eqn:E; cbn; [right; by apply strip_suffix_Some|by left].
  - intros (n & Hne & Hall & Hp).
    assert (contains_char n "*" = false ∧ contains_char n "=" = false
      ∧ contains_char n (chr 0) = false) as (Hs & He & Hz)
      by (split_and!; by apply env_chars_no).
    assert (is_empty n = false) as Hem by (by destruct n).
    destruct Hp as [->| ->].
    + assert (strip_suffix "*" n = None) as ->.
      { destruct (strip_suffix "*" n) as [m|] eqn:E; [|done]. apply strip_suffix_Some in E.
        subst n. rewrite contains_char_app in Hs. cbn in Hs. by rewrite orb_true_r in Hs. }
      change (default n None) with n. rewrite Hall, Hem, He, Hz. split_and!; auto.
      destruct (String.eqb_spec n "*") as [->|]; done.
    + assert (strip_suffix "*" (n +:+ "*") = Some n) as -> by (by apply strip_suffix_Some).
      change (default (n +:+ "*") (Some n)) with n. rewrite Hall, Hem, !contains_char_app, He, Hz. cbn. split_and!; auto.
      * destruct (String.eqb_spec (n +:+ "*") "*") as [E|]; [|done]. exfalso. apply Hne.
        by apply (string_app_eq_nil n "*").
      * right. apply ends_with_true. by exists n.
Qed.

(** The environment rules of a resolved policy are exactly the well-formed
    ones: a pattern survives normalisation precisely when it is a non-empty
    name of letters, digits and underscores, optionally followed by one [*]
    (so never the catch-all [*]); the result is sorted without duplicates. *)
Theorem normalize_env_patterns_spec ps :
  ascending (normalize_env_patterns ps)
  ∧ ∀ p, p ∈ normalize_env_patterns ps ↔
      p ∈ ps ∧ ∃ n, n ≠ "" ∧ all_chars is_env_char n = true ∧ (p = n ∨ p = n +:+ "*").
Proof.
  destruct (foldl_insert_spec env_pattern_ok ps []) as [Hs Hel]; [done|].
  split; [done|]. intros p. unfold normalize_env_patterns. rewrite Hel, env_pattern_shape, elem_of_nil.
  tauto.
Qed.

(** ** Properties: the resolved roots *)

Section BuildFacts.
Context `{LH : LoadHost}.

Definition covered (denied : list path) (a : path) : Prop :=
  ∃ d, d ∈ denied ∧ path_starts_with a d = true.

Lemma subtract_elem denied allowed a :
  a ∈ subtract denied allowed ↔ a ∈ allowed ∧ ¬ covered denied a.
Proof.
  unfold subtract, covered. rewrite filter_elem, negb_true_iff, <-not_true_iff_false, existsb_true.
  apply and_iff_compat_l, not_iff_compat. split; intros (d & Hd & Hs); exists d; split; try done.
  - apply orb_true_iff in Hs as [->%bool_decide_eq_true|?]; [apply path_starts_with_refl|done].
  - apply orb_true_iff. by right.
Qed.

Lemma foldl_push_new_path_elem l ps x : x ∈ foldl push_new_path l ps ↔ x ∈ l ∨ x ∈ ps.
Proof.
  revert l. induction ps as [|p ps IH]; intros l; cbn [foldl]; [set_solver|].
  rewrite IH. unfold push_new_path. case_bool_decide; set_solver.
Qed.

Lemma foldl_without_cache_elem l caches x :
  x ∈ foldl without_cache l caches ↔ x ∈ l ∧ ¬ covered caches x.
Proof.
  revert l. unfold covered. induction caches as [|c caches IH]; intros l; cbn [foldl].
  - split; [|by intros [? _]]. intros ?. split; [done|]. by intros (d & ?%elem_of_nil & _).
  - rewrite IH. unfold without_cache. rewrite filter_elem, andb_true_iff, !negb_true_iff.
    rewrite bool_decide_eq_false. setoid_rewrite elem_of_cons. split.
    + intros [(Hx & Hne & Hs) Hn]. split; [done|]. intros (d & [->|Hd] & Hc); [congruence|].
      apply Hn. by exists d.
    + intros [Hx Hn]. split_and!; [done|..].
      * intros ->. apply Hn. exists c. split; [by left|]. apply path_starts_with_refl.
      * destruct (path_starts_with x c) eqn:E; [|done]. destruct Hn. exists c. auto.
      * intros (d & Hd & Hc). apply Hn. exists d. auto.
Qed.

Definition resolved_or_nil (entries : list string) (vars : Vars) (agent : option path) : list path :=
  match resolve_list entries vars agent with Ok ps => ps | Err _ => [] end.

(** The roots an accepted resolution is made of. *)
Lemma resolve_roots_shape project home tier m agent r :
  resolve_roots project home tier m agent = Ok r →
  let vars := mk_vars project home resolve_runtime_dir in
  let list l := resolved_or_nil l vars agent in
  let caches := if m_read_only_caches m then resolve_package_cache_paths home else [] in
  r_deny_write r = foldl push_new_path (list (m_deny_write m)) caches
  ∧ r_write r = sort_dedup (subtract (list (m_deny_unix_sockets m)) (foldl push_new_path
      (subtract (r_deny_write r) (foldl without_cache (list (m_allow_write m)) caches))
      (list (m_allow_unix_sockets m))))
  ∧ (tier ≠ FsOnly →
     r_read r = sort_dedup (subtract (list (m_deny_unix_sockets m)) (foldl push_new_path
       (subtract (r_deny_read r) (foldl push_new_path
          (foldl push_new_path (list (m_allow_read m)) (r_ro_mounts r)) caches))
       (list (m_allow_unix_sockets m))))).
Proof.
  unfold resolve_roots, resolved_or_nil. set (vars := mk_vars _ _ _).
  set (caches := if m_read_only_caches m then _ else _). intros Hr.
  do 5 (apply result_bind_ok in Hr as (? & ? & Hr)).
  apply result_bind_ok in Hr as (denied & _ & Hr).
  apply result_bind_ok in Hr as ([reads ws] & Hmask & Hr). injection Hr as <-.
  cbn [r_write r_read r_deny_write r_deny_read r_ro_mounts fst].
  repeat match goal with E : resolve_list _ _ _ = Ok _ |- _ => rewrite ?E; clear E end.
  split_and!; [done|done|]. intros Ht. rewrite bool_decide_eq_false_2 in Hmask by done.
  by injection Hmask as <- _.
Qed.

Lemma write_roots_elem project home tier m agent r w :
  resolve_roots project home tier m agent = Ok r →
  let vars := mk_vars project home resolve_runtime_dir in
  w ∈ r_write r ↔
    ((w ∈ resolved_or_nil (m_allow_write m) vars agent ∧ ¬ covered (r_deny_write r) w)
     ∨ w ∈ resolved_or_nil (m_allow_unix_sockets m) vars agent)
    ∧ ¬ covered (resolved_or_nil (m_deny_unix_sockets m) vars agent) w.
Proof.
  intros (Hd & -> & _)%resolve_roots_shape. cbn zeta in *.
  rewrite sort_dedup_elem, subtract_elem, foldl_push_new_path_elem, subtract_elem.
  rewrite foldl_without_cache_elem, Hd. set (caches := if m_read_only_caches m then _ else _).
  assert (∀ l a, covered caches a → covered (foldl push_new_path l caches) a) as Hcc.
  { intros l a (d & Hin & Hs). exists d. split; [|done]. apply foldl_push_new_path_elem. by right. }
  naive_solver.
Qed.

Lemma write_roots_denied project home tier m agent r :
  resolve_roots project home tier m agent = Ok r →
  ∀ w, w ∈ r_write r → covered (r_deny_write r) w →
    w ∈ resolved_or_nil (m_allow_unix_sockets m) (mk_vars project home resolve_runtime_dir) agent.
Proof. intros Hr w Hw Hc. apply (write_roots_elem _ _ _ _ _ _ _ Hr) in Hw. tauto. Qed.

(** Deny rules win: a write root of the resolved policy is exactly a resolved
    [allow_write] path that no [deny_write] path (nor, with read-only caches, a
    package cache) contains, or an allowed socket, in either case outside every
    denied socket; and outside the FS-ONLY tier the read roots obey the same
    law with the read rules, the read-only mounts and the caches. *)
Theorem resolved_roots_spec project home tier m agent r :
  resolve_roots project home tier m agent = Ok r →
  let vars := mk_vars project home resolve_runtime_dir in
  let socks := resolved_or_nil (m_allow_unix_sockets m) vars agent in
  let denied_socks := resolved_or_nil (m_deny_unix_sockets m) vars agent in
  let caches := if m_read_only_caches m then resolve_package_cache_paths home else [] in
  (∀ w, w ∈ r_write r ↔
     ((w ∈ resolved_or_nil (m_allow_write m) vars agent ∧ ¬ covered (r_deny_write r) w)
      ∨ w ∈ socks) ∧ ¬ covered denied_socks w)
  ∧ (∀ d, d ∈ r_deny_write r ↔ d ∈ resolved_or_nil (m_deny_write m) vars agent ∨ d ∈ caches)
  ∧ (tier ≠ FsOnly → ∀ w, w ∈ r_read r ↔
     (((w ∈ resolved_or_nil (m_allow_read m) vars agent ∨ w ∈ r_ro_mounts r ∨ w ∈ caches)
       ∧ ¬ covered (r_deny_read r) w) ∨ w ∈ socks) ∧ ¬ covered denied_socks w).
Proof.
  intros Hr vars socks denied_socks caches. split_and!.
  - intros w. by apply (write_roots_elem _ _ _ _ _ _ _ Hr).
  - intros d. apply resolve_roots_shape in Hr as (-> & _). by rewrite foldl_push_new_path_elem.
  - intros Ht w. apply resolve_roots_shape in Hr as (_ & _ & Hread). rewrite (Hread Ht).
    rewrite sort_dedup_elem, subtract_elem, foldl_push_new_path_elem, subtract_elem,
      !foldl_push_new_path_elem. tauto.
Qed.

(** ** Properties: denied entries and the whole policy *)

Lemma deny_one_elem agent d p x :
  x ∈ d_set (deny_one agent d p) ↔ x ∈ d_set d ∨ (x = p ∧ agent ≠ Some p).
Proof.
  unfold deny_one. case_bool_decide as Ha; cbn; [naive_solver|].
  case_bool_decide as Hp; cbn; set_solver.
Qed.

Definition denied_wf (d : Denied) : Prop :=
  NoDup (d_set d)
  ∧ ∀ entry, entry ∈ d_resolved d ↔
      deny_path entry ∈ d_set d
      ∧ ∃ k, host_kind (deny_path entry) = Ok k ∧ deny_is_dir entry = bool_decide (k = KindDir).

Lemma deny_one_wf agent d p : denied_wf d → denied_wf (deny_one agent d p).
Proof.
  intros [Hnd Hel]. unfold deny_one. case_bool_decide as Ha; cbn; [done|].
  case_bool_decide as Hp; cbn; [done|]. split; cbn.
  - apply NoDup_app. split_and!; [done|set_solver|apply NoDup_singleton].
  - intros entry. rewrite !elem_of_app, Hel, list_elem_of_singleton. split.
    + intros [[? ?]|He]; [by auto|].
      destruct (host_kind p) as [k|] eqn:Hk; [|by apply elem_of_nil in He].
      apply list_elem_of_singleton in He as ->. cbn. eauto.
    + intros [[Hs|Hpe] (k & Hk & Hd)]; [left; eauto|]. right. rewrite <-Hpe, Hk.
      apply list_elem_of_singleton. destruct entry as [q b]; cbn [deny_path deny_is_dir] in *. by rewrite Hd.
Qed.

Lemma deny_fold_spec agent ps d :
  denied_wf d →
  denied_wf (foldl (deny_one agent) d ps)
  ∧ ∀ x, x ∈ d_set (foldl (deny_one agent) d ps) ↔ x ∈ d_set d ∨ (x ∈ ps ∧ agent ≠ Some x).
Proof.
  revert d. induction ps as [|p ps IH]; intros d Hd; cbn [foldl].
  - split; [done|]. intros x. split; [by left|]. intros [?|[?%elem_of_nil _]]; done.
  - destruct (IH (deny_one agent d p)) as [Hw Hel]; [by apply deny_one_wf|]. split; [done|].
    intros x. rewrite Hel, deny_one_elem, elem_of_cons. naive_solver.
Qed.

Lemma resolve_list_one e vars agent ps :
  resolve_list [e] vars agent = Ok ps →
  ∀ x, x ∈ ps ↔ x ∈ resolve_entry_with_agent e vars agent.
Proof.
  unfold resolve_list. cbn [resolve_entries]. destruct (_ && _); [done|]. intros [= <-] x.
  by rewrite sort_dedup_elem, app_nil_r.
Qed.

Lemma deny_all_elems entries vars agent d :
  deny_all entries vars agent (mk_denied [] []) = Ok d →
  denied_wf d
  ∧ ∀ x, x ∈ d_set d ↔
      agent ≠ Some x ∧ ∃ e, e ∈ entries ∧ x ∈ resolve_entry_with_agent e vars agent.
Proof.
  assert (∀ d0, denied_wf d0 → deny_all entries vars agent d0 = Ok d →
    denied_wf d ∧ ∀ x, x ∈ d_set d ↔ x ∈ d_set d0
      ∨ (agent ≠ Some x ∧ ∃ e, e ∈ entries ∧ x ∈ resolve_entry_with_agent e vars agent)) as Hgen.
  { induction entries as [|e entries IH]; intros d0 Hw; cbn [deny_all].
    - intros [= <-]. split; [done|]. intros x. split; [by left|].
      intros [?|(_ & e & ?%elem_of_nil & _)]; done.
    - intros (ps & Hps & Hd)%result_bind_ok.
      destruct (deny_fold_spec agent ps d0 Hw) as [Hw1 Hel1].
      destruct (IH _ Hw1 Hd) as [Hw2 Hel2]. split; [done|]. intros x.
      rewrite Hel2, Hel1, (resolve_list_one _ _ _ _ Hps). setoid_rewrite elem_of_cons.
      naive_solver. }
  intros Hd. destruct (Hgen (mk_denied [] [])) as [Hw Hel]; [|done|].
  - split; [constructor|]. cbn. intros entry. split; [by intros ?%elem_of_nil|].
    intros [?%elem_of_nil _]. done.
  - split; [done|]. intros x. rewrite Hel. cbn. rewrite elem_of_nil. tauto.
Qed.

(** The denied entries of a policy are complete and exact: every path an
    entry of the deny rules, deny presets, deny globs or denied sockets resolves
    to is denied (the agent's own directory apart) and nothing else is; and the
    entries handed to the sandbox are exactly those that exist, with their kind. *)
Theorem deny_all_spec entries vars agent d :
  deny_all entries vars agent (mk_denied [] []) = Ok d →
  denied_wf d
  ∧ ∀ x, x ∈ d_set d ↔
      agent ≠ Some x ∧ ∃ e, e ∈ entries ∧ x ∈ resolve_entry_with_agent e vars agent.
Proof. apply deny_all_elems. Qed.

Lemma build_policy_shape profile custom project home tier m agent p :
  build_policy profile custom project home tier m agent = Ok p →
  ∃ r prof, resolve_roots project home tier m agent = Ok r
    ∧ check (resolved_policy profile custom m r prof) = Ok p.
Proof.
  unfold build_policy. intros (r & Hr & Hp)%result_bind_ok.
  apply result_bind_ok in Hp as (prof & _ & Hp). by exists r, prof.
Qed.

Lemma check_shape q p :
  check q = Ok p →
  (∃ ws, p = with_checked q (List.filter host_exists (allow_write q)) ws)
  ∧ ∀ w, w ∈ allow_write q → ¬ system_root w.
Proof.
  unfold check. intros (ws & Hws & [= <-])%result_bind_ok. split; [by eexists|].
  apply (check_writes_ok (meta_name (metadata q))). by rewrite Hws.
Qed.

(** A policy that loads is safe to enforce: every write root exists, is not a
    system root, and is outside every [deny_write] path of the policy unless it
    was allowed as a socket; environment patterns are the normalised ones. *)
Theorem build_policy_safe profile custom project home tier m agent p w :
  build_policy profile custom project home tier m agent = Ok p → w ∈ allow_write p →
  host_exists w = true ∧ ¬ system_root w
  ∧ (covered (deny_write p) w →
     w ∈ resolved_or_nil (m_allow_unix_sockets m) (mk_vars project home resolve_runtime_dir) agent)
  ∧ environment p = mk_env (normalize_env_patterns (m_pass_through m))
                           (normalize_env_patterns (m_deny_env m)).
Proof.
  intros (r & prof & Hr & [[ws ->] Hsys]%check_shape)%build_policy_shape Hin.
  apply filter_elem in Hin as [Hin Hex]. split_and!; [done|by apply Hsys| |done].
  by apply (write_roots_denied _ _ _ _ _ _ Hr).
Qed.

(** ** Properties: well-formedness *)

(** The invariants the enforcement code relies on. *)
Definition policy_wf (p : Policy) : Prop :=
  StronglySorted path_lt (allow_write p) ∧ StronglySorted path_lt (allow_read p)
  ∧ NoDup (deny_write p) ∧ NoDup (deny_read p) ∧ NoDup (ro_mounts p)
  ∧ NoDup (deny_path <$> deny_resolved p)
  ∧ ascending (pass_through (environment p)) ∧ ascending (env_deny (environment p))
  ∧ ∀ w, w ∈ allow_write p → host_exists w = true.

Lemma filter_sorted (P : path → bool) l :
  StronglySorted path_lt l → StronglySorted path_lt (List.filter P l).
Proof.
  induction 1 as [|p l Hs IH Hf]; cbn [List.filter]; [constructor|].
  destruct (P p); [|done]. constructor; [done|].
  rewrite Forall_forall in Hf |- *. intros q [Hq _]%filter_elem. by apply Hf.
Qed.

Lemma foldl_push_new_path_NoDup l ps : NoDup l → NoDup (foldl push_new_path l ps).
Proof.
  revert l. induction ps as [|p ps IH]; intros l Hl; cbn [foldl]; [done|]. apply IH.
  unfold push_new_path. case_bool_decide; [done|]. apply NoDup_app.
  split_and!; [done|set_solver|apply NoDup_singleton].
Qed.

Lemma resolve_list_NoDup l vars agent ps : resolve_list l vars agent = Ok ps → NoDup ps.
Proof.
  unfold resolve_list. destruct (resolve_entries l vars agent); [|done]. intros [= <-].
  apply sorted_NoDup, sort_dedup_sorted.
Qed.

Definition resolved_nodup (d : Denied) : Prop :=
  NoDup (deny_path <$> d_resolved d) ∧ ∀ e, e ∈ d_resolved d → deny_path e ∈ d_set d.

Lemma deny_one_nodup agent d p : resolved_nodup d → resolved_nodup (deny_one agent d p).
Proof.
  intros [Hnd Hin]. unfold deny_one. case_bool_decide as Ha; cbn; [done|].
  case_bool_decide as Hp; cbn; [done|].
  destruct (host_kind p) as [k|]; split; cbn; rewrite ?app_nil_r.
  - rewrite fmap_app. apply NoDup_app. split_and!; [done| |apply NoDup_singleton].
    intros x (e & -> & He)%list_elem_of_fmap. apply Hin in He. set_solver.
  - intros e. rewrite !elem_of_app, !list_elem_of_singleton. intros [?| ->]; [by left; auto|by right].
  - done.
  - intros x Hx. apply elem_of_app. left. by apply Hin.
Qed.

Lemma deny_all_nodup entries vars agent d d' :
  resolved_nodup d → deny_all entries vars agent d = Ok d' → resolved_nodup d'.
Proof.
  revert d. induction entries as [|e entries IH]; intros d Hd; cbn [deny_all]; [by intros [= <-]|].
  intros (ps & _ & H')%result_bind_ok. apply IH in H'; [done|]. clear H'.
  revert d Hd. induction ps as [|p ps IHp]; intros d Hd; cbn [foldl]; [done|].
  by apply IHp, deny_one_nodup.
Qed.

(** C34: Every policy the resolver accepts is well formed: write and read roots
    sorted without duplicates, the write roots existing, no path denied twice,
    no deny rule or mount repeated, and sorted environment patterns. *)
Theorem build_policy_wf profile custom project home tier m agent p :
  build_policy profile custom project home tier m agent = Ok p → policy_wf p.
Proof.
  intros (r & prof & Hr & [[ws ->] _]%check_shape)%build_policy_shape.
  unfold resolve_roots in Hr.
  apply result_bind_ok in Hr as (w0 & _ & Hr). apply result_bind_ok in Hr as (r0 & _ & Hr).
  apply result_bind_ok in Hr as (dw & Hdw%resolve_list_NoDup & Hr).
  apply result_bind_ok in Hr as (dr & Hdr%resolve_list_NoDup & Hr).
  apply result_bind_ok in Hr as (ro & Hro%resolve_list_NoDup & Hr).
  apply result_bind_ok in Hr as (denied & Hden & Hr).
  apply result_bind_ok in Hr as ([reads mws] & _ & Hr). injection Hr as <-.
  apply deny_all_nodup in Hden as [Hden _];
    [|split; [constructor|by intros e ?%elem_of_nil]].
  unfold policy_wf; cbn. split_and!; try done.
  - apply filter_sorted, sort_dedup_sorted.
  - apply sort_dedup_sorted.
  - by apply foldl_push_new_path_NoDup.
  - by apply (foldl_insert_spec env_pattern_ok _ []).
  - by apply (foldl_insert_spec env_pattern_ok _ []).
  - by intros w [_ ?]%filter_elem.
Qed.
End BuildFacts.

(** ** A concrete host *)

(** A project [/p] with a source file, a secret and a link. *)
Definition demo_kind (p : path) : result string FileKind :=
  let s := to_str p in
  if one_of s ["/p"; "/p/src"; "/home/u"; "/p/out"] then Ok KindDir
  else if one_of s ["/p/.env"; "/p/src/a.c"; "/p/out/log"] then Ok KindFile
  else if String.eqb s "/p/link" then Ok KindSymlink
  else Err "not found".

Definition demo_read_dir (p : path) : result string (list (result string path)) :=
  let entries ws := Ok ((λ w, Ok (push p [Normal w])) <$> ws) in
  let s := to_str p in
  if String.eqb s "/p" then entries [".env"; "src"; "link"; "out"]
  else if String.eqb s "/p/src" then entries ["a.c"]
  else if String.eqb s "/p/out" then entries ["log"]
  else if String.eqb s "/home/u" then entries []
  else Err "not a directory".

Definition demo_host : LoadHost := {|
  host_canonicalize := λ p, if is_absolute p then Some p else None;
  host_kind := demo_kind;
  host_exists := λ p, is_ok (demo_kind p);
  host_is_file := λ p, bool_decide (demo_kind p = Ok KindFile);
  host_is_dir := λ p, bool_decide (demo_kind p = Ok KindDir);
  host_read_dir := demo_read_dir;
  host_read_to_string := λ _, Err "not found";
  host_glob := λ _, [];
  host_env := λ v, if String.eqb v "HOME" then Some "/home/u" else None;
  host_cwd := Some (components "/p");
  host_uid := 1000 |}.

Lemma push_name d n : push d [Normal n] = d ++ [Normal n].
Proof. by destruct d. Qed.

Lemma demo_joins : @read_dir_joins demo_host.
Proof.
  intros d entries p. cbn. unfold demo_read_dir. intros Hd Hp.
  repeat case_match; simplify_eq;
    repeat (apply elem_of_cons in Hp as [[= ->]|Hp]; [eexists; apply push_name|]);
    by apply elem_of_nil in Hp.
Qed.

Definition demo_start : Enum := mk_enum [] 0 0.
Definition demo_enum_result : Enum :=
  mk_enum [components "/p/src"; components "/p/out"] 6 1.

Lemma demo_enumerates :
  @enumerate_tree demo_host (components "/p") [] demo_start = Ok (Dirty, demo_enum_result).
Proof. vm_compute. reflexivity. Qed.

Lemma demo_p_is_dir : @host_kind demo_host (components "/p") = Ok KindDir.
Proof. vm_compute. reflexivity. Qed.

Lemma enumerate_tree_spec_witness :
  @enumerate_tree demo_host (components "/p") [] demo_start = Ok (Dirty, demo_enum_result)
  ∧ ∃ new, e_out demo_enum_result = e_out demo_start ++ new
      ∧ forallb (λ o, negb (is_enumeration_excluded o [])) new = true.
Proof.
  split; [exact demo_enumerates|].
  destruct (@enumerate_tree_spec demo_host [] (components "/p") demo_start Dirty demo_enum_result
    demo_p_is_dir demo_enumerates) as (new & Ho & Hc & _).
  exists new. split; [exact Ho|]. apply forallb_forall. intros o Hin%list_elem_of_In.
  apply negb_true_iff, (Hc o Hin o). constructor.
Defined.

Definition demo_reads : list path :=
  [components "/usr"; components "/p/src"; components "/p/out"].

Lemma demo_masks :
  @mask_project_reads_for_fs_only demo_host [components "/p"; components "/usr"]
    [components "/p"] [] (components "/p")
  = Ok (demo_reads, [removed_read_warning; excluded_warning 1]).
Proof. vm_compute. reflexivity. Qed.

Lemma demo_env_in_tree : @in_tree demo_host (components "/p") (components "/p/.env").
Proof.
  eapply (@in_entry demo_host) with (d := components "/p"); [constructor|reflexivity|reflexivity|].
  left.
Qed.

Lemma mask_hides_secrets_witness :
  @read_dir_joins demo_host
  ∧ ¬ @in_tree demo_host (components "/usr") (components "/p/.env").
Proof.
  split; [exact demo_joins|].
  refine (proj1 (@mask_hides_secrets demo_host [] _ [components "/p"] (components "/p") demo_reads _
    (components "/p") demo_joins demo_masks _ _ demo_p_is_dir _) _ _ demo_env_in_tree _ _);
    [by left|reflexivity|reflexivity|vm_compute; reflexivity|by left].
Defined.

(** Writes to the project and to a socket, [/p/.git] and the socket's directory denied. *)
Definition demo_merged : MergedPolicy :=
  applied default_merged
    (mk_raw_layer None None
       (Some (mk_raw_filesystem (Some (Many ["$PROJECT"; "$PROJECT/out"])) None None
                (Some (Many ["$PROJECT/out"])) None None None None None None None None))
       None None None None (Some (mk_raw_sockets (Some (One "$PROJECT/out/log")) None)) None None
       None None)
    UserGlobal (net_of default_merged).

Definition demo_resolve := @resolve_roots demo_host (components "/p") (components "/home/u") Full
  demo_merged None.
Definition demo_roots : Roots :=
  match demo_resolve with Ok r => r | Err _ => mk_roots [] [] [] [] [] (mk_denied [] []) [] end.

Lemma demo_resolve_ok :
  demo_resolve = Ok demo_roots
  ∧ r_write demo_roots = [components "/p"; components "/p/out/log"]
  ∧ r_deny_write demo_roots = [components "/p/out"].
Proof. split_and!; vm_compute; reflexivity. Qed.

Lemma resolved_roots_spec_witness :
  demo_resolve = Ok demo_roots ∧ components "/p" ∈ r_write demo_roots.
Proof.
  split; [exact (proj1 demo_resolve_ok)|].
  apply (proj1 (@resolved_roots_spec demo_host (components "/p") (components "/home/u") Full
    demo_merged None demo_roots (proj1 demo_resolve_ok)) (components "/p")).
  split.
  - left. split; [apply (bool_decide_unpack _); vm_compute; exact I|].
    intros (d & Hd & Hs). rewrite (proj2 (proj2 demo_resolve_ok)) in Hd.
    apply list_elem_of_singleton in Hd as ->. vm_compute in Hs. discriminate.
  - intros (d & Hd & _). vm_compute in Hd. inversion Hd.
Defined.

Definition demo_denied : Denied :=
  mk_denied [components "/p/.env"; components "/p/none"]
            [mk_deny (components "/p/.env") false].

Lemma demo_deny_all :
  @deny_all demo_host ["$PROJECT/.env"; "/p/none"; "/p/.env"]
    (mk_vars (components "/p") (components "/home/u") None) None (mk_denied [] []) = Ok demo_denied.
Proof. vm_compute. reflexivity. Qed.

Lemma deny_all_spec_witness :
  @deny_all demo_host ["$PROJECT/.env"; "/p/none"; "/p/.env"]
    (mk_vars (components "/p") (components "/home/u") None) None (mk_denied [] []) = Ok demo_denied
  ∧ NoDup (d_set demo_denied).
Proof.
  split; [exact demo_deny_all|].
  exact (proj1 (proj1 (@deny_all_spec demo_host _ _ _ _ demo_deny_all))).
Defined.

Definition demo_build := @build_policy demo_host "default" false (components "/p")
  (components "/home/u") Full demo_merged None.
Definition demo_policy : Policy :=
  match demo_build with Ok p => p | Err _ => default_policy end.

Lemma demo_build_ok :
  demo_build = Ok demo_policy ∧ allow_write demo_policy = [components "/p"; components "/p/out/log"].
Proof. split; vm_compute; reflexivity. Qed.

Lemma demo_p_writable : components "/p" ∈ allow_write demo_policy.
Proof. rewrite (proj2 demo_build_ok). by left. Qed.

Lemma build_policy_safe_witness :
  demo_build = Ok demo_policy ∧ @host_exists demo_host (components "/p") = true.
Proof.
  split; [exact (proj1 demo_build_ok)|].
  exact (proj1 (@build_policy_safe demo_host "default" false (components "/p")
    (components "/home/u") Full demo_merged None demo_policy (components "/p")
    (proj1 demo_build_ok) demo_p_writable)).
Defined.

Lemma build_policy_wf_witness : demo_build = Ok demo_policy ∧ @policy_wf demo_host demo_policy.
Proof.
  split; [exact (proj1 demo_build_ok)|].
  exact (@build_policy_wf demo_host "default" false (components "/p") (components "/home/u") Full
    demo_merged None demo_policy (proj1 demo_build_ok)).
Defined.

(** ** What the rules do not cover *)

(** An allowed socket is writable although a [deny_write] rule contains it. *)
Lemma allowed_socket_beats_deny_write :
  components "/p/out/log" ∈ r_write demo_roots
  ∧ covered (r_deny_write demo_roots) (components "/p/out/log").
Proof.
  rewrite (proj1 (proj2 demo_resolve_ok)), (proj2 (proj2 demo_resolve_ok)). split.
  - by right; left.
  - exists (components "/p/out"). split; [by left|vm_compute; reflexivity].
Qed.

(** In the FS-ONLY tier the enumeration grants reads of a write root although
    the directory it lies in is denied: only exact entries are excluded. *)
Lemma enumeration_ignores_denied_ancestor :
  @mask_project_reads_for_fs_only demo_host [] [components "/p/out"] [components "/p"]
    (components "/p") = Ok ([components "/p/out"], []).
Proof. vm_compute. reflexivity. Qed.
