(* ===== verification/Loader.v ===== *)
(** * Loader: the seven tiers

    Model of [LayeredPolicyLoader::load] of [src/src/policy/loader/merge.rs]
    and of [src/src/policy/loader/mod.rs].  Each tier is a step on the merged
    policy; the agent tier also creates directories in the home, after which
    the host is the one [touch] returns.  The warnings printed about the
    system policy's owner and mode do not influence the result. *)

From S2P Require Import Prelude Paths PolicyTypes Termination Schema Presets Merge Globs Resolve.

(** ** Options *)

Record PolicyLoadOptions : Type := mk_options {
  opt_agent : option string;
  opt_preset : option SecurityPreset;
  opt_branch : option string;
  opt_git_tag : option string;
  opt_project_policy : option path;
  opt_system_policy : option path;
  opt_user_policy : option path;
  include_system_policy : bool;
  include_user_policy : bool;
  include_project_policy : bool;
  include_fragments : bool;
  include_local_override : bool;
  opt_require_signed : bool;
  opt_overrides : PolicyOverrides;
}.

Definition default_options : PolicyLoadOptions :=
  mk_options None None None None None None None true true true true true false no_overrides.

Record LayeredPolicyLoader : Type := mk_loader {
  system_policy_path : option path;
  user_policy_path : option path;
  load_system_policy : bool;
  load_user_policy : bool;
  load_fragments : bool;
  load_local_override : bool;
  loader_require_signed : bool;
}.

Definition loader_new : LayeredPolicyLoader := mk_loader None None true true true true false.

(** ** What the agent tier creates in the home *)

Definition agent_dir_arms_a : list (list string * list string) := [
  (["codex"],
   [".config/codex"; ".codex/plugins"; ".codex/skills"; ".local/share/codex"]);
  (["claude"],
   [".claude/plugins"; ".claude/skills"; ".config/claude"; ".config/claude-code";
   ".local/share/claude"]);
  (["antigravity"],
   [".gemini/antigravity/plugins"; ".gemini/config/plugins"; ".gemini/config/skills"]);
  (["opencode"],
   [".local/share/opencode/log"; ".local/state/opencode"; ".config/opencode";
   ".config/opencode/plugins"; ".local/share/opencode/plugins"]);
  (["smolagents"],
   [".cache/huggingface"; ".cache/transformers"; ".cache/torch"]);
  (["amp"],
   [".amp"; ".config/amp"; ".local/share/amp"]);
  (["omp"],
   [".config/omp"; ".omp"]);
  (["zcode"],
   [".zcode"; ".config/zcode"]);
  (["kimi"],
   [".kimi"; ".config/kimi"]);
  (["grok"],
   [".grok"; ".config/grok"]);
  (["hermes"],
   [".hermes"; ".config/hermes"]);
  (["kilo"],
   [".kilo"; ".config/kilo"]);
  (["pi"],
   [".pi"; ".config/pi"]);
  (["command_code"],
   [".command-code"; ".config/command-code"]);
  (["freebuff"],
   [".freebuff"; ".config/freebuff"]);
  (["deepseek_harness"],
   [".deepseek"; ".config/deepseek"]);
  (["omnigent"],
   [".omnigent"; ".config/omnigent"]);
  (["crewai"],
   [".crewai"; ".config/crewai"]);
  (["autogen"],
   [".autogen"; ".autogenstudio"; ".config/autogen"])].

Definition agent_dir_arms_b : list (list string * list string) := [
  (["aider"],
   [".aider"; ".config/aider"]);
  (["cursor"],
   [".config/Cursor"; ".cursor/plugins"; ".cursor/skills"]);
  (["cline"],
   [".cline"; ".config/cline"]);
  (["windsurf"],
   [".codeium"; ".windsurf"; ".config/windsurf"]);
  (["goose"],
   [".config/goose"; ".goose/plugins"; ".goose/skills"]);
  (["openhands"],
   [".openhands"; ".config/openhands"; ".openhands/plugins"; ".openhands/skills"]);
  (["devin"],
   [".devin"; ".config/devin"; ".devin/plugins"; ".devin/skills"]);
  (["copilot"],
   [".config/github-copilot"; ".copilot/plugins"; ".copilot/skills"]);
  (["custom"],
   [".config/vetto/agents/custom/plugins"; ".config/vetto/agents/custom/skills"]);
  (["swebench"],
   [".swebench"]);
  (["qwen_code"],
   [".qwen"; ".config/qwen"]);
  (["roo_code"],
   [".roo"; ".config/roo"]);
  (["browser_use"],
   [".browser-use"; ".config/browser-use"])].

Definition agent_file_arms : list (list string * list (string * string)) :=
  [(["claude"], [(".claude.json", "{}")]); (["aider"], [(".aider.conf.yml", EmptyString)])].

Definition browser_dirs : list string := [".cache/ms-playwright"; ".cache/puppeteer"].
Definition package_dirs : list string :=
  [".npm/_npx"; ".cache/uv"; ".local/share/uv"; ".bun/install/cache"] ++ browser_dirs.

Definition agent_dirs (agent : string) : list string :=
  default [] (canonical ← canonical_agent_name agent;
              match_arms canonical (agent_dir_arms_a ++ agent_dir_arms_b)).
Definition agent_files (agent : string) : list (string * string) :=
  default [] (canonical ← canonical_agent_name agent; match_arms canonical agent_file_arms).

(** [create_dir_all(p)], and [if !p.exists() { write(p, content) }]; failures are ignored. *)
Inductive Touch : Type := MkDirs (p : path) | WriteIfMissing (p : path) (content : string).

Definition in_home (home : path) (w : string) : path := push home (components w).

Definition agent_touches (home : path) (agent : string) (root : path) : list Touch :=
  MkDirs root :: (MkDirs ∘ in_home home <$> agent_dirs agent)
  ++ ((λ f, WriteIfMissing (in_home home f.1) f.2) <$> agent_files agent)
  ++ (MkDirs ∘ in_home home <$> package_dirs).

Definition browser_touches (home : path) : list Touch := MkDirs ∘ in_home home <$> browser_dirs.

(** ** Files of a tier *)

Definition compilation_failed (msg : string) : AnyError := TypedPolicy (CompilationFailed msg).

Definition not_regular (p : path) : AnyError :=
  compilation_failed ("fail-closed: policy file '" +:+ to_str p
                      +:+ "' must be a regular file and not a symlink").

(** The part of a file name after its last dot, unless the dot leads. *)
Definition extension (p : path) : option string :=
  name ← file_name p;
  match rsplit_once "." name with
  | Some (before, after) => if is_empty before then None else Some after
  | None => None
  end.

(** [Vec::sort] on paths. *)
Fixpoint insert_sorted_path (p : path) (l : list path) : list path :=
  match l with
  | [] => [p]
  | q :: l' => match compare_path p q with Gt => q :: insert_sorted_path p l' | _ => p :: l end
  end.
Definition sort_paths (l : list path) : list path := foldr insert_sorted_path [] l.

Section Files.
Context `{LoadHost}.

Definition is_usable_file (p : path) : bool := bool_decide (host_kind p = Ok KindFile).

(** The second parameter of [read_layer_file], [_require_signed], is not used. *)
Definition read_layer_file (p : path) (require_signed : bool) : result AnyError string :=
  if negb (is_usable_file p) then Err (not_regular p)
  else match host_read_to_string p with
       | Ok text => Ok text
       | Err err =>
           Err (compilation_failed ("failed to read policy file " +:+ to_str p +:+ ": " +:+ err))
       end.

Definition default_system_policy_path : path := components "/etc/vetto/policy.toml".

Definition default_user_policy_path (home : path) : path :=
  let config_policy := in_home home ".config/vetto/policy.toml" in
  if is_usable_file (in_home home ".vetto/config.toml") then in_home home ".vetto/config.toml"
  else if is_usable_file (in_home home ".vetto/policy.toml") then in_home home ".vetto/policy.toml"
  else match host_env "XDG_CONFIG_HOME" with
       | Some xdg =>
           let xdg_path := push (components xdg) (components "vetto/policy.toml") in
           if is_usable_file xdg_path then xdg_path else config_policy
       | None => config_policy
       end.

Definition same_file_path (left right : path) : option bool :=
  l ← host_canonicalize left; r ← host_canonicalize right; Some (bool_decide (l = r)).

(** The first of the candidates that is a usable file. *)
Definition first_usable (candidates : list path) : option path :=
  list_find (λ p, is_usable_file p = true) candidates ≫= (λ x, Some x.2).

Definition fragment_files (project : path) : list path :=
  let fragments_dir := in_home project ".vetto/policy.d" in
  if negb (host_is_dir fragments_dir) then []
  else match host_read_dir fragments_dir with
       | Ok entries =>
           sort_paths (List.filter (λ p, is_usable_file p && bool_decide (extension p = Some "toml"))
             (omap (λ e, match e with Ok p => Some p | Err _ => None end) entries))
       | Err _ => []
       end.
End Files.

(** ** The tiers *)

Section Load.
Variable toml_from_str : string → result string RawLayer.
Variable profile_text : string → string.
(** The host after the creations of the agent tier. *)
Variable touch : LoadHost → list Touch → LoadHost.

Definition merge_layer_on (host : LoadHost) : RawLayer → string → list string → MergedPolicy →
  PolicySourceKind → result AnyError MergedPolicy :=
  merge_layer host_canonicalize home_dir toml_from_str profile_text.

(** Read, parse and merge one file. *)
Definition merge_file (host : LoadHost) (p : path) (label : string) (signed : bool)
    (stack : list string) (kind : PolicySourceKind) (m : MergedPolicy) :
  result AnyError MergedPolicy :=
  text ← read_layer_file p signed;
  layer ← parse_layer toml_from_str text label;
  merge_layer_on host layer label stack m kind.

Definition req_signed (L : LayeredPolicyLoader) (o : PolicyLoadOptions) (m : MergedPolicy) : bool :=
  m_require_signed m || opt_require_signed o || loader_require_signed L.

Definition first_of {A} (a b : option A) : option A := match a with Some _ => a | None => b end.

(** Tier 1. *)
Definition system_tier (host : LoadHost) (L : LayeredPolicyLoader) (o : PolicyLoadOptions)
    (m : MergedPolicy) : result AnyError MergedPolicy :=
  if negb (load_system_policy L && include_system_policy o) then Ok m
  else
    let p := default default_system_policy_path
               (first_of (opt_system_policy o) (system_policy_path L)) in
    if host_is_file p
    then merge_file host p ("system:" +:+ to_str p)
           (opt_require_signed o || loader_require_signed L) [] SystemGlobal m
    else Ok m.

(** Tier 2. *)
Definition user_tier (host : LoadHost) (L : LayeredPolicyLoader) (o : PolicyLoadOptions)
    (home : path) (m : MergedPolicy) : result AnyError MergedPolicy :=
  if negb (load_user_policy L && include_user_policy o) then Ok m
  else
    let p := default (default_user_policy_path home)
               (first_of (opt_user_policy o) (user_policy_path L)) in
    if host_is_file p
    then merge_file host p ("user:" +:+ to_str p) (req_signed L o m) [] UserGlobal m
    else Ok m.

Definition unknown_profile (profile : string) : AnyError :=
  compilation_failed ("unknown profile '" +:+ profile +:+ "'; known profiles: "
                      +:+ join_with ", " PROFILE_NAMES).

Definition profile_stack (profile : string) : list string :=
  match builtin profile with Some _ => [profile] | None => [] end.

(** Tier 3. *)
Definition profile_tier (host : LoadHost) (profile : string) (custom : bool) (m : MergedPolicy) :
  result AnyError MergedPolicy :=
  match builtin profile with
  | None => if custom then Ok m else Err (unknown_profile profile)
  | Some file =>
      base ← parse_layer toml_from_str (profile_text file) profile;
      let m := if bool_decide (is_Some (layer_environment base)) || negb (is_nil (m_pass_through m))
               then m else with_pass_through m DEFAULT_ENV_PASSTHROUGH in
      merge_layer_on host base profile (profile_stack profile) m BuiltinProfile
  end.

(** Tier 3b. *)
Definition preset_tier (host : LoadHost) (stack : list string) (o : PolicyLoadOptions)
    (env : string → option string) (m : MergedPolicy) : result AnyError MergedPolicy :=
  match opt_preset o with
  | None => Ok m
  | Some preset =>
      merge_layer_on host (preset_layer env preset (opt_agent o))
        ("preset:" +:+ preset_as_str preset) stack (with_active_preset m preset) Preset
  end.

(** The agent's root, and the host after its directories were created. *)
Definition agent_path (host : LoadHost) (home : path) (o : PolicyLoadOptions) :
  result AnyError (option path * LoadHost) :=
  match opt_agent o with
  | None => Ok (None, touch host (browser_touches home))
  | Some agent =>
      match agent_root home agent with
      | Err (Untyped msg) => Err (compilation_failed msg)
      | Err e => Err e
      | Ok root =>
          Ok (Some root, touch host (browser_touches home ++ agent_touches home agent root))
      end
  end.

(** Tier 4. *)
Definition agent_tier (host : LoadHost) (stack : list string) (o : PolicyLoadOptions)
    (m : MergedPolicy) : result AnyError MergedPolicy :=
  match opt_agent o with
  | None => Ok m
  | Some agent =>
      file ← ok_or (agent_builtin agent) (compilation_failed (unknown_agent agent));
      let label := "agent:" +:+ agent in
      layer ← parse_layer toml_from_str (profile_text file) label;
      merge_layer_on host layer label stack m AgentPreset
  end.

Definition project_symlink (p : path) : AnyError :=
  compilation_failed ("project policy file '" +:+ to_str p +:+ "' must not be a symlink").

(** The project's own policy file, and whether it was named explicitly. *)
Definition project_policy_path (host : LoadHost) (project : path) (o : PolicyLoadOptions) :
  option path * bool :=
  match opt_project_policy o with
  | Some p => (Some p, true)
  | None => (first_usable (in_home project <$> [".vetto/policy.toml"; "policy.toml"; "vetto.toml"]),
             false)
  end.

Fixpoint merge_fragments (host : LoadHost) (signed : MergedPolicy → bool) (stack : list string)
    (files : list path) (m : MergedPolicy) : result AnyError MergedPolicy :=
  match files with
  | [] => Ok m
  | f :: files =>
      m' ← merge_file host f (to_str f) (signed m) stack RepositoryFragment m;
      merge_fragments host signed stack files m'
  end.

(** Tier 5: the result and the project file that was applied. *)
Definition repository_tier (host : LoadHost) (L : LayeredPolicyLoader) (stack : list string)
    (o : PolicyLoadOptions) (project : path) (m : MergedPolicy) :
  result AnyError (MergedPolicy * option path) :=
  if negb (include_project_policy o) then Ok (m, None)
  else
    let '(p, explicit) := project_policy_path host project o in
    m ← match p with
        | Some p =>
            if explicit && bool_decide (host_kind p = Ok KindSymlink) then Err (project_symlink p)
            else merge_file host p (to_str p) (req_signed L o m) stack Repository m
        | None => Ok m
        end;
    m ← (if load_fragments L && include_fragments o
         then merge_fragments host (req_signed L o) stack (fragment_files project) m else Ok m);
    Ok (m, p).

(** Tier 6. *)
Definition local_tier (host : LoadHost) (L : LayeredPolicyLoader) (stack : list string)
    (o : PolicyLoadOptions) (project : path) (m : MergedPolicy) : result AnyError MergedPolicy :=
  if negb (load_local_override L && include_local_override o) then Ok m
  else match first_usable (in_home project <$> [".vetto.override.toml"; ".vetto/local.toml"]) with
       | Some p =>
           merge_file host p ("override:" +:+ to_str p) (req_signed L o m) stack LocalOverride m
       | None => Ok m
       end.

(** Tier 7, the file named on the command line. *)
Definition custom_tier (host : LoadHost) (L : LayeredPolicyLoader) (stack : list string)
    (o : PolicyLoadOptions) (custom_path applied : option path) (m : MergedPolicy) :
  result AnyError MergedPolicy :=
  match custom_path with
  | None => Ok m
  | Some p =>
      if default false (project_path ← applied; same_file_path project_path p) then Ok m
      else merge_file host p ("cli:" +:+ to_str p) (req_signed L o m) stack CliExplicit m
  end.

Definition no_write_roots : AnyError :=
  compilation_failed "effective policy has no filesystem.allow_write roots".

Definition initial (profile : string) (custom : bool) : MergedPolicy :=
  with_metadata default_merged
    (mk_metadata (if custom then "custom:" +:+ profile else profile) "" [] None false).

(** Tiers 1 to 3b, on the host before the agent tier. *)
Definition early_tiers (host : LoadHost) (L : LayeredPolicyLoader) (profile : string)
    (custom : bool) (home : path) (o : PolicyLoadOptions) : result AnyError MergedPolicy :=
  m ← system_tier host L o (initial profile custom);
  m ← user_tier host L o home m;
  m ← profile_tier host profile custom m;
  preset_tier host (profile_stack profile) o host_env m.

(** Tiers 4 to 7 and the overrides. *)
Definition late_tiers (host : LoadHost) (L : LayeredPolicyLoader) (profile : string)
    (custom_path : option path) (project : path) (o : PolicyLoadOptions) (m : MergedPolicy) :
  result AnyError MergedPolicy :=
  let stack := profile_stack profile in
  m ← agent_tier host stack o m;
  '(m, applied) ← repository_tier host L stack o project m;
  m ← local_tier host L stack o project m;
  m ← custom_tier host L stack o custom_path applied m;
  apply_overrides m (opt_overrides o).

Definition load (host : LoadHost) (L : LayeredPolicyLoader) (profile : string)
    (custom_path : option path) (project home : path) (tier : Tier) (o : PolicyLoadOptions) :
  result AnyError Policy :=
  let custom := bool_decide (is_Some custom_path) in
  m ← early_tiers host L profile custom home o;
  '(agent, host') ← agent_path host home o;
  m ← late_tiers host' L profile custom_path project o m;
  let m := deduplicate m in
  if is_nil (m_allow_write m) then Err no_write_roots
  else @build_policy host' profile custom project home tier m agent.
End Load.

(** ** Lemmas: what the tiers keep *)

Lemma deduplicate_strings_elem l v : v ∈ deduplicate_strings l ↔ v ∈ l.
Proof. unfold deduplicate_strings. rewrite retain_new_elem. set_solver. Qed.

Section LoadFacts.
Context (toml_from_str : string → result string RawLayer) (profile_text : string → string).
Context (touch : LoadHost → list Touch → LoadHost).
Local Abbreviation merge_file := (merge_file toml_from_str profile_text).
Local Abbreviation early_tiers := (early_tiers toml_from_str profile_text).
Local Abbreviation late_tiers := (late_tiers toml_from_str profile_text).
Local Abbreviation system_tier := (system_tier toml_from_str profile_text).
Local Abbreviation load := (load toml_from_str profile_text touch).

Lemma merge_file_keeps host p label signed stack kind m m' :
  merge_file host p label signed stack kind m = Ok m' → keeps_denials m m'.
Proof.
  unfold Loader.merge_file. intros (text & _ & H1)%result_bind_ok.
  apply result_bind_ok in H1 as (layer & _ & H2). by eapply merge_layer_keeps_denials.
Qed.

Lemma with_pass_through_keeps m names : keeps_denials m (with_pass_through m names).
Proof. unfold keeps_denials; cbn. split_and!; auto. Qed.
Lemma with_active_preset_keeps m preset : keeps_denials m (with_active_preset m preset).
Proof. unfold keeps_denials; cbn. split_and!; auto. Qed.

Lemma user_tier_keeps host L o home m m' :
  user_tier toml_from_str profile_text host L o home m = Ok m' → keeps_denials m m'.
Proof.
  unfold user_tier. destruct (negb _); [by intros [= <-]|].
  destruct (host_is_file _); [apply merge_file_keeps|by intros [= <-]].
Qed.

Lemma profile_tier_keeps host profile custom m m' :
  profile_tier toml_from_str profile_text host profile custom m = Ok m' → keeps_denials m m'.
Proof.
  unfold profile_tier. destruct (builtin profile) as [file|]; [|by destruct custom; intros [= <-]].
  intros (base & _ & Hm)%result_bind_ok. apply merge_layer_keeps_denials in Hm.
  etransitivity; [|exact Hm]. case_match; [done|apply with_pass_through_keeps].
Qed.

Lemma preset_tier_keeps host stack o env m m' :
  preset_tier toml_from_str profile_text host stack o env m = Ok m' → keeps_denials m m'.
Proof.
  unfold preset_tier. destruct (opt_preset o) as [preset|]; [|by intros [= <-]].
  intros Hm%merge_layer_keeps_denials. etransitivity; [apply with_active_preset_keeps|exact Hm].
Qed.

Lemma early_tiers_keep host L profile custom home o m :
  early_tiers host L profile custom home o = Ok m →
  ∃ m1, system_tier host L o (initial profile custom) = Ok m1 ∧ keeps_denials m1 m.
Proof.
  unfold Loader.early_tiers. intros (m1 & Hs & H1)%result_bind_ok.
  apply result_bind_ok in H1 as (m2 & Hu%user_tier_keeps & H2).
  apply result_bind_ok in H2 as (m3 & Hp%profile_tier_keeps & H3%preset_tier_keeps).
  exists m1. split; [done|]. by do 2 (etransitivity; [eassumption|]).
Qed.

Lemma agent_tier_keeps host stack o m m' :
  agent_tier toml_from_str profile_text host stack o m = Ok m' → keeps_denials m m'.
Proof.
  unfold agent_tier. destruct (opt_agent o) as [agent|]; [|by intros [= <-]].
  intros (file & _ & H1)%result_bind_ok. apply result_bind_ok in H1 as (layer & _ & H2).
  by eapply merge_layer_keeps_denials.
Qed.

Lemma merge_fragments_keep host signed stack files m m' :
  merge_fragments toml_from_str profile_text host signed stack files m = Ok m' →
  keeps_denials m m'.
Proof.
  revert m. induction files as [|f files IH]; intros m; cbn [merge_fragments]; [by intros [= <-]|].
  intros (m1 & H1%merge_file_keeps & H2%IH)%result_bind_ok. by etransitivity.
Qed.

Lemma repository_tier_keeps host L stack o project m m' applied :
  repository_tier toml_from_str profile_text host L stack o project m = Ok (m', applied) →
  keeps_denials m m'.
Proof.
  unfold repository_tier. destruct (negb _); [by intros [= <- _]|].
  destruct (project_policy_path host project o) as [p explicit].
  intros (m1 & H1 & H2)%result_bind_ok. apply result_bind_ok in H2 as (m2 & H2 & [= <- _]).
  transitivity m1.
  - destruct p as [p|]; [|by injection H1 as <-].
    destruct (explicit && _); [done|]. by apply merge_file_keeps in H1.
  - destruct (load_fragments L && _); [by apply merge_fragments_keep in H2|by injection H2 as <-].
Qed.

Lemma local_tier_keeps host L stack o project m m' :
  local_tier toml_from_str profile_text host L stack o project m = Ok m' → keeps_denials m m'.
Proof.
  unfold local_tier. destruct (negb _); [by intros [= <-]|].
  destruct (first_usable _); [apply merge_file_keeps|by intros [= <-]].
Qed.

Lemma custom_tier_keeps host L stack o custom_path applied m m' :
  custom_tier toml_from_str profile_text host L stack o custom_path applied m = Ok m' →
  keeps_denials m m'.
Proof.
  unfold custom_tier. destruct custom_path as [p|]; [|by intros [= <-]].
  destruct (default _ _); [by intros [= <-]|apply merge_file_keeps].
Qed.

(** The denials a policy has, as members. *)
Definition denies_entry (m : MergedPolicy) (e : string) : Prop := e ∈ all_deny_entries m.

Lemma preset_entries_mono m m' :
  (∀ n, n ∈ m_deny_preset m → n ∈ m_deny_preset m') →
  ∀ e, e ∈ preset_entries m → e ∈ preset_entries m'.
Proof.
  unfold preset_entries. intros Hn e. rewrite !list_elem_of_In, !in_concat.
  intros (x & Hx & He). exists x. split; [|done].
  apply list_elem_of_In in Hx. apply list_elem_of_In. apply list_elem_of_fmap in Hx as (n & -> & Hx).
  apply list_elem_of_fmap. eauto.
Qed.

Lemma prefix_elem {A} (l l' : list A) x : l `prefix_of` l' → x ∈ l → x ∈ l'.
Proof. intros [k ->] Hx. apply elem_of_app. by left. Qed.

Lemma keeps_denials_entries m m' e : keeps_denials m m' → denies_entry m e → denies_entry m' e.
Proof.
  unfold denies_entry, all_deny_entries. intros (Hw & Hr & Hp & Hpr & Hg & _ & _ & Hs & _).
  rewrite !elem_of_app. intros [?|[?|[?|[?|[Hpe|?]]]]].
  - left. by eapply prefix_elem.
  - right; left. by eapply prefix_elem.
  - do 2 right; left. by eapply prefix_elem.
  - do 3 right; left. by eapply prefix_elem.
  - do 4 right; left. revert Hpe. apply preset_entries_mono. intros n. by apply prefix_elem.
  - do 5 right. by eapply prefix_elem.
Qed.

Lemma overridden_entries m o e : denies_entry m e → denies_entry (overridden m o) e.
Proof.
  unfold denies_entry, all_deny_entries. cbn. unfold preset_entries; cbn.
  rewrite !elem_of_app, deduplicate_strings_elem, elem_of_app. tauto.
Qed.

Lemma deduplicate_entries m e : denies_entry (deduplicate m) e ↔ denies_entry m e.
Proof.
  unfold denies_entry, all_deny_entries. cbn.
  rewrite !elem_of_app, !deduplicate_strings_elem.
  assert (e ∈ preset_entries (deduplicate m) ↔ e ∈ preset_entries m) as ->; [|done].
  split; apply preset_entries_mono; intros n; cbn; by rewrite deduplicate_strings_elem.
Qed.

Lemma late_tiers_keep host L profile custom_path project o m m' :
  late_tiers host L profile custom_path project o m = Ok m' →
  (∀ e, denies_entry m e → denies_entry m' e)
  ∧ (m_is_immutable m = true → m_is_immutable m' = true).
Proof.
  unfold Loader.late_tiers. intros (m1 & H1%agent_tier_keeps & Hr)%result_bind_ok.
  apply result_bind_ok in Hr as ([m2 applied] & H2%repository_tier_keeps & Hr).
  apply result_bind_ok in Hr as (m3 & H3%local_tier_keeps & Hr).
  apply result_bind_ok in Hr as (m4 & H4%custom_tier_keeps & Hr).
  assert (keeps_denials m m4) as Hk by (by do 3 (etransitivity; [eassumption|])).
  unfold apply_overrides in Hr. destruct (_ && _); [done|]. injection Hr as <-. split.
  - intros e He. apply overridden_entries. by eapply keeps_denials_entries.
  - destruct Hk as (_&_&_&_&_&_&_&_&Hi&_). exact Hi.
Qed.

Lemma load_shape host L profile custom_path project home tier o p :
  load host L profile custom_path project home tier o = Ok p →
  let custom := bool_decide (is_Some custom_path) in
  ∃ m1 m2 m3 agent host',
    system_tier host L o (initial profile custom) = Ok m1 ∧ keeps_denials m1 m2
    ∧ early_tiers host L profile custom home o = Ok m2
    ∧ agent_path touch host home o = Ok (agent, host')
    ∧ late_tiers host' L profile custom_path project o m2 = Ok m3
    ∧ @build_policy host' profile custom project home tier (deduplicate m3) agent = Ok p.
Proof.
  unfold Loader.load. intros (m2 & He & H1)%result_bind_ok.
  apply result_bind_ok in H1 as ([agent host'] & Ha & H2).
  apply result_bind_ok in H2 as (m3 & Hl & H3). destruct (is_nil _); [done|].
  destruct (early_tiers_keep _ _ _ _ _ _ _ He) as (m1 & Hs & Hk). by exists m1, m2, m3, agent, host'.
Qed.

(** A denied entry that resolves to an existing path reaches the sandbox,
    exactly when the path is not the directory of the chosen agent. *)
Lemma build_policy_denies host profile custom project home tier m agent p e x k :
  @build_policy host profile custom project home tier m agent = Ok p → denies_entry m e →
  x ∈ @resolve_entry_with_agent host e (mk_vars project home (@resolve_runtime_dir host)) agent →
  @host_kind host x = Ok k →
  agent ≠ Some x ↔ mk_deny x (bool_decide (k = KindDir)) ∈ deny_resolved p.
Proof.
  intros (r & prof & Hr & [[ws ->] _]%(@check_shape host))%(@build_policy_shape host) He Hx Hk.
  unfold resolve_roots in Hr. do 5 (apply result_bind_ok in Hr as (? & _ & Hr)).
  apply result_bind_ok in Hr as (denied & Hd & Hr).
  apply result_bind_ok in Hr as ([reads ws'] & _ & Hr). injection Hr as <-. cbn.
  apply (@deny_all_elems host) in Hd as [[_ Hw] Hel]. rewrite Hw. cbn. rewrite Hel. split.
  - intros Hag. split; [split; [done|by exists e]|by exists k].
  - by intros [[? _] _].
Qed.

(** C9: What the organisation denies stays denied, the chosen agent's own
    directory apart: an entry that the system tier denies (by path, read, write,
    glob, preset or socket) is, wherever it resolves to an existing path, among
    the denied paths of every policy that loads if and only if that path is not
    the directory of the agent the command line chose - no profile, repository,
    override or other choice removes it; and an immutable system policy stays
    immutable. *)
Theorem system_denials_survive host L profile custom_path project home tier o p :
  load host L profile custom_path project home tier o = Ok p →
  ∃ m1 agent host',
    system_tier host L o (initial profile (bool_decide (is_Some custom_path))) = Ok m1
    ∧ agent_path touch host home o = Ok (agent, host')
    ∧ (m_is_immutable m1 = true → is_immutable p = true)
    ∧ ∀ e x k, denies_entry m1 e →
        x ∈ @resolve_entry_with_agent host' e
              (mk_vars project home (@resolve_runtime_dir host')) agent →
        @host_kind host' x = Ok k →
        agent ≠ Some x ↔ mk_deny x (bool_decide (k = KindDir)) ∈ deny_resolved p.
Proof.
  intros (m1 & m2 & m3 & agent & host' & Hs & Hk & _ & Ha & Hl & Hb)%load_shape.
  exists m1, agent, host'. apply late_tiers_keep in Hl as [Hle Hli]. split_and!; [done|done|..].
  - intros Hi. apply (@build_policy_shape host') in Hb as (r & prof & _ & [[ws ->] _]%(@check_shape host')).
    cbn. apply Hli. by apply Hk.
  - intros e x k He. apply (build_policy_denies _ _ _ _ _ _ _ _ _ e x k Hb).
    apply deduplicate_entries, Hle. by eapply keeps_denials_entries.
Qed.

Lemma merge_layer_applied canonicalize home layer source stack m kind m' :
  merge_layer canonicalize home toml_from_str profile_text layer source stack m kind = Ok m' →
  ∃ m1 n, m' = applied m1 layer kind n.
Proof.
  unfold merge_layer. destruct (merge_layer_fuel _ _ _ _ _ _ _ _ _ _) as [r|] eqn:E; [|done].
  intros ->. cbn [merge_layer_fuel] in E. destruct (inherit _ _ _ _ _ _ _) as [r|]; [|done].
  injection E as E. apply result_bind_ok in E as (m1 & _ & Ha).
  apply apply_ok in Ha as (_ & _ & n & _ & ->). eauto.
Qed.

(** No preset and no later tier unmasks the standard secrets: under every
    security preset ([yolo] included), each standard secret path that exists is
    among the denied paths of the policy that loads. *)
Theorem preset_secrets_survive host L profile custom_path project home tier o p preset :
  load host L profile custom_path project home tier o = Ok p → opt_preset o = Some preset →
  ∃ agent host', agent_path touch host home o = Ok (agent, host')
    ∧ ∀ e x k, e ∈ standard_secret_deny_paths →
        x ∈ @resolve_entry_with_agent host' e
              (mk_vars project home (@resolve_runtime_dir host')) agent →
        agent ≠ Some x → @host_kind host' x = Ok k →
        mk_deny x (bool_decide (k = KindDir)) ∈ deny_resolved p.
Proof.
  intros (m1 & m2 & m3 & agent & host' & _ & _ & He & Ha & Hl & Hb)%load_shape Hp.
  exists agent, host'. split; [done|]. intros e x k Hsec Hx Hag Hkind.
  refine (proj1 (build_policy_denies _ _ _ _ _ _ _ _ _ e x k Hb _ Hx Hkind) Hag).
  apply late_tiers_keep in Hl as [Hle _]. apply deduplicate_entries, Hle.
  unfold Loader.early_tiers in He. apply result_bind_ok in He as (? & _ & He).
  apply result_bind_ok in He as (? & _ & He). apply result_bind_ok in He as (? & _ & He).
  unfold preset_tier in He. rewrite Hp in He.
  apply merge_layer_applied in He as (m0 & n & ->).
  unfold denies_entry, all_deny_entries. apply elem_of_app. left. cbn.
  rewrite !elem_of_app. right; right. by destruct preset.
Qed.
End LoadFacts.

(** ** A concrete load *)

(** The demonstration host of [Resolve] with a system policy. *)
Definition load_kind (p : path) : result string FileKind :=
  if String.eqb (to_str p) "/etc/vetto/policy.toml" then Ok KindFile else demo_kind p.
Definition load_host : LoadHost := {|
  host_canonicalize := λ p, if is_absolute p then Some p else None;
  host_kind := load_kind;
  host_exists := λ p, is_ok (load_kind p);
  host_is_file := λ p, bool_decide (load_kind p = Ok KindFile);
  host_is_dir := λ p, bool_decide (load_kind p = Ok KindDir);
  host_read_dir := demo_read_dir;
  host_read_to_string := λ p, if bool_decide (load_kind p = Ok KindFile) then Ok "system" else Err "";
  host_glob := λ _, [];
  host_env := λ v, if String.eqb v "HOME" then Some "/home/u" else None;
  host_cwd := Some (components "/p");
  host_uid := 1000 |}.

(** The system policy is immutable and denies [/p/src]; every embedded profile
    allows the project. *)
Definition load_toml (text : string) : result string RawLayer :=
  Ok (if String.eqb text "system"
      then demo_layer (Some (demo_immutable true)) (demo_fs [] ["$PROJECT/src"]) None None
      else demo_layer None (demo_fs ["$PROJECT"] []) None None).

Definition load_options : PolicyLoadOptions :=
  mk_options None (Some Yolo) None None None None None true true true true true false no_overrides.

Definition demo_touch (h : LoadHost) (_ : list Touch) : LoadHost := h.

Local Abbreviation demo_load o :=
  (load load_toml demo_text demo_touch load_host loader_new "default" None (components "/p")
    (components "/home/u") Full o).
Definition demo_loaded : Policy :=
  match demo_load load_options with Ok p => p | Err _ => default_policy end.

Lemma demo_load_ok :
  demo_load load_options = Ok demo_loaded
  ∧ is_immutable demo_loaded = true
  ∧ deny_resolved demo_loaded
    = [mk_deny (components "/p/.env") false; mk_deny (components "/p/src") true].
Proof. split_and!; vm_compute; reflexivity. Qed.

Lemma system_denials_survive_witness :
  demo_load load_options = Ok demo_loaded
  ∧ is_immutable demo_loaded = true
  ∧ mk_deny (components "/p/src") true ∈ deny_resolved demo_loaded.
Proof.
  split; [exact (proj1 demo_load_ok)|].
  destruct (system_denials_survive load_toml demo_text demo_touch load_host loader_new "default" None
    (components "/p") (components "/home/u") Full load_options demo_loaded (proj1 demo_load_ok))
    as (m1 & agent & host' & Hs & Ha & Hi & Hd).
  injection Ha as <- <-. vm_compute in Hs. injection Hs as <-. split; [apply Hi; reflexivity|].
  refine (proj1 (Hd "$PROJECT/src" (components "/p/src") KindDir _ _ _) _);
    [left|left|vm_compute; reflexivity|discriminate].
Defined.

(** The exception is real: a denied path is dropped when it is the directory of
    the chosen agent, whichever tier denied it. *)
Lemma agent_directory_is_not_denied :
  let denies := @deny_all load_host ["/p/src"] (mk_vars (components "/p") (components "/home/u") None) in
  denies None (mk_denied [] [])
  = Ok (mk_denied [components "/p/src"] [mk_deny (components "/p/src") true])
  ∧ denies (Some (components "/p/src")) (mk_denied [] []) = Ok (mk_denied [] []).
Proof. split; vm_compute; reflexivity. Qed.

Lemma preset_secrets_survive_witness :
  demo_load load_options = Ok demo_loaded
  ∧ mk_deny (components "/p/.env") false ∈ deny_resolved demo_loaded.
Proof.
  split; [exact (proj1 demo_load_ok)|].
  destruct (preset_secrets_survive load_toml demo_text demo_touch load_host loader_new "default" None
    (components "/p") (components "/home/u") Full load_options demo_loaded Yolo
    (proj1 demo_load_ok) eq_refl) as (agent & host' & Ha & Hd).
  injection Ha as <- <-.
  refine (Hd "$PROJECT/.env" (components "/p/.env") KindFile _ _ _ _);
    [by left|left|discriminate|reflexivity].
Defined.

(** ** What the loader does not do *)

Definition with_signed (o : PolicyLoadOptions) (b : bool) : PolicyLoadOptions :=
  mk_options (opt_agent o) (opt_preset o) (opt_branch o) (opt_git_tag o) (opt_project_policy o)
    (opt_system_policy o) (opt_user_policy o) (include_system_policy o) (include_user_policy o)
    (include_project_policy o) (include_fragments o) (include_local_override o) b (opt_overrides o).

Lemma bind_ext {E A B} (r : result E A) (f g : A → result E B) :
  (∀ a, f a = g a) → (r ≫= f) = (r ≫= g).
Proof. intros Hfg. destruct r; [apply Hfg|done]. Qed.

Lemma merge_fragments_signed toml text host s1 s2 stack files m :
  merge_fragments toml text host s1 stack files m = merge_fragments toml text host s2 stack files m.
Proof.
  revert m. induction files as [|f files IH]; intros m; [done|]. cbn [merge_fragments].
  apply bind_ext. intros m'. apply IH.
Qed.

(** Requiring signed policies changes nothing: the flag reaches
    [read_layer_file] and is dropped there. *)
Lemma require_signed_is_ignored toml text touch host L profile custom project home tier o b :
  load toml text touch host L profile custom project home tier (with_signed o b)
  = load toml text touch host L profile custom project home tier o.
Proof.
  assert (∀ h stack m, repository_tier toml text h L stack (with_signed o b) project m
    = repository_tier toml text h L stack o project m) as Hrep.
  { intros h stack m. unfold repository_tier. cbn. destruct (negb _); [done|].
    change (project_policy_path h project (with_signed o b)) with (project_policy_path h project o).
    destruct (project_policy_path h project o) as [f e]. apply bind_ext. intros m1.
    by rewrite (merge_fragments_signed _ _ _ _ (req_signed L o)). }
  unfold load. apply bind_ext. intros m. apply bind_ext. intros [agent host'].
  assert (late_tiers toml text host' L profile custom project (with_signed o b) m
    = late_tiers toml text host' L profile custom project o m) as ->; [|done].
  unfold late_tiers. apply bind_ext. intros m1. rewrite Hrep.
  apply bind_ext. intros [m2 applied]. done.
Qed.
