(* ===== verification/Ledger.v ===== *)
(** * Ledger: the hash-chained audit ledger

    Model of [src/src/audit/ledger.rs] and of the audit records of
    [src/src/audit/record.rs].  The file is the list of its (terminated) lines; [serde_json]
    and SHA-256 are the class [LedgerCodec], and writing a line is an argument.
    Reading a file gives [Err] (it cannot be opened or decoded), [Ok None] (it
    does not exist) or its lines. *)

From S2P Require Import Prelude Float64 Blake3 Contract Verdict.

Definition GENESIS_HASH : string := "GENESIS".

(** ** JSON and SHA-256 *)

(** A JSON value is opaque behind its constructors and views; an object is a
    finite map.  [parse_line] is [serde_json::from_str] ([None]: not an object),
    [object_text] the text of an object with sorted keys, and [envelope_text]
    the text of a structure with the given fields and a flattened payload. *)
Class LedgerCodec : Type := {
  value : Type;
  as_str : value → option string;
  as_u64 : value → option Z;
  of_str : string → value;
  of_int : Z → value;
  of_bool : bool → value;
  of_f64 : f64 → value;
  of_obj : gmap string value → value;
  parse_line : string → result string (option (gmap string value));
  object_text : gmap string value → string;
  envelope_text : list (string * value) → gmap string value → string;
  sha256_str : string → list Z;
}.

(** ** Audit records ([record.rs]) *)

Inductive RecordType : Type :=
| SessionInit | SyscallDenial | FsMutation | ResourceSample | TreeExtinction | SessionVerdict.
#[export] Instance RecordType_eq_dec : EqDecision RecordType.
Proof. solve_decision. Defined.
Definition record_type_text (t : RecordType) : string :=
  match t with
  | SessionInit => "SESSION_INIT" | SyscallDenial => "SYSCALL_DENIAL"
  | FsMutation => "FS_MUTATION" | ResourceSample => "RESOURCE_SAMPLE"
  | TreeExtinction => "TREE_EXTINCTION" | SessionVerdict => "SESSION_VERDICT"
  end.

Inductive TierClassification : Type := Tier1Linux | Tier2Macos | Tier3Windows.
Definition tier_text (t : TierClassification) : string :=
  match t with
  | Tier1Linux => "TIER_1_LINUX" | Tier2Macos => "TIER_2_MACOS" | Tier3Windows => "TIER_3_WINDOWS"
  end.

Inductive SyscallActionTaken : Type := Blocked | Audited.
Definition action_text (a : SyscallActionTaken) : string :=
  match a with Blocked => "BLOCKED" | Audited => "AUDITED" end.
Inductive FsMutationType : Type := Created | Modified | Deleted.
Definition mutation_text (m : FsMutationType) : string :=
  match m with Created => "CREATED" | Modified => "MODIFIED" | Deleted => "DELETED" end.

Inductive AuditPayload : Type :=
| PSessionInit (platform kernel_release agent_name : string) (tier : TierClassification)
| PSyscallDenial (syscall_name target_path lsm_backend : string) (action : SyscallActionTaken)
| PFsMutation (relative_path : string) (mutation : FsMutationType) (sha256_digest : string)
| PResourceSample (cpu_percent : f64) (memory_rss_bytes pid_count : Z)
| PTreeExtinction (tier : string) (survivors signal_sent elapsed_ms : Z) (clean : bool)
| PSessionVerdict (verdict evidence_strength : string) (code : Z) (root_dag_digest : string).

Record VettoAuditRecord : Type := mk_audit {
  timestamp_utc : string;
  record_type : RecordType;
  session_id : string;
  audit_contract_digest : string;
  audit_payload : AuditPayload;
}.

Definition session_init (now session digest platform kernel agent : string)
    (tier : TierClassification) : VettoAuditRecord :=
  mk_audit now SessionInit session digest (PSessionInit platform kernel agent tier).
Definition tree_extinction (now session digest tier : string)
    (survivors signal elapsed_ms : Z) (clean : bool) : VettoAuditRecord :=
  mk_audit now TreeExtinction session digest
    (PTreeExtinction tier survivors signal elapsed_ms clean).
Definition session_verdict (now session digest : string) (v : FinalVerdict) (root : string) :
  VettoAuditRecord :=
  mk_audit now SessionVerdict session digest
    (PSessionVerdict (status_label (status v)) (strength_label (strength v))
       (exit_code v) root).

(** ** Verification results *)

Record LedgerCorruption : Type := mk_corruption {
  line_number : Z;
  corrupt_seq : option Z;
  expected_hash : option string;
  actual_hash : option string;
  corrupt_reason : string;
}.

Record LedgerVerificationResult : Type := mk_result {
  is_valid : bool;
  records_verified : Z;
  last_seq : option Z;
  last_hash : option string;
  has_terminal_record : bool;
  has_signature : bool;
  corruption : option LedgerCorruption;
}.

(** The errors of [AuditLedger::new], as [anyhow] carries them. *)
Inductive LedgerError : Type :=
| LedgerClosed
| CannotOpenCorrupted (reason : string)
| LedgerIo (msg : string).

Notation object := (gmap string value).

Record AuditLedger : Type := mk_ledger {
  file : list string;
  seq : Z;
  prev_hash : string;
}.

Section Ledger.
Context `{LedgerCodec}.
(** [writeln!] and [flush]: the new contents and the error, if any. *)
Variable append_line : list string → string → list string * option string.

Definition manual_hex_hash (data : string) : string := to_hex (sha256_str data).

(** The derived serialisation of the records. *)
Definition payload_object (p : AuditPayload) : object :=
  list_to_map
    match p with
    | PSessionInit platform kernel agent tier =>
        [("platform", of_str platform); ("kernel_release", of_str kernel);
         ("agent_name", of_str agent); ("tier", of_str (tier_text tier))]
    | PSyscallDenial name target backend action =>
        [("syscall_name", of_str name); ("target_path", of_str target);
         ("lsm_backend", of_str backend); ("action_taken", of_str (action_text action))]
    | PFsMutation rel m digest =>
        [("relative_path", of_str rel); ("mutation_type", of_str (mutation_text m));
         ("sha256_digest", of_str digest)]
    | PResourceSample cpu rss pids =>
        [("cpu_percent", of_f64 cpu); ("memory_rss_bytes", of_int rss);
         ("pid_count", of_int pids)]
    | PTreeExtinction tier survivors signal elapsed clean =>
        [("tier", of_str tier); ("survivors", of_int survivors);
         ("signal_sent", of_int signal); ("elapsed_ms", of_int elapsed);
         ("clean", of_bool clean)]
    | PSessionVerdict verdict strength code root =>
        [("verdict", of_str verdict); ("evidence_strength", of_str strength);
         ("exit_code", of_int code); ("root_dag_digest", of_str root)]
    end.

Definition record_object (r : VettoAuditRecord) : object :=
  list_to_map
    [("timestamp_utc", of_str (timestamp_utc r));
     ("record_type", of_str (record_type_text (record_type r)));
     ("session_id", of_str (session_id r));
     ("contract_digest", of_str (audit_contract_digest r));
     ("payload", of_obj (payload_object (audit_payload r)))].

(** ** Writing *)

Definition record_event (l : AuditLedger) (payload : object) :
  AuditLedger * result string string :=
  let data_to_hash := prev_hash l +:+ ":" +:+ to_dec (seq l) +:+ ":" +:+ object_text payload in
  let current_hash := manual_hex_hash data_to_hash in
  let envelope := envelope_text [("seq", of_int (seq l)); ("prev_hash", of_str (prev_hash l));
                                 ("hash", of_str current_hash)] payload in
  match append_line (file l) envelope with
  | (f, Some e) => (mk_ledger f (seq l) (prev_hash l), Err e)
  | (f, None) => (mk_ledger f (seq l + 1) current_hash, Ok current_hash)
  end.

Definition record_audit_record (l : AuditLedger) (r : VettoAuditRecord) :
  AuditLedger * result string string := record_event l (record_object r).

(** [sign_and_close] consumes the ledger and leaves its file. *)
Definition sign_and_close (l : AuditLedger) : list string * result string string :=
  let sig := manual_hex_hash ("CLOSE:" +:+ prev_hash l) in
  let env := envelope_text [("seq", of_int (seq l)); ("prev_hash", of_str (prev_hash l));
                            ("signature", of_str sig)] ∅ in
  match append_line (file l) env with
  | (f, Some e) => (f, Err e)
  | (f, None) => (f, Ok sig)
  end.

(** ** Verification *)

(** The local variables of the loop of [verify_file_detailed]. *)
Record Scan : Type := mk_scan {
  expected_prev : string;
  expected_seq : Z;
  seen_signature : bool;
  scan_terminal : bool;
  verified : Z;
  scan_last : option string;
  line_no : Z;
}.
Definition scan_start : Scan := mk_scan GENESIS_HASH 0 false false 0 None 0.
Definition scan_seq (s : Scan) : option Z :=
  if 0 <? expected_seq s then Some (expected_seq s - 1) else None.

(** The early returns; [Err] leaves the loop with the result. *)
Definition corrupt (s : Scan) (cseq : option Z) (expected actual : option string)
    (reason : string) : result LedgerVerificationResult Scan :=
  Err (mk_result false (verified s) (scan_seq s) (scan_last s) (scan_terminal s)
         (seen_signature s) (Some (mk_corruption (line_no s) cseq expected actual reason))).

Definition field_str (obj : object) (key : string) : option string := obj !! key ≫= as_str.
Definition field_u64 (obj : object) (key : string) : option Z := obj !! key ≫= as_u64.

Definition verify_signature_line (s : Scan) (obj : object) :
  result LedgerVerificationResult Scan :=
  match field_str obj "prev_hash" with
  | None => corrupt s (Some (expected_seq s)) None None "Missing prev_hash in signature envelope"
  | Some prev =>
      match field_u64 obj "seq" with
      | None => corrupt s (Some (expected_seq s)) None None "Missing seq in signature envelope"
      | Some sq =>
          if negb (String.eqb prev (expected_prev s)) || negb (sq =? expected_seq s) then
            corrupt s (Some sq) (Some (expected_prev s)) (Some prev)
              ("Signature envelope mismatch: expected seq=" +:+ to_dec (expected_seq s)
               +:+ ", prev_hash='" +:+ expected_prev s +:+ "', got seq=" +:+ to_dec sq
               +:+ ", prev_hash='" +:+ prev +:+ "'")
          else
            let expected_sig := manual_hex_hash ("CLOSE:" +:+ expected_prev s) in
            let actual_sig := default EmptyString (field_str obj "signature") in
            if negb (String.eqb actual_sig expected_sig) then
              Err (mk_result false (verified s) (scan_seq s) (Some (expected_prev s))
                     (scan_terminal s) false
                     (Some (mk_corruption (line_no s) (Some (expected_seq s))
                              (Some expected_sig) (Some actual_sig)
                              "Signature envelope hash mismatch")))
            else Ok (mk_scan (expected_prev s) (expected_seq s) true (scan_terminal s)
                       (verified s) (scan_last s) (line_no s))
      end
  end.

Definition is_terminal_record (obj : object) : bool :=
  match field_str obj "record_type" with
  | Some t => String.eqb t "SESSION_VERDICT"
  | None => false
  end.

(** What the hash of a record is taken over: the object without its chain
    fields. *)
Definition payload_of (obj : object) : object :=
  delete "hash" (delete "prev_hash" (delete "seq" obj)).

Definition verify_record_line (s : Scan) (obj : object) :
  result LedgerVerificationResult Scan :=
  let s := mk_scan (expected_prev s) (expected_seq s) (seen_signature s)
             (scan_terminal s || is_terminal_record obj) (verified s) (scan_last s) (line_no s) in
  match field_u64 obj "seq" with
  | None => corrupt s None None None "Record missing 'seq' field"
  | Some sq =>
  match field_str obj "prev_hash" with
  | None => corrupt s (Some sq) None None "Record missing 'prev_hash' field"
  | Some prev =>
  match field_str obj "hash" with
  | None => corrupt s (Some sq) None None "Record missing 'hash' field"
  | Some hash =>
      if negb (sq =? expected_seq s) then
        corrupt s (Some sq) None None
          ("Sequence break: expected " +:+ to_dec (expected_seq s) +:+ ", got " +:+ to_dec sq)
      else if negb (String.eqb prev (expected_prev s)) then
        corrupt s (Some sq) (Some (expected_prev s)) (Some prev)
          "Hash chain break: prev_hash does not match previous entry's hash"
      else
        let payload_json := object_text (payload_of obj) in
        let recomputed :=
          manual_hex_hash (prev +:+ ":" +:+ to_dec sq +:+ ":" +:+ payload_json) in
        let recomputed_alt :=
          manual_hex_hash (to_dec sq +:+ ":" +:+ prev +:+ ":" +:+ payload_json) in
        if negb (String.eqb recomputed hash) && negb (String.eqb recomputed_alt hash) then
          corrupt s (Some sq) (Some recomputed) (Some hash)
            "Cryptographic hash mismatch: record payload was tampered"
        else Ok (mk_scan hash (expected_seq s + 1) (seen_signature s) (scan_terminal s)
                   (verified s + 1) (Some hash) (line_no s))
  end end end.

(** No [hash] field but a [signature]. *)
Definition is_signature_envelope (obj : object) : bool :=
  negb (bool_decide (is_Some (obj !! "hash"))) && bool_decide (is_Some (obj !! "signature")).

Definition verify_line (s : Scan) (line : string) : result LedgerVerificationResult Scan :=
  let s := mk_scan (expected_prev s) (expected_seq s) (seen_signature s) (scan_terminal s)
             (verified s) (scan_last s) (line_no s + 1) in
  let trimmed := trim line in
  if is_empty trimmed then Ok s
  else if seen_signature s then
    corrupt s (Some (expected_seq s)) None None
      "Extraneous record found after signature envelope"
  else
    match parse_line trimmed with
    | Err e => corrupt s (Some (expected_seq s)) None None ("JSON parse error: " +:+ e)
    | Ok None => corrupt s (Some (expected_seq s)) None None "Record is not a JSON object"
    | Ok (Some obj) =>
        if is_signature_envelope obj then verify_signature_line s obj
        else verify_record_line s obj
    end.

Fixpoint verify_lines (s : Scan) (lines : list string) : result LedgerVerificationResult Scan :=
  match lines with
  | [] => Ok s
  | line :: lines => s ← verify_line s line; verify_lines s lines
  end.

(** After the loop. *)
Definition conclude (s : Scan) : LedgerVerificationResult :=
  let valid := (0 <? expected_seq s) && (scan_terminal s || seen_signature s) in
  mk_result valid (verified s) (scan_seq s) (scan_last s) (scan_terminal s) (seen_signature s)
    (if valid then None
     else if expected_seq s =? 0 then
       Some (mk_corruption 0 None None None "Empty ledger: 0 records found")
     else Some (mk_corruption (line_no s) (Some (expected_seq s - 1)) None None
                  "Missing terminal record (SESSION_VERDICT) or signature envelope")).

Definition verify_contents (lines : list string) : LedgerVerificationResult :=
  match verify_lines scan_start lines with Ok s => conclude s | Err r => r end.

Definition file_not_found : LedgerVerificationResult :=
  mk_result false 0 None None false false (Some (mk_corruption 0 None None None "File not found")).

Definition verify_file_detailed (read : result string (option (list string))) :
  result string LedgerVerificationResult :=
  match read with
  | Err e => Err e
  | Ok None => Ok file_not_found
  | Ok (Some lines) => Ok (verify_contents lines)
  end.

Definition verify_file (read : result string (option (list string))) : result string bool :=
  is_valid <$> verify_file_detailed read.

(** ** Opening *)

(** [read] is the existing file, [open_error] the outcome of opening it for
    appending. *)
Definition open_ledger (read : result string (option (list string)))
    (open_error : option string) : result LedgerError AuditLedger :=
  let opened l := match open_error with None => Ok l | Some e => Err (LedgerIo e) end in
  match read with
  | Err e => Err (LedgerIo e)
  | Ok None | Ok (Some []) => opened (mk_ledger [] 0 GENESIS_HASH)
  | Ok (Some lines) =>
      let r := verify_contents lines in
      if has_signature r || has_terminal_record r then Err LedgerClosed
      else
        let refused :=
          match corruption r with
          | Some c => negb (is_valid r) && negb (contains (corrupt_reason c) "Missing terminal record")
          | None => false
          end in
        if refused
        then Err (CannotOpenCorrupted (default EmptyString (corrupt_reason <$> corruption r)))
        else opened (mk_ledger lines (match last_seq r with Some s => s + 1 | None => 0 end)
                       (default GENESIS_HASH (last_hash r)))
  end.
End Ledger.

(** ** Laws of the codec *)

(** [exact v]: the value survives printing and parsing (every value but a
    floating-point number, whose last bit the default parser may lose). *)
Class LedgerLaws (C : LedgerCodec) (exact : value → Prop) : Prop := {
  as_str_of s : as_str (of_str s) = Some s;
  as_u64_of n : 0 ≤ n ≤ u64_max → as_u64 (of_int n) = Some n;
  as_str_inv v s : as_str v = Some s → v = of_str s;
  as_u64_inv v n : as_u64 v = Some n → v = of_int n ∧ 0 ≤ n ≤ u64_max;
  exact_str s : exact (of_str s);
  exact_int n : exact (of_int n);
  exact_bool b : exact (of_bool b);
  exact_obj o : map_Forall (λ _, exact) o → exact (of_obj o);
  parse_envelope fields payload :
    NoDup fields.*1 → map_Forall (λ _, exact) payload →
    (∀ k, k ∈ fields.*1 → payload !! k = None) →
    parse_line (envelope_text fields payload) = Ok (Some (payload ∪ list_to_map fields));
  envelope_trimmed fields payload :
    trim (envelope_text fields payload) = envelope_text fields payload;
  envelope_nonempty fields payload : is_empty (envelope_text fields payload) = false;
  object_text_inj o o' : object_text o = object_text o' → o = o';
  sha_length d : length (sha256_str d) = 32%nat;
  sha_bytes d : Forall (in_range 8) (sha256_str d);
}.

(** ** Lemmas *)

Lemma dec_digits_length fuel n acc k :
  0 ≤ n < 10 ^ (Z.of_nat k + 1) →
  (String.length (dec_digits fuel n acc) ≤ S k + String.length acc)%nat.
Proof.
  revert n acc k. induction fuel as [|fuel IH]; intros n acc k Hn; simpl; [lia|].
  destruct (Z.ltb_spec n 10); [simpl; lia|].
  destruct k as [|k]; [lia|].
  assert (n / 10 < 10 ^ (Z.of_nat k + 1)).
  { apply Z.div_lt_upper_bound; [lia|]. rewrite <-Z.pow_succ_r by lia.
    replace (Z.succ (Z.of_nat k + 1)) with (Z.of_nat (S k) + 1) by lia. lia. }
  etransitivity; [apply (IH _ _ k); split; [apply Z.div_pos; lia|done]|]. simpl. lia.
Qed.

Lemma to_dec_length n : 0 ≤ n ≤ u64_max → (String.length (to_dec n) ≤ 20)%nat.
Proof.
  intros Hn. unfold to_dec. etransitivity; [apply (dec_digits_length _ _ _ 19)|simpl; lia].
  unfold u64_max in Hn. lia.
Qed.

(** A hexadecimal text, a decimal text and the genesis marker hold no colon. *)
Definition no_colon (s : string) : Prop := contains_char s ":" = false.

Lemma digit_no_colon s : all_chars is_digit s = true → no_colon s.
Proof.
  unfold no_colon. induction s as [|c s IH]; [done|]. simpl. intros [Hc Hs]%andb_true_iff.
  rewrite (IH Hs), orb_false_r. apply Ascii.eqb_neq. intros ->. discriminate Hc.
Qed.

(** The text before the first colon is determined. *)
Lemma colon_split a b a' b' :
  no_colon a → no_colon a' → a +:+ ":" +:+ b = a' +:+ ":" +:+ b' → a = a' ∧ b = b'.
Proof.
  unfold no_colon. revert a'. induction a as [|c a IH]; intros [|c' a']; simpl; intros Ha Ha' H.
  - injection H as ->. done.
  - injection H as <- _. discriminate Ha'.
  - injection H as -> _. discriminate Ha.
  - apply orb_false_iff in Ha as [_ Ha], Ha' as [_ Ha']. injection H as -> H.
    destruct (IH a' Ha Ha' H) as [-> ->]. done.
Qed.

Lemma hex_no_colon bs : Forall (in_range 8) bs → no_colon (to_hex bs).
Proof.
  unfold no_colon. induction 1 as [|b bs Hb _ IH]; [done|]. cbn [to_hex contains_char].
  assert (∀ d, 0 ≤ d < 16 → Ascii.eqb (hex_digit d) ":" = false) as Hd.
  { intros d Hd. apply Ascii.eqb_neq. intros E.
    assert (digit_value 16 (hex_digit d) = Some d) as Hv by by apply hex_digit_value.
    rewrite E in Hv. discriminate Hv. }
  unfold in_range in Hb.
  rewrite IH, !Hd; [done| |].
  - split; [apply Z.land_nonneg; lia|]. change 15 with (Z.ones 4). rewrite Z.land_ones by lia.
    apply Z.mod_pos_bound. lia.
  - rewrite Z.shiftr_div_pow2 by lia. split; [apply Z.div_pos; lia|].
    apply Z.div_lt_upper_bound; lia.
Qed.

Section Chain.
Context {C : LedgerCodec} {exact : value → Prop} {L : LedgerLaws C exact}.

(** The texts the hash of a record may be taken over: its previous hash, its number and
    its payload, in the two orders the verifier knows. *)
Definition hashed_texts (o : object) : list string :=
  match field_str o "prev_hash", field_u64 o "seq" with
  | Some p, Some n =>
      [p +:+ ":" +:+ to_dec n +:+ ":" +:+ object_text (payload_of o);
       to_dec n +:+ ":" +:+ p +:+ ":" +:+ object_text (payload_of o)]
  | _, _ => []
  end.

(** Two records with the same hash, taken over different texts: a collision of SHA-256
    that can be read off the two records. *)
Definition collide (o o' : object) : Prop :=
  ∃ x y, x ∈ hashed_texts o ∧ y ∈ hashed_texts o' ∧ x ≠ y ∧ sha256_str x = sha256_str y
    ∧ field_str o "hash" = Some (manual_hex_hash x) ∧ field_str o' "hash" = Some (manual_hex_hash y).
Definition collision_between (rs rs' : list object) : Prop :=
  ∃ o o', o ∈ rs ∧ o' ∈ rs' ∧ collide o o'.

Lemma hash_length d : String.length (manual_hex_hash d) = 64%nat.
Proof. unfold manual_hex_hash. rewrite to_hex_length, sha_length. done. Qed.

Lemma hash_no_colon d : no_colon (manual_hex_hash d).
Proof. apply hex_no_colon, sha_bytes. Qed.

Lemma hash_inj x y : manual_hex_hash x = manual_hex_hash y → x = y ∨ x ≠ y ∧ sha256_str x = sha256_str y.
Proof.
  intros H%to_hex_inj; [|apply sha_bytes..]. destruct (String.eqb_spec x y); [by left|by right].
Qed.

(** ** The chain of records *)

(** The record objects of a file, without blank lines and the signature. *)
Definition record_of (line : string) : option object :=
  if is_empty (trim line) then None
  else match parse_line (trim line) with
       | Ok (Some obj) => if is_signature_envelope obj then None else Some obj
       | _ => None
       end.
Definition records_of (lines : list string) : list object := omap record_of lines.

Inductive chained : list object → string → Prop :=
| chained_nil : chained [] GENESIS_HASH
| chained_snoc rs p o h :
    chained rs p →
    field_u64 o "seq" = Some (Z.of_nat (length rs)) →
    field_str o "prev_hash" = Some p → field_str o "hash" = Some h →
    h = manual_hex_hash (p +:+ ":" +:+ to_dec (Z.of_nat (length rs)) +:+ ":"
                         +:+ object_text (payload_of o))
    ∨ h = manual_hex_hash (to_dec (Z.of_nat (length rs)) +:+ ":" +:+ p +:+ ":"
                           +:+ object_text (payload_of o)) →
    chained (rs ++ [o]) h.

Lemma chained_tip rs h : chained rs h → rs = [] ∧ h = GENESIS_HASH ∨ ∃ d, h = manual_hex_hash d.
Proof. destruct 1 as [|rs p o h _ _ _ _ [->| ->]]; eauto. Qed.

Lemma tip_no_colon rs h : chained rs h → no_colon h.
Proof. intros [[_ ->]|[d ->]]%chained_tip; [done|apply hash_no_colon]. Qed.

Lemma genesis_not_hash d : GENESIS_HASH ≠ manual_hex_hash d.
Proof. intros E. pose proof (hash_length d) as Hl. rewrite <-E in Hl. discriminate Hl. Qed.

(** A tip is never a sequence number. *)
Lemma tip_not_dec rs h n : chained rs h → 0 ≤ n ≤ u64_max → h ≠ to_dec n.
Proof.
  intros Ht Hn ->. pose proof (to_dec_length n Hn). apply chained_tip in Ht as [[_ Ht]|[d Ht]].
  - pose proof (to_dec_digits n (proj1 Hn)) as Hd. rewrite Ht in Hd. discriminate Hd.
  - rewrite Ht, hash_length in *. lia.
Qed.

(** An object is its chain fields and its payload. *)
Lemma object_parts o o' n p h :
  field_u64 o "seq" = Some n → field_u64 o' "seq" = Some n →
  field_str o "prev_hash" = Some p → field_str o' "prev_hash" = Some p →
  field_str o "hash" = Some h → field_str o' "hash" = Some h →
  payload_of o = payload_of o' → o = o'.
Proof.
  unfold field_u64, field_str, payload_of. intros H1 H1' H2 H2' H3 H3' Hp.
  apply bind_Some in H1 as (v1 & E1 & [-> _]%as_u64_inv), H1' as (w1 & E1' & [-> _]%as_u64_inv),
    H2 as (v2 & E2 & ->%as_str_inv), H2' as (w2 & E2' & ->%as_str_inv),
    H3 as (v3 & E3 & ->%as_str_inv), H3' as (w3 & E3' & ->%as_str_inv).
  apply map_eq. intros k.
  destruct (decide (k = "seq")) as [->|?]; [congruence|].
  destruct (decide (k = "prev_hash")) as [->|?]; [congruence|].
  destruct (decide (k = "hash")) as [->|?]; [congruence|].
  apply (f_equal (.!! k)) in Hp. by rewrite !lookup_delete_ne in Hp by congruence.
Qed.

(** A record that continues a chain, and the text its hash is taken over. *)
Definition link (rs : list object) (p : string) (o : object) (x : string) : Prop :=
  chained rs p ∧ field_u64 o "seq" = Some (Z.of_nat (length rs)) ∧ field_str o "prev_hash" = Some p
  ∧ field_str o "hash" = Some (manual_hex_hash x) ∧ x ∈ hashed_texts o.

(** Equal hashes of two links come from equal links. *)
Lemma link_inj rs p o x rs' p' o' y :
  link rs p o x → link rs' p' o' y → manual_hex_hash x = manual_hex_hash y →
  (p = p' ∧ payload_of o = payload_of o') ∨ collide o o'.
Proof.
  intros (Hp & Hs & Hf & Hh & Hx) (Hp' & Hs' & Hf' & Hh' & Hy) [E|[Hne E]]%hash_inj;
    [|right; by exists x, y].
  assert (∀ (rs : list object) o, field_u64 o "seq" = Some (Z.of_nat (length rs)) →
            0 ≤ Z.of_nat (length rs) ≤ u64_max) as Hr.
  { intros ?? (?&_&[_ ?]%as_u64_inv)%bind_Some. done. }
  pose proof (Hr _ _ Hs) as Hb. pose proof (Hr _ _ Hs') as Hb'.
  pose proof (tip_no_colon _ _ Hp). pose proof (tip_no_colon _ _ Hp').
  pose proof (digit_no_colon _ (to_dec_digits _ (proj1 Hb))).
  pose proof (digit_no_colon _ (to_dec_digits _ (proj1 Hb'))).
  unfold hashed_texts in Hx, Hy. rewrite Hs, Hf in Hx. rewrite Hs', Hf' in Hy. subst y. left.
  rewrite !elem_of_cons, elem_of_nil in Hx, Hy.
  destruct Hx as [->|[->|[]]], Hy as [E|[E|[]]];
    apply colon_split in E as [E1 E2]; try done;
    try apply colon_split in E2 as [E2 E3]; try done; subst.
  - split; [done|]. by apply object_text_inj.
  - by destruct (tip_not_dec _ _ _ Hp Hb').
  - by destruct (tip_not_dec _ _ _ Hp' Hb).
  - split; [done|]. by apply object_text_inj.
Qed.

Lemma chained_link rs p o h :
  chained rs p → field_u64 o "seq" = Some (Z.of_nat (length rs)) →
  field_str o "prev_hash" = Some p → field_str o "hash" = Some h →
  h = manual_hex_hash (p +:+ ":" +:+ to_dec (Z.of_nat (length rs)) +:+ ":"
                       +:+ object_text (payload_of o))
  ∨ h = manual_hex_hash (to_dec (Z.of_nat (length rs)) +:+ ":" +:+ p +:+ ":"
                         +:+ object_text (payload_of o)) →
  ∃ x, h = manual_hex_hash x ∧ link rs p o x.
Proof.
  intros Hc Hs Hf Hh [E|E]; (eexists; split; [exact E|]); rewrite E in Hh; split_and!; try done;
    unfold hashed_texts; rewrite Hs, Hf; [left|right; left].
Qed.

Lemma collision_snoc rs rs' o o' : collision_between rs rs' → collision_between (rs ++ [o]) (rs' ++ [o']).
Proof.
  intros (a & b & Ha & Hb & H). exists a, b. rewrite !elem_of_app. auto.
Qed.

Lemma chained_unique rs h : chained rs h → ∀ rs', chained rs' h → rs = rs' ∨ collision_between rs rs'.
Proof.
  induction 1 as [|rs p o h Hp IH Hs Hf Hh Hl]; intros rs' H'.
  - inversion H' as [|rs'' p' o' h' ?? ? ? Hl']; subst; [by left|].
    by destruct Hl' as [E|E]; apply genesis_not_hash in E.
  - inversion H' as [E1 E2|rs'' p' o' h' Hp' Hs' Hf' Hh' Hl']; subst.
    { by destruct Hl as [E|E]; apply genesis_not_hash in E. }
    destruct (chained_link _ _ _ _ Hp Hs Hf Hh Hl) as (x & Ex & Hx).
    destruct (chained_link _ _ _ _ Hp' Hs' Hf' Hh' Hl') as (y & Ey & Hy).
    destruct (link_inj _ _ _ _ _ _ _ _ Hx Hy) as [[-> Hpay]|Hc]; [congruence| |].
    + destruct (IH _ Hp') as [->|?]; [left|right; by apply collision_snoc]. f_equal. f_equal.
      by eapply object_parts.
    + right. exists o, o'. rewrite !elem_of_app. split_and!; [right; left..|done].
Qed.

(** ** The loop builds a chain *)

Lemma verify_lines_app s l l' :
  verify_lines s (l ++ l') = (s' ← verify_lines s l; verify_lines s' l').
Proof.
  revert s. induction l as [|x l IH]; intros s; [done|]. simpl.
  destruct (verify_line s x) as [s'|r]; [apply IH|done].
Qed.

(** The loop state after the records [rs]. *)
Definition scanned (rs : list object) (s : Scan) : Prop :=
  chained rs (expected_prev s) ∧ expected_seq s = Z.of_nat (length rs)
  ∧ scan_last s = (if decide (rs = []) then None else Some (expected_prev s)).

Lemma verify_record_line_Ok rs s obj s' :
  scanned rs s → verify_record_line s obj = Ok s' → scanned (rs ++ [obj]) s'.
Proof.
  intros (Hc & Hs & Hl) H. unfold verify_record_line in H.
  destruct (field_u64 obj "seq") as [sq|] eqn:E1; [|done].
  destruct (field_str obj "prev_hash") as [prev|] eqn:E2; [|done].
  destruct (field_str obj "hash") as [hash|] eqn:E3; [|done].
  cbn [expected_seq expected_prev] in H.
  destruct (Z.eqb_spec sq (expected_seq s)) as [->|]; [|done].
  destruct (String.eqb_spec prev (expected_prev s)) as [->|]; [|done].
  cbn [negb] in H. match type of H with (if ?b then _ else _) = _ => destruct b eqn:Eb end; [done|].
  injection H as <-. unfold scanned; cbn [expected_prev expected_seq scan_last].
  rewrite Hs in *. split_and!.
  - eapply chained_snoc; [exact Hc|done..|].
    apply andb_false_iff in Eb as [Eb|Eb]; apply negb_false_iff, String.eqb_eq in Eb; eauto.
  - rewrite length_app. simpl. lia.
  - rewrite decide_False; [done|]. by destruct rs.
Qed.

Lemma verify_line_Ok rs s line s' :
  scanned rs s → verify_line s line = Ok s' → scanned (rs ++ records_of [line]) s'.
Proof.
  intros Hs H. unfold verify_line in H. unfold records_of, record_of. cbn [omap list_omap].
  destruct (is_empty (trim line)).
  { injection H as <-. by rewrite app_nil_r. }
  cbn [seen_signature] in H. destruct (seen_signature s); [done|].
  destruct (parse_line (trim line)) as [[obj|]|]; [|done..].
  destruct (is_signature_envelope obj).
  - rewrite app_nil_r. unfold verify_signature_line in H.
    destruct (field_str obj "prev_hash"); [|done]. destruct (field_u64 obj "seq"); [|done].
    repeat match type of H with (if ?b then _ else _) = _ => destruct b; [done|] end.
    by injection H as <-.
  - by eapply verify_record_line_Ok in H.
Qed.

Lemma verify_lines_Ok lines s :
  verify_lines scan_start lines = Ok s → scanned (records_of lines) s.
Proof.
  revert s. induction lines as [|x lines IH] using rev_ind; intros s H.
  - injection H as <-. by repeat constructor.
  - rewrite verify_lines_app in H. destruct (verify_lines scan_start lines) as [s1|] eqn:E; [|done].
    simpl in H. destruct (verify_line s1 x) as [s2|] eqn:E2; [|done]. injection H as <-.
    unfold records_of. rewrite omap_app. by eapply verify_line_Ok; [apply IH|].
Qed.

Lemma verify_lines_Err lines s r : verify_lines s lines = Err r → is_valid r = false.
Proof.
  revert s. induction lines as [|x lines IH]; intros s H; [done|]. simpl in H.
  destruct (verify_line s x) as [s'|r'] eqn:E; [by eapply IH|]. injection H as <-.
  clear IH. unfold verify_line, verify_signature_line, verify_record_line, corrupt in E.
  by break_match_in E.
Qed.

Lemma verify_contents_valid lines :
  is_valid (verify_contents lines) = true →
  ∃ s, verify_lines scan_start lines = Ok s ∧ verify_contents lines = conclude s
       ∧ records_of lines ≠ [] ∧ scanned (records_of lines) s
       ∧ (scan_terminal s || seen_signature s) = true.
Proof.
  unfold verify_contents. destruct (verify_lines scan_start lines) as [s|r] eqn:E; intros Hv.
  - exists s. apply verify_lines_Ok in E as Hs. simpl in Hv.
    apply andb_true_iff in Hv as [Hpos Hterm]. split_and!; [done..| |done|done].
    intros Hnil. destruct Hs as (_ & Hs & _). rewrite Hnil in Hs. simpl in Hs. lia.
  - apply verify_lines_Err in E. congruence.
Qed.

(** C38: The last hash commits to the whole ledger: if two files pass
    verification and report the same last hash, they hold the same records in
    the same order (up to spelling of the lines) - or the files themselves exhibit a
    collision of SHA-256: a record of the one and a record of the other that carry the
    same hash, computed from different texts (previous hash, number and payload). *)
Theorem last_hash_binds_history f1 f2 :
  is_valid (verify_contents f1) = true → is_valid (verify_contents f2) = true →
  last_hash (verify_contents f1) = last_hash (verify_contents f2) →
  records_of f1 = records_of f2 ∨ collision_between (records_of f1) (records_of f2).
Proof.
  intros (s1 & _ & E1 & Hn1 & (Hc1 & _ & Hl1) & _)%verify_contents_valid
    (s2 & _ & E2 & Hn2 & (Hc2 & _ & Hl2) & _)%verify_contents_valid H.
  rewrite E1, E2 in H. unfold conclude in H. cbn [last_hash] in H.
  rewrite Hl1, Hl2, !decide_False in H by done. injection H as E. rewrite E in Hc1.
  by eapply chained_unique.
Qed.

(** ** Recording, then verifying *)

(** The records of a session are plain, and only the verdict is terminal. *)
Lemma list_to_map_exact (l : list (string * value)) :
  Forall (λ kv, exact kv.2) l → map_Forall (λ _, exact) (list_to_map l : object).
Proof.
  intros H k v Hk. apply elem_of_list_to_map_2 in Hk.
  rewrite Forall_forall in H. by apply (H (k, v)).
Qed.

Lemma record_object_fields r k :
  k ∉ ["timestamp_utc"; "record_type"; "session_id"; "contract_digest"; "payload"] →
  record_object r !! k = None.
Proof.
  intros Hk. unfold record_object. apply not_elem_of_list_to_map_1. exact Hk.
Qed.

Lemma record_object_terminal r :
  is_terminal_record (record_object r) = bool_decide (record_type r = SessionVerdict).
Proof.
  unfold is_terminal_record, field_str, record_object. simpl.
  rewrite lookup_insert_ne, lookup_insert_eq by done. simpl. rewrite as_str_of.
  by destruct (record_type r).
Qed.

Variable append_line : list string → string → list string * option string.
(** The disk takes every line. *)
Hypothesis append_ok : ∀ f l, append_line f l = (f ++ [l], None).

Definition record_all (l : AuditLedger) (ps : list object) : AuditLedger :=
  fold_left (λ l p, (record_event append_line l p).1) ps l.

(** A payload without chain fields whose values survive printing. *)
Definition plain (p : object) : Prop :=
  map_Forall (λ _, exact) p
  ∧ p !! "seq" = None ∧ p !! "prev_hash" = None ∧ p !! "hash" = None.

Lemma record_object_plain r :
  (∀ cpu rss pids, audit_payload r ≠ PResourceSample cpu rss pids) → plain (record_object r).
Proof.
  intros Hr. unfold plain. split_and!;
    [|apply record_object_fields; rewrite !not_elem_of_cons; split_and!;
      [done..|apply not_elem_of_nil] ..].
  apply list_to_map_exact. repeat constructor; simpl; try apply exact_str.
  apply exact_obj, list_to_map_exact.
  destruct (audit_payload r) as [| | |cpu rss pids| |];
    [..|by destruct (Hr cpu rss pids)| |];
    repeat constructor; simpl; (apply exact_str || apply exact_int || apply exact_bool).
Qed.

(** The loop state on a file that holds exactly the payloads [ps]. *)
Definition scan_of (ps : list object) (tip : string) : Scan :=
  mk_scan tip (Z.of_nat (length ps)) false (existsb is_terminal_record ps)
    (Z.of_nat (length ps)) (if decide (ps = []) then None else Some tip) (Z.of_nat (length ps)).

Lemma verify_envelope fields payload s :
  NoDup fields.*1 → map_Forall (λ _, exact) payload →
  (∀ k, k ∈ fields.*1 → payload !! k = None) → seen_signature s = false →
  verify_line s (envelope_text fields payload) =
  let obj := payload ∪ list_to_map fields in
  let s := mk_scan (expected_prev s) (expected_seq s) false (scan_terminal s)
             (verified s) (scan_last s) (line_no s + 1) in
  if is_signature_envelope obj then verify_signature_line s obj else verify_record_line s obj.
Proof.
  intros Hn He Hk Hs. unfold verify_line.
  rewrite envelope_trimmed, envelope_nonempty. cbn [seen_signature]. rewrite Hs.
  by rewrite parse_envelope.
Qed.

Lemma payload_of_union payload v1 v2 v3 :
  payload !! "seq" = None → payload !! "prev_hash" = None → payload !! "hash" = None →
  payload_of (payload ∪ list_to_map [("seq", v1); ("prev_hash", v2); ("hash", v3)]) = payload.
Proof.
  intros H1 H2 H3. unfold payload_of. apply map_eq. intros k.
  destruct (decide (k = "hash")) as [->|?]; [by rewrite lookup_delete_eq|].
  rewrite lookup_delete_ne by congruence.
  destruct (decide (k = "prev_hash")) as [->|?]; [by rewrite lookup_delete_eq|].
  rewrite lookup_delete_ne by congruence.
  destruct (decide (k = "seq")) as [->|?]; [by rewrite lookup_delete_eq|].
  rewrite lookup_delete_ne by congruence. simpl.
  rewrite lookup_union, !lookup_insert_ne, lookup_empty by congruence.
  by destruct (payload !! k).
Qed.

Lemma record_line_verifies ps tip p :
  plain p → Z.of_nat (length ps) ≤ u64_max →
  let h := manual_hex_hash (tip +:+ ":" +:+ to_dec (Z.of_nat (length ps)) +:+ ":"
                            +:+ object_text p) in
  verify_line (scan_of ps tip)
    (envelope_text [("seq", of_int (Z.of_nat (length ps))); ("prev_hash", of_str tip);
                    ("hash", of_str h)] p)
  = Ok (scan_of (ps ++ [p]) h).
Proof.
  intros (He & H1 & H2 & H3) Hlen h. rewrite verify_envelope; [|..|done].
  - cbv zeta. set (o := p ∪ _).
    assert (field_u64 o "seq" = Some (Z.of_nat (length ps))) as E1.
    { unfold field_u64, o. rewrite lookup_union, H1. simpl. apply as_u64_of. lia. }
    assert (field_str o "prev_hash" = Some tip) as E2.
    { unfold field_str, o. rewrite lookup_union, H2. simpl. apply as_str_of. }
    assert (field_str o "hash" = Some h) as E3.
    { unfold field_str, o. rewrite lookup_union, H3. simpl. apply as_str_of. }
    assert (is_signature_envelope o = false) as ->.
    { unfold is_signature_envelope. rewrite bool_decide_true; [done|].
      apply bind_Some in E3 as (v & -> & _). by exists v. }
    assert (is_terminal_record o = is_terminal_record p) as Et.
    { unfold is_terminal_record, field_str, o. rewrite lookup_union. simpl.
      by destruct (p !! "record_type"). }
    unfold verify_record_line. rewrite E1, E2, E3, Et. unfold scan_of.
    cbn [expected_prev expected_seq seen_signature scan_terminal verified scan_last line_no].
    rewrite Z.eqb_refl, String.eqb_refl. cbn [negb].
    unfold o. rewrite payload_of_union by done. fold h. rewrite String.eqb_refl. cbn [negb andb].
    rewrite length_app, existsb_app, decide_False by (by destruct ps). simpl.
    rewrite orb_false_r. do 2 f_equal; lia.
  - by apply (bool_decide_unpack _); vm_compute.
  - done.
  - intros k. simpl. rewrite !elem_of_cons, elem_of_nil. intuition congruence.
Qed.

Lemma record_all_scan ps :
  Forall plain ps → Z.of_nat (length ps) ≤ u64_max + 1 →
  let l := record_all (mk_ledger [] 0 GENESIS_HASH) ps in
  seq l = Z.of_nat (length ps) ∧ (ps = [] → prev_hash l = GENESIS_HASH)
  ∧ verify_lines scan_start (file l) = Ok (scan_of ps (prev_hash l))
  ∧ (ps = [] → file l = []) ∧ length (file l) = length ps.
Proof.
  induction ps as [|p ps IH] using rev_ind; intros Hp Hlen; [done|].
  apply Forall_app in Hp as [Hps [Hp _]%Forall_cons].
  rewrite length_app in Hlen. simpl in Hlen.
  destruct IH as (Hs & Hg & Hv & Hf & Hfl); [done|lia|].
  unfold record_all. rewrite fold_left_app. cbn [fold_left].
  change (fold_left _ ps _) with (record_all (mk_ledger [] 0 GENESIS_HASH) ps).
  unfold record_event. rewrite append_ok. cbn [fst seq prev_hash file]. rewrite Hs.
  rewrite verify_lines_app, Hv. cbn [mbind result_bind verify_lines].
  rewrite (record_line_verifies ps) by (done || lia). rewrite !length_app. simpl.
  split_and!; [lia|by intros [_ [=]]%app_nil|done|by intros [_ [=]]%app_nil|lia].
Qed.

Lemma signature_line_verifies ps tip :
  Z.of_nat (length ps) ≤ u64_max →
  verify_line (scan_of ps tip)
    (envelope_text [("seq", of_int (Z.of_nat (length ps))); ("prev_hash", of_str tip);
                    ("signature", of_str (manual_hex_hash ("CLOSE:" +:+ tip)))] ∅)
  = Ok (mk_scan tip (Z.of_nat (length ps)) true (existsb is_terminal_record ps)
          (Z.of_nat (length ps)) (if decide (ps = []) then None else Some tip)
          (Z.of_nat (length ps) + 1)).
Proof.
  intros Hlen. rewrite verify_envelope; [|..|done].
  - cbv zeta. rewrite (left_id_L ∅ (∪)).
    set (sig := manual_hex_hash _). cbn [list_to_map foldr fst snd uncurry].
    set (o := <["seq":=_]> _).
    assert (is_signature_envelope o = true) as ->.
    { unfold is_signature_envelope, o. rewrite bool_decide_false, bool_decide_true; [done|..];
        simplify_map_eq; [by eexists|by intros [? [=]]]. }
    assert (field_str o "prev_hash" = Some tip) as E1.
    { unfold field_str, o. simplify_map_eq. apply as_str_of. }
    assert (field_u64 o "seq" = Some (Z.of_nat (length ps))) as E2.
    { unfold field_u64, o. simplify_map_eq. apply as_u64_of. lia. }
    assert (field_str o "signature" = Some sig) as E3.
    { unfold field_str, o. simplify_map_eq. apply as_str_of. }
    unfold verify_signature_line. rewrite E1, E2, E3.
    cbn [expected_prev expected_seq scan_of default]. rewrite String.eqb_refl, Z.eqb_refl.
    cbn [negb orb]. fold sig. by rewrite String.eqb_refl.
  - by apply (bool_decide_unpack _); vm_compute.
  - apply map_Forall_empty.
  - intros k _. apply lookup_empty.
Qed.

(** A ledger that recorded any payloads on a working disk verifies: every
    record is counted, the reported tip is the writer's, and it is valid exactly
    when it holds a verdict record; closing it with a signature makes any
    non-empty ledger valid; reopening it restores the writer's state, and is
    refused once a verdict is recorded or the ledger is closed. *)
Theorem recorded_ledger_verifies ps :
  Forall plain ps → Z.of_nat (length ps) ≤ u64_max → ps ≠ [] →
  let l := record_all (mk_ledger [] 0 GENESIS_HASH) ps in
  let n := Z.of_nat (length ps) in
  let terminal := existsb is_terminal_record ps in
  verify_contents (file l) =
    mk_result terminal n (Some (n - 1)) (Some (prev_hash l)) terminal false
      (if terminal then None
       else Some (mk_corruption n (Some (n - 1)) None None
              "Missing terminal record (SESSION_VERDICT) or signature envelope"))
  ∧ open_ledger (Ok (Some (file l))) None = (if terminal then Err LedgerClosed else Ok l)
  ∧ verify_contents (sign_and_close append_line l).1 =
      mk_result true n (Some (n - 1)) (Some (prev_hash l)) terminal true None
  ∧ open_ledger (Ok (Some (sign_and_close append_line l).1)) None = Err LedgerClosed.
Proof.
  intros Hp Hlen Hne. cbv zeta.
  destruct (record_all_scan ps Hp) as (Hs & _ & Hv & _ & Hfl); [lia|].
  set (l := record_all _ ps) in *.
  assert (0 < Z.of_nat (length ps)) as Hpos by (destruct ps; [done|simpl; lia]).
  assert (verify_contents (file l) = conclude (scan_of ps (prev_hash l))) as E1.
  { unfold verify_contents. by rewrite Hv. }
  assert (verify_contents (sign_and_close append_line l).1 =
    mk_result true (Z.of_nat (length ps)) (Some (Z.of_nat (length ps) - 1))
      (Some (prev_hash l)) (existsb is_terminal_record ps) true None) as E2.
  { unfold sign_and_close. rewrite append_ok. cbn [fst]. rewrite Hs.
    unfold verify_contents. rewrite verify_lines_app, Hv. cbn [mbind result_bind verify_lines].
    rewrite (signature_line_verifies ps) by done. unfold conclude, scan_seq. simpl.
    rewrite decide_False by done. destruct (Z.ltb_spec 0 (Z.of_nat (length ps))); [|lia].
    rewrite orb_true_r. done. }
  assert (conclude (scan_of ps (prev_hash l)) =
    mk_result (existsb is_terminal_record ps) (Z.of_nat (length ps))
      (Some (Z.of_nat (length ps) - 1)) (Some (prev_hash l)) (existsb is_terminal_record ps) false
      (if existsb is_terminal_record ps then None
       else Some (mk_corruption (Z.of_nat (length ps)) (Some (Z.of_nat (length ps) - 1)) None None
              "Missing terminal record (SESSION_VERDICT) or signature envelope"))) as E3.
  { unfold conclude, scan_seq, scan_of. simpl. rewrite decide_False by done.
    destruct (Z.ltb_spec 0 (Z.of_nat (length ps))); [|lia].
    rewrite orb_false_r. simpl. destruct (Z.eqb_spec (Z.of_nat (length ps)) 0); [lia|done]. }
  rewrite E3 in E1. split_and!; [done| |done|].
  - unfold open_ledger. rewrite E1. destruct (file l) as [|x f] eqn:Ef; [simpl in Hfl; lia|].
    rewrite <-Ef in *. cbn [has_signature has_terminal_record corruption is_valid].
    destruct (existsb is_terminal_record ps); [done|]. simpl.
    f_equal. destruct l as [f' sq tip]. simpl in *. f_equal. lia.
  - unfold open_ledger. rewrite E2.
    destruct (sign_and_close append_line l).1 eqn:Ef; [|done].
    unfold sign_and_close in Ef. rewrite append_ok in Ef. cbn [fst] in Ef.
    by apply app_nil in Ef as [_ [=]].
Qed.
End Chain.

(** ** A concrete codec *)

Definition demo_value : Type := (string + Z)%type.
Fixpoint bits (p : positive) : string :=
  match p with
  | xH => "1"
  | xO p => String "0" (bits p)
  | xI p => String "1" (bits p)
  end.
Fixpoint of_bits (s : string) : option positive :=
  match s with
  | EmptyString => None
  | String _ EmptyString => Some xH
  | String c s => (if Ascii.eqb c "0" then xO else xI) <$> of_bits s
  end.
Definition demo_text (o : gmap string demo_value) : string := bits (encode o).

Definition demo_ledger_codec : LedgerCodec := {|
  value := demo_value;
  as_str v := match v with inl s => Some s | inr _ => None end;
  as_u64 v := match v with
              | inr n => if (0 <=? n) && (n <=? u64_max) then Some n else None
              | inl _ => None
              end;
  of_str := inl;
  of_int := inr;
  of_bool b := inr (if b then 1 else 0);
  of_f64 _ := inl "float";
  of_obj o := inl (demo_text o);
  parse_line s := match of_bits s ≫= decode with Some o => Ok (Some o) | None => Err "eof" end;
  object_text := demo_text;
  envelope_text fields payload := demo_text (payload ∪ list_to_map fields);
  sha256_str s := replicate 31 0 ++ [wrap 8 (fold_right Z.add 0 (string_bytes s))];
|}.

Lemma of_bits_bits p : of_bits (bits p) = Some p.
Proof.
  induction p as [p IH|p IH|]; [..|done]; simpl; rewrite IH; by destruct p.
Qed.

Lemma bits_graph p : all_chars is_graph (bits p) = true.
Proof. by induction p. Qed.

#[export] Instance demo_ledger_laws : LedgerLaws demo_ledger_codec (λ _, True).
Proof.
  split; try done.
  - intros n [? ?]. simpl. destruct (Z.leb_spec 0 n), (Z.leb_spec n u64_max); done || lia.
  - intros [v|v] s; [by intros [= ->]|done].
  - intros [v|v] n; [done|]. simpl.
    destruct (Z.leb_spec 0 v), (Z.leb_spec v u64_max); [intros [= ->]|done..]. done.
  - intros fields payload _ _ _. simpl. unfold demo_text. rewrite of_bits_bits. simpl.
    by rewrite decode_encode.
  - intros fields payload. apply trim_graph, bits_graph.
  - intros fields payload. simpl. unfold demo_text. by destruct (encode _).
  - intros o o' E. apply (f_equal of_bits) in E. unfold object_text in E. simpl in E.
    unfold demo_text in E. rewrite !of_bits_bits in E. injection E as E. by apply (inj encode).
  - intros d. cbn [sha256_str demo_ledger_codec]. apply Forall_app.
    split; [by apply Forall_replicate|]. constructor; [apply wrap8_range|constructor].
Qed.

Definition demo_append (f : list string) (l : string) : list string * option string :=
  (f ++ [l], None).

Definition demo_payloads : list (gmap string (@value demo_ledger_codec)) :=
  [@record_object demo_ledger_codec
     (session_init "t0" "n" "d" "linux" "linux" "demo" Tier1Linux);
   @record_object demo_ledger_codec (tree_extinction "t1" "n" "d" "tier" 0 9 12 true)].

Lemma recorded_ledger_verifies_witness :
  let l := @record_all demo_ledger_codec demo_append
             (mk_ledger [] 0 GENESIS_HASH) demo_payloads in
  is_valid (@verify_contents demo_ledger_codec
              (@sign_and_close demo_ledger_codec demo_append l).1) = true.
Proof.
  cbv zeta.
  destruct (@recorded_ledger_verifies demo_ledger_codec (λ _, True) demo_ledger_laws demo_append
    (λ f l, eq_refl) demo_payloads) as (_ & _ & -> & _); [|vm_compute; discriminate|done|done].
  repeat constructor; intros ???; exact I.
Defined.

Lemma last_hash_binds_history_witness :
  let f := (@sign_and_close demo_ledger_codec demo_append
              (@record_all demo_ledger_codec demo_append
                 (mk_ledger [] 0 GENESIS_HASH) demo_payloads)).1 in
  @records_of demo_ledger_codec f = @records_of demo_ledger_codec (f ++ [" "])
  ∨ @collision_between demo_ledger_codec (@records_of demo_ledger_codec f)
      (@records_of demo_ledger_codec (f ++ [" "])).
Proof.
  cbv zeta. apply (@last_hash_binds_history demo_ledger_codec (λ _, True) demo_ledger_laws);
    vm_compute; reflexivity.
Defined.
