(* ===== verification/Capability.v ===== *)
(** * Capability: enforcement contracts and the backends that keep them

    Model of [src/src/sandbox/capability.rs]: the frozen specification and the
    canonical policy text, the enforcement report and its queries, the backend
    interface and its four implementations (each built for its platform).
    SHA-256 and the JSON text of a frozen specification are arguments. *)

From S2P Require Import Prelude Paths PolicyTypes Blake3 Plan.

(** ** Capabilities and states *)

Inductive SecurityCapability : Type :=
| FilesystemIsolation | NetworkIsolation | ProcessIsolation | ProcessTreeContainment
| CapResourceLimits | SyscallRestriction | ExecutionRootIsolation | HostEvidence.
#[export] Instance SecurityCapability_eq_dec : EqDecision SecurityCapability.
Proof. solve_decision. Defined.

Definition capability_label (c : SecurityCapability) : string :=
  match c with
  | FilesystemIsolation => "filesystem" | NetworkIsolation => "network"
  | ProcessIsolation => "process" | ProcessTreeContainment => "tree"
  | CapResourceLimits => "resources" | SyscallRestriction => "syscalls"
  | ExecutionRootIsolation => "exec-root" | HostEvidence => "host-evidence"
  end.

Definition all_capabilities : list SecurityCapability :=
  [FilesystemIsolation; NetworkIsolation; ProcessIsolation; ProcessTreeContainment;
   CapResourceLimits; SyscallRestriction; ExecutionRootIsolation; HostEvidence].

Inductive EnforcementState : Type :=
| Requested | Configured | Enforced | Verified | Unsupported | Failed.
#[export] Instance EnforcementState_eq_dec : EqDecision EnforcementState.
Proof. solve_decision. Defined.

Definition state_label (s : EnforcementState) : string :=
  match s with
  | Requested => "requested" | Configured => "configured" | Enforced => "enforced"
  | Verified => "verified" | Unsupported => "unsupported" | Failed => "failed"
  end.
Definition state_is_enforced (s : EnforcementState) : bool :=
  match s with Enforced | Verified => true | _ => false end.

Inductive PreparationFailureKind : Type :=
| UnsupportedOnPlatform | PlatformUnavailable | SpawnRefused | VerificationUnavailable.
#[export] Instance PreparationFailureKind_eq_dec : EqDecision PreparationFailureKind.
Proof. solve_decision. Defined.

Definition failure_label (k : PreparationFailureKind) : string :=
  match k with
  | UnsupportedOnPlatform => "unsupported-on-platform"
  | PlatformUnavailable => "platform-unavailable"
  | SpawnRefused => "spawn-refused"
  | VerificationUnavailable => "verification-unavailable"
  end.

Inductive BackendKind : Type := KDirect | KLinux | KMacos | KWindows.
#[export] Instance BackendKind_eq_dec : EqDecision BackendKind.
Proof. solve_decision. Defined.
Definition backend_label (k : BackendKind) : string :=
  match k with
  | KDirect => "direct" | KLinux => "linux" | KMacos => "macos" | KWindows => "windows"
  end.

(** ** Host observations *)

Record HostVerification : Type := mk_host {
  seccomp_filter : bool; no_new_privs : bool; pgroup_separate : bool; rlimit_as_ok : bool;
  rlimit_nproc_ok : bool; rlimit_cpu_ok : bool; rlimit_fsize_ok : bool; subreaper_ok : bool;
  win_in_job : bool; win_kill_on_close : bool; win_low_integrity : bool;
  win_job_ceiling : bool; cgroup_memory_ok : bool; cgroup_pids_ok : bool;
  cgroup_cpu_ok : bool; netns_isolated : bool;
}.

Definition host_none : HostVerification :=
  mk_host false false false false false false false false false false false false false false
    false false.

Definition all_observed (v : HostVerification) : bool :=
  seccomp_filter v && no_new_privs v && pgroup_separate v
  && (rlimit_as_ok v || cgroup_memory_ok v) && (rlimit_nproc_ok v || cgroup_pids_ok v)
  && (rlimit_cpu_ok v || cgroup_cpu_ok v) && subreaper_ok v.

(** ** Frozen specification and canonical policy *)

Record FrozenSpec : Type := mk_frozen {
  fz_scenario_id : string; fz_registry_hash : string; fz_tier : string; fz_net_mode : string;
  fz_backend : string; fz_argv : list string; fz_env : gmap string string; fz_cwd : path;
  fz_allow_read : list string; fz_allow_write : list string; fz_deny_read : list string;
  fz_deny_write : list string; fz_deny_resolved : list string; fz_nonce : string;
  fz_policy_bytes : string;
}.

Record CanonicalPolicy : Type := mk_canonical {
  cp_scenario_id : string; cp_registry_hash : string; cp_session_nonce : string;
  cp_frozen_hash : string; cp_net_mode : string; cp_tier : string; cp_backend_hint : string;
  cp_argv : list string; cp_env : gmap string string; cp_cwd : path;
  cp_allow_read : list path; cp_allow_write : list path; cp_deny_read : list path;
  cp_deny_write : list path; cp_deny_resolved : list path; cp_policy_bytes : string;
  cp_policy_hash : string;
}.
#[export] Instance CanonicalPolicy_eq_dec : EqDecision CanonicalPolicy.
Proof. solve_decision. Defined.

Record ExecutionIdentity : Type := mk_identity {
  id_scenario_id : string; id_session_nonce : string; id_registry_hash : string;
  id_frozen_hash : string; contract_digest : option string;
}.
Definition identity_new (scenario nonce registry frozen : string) : ExecutionIdentity :=
  mk_identity scenario nonce registry frozen None.

(** [sort()] of strings: by bytes, duplicates kept. *)
Fixpoint insert_dup (x : string) (l : list string) : list string :=
  match l with
  | [] => [x]
  | y :: l' => match String.compare x y with Gt => y :: insert_dup x l' | _ => x :: l end
  end.
Definition sort_strings (l : list string) : list string := foldr insert_dup [] l.
Fixpoint insert_Z (x : Z) (l : list Z) : list Z :=
  match l with [] => [x] | y :: l' => if y <? x then y :: insert_Z x l' else x :: l end.
Definition sort_ports (l : list Z) : list Z := foldr insert_Z [] l.
Fixpoint insert_quota_pair (x : string * Z) (l : list (string * Z)) : list (string * Z) :=
  match l with
  | [] => [x]
  | y :: l' => match String.compare x.1 y.1 with Gt => y :: insert_quota_pair x l' | _ => x :: l end
  end.

Definition display_bool (b : bool) : string := if b then "true" else "false".
Definition bracketed (ws : list string) : string := "[" +:+ join_with "," ws +:+ "]".
Definition paths_text (ps : list path) : string := bracketed (sort_strings (to_str <$> ps)).
Definition strs_text (ss : list string) : string := bracketed (sort_strings ss).
Definition opt_text (o : option string) : string := default "-" o.
Definition opt_u_text (o : option Z) : string := default "-" (to_dec <$> o).
Definition num_list (ps : list Z) : string := join_with "," (to_dec <$> ps).

Definition io_rate_text (r : IoRateLimit) : string :=
  "iops=" +:+ opt_u_text (max_iops r) +:+ "bw=" +:+ opt_u_text (max_bandwidth r).
Definition notify_text (n : SeccompNotifyConfig) : string :=
  "enabled=" +:+ display_bool (notify_enabled n) +:+ "default=" +:+ opt_text (default_action n)
  +:+ "allow=" +:+ strs_text (allow_syscalls n).
Definition cgroup_text (c : CgroupConfig) : string :=
  "mem=" +:+ opt_text (memory_max c) +:+ "pids=" +:+ opt_text (pids_max c)
  +:+ "swap=" +:+ opt_text (swap_max c) +:+ "cpu=" +:+ opt_text (cgroup_cpu_max c).

Definition canonical_policy_bytes (p : Policy) : string :=
  let quota := foldr insert_quota_pair [] (map_to_list (net_quota p)) in
  let meta := metadata p in
  let lim := limits p in
  "vng-policy-v1;"
  +:+ "name=" +:+ policy_name p +:+ ";"
  +:+ "meta=name=" +:+ meta_name meta +:+ "|desc=" +:+ meta_description meta
  +:+ "|extends=" +:+ strs_text (meta_extends meta)
  +:+ "|source=" +:+ default "-" (source_label <$> source_kind meta)
  +:+ "|immutable=" +:+ display_bool (immutable meta) +:+ ";"
  +:+ "limits=cpu=" +:+ opt_u_text (cpu_seconds lim)
  +:+ "|as=" +:+ opt_u_text (address_space_bytes lim)
  +:+ "|procs=" +:+ opt_u_text (processes lim) +:+ "|files=" +:+ opt_u_text (open_files lim)
  +:+ "|fsize=" +:+ opt_u_text (file_size_bytes lim)
  +:+ "|io=" +:+ default "-" (io_rate_text <$> io_rate lim) +:+ ";"
  +:+ "fs=allow_w=" +:+ paths_text (allow_write p) +:+ "|allow_r=" +:+ paths_text (allow_read p)
  +:+ "|deny_w=" +:+ paths_text (deny_write p) +:+ "|deny_r=" +:+ paths_text (deny_read p)
  +:+ "|resolved=" +:+ strs_text ((λ e, to_str (deny_path e) +:+ ":"
                                        +:+ display_bool (deny_is_dir e)) <$> deny_resolved p)
  +:+ ";"
  +:+ "env=pass=" +:+ strs_text (pass_through (environment p))
  +:+ "|deny=" +:+ strs_text (env_deny (environment p)) +:+ ";"
  +:+ "net=deny_net=" +:+ display_bool (deny_network p) +:+ "|cidr=" +:+ strs_text (allow_cidr p)
  +:+ "|quota=" +:+ bracketed ((λ '(q, v), q +:+ "=" +:+ to_dec v) <$> quota)
  +:+ "|bind=[" +:+ num_list (sort_ports (net_bind_ports p)) +:+ "]"
  +:+ "|conn=[" +:+ num_list (sort_ports (net_connect_ports p)) +:+ "]"
  +:+ "|unix=" +:+ strs_text (allow_unix_sockets p) +:+ ";"
  +:+ "harden=seccomp=" +:+ profile_label (seccomp_profile p)
  +:+ "|notify=" +:+ default "-" (notify_text <$> seccomp_notify p)
  +:+ "|cgroup=" +:+ default "-" (cgroup_text <$> cgroup p)
  +:+ "|cpu_max=" +:+ opt_text (cpu_max p) +:+ "|io_prio=" +:+ opt_text (io_priority p)
  +:+ "|dev=" +:+ strs_text (default [] (dev_allow p)) +:+ ";"
  +:+ "misc=oslog=" +:+ display_bool (oslog p) +:+ "|lpac=" +:+ display_bool (lpac p)
  +:+ "|immutable=" +:+ display_bool (is_immutable p)
  +:+ "|syslog=" +:+ display_bool (system_log p)
  +:+ "|autodeny=" +:+ display_bool (auto_deny_secrets p)
  +:+ "|proxies=" +:+ strs_text (secret_proxies p) +:+ "|ro=" +:+ paths_text (ro_mounts p)
  +:+ "|git=" +:+ display_bool (git_guard p) +:+ "|snap=" +:+ display_bool (snapshot p)
  +:+ "|tmpfs=" +:+ display_bool (tmpfs_tmp p) +:+ "|warn=" +:+ strs_text (warnings p) +:+ ";".

Definition freeze_spec (scenario registry : string) (p : Policy) (tier : string) (net : NetMode)
    (backend : string) (argv : list string) (env : gmap string string) (cwd : path)
    (nonce : string) : FrozenSpec :=
  let sorted ps := sort_strings (to_str <$> ps) in
  mk_frozen scenario registry tier (net_label net) backend argv env cwd
    (sorted (allow_read p)) (sorted (allow_write p)) (sorted (deny_read p))
    (sorted (deny_write p)) (sorted (deny_path <$> deny_resolved p)) nonce
    (canonical_policy_bytes p).

Section Hashes.
(** SHA-256 of a byte string; the JSON bytes of a frozen specification. *)
Variable sha256_text : string → list Z.
Variable frozen_json : FrozenSpec → string.

Definition frozen_hash (s : FrozenSpec) : string := to_hex (sha256_text (frozen_json s)).

Definition from_frozen (s : FrozenSpec) : CanonicalPolicy :=
  mk_canonical (fz_scenario_id s) (fz_registry_hash s) (fz_nonce s) (frozen_hash s)
    (fz_net_mode s) (fz_tier s) (fz_backend s) (fz_argv s) (fz_env s) (fz_cwd s)
    (components <$> fz_allow_read s) (components <$> fz_allow_write s)
    (components <$> fz_deny_read s) (components <$> fz_deny_write s)
    (components <$> fz_deny_resolved s) (fz_policy_bytes s)
    (to_hex (sha256_text (fz_policy_bytes s))).
End Hashes.

(** ** Enforcement report *)

Record CapabilityRecord : Type := mk_record {
  capability : SecurityCapability;
  requested : bool;
  rec_state : EnforcementState;
  failure : option PreparationFailureKind;
}.

Record EnforcementReport : Type := mk_report {
  backend : BackendKind;
  scenario_id : string;
  session_nonce : string;
  registry_hash : string;
  report_frozen_hash : string;
  policy_hash : string;
  preparation_ok : bool;
  records : list CapabilityRecord;
}.

(** The maps are total functions with a default here: [states.get(&cap)] and
    [failures.get(&cap)]. *)
Definition build (kind : BackendKind) (policy : CanonicalPolicy) (identity : ExecutionIdentity)
    (states : SecurityCapability → option EnforcementState)
    (failures : SecurityCapability → option PreparationFailureKind) (ok : bool) :
  EnforcementReport :=
  mk_report kind (id_scenario_id identity) (id_session_nonce identity)
    (id_registry_hash identity) (id_frozen_hash identity) (cp_policy_hash policy) ok
    ((λ cap, mk_record cap true (default Unsupported (states cap)) (failures cap))
       <$> all_capabilities).

Definition report_state (r : EnforcementReport) (cap : SecurityCapability) : EnforcementState :=
  match List.find (λ x, bool_decide (capability x = cap)) (records r) with
  | Some x => rec_state x
  | None => Unsupported
  end.

Definition is_enforced (r : EnforcementReport) (cap : SecurityCapability) : bool :=
  preparation_ok r && state_is_enforced (report_state r cap).

Definition enforced (r : EnforcementReport) : list SecurityCapability :=
  List.filter (is_enforced r) all_capabilities.
Definition with_state (s : EnforcementState) (r : EnforcementReport) : list CapabilityRecord :=
  List.filter (λ x, bool_decide (rec_state x = s)) (records r).
Definition unsupported (r : EnforcementReport) : list SecurityCapability :=
  capability <$> with_state Unsupported r.
Definition failed (r : EnforcementReport) :
  list (SecurityCapability * option PreparationFailureKind) :=
  (λ x, (capability x, failure x)) <$> with_state Failed r.
Definition verified (r : EnforcementReport) : list SecurityCapability :=
  capability <$> with_state Verified r.
Definition requested_capabilities (r : EnforcementReport) : list SecurityCapability :=
  capability <$> List.filter requested (records r).

Definition allows_pass (r : EnforcementReport) (required : list SecurityCapability) : bool :=
  if negb (preparation_ok r) then false else forallb (is_enforced r) required.

Definition binds_identity (r : EnforcementReport) (i : ExecutionIdentity) : bool :=
  String.eqb (scenario_id r) (id_scenario_id i)
  && String.eqb (session_nonce r) (id_session_nonce i)
  && String.eqb (registry_hash r) (id_registry_hash i)
  && String.eqb (report_frozen_hash r) (id_frozen_hash i).

Definition render_deterministic (r : EnforcementReport) : string :=
  join_with "|"
    (("backend=" +:+ backend_label (backend r))
     :: ((λ x, capability_label (capability x) +:+ "=" +:+ state_label (rec_state x))
           <$> records r)
     ++ ["preparation_ok=" +:+ display_bool (preparation_ok r)]).

(** ** The backend interface ([trait SandboxBackend]) *)

Record ChildEnforcementPlan : Type := mk_plan {
  net_deny : bool;
  new_pgroup : bool;
  rlimit_as : option Z;
  rlimit_nproc : option Z;
  rlimit_cpu : option Z;
  rlimit_fsize : option Z;
  chroot : option path;
  plan_mask_paths : list path;
}.

Class SandboxBackend (B : Type) : Type := {
  kind : BackendKind;
  supports : SecurityCapability → bool;
  fresh : B;
  prepare : CanonicalPolicy → ExecutionIdentity → B → B * EnforcementReport;
  pre_exec_plan : B → option ChildEnforcementPlan;
  note_spawned : Z → B → B;
  note_host_verified : HostVerification → B → B;
  note_failed : PreparationFailureKind → B → B;
  note_tree_clean : bool → B → B;
  note_diagnostic : string → B → B;
  diagnostic : B → option string;
  restrict_tier : option Tier → B → B;
  enforcement : B → option EnforcementReport;
  teardown : B → B;
}.

(** The calls a session makes on its backend. *)
Inductive event : Type :=
| Prepare (policy : CanonicalPolicy) (identity : ExecutionIdentity)
| Spawned (pid : Z)
| HostVerified (v : HostVerification)
| NoteFailed (k : PreparationFailureKind)
| TreeClean (clean : bool)
| Diagnostic (diag : string)
| RestrictTier (tier : option Tier)
| Teardown.

Definition handle {B} `{SandboxBackend B} (b : B) (e : event) : B :=
  match e with
  | Prepare p i => (prepare p i b).1
  | Spawned pid => note_spawned pid b
  | HostVerified v => note_host_verified v b
  | NoteFailed k => note_failed k b
  | TreeClean clean => note_tree_clean clean b
  | Diagnostic d => note_diagnostic d b
  | RestrictTier t => restrict_tier t b
  | Teardown => teardown b
  end.
Definition session {B} `{SandboxBackend B} (b : B) (es : list event) : B := fold_left handle es b.

(** ** Record updates shared by the backends *)

Definition set_records (r : EnforcementReport) (rs : list CapabilityRecord) : EnforcementReport :=
  mk_report (backend r) (scenario_id r) (session_nonce r) (registry_hash r)
    (report_frozen_hash r) (policy_hash r) (preparation_ok r) rs.
Definition set_ok (r : EnforcementReport) (ok : bool) : EnforcementReport :=
  mk_report (backend r) (scenario_id r) (session_nonce r) (registry_hash r)
    (report_frozen_hash r) (policy_hash r) ok (records r).
Definition update_all (f : CapabilityRecord → CapabilityRecord) (r : EnforcementReport) :
  EnforcementReport := set_records r (f <$> records r).

(** [iter_mut().find(pred)] and an update of the record found. *)
Fixpoint update_first (P : CapabilityRecord → bool) (f : CapabilityRecord → CapabilityRecord)
    (rs : list CapabilityRecord) : list CapabilityRecord :=
  match rs with
  | [] => []
  | x :: rs => if P x then f x :: rs else x :: update_first P f rs
  end.
Definition is_cap (c : SecurityCapability) (x : CapabilityRecord) : bool :=
  bool_decide (capability x = c).
Definition update_cap (c : SecurityCapability) (f : CapabilityRecord → CapabilityRecord)
    (r : EnforcementReport) : EnforcementReport :=
  set_records r (update_first (is_cap c) f (records r)).

Definition set_state (s : EnforcementState) (x : CapabilityRecord) : CapabilityRecord :=
  mk_record (capability x) (requested x) s (failure x).
Definition set_failure (s : EnforcementState) (k : option PreparationFailureKind)
    (x : CapabilityRecord) : CapabilityRecord :=
  mk_record (capability x) (requested x) s k.

Definition promote (x : CapabilityRecord) : CapabilityRecord :=
  match rec_state x with Configured => set_state Enforced x | _ => x end.
Definition verify (x : CapabilityRecord) : CapabilityRecord :=
  match rec_state x with Enforced => set_state Verified x | _ => x end.
Definition fail (k : PreparationFailureKind) (x : CapabilityRecord) : CapabilityRecord :=
  match rec_state x with
  | Configured | Enforced | Verified => set_failure Failed (Some k) x
  | _ => x
  end.
Definition tree_record (clean : bool) (x : CapabilityRecord) : CapabilityRecord :=
  match rec_state x, clean with
  | Enforced, true => set_state Verified x
  | Enforced, false | Configured, false => set_failure Failed (Some VerificationUnavailable) x
  | _, _ => x
  end.

Definition promote_configured_to_enforced : option EnforcementReport → option EnforcementReport :=
  fmap (update_all promote).
Definition fail_installed (k : PreparationFailureKind) :
  option EnforcementReport → option EnforcementReport :=
  fmap (λ r, set_ok (update_all (fail k) r) false).
Definition verify_if (c : SecurityCapability) (observed : bool) (r : EnforcementReport) :
  EnforcementReport := if observed then update_cap c verify r else r.

(** ** Direct execution *)

Record DirectBackend : Type := mk_direct { direct_report : option EnforcementReport }.

Definition direct_states (c : SecurityCapability) : option EnforcementState :=
  Some (match c with HostEvidence => Enforced | _ => Unsupported end).

#[export] Instance direct_backend : SandboxBackend DirectBackend := {|
  kind := KDirect;
  supports c := bool_decide (c = HostEvidence);
  fresh := mk_direct None;
  prepare policy identity _ :=
    let report := build KDirect policy identity direct_states (λ _, None) true in
    (mk_direct (Some report), report);
  pre_exec_plan _ := None;
  note_spawned _ b := b;
  note_host_verified _ b := b;
  note_failed _ b := b;
  note_tree_clean _ b := b;
  note_diagnostic _ b := b;
  diagnostic _ := None;
  restrict_tier _ b := b;
  enforcement := direct_report;
  teardown b := b;
|}.

(** ** Linux *)

Record LinuxBackend : Type := mk_linux {
  linux_report : option EnforcementReport;
  linux_plan : option ChildEnforcementPlan;
  linux_tier : option Tier;
  linux_diag : option string;
}.

Definition with_report (b : LinuxBackend) (r : option EnforcementReport) : LinuxBackend :=
  mk_linux r (linux_plan b) (linux_tier b) (linux_diag b).

Definition net_not_off (b : LinuxBackend) : bool :=
  match linux_plan b with Some p => negb (net_deny p) | None => false end.

(** Both tests of the loop body look at the same record, in sequence. *)
Definition restrict_net (not_off : bool) (x : CapabilityRecord) : CapabilityRecord :=
  if is_cap NetworkIsolation x && not_off
  then set_failure Unsupported (Some UnsupportedOnPlatform) x else x.
Definition restrict_seccomp_record (not_off : bool) (x : CapabilityRecord) : CapabilityRecord :=
  restrict_net not_off
    (if is_cap FilesystemIsolation x || is_cap ExecutionRootIsolation x
     then set_failure Unsupported None x else x).
Definition restrict_fsonly_record (not_off : bool) (x : CapabilityRecord) : CapabilityRecord :=
  restrict_net not_off
    (if is_cap ProcessTreeContainment x
     then set_failure Unsupported (Some UnsupportedOnPlatform) x else x).

Definition restrict_seccomp_records (b : LinuxBackend) : LinuxBackend :=
  with_report b (update_all (restrict_seccomp_record (net_not_off b)) <$> linux_report b).
Definition restrict_fsonly_records (b : LinuxBackend) : LinuxBackend :=
  with_report b (update_all (restrict_fsonly_record (net_not_off b)) <$> linux_report b).

Definition restrict_records (b : LinuxBackend) : LinuxBackend :=
  match linux_tier b with
  | Some Seccomp => restrict_seccomp_records b
  | Some FsOnly => restrict_fsonly_records b
  | _ => b
  end.

Definition apply_tier_restriction (tier : option Tier) (b : LinuxBackend) : LinuxBackend :=
  restrict_records (mk_linux (linux_report b) (linux_plan b) tier (linux_diag b)).

Definition linux_states (c : SecurityCapability) : option EnforcementState :=
  Some (match c with HostEvidence => Enforced | _ => Configured end).

Definition linux_prepare (policy : CanonicalPolicy) (identity : ExecutionIdentity)
    (b : LinuxBackend) : LinuxBackend * EnforcementReport :=
  let report := build KLinux policy identity linux_states (λ _, None) true in
  let plan := mk_plan (String.eqb (cp_net_mode policy) "off") true None None None None None [] in
  let b := restrict_records (mk_linux (Some report) (Some plan) (linux_tier b) (linux_diag b)) in
  (b, default report (linux_report b)).

Definition linux_host_verified (v : HostVerification) (b : LinuxBackend) : LinuxBackend :=
  let net_denied := match linux_plan b with Some p => net_deny p | None => false end in
  with_report b ((λ r,
    verify_if CapResourceLimits
      (rlimit_as_ok v || rlimit_cpu_ok v || rlimit_fsize_ok v || rlimit_nproc_ok v
       || win_job_ceiling v || cgroup_memory_ok v || cgroup_cpu_ok v || cgroup_pids_ok v)
    (verify_if ProcessTreeContainment (subreaper_ok v || win_in_job v)
    (verify_if NetworkIsolation (netns_isolated v || (seccomp_filter v && net_denied))
    (verify_if SyscallRestriction (seccomp_filter v)
    (verify_if ProcessIsolation (no_new_privs v) r))))) <$> linux_report b).

Definition linux_tree_clean (clean : bool) (b : LinuxBackend) : LinuxBackend :=
  if bool_decide (linux_tier b = Some FsOnly) then b
  else with_report b (update_all (λ x,
         if is_cap ProcessTreeContainment x then tree_record clean x else x) <$> linux_report b).

#[export] Instance linux_backend : SandboxBackend LinuxBackend := {|
  kind := KLinux;
  supports _ := true;
  fresh := mk_linux None None None None;
  prepare := linux_prepare;
  pre_exec_plan := linux_plan;
  note_spawned _ b := with_report b (promote_configured_to_enforced (linux_report b));
  note_host_verified := linux_host_verified;
  note_failed k b := with_report b (fail_installed k (linux_report b));
  note_tree_clean := linux_tree_clean;
  note_diagnostic d b := mk_linux (linux_report b) (linux_plan b) (linux_tier b) (Some d);
  diagnostic := linux_diag;
  restrict_tier := apply_tier_restriction;
  enforcement := linux_report;
  teardown _ := mk_linux None None None None;
|}.

(** ** macOS (built for macOS) *)

Record MacosBackend : Type := mk_macos {
  macos_report : option EnforcementReport;
  tree_diag : option string;
}.

Definition macos_supports (c : SecurityCapability) : bool :=
  match c with SyscallRestriction | ExecutionRootIsolation => false | _ => true end.

Definition macos_prepare (policy : CanonicalPolicy) (identity : ExecutionIdentity)
    (_ : MacosBackend) : MacosBackend * EnforcementReport :=
  let is_supported_net :=
    String.eqb (cp_net_mode policy) "off" || starts_with (cp_net_mode policy) "allowlist" in
  let report :=
    if negb is_supported_net then
      build KMacos policy identity
        (λ c, Some (if bool_decide (c = NetworkIsolation) then Failed else Unsupported))
        (λ c, if bool_decide (c = NetworkIsolation) then Some UnsupportedOnPlatform else None)
        false
    else
      build KMacos policy identity
        (λ c, Some (match c with
                    | SyscallRestriction | ExecutionRootIsolation => Unsupported
                    | HostEvidence => Enforced
                    | _ => Configured
                    end)) (λ _, None) true in
  (mk_macos (Some report) None, report).

#[export] Instance macos_backend : SandboxBackend MacosBackend := {|
  kind := KMacos;
  supports := macos_supports;
  fresh := mk_macos None None;
  prepare := macos_prepare;
  pre_exec_plan _ := None;
  note_spawned _ b := mk_macos (promote_configured_to_enforced (macos_report b)) (tree_diag b);
  note_host_verified v b :=
    mk_macos (verify_if ProcessIsolation (pgroup_separate v) <$> macos_report b) (tree_diag b);
  note_failed k b := mk_macos (fail_installed k (macos_report b)) (tree_diag b);
  note_tree_clean clean b :=
    mk_macos (update_cap ProcessTreeContainment (tree_record clean) <$> macos_report b)
      (tree_diag b);
  note_diagnostic d b := mk_macos (macos_report b) (Some d);
  diagnostic := tree_diag;
  restrict_tier _ b := b;
  enforcement := macos_report;
  teardown _ := mk_macos None None;
|}.

(** ** Windows (built for Windows) *)

Record WindowsBackend : Type := mk_windows {
  windows_report : option EnforcementReport;
  spawned_pid : option Z;
  windows_diagnostic : option string;
}.

(** [windows::probe()]: readiness of the platform and one experimental flag. *)
Record WinProbe : Type := mk_probe { enforcement_ready : bool; as_user : bool }.

Definition windows_states (policy : CanonicalPolicy) (c : SecurityCapability) :
  option EnforcementState :=
  Some (match c with
        | ExecutionRootIsolation | SyscallRestriction => Unsupported
        | NetworkIsolation =>
            if String.eqb (cp_net_mode policy) "off" then Configured else Unsupported
        | HostEvidence => Enforced
        | _ => Configured
        end).

Definition windows_prepare (probe : WinProbe) (policy : CanonicalPolicy)
    (identity : ExecutionIdentity) (_ : WindowsBackend) : WindowsBackend * EnforcementReport :=
  if negb (enforcement_ready probe) then
    let report := build KWindows policy identity (λ _, Some Failed)
                    (λ _, Some PlatformUnavailable) false in
    (mk_windows (Some report) None None, report)
  else
    let report := build KWindows policy identity (windows_states policy) (λ _, None) true in
    (mk_windows (Some report) None
       (Some ("win prepare ok=true as-user=" +:+ display_bool (as_user probe)
              +:+ " exec-root=unsupported syscalls=unsupported")), report).

Definition promote_configured (c : SecurityCapability) : EnforcementReport → EnforcementReport :=
  update_cap c promote.

Definition windows_verified (v : HostVerification) (r : EnforcementReport) : EnforcementReport :=
  if negb (preparation_ok r) then r
  else
    let r :=
      if win_in_job v then
        let r := promote_configured ProcessIsolation
                   (promote_configured NetworkIsolation
                     (promote_configured FilesystemIsolation r)) in
        if win_kill_on_close v then promote_configured ProcessTreeContainment r else r
      else r in
    let r := if win_job_ceiling v then promote_configured CapResourceLimits r else r in
    if win_low_integrity v then
      set_records r (update_first
        (λ x, is_cap ProcessIsolation x && bool_decide (rec_state x = Enforced))
        (set_state Verified) (records r))
    else r.

Definition windows_backend (probe : WinProbe) : SandboxBackend WindowsBackend := {|
  kind := KWindows;
  supports := macos_supports;
  fresh := mk_windows None None None;
  prepare := windows_prepare probe;
  pre_exec_plan _ := None;
  note_spawned pid b := mk_windows (windows_report b) (Some pid) (windows_diagnostic b);
  note_host_verified v b :=
    mk_windows (windows_verified v <$> windows_report b) (spawned_pid b) (windows_diagnostic b);
  note_failed k b :=
    mk_windows (fail_installed k (windows_report b)) (spawned_pid b) (windows_diagnostic b);
  note_tree_clean clean b :=
    mk_windows (update_cap ProcessTreeContainment (tree_record clean) <$> windows_report b)
      (spawned_pid b) (windows_diagnostic b);
  note_diagnostic d b :=
    mk_windows (windows_report b) (spawned_pid b)
      (Some (match windows_diagnostic b with Some st => st +:+ " " +:+ d | None => d end));
  diagnostic := windows_diagnostic;
  restrict_tier _ b := b;
  enforcement := windows_report;
  teardown _ := mk_windows None None None;
|}.

(** ** What a backend promises *)

(** The reports of [b] satisfy [P]. *)
Definition reports {B} `{SandboxBackend B} (P : EnforcementReport → Prop) (b : B) : Prop :=
  ∀ r, enforcement b = Some r → P r.

(** The calls that may raise a capability to enforced. *)
Definition is_prepare (e : event) : bool := match e with Prepare _ _ => true | _ => false end.

(** Every capability appears once, in the canonical order. *)
Definition well_formed (r : EnforcementReport) : Prop :=
  capability <$> records r = all_capabilities.
(** Preparation failed. *)
Definition dead (r : EnforcementReport) : Prop := preparation_ok r = false.
(** Only the host evidence is enforced. *)
Definition unproven (r : EnforcementReport) : Prop :=
  Forall (λ x, state_is_enforced (rec_state x) = true → capability x = HostEvidence) (records r).

(** The contract between a session and its backend: fresh backends hold no
    report; reports keep their shape; a backend that confines (every one but
    direct execution) fails the preparation when told to; a failed preparation
    is never undone except by preparing again; nothing is enforced before
    evidence ([evidence e] are the calls that bring it). *)
Class BackendLaws (B : Type) (S : SandboxBackend B) (evidence : event → bool) : Prop := {
  fresh_empty : enforcement fresh = None;
  keeps_shape : ∀ b e, reports well_formed b → reports well_formed (handle b e);
  failed_dead : kind ≠ KDirect → ∀ b k, reports dead (handle b (NoteFailed k));
  dead_stays : ∀ b e, is_prepare e = false → reports dead b → reports dead (handle b e);
  unproven_stays : ∀ b e, evidence e = false → reports unproven b → reports unproven (handle b e);
}.

(** ** Lemmas *)

(** Updates that keep the capability, and raise nothing to enforced. *)
Definition keeps_cap (f : CapabilityRecord → CapabilityRecord) : Prop :=
  ∀ x, capability (f x) = capability x.
Definition raises_nothing (P : CapabilityRecord → bool) (f : CapabilityRecord → CapabilityRecord) :
  Prop :=
  ∀ x, P x = true → state_is_enforced (rec_state (f x)) = true →
       state_is_enforced (rec_state x) = true.

Lemma update_all_shape f r : keeps_cap f → well_formed r → well_formed (update_all f r).
Proof.
  unfold well_formed. intros Hf <-. simpl. rewrite <-list_fmap_compose.
  apply list_fmap_ext. intros i x _. apply Hf.
Qed.

Lemma update_first_shape P f rs :
  keeps_cap f → capability <$> update_first P f rs = capability <$> rs.
Proof.
  intros Hf. induction rs as [|x rs IH]; [done|]. cbn [update_first].
  destruct (P x); rewrite !fmap_cons; [by rewrite Hf|by rewrite IH].
Qed.

Lemma update_all_unproven f r :
  keeps_cap f → raises_nothing (λ _, true) f → unproven r → unproven (update_all f r).
Proof.
  unfold unproven. simpl. intros Hc Hf H. apply Forall_fmap. eapply Forall_impl; [exact H|].
  intros x Hx Hs. simpl in *. rewrite Hc. apply Hx. by apply Hf.
Qed.

Lemma update_first_unproven P f rs :
  keeps_cap f → raises_nothing P f →
  Forall (λ x, state_is_enforced (rec_state x) = true → capability x = HostEvidence) rs →
  Forall (λ x, state_is_enforced (rec_state x) = true → capability x = HostEvidence)
    (update_first P f rs).
Proof.
  intros Hc Hf H. induction H as [|x rs Hx H IH]; simpl; [done|].
  destruct (P x) eqn:E; constructor; try done. intros Hs. rewrite Hc. apply Hx. by apply Hf.
Qed.

Lemma promote_cap : keeps_cap promote.
Proof. intros x. unfold promote. by destruct (rec_state x). Qed.
Lemma verify_cap : keeps_cap verify.
Proof. intros x. unfold verify. by destruct (rec_state x). Qed.
Lemma verify_raises P : raises_nothing P verify.
Proof. intros x _. unfold verify. by destruct (rec_state x) eqn:E; rewrite ?E. Qed.
Lemma fail_cap k : keeps_cap (fail k).
Proof. intros x. unfold fail. by destruct (rec_state x). Qed.
Lemma fail_raises k P : raises_nothing P (fail k).
Proof. intros x _. unfold fail. by destruct (rec_state x) eqn:E; rewrite ?E. Qed.
Lemma tree_cap c : keeps_cap (tree_record c).
Proof. intros x. unfold tree_record. by destruct (rec_state x), c. Qed.
Lemma tree_raises c P : raises_nothing P (tree_record c).
Proof. intros x _. unfold tree_record. by destruct (rec_state x) eqn:E, c; rewrite ?E. Qed.
Lemma restrict_net_cap n : keeps_cap (restrict_net n).
Proof. intros x. unfold restrict_net. by destruct (_ && _). Qed.
Lemma restrict_net_raises n P : raises_nothing P (restrict_net n).
Proof. intros x _. unfold restrict_net. by destruct (_ && _). Qed.
Lemma restrict_seccomp_cap n : keeps_cap (restrict_seccomp_record n).
Proof. intros x. unfold restrict_seccomp_record. rewrite restrict_net_cap. by destruct (_ || _). Qed.
Lemma restrict_seccomp_raises n P : raises_nothing P (restrict_seccomp_record n).
Proof.
  intros x _ H. unfold restrict_seccomp_record in H.
  apply (restrict_net_raises n (λ _, true)) in H; [|done]. by destruct (_ || _).
Qed.
Lemma restrict_fsonly_cap n : keeps_cap (restrict_fsonly_record n).
Proof. intros x. unfold restrict_fsonly_record. rewrite restrict_net_cap. by destruct (is_cap _ _). Qed.
Lemma restrict_fsonly_raises n P : raises_nothing P (restrict_fsonly_record n).
Proof.
  intros x _ H. unfold restrict_fsonly_record in H.
  apply (restrict_net_raises n (λ _, true)) in H; [|done]. by destruct (is_cap _ _).
Qed.

#[local] Hint Resolve promote_cap verify_cap verify_raises fail_cap fail_raises tree_cap
  tree_raises restrict_seccomp_cap restrict_seccomp_raises restrict_fsonly_cap
  restrict_fsonly_raises : vetto.

Lemma update_cap_shape c f r : keeps_cap f → well_formed r → well_formed (update_cap c f r).
Proof. unfold well_formed. simpl. intros Hf <-. by apply update_first_shape. Qed.

Lemma update_cap_unproven c f r :
  keeps_cap f → raises_nothing (λ _, true) f → unproven r → unproven (update_cap c f r).
Proof.
  unfold unproven. simpl. intros Hc Hf. apply update_first_unproven; [done|].
  intros x _. by apply Hf.
Qed.

Lemma verify_if_shape c o r : well_formed r → well_formed (verify_if c o r).
Proof. destruct o; [apply update_cap_shape; auto with vetto|done]. Qed.
Lemma verify_if_unproven c o r : unproven r → unproven (verify_if c o r).
Proof. destruct o; [apply update_cap_unproven; auto with vetto|done]. Qed.
Lemma verify_if_ok c o r : preparation_ok (verify_if c o r) = preparation_ok r.
Proof. by destruct o. Qed.

Lemma build_shape k p i s f ok : well_formed (build k p i s f ok).
Proof. reflexivity. Qed.

Lemma build_unproven k p i s f ok :
  (∀ c, state_is_enforced (default Unsupported (s c)) = true → c = HostEvidence) →
  unproven (build k p i s f ok).
Proof.
  intros H. unfold unproven, build. simpl. repeat (constructor; [intros Hc; by apply H|]). done.
Qed.

Lemma set_ok_shape r ok : well_formed r → well_formed (set_ok r ok).
Proof. done. Qed.
Lemma set_ok_unproven r ok : unproven r → unproven (set_ok r ok).
Proof. done. Qed.
#[local] Hint Resolve update_all_shape update_all_unproven update_cap_shape update_cap_unproven
  verify_if_shape verify_if_unproven set_ok_shape set_ok_unproven build_shape : vetto.

(** A property of a mapped report. *)
Lemma fmap_report (P : EnforcementReport → Prop) f (o : option EnforcementReport) :
  (∀ r, o = Some r → P r) → (∀ r, P r → P (f r)) → ∀ r, f <$> o = Some r → P r.
Proof. intros Ho Hf r. destruct o as [r0|]; simpl; [|done]. intros [= <-]. by apply Hf, Ho. Qed.

Lemma tree_update_cap c : keeps_cap (λ x, if is_cap ProcessTreeContainment x then tree_record c x else x).
Proof. intros x. destruct (is_cap _ x); [apply tree_cap|done]. Qed.
Lemma tree_update_raises c P :
  raises_nothing P (λ x, if is_cap ProcessTreeContainment x then tree_record c x else x).
Proof. intros x Hp. destruct (is_cap _ x); [by apply (tree_raises c P)|done]. Qed.
#[local] Hint Resolve tree_update_cap tree_update_raises : vetto.

(** Evidence that confinement holds: the child was spawned inside the sandbox
    the backend prepared (Linux, macOS), or was seen in its job (Windows). *)
Definition is_spawned (e : event) : bool := match e with Spawned _ => true | _ => false end.
Definition is_host_verified (e : event) : bool :=
  match e with HostVerified _ => true | _ => false end.

Lemma direct_laws : BackendLaws DirectBackend direct_backend (λ _, false).
Proof.
  split; [done| | | |].
  - intros b [] H r; simpl; try apply H. by intros [= <-].
  - intros Hk. by destruct Hk.
  - intros b e He H. destruct e; simpl in *; try done.
  - intros b [] _ H r; simpl; try apply H. intros [= <-]. apply build_unproven. by intros [].
Qed.

(** Restriction to a tier, by its effect on the report. *)
Lemma restrict_records_report (P : EnforcementReport → Prop) b :
  (∀ n r, P r → P (update_all (restrict_seccomp_record n) r)) →
  (∀ n r, P r → P (update_all (restrict_fsonly_record n) r)) →
  (∀ r, linux_report b = Some r → P r) → ∀ r, linux_report (restrict_records b) = Some r → P r.
Proof.
  intros Hs Hf H. unfold restrict_records. destruct (linux_tier b) as [[]|]; [apply H| | |apply H];
    simpl; apply fmap_report; auto.
Qed.

Lemma linux_handle (P : EnforcementReport → Prop) e (b : LinuxBackend) :
  (∀ n r, P r → P (update_all (restrict_seccomp_record n) r)) →
  (∀ n r, P r → P (update_all (restrict_fsonly_record n) r)) →
  (∀ c r, P r → P (update_all (λ x, if is_cap ProcessTreeContainment x
                                    then tree_record c x else x) r)) →
  (∀ c o r, P r → P (verify_if c o r)) →
  (∀ k r, P r → P (set_ok (update_all (fail k) r) false)) →
  (∀ pid r, e = Spawned pid → P r → P (update_all promote r)) →
  (∀ p i, e = Prepare p i → P (build KLinux p i linux_states (λ _, None) true)) →
  reports P b → reports P (handle b e).
Proof.
  intros Hs Hf Ht Hv Hk Hp Hb H. destruct e; simpl; unfold reports; simpl.
  - apply restrict_records_report; [done|done|]. simpl. intros r [= <-]. by eapply Hb.
  - apply fmap_report; [exact H|]. intros r. by eapply Hp.
  - apply fmap_report; [exact H|]. intros r ?. by do 5 apply Hv.
  - apply fmap_report; [exact H|]. auto.
  - unfold linux_tree_clean. case_bool_decide; [exact H|]. simpl.
    apply fmap_report; [exact H|]. auto.
  - exact H.
  - unfold apply_tier_restriction. apply restrict_records_report; [done|done|exact H].
  - done.
Qed.

Lemma linux_laws : BackendLaws LinuxBackend linux_backend is_spawned.
Proof.
  split.
  - done.
  - intros b e. apply linux_handle; auto with vetto.
  - intros _ b k r. simpl. destruct (linux_report b); simpl; [|done]. by intros [= <-].
  - intros b e He. apply linux_handle; unfold dead; intros; try done.
    + by rewrite verify_if_ok.
    + by subst e.
  - intros b e He. apply linux_handle; auto with vetto.
    + intros pid r ->. discriminate He.
    + intros p i _. apply build_unproven. by intros [].
Qed.

Lemma macos_laws : BackendLaws MacosBackend macos_backend is_spawned.
Proof.
  split.
  - done.
  - intros b e H. destruct e; simpl; unfold reports; simpl; try (apply fmap_report; [exact H|]);
      auto with vetto; try done.
    + intros r. unfold macos_prepare. simpl. destruct (negb _); by intros [= <-].
  - intros _ b k r. simpl. destruct (macos_report b); simpl; [|done]. by intros [= <-].
  - intros b e He H. destruct e; simpl; unfold reports; simpl; try (apply fmap_report; [exact H|]);
      try done; unfold dead; intros. by rewrite verify_if_ok.
  - intros b e He H. destruct e; simpl; unfold reports; simpl; try (apply fmap_report; [exact H|]);
      auto with vetto; try done.
    + intros r. unfold macos_prepare. simpl. destruct (negb _); intros [= <-];
        apply build_unproven; intros []; try done; by case_bool_decide.
Qed.

Lemma promote_configured_shape c r : well_formed r → well_formed (promote_configured c r).
Proof. apply update_cap_shape, promote_cap. Qed.

Lemma windows_verified_shape v r : well_formed r → well_formed (windows_verified v r).
Proof.
  intros H. unfold windows_verified. destruct (negb _); [done|]. cbv zeta.
  set (r1 := if win_in_job v then _ else _). assert (well_formed r1) as H1.
  { unfold r1. destruct (win_in_job v); [|done].
    destruct (win_kill_on_close v); auto using promote_configured_shape. }
  set (r2 := if win_job_ceiling v then _ else _). assert (well_formed r2) as H2.
  { unfold r2. destruct (win_job_ceiling v); auto using promote_configured_shape. }
  destruct (win_low_integrity v); [|done]. unfold well_formed in *. simpl. rewrite <-H2.
  by apply update_first_shape.
Qed.

Lemma windows_laws probe :
  BackendLaws WindowsBackend (windows_backend probe) is_host_verified.
Proof.
  split.
  - done.
  - intros b e H. destruct e; simpl; unfold reports; simpl; try (apply fmap_report; [exact H|]);
      auto using windows_verified_shape with vetto; try done.
    + intros r. unfold windows_prepare. destruct (negb _); by intros [= <-].
  - intros _ b k r. simpl. destruct (windows_report b); simpl; [|done]. by intros [= <-].
  - intros b e He H. destruct e; simpl; unfold reports; simpl; try (apply fmap_report; [exact H|]);
      try done. intros r Hr. unfold dead, windows_verified in *. by rewrite Hr.
  - intros b e He H. destruct e; simpl; unfold reports; simpl; try (apply fmap_report; [exact H|]);
      auto with vetto; try done.
    + intros r. unfold windows_prepare. destruct (negb _); intros [= <-];
        apply build_unproven; intros []; simpl; try done; by destruct (String.eqb _ _).
Qed.

(** ** Properties *)

Lemma session_reports {B} `{S : SandboxBackend B} (P : EnforcementReport → Prop)
    (ok : event → bool) es b :
  (∀ b e, ok e = true → reports P b → reports P (handle b e)) →
  forallb ok es = true → reports P b → reports P (session b es).
Proof.
  intros Hs. revert b. induction es as [|e es IH]; intros b Hok Hb; [done|].
  simpl in Hok. to_prop. apply IH; [done|]. by apply Hs.
Qed.

Lemma well_formed_find r c :
  well_formed r → ∃ x, List.find (is_cap c) (records r) = Some x ∧ capability x = c ∧ x ∈ records r.
Proof.
  unfold well_formed. intros H. assert (c ∈ capability <$> records r) as Hin
    by (rewrite H; apply (bool_decide_unpack _); by destruct c).
  apply list_elem_of_fmap in Hin as (x & -> & Hx).
  destruct (List.find (is_cap (capability x)) (records r)) as [y|] eqn:E.
  - apply List.find_some in E as [Hy Hc]. apply list_elem_of_In in Hy.
    unfold is_cap in Hc. apply bool_decide_eq_true in Hc. by exists y.
  - apply list_elem_of_In in Hx. apply (List.find_none _ _ E) in Hx.
    unfold is_cap in Hx. by rewrite bool_decide_eq_true_2 in Hx.
Qed.

Lemma unproven_enforced r c : unproven r → is_enforced r c = true → c = HostEvidence.
Proof.
  unfold unproven, is_enforced, report_state. rewrite Forall_forall.
  intros H [_ He]%andb_true_iff.
  destruct (List.find _ _) as [x|] eqn:E; [|done].
  apply List.find_some in E as [Hx Hc]. apply list_elem_of_In in Hx.
  apply bool_decide_eq_true in Hc as <-. by apply H.
Qed.

(** A failed backend stays failed: for every backend that keeps the
    interface's laws and confines, after a failure is noted no sequence of calls
    short of preparing again - late spawn notices, host verification or a clean
    process tree included - makes a report that passes or shows a capability
    enforced. *)
Theorem failure_is_final {B} `{S : SandboxBackend B} `{!BackendLaws B S evidence}
    b k es r required :
  kind ≠ KDirect → forallb (λ e, negb (is_prepare e)) es = true →
  enforcement (session (handle b (NoteFailed k)) es) = Some r →
  allows_pass r required = false ∧ enforced r = [].
Proof.
  intros Hk Hes Hr.
  assert (reports dead (session (handle b (NoteFailed k)) es)) as Hd.
  { apply (session_reports dead (λ e, negb (is_prepare e))); [|done|by apply failed_dead].
    intros b' e He. apply dead_stays. by apply negb_true_iff in He. }
  specialize (Hd r Hr). unfold dead in Hd. unfold allows_pass, enforced.
  rewrite Hd. split; [done|]. unfold is_enforced. rewrite Hd. reflexivity.
Qed.

(** Nothing passes on promises: for every backend that keeps the
    interface's laws, as long as no evidence call was made since the fresh
    backend - whatever else was called, in whatever order - a report shows no
    capability but host evidence enforced, so it passes no requirement that
    names another one. *)
Theorem no_pass_without_evidence {B} `{S : SandboxBackend B} `{!BackendLaws B S evidence}
    es r required :
  forallb (λ e, negb (evidence e)) es = true →
  enforcement (session fresh es) = Some r →
  allows_pass r required = true → ∀ c, c ∈ required → c = HostEvidence.
Proof.
  intros Hes Hr Hp c Hc.
  assert (reports unproven (session fresh es)) as Hu.
  { apply (session_reports unproven (λ e, negb (evidence e))); [|done|].
    - intros b e He. apply unproven_stays. by apply negb_true_iff in He.
    - intros r0. by rewrite fresh_empty. }
  unfold allows_pass in Hp. destruct (negb (preparation_ok r)); [done|].
  rewrite forallb_forall in Hp. apply list_elem_of_In, Hp in Hc.
  by apply (unproven_enforced r); [apply Hu|].
Qed.

Definition sample_canonical (net : string) : CanonicalPolicy :=
  mk_canonical "s" "r" "n" "f" net "full" "linux" ["run"] ∅ (components "/w") [] [] [] [] [] "p" "h".
Definition sample_identity : ExecutionIdentity := identity_new "s" "n" "r" "f".
Definition prepared_linux : LinuxBackend :=
  session (B := LinuxBackend) fresh [Prepare (sample_canonical "off") sample_identity].

Lemma failure_is_final_witness :
  let b := handle prepared_linux (NoteFailed SpawnRefused) in
  let es := [Spawned 7; TreeClean true] in
  match enforcement (session b es) with
  | Some r => allows_pass r [FilesystemIsolation] = false
  | None => False
  end.
Proof.
  cbv zeta.
  destruct (enforcement (session (handle prepared_linux (NoteFailed SpawnRefused))
    [Spawned 7; TreeClean true])) as [r|] eqn:E; [|discriminate E].
  refine (proj1 (@failure_is_final LinuxBackend linux_backend is_spawned linux_laws prepared_linux
    SpawnRefused [Spawned 7; TreeClean true] r [FilesystemIsolation] _ eq_refl E)).
  discriminate.
Defined.

Lemma no_pass_without_evidence_witness :
  match enforcement (session (B := MacosBackend) fresh
          [Prepare (sample_canonical "off") sample_identity; HostVerified host_none]) with
  | Some r => allows_pass r [HostEvidence] = true ∧ ∃ c, c ∈ [HostEvidence] ∧ c = HostEvidence
  | None => False
  end.
Proof.
  destruct (enforcement _) as [r|] eqn:E; [|discriminate E].
  assert (allows_pass r [HostEvidence] = true) as Hp
    by (vm_compute in E; injection E as <-; reflexivity).
  split; [exact Hp|]. exists HostEvidence. split; [left|].
  exact (@no_pass_without_evidence MacosBackend macos_backend is_spawned macos_laws
    [Prepare (sample_canonical "off") sample_identity; HostVerified host_none] r [HostEvidence]
    eq_refl E Hp HostEvidence (list_elem_of_here _ _)).
Defined.

(** The capabilities a tier gives up for good. *)
Definition given_up (t : Tier) : list SecurityCapability :=
  match t with
  | Full => []
  | FsOnly => [ProcessTreeContainment]
  | Seccomp => [FilesystemIsolation; ExecutionRootIsolation]
  end.

Definition keeps_unsupported (f : CapabilityRecord → CapabilityRecord) : Prop :=
  ∀ x, rec_state x = Unsupported → rec_state (f x) = Unsupported.
Definition gave_up (t : Tier) (r : EnforcementReport) : Prop :=
  Forall (λ x, capability x ∈ given_up t → rec_state x = Unsupported) (records r).

Lemma update_all_gave_up t f r :
  keeps_cap f → keeps_unsupported f → gave_up t r → gave_up t (update_all f r).
Proof.
  unfold gave_up. simpl. intros Hc Hf H. apply Forall_fmap. eapply Forall_impl; [exact H|].
  intros x Hx Hin. simpl in *. rewrite Hc in Hin. by apply Hf, Hx.
Qed.

Lemma verify_if_gave_up t c o r : gave_up t r → gave_up t (verify_if c o r).
Proof.
  unfold gave_up, verify_if. destruct o; [|done]. simpl. intros H.
  induction H as [|x rs Hx H IH]; simpl; [done|]. destruct (is_cap c x); constructor; try done.
  intros Hin. rewrite verify_cap in Hin. unfold verify. rewrite (Hx Hin). exact (Hx Hin).
Qed.

(** Restricting to the tier the backend is at gives its capabilities up. *)
Lemma restrict_gives_up t b r :
  linux_tier b = Some t → linux_report (restrict_records b) = Some r → gave_up t r.
Proof.
  unfold restrict_records. intros ->. destruct t; simpl.
  - intros _. apply Forall_true. intros x Hx. by apply elem_of_nil in Hx.
  - destruct (linux_report b) as [r0|]; [|done]. intros [= <-]. apply Forall_fmap, Forall_true.
    intros x. simpl. rewrite restrict_fsonly_cap. intros Hin%list_elem_of_singleton.
    destruct x as [c q s f]. simpl in Hin. subst c. by destruct (net_not_off b).
  - destruct (linux_report b) as [r0|]; [|done]. intros [= <-]. apply Forall_fmap, Forall_true.
    intros x. simpl. rewrite restrict_seccomp_cap. intros Hin.
    destruct x as [c q s f]. simpl in Hin.
    apply elem_of_cons in Hin as [->|Hin]; [|apply list_elem_of_singleton in Hin as ->];
      by destruct (net_not_off b).
Qed.

Lemma keeps_unsupported_updates :
  keeps_unsupported promote ∧ (∀ k, keeps_unsupported (fail k))
  ∧ (∀ c, keeps_unsupported (λ x, if is_cap ProcessTreeContainment x then tree_record c x else x)).
Proof.
  split_and!.
  - intros x Hx. unfold promote. by rewrite Hx.
  - intros k x Hx. unfold fail. by rewrite Hx.
  - intros c x Hx. unfold tree_record. destruct (is_cap _ x); by rewrite ?Hx.
Qed.

(** A restricted Linux tier gives up its capabilities for the whole session:
    once the seccomp tier is set no later call - preparing again included -
    shows the file system or the execution root as anything but unsupported, and
    likewise the process tree once the file-system-only tier is set, until
    another tier is set or the backend is torn down. *)
Theorem tier_restriction_holds t b es r :
  forallb (λ e, match e with RestrictTier _ | Teardown => false | _ => true end) es = true →
  enforcement (session (handle (B := LinuxBackend) b (RestrictTier (Some t))) es) = Some r →
  ∀ x, x ∈ records r → capability x ∈ given_up t → rec_state x = Unsupported.
Proof.
  intros Hes.
  assert (∀ b : LinuxBackend, linux_tier b = Some t →
    (∀ r, linux_report b = Some r → gave_up t r) →
    linux_tier (session b es) = Some t ∧ ∀ r, linux_report (session b es) = Some r → gave_up t r)
    as Hstep.
  { clear b r. induction es as [|e es IH]; intros b Ht Hr; [done|]. simpl in Hes. to_prop.
    apply IH; [done| |].
    - destruct e; try done; simpl; unfold linux_prepare, restrict_records; simpl;
        [|by unfold linux_tree_clean; case_bool_decide]. rewrite Ht. by destruct t.
    - destruct keeps_unsupported_updates as (Hp & Hf & Htr).
      destruct e; try done; simpl; unfold linux_prepare, linux_tree_clean; simpl.
      + intros r. by apply restrict_gives_up.
      + apply fmap_report; [exact Hr|]. intros r0. apply update_all_gave_up; auto with vetto.
      + apply fmap_report; [exact Hr|]. intros r0 ?. by do 5 apply verify_if_gave_up.
      + apply fmap_report; [exact Hr|]. intros r0.
        apply (update_all_gave_up t (fail k)); auto with vetto.
      + case_bool_decide; [exact Hr|]. apply fmap_report; [exact Hr|]. intros r0.
        apply update_all_gave_up; auto with vetto. }
  intros Hr x Hx Hc. destruct (Hstep (handle b (RestrictTier (Some t)))) as [_ Hg].
  - simpl. unfold apply_tier_restriction, restrict_records. simpl. by destruct t.
  - intros r0. simpl. by apply restrict_gives_up.
  - specialize (Hg r Hr). unfold gave_up in Hg. rewrite Forall_forall in Hg. by apply Hg.
Qed.

Lemma tier_restriction_holds_witness :
  match enforcement (session (handle prepared_linux (RestrictTier (Some Seccomp)))
          [Prepare (sample_canonical "off") sample_identity; Spawned 7]) with
  | Some r => ∃ x, x ∈ records r ∧ capability x = FilesystemIsolation ∧ rec_state x = Unsupported
  | None => False
  end.
Proof.
  destruct (enforcement _) as [r|] eqn:E; [|discriminate E].
  assert (records r !! 0%nat = Some (mk_record FilesystemIsolation true Unsupported None)) as Hx
    by (vm_compute in E; injection E as <-; reflexivity).
  exists (mk_record FilesystemIsolation true Unsupported None).
  apply list_elem_of_lookup_2 in Hx.
  split; [exact Hx|]. split; [reflexivity|].
  exact (tier_restriction_holds Seccomp prepared_linux
    [Prepare (sample_canonical "off") sample_identity; Spawned 7] r eq_refl E _ Hx
    (list_elem_of_here _ _)).
Defined.

(** The policy text that is hashed does not mention the shadow switch, the
    network mode or the network allow list, so policies that differ there have
    the same hash. *)
Lemma policy_bytes_ignore_shadow p sh m na :
  canonical_policy_bytes p
  = canonical_policy_bytes
      (mk_policy (policy_name p) (metadata p) (limits p) (allow_write p) (allow_read p)
         (deny_write p) (deny_read p) (deny_resolved p) (environment p) (deny_network p) m na
         (allow_cidr p) (net_quota p) (net_bind_ports p) (net_connect_ports p)
         (allow_unix_sockets p) (deny_unix_sockets p) (seccomp_profile p) (seccomp_notify p)
         (cgroup p) (cpu_max p) (io_priority p) (dev_allow p) (oslog p) (lpac p)
         (is_immutable p) (system_log p) (auto_deny_secrets p) (secret_proxies p) (ro_mounts p)
         (git_guard p) (snapshot p) (read_only_caches p) sh (tmpfs_tmp p) (warnings p)).
Proof. reflexivity. Qed.
