(* ===== verification/Fsm.v ===== *)
(** * Fsm: the execution lifecycle state machine

    Model of [src/src/policy_ir/fsm.rs].  [ExecutionState] has the 25 variants
    of the source; [ExecutionStateMachine] keeps the current state, the history
    (newest entry last, with the time stamp the caller's clock gave) and the
    recorded number of surviving descendants.  Every [&mut self] method returns
    the new machine next to its result. *)

From S2P Require Import Prelude.

(** ** States *)

Inductive ExecutionState : Type :=
| Uninitialized | PolicyCompiled | PreflightPassed | IsolationConfigured
| ChildSpawned | Running | SignalReceived | Terminating | CleanedUp
| Completed | EmergencyCleanup | Failed
| Intent | ContractSealed | Prepare | Spawn | Enforce | Observe | Terminate
| Cleanup | Verify | Attest | Verdict | FailClosed | Terminal.

#[export] Instance ExecutionState_eq_dec : EqDecision ExecutionState.
Proof. solve_decision. Defined.

Definition CANONICAL_STATES : list ExecutionState :=
  [Uninitialized; PolicyCompiled; PreflightPassed; IsolationConfigured;
   ChildSpawned; Running; SignalReceived; Terminating; CleanedUp; Completed;
   EmergencyCleanup; Failed].

Definition is_canonical (s : ExecutionState) : bool :=
  match s with
  | Uninitialized | PolicyCompiled | PreflightPassed | IsolationConfigured
  | ChildSpawned | Running | SignalReceived | Terminating | CleanedUp
  | Completed | EmergencyCleanup | Failed => true
  | _ => false
  end.

Definition to_canonical (s : ExecutionState) : ExecutionState :=
  match s with
  | Uninitialized | Intent => Uninitialized
  | PolicyCompiled => PolicyCompiled
  | PreflightPassed | ContractSealed => PreflightPassed
  | IsolationConfigured | Prepare | Enforce => IsolationConfigured
  | ChildSpawned | Spawn => ChildSpawned
  | Running | Observe => Running
  | SignalReceived => SignalReceived
  | Terminating | Terminate => Terminating
  | CleanedUp | Cleanup | Verify | Attest | Verdict => CleanedUp
  | Completed | Terminal => Completed
  | EmergencyCleanup => EmergencyCleanup
  | Failed | FailClosed => Failed
  end.

Definition is_terminal (s : ExecutionState) : bool :=
  match s with Completed | Terminal | Failed | FailClosed => true | _ => false end.

Definition is_active (s : ExecutionState) : bool := negb (is_terminal s).

Definition as_str (s : ExecutionState) : string :=
  match s with
  | Uninitialized => "Uninitialized"
  | PolicyCompiled => "PolicyCompiled"
  | PreflightPassed => "PreflightPassed"
  | IsolationConfigured => "IsolationConfigured"
  | ChildSpawned => "ChildSpawned"
  | Running => "Running"
  | SignalReceived => "SignalReceived"
  | Terminating => "Terminating"
  | CleanedUp => "CleanedUp"
  | Completed => "Completed"
  | EmergencyCleanup => "EmergencyCleanup"
  | Failed => "Failed"
  | Intent => "Intent"
  | ContractSealed => "ContractSealed"
  | Prepare => "Prepare"
  | Spawn => "Spawn"
  | Enforce => "Enforce"
  | Observe => "Observe"
  | Terminate => "Terminate"
  | Cleanup => "Cleanup"
  | Verify => "Verify"
  | Attest => "Attest"
  | Verdict => "Verdict"
  | FailClosed => "FailClosed"
  | Terminal => "Terminal"
  end.

Inductive StateTransitionError : Type :=
| InvalidTransition (from to : ExecutionState) (reason : string)
| FailClosedError (state : ExecutionState) (error : string).

Definition exit_code (e : StateTransitionError) : Z := 125.

(** ** The machine *)

(** [std::time::Instant]: an opaque clock reading. *)
Definition instant : Type := Z.

Record ExecutionStateMachine : Type := mk_fsm {
  current_state : ExecutionState;
  history : list (ExecutionState * instant);
  surviving_descendants : option Z;
}.

Definition from_state (now : instant) (s : ExecutionState) : ExecutionStateMachine :=
  mk_fsm s [(s, now)] None.
Definition new (now : instant) : ExecutionStateMachine :=
  mk_fsm Intent [(Intent, now)] None.
Definition new_canonical (now : instant) : ExecutionStateMachine :=
  mk_fsm Uninitialized [(Uninitialized, now)] None.

Definition record_extinction_result (m : ExecutionStateMachine) (surviving : Z) :
  ExecutionStateMachine :=
  mk_fsm (current_state m) (history m) (Some surviving).

Definition canonical_state (m : ExecutionStateMachine) : ExecutionState :=
  to_canonical (current_state m).

Definition is_fail_state (s : ExecutionState) : bool :=
  match s with FailClosed | EmergencyCleanup | Failed => true | _ => false end.

Definition is_fail_closed (m : ExecutionStateMachine) : bool :=
  is_fail_state (current_state m) ||
  existsb (λ h, is_fail_state h.1) (history m).

(** The two [matches!] lists of [is_canonical_mode]. *)
Definition canonical_only (s : ExecutionState) : bool :=
  match s with
  | Uninitialized | PreflightPassed | IsolationConfigured | ChildSpawned
  | Running | SignalReceived | Terminating | CleanedUp | Completed | Failed => true
  | _ => false
  end.
Definition legacy_only (s : ExecutionState) : bool :=
  match s with
  | Intent | ContractSealed | Prepare | Spawn | Enforce | Observe | Terminate
  | Cleanup | Verify | Attest | Verdict | FailClosed | Terminal => true
  | _ => false
  end.

Definition is_canonical_mode (m : ExecutionStateMachine) : bool :=
  match current_state m with
  | Uninitialized | PreflightPassed | IsolationConfigured | ChildSpawned
  | Running | SignalReceived | Terminating | CleanedUp | Completed | Failed => true
  | Intent | ContractSealed | Prepare | Spawn | Enforce | Observe | Terminate
  | Cleanup | Verify | Attest | Verdict | FailClosed | Terminal => false
  | PolicyCompiled | EmergencyCleanup =>
      let has_canonical := existsb (λ h, canonical_only h.1) (history m) in
      let has_legacy := existsb (λ h, legacy_only h.1) (history m) in
      has_canonical && negb has_legacy
  end.

(** The transition table, in the source's five sections. *)
Definition valid_transition (s next : ExecutionState) : bool :=
  match s, next with
  (* 1. canonical forward pipeline *)
  | Uninitialized, PolicyCompiled => true
  | PolicyCompiled, PreflightPassed => true
  | PreflightPassed, IsolationConfigured => true
  | IsolationConfigured, ChildSpawned => true
  | ChildSpawned, Running => true
  | Running, Terminating => true
  | Running, SignalReceived => true
  | SignalReceived, Terminating => true
  | Terminating, CleanedUp => true
  | CleanedUp, Completed => true
  (* 2. legacy forward pipeline *)
  | Intent, PolicyCompiled => true
  | PolicyCompiled, ContractSealed => true
  | ContractSealed, Prepare => true
  | Prepare, Spawn => true
  | Spawn, Enforce => true
  | Enforce, Observe => true
  | Observe, Terminate => true
  | Terminate, Cleanup => true
  | Cleanup, Verify => true
  | Verify, Attest => true
  | Attest, Verdict => true
  | Verdict, Terminal => true
  (* 3. interop bridges *)
  | Uninitialized, Intent => true
  | Intent, Uninitialized => true
  | PreflightPassed, Prepare => true
  | ContractSealed, IsolationConfigured => true
  | IsolationConfigured, Spawn => true
  | Prepare, ChildSpawned => true
  | ChildSpawned, Observe => true
  | Spawn, Running => true
  | Enforce, Running => true
  | Observe, SignalReceived => true
  | Observe, Terminating => true
  | Running, Terminate => true
  | SignalReceived, Terminate => true
  | Terminate, CleanedUp => true
  | Terminating, Cleanup => true
  | CleanedUp, Verify => true
  | Cleanup, CleanedUp => true
  | CleanedUp, Terminal => true
  | Verdict, Completed => true
  | Completed, Terminal => true
  | Terminal, Completed => true
  (* 4. every active state may fail *)
  | (Uninitialized | PolicyCompiled | PreflightPassed | IsolationConfigured
    | ChildSpawned | Running | SignalReceived | Terminating | CleanedUp
    | Intent | ContractSealed | Prepare | Spawn | Enforce | Observe | Terminate
    | Cleanup | Verify | Attest | Verdict),
    (FailClosed | Failed | EmergencyCleanup) => true
  (* 5. fail-closed recovery *)
  | FailClosed, FailClosed => true
  | Failed, Failed => true
  | FailClosed, Failed => true
  | Failed, FailClosed => true
  | FailClosed, EmergencyCleanup => true
  | Failed, EmergencyCleanup => true
  | EmergencyCleanup, EmergencyCleanup => true
  | EmergencyCleanup, FailClosed => true
  | EmergencyCleanup, Failed => true
  | EmergencyCleanup, Terminal => true
  | _, _ => false
  end.

Definition reason_survivors : string :=
  "terminal state forbidden: live descendant processes detected".
Definition reason_table : string :=
  "transition disallowed by execution state machine transition table".

Definition is_yield (s : ExecutionState) : bool :=
  bool_decide (s = Terminal) || bool_decide (s = Completed).

Definition transition (now : instant) (m : ExecutionStateMachine)
    (next : ExecutionState) :
  ExecutionStateMachine * result StateTransitionError unit :=
  if is_yield next && (0 <? default 0 (surviving_descendants m))
  then (m, Err (InvalidTransition (current_state m) next reason_survivors))
  else if negb (valid_transition (current_state m) next)
  then (m, Err (InvalidTransition (current_state m) next reason_table))
  else (mk_fsm next (history m ++ [(next, now)]) (surviving_descendants m), Ok tt).

Definition fail_closed_to (now : instant) (m : ExecutionStateMachine)
    (target : ExecutionState) (error : string) :
  ExecutionStateMachine * StateTransitionError :=
  let prev_state := current_state m in
  match transition now m target with
  | (m', Err e) => (m', e)
  | (m', Ok _) => (m', FailClosedError prev_state error)
  end.

Definition fail_closed (now : instant) (m : ExecutionStateMachine) (error : string) :
  ExecutionStateMachine * StateTransitionError :=
  let target := if is_canonical_mode m then Failed else FailClosed in
  fail_closed_to now m target error.

Definition fail_closed_canonical now m error := fail_closed_to now m Failed error.
Definition fail_closed_emergency now m error := fail_closed_to now m EmergencyCleanup error.

(** ** Runs: any sequence of calls on a machine *)

Inductive op : Type :=
| OpTransition (now : instant) (next : ExecutionState)
| OpRecord (surviving : Z)
| OpFailClosed (now : instant) (error : string)
| OpFailClosedTo (now : instant) (target : ExecutionState) (error : string).

Definition exec_op (m : ExecutionStateMachine) (o : op) : ExecutionStateMachine :=
  match o with
  | OpTransition now next => (transition now m next).1
  | OpRecord n => record_extinction_result m n
  | OpFailClosed now e => (fail_closed now m e).1
  | OpFailClosedTo now t e => (fail_closed_to now m t e).1
  end.

Definition exec_ops (m : ExecutionStateMachine) (os : list op) : ExecutionStateMachine :=
  fold_left exec_op os m.

(** The machines a program can hold: one of the two constructors it uses,
    followed by any calls. *)
Definition reachable (m : ExecutionStateMachine) : Prop :=
  ∃ now os, m = exec_ops (new now) os ∨ m = exec_ops (new_canonical now) os.

(** The states visited, oldest first. *)
Definition visited (m : ExecutionStateMachine) : list ExecutionState := (history m).*1.

(** A well-formed history: it starts in an initial state, ends in the current
    one, and each adjacent pair is in the table. *)
Fixpoint chain (s : ExecutionState) (l : list ExecutionState) : bool :=
  match l with
  | [] => true
  | t :: l => valid_transition s t && chain t l
  end.

Definition wf (m : ExecutionStateMachine) : Prop :=
  ∃ s0 l, visited m = s0 :: l ∧ s0 ∈ [Intent; Uninitialized]
    ∧ chain s0 l = true ∧ List.last l s0 = current_state m.

(** ** Lemmas *)

(** All pairs of states, by computation. *)
Ltac all_states s := destruct s; try reflexivity; try discriminate; try done.

Lemma transition_cases now m next m' r :
  transition now m next = (m', r) →
  (r = Ok tt ∧ valid_transition (current_state m) next = true
   ∧ (is_yield next = true → default 0 (surviving_descendants m) ≤ 0)
   ∧ m' = mk_fsm next (history m ++ [(next, now)]) (surviving_descendants m))
  ∨ (m' = m ∧ ∃ reason, r = Err (InvalidTransition (current_state m) next reason)).
Proof.
  unfold transition. intros H. break_match_in H; simplify_eq; eauto.
  left. to_prop. repeat split; auto.
  intros Hy. rewrite Hy in *. simpl in *. to_prop. lia.
Qed.

(** Every operation either appends one valid transition, or leaves current
    state and history as they are. *)
Lemma exec_op_cases m o :
  (∃ now next, valid_transition (current_state m) next = true
     ∧ current_state (exec_op m o) = next
     ∧ history (exec_op m o) = history m ++ [(next, now)])
  ∨ (current_state (exec_op m o) = current_state m
     ∧ history (exec_op m o) = history m).
Proof.
  assert (∀ now next m' r, transition now m next = (m', r) →
    (∃ now next, valid_transition (current_state m) next = true
       ∧ current_state m' = next ∧ history m' = history m ++ [(next, now)])
    ∨ (current_state m' = current_state m ∧ history m' = history m)) as Ht.
  { intros now next m' r H. apply transition_cases in H.
    destruct H as [(_ & Hv & _ & ->)|[-> _]]; [left; eauto 10|right; auto]. }
  destruct o as [now next|n|now e|now t e]; simpl; unfold fail_closed, fail_closed_to;
    try (match goal with |- context [transition ?n ?m ?t] =>
           destruct (transition n m t) as [m' r] eqn:E end; eapply Ht in E;
         destruct r; exact E).
  right; auto.
Qed.

Lemma reachable_ind (P : ExecutionStateMachine → Prop) :
  (∀ now, P (new now)) → (∀ now, P (new_canonical now)) →
  (∀ m o, P m → P (exec_op m o)) →
  ∀ m, reachable m → P m.
Proof.
  intros Hn Hc Hs m (now & os & H).
  assert (∀ os m, P m → P (exec_ops m os)) as Hops.
  { clear -Hs. intros os. induction os as [|o os IH]; intros m Hm; simpl; auto. }
  destruct H as [-> | ->]; auto.
Qed.

Lemma exec_ops_reachable m os : reachable m → reachable (exec_ops m os).
Proof.
  intros (now & os' & H). exists now, (os' ++ os). unfold exec_ops in *.
  rewrite !fold_left_app. destruct H as [-> | ->]; auto.
Qed.

Lemma chain_snoc s l t :
  chain s (l ++ [t]) = chain s l && valid_transition (List.last l s) t.
Proof.
  revert s. induction l as [|u l IH]; intros s.
  - simpl. by rewrite andb_true_r.
  - rewrite last_cons. simpl. by rewrite IH, andb_assoc.
Qed.

Lemma wf_reachable m : reachable m → wf m.
Proof.
  revert m. apply reachable_ind.
  - intros now. exists Intent, []. repeat split. apply list_elem_of_here.
  - intros now. exists Uninitialized, []. repeat split.
    apply list_elem_of_further, list_elem_of_here.
  - intros m o (s0 & l & Hv & Hi & Hc & Hl). unfold wf, visited in *.
    destruct (exec_op_cases m o) as [(now & next & Ht & -> & ->)|[-> ->]].
    + exists s0, (l ++ [next]). rewrite fmap_app, Hv. simpl.
      rewrite chain_snoc, Hc, Hl, Ht, list_last_snoc. auto.
    + exists s0, l. auto.
Qed.

(** ** What must have happened before a state is entered *)

(** A milestone is a set of states; [needs s] lists the milestones that every
    failure-free way into [s] has passed. *)
Inductive milestone : Type := MCompiled | MSealed | MIsolated | MSpawned | MRan
  | MStopped | MCleaned.

#[export] Instance milestone_eq_dec : EqDecision milestone.
Proof. solve_decision. Defined.

Definition meets (k : milestone) (s : ExecutionState) : bool :=
  match k, s with
  | MCompiled, PolicyCompiled => true
  | MSealed, (PreflightPassed | ContractSealed) => true
  | MIsolated, (IsolationConfigured | Prepare) => true
  | MSpawned, (ChildSpawned | Spawn) => true
  | MRan, (Running | Observe) => true
  | MStopped, (Terminating | Terminate) => true
  | MCleaned, (CleanedUp | Cleanup) => true
  | _, _ => false
  end.

Definition needs (s : ExecutionState) : list milestone :=
  match s with
  | Uninitialized | Intent => []
  | PolicyCompiled => []
  | PreflightPassed | ContractSealed => [MCompiled]
  | IsolationConfigured | Prepare => [MCompiled; MSealed]
  | ChildSpawned | Spawn => [MCompiled; MSealed; MIsolated]
  | Enforce | Running | Observe => [MCompiled; MSealed; MIsolated; MSpawned]
  | SignalReceived | Terminating | Terminate =>
      [MCompiled; MSealed; MIsolated; MSpawned; MRan]
  | CleanedUp | Cleanup => [MCompiled; MSealed; MIsolated; MSpawned; MRan; MStopped]
  | Verify | Attest | Verdict | Completed | Terminal =>
      [MCompiled; MSealed; MIsolated; MSpawned; MRan; MStopped; MCleaned]
  | EmergencyCleanup | Failed | FailClosed => []
  end.

(** Lifecycle phase, non-decreasing along failure-free runs. *)
Definition phase (s : ExecutionState) : Z :=
  match s with
  | Uninitialized | Intent => 0
  | PolicyCompiled => 1
  | PreflightPassed | ContractSealed => 2
  | IsolationConfigured | Prepare => 3
  | ChildSpawned | Spawn => 4
  | Enforce => 5
  | Running | Observe => 6
  | SignalReceived => 7
  | Terminating | Terminate => 8
  | Cleanup => 9
  | CleanedUp => 10
  | Verify => 11
  | Attest => 12
  | Verdict => 13
  | Completed | Terminal => 14
  | EmergencyCleanup | Failed | FailClosed => 15
  end.

(** Transitions with a failure-free source and target. *)
Lemma needs_step s t :
  valid_transition s t = true → is_fail_state s = false →
  ∀ k, k ∈ needs t → k ∈ needs s ∨ meets k s = true.
Proof.
  intros Hv Hs k Hk.
  assert (forallb (λ k, bool_decide (k ∈ needs s) || meets k s) (needs t) = true) as H.
  { destruct s; try discriminate Hs; destruct t; try discriminate Hv; reflexivity. }
  rewrite forallb_forall in H. specialize (H k). rewrite <-list_elem_of_In in H.
  apply H in Hk. destruct (bool_decide (k ∈ needs s)) eqn:E; to_prop; auto.
Qed.

Lemma phase_step s t :
  valid_transition s t = true →
  phase s < phase t ∨ phase s = 15 ∨
  ((s, t) ∈ [(Uninitialized, Intent); (Intent, Uninitialized);
             (Completed, Terminal); (Terminal, Completed)]).
Proof.
  intros Hv.
  destruct s; try (right; left; reflexivity); destruct t; try discriminate Hv;
    first [left; reflexivity | right; right; apply (bool_decide_unpack _); reflexivity].
Qed.

(** Invariant behind the milestones: a machine that never failed has passed,
    before its current state, every milestone that state needs. *)
Definition milestones_ok (m : ExecutionStateMachine) : Prop :=
  current_state m ∈ visited m ∧
  (is_fail_closed m = false →
   ∀ k, k ∈ needs (current_state m) → ∃ s, s ∈ visited m ∧ meets k s = true).

Lemma is_fail_closed_visited m :
  is_fail_closed m = false ↔
  is_fail_state (current_state m) = false
  ∧ Forall (λ s, is_fail_state s = false) (visited m).
Proof.
  unfold is_fail_closed, visited. rewrite orb_false_iff, existsb_false.
  by rewrite Forall_fmap.
Qed.

Lemma milestones_reachable m : reachable m → milestones_ok m.
Proof.
  revert m. apply reachable_ind; unfold milestones_ok.
  1,2: intros now; split; [left|]; intros _ k Hk; by apply not_elem_of_nil in Hk.
  intros m o [Hin IH]. rewrite !is_fail_closed_visited in *.
  destruct (exec_op_cases m o) as [(now & t & Hv & Hc & Hh)|[Hc Hh]];
    unfold visited in *; rewrite Hc, Hh; [|by split].
  rewrite fmap_app, Forall_app. split; [apply elem_of_app; right; left|].
  intros [Ht [Hf _]].
  assert (is_fail_state (current_state m) = false) as Hs.
  { rewrite Forall_forall in Hf. by apply Hf. }
  intros k Hk. destruct (needs_step _ _ Hv Hs k Hk) as [Hk'|Hk'].
  - destruct (IH (conj Hs Hf) k Hk') as (s & ? & ?). exists s. rewrite elem_of_app. auto.
  - exists (current_state m). rewrite elem_of_app. auto.
Qed.

(** Positional form: whatever is in the history was preceded by what it needs,
    whether or not the run failed later. *)
Definition early_state (s : ExecutionState) : bool :=
  negb (is_fail_state s) && negb (is_yield s).

Lemma early_pred s t :
  valid_transition s t = true → early_state t = true → early_state s = true.
Proof. destruct s; try reflexivity; destruct t; discriminate. Qed.

Lemma early_not_failed s : early_state s = true → is_fail_state s = false.
Proof. unfold early_state. by intros [?%negb_true_iff _]%andb_true_iff. Qed.

Lemma last_visited m :
  wf m → ∃ n, length (visited m) = S n ∧ visited m !! n = Some (current_state m).
Proof.
  intros (s0 & l & Hv & _ & _ & Hl). exists (length l). rewrite Hv. split; [done|].
  rewrite <-Hl. clear. revert s0. induction l as [|x l IH]; intros s0; [done|].
  rewrite last_cons. apply IH.
Qed.

Definition preceded (l : list ExecutionState) : Prop :=
  ∀ i s, l !! i = Some s → early_state s = true →
  ∀ k, k ∈ needs s → ∃ j s', (j < i)%nat ∧ l !! j = Some s' ∧ meets k s' = true.

Lemma preceded_reachable m : reachable m → wf m ∧ preceded (visited m).
Proof.
  assert (∀ m, reachable m → reachable m ∧ preceded (visited m)) as H; cycle 1.
  { intros Hm. split; [by apply wf_reachable|by apply H]. }
  clear m. apply reachable_ind.
  1,2: intros now; split; [exists now, []; auto|];
       intros i s Hi _ k Hk; apply list_lookup_singleton_Some in Hi as [_ <-];
       by apply not_elem_of_nil in Hk.
  intros m o [Hr IH]. split; [by apply (exec_ops_reachable m [o])|].
  destruct (last_visited m (wf_reachable m Hr)) as (n & Hlen & Hlast).
  destruct (exec_op_cases m o) as [(now & t & Hv & _ & Hh)|[_ Hh]];
    unfold visited, preceded in *; rewrite Hh; [|done].
  rewrite fmap_app. simpl. intros i s Hi Hs k Hk.
  assert (∀ j s', (history m).*1 !! j = Some s' →
    ((history m).*1 ++ [t]) !! j = Some s') as Hmono.
  { intros j s'. apply lookup_app_l_Some. }
  apply lookup_app_Some in Hi as [Hi|[Hge Hi]].
  - destruct (IH i s Hi Hs k Hk) as (j & s' & ? & ? & ?). eauto 10.
  - apply list_lookup_singleton_Some in Hi as [Hi <-].
    destruct (needs_step _ _ Hv (early_not_failed _ (early_pred _ _ Hv Hs)) k Hk) as [Hk'|Hm].
    + destruct (IH n _ Hlast (early_pred _ _ Hv Hs) k Hk') as (j & s' & ? & ? & ?).
      exists j, s'. split_and!; eauto with lia.
    + exists n, (current_state m). split_and!; eauto with lia.
Qed.

(** ** Survivors and yielding *)

Definition records_positive (o : op) : bool :=
  match o with OpRecord n => 0 <? n | _ => true end.

Lemma exec_op_survivors m o :
  0 < default 0 (surviving_descendants m) → records_positive o = true →
  is_yield (current_state m) = false →
  0 < default 0 (surviving_descendants (exec_op m o))
  ∧ is_yield (current_state (exec_op m o)) = false.
Proof.
  intros Hn Ho Hy.
  assert (∀ now next m' r, transition now m next = (m', r) →
    0 < default 0 (surviving_descendants m') ∧ is_yield (current_state m') = false) as Ht.
  { intros now next m' r [(_ & _ & Hg & ->)|[-> _]]%transition_cases; [|done].
    simpl. split; [done|]. destruct (is_yield next); [|done]. specialize (Hg eq_refl). lia. }
  destruct o as [now next|n|now e|now t e]; simpl; unfold fail_closed, fail_closed_to;
    try (match goal with |- context [transition ?n ?m ?t] =>
           destruct (transition n m t) as [m' r] eqn:E end; eapply Ht in E;
         destruct r; exact E).
  simpl in *. to_prop. auto.
Qed.

Lemma is_fail_closed_step m o :
  wf m → is_fail_closed m = true → is_fail_closed (exec_op m o) = true.
Proof.
  intros Hwf. destruct (last_visited m Hwf) as (n & _ & Hl).
  apply list_elem_of_lookup_2 in Hl. unfold visited in Hl.
  apply list_elem_of_fmap in Hl as (h & Hc & Hin).
  destruct (exec_op_cases m o) as [(now & t & _ & _ & Hh)|[Hc' Hh]];
    unfold is_fail_closed; rewrite Hh; [|by rewrite Hc'].
  rewrite existsb_app, !orb_true_iff, !existsb_true. intros [H|H]; right; left; [|done].
  exists h. rewrite <-Hc. auto.
Qed.

Definition phase_inv (m : ExecutionStateMachine) : Prop :=
  (∀ i j s t, (i < j)%nat → visited m !! i = Some s → visited m !! j = Some t →
     is_fail_state s = false → phase s ≤ Z.min 14 (phase t))
  ∧ (∀ i s, visited m !! i = Some s → is_fail_state s = false →
       phase s ≤ Z.min 14 (phase (current_state m))).

Lemma phase_inv_snoc (l : list ExecutionState) s0 t :
  (∀ i j s u, (i < j)%nat → l !! i = Some s → l !! j = Some u →
     is_fail_state s = false → phase s ≤ Z.min 14 (phase u)) →
  (∀ i s, l !! i = Some s → is_fail_state s = false → phase s ≤ Z.min 14 (phase s0)) →
  valid_transition s0 t = true →
  (∀ i j s u, (i < j)%nat → (l ++ [t]) !! i = Some s → (l ++ [t]) !! j = Some u →
     is_fail_state s = false → phase s ≤ Z.min 14 (phase u))
  ∧ (∀ i s, (l ++ [t]) !! i = Some s → is_fail_state s = false →
       phase s ≤ Z.min 14 (phase t)).
Proof.
  intros IH1 IH2 Hv.
  assert (phase s0 ≤ Z.min 14 (phase t) ∨ 14 ≤ phase t) as Hst.
  { clear -Hv. destruct s0, t; try discriminate Hv; simpl; lia. }
  assert (∀ i s, l !! i = Some s → is_fail_state s = false →
    phase s ≤ Z.min 14 (phase t)) as Hold.
  { intros i s Hi Hs. specialize (IH2 i s Hi Hs). lia. }
  assert (is_fail_state t = false → phase t ≤ Z.min 14 (phase t)) as Ht.
  { destruct t; simpl; intros; try discriminate; lia. }
  split.
  - intros i j s u Hij [Hi|[? Hi]]%lookup_app_Some [Hj|[? Hj]]%lookup_app_Some Hs;
      [by eauto| | |].
    + apply list_lookup_singleton_Some in Hj as [? <-]. eauto.
    + apply lookup_lt_Some in Hj. lia.
    + apply list_lookup_singleton_Some in Hj as [? <-].
      apply list_lookup_singleton_Some in Hi as [? <-]. lia.
  - intros i s [Hi|[? Hi]]%lookup_app_Some Hs; [eauto|].
    apply list_lookup_singleton_Some in Hi as [? <-]. auto.
Qed.

Lemma phase_inv_reachable m : reachable m → phase_inv m.
Proof.
  revert m. apply reachable_ind; unfold phase_inv.
  1,2: intros now; split; [intros i j s t Hij Hi Hj | intros i s Hi];
    apply list_lookup_singleton_Some in Hi as [? <-]; [|simpl; lia];
    apply list_lookup_singleton_Some in Hj as [? <-]; lia.
  intros m o [IH1 IH2].
  destruct (exec_op_cases m o) as [(now & t & Hv & -> & Hh)|[Hc Hh]];
    unfold visited in *; rewrite Hh; [|by rewrite Hc].
  rewrite fmap_app. by apply (phase_inv_snoc _ (current_state m)).
Qed.

(** ** Properties *)

(** C1: In any machine reached from [new] or [new_canonical] by any calls, every state of
    the history that is neither a failure nor final was preceded, in the run's own history,
    by all the milestones it [needs]: sealing by compilation; isolation by both; spawning by
    these and isolation; running and enforcing by these and spawning; a signal and stopping
    by these and running; the clean-up by these and stopping; verification, attestation and
    verdict by all of these and the clean-up. *)
Theorem run_only_after_isolation m i s :
  reachable m → visited m !! i = Some s → is_fail_state s = false → is_yield s = false →
  ∀ k, k ∈ needs s → ∃ j s', (j < i)%nat ∧ visited m !! j = Some s' ∧ meets k s' = true.
Proof.
  intros Hm Hi Hf Hy k Hk. apply (proj2 (preceded_reachable m Hm) i s Hi); [|done].
  unfold early_state. by rewrite Hf, Hy.
Qed.

Definition canonical_run : list op :=
  OpTransition 1 <$> [PolicyCompiled; PreflightPassed; IsolationConfigured;
                      ChildSpawned; Running].
Definition cleaned_run : list op := canonical_run ++ (OpTransition 2 <$> [Terminating; CleanedUp]).

Lemma run_only_after_isolation_witness :
  ∃ j s', (j < 7)%nat
    ∧ visited (exec_ops (new_canonical 0) cleaned_run) !! j = Some s'
    ∧ meets MStopped s' = true.
Proof.
  apply (run_only_after_isolation (exec_ops (new_canonical 0) cleaned_run) 7 CleanedUp).
  - exists 0, cleaned_run. right. reflexivity.
  - reflexivity.
  - reflexivity.
  - reflexivity.
  - apply (bool_decide_unpack _). vm_compute. exact I.
Defined.

(** A machine that yields (state [Completed] or [Terminal]) without ever
    having failed passed every milestone: compiled, sealed, isolated, spawned,
    ran, stopped and cleaned up. *)
Theorem clean_completion_passed_all m :
  reachable m → is_fail_closed m = false →
  current_state m ∈ [Completed; Terminal] →
  ∀ k, ∃ s, s ∈ visited m ∧ meets k s = true.
Proof.
  intros Hm Hf Hc k. apply (proj2 (milestones_reachable m Hm) Hf).
  revert Hc. rewrite !elem_of_cons, elem_of_nil.
  intros [-> | [-> | []]]; destruct k; apply (bool_decide_unpack _); exact I.
Qed.

Definition full_run : list op :=
  cleaned_run ++ [OpRecord 0] ++ [OpTransition 3 Completed].

Lemma clean_completion_passed_all_witness :
  ∃ s, s ∈ visited (exec_ops (new_canonical 0) full_run) ∧ meets MCleaned s = true.
Proof.
  apply (clean_completion_passed_all (exec_ops (new_canonical 0) full_run)).
  - exists 0, full_run. right. reflexivity.
  - reflexivity.
  - left.
Defined.

(** [transition] in full: it succeeds exactly when the table allows the
    step and, for [Terminal] and [Completed], no positive survivor count is
    recorded; then it appends the state with its time stamp; otherwise the
    machine is returned unchanged with [InvalidTransition] (exit code 125). *)
Theorem transition_spec now m next :
  let ok := valid_transition (current_state m) next
            && negb (is_yield next && (0 <? default 0 (surviving_descendants m))) in
  if ok
  then transition now m next =
       (mk_fsm next (history m ++ [(next, now)]) (surviving_descendants m), Ok tt)
  else ∃ reason,
       transition now m next =
         (m, Err (InvalidTransition (current_state m) next reason))
       ∧ exit_code (InvalidTransition (current_state m) next reason) = 125.
Proof.
  unfold transition. simpl.
  destruct (is_yield next && _), (valid_transition _ _); simpl; eauto.
Qed.

(** Extinction guard over whole runs: once a positive number of surviving
    descendants is recorded on a machine that has not yielded, no sequence of
    calls reaches [Completed] or [Terminal] unless a later extinction audit
    records zero. *)
Theorem no_yield_with_survivors m os n :
  surviving_descendants m = Some n → 0 < n →
  is_yield (current_state m) = false →
  forallb records_positive os = true →
  is_yield (current_state (exec_ops m os)) = false.
Proof.
  intros Hm Hn. assert (0 < default 0 (surviving_descendants m)) as Hpos
    by (rewrite Hm; done). clear n Hm Hn. revert m Hpos.
  induction os as [|o os IH]; intros m Hpos Hy Hos; simpl in *; [done|].
  to_prop. destruct (exec_op_survivors m o) as [? ?]; auto.
Qed.

Lemma no_yield_with_survivors_witness :
  is_yield (current_state (exec_ops
    (record_extinction_result (from_state 0 CleanedUp) 1)
    [OpTransition 1 Completed; OpTransition 2 Terminal])) = false.
Proof. by apply (no_yield_with_survivors _ _ 1). Defined.

(** The lifecycle never goes back: along the history of a reachable
    machine the phase of non-failing states is non-decreasing, so a terminated
    or cleaned-up workload never runs again, even through the failure states. *)
Theorem lifecycle_monotone m i j s t :
  reachable m → (i < j)%nat →
  visited m !! i = Some s → visited m !! j = Some t →
  is_fail_state s = false → is_fail_state t = false →
  phase s ≤ phase t.
Proof.
  intros Hm Hij Hi Hj Hs _.
  pose proof (proj1 (phase_inv_reachable m Hm) i j s t Hij Hi Hj Hs). lia.
Qed.

Lemma lifecycle_monotone_witness : phase PreflightPassed ≤ phase Running.
Proof.
  apply (lifecycle_monotone (exec_ops (new_canonical 0) canonical_run) 2 5);
    try reflexivity; [|lia].
  exists 0, canonical_run. right. reflexivity.
Defined.

(** [fail_closed] in full: from every state that has not yielded it enters
    [Failed] (canonical mode) or [FailClosed] and reports the state it failed
    in; on a machine that already yielded it is refused and changes nothing.
    The error's exit code is 125 on both branches. *)
Theorem fail_closed_spec now m e :
  let '(m', err) := fail_closed now m e in
  exit_code err = 125 ∧
  (if is_yield (current_state m)
   then m' = m ∧ ∃ t r, err = InvalidTransition (current_state m) t r
   else current_state m' = (if is_canonical_mode m then Failed else FailClosed)
        ∧ is_fail_closed m' = true
        ∧ err = FailClosedError (current_state m) e
        ∧ history m' = history m ++ [(current_state m', now)]).
Proof.
  unfold fail_closed, fail_closed_to, transition, is_fail_closed.
  destruct (is_canonical_mode m); simpl;
    destruct (current_state m) eqn:E; simpl; rewrite ?E; eauto 10.
Qed.

(** Failure is sticky: once a reachable machine reports [is_fail_closed],
    it does so after any further calls, so a failed run that is later driven to
    [Terminal] or [Completed] is still reported as failed. *)
Theorem is_fail_closed_sticky m os :
  reachable m → is_fail_closed m = true → is_fail_closed (exec_ops m os) = true.
Proof.
  revert m. induction os as [|o os IH]; intros m Hr Hf; simpl; [done|].
  apply IH; [by apply (exec_ops_reachable m [o])|].
  apply is_fail_closed_step; [by apply wf_reachable|done].
Qed.

Definition failed_run : list op :=
  [OpFailClosed 1 "policy error"; OpTransition 2 EmergencyCleanup;
   OpTransition 3 Terminal; OpTransition 4 Completed].

Lemma is_fail_closed_sticky_witness :
  is_fail_closed (exec_ops (exec_ops (new_canonical 0) [OpFailClosed 1 "policy error"])
                    [OpTransition 2 EmergencyCleanup]) = true.
Proof.
  apply is_fail_closed_sticky; [|reflexivity].
  exists 0, [OpFailClosed 1 "policy error"]. right. reflexivity.
Defined.

(** A run that failed in its first step ends in [Completed]: the table refuses
    [EmergencyCleanup -> Completed] but allows the detour through [Terminal]. *)
Lemma failed_run_completes :
  let m := exec_ops (new_canonical 0) failed_run in
  current_state m = Completed ∧ is_fail_closed m = true
  ∧ valid_transition EmergencyCleanup Completed = false
  ∧ valid_transition Failed Completed = false.
Proof. vm_compute. repeat split. Qed.

(** The 12-state projection simulates the full table: an allowed step maps
    to a stuttering step or to an allowed canonical step, except for exactly
    four steps: [Spawn -> Enforce] (which projects backwards), the two exits of
    [Enforce] to a running state, and [EmergencyCleanup -> Terminal]. *)
Theorem to_canonical_simulation s t :
  valid_transition s t = true →
  (to_canonical s = to_canonical t
   ∨ valid_transition (to_canonical s) (to_canonical t) = true)
  ↔ (s, t) ∉ [(Spawn, Enforce); (Enforce, Running); (Enforce, Observe);
              (EmergencyCleanup, Terminal)].
Proof.
  intros Hv. destruct s, t; try discriminate Hv;
    (split; [intros [H|H]; try discriminate H|intros Hn]);
    first [apply (bool_decide_unpack _); exact I | left; reflexivity
          | right; reflexivity
          | exfalso; apply Hn; apply (bool_decide_unpack _); exact I].
Qed.

Lemma to_canonical_simulation_witness :
  (to_canonical Attest = to_canonical Verdict
   ∨ valid_transition (to_canonical Attest) (to_canonical Verdict) = true)
  ↔ (Attest, Verdict) ∉ [(Spawn, Enforce); (Enforce, Running); (Enforce, Observe);
              (EmergencyCleanup, Terminal)].
Proof. by apply to_canonical_simulation. Defined.
