(* ===== verification/Proctrack.v ===== *)
(** * Proctrack: sweeping a session's stray processes

    Model of [src/src/sandbox/linux/proctrack.rs] (the readers of [/proc] texts,
    the scans, the orphan sweep and the sweep by nonce) and of the registry of
    concurrent roots of [src/src/sandbox/handle.rs], on Linux.  A scan of [/proc]
    is the list of its entries with what the reads of each would give; a sweep
    works on a host ([SweepHost]) that scans, signals, reaps and tells the time.
    Texts and environments are byte strings; times are nanoseconds. *)

From S2P Require Import Prelude Capability Termination.

(** ** Concurrent roots ([handle.rs]) *)

Definition register_active_root (pid : Z) (roots : gset Z) : gset Z :=
  if pid =? 0 then roots else {[pid]} ∪ roots.
Definition unregister_active_root (pid : Z) (roots : gset Z) : gset Z :=
  if pid =? 0 then roots else roots ∖ {[pid]}.
Definition is_active_root (pid : Z) (roots : gset Z) : bool :=
  if pid =? 0 then false else bool_decide (pid ∈ roots).

(** ** Reading [/proc] texts *)

Definition newline : ascii := chr 10.
Definition strip_cr (w : string) : string := default w (strip_suffix (ch1 13) w).
(** [str::lines]: the last piece is a line only if it is not empty. *)
Fixpoint lines_of (ws : list string) : list string :=
  match ws with
  | [] => []
  | [w] => if is_empty w then [] else [w]
  | w :: ws => strip_cr w :: lines_of ws
  end.
Definition lines (s : string) : list string := lines_of (split_char newline s).

(** The rest of the first line that starts with [field], blanks before it
    skipped. *)
Definition field_rest (field body : string) : option string :=
  first_some (λ line, strip_prefix field (trim_start line)) (lines body).

Definition i32_max : Z := 2 ^ 31 - 1.
Definition parse_u32 : string → option Z := from_str_radix 10 u32_max.
(** [parse::<i32>] of an entry name that is not negative. *)
Definition parse_pid : string → option Z := from_str_radix 10 i32_max.

Definition ppid_from_status (body : string) : option Z :=
  field_rest "PPid:" body ≫= λ rest, parse_u32 (trim rest).

Definition first_char (s : string) : option ascii :=
  match s with EmptyString => None | String c _ => Some c end.
Definition state_letter (body : string) : option ascii :=
  field_rest "State:" body ≫= λ rest, first_char (trim_start rest).

Definition status_uid (body : string) : option Z :=
  field_rest "Uid:" body ≫= λ rest,
    parse_u32 (default EmptyString (hd_error (split_whitespace rest))).

Definition pid_is_zombie (body : string) : bool :=
  match field_rest "State:" body with
  | Some rest => starts_with (trim_start rest) "Z" || starts_with (trim_start rest) "X"
  | None => false
  end.

Definition contains_slice (haystack needle : string) : bool :=
  if is_empty needle then false else contains haystack needle.

(** The text after the first occurrence of [row] in [line]. *)
Fixpoint find_rest (row line : string) : option string :=
  match strip_prefix row line with
  | Some rest => Some rest
  | None => match line with EmptyString => None | String _ line => find_rest row line end
  end.

Definition limits_field_is (body row : string) (expected : Z) : bool :=
  match first_some (find_rest row) (lines body) with
  | None => false
  | Some after =>
      let cols := split_whitespace (trim_start after) in
      let soft := default EmptyString (hd_error cols) in
      let hard := default EmptyString (hd_error (tl cols)) in
      String.eqb soft (to_dec expected) && String.eqb hard (to_dec expected)
  end.

Definition proc_field_is (body field expected : string) : bool :=
  match field_rest field body with Some rest => String.eqb (trim rest) expected | None => false end.

(** ** One entry of [/proc] *)

(** [Gone] is [ENOENT] or [ESRCH]; [Unreadable] any other error. *)
Inductive EnvRead : Type := Env (bytes : string) | Gone | Unreadable.

(** What the reads of one entry would give during a scan; [entry_latest] is the
    second read of its status. *)
Record ProcEntry : Type := mk_entry {
  entry_name : option string;  (* [None]: not UTF-8 *)
  entry_status : option string;
  entry_environ : EnvRead;
  entry_latest : option string;
  entry_alive : bool;  (* [kill(pid, 0)] *)
  entry_sid : option Z;
  entry_pgid : Z;
}.

Definition entry_pid (e : ProcEntry) : option Z := entry_name e ≫= parse_pid.

(** ** The child as the host shows it *)

(** One round of [verify_child_host]: the child's status, its process group,
    whether its network namespace differs from ours ([None]: unreadable), our
    sub-reaper flag, whether the deadline has passed and whether it is alive. *)
Record HostRound : Type := mk_round {
  round_status : option string;
  round_pgid : Z;
  round_netns_differs : option bool;
  round_subreaper : bool;
  round_late : bool;
  round_alive : bool;
}.

Definition observe_round (pid : Z) (r : HostRound) (out : HostVerification) : HostVerification :=
  let field f v := match round_status r with Some body => proc_field_is body f v | None => false end in
  mk_host (field "Seccomp:" "2" || seccomp_filter out) (field "NoNewPrivs:" "1" || no_new_privs out)
    (((round_pgid r =? pid) && (0 <? round_pgid r)) || pgroup_separate out)
    (rlimit_as_ok out) (rlimit_nproc_ok out) (rlimit_cpu_ok out) (rlimit_fsize_ok out)
    (round_subreaper r) (win_in_job out) (win_kill_on_close out) (win_low_integrity out)
    (win_job_ceiling out) (cgroup_memory_ok out) (cgroup_pids_ok out) (cgroup_cpu_ok out)
    (default false (round_netns_differs r) || netns_isolated out).

Definition round_final (r : HostRound) : bool :=
  bool_decide (is_Some (round_status r)) || round_late r || negb (round_alive r)
  || match round_status r with Some body => pid_is_zombie body | None => false end.

(** The rounds the host offers, in order; the last one offered is final. *)
Fixpoint verify_rounds (pid : Z) (rounds : list HostRound) (out : HostVerification) :
  HostVerification :=
  match rounds with
  | [] => out
  | r :: rounds =>
      let out := observe_round pid r out in
      if round_final r then out else verify_rounds pid rounds out
  end.

Definition verify_child_host (pid : Z) (rounds : list HostRound) : HostVerification :=
  if pid =? 0 then host_none else verify_rounds pid rounds host_none.

(** ** The scans *)

Section Scans.
(** Our pid, effective user and session, and the registered roots. *)
Variables (me me_uid : Z) (my_sid : option Z) (roots : gset Z).

(** The pid of an entry the scans consider. *)
Definition candidate (root_pid : Z) (skip_me : bool) (e : ProcEntry) : option Z :=
  match entry_pid e with
  | Some pid =>
      if (pid <=? 0) || (pid =? root_pid) || (skip_me && (pid =? me)) || is_active_root pid roots
      then None else Some pid
  | None => None
  end.

Definition scan_child (exclude_pid : Z) (e : ProcEntry) : option Z :=
  pid ← candidate exclude_pid false e;
  status ← entry_status e;
  if bool_decide (ppid_from_status status = Some me) then Some pid else None.
(** [entries = None]: [/proc] cannot be listed. *)
Definition scan_children (entries : option (list ProcEntry)) (exclude_pid : Z) : list Z :=
  omap (scan_child exclude_pid) (default [] entries).

(** In another session, or in the process group of the root. *)
Definition detached (root_pid : Z) (e : ProcEntry) : bool :=
  match my_sid, entry_sid e with
  | Some mine, Some theirs =>
      if negb (mine =? theirs) then true else entry_pgid e =? root_pid
  | _, _ => entry_pgid e =? root_pid
  end.

Definition carries_vetto_nonce (env : string) : bool :=
  contains_slice env "VETTO_RUN_NONCE=" || contains_slice env "VETTO_PROD_NONCE="
  || contains_slice env "VETTO_VNG_NONCE=".

(** One entry of [scan_nonce_pids]: matched, and blind. *)
Definition scan_entry (needle : string) (root_pid : Z) (e : ProcEntry) : option Z * bool :=
  match candidate root_pid true e, entry_status e with
  | Some pid, Some status =>
      if match status_uid status with Some uid => negb (uid =? me_uid) | None => false end
      then (None, false)
      else match entry_environ e with
      | Gone => (None, false)
      | Unreadable =>
          if pid_is_zombie status || negb (entry_alive e) then (None, false)
          else match entry_latest e with
               | Some latest =>
                   if pid_is_zombie latest then (None, false)
                   else (None, bool_decide (ppid_from_status status = Some me))
               | None => (None, false)
               end
      | Env env =>
          if contains_slice env needle then (Some pid, false)
          else if (is_empty env || negb (carries_vetto_nonce env))
                  && entry_alive e && negb (pid_is_zombie status)
                  && bool_decide (ppid_from_status status = Some me)
                  && negb (pid =? root_pid) && negb (is_active_root pid roots)
                  && detached root_pid e
          then (Some pid, true) else (None, false)
      end
  | _, _ => (None, false)
  end.

Definition scan_nonce_pids (entries : option (list ProcEntry)) (needle : string) (root_pid : Z) :
  list Z * bool :=
  match entries with
  | None => ([], true)
  | Some es => (omap (λ e, (scan_entry needle root_pid e).1) es,
                existsb (λ e, (scan_entry needle root_pid e).2) es)
  end.

Definition nonce_pid (needle : string) (root_pid : Z) (e : ProcEntry) : option Z :=
  pid ← candidate root_pid true e;
  match entry_environ e with
  | Env env => if contains_slice env needle then Some pid else None
  | _ => None
  end.
Definition last_nonce_pids (entries : option (list ProcEntry)) (nonce : string) (root_pid : Z) :
  list Z :=
  take 8 (sort_ports (omap (nonce_pid nonce root_pid) (default [] entries))).

(** [st] is the root's status, [None] when unreadable. *)
Definition root_settled (root_pid : Z) (st : option string) : bool :=
  if root_pid <=? 0 then true
  else match st with
       | None => true
       | Some status =>
           if bool_decide (ppid_from_status status ≠ Some me) then true
           else bool_decide (state_letter status = Some "Z"%char)
       end.
End Scans.

(** ** The sweeps *)

Record SweepOutcome : Type := mk_sweep {
  clean : bool;
  killed : Z;
  residual : list Z;
  subreaper : bool;
  blind : bool;
}.

(** A process bound by [pidfd_open], where the kernel has it. *)
Record PinnedProcess : Type := mk_pinned { pinned_pid : Z; pidfd : option Z }.

(** The host of a sweep; [scan_proc] lists [/proc], [root_status] reads the
    status of the root, a signal reports whether it was delivered, [reap] is
    [waitpid] with [WNOHANG]. *)
Class SweepHost (W : Type) : Type := {
  child_subreaper : W → W * bool;
  scan_proc : W → W * option (list ProcEntry);
  root_status : Z → W → W * option string;
  sigkill : Z → W → W * bool;
  pidfd_open : Z → W → W * option Z;
  pidfd_kill : Z → W → W * bool;
  reap : Z → W → W;
  clock : W → W * Z;
  pause : Z → W → W;
}.

Definition ms (n : Z) : Z := n * 1000000.
Definition SWEEP_BUDGET_MS : Z := MAX_EXTINCTION_DEADLINE_MS.
Definition SWEEP_POLL : Z := ms 10.

Section Sweeps.
Context {W : Type} `{SweepHost W}.
Variables (me me_uid : Z) (my_sid : option Z) (roots : gset Z).

Definition open_pinned (pid : Z) (w : W) : W * PinnedProcess :=
  let '(w, fd) := pidfd_open pid w in (w, mk_pinned pid fd).
Definition send_kill (p : PinnedProcess) (w : W) : W * bool :=
  match pidfd p with Some fd => pidfd_kill fd w | None => sigkill (pinned_pid p) w end.

(** [kill] and [waitpid] on each match; the number of signals delivered. *)
Fixpoint kill_matched (pids : list Z) (w : W) : W * Z :=
  match pids with
  | [] => (w, 0)
  | pid :: pids =>
      let '(w, sent) := sigkill pid w in
      let '(w, n) := kill_matched pids (reap pid w) in
      (w, (if sent then 1 else 0) + n)
  end.

(** The loop of [sweep_tree_by_nonce_linux]; [None] is exhausted fuel. *)
Fixpoint sweep_loop (fuel : nat) (nonce : string) (root_pid deadline : Z) (o : SweepOutcome)
    (w : W) : option (W * SweepOutcome) :=
  match fuel with
  | O => None
  | S fuel =>
      let '(w, entries) := scan_proc w in
      let '(matched, saw_blind) := scan_nonce_pids me me_uid my_sid roots entries nonce root_pid in
      let is_blind := blind o || saw_blind in
      match matched with
      | [] => Some (w, mk_sweep (negb is_blind) (killed o) (residual o) (subreaper o) is_blind)
      | _ =>
          let '(w, n) := kill_matched matched w in
          let o := mk_sweep (clean o) (killed o + n) (residual o) (subreaper o) is_blind in
          let '(w, t) := clock w in
          if deadline <=? t then
            let '(w, entries) := scan_proc w in
            Some (w, mk_sweep (clean o) (killed o) (last_nonce_pids me roots entries nonce root_pid)
                       (subreaper o) (blind o))
          else sweep_loop fuel nonce root_pid deadline o (pause (ms 10) w)
      end
  end.

Definition sweep_tree_by_nonce (fuel : nat) (nonce : string) (root_pid : Z) (w : W) :
  option (W * SweepOutcome) :=
  let '(w, sub) := child_subreaper w in
  if negb sub then Some (w, mk_sweep false 0 [] sub true)
  else if (root_pid =? 0) || is_empty nonce then Some (w, mk_sweep true 0 [] sub false)
  else
    let '(w, t) := clock w in
    sweep_loop fuel nonce root_pid (t + ms MAX_EXTINCTION_DEADLINE_MS)
      (mk_sweep false 0 [] sub false) w.

(** [sweep_reparented]: the orphans to pin, and the other children. *)
Fixpoint pin_killable (root_pid : Z) (es : list ProcEntry) (w : W) :
  W * (list PinnedProcess * list Z) :=
  match es with
  | [] => (w, ([], []))
  | e :: es =>
      match scan_child me roots root_pid e with
      | None => pin_killable root_pid es w
      | Some pid =>
          if (pid =? root_pid) || is_active_root pid roots then pin_killable root_pid es w
          else if detached my_sid root_pid e then
            let '(w, p) := open_pinned pid w in
            let '(w, (ps, others)) := pin_killable root_pid es w in
            (w, (p :: ps, others))
          else
            let '(w, (ps, others)) := pin_killable root_pid es w in
            (w, (ps, pid :: others))
      end
  end.

Fixpoint send_all (ps : list PinnedProcess) (w : W) : W * Z :=
  match ps with
  | [] => (w, 0)
  | p :: ps =>
      let '(w, sent) := send_kill p w in
      let '(w, n) := send_all ps w in
      (w, (if sent then 1 else 0) + n)
  end.
Definition reap_all (pids : list Z) (w : W) : W := fold_left (λ w pid, reap pid w) pids w.

(** A round of the loop; [rec] is the next one. *)
Definition reparented_round (rec : Z → W → option (W * Z)) (root_pid deadline count : Z) (w : W) :
  option (W * Z) :=
  let '(w, entries) := scan_proc w in
  let '(w, (killable, others)) :=
    pin_killable root_pid (default [] entries) w in
  let next count w :=
    let '(w, t) := clock w in
    if deadline <=? t then Some (w, count) else rec count (pause SWEEP_POLL w) in
  match killable with
  | [] =>
      let w := reap_all others w in
      let '(w, st) := root_status root_pid w in
      if root_settled me root_pid st then Some (w, count) else next count w
  | _ =>
      let '(w, n) := send_all killable w in
      next (count + n) (reap_all others (reap_all (pinned_pid <$> killable) w))
  end.

Fixpoint reparented_loop (fuel : nat) (root_pid deadline count : Z) (w : W) : option (W * Z) :=
  match fuel with
  | O => None
  | S fuel => reparented_round (reparented_loop fuel root_pid deadline) root_pid deadline count w
  end.

Definition sweep_reparented (fuel : nat) (deadline_ms root_pid : Z) (w : W) : option (W * Z) :=
  if root_pid <=? 0 then Some (w, 0)
  else
    let '(w, t) := clock w in
    reparented_loop fuel root_pid (t + ms deadline_ms) 0 w.
End Sweeps.

(** ** What a sweep may do *)

Section Allowed.
Variables (me me_uid : Z) (my_sid : option Z) (roots : gset Z).

(** Never the root, this process or the root of a concurrent session. *)
Definition foreign (root_pid pid : Z) : Prop :=
  0 < pid ∧ pid ≠ root_pid ∧ pid ∉ roots.

(** A child of ours that left our session or sits in the root's group. *)
Definition orphan (root_pid : Z) (e : ProcEntry) : Prop :=
  (∃ status, entry_status e = Some status ∧ ppid_from_status status = Some me)
  ∧ detached my_sid root_pid e = true.

(** What the sweep by nonce may signal, after the scan [l]. *)
Definition nonce_victim (nonce : string) (root_pid : Z) (l : option (list ProcEntry)) (pid : Z) :
  Prop :=
  ∃ es e, l = Some es ∧ e ∈ es ∧ entry_pid e = Some pid ∧ foreign root_pid pid ∧ pid ≠ me
    ∧ ((∃ a b, entry_environ e = Env (a +:+ nonce +:+ b)) ∨ orphan root_pid e).

(** What the orphan sweep may signal. *)
Definition orphan_victim (root_pid : Z) (l : option (list ProcEntry)) (pid : Z) : Prop :=
  ∃ es e, l = Some es ∧ e ∈ es ∧ entry_pid e = Some pid ∧ foreign root_pid pid
    ∧ orphan root_pid e.

Lemma candidate_Some root_pid skip_me e pid :
  candidate me roots root_pid skip_me e = Some pid ↔
  entry_pid e = Some pid ∧ foreign root_pid pid ∧ (skip_me = true → pid ≠ me).
Proof.
  unfold candidate, foreign, is_active_root. destruct (entry_pid e) as [p|]; [|naive_solver].
  destruct (Z.leb_spec p 0), (Z.eqb_spec p root_pid), (Z.eqb_spec p me), (Z.eqb_spec p 0),
    skip_me; simpl; try case_bool_decide; naive_solver lia.
Qed.

Lemma scan_entry_victim nonce root_pid es e pid :
  e ∈ es → (scan_entry me me_uid my_sid roots nonce root_pid e).1 = Some pid →
  nonce_victim nonce root_pid (Some es) pid.
Proof.
  intros He H. unfold scan_entry in H.
  destruct (candidate _ _ _ _ _) as [p|] eqn:Ec; [|done].
  destruct (entry_status e) as [status|] eqn:Es; [|done].
  destruct (match status_uid status with Some _ => _ | None => _ end); [done|].
  destruct (entry_environ e) as [env| |] eqn:Ee; [|done|by break_match_in H].
  apply candidate_Some in Ec as (Hp & Hf & Hme).
  assert (p = pid) as ->.
  { destruct (contains_slice env nonce); [by injection H|]. case_match; [by injection H|done]. }
  exists es, e. split_and!; [done..|by apply Hme|].
  destruct (contains_slice env nonce) eqn:En.
  - left. unfold contains_slice in En. destruct (is_empty nonce); [done|].
    apply contains_spec in En as (a & b & ->). by exists a, b.
  - right. case_match eqn:Hd; [|done]. rewrite !andb_true_iff, bool_decide_eq_true in Hd.
    destruct Hd as [[[[_ Hpp] _] _] Hdet]. split; [by exists status|done].
Qed.

(** A scan that matches nothing and is not blind met no process of ours that
    shows the nonce. *)
Lemma scan_empty nonce root_pid es e pid env :
  scan_nonce_pids me me_uid my_sid roots (Some es) nonce root_pid = ([], false) →
  e ∈ es → is_empty nonce = false → entry_pid e = Some pid → foreign root_pid pid → pid ≠ me →
  (∃ status, entry_status e = Some status ∧ ∀ uid, status_uid status = Some uid → uid = me_uid) →
  entry_environ e = Env env → contains env nonce = false.
Proof.
  intros [= Hm Hb] He Hn Hp Hf Hme (status & Hst & Huid) Henv.
  destruct (contains env nonce) eqn:Ec; [exfalso|done].
  assert (pid ∈ omap (λ e, (scan_entry me me_uid my_sid roots nonce root_pid e).1) es) as Hin.
  { apply list_elem_of_omap. exists e. split; [done|]. unfold scan_entry.
    rewrite (proj2 (candidate_Some root_pid true e pid)) by done. rewrite Hst, Henv.
    unfold contains_slice. rewrite Hn, Ec.
    destruct (status_uid status) as [uid|]; [|done].
    rewrite (Huid uid) by done. by rewrite Z.eqb_refl. }
  rewrite Hm in Hin. by apply elem_of_nil in Hin.
Qed.
End Allowed.

Section Steps.
Context {W : Type} `{SweepHost W}.
Variable victim : option (list ProcEntry) → Z → Prop.

(** The host and the scan last read; a signal goes to a victim of that scan. *)
Inductive sweep_step : W * option (list ProcEntry) → W * option (list ProcEntry) → Prop :=
| step_scan w l : sweep_step (w, l) ((scan_proc w).1, (scan_proc w).2)
| step_kill pid w l : victim l pid → sweep_step (w, l) ((sigkill pid w).1, l)
| step_pidfd pid fd w0 w l :
    victim l pid → (pidfd_open pid w0).2 = Some fd → sweep_step (w, l) ((pidfd_kill fd w).1, l)
| step_open pid w l : sweep_step (w, l) ((pidfd_open pid w).1, l)
| step_reap pid w l : sweep_step (w, l) (reap pid w, l)
| step_root pid w l : sweep_step (w, l) ((root_status pid w).1, l)
| step_sub w l : sweep_step (w, l) ((child_subreaper w).1, l)
| step_clock w l : sweep_step (w, l) ((clock w).1, l)
| step_pause d w l : sweep_step (w, l) (pause d w, l).

Lemma kill_matched_steps pids w w' n l :
  kill_matched pids w = (w', n) → (∀ pid, pid ∈ pids → victim l pid) →
  rtc sweep_step (w, l) (w', l) ∧ 0 ≤ n ≤ Z.of_nat (length pids).
Proof.
  revert w n. induction pids as [|pid pids IH]; intros w n Hk Hv; simpl in Hk.
  { injection Hk as -> <-. split; [done|simpl; lia]. }
  destruct (sigkill pid w) as [w1 sent] eqn:Es.
  destruct (kill_matched pids (reap pid w1)) as [w2 k] eqn:Ek. injection Hk as -> <-.
  destruct (IH _ _ Ek) as [Hr Hn]; [intros p Hp; apply Hv; by right|].
  split; [|simpl; destruct sent; lia].
  eapply rtc_l; [apply (step_kill pid); apply Hv; left|]. rewrite Es. simpl.
  eapply rtc_l; [apply (step_reap pid)|done].
Qed.
End Steps.

(** The clock never goes back and a pause lasts. *)
Class SweepLaws (W : Type) `{SweepHost W} (time : W → Z) : Prop := {
  clock_reads w : (clock w).2 = time (clock w).1;
  clock_later w : time w ≤ time (clock w).1;
  scan_later w : time w ≤ time (scan_proc w).1;
  root_later pid w : time w ≤ time (root_status pid w).1;
  sub_later w : time w ≤ time (child_subreaper w).1;
  sigkill_later pid w : time w ≤ time (sigkill pid w).1;
  pidfd_open_later pid w : time w ≤ time (pidfd_open pid w).1;
  pidfd_kill_later fd w : time w ≤ time (pidfd_kill fd w).1;
  reap_later pid w : time w ≤ time (reap pid w);
  pause_lasts d w : 0 ≤ d → time w + d ≤ time (pause d w);
}.

Section SweepFacts.
Context {W : Type} `{HW : SweepHost W} {time : W → Z} {L : SweepLaws W time}.
Variables (me me_uid : Z) (my_sid : option Z) (roots : gset Z).

Lemma kill_matched_later pids w : time w ≤ time (kill_matched pids w).1.
Proof.
  revert w. induction pids as [|pid pids IH]; intros w; [simpl; lia|]. simpl.
  pose proof (sigkill_later pid w). destruct (sigkill pid w) as [w1 sent]. simpl in *.
  pose proof (reap_later pid w1). specialize (IH (reap pid w1)).
  destruct (kill_matched pids (reap pid w1)). simpl in *. lia.
Qed.

Notation nonce_scan l nonce root :=
  (scan_nonce_pids me me_uid my_sid roots l nonce root).
Notation may_kill nonce root := (nonce_victim me my_sid roots nonce root).

Lemma matched_victims nonce root_pid l pid :
  pid ∈ (nonce_scan l nonce root_pid).1 → may_kill nonce root_pid l pid.
Proof.
  destruct l as [es|]; [|by intros ?%elem_of_nil].
  intros (e & He & Hm)%list_elem_of_omap. by eapply scan_entry_victim.
Qed.

(** What one run of the loop gives, from the outcome [o] so far. *)
Definition swept (nonce : string) (root_pid : Z) (o o' : SweepOutcome)
    (l' : option (list ProcEntry)) : Prop :=
  killed o ≤ killed o' ∧ subreaper o' = subreaper o
  ∧ (clean o' = true →
       blind o' = false ∧ residual o' = residual o ∧ nonce_scan l' nonce root_pid = ([], false))
  ∧ (clean o' = false →
       blind o' = true ∧ residual o' = residual o
       ∨ residual o' = last_nonce_pids me roots l' nonce root_pid).

Lemma sweep_loop_spec fuel nonce root_pid deadline o w l0 :
  clean o = false → deadline - time w ≤ Z.of_nat fuel * ms 10 →
  ∃ w' o' l', sweep_loop me me_uid my_sid roots (S fuel) nonce root_pid deadline o w = Some (w', o')
    ∧ rtc (sweep_step (may_kill nonce root_pid)) (w, l0) (w', l')
    ∧ swept nonce root_pid o o' l'.
Proof.
  revert o w l0. induction fuel as [|fuel IH]; intros o w l0 Hc Hf; cbn [sweep_loop].
  all: pose proof (scan_later w) as H1;
    pose proof (step_scan (may_kill nonce root_pid) w l0) as Hs;
    destruct (scan_proc w) as [w1 l]; simpl in H1, Hs.
  all: pose proof (matched_victims nonce root_pid l) as Hv;
    destruct (nonce_scan l nonce root_pid) as [[|p ps] b] eqn:Es; simpl in Hv.
  1,3: exists w1, (mk_sweep (negb (blind o || b)) (killed o) (residual o) (subreaper o)
      (blind o || b)), l; split; [done|]; split; [by apply rtc_once|];
      unfold swept; rewrite Es; simpl; destruct (blind o), b; simpl; naive_solver lia.
  all: set (qs := p :: ps) in *; pose proof (kill_matched_later qs w1) as H2;
    destruct (kill_matched qs w1) as [w2 n] eqn:Ek; simpl in H2;
    destruct (kill_matched_steps (may_kill nonce root_pid) qs w1 w2 n l Ek Hv) as [Hk [Hn _]];
    pose proof (clock_later w2) as H3; pose proof (clock_reads w2) as H4;
    pose proof (step_clock (may_kill nonce root_pid) w2 l) as Ht;
    destruct (clock w2) as [w3 t]; simpl in H3, H4, Ht; subst t.
  all: destruct (Z.leb_spec deadline (time w3)); [|try (unfold ms in *; lia)].
  1,2: pose proof (step_scan (may_kill nonce root_pid) w3 l) as Hs2;
    destruct (scan_proc w3) as [w4 l']; simpl in Hs2; eexists w4, _, l'; split; [done|]; split;
    [by eapply rtc_l; [exact Hs|etransitivity; [exact Hk|]];
      eapply rtc_l; [exact Ht|by apply rtc_once]|unfold swept; simpl; rewrite Hc; naive_solver lia].
  pose proof (pause_lasts (ms 10) w3). unfold ms in *.
  destruct (IH (mk_sweep (clean o) (killed o + n) (residual o) (subreaper o) (blind o || b))
    (pause (10 * 1000000) w3) l) as (w' & o' & l' & Hl & Hr & Ho); [done|lia|].
  exists w', o', l'. split; [exact Hl|]. split.
  - eapply rtc_l; [exact Hs|]. etransitivity; [exact Hk|]. eapply rtc_l; [exact Ht|].
    eapply rtc_l; [apply step_pause|exact Hr].
  - unfold swept in *. simpl in Ho. naive_solver lia.
Qed.

Lemma last_nonce_length l nonce root_pid :
  (length (last_nonce_pids me roots l nonce root_pid) ≤ 8)%nat.
Proof. unfold last_nonce_pids. rewrite length_take. lia. Qed.

(** The sweep by nonce always returns: 51 rounds are enough.  It
    signals only processes its last scan showed to carry the session's nonce or
    to be detached children of ours; never the root, this process or the root
    of a concurrent session.  A clean outcome means that this process is a
    sub-reaper and the last scan was not blind and met no process of ours whose
    environment shows the nonce. *)
Theorem sweep_by_nonce_spec fuel nonce root_pid w :
  ms MAX_EXTINCTION_DEADLINE_MS ≤ Z.of_nat fuel * ms 10 →
  ∃ w' o l',
    sweep_tree_by_nonce me me_uid my_sid roots (S fuel) nonce root_pid w = Some (w', o)
    ∧ rtc (sweep_step (may_kill nonce root_pid)) (w, None) (w', l')
    ∧ (length (residual o) ≤ 8)%nat
    ∧ (subreaper o = false → blind o = true)
    ∧ (clean o = true →
         subreaper o = true ∧ blind o = false ∧ residual o = []
         ∧ (root_pid = 0 ∨ nonce = EmptyString ∨ ∃ es, l' = Some es
            ∧ ∀ e pid env, e ∈ es → entry_pid e = Some pid → foreign roots root_pid pid →
                pid ≠ me →
                (∃ status, entry_status e = Some status
                   ∧ ∀ uid, status_uid status = Some uid → uid = me_uid) →
                entry_environ e = Env env → contains env nonce = false)).
Proof.
  intros Hf. unfold sweep_tree_by_nonce.
  pose proof (step_sub (may_kill nonce root_pid) w None) as Hs.
  destruct (child_subreaper w) as [w1 sub]; simpl in Hs.
  destruct sub; simpl.
  2: { eexists w1, _, None. split_and!; [done|by apply rtc_once|simpl; lia|done|done]. }
  destruct ((root_pid =? 0) || is_empty nonce) eqn:Eg.
  { eexists w1, _, None. split_and!; [done|by apply rtc_once|simpl; lia|done|].
    intros _. split_and!; [done..|]. apply orb_true_iff in Eg as [Eg|Eg].
    - left. lia.
    - right; left. by apply String.eqb_eq. }
  pose proof (clock_later w1) as H1. pose proof (clock_reads w1) as H2.
  pose proof (step_clock (may_kill nonce root_pid) w1 None) as Ht.
  destruct (clock w1) as [w2 t]; simpl in H1, H2, Ht. subst t.
  destruct (sweep_loop_spec fuel nonce root_pid (time w2 + ms MAX_EXTINCTION_DEADLINE_MS)
    (mk_sweep false 0 [] true false) w2 None) as (w' & o' & l' & Hl & Hr & Hk & Hsub & Hc & Hd);
    [done|lia|].
  exists w', o', l'. split_and!; [exact Hl| | |by rewrite Hsub|].
  - eapply rtc_l; [exact Hs|]. by eapply rtc_l.
  - destruct (clean o') eqn:E.
    + destruct Hc as (_ & -> & _); [done|simpl; lia].
    + destruct Hd as [[_ ->]| ->]; [done|simpl; lia|apply last_nonce_length].
  - intros E. destruct (Hc E) as (Hb & Hres & Hscan). split_and!; [done..|]. right; right.
    destruct l' as [es|]; [|by injection Hscan]. exists es. split; [done|].
    intros e pid env He Hp Hfor Hme Hst Henv.
    apply orb_false_iff in Eg as [_ Eg]. by eapply scan_empty.
Qed.

Lemma pin_killable_steps root_pid es w w' ps others l :
  pin_killable me my_sid roots root_pid es w = (w', (ps, others)) →
  (∀ e, e ∈ es → e ∈ default [] l) →
  rtc (sweep_step (orphan_victim me my_sid roots root_pid)) (w, l) (w', l)
  ∧ time w ≤ time w'
  ∧ ∀ p, p ∈ ps → orphan_victim me my_sid roots root_pid l (pinned_pid p)
      ∧ ∀ fd, pidfd p = Some fd → ∃ w0, (pidfd_open (pinned_pid p) w0).2 = Some fd.
Proof.
  revert w ps others. induction es as [|e es IH]; intros w ps others Hp Hl; simpl in Hp.
  { injection Hp as -> <- <-. split_and!; [done|lia|by intros ? ?%elem_of_nil]. }
  assert (∀ e, e ∈ es → e ∈ default [] l) as Hl' by (intros; apply Hl; by right).
  destruct (scan_child me roots root_pid e) as [pid|] eqn:Ec; [|by eapply IH].
  destruct (_ || _); [by eapply IH|].
  destruct (detached my_sid root_pid e) eqn:Ed.
  - unfold open_pinned in Hp. pose proof (pidfd_open_later pid w) as Ho.
    pose proof (step_open (orphan_victim me my_sid roots root_pid) pid w l) as Hs.
    destruct (pidfd_open pid w) as [w1 fd] eqn:Ef. simpl in Ho, Hs.
    destruct (pin_killable _ _ _ _ es w1) as [w2 [qs os]] eqn:Ek. injection Hp as -> <- <-.
    destruct (IH _ _ _ Ek Hl') as (Hr & Ht & Hv).
    split_and!; [by eapply rtc_l|lia|]. intros p [->|Hp]%elem_of_cons; [|by apply Hv].
    simpl. split; [|intros fd' ->; exists w; by rewrite Ef].
    unfold scan_child in Ec. destruct (candidate _ _ _ _ _) as [q|] eqn:Eq; [|done].
    simpl in Ec. destruct (entry_status e) as [status|] eqn:Est; [|done]. simpl in Ec.
    case_bool_decide as Hpp; [|done]. injection Ec as ->.
    apply candidate_Some in Eq as (? & ? & _).
    assert (e ∈ default [] l) as He by (apply Hl; left). destruct l as [es'|]; [|by apply elem_of_nil in He].
    exists es', e. split_and!; [done..|]. split; [by exists status|done].
  - destruct (pin_killable _ _ _ _ es w) as [w2 [qs os]] eqn:Ek. injection Hp as -> <- <-.
    by eapply IH.
Qed.

Lemma send_all_steps V ps w w' n l :
  send_all ps w = (w', n) →
  (∀ p, p ∈ ps → V l (pinned_pid p)
     ∧ ∀ fd, pidfd p = Some fd → ∃ w0, (pidfd_open (pinned_pid p) w0).2 = Some fd) →
  rtc (sweep_step V) (w, l) (w', l) ∧ time w ≤ time w' ∧ 0 ≤ n.
Proof.
  revert w n. induction ps as [|p ps IH]; intros w n Hs Hv; simpl in Hs.
  { injection Hs as -> <-. split_and!; [done|lia|lia]. }
  destruct (send_kill p w) as [w1 sent] eqn:Ep.
  destruct (send_all ps w1) as [w2 k] eqn:Ek. injection Hs as -> <-.
  destruct (IH _ _ Ek) as (Hr & Ht & Hn); [intros q Hq; apply Hv; by right|].
  destruct (Hv p) as [Hp Hfd]; [left|].
  assert (sweep_step V (w, l) (w1, l) ∧ time w ≤ time w1) as [Hstep Hle].
  { unfold send_kill in Ep. destruct (pidfd p) as [fd|] eqn:Ef.
    - destruct (Hfd fd eq_refl) as [w0 H0].
      pose proof (step_pidfd V _ _ _ w l Hp H0) as Hstep. pose proof (pidfd_kill_later fd w).
      rewrite Ep in *. by split.
    - pose proof (step_kill V _ w l Hp). pose proof (sigkill_later (pinned_pid p) w).
      rewrite Ep in *. by split. }
  split_and!; [by eapply rtc_l|lia|destruct sent; lia].
Qed.

Lemma reap_all_steps V pids w l :
  rtc (sweep_step V) (w, l) (reap_all pids w, l) ∧ time w ≤ time (reap_all pids w).
Proof.
  revert w. induction pids as [|pid pids IH]; intros w; simpl; [split; [done|lia]|].
  destruct (IH (reap pid w)) as [Hr Ht]. pose proof (reap_later pid w).
  split; [|unfold reap_all in *; lia]. eapply rtc_l; [apply step_reap|exact Hr].
Qed.

Notation may_reap root := (orphan_victim me my_sid roots root).

(** The round ends the loop or reaches [wb] with the count [c] before the
    deadline. *)
Lemma reparented_round_spec rec root_pid deadline count w l0 :
  0 ≤ count →
  (∃ w' n l', reparented_round me my_sid roots rec root_pid deadline count w = Some (w', n)
    ∧ rtc (sweep_step (may_reap root_pid)) (w, l0) (w', l') ∧ count ≤ n)
  ∨ (∃ wb c l, reparented_round me my_sid roots rec root_pid deadline count w = rec c (pause SWEEP_POLL wb)
    ∧ rtc (sweep_step (may_reap root_pid)) (w, l0) (wb, l) ∧ count ≤ c
    ∧ time w ≤ time wb < deadline).
Proof.
  intros Hc. unfold reparented_round. pose proof (scan_later w) as H1.
  pose proof (step_scan (may_reap root_pid) w l0) as Hs.
  destruct (scan_proc w) as [w1 l]; simpl in H1, Hs.
  destruct (pin_killable me my_sid roots root_pid (default [] l) w1) as [w2 [ps others]] eqn:Ep.
  destruct (pin_killable_steps _ _ _ _ _ _ l Ep) as (Hp & H2 & Hv); [done|].
  assert (rtc (sweep_step (may_reap root_pid)) (w, l0) (w2, l)) as H02 by (by eapply rtc_l).
  assert (∀ c wa, count ≤ c → time w ≤ time wa →
    rtc (sweep_step (may_reap root_pid)) (w, l0) (wa, l) →
    let r := (let '(wb, t) := clock wa in
              if deadline <=? t then Some (wb, c) else rec c (pause SWEEP_POLL wb)) in
    (∃ w' n l', r = Some (w', n)
       ∧ rtc (sweep_step (may_reap root_pid)) (w, l0) (w', l') ∧ count ≤ n)
    ∨ (∃ wb c l, r = rec c (pause SWEEP_POLL wb)
       ∧ rtc (sweep_step (may_reap root_pid)) (w, l0) (wb, l) ∧ count ≤ c
       ∧ time w ≤ time wb < deadline)) as Hnext.
  { intros c wa Hca Hwa Hra. pose proof (clock_later wa) as H3.
    pose proof (clock_reads wa) as H4. pose proof (step_clock (may_reap root_pid) wa l) as Ht.
    destruct (clock wa) as [wb t]; simpl in H3, H4, Ht. subst t.
    assert (rtc (sweep_step (may_reap root_pid)) (w, l0) (wb, l)) by (by eapply rtc_r).
    cbv zeta. destruct (Z.leb_spec deadline (time wb)).
    - left. by exists wb, c, l.
    - right. exists wb, c, l. split_and!; done || lia. }
  destruct ps as [|p ps].
  - destruct (reap_all_steps (may_reap root_pid) others w2 l) as [Hr Hrt].
    pose proof (root_later root_pid (reap_all others w2)) as Hrl.
    pose proof (step_root (may_reap root_pid) root_pid (reap_all others w2) l) as Hst.
    destruct (root_status root_pid (reap_all others w2)) as [w3 st]; simpl in Hrl, Hst.
    assert (rtc (sweep_step (may_reap root_pid)) (w, l0) (w3, l)).
    { eapply rtc_r; [|exact Hst]. by etransitivity. }
    destruct (root_settled me root_pid st); [left; by exists w3, count, l|].
    apply Hnext; [lia|lia|done].
  - destruct (send_all (p :: ps) w2) as [w3 n] eqn:Esend.
    destruct (send_all_steps (may_reap root_pid) _ _ _ _ l Esend Hv) as (Hsd & H3 & Hn).
    destruct (reap_all_steps (may_reap root_pid) (pinned_pid <$> p :: ps) w3 l) as [Hr1 Ht1].
    destruct (reap_all_steps (may_reap root_pid) others
      (reap_all (pinned_pid <$> p :: ps) w3) l) as [Hr2 Ht2].
    apply Hnext; [lia|lia|]. do 2 (etransitivity; [|eassumption]). by etransitivity.
Qed.

Lemma reparented_loop_spec fuel root_pid deadline count w l0 :
  0 ≤ count → deadline - time w ≤ Z.of_nat fuel * SWEEP_POLL →
  ∃ w' n l', reparented_loop me my_sid roots (S fuel) root_pid deadline count w = Some (w', n)
    ∧ rtc (sweep_step (may_reap root_pid)) (w, l0) (w', l') ∧ count ≤ n.
Proof.
  revert count w l0. induction fuel as [|fuel IH]; intros count w l0 Hc Hf.
  - change (reparented_loop _ _ _ 1 _ _ _ _)
      with (reparented_round me my_sid roots (λ _ _, None) root_pid deadline count w).
    destruct (reparented_round_spec (λ _ _, None) root_pid deadline count w l0 Hc)
      as [?|(wb & c & l & _ & _ & _ & ?)]; [done|lia].
  - change (reparented_loop _ _ _ (S (S fuel)) _ _ _ _)
      with (reparented_round me my_sid roots (reparented_loop me my_sid roots (S fuel) root_pid deadline)
              root_pid deadline count w).
    destruct (reparented_round_spec (reparented_loop me my_sid roots (S fuel) root_pid deadline)
      root_pid deadline count w l0 Hc) as [?|(wb & c & l & -> & Hr & Hcc & Ht)]; [done|].
    pose proof (pause_lasts SWEEP_POLL wb).
    destruct (IH c (pause SWEEP_POLL wb) l) as (w' & n & l' & Hl & Hr' & Hn);
      [lia|unfold SWEEP_POLL, ms in *; lia|].
    exists w', n, l'. split_and!; [exact Hl| |lia]. etransitivity; [exact Hr|].
    eapply rtc_l; [apply step_pause|exact Hr'].
Qed.

(** The orphan sweep always returns when its deadline is in reach of the
    fuel.  It signals only children of this process that left its session or
    sit in the root's process group, each bound by [pidfd_open] where the
    kernel has it and seen by the last scan; never the root or the root of a
    concurrent session. *)
Theorem sweep_reparented_spec fuel deadline_ms root_pid w :
  ms deadline_ms ≤ Z.of_nat fuel * SWEEP_POLL →
  ∃ w' n l',
    sweep_reparented me my_sid roots (S fuel) deadline_ms root_pid w = Some (w', n)
    ∧ rtc (sweep_step (may_reap root_pid)) (w, None) (w', l') ∧ 0 ≤ n
    ∧ (root_pid ≤ 0 → n = 0).
Proof.
  intros Hf. unfold sweep_reparented. destruct (Z.leb_spec root_pid 0).
  { by exists w, 0, None. }
  pose proof (clock_later w) as H1. pose proof (clock_reads w) as H2.
  pose proof (step_clock (may_reap root_pid) w None) as Ht.
  destruct (clock w) as [w1 t]; simpl in H1, H2, Ht. subst t.
  destruct (reparented_loop_spec fuel root_pid (time w1 + ms deadline_ms) 0 w1 None)
    as (w' & n & l' & Hl & Hr & Hn); [done|lia|].
  exists w', n, l'. split_and!; [exact Hl|by eapply rtc_l|done|lia].
Qed.
End SweepFacts.

(** ** A concrete host *)

(** A process ignores signals while its count is positive. *)
Record DemoProc : Type := mk_demo { demo_entry : ProcEntry; demo_stubborn : Z }.
Record DemoHost : Type := mk_demo_host { demo_procs : list (Z * DemoProc); demo_time : Z }.

Definition demo_kill (pid : Z) (w : DemoHost) : DemoHost :=
  mk_demo_host (omap (λ kv, if kv.1 =? pid then
      if demo_stubborn kv.2 <=? 0 then None
      else Some (kv.1, mk_demo (demo_entry kv.2) (demo_stubborn kv.2 - 1)) else Some kv)
    (demo_procs w)) (demo_time w).

#[export] Instance demo_host : SweepHost DemoHost := {|
  child_subreaper w := (w, true);
  scan_proc w := (w, Some (demo_entry ∘ snd <$> demo_procs w));
  root_status _ w := (w, None);
  sigkill pid w := (demo_kill pid w, true);
  pidfd_open pid w := (w, Some pid);
  pidfd_kill fd w := (demo_kill fd w, true);
  reap _ w := w;
  clock w := (w, demo_time w);
  pause d w := mk_demo_host (demo_procs w) (demo_time w + d);
|}.

#[export] Instance demo_host_laws : SweepLaws DemoHost demo_time.
Proof. split; intros; simpl; lia. Qed.

Definition demo_process (pid ppid sid pgid : Z) (env : string) : ProcEntry :=
  mk_entry (Some (to_dec pid))
    (Some ("Name:" +:+ ch1 9 +:+ "x" +:+ ch1 10 +:+ "State:" +:+ ch1 9 +:+ "S" +:+ ch1 10
           +:+ "PPid:" +:+ ch1 9 +:+ to_dec ppid +:+ ch1 10 +:+ "Uid:" +:+ ch1 9 +:+ "1000 1000"))
    (Env env) None true (Some sid) pgid.
(** An escaper that survives two signals, the root, and a concurrent session. *)
Definition demo_world : DemoHost :=
  mk_demo_host
    [(41, mk_demo (demo_process 41 7 41 41 "A=1 VETTO_RUN_NONCE=beef") 2);
     (40, mk_demo (demo_process 40 7 5 40 "VETTO_RUN_NONCE=beef") 0);
     (50, mk_demo (demo_process 50 7 50 50 EmptyString) 0)] 0.

Lemma sweep_by_nonce_spec_witness :
  match sweep_tree_by_nonce 7 1000 (Some 5) {[50]} 51 "beef" 40 demo_world with
  | Some (_, o) => (length (residual o) ≤ 8)%nat ∧ clean o = true
  | None => False
  end.
Proof.
  destruct (sweep_by_nonce_spec 7 1000 (Some 5) {[50]} 50 "beef" 40 demo_world)
    as (w' & o & l' & E & _ & Hlen & _); [vm_compute; discriminate|].
  rewrite E. split; [exact Hlen|]. vm_compute in E. by injection E as _ <-.
Defined.

Lemma sweep_reparented_spec_witness :
  match sweep_reparented 7 (Some 5) {[50]} 51 500 40 demo_world with
  | Some (w, n) => 0 ≤ n ∧ n = 3
  | None => False
  end.
Proof.
  destruct (sweep_reparented_spec 7 (Some 5) {[50]} 50 500 40 demo_world)
    as (w' & n & l' & E & _ & Hn & _); [vm_compute; discriminate|].
  rewrite E. split; [exact Hn|]. vm_compute in E. by injection E as _ <-.
Defined.
