(* ===== verification/Lifecycle.v ===== *)
(** * Lifecycle: preparing and spawning a production session (Linux)

    Model of the first half of [src/src/sandbox/production/lifecycle.rs]
    ([build_production_env], [freeze_production_contract], [prepare], [spawn]),
    of [src/src/sandbox/production/context.rs] and [error.rs], and of the
    spawn-facing side of [Backend] in [src/src/sandbox/mod.rs] with the tier
    choice of [src/src/sandbox/linux/mod.rs].  The capability backend is any
    [SandboxBackend]; the object that forks the child is the class [Mechanics].
    Host observations, the clock, the nonce and hashing are arguments. *)

From S2P Require Import Prelude Paths PolicyTypes EnvFilter Capability Proctrack Contract.
From S2P Require Import Compiler Fsm.

(** ** Errors ([error.rs]) *)

Inductive ProductionError : Type :=
| TimedOut (after : Z)
| ContractDigestMismatch
| InvalidState (expected actual : ExecutionState)
| ContractDrift (msg : string)
| PreparationFailed (msg : string)
| SpawnFailed (msg : string)
| ExtinctionBreached (reason : string) (elapsed_ms : Z)
| EvidenceDisrupted (msg : string)
| AuditLedgerTampered (ledger : path)
| DrainFailure (msg : string)
| SignalError (msg : string).

Definition production_exit_code (e : ProductionError) : Z :=
  match e with TimedOut _ => 124 | _ => 125 end.

(** [Display] of [CompilerError]. *)
Definition compiler_error_text (e : CompilerError) : string :=
  match e with
  | PathCanonicalizationFailed m => "Path canonicalization failed: " +:+ m
  | ConflictingPermissions m => "Conflicting permissions: " +:+ m
  | UnsupportedCapability m => "Unsupported capability: " +:+ m
  | MissingMandatoryField m => "Missing mandatory field: " +:+ m
  end.

Definition map_err {E F A} (f : E → F) (r : result E A) : result F A :=
  match r with Ok a => Ok a | Err e => Err (f e) end.

(** ** Session context ([context.rs]) *)

Record SessionExecutionMetrics : Type := mk_metrics { backend_entered : Z; spawn_count : Z }.
Record SessionSignalState : Type := mk_signals {
  target_pid : Z; sigint_count : Z; term_requested : bool; win_resized : bool;
}.
Record SessionEvidenceState : Type := mk_evidence {
  channel_intact : bool; ev_overflows : Z; ev_drops : Z; blocked_syscalls : Z;
}.
Record ProductionSessionContext : Type := mk_context {
  session_id : string;
  metrics : SessionExecutionMetrics;
  signals : SessionSignalState;
  evidence : SessionEvidenceState;
}.

Definition context_new (session : string) : ProductionSessionContext :=
  mk_context session (mk_metrics 0 0) (mk_signals 0 0 false false) (mk_evidence true 0 0 0).
(** [fetch_add] on an [AtomicU64] wraps. *)
Definition record_backend_entered (c : ProductionSessionContext) : ProductionSessionContext :=
  mk_context (session_id c)
    (mk_metrics (wrap 64 (backend_entered (metrics c) + 1)) (spawn_count (metrics c)))
    (signals c) (evidence c).
Definition record_spawn (c : ProductionSessionContext) : ProductionSessionContext :=
  mk_context (session_id c)
    (mk_metrics (backend_entered (metrics c)) (wrap 64 (spawn_count (metrics c) + 1)))
    (signals c) (evidence c).
Definition store_target_pid (pid : Z) (c : ProductionSessionContext) : ProductionSessionContext :=
  mk_context (session_id c) (metrics c)
    (mk_signals pid (sigint_count (signals c)) (term_requested (signals c))
       (win_resized (signals c))) (evidence c).

(** ** State shared by the sessions of a process *)

Record ProcessGlobals : Type := mk_globals {
  active_roots : gset Z;
  evidence_channel_intact : bool;
  buffer_overflow_count : Z;
  packet_drop_count : Z;
}.
Definition mark_evidence_channel_disrupted (g : ProcessGlobals) : ProcessGlobals :=
  mk_globals (active_roots g) false (buffer_overflow_count g) (packet_drop_count g).
Definition reset_evidence_channel (g : ProcessGlobals) : ProcessGlobals :=
  mk_globals (active_roots g) true 0 0.
Definition add_root (pid : Z) (g : ProcessGlobals) : ProcessGlobals :=
  mk_globals (register_active_root pid (active_roots g)) (evidence_channel_intact g)
    (buffer_overflow_count g) (packet_drop_count g).

(** ** The spawning object *)

Inductive StdioMode : Type := Pty (slave_fd : Z) | Captured (stdout_w stderr_w : Z) | Inherit.

Record SpawnOptions : Type := mk_spawn_options {
  agent_cmd : list string;
  spawn_cwd : path;
  spawn_env : gmap string string;
  spawn_stdio : StdioMode;
}.

Inductive KillStrategy : Type :=
| PidNsPipe (fd : Z)
| ProcessGroup (pid pgid : Z) (sweep : bool).

(** The handle without its control group, pidfd and copied options. *)
Record SandboxHandle : Type := mk_handle { root_pid : Z; strategy : option KillStrategy }.

Record Spawned : Type := mk_spawned {
  handle : SandboxHandle;
  broker_ctrl_fd : option Z;
  relay_port : option Z;
  notif_listener : option Z;
}.

Class Mechanics (M : Type) : Type := {
  mech_tier : M → option Tier;
  mech_net_label : M → string;
  observes_seccomp : M → bool;
  describe : M → string;
  mech_spawn : M → Policy → SpawnOptions → result string Spawned;
}.

(** *** Linux ([sandbox/mod.rs], [linux/mod.rs]) *)

Record Probe : Type := mk_probe {
  kernel : string;
  landlock_abi : option Z;
  userns_available : bool;
  full_tier_available : bool;
  seccomp_filter_available : bool;
  seccomp_notify_available : bool;
  audit_feed_readable : bool;
  cgroup_controllers : list string;
}.

(** [force_tier] is the override [pick_tier] reads from the environment. *)
Definition forced_tier (force_tier : option string) (p : Probe) : option Tier :=
  match force_tier with
  | Some f =>
      if String.eqb f "seccomp" && seccomp_filter_available p then Some Seccomp
      else if String.eqb f "fs-only" && seccomp_filter_available p then Some FsOnly
      else if String.eqb f "full" && full_tier_available p then Some Full
      else None
  | None => None
  end.

(** The override of a release build: honoured when one of two other variables
    is set. *)
Definition release_override (perf_out allow_force force_tier : option string) : option string :=
  if bool_decide (is_Some perf_out) || bool_decide (is_Some allow_force) then force_tier else None.

Definition doctor_hint : string := "; run `vetto doctor` for the full capability picture".

Definition pick_tier (force_tier : option string) (p : Probe) : result string Tier :=
  match forced_tier force_tier p with
  | Some t => Ok t
  | None =>
      match landlock_abi p with
      | None =>
          Err ("Landlock LSM is required for Linux execution (kernel 5.13+). Fail-closed exit 125."
               +:+ ch1 10 +:+ "action: upgrade your kernel (Linux 5.13+) or enable "
               +:+ "CONFIG_SECURITY_LANDLOCK=y" +:+ doctor_hint)
      | Some _ =>
          if full_tier_available p then Ok Full
          else if seccomp_filter_available p then Ok FsOnly
          else Err ("no enforcement tier possible: unprivileged user namespaces and seccomp filters"
                    +:+ " are unavailable; refusing to run unsandboxed (fail-closed)" +:+ ch1 10
                    +:+ "action: enable unprivileged user namespaces "
                    +:+ "(`sysctl -w kernel.unprivileged_userns_clone=1` or "
                    +:+ "`sysctl -w user.max_user_namespaces=15000`)" +:+ doctor_hint)
      end
  end.

Record LinuxSandbox : Type := mk_linux_sandbox {
  probe : Probe;
  sandbox_tier : Tier;
  sandbox_net : NetMode;
  observe_seccomp_flag : bool;
}.

(** [Backend::detect_with_backend] on Linux. *)
Definition detect_with_backend (force_tier : option string) (p : Probe) (net : NetMode)
    (observe : bool) (backend_name : option string) : result string LinuxSandbox :=
  match backend_name with
  | Some name =>
      if String.eqb name "auto" || String.eqb name "default" || String.eqb name "process"
      then t ← pick_tier force_tier p; Ok (mk_linux_sandbox p t net observe)
      else Err ("unknown backend '" +:+ name +:+ "'; valid backends: auto, process" +:+ ch1 10
                +:+ "action: select a valid backend or omit the flag" +:+ doctor_hint)
  | None => t ← pick_tier force_tier p; Ok (mk_linux_sandbox p t net observe)
  end.

Definition opt_debug (o : option Z) : string :=
  match o with Some n => "Some(" +:+ to_dec n +:+ ")" | None => "None" end.
Definition describe_linux (s : LinuxSandbox) : string :=
  "linux tier=" +:+ tier_label (sandbox_tier s) +:+ " (landlock ABI "
  +:+ opt_debug (landlock_abi (probe s)) +:+ ", userns=" +:+ display_bool (userns_available (probe s))
  +:+ ", full-stack=" +:+ display_bool (full_tier_available (probe s))
  +:+ ", seccomp-notify=" +:+ display_bool (seccomp_notify_available (probe s))
  +:+ ", audit-feed=" +:+ display_bool (audit_feed_readable (probe s)) +:+ ")".

Section LinuxMechanics.
(** [spawn_full], [spawn_fs_only] and [spawn_seccomp_only]: clone, mounts and
    system-call filters. *)
Variable spawn_tier : Tier → Policy → SpawnOptions → bool → option Z → result string Spawned.

Definition RELAY_PORT_BASE : Z := 47129.
Definition linux_spawn (s : LinuxSandbox) (p : Policy) (opts : SpawnOptions) :
  result string Spawned :=
  match sandbox_tier s with
  | FsOnly | Seccomp =>
      if uses_relay (sandbox_net s)
      then Err ("--net relay modes require Tier FULL (missing unprivileged user namespaces); "
                +:+ "refusing to run (fail-closed)" +:+ ch1 10
                +:+ "action: enable unprivileged userns "
                +:+ "(`sysctl -w kernel.unprivileged_userns_clone=1`) or re-run with `--net=off`"
                +:+ doctor_hint)
      else spawn_tier (sandbox_tier s) p opts (observe_seccomp_flag s) None
  | Full =>
      spawn_tier Full p opts (observe_seccomp_flag s)
        (if uses_relay (sandbox_net s) then Some RELAY_PORT_BASE else None)
  end.

Definition linux_mechanics : Mechanics LinuxSandbox := {|
  mech_tier s := Some (sandbox_tier s);
  mech_net_label s := net_label (sandbox_net s);
  observes_seccomp := observe_seccomp_flag;
  describe := describe_linux;
  mech_spawn := linux_spawn;
|}.
End LinuxMechanics.

(** ** Production inputs *)

Definition PROD_SCENARIO_ID : string := "PROD".
Definition PROD_NONCE_ENV : string := "VETTO_PROD_NONCE".
Definition RUN_NONCE_ENV : string := "VETTO_RUN_NONCE".
Definition PROD_REGISTRY : string := "production".

Definition tier_or_none (t : option Tier) : string :=
  match t with Some t => tier_label t | None => "none" end.

(** One variable of [std::env::vars()], then one of [env_extra]. *)
Definition inherit_var (p : Policy) (out : gmap string string)
    (kv : string * string) : gmap string string :=
  let '(k, v) := kv in
  if negb (passable k v) then out
  else if negb (env_allows (environment p) k) then out
  else if eq_ignore_ascii_case k "PATH" then <[k := sanitize_path v]> out
  else <[k := v]> out.
Definition extra_var (to_uppercase : string → string) (p : Policy) (out : gmap string string)
    (kv : string * string) : gmap string string :=
  let '(k, v) := kv in
  if negb (passable k v) then out
  else if is_hard_denied to_uppercase k && negb (env_allows (environment p) k) then out
  else <[k := v]> out.

Definition build_production_env (to_uppercase : string → string) (vars : list (string * string))
    (p : Policy) (env_extra : gmap string string) : gmap string string :=
  let out := fold_left (inherit_var p) vars ∅ in
  let out := fold_left (extra_var to_uppercase p) (map_to_list env_extra) out in
  fold_left (λ out proxy, delete proxy out) (secret_proxies p) out.

Record FrozenProductionInputs : Type := mk_frozen_inputs {
  fi_argv : list string;
  fi_cwd : path;
  fi_env : gmap string string;
  fi_tier : option Tier;
  fi_net_label : string;
  stdio_captured : bool;
}.

Record UnpreparedProductionExecution (M : Type) : Type := mk_unprepared {
  u_context : ProductionSessionContext;
  u_mechanics : M;
  u_policy : Policy;
  u_argv : list string;
  u_cwd : path;
  u_env_extra : gmap string string;
  u_net : NetMode;
  u_tier : option Tier;
  u_timeout : option Z;
  u_stdio : StdioMode;
  u_scenario : string;
  u_debug_ports : option DebugPortConfig;
}.
Arguments mk_unprepared {M}.
Arguments u_context {M}. Arguments u_mechanics {M}. Arguments u_policy {M}.
Arguments u_argv {M}. Arguments u_cwd {M}. Arguments u_env_extra {M}. Arguments u_net {M}.
Arguments u_tier {M}. Arguments u_timeout {M}. Arguments u_stdio {M}. Arguments u_scenario {M}.
Arguments u_debug_ports {M}.

Record PreparedProductionExecution (M B : Type) : Type := mk_prepared {
  p_context : ProductionSessionContext;
  p_mechanics : M;
  p_contract : SecurityContract;
  p_canonical : CanonicalPolicy;
  p_argv : list string;
  p_cwd : path;
  p_env : gmap string string;
  p_net : NetMode;
  p_tier : option Tier;
  p_timeout : option Z;
  p_stdio : StdioMode;
  p_scenario : string;
  p_nonce : string;
  p_identity : ExecutionIdentity;
  p_fsm : ExecutionStateMachine;
  p_capability : B;
}.
Arguments mk_prepared {M B}.
Arguments p_context {M B}. Arguments p_mechanics {M B}. Arguments p_contract {M B}.
Arguments p_canonical {M B}. Arguments p_argv {M B}. Arguments p_cwd {M B}. Arguments p_env {M B}.
Arguments p_net {M B}. Arguments p_tier {M B}. Arguments p_timeout {M B}. Arguments p_stdio {M B}.
Arguments p_scenario {M B}. Arguments p_nonce {M B}. Arguments p_identity {M B}.
Arguments p_fsm {M B}. Arguments p_capability {M B}.

Record SpawnedProductionExecution (B : Type) : Type := mk_running {
  s_context : ProductionSessionContext;
  s_contract : SecurityContract;
  s_handle : SandboxHandle;
  s_broker_ctrl_fd : option Z;
  s_relay_port : option Z;
  s_notif_listener : option Z;
  s_pid : Z;
  s_nonce : string;
  s_identity : ExecutionIdentity;
  s_exec_root : path;
  s_scenario : string;
  s_timeout : option Z;
  s_capability : B;
  s_fsm : ExecutionStateMachine;
}.
Arguments mk_running {B}.
Arguments s_context {B}. Arguments s_contract {B}. Arguments s_handle {B}.
Arguments s_broker_ctrl_fd {B}. Arguments s_relay_port {B}. Arguments s_notif_listener {B}.
Arguments s_pid {B}. Arguments s_nonce {B}. Arguments s_identity {B}. Arguments s_exec_root {B}.
Arguments s_scenario {B}. Arguments s_timeout {B}. Arguments s_capability {B}. Arguments s_fsm {B}.

(** What the host shows of the child: the rounds of [verify_child_host] and the
    text of its limits. *)
Record HostView : Type := mk_view {
  view_rounds : list HostRound;
  limits_body : option string;
}.

(** The resource-limit rows added to the observations. *)
Definition with_limit_rows (lim : ResourceLimits) (body : option string) (v : HostVerification) :
  HostVerification :=
  match body with
  | None => v
  | Some body =>
      let expect row o := match o with Some x => limits_field_is body row x | None => false end in
      mk_host (seccomp_filter v) (no_new_privs v) (pgroup_separate v)
        (expect "Max address space" (address_space_bytes lim))
        (expect "Max processes" (processes lim)) (expect "Max cpu time" (cpu_seconds lim))
        (expect "Max file size" (file_size_bytes lim)) (subreaper_ok v) (win_in_job v)
        (win_kill_on_close v) (win_low_integrity v) (win_job_ceiling v) (cgroup_memory_ok v)
        (cgroup_pids_ok v) (cgroup_cpu_ok v) (netns_isolated v)
  end.

Definition observe_child (pid : Z) (lim : ResourceLimits) (v : HostView) : HostVerification :=
  with_limit_rows lim (limits_body v) (verify_child_host pid (view_rounds v)).

Section Lifecycle.
Context `{C : ContractCodec} {B M : Type} `{HB : SandboxBackend B} `{HM : Mechanics M}.
(** File system, home and version of the policy compiler. *)
Variable exists_ : path → bool.
Variable canonicalize : path → option path.
Variable home_dir : option path.
Variable crate_version : string.
(** SHA-256, the JSON of a frozen specification and of a contract with its digest. *)
Variable sha256_text : string → list Z.
Variable frozen_json : FrozenSpec → string.
Variable contract_json : SecurityContract → result string string.
Variable to_uppercase : string → string.
(** The clock at the transition into a state; a session enters a state once. *)
Variable clock_at : ExecutionState → instant.

(** [fsm.transition(next)] with its error mapped to [InvalidState]. *)
Definition advance (next : ExecutionState) (m : ExecutionStateMachine) :
  result ProductionError ExecutionStateMachine :=
  match transition (clock_at next) m next with
  | (m, Ok _) => Ok m
  | (m, Err _) => Err (InvalidState next (current_state m))
  end.

Definition set_policy_bytes (s : FrozenSpec) (bytes : string) : FrozenSpec :=
  mk_frozen (fz_scenario_id s) (fz_registry_hash s) (fz_tier s) (fz_net_mode s) (fz_backend s)
    (fz_argv s) (fz_env s) (fz_cwd s) (fz_allow_read s) (fz_allow_write s) (fz_deny_read s)
    (fz_deny_write s) (fz_deny_resolved s) (fz_nonce s) bytes.

(** The command line and the compiler input a contract stands for. *)
Definition contract_argv (c : SecurityContract) : list string :=
  to_str (invoked_binary (agent_identity c)) :: invoked_args (agent_identity c).
Definition projection (c : SecurityContract) (p : ProductionContract) : EffectivePolicyInput :=
  mk_input (installation_policy p) (contract_argv c) (workspace_root (filesystem c))
    (explicit_vars (c_environment c)) (prod_net p) (Contract.session_nonce c) (prod_timeout p)
    (prod_tier p) (prod_backend p) (prod_observe_seccomp p) (prod_debug_ports p).

Definition freeze_production_contract (scenario : string) (c : SecurityContract)
    (tier backend : string) : result ProductionError (CanonicalPolicy * ExecutionIdentity) :=
  if negb (verify_digest c) then Err ContractDigestMismatch
  else
    p ← ok_or (production c) (ContractDrift "missing production installation contract");
    if negb (String.eqb (prod_backend p) backend)
       || negb (String.eqb (tier_or_none (prod_tier p)) tier)
    then Err (ContractDrift "production contract/backend mismatch")
    else
      expected ← map_err (λ e, PreparationFailed (compiler_error_text e))
        (compile_effective exists_ canonicalize home_dir crate_version (projection c p));
      if bool_decide (expected ≠ c)
      then Err (ContractDrift "inconsistent production contract projection")
      else
        let spec := freeze_spec scenario PROD_REGISTRY (installation_policy p) tier (prod_net p)
          backend (contract_argv c) (explicit_vars (c_environment c))
          (workspace_root (filesystem c)) (Contract.session_nonce c) in
        bytes ← map_err PreparationFailed (contract_json c);
        let spec := set_policy_bytes spec bytes in
        Ok (from_frozen sha256_text frozen_json spec,
            identity_new scenario (Contract.session_nonce c) PROD_REGISTRY
              (frozen_hash sha256_text frozen_json spec)).

Definition prepare_production_contract (scenario : string) (c : SecurityContract)
    (tier backend : string) (cap : B) :
  B * result ProductionError (CanonicalPolicy * ExecutionIdentity) :=
  match freeze_production_contract scenario c tier backend with
  | Err e => (cap, Err e)
  | Ok (canonical, identity) =>
      let '(cap, _) := prepare canonical identity cap in
      let prepared_ok := match enforcement cap with
                         | Some r => preparation_ok r && binds_identity r identity
                         | None => false
                         end in
      (cap, if negb prepared_ok
            then Err (PreparationFailed ("production backend preparation failed (fail-closed, "
                                         +:+ "no agent execution)"))
            else Ok (canonical, identity))
  end.

(** [UnpreparedProductionExecution::new]. *)
Definition unprepared_new (mech : M) (p : Policy) (argv : list string) (cwd : path)
    (env_extra : gmap string string) (net : NetMode) (timeout : option Z) (stdio : StdioMode)
    (scenario : string) : UnpreparedProductionExecution M :=
  mk_unprepared (context_new scenario) mech p argv cwd env_extra net (mech_tier mech) timeout
    stdio scenario None.

Definition relay_needs_full (u : UnpreparedProductionExecution M) : bool :=
  uses_relay (u_net u)
  && match mech_tier (u_mechanics u) with Some FsOnly | Some Seccomp => true | _ => false end.

Definition production_env (vars : list (string * string)) (nonce : string)
    (u : UnpreparedProductionExecution M) : gmap string string :=
  build_production_env to_uppercase vars (u_policy u)
    (<[RUN_NONCE_ENV := nonce]> (<[PROD_NONCE_ENV := nonce]> (u_env_extra u))).

Definition effective_input (vars : list (string * string)) (nonce : string)
    (u : UnpreparedProductionExecution M) : EffectivePolicyInput :=
  mk_input (u_policy u) (u_argv u) (u_cwd u) (production_env vars nonce u) (u_net u) nonce
    (u_timeout u) (u_tier u) (describe (u_mechanics u)) (observes_seccomp (u_mechanics u))
    (u_debug_ports u).

(** From the compiled contract on; [vars] is the process environment and [nonce]
    the fresh nonce.  The returned execution holds the placeholder backend. *)
Definition seal_and_prepare (vars : list (string * string)) (nonce : string)
    (u : UnpreparedProductionExecution M) (ctx : ProductionSessionContext) (cap : B) :
  result ProductionError (B * PreparedProductionExecution M DirectBackend) :=
  c ← map_err (λ e, PreparationFailed (compiler_error_text e))
    (compile_effective exists_ canonicalize home_dir crate_version
       (effective_input vars nonce u));
  m ← advance PolicyCompiled (new (clock_at Intent));
  if negb (verify_digest c) then Err ContractDigestMismatch
  else
    m ← advance ContractSealed m;
    match prepare_production_contract (u_scenario u) c (tier_or_none (u_tier u))
            (describe (u_mechanics u)) cap with
    | (_, Err e) => Err e
    | (cap, Ok (canonical, identity)) =>
        m ← advance Fsm.Prepare m;
        Ok (cap, mk_prepared ctx (u_mechanics u) c canonical (u_argv u) (u_cwd u)
                   (production_env vars nonce u) (u_net u) (u_tier u) (u_timeout u) (u_stdio u)
                   (u_scenario u) nonce identity m (@fresh DirectBackend _))
    end.

Definition prepare_with_backend_inner (vars : list (string * string)) (nonce : string)
    (u : UnpreparedProductionExecution M) (cap : B) :
  ProductionSessionContext
  * result ProductionError (B * PreparedProductionExecution M DirectBackend) :=
  let ctx := record_backend_entered (u_context u) in
  (ctx,
   match u_argv u with
   | [] => Err (PreparationFailed "no production command provided")
   | _ =>
       if relay_needs_full u
       then Err (PreparationFailed "network relay modes require Tier FULL; refusing to run (fail-closed)")
       else seal_and_prepare vars nonce u ctx cap
   end).

Definition with_capability (p : PreparedProductionExecution M DirectBackend) (cap : B) :
  PreparedProductionExecution M B :=
  mk_prepared (p_context p) (p_mechanics p) (p_contract p) (p_canonical p) (p_argv p) (p_cwd p)
    (p_env p) (p_net p) (p_tier p) (p_timeout p) (p_stdio p) (p_scenario p) (p_nonce p)
    (p_identity p) (p_fsm p) cap.

Definition prepare_with_backend (vars : list (string * string)) (nonce : string)
    (u : UnpreparedProductionExecution M) (cap : B) :
  ProductionSessionContext * result ProductionError (PreparedProductionExecution M B) :=
  let '(ctx, r) := prepare_with_backend_inner vars nonce u cap in
  (ctx, '(cap, p) ← r; Ok (with_capability p (restrict_tier (u_tier u) cap))).

(** [prepare]: with the fresh backend of the platform. *)
Definition prepare_session (vars : list (string * string)) (nonce : string)
    (u : UnpreparedProductionExecution M) :
  ProductionSessionContext * result ProductionError (PreparedProductionExecution M B) :=
  prepare_with_backend vars nonce u fresh.

Definition frozen_inputs (p : PreparedProductionExecution M B) : FrozenProductionInputs :=
  mk_frozen_inputs (p_argv p) (p_cwd p) (p_env p) (p_tier p) (net_label (p_net p))
    (match p_stdio p with Inherit => false | _ => true end).

(** The comparison of the frozen with the runtime inputs. *)
Definition drifted (canonical : CanonicalPolicy) (identity : ExecutionIdentity)
    (prod : ProductionContract) (p : PreparedProductionExecution M B) : bool :=
  bool_decide (canonical ≠ p_canonical p)
  || negb (String.eqb (id_frozen_hash identity) (id_frozen_hash (p_identity p)))
  || bool_decide (cp_argv canonical ≠ p_argv p)
  || bool_decide (cp_cwd canonical ≠ p_cwd p)
  || bool_decide (cp_env canonical ≠ p_env p)
  || bool_decide (prod_net prod ≠ p_net p)
  || bool_decide (prod_timeout prod ≠ p_timeout p)
  || bool_decide (prod_tier prod ≠ p_tier p)
  || negb (Bool.eqb (prod_observe_seccomp prod) (observes_seccomp (p_mechanics p))).

(** The checks against the capability backend's plan. *)
Definition plan_drift (net : NetMode) (plan : option ChildEnforcementPlan) :
  result ProductionError unit :=
  match plan with
  | None => Ok tt
  | Some plan =>
      if negb (Bool.eqb (net_deny plan) (bool_decide (net = NetOff)))
      then Err (ContractDrift "production plan/net drift (fail-closed, no agent execution)")
      else if negb (new_pgroup plan)
      then Err (ContractDrift "production plan lost process-group containment (fail-closed)")
      else Ok tt
  end.

(** Everything [spawn] verifies before it forks; the production part of the
    contract on success. *)
Definition verify_frozen (p : PreparedProductionExecution M B) :
  result ProductionError ProductionContract :=
  if bool_decide (current_state (p_fsm p) ≠ Fsm.Prepare)
  then Err (InvalidState Fsm.Prepare (current_state (p_fsm p)))
  else
    '(canonical, identity) ← freeze_production_contract (p_scenario p) (p_contract p)
      (tier_or_none (p_tier p)) (describe (p_mechanics p));
    prod ← ok_or (production (p_contract p))
      (ContractDrift "missing production installation contract");
    if drifted canonical identity prod p
    then Err (ContractDrift
           "production contract/frozen input drift (fail-closed, no agent execution)")
    else if negb (String.eqb (mech_net_label (p_mechanics p)) (net_label (p_net p)))
    then Err (ContractDrift "production net drift (fail-closed, no agent execution)")
    else _ ← plan_drift (p_net p) (pre_exec_plan (p_capability p)); Ok prod.

Definition spawn_options (p : PreparedProductionExecution M B) : SpawnOptions :=
  mk_spawn_options (p_argv p) (p_cwd p) (p_env p) (p_stdio p).

(** After the fork: register the child and hand the observations to the
    capability backend. *)
Definition after_fork (view : Z → HostView) (prod : ProductionContract) (child : Spawned)
    (p : PreparedProductionExecution M B) (g : ProcessGlobals) (m : ExecutionStateMachine) :
  ProcessGlobals * ProductionSessionContext
  * result ProductionError (SpawnedProductionExecution B) :=
  let pid := root_pid (handle child) in
  let ctx := store_target_pid pid (record_spawn (p_context p)) in
  let cap := note_spawned pid (p_capability p) in
  let cap := note_host_verified
    (observe_child pid (limits (installation_policy prod)) (view pid)) cap in
  (add_root pid g, ctx,
   m ← advance Observe m;
   Ok (mk_running ctx (p_contract p) (handle child) (broker_ctrl_fd child) (relay_port child)
         (notif_listener child) pid (p_nonce p) (p_identity p) (p_cwd p) (p_scenario p)
         (p_timeout p) cap m)).

(** [view] is what the host will show of the child with a given pid. *)
Definition spawn (view : Z → HostView) (g : ProcessGlobals)
    (p : PreparedProductionExecution M B) :
  ProcessGlobals * ProductionSessionContext
  * result ProductionError (SpawnedProductionExecution B) :=
  match verify_frozen p with
  | Err e => (g, p_context p, Err e)
  | Ok prod =>
      let g := reset_evidence_channel g in
      match advance Spawn (p_fsm p) with
      | Err e => (g, p_context p, Err e)
      | Ok m =>
          match mech_spawn (p_mechanics p) (installation_policy prod) (spawn_options p) with
          | Err e => (g, p_context p, Err (SpawnFailed e))
          | Ok child =>
              match advance Enforce m with
              | Err e => (g, p_context p, Err e)
              | Ok m => after_fork view prod child p g m
              end
          end
      end
  end.

(** ** Lemmas *)

Lemma advance_Ok next m m' :
  advance next m = Ok m' →
  valid_transition (current_state m) next = true ∧ current_state m' = next
  ∧ visited m' = visited m ++ [next] ∧ surviving_descendants m' = surviving_descendants m.
Proof.
  unfold advance. destruct (transition (clock_at next) m next) as [m1 r] eqn:E.
  destruct r as [u|e]; [|done]. intros [= <-].
  apply transition_cases in E as [(_ & Hv & _ & ->)|(_ & reason & H)]; [|done].
  unfold visited. simpl. by rewrite fmap_app.
Qed.

(** A machine without a recorded extinction result takes every listed step. *)
Lemma advance_valid next m :
  surviving_descendants m = None → valid_transition (current_state m) next = true →
  advance next m = Ok (mk_fsm next (history m ++ [(next, clock_at next)]) None).
Proof.
  intros Hs Hv. unfold advance, transition. rewrite Hs, Hv. simpl.
  by destruct (is_yield next).
Qed.

(** What a frozen contract passed, and what the frozen policy says. *)
Lemma freeze_Ok scenario c tier backend canonical identity :
  freeze_production_contract scenario c tier backend = Ok (canonical, identity) →
  ∃ p, production c = Some p ∧ verify_digest c = true
    ∧ prod_backend p = backend ∧ tier_or_none (prod_tier p) = tier
    ∧ compile_effective exists_ canonicalize home_dir crate_version (projection c p) = Ok c
    ∧ cp_argv canonical = contract_argv c
    ∧ cp_cwd canonical = workspace_root (filesystem c)
    ∧ cp_env canonical = explicit_vars (c_environment c)
    ∧ cp_session_nonce canonical = Contract.session_nonce c
    ∧ cp_net_mode canonical = net_label (prod_net p)
    ∧ identity = identity_new scenario (Contract.session_nonce c) PROD_REGISTRY
                   (cp_frozen_hash canonical).
Proof.
  unfold freeze_production_contract. destruct (verify_digest c) eqn:Ed; [|done].
  destruct (production c) as [p|] eqn:Ep; [|done]. cbn [negb ok_or mbind result_bind].
  destruct (String.eqb_spec (prod_backend p) backend) as [<-|]; [|done].
  destruct (String.eqb_spec (tier_or_none (prod_tier p)) tier) as [<-|]; [|done].
  cbn [negb orb]. destruct (compile_effective _ _ _ _ _) as [c'|] eqn:Ec; [|done].
  cbn [map_err mbind result_bind]. case_bool_decide as Hc; [done|].
  subst c'. destruct (contract_json c) as [bytes|]; [|done].
  cbn [map_err mbind result_bind]. intros [= <- <-]. exists p. by split_and!.
Qed.

(** The runtime inputs are those of the sealed contract [c]. *)
Definition sealed_inputs (prod : ProductionContract) (p : PreparedProductionExecution M B) : Prop :=
  let c := p_contract p in
  production c = Some prod ∧ verify_digest c = true
  ∧ compile_effective exists_ canonicalize home_dir crate_version (projection c prod) = Ok c
  ∧ p_argv p = contract_argv c ∧ p_cwd p = workspace_root (filesystem c)
  ∧ p_env p = explicit_vars (c_environment c)
  ∧ prod_net prod = p_net p ∧ prod_timeout prod = p_timeout p ∧ prod_tier prod = p_tier p
  ∧ prod_backend prod = describe (p_mechanics p)
  ∧ prod_observe_seccomp prod = observes_seccomp (p_mechanics p)
  ∧ mech_net_label (p_mechanics p) = net_label (p_net p)
  ∧ id_frozen_hash (p_identity p) = cp_frozen_hash (p_canonical p).

Lemma drifted_false canonical identity prod p :
  drifted canonical identity prod p = false →
  canonical = p_canonical p ∧ id_frozen_hash identity = id_frozen_hash (p_identity p)
  ∧ cp_argv canonical = p_argv p ∧ cp_cwd canonical = p_cwd p ∧ cp_env canonical = p_env p
  ∧ prod_net prod = p_net p ∧ prod_timeout prod = p_timeout p ∧ prod_tier prod = p_tier p
  ∧ prod_observe_seccomp prod = observes_seccomp (p_mechanics p).
Proof.
  unfold drifted. rewrite !orb_false_iff, !bool_decide_eq_false, !negb_false_iff.
  intros ((((((((? & ?) & ?) & ?) & ?) & ?) & ?) & ?) & ?).
  split_and!; first [by apply dec_stable|by apply String.eqb_eq|by apply eqb_prop].
Qed.

Lemma verify_frozen_Ok p prod :
  verify_frozen p = Ok prod →
  current_state (p_fsm p) = Fsm.Prepare ∧ sealed_inputs prod p
  ∧ plan_drift (p_net p) (pre_exec_plan (p_capability p)) = Ok tt.
Proof.
  unfold verify_frozen. case_bool_decide as Hst; [done|].
  destruct (freeze_production_contract _ _ _ _) as [[canonical identity]|] eqn:Ef; [|done].
  apply freeze_Ok in Ef
    as (prod' & Hp & Hd & Hb & _ & Hc & Ha & Hw & He & _ & _ & Hid). cbn [mbind result_bind].
  rewrite Hp. cbn [ok_or mbind result_bind].
  destruct (drifted canonical identity prod' p) eqn:Edr; [done|].
  apply drifted_false in Edr as (Hcan & Hfh & Eargv & Ecwd & Eenv & ? & ? & ? & ?).
  destruct (String.eqb_spec (mech_net_label (p_mechanics p)) (net_label (p_net p))); [|done].
  cbn [negb]. destruct (plan_drift _ _) as [[]|]; [|done]. cbn [mbind result_bind].
  intros [= <-]. split_and!; [done| |done]. unfold sealed_inputs. split_and!; try done.
  - by rewrite <-Eargv.
  - by rewrite <-Ecwd.
  - by rewrite <-Eenv.
  - by rewrite <-Hfh, Hid, <-Hcan.
Qed.

(** C3: Spawning runs exactly what was sealed, whatever happened to the
    prepared execution since: either it is refused with nothing forked and no
    shared state touched, or the contract still verifies, is what the policy
    compiler gives for its own projection, and command line, directory,
    environment, network mode, timeout, tier and backend are the contract's;
    the child that is then forked gets the contract's policy. *)
Theorem spawn_runs_sealed_contract view g p g' ctx r :
  spawn view g p = (g', ctx, r) →
  (g' = g ∧ ctx = p_context p ∧ is_err r = true)
  ∨ ∃ prod, sealed_inputs prod p
      ∧ match mech_spawn (p_mechanics p) (installation_policy prod) (spawn_options p) with
        | Err e => g' = reset_evidence_channel g ∧ ctx = p_context p ∧ r = Err (SpawnFailed e)
        | Ok child =>
            active_roots g' = register_active_root (root_pid (handle child)) (active_roots g)
            ∧ ∃ s, r = Ok s ∧ s_contract s = p_contract p ∧ s_handle s = handle child
                ∧ s_pid s = root_pid (handle child) ∧ s_nonce s = p_nonce p
                ∧ s_identity s = p_identity p ∧ current_state (s_fsm s) = Observe
                ∧ visited (s_fsm s) = visited (p_fsm p) ++ [Spawn; Enforce; Observe]
        end.
Proof.
  unfold spawn. destruct (verify_frozen p) as [prod|e] eqn:Ev; [|by intros [= <- <- <-]; left].
  apply verify_frozen_Ok in Ev as (Hst & Hsealed & _). intros H. right. exists prod. split; [done|].
  assert (∀ now m next, valid_transition (current_state m) next = true → is_yield next = false →
    transition now m next = (mk_fsm next (history m ++ [(next, now)]) (surviving_descendants m),
                             Ok tt)) as Ht.
  { intros now m next Hv Hy. unfold transition. by rewrite Hv, Hy. }
  unfold advance at 1 in H. rewrite Ht in H by (by rewrite ?Hst).
  destruct (mech_spawn _ _ _) as [child|e]; [|by injection H as <- <- <-].
  unfold advance at 1 in H. rewrite Ht in H by done. unfold after_fork in H.
  unfold advance at 1 in H. rewrite Ht in H by done. injection H as <- <- <-.
  split; [done|]. eexists. split; [done|]. split_and!; try done.
  unfold visited. simpl. rewrite !fmap_app. simpl. by rewrite <-!app_assoc.
Qed.

(** ** From inputs to a running child *)

(** What spawning needs of a capability backend: preparation succeeds and binds
    its identity, and its plan denies the network exactly in mode [off] and
    keeps the process group, whatever tier is restricted. *)
Class PreparingBackend : Prop := {
  prepare_binds canonical identity (b : B) :
    ∃ r, enforcement (prepare canonical identity b).1 = Some r
      ∧ preparation_ok r = true ∧ binds_identity r identity = true;
  plan_coherent canonical identity (b : B) t plan :
    pre_exec_plan (restrict_tier t (prepare canonical identity b).1) = Some plan →
    net_deny plan = String.eqb (cp_net_mode canonical) "off" ∧ new_pgroup plan = true;
}.

Lemma net_label_off n : String.eqb (net_label n) "off" = bool_decide (n = NetOff).
Proof. by destruct n. Qed.

Lemma seal_digest u c : seal u = Ok c → unsealed c = u → verify_digest c = true.
Proof.
  unfold seal, verify_digest. destruct (compute_digest u) as [d|] eqn:E; [|done].
  destruct (compute_sha256_digest u); [|done]. intros [= <-] ->. rewrite E. simpl.
  apply String.eqb_refl.
Qed.

(** A compiled contract projects back to its input. *)
Definition canonical_spelling (argv : list string) : Prop :=
  match argv with [] => True | a :: _ => to_str (components a) = a end.

Lemma compile_projection input c :
  compile_effective exists_ canonicalize home_dir crate_version input = Ok c →
  canonical_spelling (argv input) →
  ∃ p, production c = Some p ∧ projection c p = input ∧ verify_digest c = true.
Proof.
  intros H Hsp. unfold compile_effective in H. destruct (argv input) as [|a args] eqn:Ea; [done|].
  destruct (is_empty a || is_empty (nonce input)); [done|].
  destruct (check_traversal "Read" _) as [[]|]; [|done]. cbn [mbind result_bind] in H.
  destruct (check_traversal "Write" _) as [[]|]; [|done]. cbn [mbind result_bind] in H.
  destruct (effective_writes _ _ _ _ _) as [ws|]; [|done]. cbn [mbind result_bind] in H.
  destruct (check_pairs "secret mask" _ _ _) as [[]|]; [|done]. cbn [mbind result_bind] in H.
  destruct (check_pairs "explicit deny_write" _ _ _) as [[]|]; [|done].
  cbn [mbind result_bind] in H. destruct (network_inputs _) as [[mode domains] ports].
  destruct (resolve_max_pids _) as [pids|]; [|done]. cbn [mbind result_bind] in H.
  destruct (default 0 (timeout input) / 1000000 <=? u64_max); [|done].
  cbn [mbind result_bind] in H. destruct (seal _) as [c'|] eqn:Hseal; [|done].
  injection H as <-. destruct (seal_ok _ _ Hseal) as [Hu _].
  pose proof (seal_digest _ _ Hseal Hu) as Hd.
  unfold unsealed in Hu. injection Hu as Hp Hv Hid Hn Hag Hf Hnet Hres Henv Hatt Hcr.
  eexists. split; [exact Hp|]. split; [|exact Hd].
  unfold projection, contract_argv. rewrite Hag, Hf, Henv, Hn. simpl in Hsp |- *. rewrite Hsp.
  destruct input; simpl in *. by rewrite Ea.
Qed.

Lemma freeze_succeeds scenario c p bytes :
  production c = Some p → verify_digest c = true →
  compile_effective exists_ canonicalize home_dir crate_version (projection c p) = Ok c →
  contract_json c = Ok bytes →
  ∃ canonical identity,
    freeze_production_contract scenario c (tier_or_none (prod_tier p)) (prod_backend p)
    = Ok (canonical, identity).
Proof.
  intros Hp Hd Hc Hj. unfold freeze_production_contract. rewrite Hd, Hp.
  cbn [negb ok_or mbind result_bind]. rewrite !String.eqb_refl. cbn [negb orb].
  rewrite Hc. cbn [map_err mbind result_bind].
  rewrite bool_decide_false by (intros Hn; by apply Hn).
  rewrite Hj. cbn [map_err mbind result_bind]. eauto.
Qed.

(** What [prepare] leaves for [spawn]. *)
Lemma prepare_succeeds `{!PreparingBackend} vars nonce u cap c bytes :
  u_argv u ≠ [] → canonical_spelling (u_argv u) → relay_needs_full u = false →
  compile_effective exists_ canonicalize home_dir crate_version (effective_input vars nonce u)
    = Ok c →
  contract_json c = Ok bytes →
  ∃ canonical identity m,
    freeze_production_contract (u_scenario u) c (tier_or_none (u_tier u)) (describe (u_mechanics u))
      = Ok (canonical, identity)
    ∧ prepare_with_backend vars nonce u cap
      = (record_backend_entered (u_context u),
         Ok (mk_prepared (record_backend_entered (u_context u)) (u_mechanics u) c canonical
               (u_argv u) (u_cwd u) (production_env vars nonce u) (u_net u) (u_tier u)
               (u_timeout u) (u_stdio u) (u_scenario u) nonce identity m
               (restrict_tier (u_tier u) (prepare canonical identity cap).1)))
    ∧ current_state m = Fsm.Prepare ∧ surviving_descendants m = None
    ∧ visited m = [Intent; PolicyCompiled; ContractSealed; Fsm.Prepare].
Proof.
  intros Hne Hsp Hrelay Hc Hj. destruct (compile_projection _ _ Hc Hsp) as (p & Hp & Hproj & Hd).
  assert (prod_tier p = u_tier u ∧ prod_backend p = describe (u_mechanics u)) as [Et Eb].
  { unfold projection, effective_input in Hproj. by injection Hproj. }
  pose proof Hc as Hc'. rewrite <-Hproj in Hc'.
  destruct (freeze_succeeds (u_scenario u) c p bytes Hp Hd Hc' Hj) as (canonical & identity & Hf).
  rewrite Et, Eb in Hf.
  destruct (prepare_binds canonical identity cap) as (r & Her & Hok & Hb).
  exists canonical, identity, (mk_fsm Fsm.Prepare ((λ s, (s, clock_at s)) <$>
    [Intent; PolicyCompiled; ContractSealed; Fsm.Prepare]) None).
  split; [exact Hf|]. split.
  { unfold prepare_with_backend, prepare_with_backend_inner, seal_and_prepare.
    destruct (u_argv u) eqn:Ea; [done|]. rewrite Hrelay, Hc. cbn [map_err mbind result_bind].
    rewrite advance_valid by done. cbn [mbind result_bind]. rewrite Hd. cbn [negb].
    rewrite advance_valid by done. cbn [mbind result_bind].
    unfold prepare_production_contract. rewrite Hf.
    destruct (prepare canonical identity cap) as [cap' r'] eqn:Ecap. simpl in Her. rewrite Her, Hok, Hb.
    cbn [andb negb mbind result_bind]. rewrite advance_valid by done.
    cbn [mbind result_bind fst]. reflexivity. }
  split_and!; reflexivity.
Qed.

Lemma plan_drift_none `{!PreparingBackend} canonical identity cap t net :
  cp_net_mode canonical = net_label net →
  plan_drift net (pre_exec_plan (restrict_tier t (prepare canonical identity cap).1)) = Ok tt.
Proof.
  intros Hn. unfold plan_drift.
  destruct (pre_exec_plan _) as [plan|] eqn:E; [|done].
  destruct (plan_coherent canonical identity cap t plan E) as [-> ->].
  by rewrite Hn, net_label_off, eqb_reflx.
Qed.

(** An untouched session starts: when the inputs compile and the backend
    was detected for the same network mode, preparation succeeds, its frozen
    inputs pass every drift check, and the child is forked with the given
    command line, directory and environment; the lifecycle has then gone
    through compilation, sealing, preparation, spawn and enforcement to
    observation. *)
Theorem prepared_session_spawns `{!PreparingBackend} vars nonce u cap c bytes child view g :
  u_argv u ≠ [] → canonical_spelling (u_argv u) → relay_needs_full u = false →
  mech_net_label (u_mechanics u) = net_label (u_net u) →
  compile_effective exists_ canonicalize home_dir crate_version (effective_input vars nonce u)
    = Ok c →
  contract_json c = Ok bytes →
  mech_spawn (u_mechanics u) (u_policy u)
    (mk_spawn_options (u_argv u) (u_cwd u) (production_env vars nonce u) (u_stdio u)) = Ok child →
  ∃ p g' ctx s,
    prepare_with_backend vars nonce u cap = (record_backend_entered (u_context u), Ok p)
    ∧ spawn view g p = (g', ctx, Ok s)
    ∧ s_contract s = c ∧ s_handle s = handle child ∧ s_nonce s = nonce
    ∧ ctx = store_target_pid (root_pid (handle child))
              (record_spawn (record_backend_entered (u_context u)))
    ∧ visited (s_fsm s) = [Intent; PolicyCompiled; ContractSealed; Fsm.Prepare; Spawn; Enforce;
                           Observe].
Proof.
  intros Hne Hsp Hrelay Hlabel Hc Hj Hspawn.
  destruct (compile_projection _ _ Hc Hsp) as (prod & Hp & Hproj & _).
  assert (installation_policy prod = u_policy u ∧ contract_argv c = u_argv u
    ∧ workspace_root (filesystem c) = u_cwd u
    ∧ explicit_vars (c_environment c) = production_env vars nonce u ∧ prod_net prod = u_net u
    ∧ prod_timeout prod = u_timeout u ∧ prod_tier prod = u_tier u
    ∧ prod_observe_seccomp prod = observes_seccomp (u_mechanics u))
    as (Epol & Eargv & Ecwd & Eenv & Enet & Eto & Etier & Eobs).
  { unfold projection, effective_input in Hproj. by injection Hproj. }
  destruct (prepare_succeeds vars nonce u cap c bytes Hne Hsp Hrelay Hc Hj)
    as (canonical & identity & m & Hf & Hprep & Hst & Hsd & Hvis).
  destruct (freeze_Ok _ _ _ _ _ _ Hf)
    as (prod' & Hp' & _ & _ & _ & _ & Ha & Hw & He & _ & Hnet & _).
  rewrite Hp in Hp'. injection Hp' as <-.
  eexists _. match type of Hprep with _ = (_, Ok ?p) => set (pe := p) in * end.
  assert (verify_frozen pe = Ok prod) as Hv.
  { unfold verify_frozen, pe. cbn [p_fsm p_scenario p_contract p_tier p_mechanics p_net p_capability].
    rewrite bool_decide_false by (intros Hn; by apply Hn). rewrite Hf. cbn [mbind result_bind].
    rewrite Hp. cbn [ok_or mbind result_bind].
    assert (drifted canonical identity prod pe = false) as Hdr.
    { unfold drifted, pe. simpl.
      rewrite Ha, Hw, He, Eargv, Ecwd, Eenv, Enet, Eto, Etier, Eobs, String.eqb_refl, eqb_reflx.
      rewrite !orb_false_iff. split_and!; try done; apply bool_decide_eq_false; intros Hn; by apply Hn. }
    unfold pe in Hdr. rewrite Hdr, Hlabel, String.eqb_refl. cbn [negb].
    rewrite plan_drift_none by (by rewrite Hnet, Enet). done. }
  unfold spawn. rewrite Hv. cbn [p_fsm pe].
  rewrite (advance_valid Spawn m) by (by rewrite ?Hst).
  cbn [p_mechanics]. rewrite Epol. unfold spawn_options.
  cbn [p_argv p_cwd p_env p_stdio]. rewrite Hspawn. rewrite advance_valid by done.
  unfold after_fork. rewrite advance_valid by done. cbn [mbind result_bind].
  do 3 eexists. split; [exact Hprep|]. split; [reflexivity|]. split_and!; try done.
  unfold visited in *. simpl. rewrite !fmap_app, Hvis. done.
Qed.
End Lifecycle.

(** ** The child's environment *)

Section ProductionEnv.
Variable to_uppercase : string → string.
Variable p : Policy.

(** What an inherited variable contributes to [k], and which of [env_extra] are
    accepted. *)
Definition inherited (k : string) (kv : string * string) : option string :=
  if String.eqb kv.1 k && passable k kv.2 && env_allows (environment p) k
  then Some (if eq_ignore_ascii_case k "PATH" then sanitize_path kv.2 else kv.2) else None.
Definition accepts_extra (k v : string) : bool :=
  passable k v && (negb (is_hard_denied to_uppercase k) || env_allows (environment p) k).

Lemma inherit_lookup vars m k :
  fold_left (inherit_var p) vars m !! k
  = match last (omap (inherited k) vars) with Some v => Some v | None => m !! k end.
Proof.
  induction vars as [|[k' v] vars IH] using rev_ind; [done|].
  rewrite fold_left_app, omap_app. cbn [fold_left omap list_omap].
  unfold inherit_var at 1, inherited at 2. cbn [fst snd].
  destruct (String.eqb_spec k' k) as [->|Hne].
  - destruct (passable k v), (env_allows (environment p) k); cbn [negb andb];
      rewrite ?app_nil_r; try exact IH.
    rewrite last_snoc. destruct (eq_ignore_ascii_case k "PATH"); by rewrite lookup_insert_eq.
  - cbn [andb]. rewrite app_nil_r.
    repeat case_match; rewrite ?lookup_insert_ne by done; exact IH.
Qed.

Lemma extra_lookup (l : list (string * string)) m k :
  NoDup l.*1 →
  fold_left (extra_var to_uppercase p) l m !! k
  = match (list_to_map l : gmap string string) !! k with
    | Some v => if accepts_extra k v then Some v else m !! k
    | None => m !! k
    end.
Proof.
  revert m. induction l as [|[k' v] l IH]; intros m Hn; [simpl; by rewrite lookup_empty|].
  apply NoDup_cons in Hn as [Hk Hn]. cbn [fold_left list_to_map foldr fst snd uncurry].
  rewrite IH by done. unfold extra_var, accepts_extra. destruct (decide (k' = k)) as [->|Hne].
  - rewrite lookup_insert_eq. rewrite not_elem_of_list_to_map_1 by done.
    destruct (passable k v), (is_hard_denied to_uppercase k), (env_allows (environment p) k);
      simpl; by rewrite ?lookup_insert_eq.
  - rewrite lookup_insert_ne by done. cbn [fst snd].
    match goal with |- context [if negb (passable k' v) then ?a else ?b] =>
      assert ((if negb (passable k' v) then a else b) !! k = m !! k) as -> end;
      [by repeat case_match; rewrite ?lookup_insert_ne|done].
Qed.

Lemma delete_all_lookup (ks : list string) (m : gmap string string) k :
  fold_left (λ out k, delete k out) ks m !! k = if bool_decide (k ∈ ks) then None else m !! k.
Proof.
  revert m. induction ks as [|k' ks IH]; intros m; [done|]. cbn [fold_left]. rewrite IH.
  destruct (decide (k = k')) as [->|Hne].
  - rewrite lookup_delete_eq. rewrite (bool_decide_true (k' ∈ k' :: ks)) by left.
    by case_bool_decide.
  - rewrite lookup_delete_ne by done. erewrite bool_decide_ext; [done|].
    rewrite elem_of_cons. naive_solver.
Qed.

(** The child's environment, variable by variable: a secret proxy is never
    in it; a caller's extra variable is there as given when it is well formed
    and, if its name is secret-shaped, the policy allows it; any other variable
    comes from the last usable value of the parent whose name the policy
    allows, a PATH sanitised. *)
Theorem production_env_lookup vars (env_extra : gmap string string) k :
  build_production_env to_uppercase vars p env_extra !! k
  = if bool_decide (k ∈ secret_proxies p) then None
    else match env_extra !! k with
         | Some v => if accepts_extra k v then Some v else last (omap (inherited k) vars)
         | None => last (omap (inherited k) vars)
         end.
Proof.
  unfold build_production_env. rewrite delete_all_lookup. case_bool_decide; [done|].
  rewrite extra_lookup by apply NoDup_fst_map_to_list. rewrite list_to_map_to_list.
  rewrite inherit_lookup, lookup_empty. by destruct (env_extra !! k), (last _).
Qed.
End ProductionEnv.

(** An extra PATH reaches the child as given, and the policy's deny list is not
    applied to an extra name that is not secret-shaped. *)
Lemma extra_path_not_sanitized :
  build_production_env to_ascii_uppercase [("PATH", ".:/bin")] sample_policy
    {["PATH" := ".:/evil"; "HTTP_PROXY" := "x"]} !! "PATH" = Some ".:/evil".
Proof. vm_compute. reflexivity. Qed.

(** ** Choosing the tier *)

(** The tier a session gets is one its host can enforce: full isolation
    only when the whole setup was probed, and a weaker tier only with
    system-call filters; without the environment's override the host also has
    Landlock and gets the strongest tier it can enforce.  A release build
    ignores the override unless one of two other variables is set. *)
Theorem pick_tier_enforceable force_tier pr t :
  pick_tier force_tier pr = Ok t →
  (t = Full → full_tier_available pr = true)
  ∧ (t ≠ Full → seccomp_filter_available pr = true)
  ∧ (forced_tier force_tier pr = None →
       is_Some (landlock_abi pr) ∧ (t = Full ↔ full_tier_available pr = true) ∧ t ≠ Seccomp)
  ∧ (∀ requested, force_tier = release_override None None requested →
       is_Some (landlock_abi pr) ∧ (t = Full ↔ full_tier_available pr = true) ∧ t ≠ Seccomp).
Proof.
  unfold pick_tier. destruct (forced_tier force_tier pr) as [t'|] eqn:E.
  - intros [= ->]. unfold forced_tier in E. destruct force_tier as [f|]; [|done].
    repeat (destruct (String.eqb f _); cbn [andb] in E);
      destruct (seccomp_filter_available pr), (full_tier_available pr); simplify_eq;
      split_and!; done || by intros requested.
  - destruct (landlock_abi pr); [|done].
    destruct (full_tier_available pr) eqn:Ef; [intros [= <-]; split_and!; by eauto|].
    destruct (seccomp_filter_available pr) eqn:Es; [intros [= <-]; split_and!; by eauto|done].
Qed.

(** "Release binaries ignore the override": they do not once the inherited
    environment also holds VETTO_ALLOW_FORCE_TIER; a host without Landlock then
    runs the agent with no file-system isolation. *)
Definition bare_probe : Probe := mk_probe "6.1" None false false true false false [].
Lemma release_override_downgrades :
  pick_tier (release_override None (Some "1") (Some "seccomp")) bare_probe = Ok Seccomp
  ∧ is_err (pick_tier None bare_probe) = true.
Proof. split; reflexivity. Qed.

(** ** Backends that prepare *)

Lemma build_binds k policy identity states failures ok :
  preparation_ok (build k policy identity states failures ok) = ok
  ∧ binds_identity (build k policy identity states failures ok) identity = true.
Proof. split; [done|]. unfold binds_identity. simpl. by rewrite !String.eqb_refl. Qed.

#[export] Instance linux_preparing : @PreparingBackend LinuxBackend linux_backend.
Proof.
  split.
  - intros canonical identity [r pl t d]. simpl. unfold linux_prepare, restrict_records. simpl.
    destruct t as [[]|]; simpl; (eexists; split; [done|]; split; [done|]);
      unfold binds_identity; simpl; by rewrite !String.eqb_refl.
  - intros canonical identity [r pl t d] t' plan. simpl.
    unfold linux_prepare, apply_tier_restriction, restrict_records. simpl.
    destruct t as [[]|], t' as [[]|]; simpl; by intros [= <-].
Qed.

#[export] Instance direct_preparing : @PreparingBackend DirectBackend direct_backend.
Proof.
  split; [|done]. intros canonical identity b. simpl. eexists. split; [done|].
  apply build_binds.
Qed.

(** ** A concrete session *)

Definition demo_probe : Probe := mk_probe "6.8" (Some 5) true true true false true [].
Definition demo_spawn_tier (t : Tier) (p : Policy) (o : SpawnOptions) (observe : bool)
    (relay : option Z) : result string Spawned :=
  Ok (mk_spawned (mk_handle 4242 (Some (ProcessGroup 4242 4242 true))) None relay None).
#[export] Instance demo_mechanics : Mechanics LinuxSandbox := linux_mechanics demo_spawn_tier.

Definition demo_sandbox : LinuxSandbox := mk_linux_sandbox demo_probe FsOnly NetOff false.
Definition demo_unprepared : UnpreparedProductionExecution LinuxSandbox :=
  unprepared_new demo_sandbox sample_policy ["/usr/bin/claude"; "run"] (components "/workspace")
    ∅ NetOff (Some 5000000000) Inherit PROD_SCENARIO_ID.
Definition demo_vars : list (string * string) :=
  [("PATH", ".:/usr/bin:/bin"); ("HOME", "/home/user"); ("AWS_SECRET_KEY", "s3cr3t")].
Definition demo_sha (s : string) : list Z :=
  replicate 31 0 ++ [wrap 8 (fold_right Z.add 0 (string_bytes s))].
Definition demo_frozen_json (s : FrozenSpec) : string := fz_policy_bytes s +:+ fz_nonce s.
Definition demo_contract_json (c : SecurityContract) : result string string :=
  Ok ("{" +:+ contract_digest_blake3 c +:+ "}").
Definition demo_clock (s : ExecutionState) : instant := 0.

Definition demo_prepare (u : UnpreparedProductionExecution LinuxSandbox) :
  ProductionSessionContext
  * result ProductionError (PreparedProductionExecution LinuxSandbox LinuxBackend) :=
  @prepare_with_backend demo_codec LinuxBackend LinuxSandbox linux_backend demo_mechanics
    demo_exists demo_canonicalize (Some (components "/home/user")) "0.6.3" demo_sha
    demo_frozen_json demo_contract_json to_ascii_uppercase demo_clock demo_vars "n0nce" u
    (@fresh LinuxBackend linux_backend).
Definition demo_view (pid : Z) : HostView :=
  mk_view [mk_round (Some ("Seccomp:" +:+ ch1 9 +:+ "2" +:+ ch1 10 +:+ "NoNewPrivs:" +:+ ch1 9
                           +:+ "1")) pid (Some true) true false true] None.
Definition demo_globals : ProcessGlobals := mk_globals ∅ true 0 0.
Definition demo_spawn (p : PreparedProductionExecution LinuxSandbox LinuxBackend) :
  ProcessGlobals * ProductionSessionContext
  * result ProductionError (SpawnedProductionExecution LinuxBackend) :=
  @spawn demo_codec LinuxBackend LinuxSandbox linux_backend demo_mechanics demo_exists
    demo_canonicalize (Some (components "/home/user")) "0.6.3" demo_sha demo_frozen_json
    demo_contract_json demo_clock demo_view demo_globals p.

Lemma pick_tier_enforceable_witness : seccomp_filter_available bare_probe = true.
Proof.
  apply (proj1 (proj2 (pick_tier_enforceable (Some "seccomp") bare_probe Seccomp eq_refl))).
  discriminate.
Defined.

(** The prepared execution of the sample. *)
Definition ok_to_option {E A} (r : result E A) : option A :=
  match r with Ok a => Some a | Err _ => None end.
Definition demo_prepared : option (PreparedProductionExecution LinuxSandbox LinuxBackend) :=
  ok_to_option (demo_prepare demo_unprepared).2.

(** A prepared execution whose command line was swapped after sealing. *)
Definition swap_argv (p : PreparedProductionExecution LinuxSandbox LinuxBackend) :
  PreparedProductionExecution LinuxSandbox LinuxBackend :=
  mk_prepared (p_context p) (p_mechanics p) (p_contract p) (p_canonical p) ["/bin/sh"] (p_cwd p)
    (p_env p) (p_net p) (p_tier p) (p_timeout p) (p_stdio p) (p_scenario p) (p_nonce p)
    (p_identity p) (p_fsm p) (p_capability p).

Lemma demo_argv_sealed :
  ∃ p, demo_prepared = Some p ∧ contract_argv (p_contract p) = ["/usr/bin/claude"; "run"].
Proof.
  assert ((λ p, contract_argv (p_contract p)) <$> demo_prepared = Some ["/usr/bin/claude"; "run"])
    as H by (vm_compute; reflexivity).
  destruct demo_prepared as [p|]; [|discriminate H]. exists p. split; [done|]. by apply (inj Some) in H.
Qed.

Lemma spawn_runs_sealed_contract_witness :
  match demo_prepared with
  | Some p => is_err (demo_spawn (swap_argv p)).2 = true
  | None => False
  end.
Proof.
  destruct demo_argv_sealed as (p & Ep & Ha). rewrite Ep.
  destruct (demo_spawn (swap_argv p)) as [[g ctx] r] eqn:E.
  destruct (spawn_runs_sealed_contract _ _ _ _ _ _ _ _ _ _ _ _ _ _ E)
    as [(_ & _ & Hr)|(prod & Hs & _)]; [exact Hr|].
  destruct Hs as (_ & _ & _ & Hargv & _). exfalso.
  simpl in Hargv. rewrite Ha in Hargv. discriminate Hargv.
Defined.

Lemma prepared_session_spawns_witness :
  match demo_prepared with
  | Some p => match (demo_spawn p).2 with
              | Ok s => visited (s_fsm s) = [Intent; PolicyCompiled; ContractSealed; Fsm.Prepare;
                                             Spawn; Enforce; Observe]
              | Err _ => False
              end
  | None => False
  end.
Proof.
  unfold demo_prepared, demo_prepare, demo_spawn.
  edestruct (@prepared_session_spawns demo_codec LinuxBackend LinuxSandbox linux_backend
    demo_mechanics demo_exists demo_canonicalize (Some (components "/home/user")) "0.6.3"
    demo_sha demo_frozen_json demo_contract_json to_ascii_uppercase demo_clock linux_preparing
    demo_vars "n0nce" demo_unprepared (@fresh LinuxBackend linux_backend))
    as (p & g' & ctx & s & Hp & Hs & _ & _ & _ & _ & Hv).
  8: { rewrite Hp. simpl. erewrite Hs. exact Hv. }
  - discriminate.
  - reflexivity.
  - reflexivity.
  - reflexivity.
  - vm_compute. reflexivity.
  - reflexivity.
  - reflexivity.
Defined.
