(* ===== verification/Session.v ===== *)
(** * Session: closing a production session (Linux)

    Model of the second half of [src/src/sandbox/production/lifecycle.rs]
    ([finish], [wait_for_exit], [wait_collect]) and of [ProductionResult] in
    [src/src/sandbox/production/mod.rs].  What the host shows at the end of a
    session is [HostEnd], the audit file is [AuditDisk]; the sweep by nonce is
    [Proctrack], the extinction check and the deadline killer [Termination], the
    ledger [Ledger]. *)

From S2P Require Import Prelude Paths PolicyTypes Contract Capability Proctrack Termination Fsm.
From S2P Require Import Verdict Ledger Lifecycle.

(** [Display] of [StateTransitionError]. *)
Definition transition_error_text (e : StateTransitionError) : string :=
  match e with
  | InvalidTransition from to reason =>
      "Invalid state transition from " +:+ Fsm.as_str from +:+ " to " +:+ Fsm.as_str to +:+ ": " +:+ reason
  | FailClosedError state error =>
      "Execution failed closed in state " +:+ Fsm.as_str state +:+ ": " +:+ error +:+ " (Exit 125)"
  end.

(** The [Debug] text of a list of pids. *)
Definition pids_debug (pids : list Z) : string :=
  "[" +:+ join_with ", " (to_dec <$> pids) +:+ "]".

(** What the host shows when a session ends: the scans of the escape check in
    order, the outcome of the sweep by nonce ([None]: none ran), the duration
    of the teardown, the process-wide evidence flag and the drained output. *)
Record HostEnd : Type := mk_end {
  end_scans : list (option (list ProcEntry));
  end_sweep : option SweepOutcome;
  end_elapsed_ms : Z;
  end_channel : bool;
  end_stdout : string;
  end_stderr : string;
}.

(** The audit file: what it holds, whether it opens for appending, what a write
    leaves, and what reading it back gives; the times of the three records. *)
Record AuditDisk : Type := mk_disk {
  disk_dir : path;
  disk_read : result string (option (list string));
  disk_open : option string;
  disk_append : list string → string → list string * option string;
  disk_back : list string → result string (option (list string));
  disk_times : string * string * string;
}.

Record ProductionResult : Type := mk_production_result {
  r_backend : BackendKind;
  r_report : EnforcementReport;
  r_exit_code : option Z;
  r_timed_out : bool;
  r_pid : option Z;
  r_nonce : string;
  r_scenario_id : string;
  r_exec_root : path;
  r_cwd : path;
  r_stdout : string;
  r_stderr : string;
  spawn_via_backend : bool;
  r_diagnostic : option string;
  r_verdict : option FinalVerdict;
  r_fsm_state : option ExecutionState;
  blocked_attempts : Z;
}.
Definition result_state (r : ProductionResult) (cap : SecurityCapability) : EnforcementState :=
  report_state (r_report r) cap.
Definition result_allows_pass (r : ProductionResult) (required : list SecurityCapability) : bool :=
  allows_pass (r_report r) required.
Definition result_render (r : ProductionResult) : string :=
  join_with "|"
    (("backend=" +:+ backend_label (r_backend r))
     :: ((λ c, capability_label c +:+ "=" +:+ state_label (result_state r c)) <$> all_capabilities)
     ++ ["preparation_ok=" +:+ display_bool (preparation_ok (r_report r))]).

(** ** The escape check *)

(** A child of this process: its status is read again ([entry_latest]). *)
Definition escaper (my_sid : option Z) (nonce : string) (e : ProcEntry) : bool :=
  match entry_latest e with
  | None => false
  | Some status =>
      negb (pid_is_zombie status)
      && match my_sid, entry_sid e with Some mine, Some theirs => negb (mine =? theirs) | _, _ => false end
      && match entry_environ e with
         | Env env => contains_slice env ("VETTO_RUN_NONCE=" +:+ nonce)
                      || contains_slice env ("VETTO_PROD_NONCE=" +:+ nonce)
         | _ => false
         end
  end.

Definition setsid_escaped {B} (me : Z) (my_sid : option Z) (roots : gset Z)
    (s : SpawnedProductionExecution B) (scans : list (option (list ProcEntry))) : bool :=
  match strategy (s_handle s) with
  | Some (ProcessGroup _ _ true) =>
      existsb (λ entries, existsb (λ e,
        bool_decide (is_Some (scan_child me roots (s_pid s) e)) && escaper my_sid (s_nonce s) e)
        (default [] entries)) scans
  | _ => false
  end.

(** ** State of the teardown *)

(** The capability backend, the machine and the exit code. *)
Record Closing (B : Type) : Type := mk_closing {
  k_cap : B;
  k_fsm : ExecutionStateMachine;
  k_code : option Z;
}.
Arguments mk_closing {B}. Arguments k_cap {B}. Arguments k_fsm {B}. Arguments k_code {B}.

Definition sweep_clean (o : option SweepOutcome) : bool :=
  match o with
  | Some o => clean o && negb (blind o) && bool_decide (residual o = [])
  | None => false
  end.
Definition surviving_of (o : option SweepOutcome) : Z :=
  if sweep_clean o then 0
  else match o with Some o => Z.max (Z.of_nat (length (residual o))) 1 | None => 1 end.

Section Session.
Context {B : Type} `{HB : SandboxBackend B} `{HL : LedgerCodec}.
Variable clock_at : ExecutionState → instant.

Definition note (d : string) (k : Closing B) : Closing B :=
  mk_closing (note_diagnostic d (k_cap k)) (k_fsm k) (k_code k).
Definition tree_clean (b : bool) (k : Closing B) : Closing B :=
  mk_closing (note_tree_clean b (k_cap k)) (k_fsm k) (k_code k).
Definition set_code (c : option Z) (k : Closing B) : Closing B :=
  mk_closing (k_cap k) (k_fsm k) c.
Definition set_fsm (m : ExecutionStateMachine) (k : Closing B) : Closing B :=
  mk_closing (k_cap k) m (k_code k).
Definition fail_125 : Closing B → Closing B := set_code (Some FAIL_CLOSED_EXTINCTION_EXIT_CODE).

(** A transition whose error is only noted. *)
Definition try_transition (next : ExecutionState) (label : string) (k : Closing B) : Closing B :=
  match transition (clock_at next) (k_fsm k) next with
  | (m, Ok _) => set_fsm m k
  | (m, Err e) => note (label +:+ " failed: " +:+ transition_error_text e) (set_fsm m k)
  end.
Definition try_from (from next : ExecutionState) (label : string) (k : Closing B) : Closing B :=
  if bool_decide (current_state (k_fsm k) = from) then try_transition next label k else k.

(** [fsm.fail_closed] and the emergency clean-up. *)
Definition enter_fail_closed (reason : string) (k : Closing B) : Closing B :=
  let '(m, e) := fail_closed (clock_at FailClosed) (k_fsm k) reason in
  let k := set_fsm m k in
  let k := match e with
           | InvalidTransition _ _ _ =>
               note ("FSM transition to FailClosed failed: " +:+ transition_error_text e) k
           | FailClosedError _ _ => k
           end in
  try_transition EmergencyCleanup "FSM transition to EmergencyCleanup" k.

Definition close_phases (k : Closing B) : Closing B :=
  try_from Terminate Cleanup "FSM transition Terminate->Cleanup"
  (try_from Observe Terminate "FSM transition Observe->Terminate"
  (try_from Enforce Observe "FSM transition Enforce->Observe" k)).

Definition note_sweep (o : option SweepOutcome) (k : Closing B) : Closing B :=
  match o with
  | Some s =>
      note ("tree-sweep clean=" +:+ display_bool (sweep_clean o) +:+ " killed=" +:+ to_dec (killed s)
            +:+ " residual=" +:+ pids_debug (residual s) +:+ " subreaper="
            +:+ display_bool (subreaper s) +:+ " blind=" +:+ display_bool (blind s))
        (tree_clean (sweep_clean o) k)
  | None => tree_clean false k
  end.

(** From the extinction result to the exit code before the evidence is read. *)
Definition apply_extinction (timed_out escaped : bool) (surviving : Z) (ext : result ExtinctionBreach ExtinctionProof)
    (k : Closing B) : Closing B :=
  let k := set_fsm (record_extinction_result (k_fsm k) surviving) k in
  let k := if timed_out && (surviving =? 0) && is_ok ext then set_code (Some 124) k else k in
  let k := if escaped
           then fail_125 (note "setsid escaper swept in fs-only: containment gap forces fail-closed exit 125" k)
           else k in
  match ext with
  | Err breach =>
      let k := note ("extinction breach (fail-closed exit 125, INV-20): platform="
                     +:+ platform_label (breach_platform breach) +:+ " elapsed="
                     +:+ to_dec (breach_elapsed_ms breach) +:+ "ms reason="
                     +:+ breach_reason breach) (tree_clean false k) in
      enter_fail_closed (breach_reason breach) (fail_125 k)
  | Ok _ => try_transition Verify "FSM transition to Verify" k
  end.

Definition apply_evidence (intact : bool) (k : Closing B) : Closing B :=
  if intact then k
  else fail_125 (note "evidence channel disrupted (ENOBUFS / packet drop, INV-37): fail-closed exit 125"
                   (tree_clean false k)).

(** ** The audit ledger of the session *)

Definition channel_reason : string :=
  "Evidence capture channel dropped events: audit ledger inconclusive (INV-37)".
Definition completed_reason : string := "Session completed within invariant parameters".

(** The verdict written to the ledger. *)
Definition recorded_verdict (ext_ok intact : bool) (code : option Z) : FinalVerdict :=
  let '(st, c) :=
    if negb ext_ok then (Fail, FAIL_CLOSED_EXTINCTION_EXIT_CODE)
    else if negb intact then (StInconclusive, FAIL_CLOSED_EXTINCTION_EXIT_CODE)
    else match code with
         | Some c => if negb (c =? 0) then (Fail, c) else (Pass, 0)
         | None => (Pass, 0)
         end in
  mk_verdict st Strong
    (if negb ext_ok then Violated else if negb intact then Inconclusive else Satisfied) c
    (if negb intact then channel_reason
     else if negb ext_ok then "Process tree extinction breach (INV-20)" else completed_reason).

Fixpoint zeros (n : nat) : string := match n with O => EmptyString | S n => String "0" (zeros n) end.

(** The three records of a session; [None]: the ledger does not open. *)
Definition write_ledger (disk : AuditDisk) (s : SpawnedProductionExecution B) (surviving : Z)
    (ext_ok intact : bool) (code : option Z) (elapsed_ms : Z) : option (list string) :=
  let '(t0, t1, t2) := disk_times disk in
  let digest := contract_digest_blake3 (s_contract s) in
  match open_ledger (disk_read disk) (disk_open disk) with
  | Err _ => None
  | Ok l =>
      let '(l, _) := record_audit_record (disk_append disk) l
        (session_init t0 (s_nonce s) digest "linux" "linux" (s_scenario s) Tier1Linux) in
      let '(l, h) := record_audit_record (disk_append disk) l
        (tree_extinction t1 (s_nonce s) digest (platform_label LinuxTier1Proven)
           (wrap 32 surviving) 9 elapsed_ms ext_ok) in
      let root := match h with Ok h => h | Err _ => zeros 64 end in
      let '(l, _) := record_audit_record (disk_append disk) l
        (session_verdict t2 (s_nonce s) digest (recorded_verdict ext_ok intact code) root) in
      Some (file l)
  end.

Definition ledger_path (disk : AuditDisk) (s : SpawnedProductionExecution B) : string :=
  to_str (push (disk_dir disk) (components ("vetto-audit-" +:+ s_nonce s +:+ ".jsonl"))).

Definition ledger_verified (disk : AuditDisk) (written : option (list string)) : bool :=
  match written with
  | Some lines => match verify_file (disk_back disk lines) with Ok b => b | Err _ => false end
  | None => false
  end.

Definition apply_ledger (location : string) (written : option (list string)) (ok : bool)
    (k : Closing B) : Closing B :=
  match written with
  | None =>
      fail_125 (note ("audit ledger unavailable on host (fail-closed exit 125, INV-35): " +:+ location)
                  (tree_clean false k))
  | Some _ =>
      if ok then note ("audit ledger verified (INV-34, INV-35): " +:+ location) k
      else fail_125 (note ("audit ledger hash chain verification failed (fail-closed exit 125, INV-34): "
                           +:+ location) (tree_clean false k))
  end.

(** ** [finish] *)

Definition final_verdict (ext : result ExtinctionBreach ExtinctionProof) (intact ledger_ok : bool) (code : option Z) :
  FinalVerdict :=
  let bad := negb (is_ok ext) || negb ledger_ok in
  mk_verdict
    (if bad then Fail else if negb intact then StInconclusive
     else if negb (default 0 code =? 0) then Fail else Pass)
    Strong
    (if bad then Violated else if negb intact then Inconclusive else Satisfied)
    (default 0 code)
    (if negb intact then channel_reason
     else match ext with
          | Err breach => "Process tree extinction breach (INV-20): " +:+ breach_reason breach
          | Ok _ => if negb ledger_ok then "Audit ledger hash chain verification failed (INV-34)"
                    else completed_reason
          end).

(** The last transitions. *)
Definition settle (ext : result ExtinctionBreach ExtinctionProof) (intact ledger_ok : bool) (reason : string) (k : Closing B) :
  Closing B :=
  if negb (is_ok ext) then fail_125 k
  else if negb intact || negb ledger_ok then
    fail_125 (try_transition Terminal "FSM transition to Terminal" (enter_fail_closed reason k))
  else
    match transition (clock_at Terminal) (k_fsm k) Terminal with
    | (m, Ok _) => set_fsm m k
    | (m, Err e) =>
        fail_125 (note ("FSM transition to Terminal failed: " +:+ transition_error_text e)
                    (set_fsm m k))
    end.

Section Finish.
(** Our pid and session, the registered roots, the host and the audit file. *)
Variables (me : Z) (my_sid : option Z) (roots : gset Z) (host : HostEnd) (disk : AuditDisk).

Definition extinction_of : result ExtinctionBreach ExtinctionProof :=
  Termination.verify LinuxTier1Proven (surviving_of (end_sweep host)) 0 (end_elapsed_ms host).
Definition evidence_intact (s : SpawnedProductionExecution B) : bool :=
  end_channel host && channel_intact (evidence (s_context s)).

(** Up to the evidence check: everything the ledger records. *)
Definition close_tree (s : SpawnedProductionExecution B) (exit_code : option Z)
    (timed_out : bool) : Closing B :=
  let k := close_phases (mk_closing (s_capability s) (s_fsm s) exit_code) in
  let k := note_sweep (end_sweep host) k in
  let k := apply_extinction timed_out (setsid_escaped me my_sid roots s (end_scans host))
             (surviving_of (end_sweep host)) extinction_of k in
  apply_evidence (evidence_intact s) k.

Definition session_ledger (s : SpawnedProductionExecution B) (k : Closing B) :
  option (list string) :=
  write_ledger disk s (surviving_of (end_sweep host)) (is_ok extinction_of) (evidence_intact s)
    (k_code k) (end_elapsed_ms host).

(** The state at the end, and the final verdict. *)
Definition close_session (s : SpawnedProductionExecution B) (exit_code : option Z)
    (timed_out : bool) : Closing B * FinalVerdict :=
  let k := close_tree s exit_code timed_out in
  let k := try_from Verify Attest "FSM transition to Attest" k in
  let written := session_ledger s k in
  let ok := ledger_verified disk written in
  let k := apply_ledger (ledger_path disk s) written ok k in
  let k := try_from Attest Verdict "FSM transition to Verdict" k in
  let v := final_verdict extinction_of (evidence_intact s) ok (k_code k) in
  (settle extinction_of (evidence_intact s) ok (Verdict.reason v) k, v).

(** [None]: the [expect] of a backend without a report.  The backend is torn
    down and dropped with the session, so it is not returned. *)
Definition finish (s : SpawnedProductionExecution B) (exit_code : option Z) (timed_out : bool) :
  option ProductionResult :=
  let '(k, v) := close_session s exit_code timed_out in
  report ← enforcement (k_cap k);
  Some (mk_production_result kind report (k_code k) timed_out (Some (s_pid s)) (s_nonce s)
          (s_scenario s) (s_exec_root s) (s_exec_root s) (end_stdout host) (end_stderr host) true
          (diagnostic (k_cap k)) (Some v) (Some (current_state (k_fsm k)))
          (if bool_decide (status v = Fail) && negb timed_out then 1 else 0)).

(** ** [wait_for_exit] and [wait_collect] *)

Definition PROD_EXIT_POLL : Z := 10 * 1000000.

Section Wait.
Context {W : Type} `{WaitKill W}.

Fixpoint wait_forever (fuel : nat) (w : W) : option (W * Z) :=
  match fuel with
  | O => None
  | S fuel =>
      let '(w, code) := try_wait w in
      match code with
      | Some c => Some (w, c)
      | None => wait_forever fuel (sleep PROD_EXIT_POLL w)
      end
  end.

Definition wait_for_exit (fuel : nat) (timeout : option Z) (w : W) : option (W * (Z * bool)) :=
  match timeout with
  | Some limit =>
      let '(w, t) := now w in
      '(w, (outcome, code)) ← kill_on_deadline_with fuel (t + limit) PROD_EXIT_POLL w;
      Some (w, (code, match outcome with KilledOnDeadline => true | Exited => false end))
  | None => '(w, code) ← wait_forever fuel w; Some (w, (code, false))
  end.

Definition wait_collect (fuel : nat) (s : SpawnedProductionExecution B) (w : W) :
  option (W * option ProductionResult) :=
  '(w, (code, timed_out)) ← wait_for_exit fuel (s_timeout s) w;
  Some (w, finish s (Some code) timed_out).
End Wait.
End Finish.

(** ** Lemmas *)

(** *** The exit code *)

Lemma try_transition_code next label k : k_code (try_transition next label k) = k_code k.
Proof. unfold try_transition. by destruct (transition _ _ _) as [m [u|e]]. Qed.

Lemma try_from_code from next label k : k_code (try_from from next label k) = k_code k.
Proof. unfold try_from. case_bool_decide; [apply try_transition_code|done]. Qed.

Lemma enter_fail_closed_code reason k : k_code (enter_fail_closed reason k) = k_code k.
Proof.
  unfold enter_fail_closed. destruct (fail_closed _ _ _) as [m e].
  rewrite try_transition_code. by destruct e.
Qed.

Lemma note_sweep_code o k : k_code (note_sweep o k) = k_code k.
Proof. by destruct o. Qed.

Lemma close_phases_code k : k_code (close_phases k) = k_code k.
Proof. unfold close_phases. by rewrite !try_from_code. Qed.

Lemma apply_extinction_code timed_out escaped surviving ext k :
  k_code (apply_extinction timed_out escaped surviving ext k)
  = if negb (is_ok ext) || escaped then Some 125
    else if timed_out && (surviving =? 0) then Some 124 else k_code k.
Proof.
  unfold apply_extinction. destruct ext as [proof|breach]; simpl.
  - rewrite try_transition_code. by destruct escaped, timed_out, (surviving =? 0).
  - by rewrite enter_fail_closed_code.
Qed.

Lemma settle_code ext intact ok reason k :
  k_code (settle ext intact ok reason k) = k_code k
  ∨ k_code (settle ext intact ok reason k) = Some 125.
Proof.
  unfold settle. repeat case_match; first [by left|by right].
Qed.

(** *** The machine *)

(** The machine is in [st], has visited [vis] and has recorded [sv]. *)
Definition at_state (m : ExecutionStateMachine) (st : ExecutionState)
    (vis : list ExecutionState) (sv : option Z) : Prop :=
  current_state m = st ∧ visited m = vis ∧ surviving_descendants m = sv.

Lemma transition_at m st vis sv now next :
  at_state m st vis sv → valid_transition st next = true →
  (is_yield next = true → default 0 sv ≤ 0) →
  ∃ m', transition now m next = (m', Ok tt) ∧ at_state m' next (vis ++ [next]) sv.
Proof.
  intros (<- & <- & <-) Hv Hy. unfold transition. rewrite Hv.
  destruct (is_yield next) eqn:E; cbn [andb negb].
  - specialize (Hy eq_refl). destruct (Z.ltb_spec 0 (default 0 (surviving_descendants m))); [lia|].
    eexists. split; [done|]. unfold at_state, visited. simpl. by rewrite fmap_app.
  - eexists. split; [done|]. unfold at_state, visited. simpl. by rewrite fmap_app.
Qed.

Lemma try_transition_at k st vis sv next label :
  at_state (k_fsm k) st vis sv → valid_transition st next = true →
  (is_yield next = true → default 0 sv ≤ 0) →
  at_state (k_fsm (try_transition next label k)) next (vis ++ [next]) sv.
Proof.
  intros Ha Hv Hy. unfold try_transition.
  by destruct (transition_at _ _ _ _ (clock_at next) next Ha Hv Hy) as (m' & -> & ?).
Qed.

Lemma try_from_at k st vis sv next label :
  at_state (k_fsm k) st vis sv → valid_transition st next = true → is_yield next = false →
  at_state (k_fsm (try_from st next label k)) next (vis ++ [next]) sv.
Proof.
  intros Ha Hv Hy. unfold try_from. rewrite bool_decide_true by apply Ha.
  apply (try_transition_at _ st); [done..|by rewrite Hy].
Qed.

Lemma try_from_skip k st vis sv from next label :
  at_state (k_fsm k) st vis sv → st ≠ from →
  at_state (k_fsm (try_from from next label k)) st vis sv.
Proof.
  intros Ha Hne. unfold try_from. rewrite bool_decide_false; [done|].
  destruct Ha as (-> & _). done.
Qed.

Lemma enter_fail_closed_at k st vis sv reason :
  at_state (k_fsm k) st vis sv → st ∈ [Cleanup; Verdict] →
  at_state (k_fsm (enter_fail_closed reason k)) EmergencyCleanup
    (vis ++ [FailClosed; EmergencyCleanup]) sv.
Proof.
  intros Ha Hst. unfold enter_fail_closed, fail_closed, fail_closed_to.
  assert (is_canonical_mode (k_fsm k) = false) as ->.
  { unfold is_canonical_mode. destruct Ha as (-> & _).
    rewrite !elem_of_cons, elem_of_nil in Hst. by destruct Hst as [->|[->|[]]]. }
  destruct (transition_at _ _ _ _ (clock_at FailClosed) FailClosed Ha) as (m' & -> & Hm').
  { rewrite !elem_of_cons, elem_of_nil in Hst. by destruct Hst as [->|[->|[]]]. }
  { done. }
  replace (vis ++ [FailClosed; EmergencyCleanup])
    with ((vis ++ [FailClosed]) ++ [EmergencyCleanup]) by (by rewrite <-app_assoc).
  by apply (try_transition_at _ FailClosed).
Qed.

(** *** The report *)

(** Notes keep the report of a backend that has one. *)
Class KeepsReport : Prop := {
  diagnostic_keeps d b : is_Some (enforcement b) → is_Some (enforcement (note_diagnostic d b));
  tree_clean_keeps c b : is_Some (enforcement b) → is_Some (enforcement (note_tree_clean c b));
}.

Definition has_report (k : Closing B) : Prop := is_Some (enforcement (k_cap k)).

Section Reports.
Context `{!KeepsReport}.

Lemma note_report d k : has_report k → has_report (note d k).
Proof. apply diagnostic_keeps. Qed.
Lemma tree_clean_report c k : has_report k → has_report (tree_clean c k).
Proof. apply tree_clean_keeps. Qed.
Lemma set_fsm_report m k : has_report k → has_report (set_fsm m k).
Proof. done. Qed.
Lemma set_code_report c k : has_report k → has_report (set_code c k).
Proof. done. Qed.
#[local] Hint Resolve note_report tree_clean_report set_fsm_report set_code_report : vetto.

Lemma try_transition_report next label k :
  has_report k → has_report (try_transition next label k).
Proof.
  intros Hk. unfold try_transition. destruct (transition _ _ _) as [m [u|e]]; auto with vetto.
Qed.
#[local] Hint Resolve try_transition_report : vetto.

Lemma try_from_report from next label k : has_report k → has_report (try_from from next label k).
Proof. intros Hk. unfold try_from. case_bool_decide; auto with vetto. Qed.
#[local] Hint Resolve try_from_report : vetto.

Lemma enter_fail_closed_report reason k : has_report k → has_report (enter_fail_closed reason k).
Proof.
  intros Hk. unfold enter_fail_closed. destruct (fail_closed _ _ _) as [m []]; auto with vetto.
Qed.
#[local] Hint Resolve enter_fail_closed_report : vetto.

Lemma note_sweep_report o k : has_report k → has_report (note_sweep o k).
Proof. intros Hk. destruct o; simpl; auto with vetto. Qed.

Lemma apply_evidence_report i k : has_report k → has_report (apply_evidence i k).
Proof. intros Hk. destruct i; simpl; unfold fail_125; auto with vetto. Qed.

Lemma apply_extinction_report timed_out escaped surviving ext k :
  has_report k → has_report (apply_extinction timed_out escaped surviving ext k).
Proof.
  intros Hk. unfold apply_extinction, fail_125.
  set (k1 := set_fsm _ k). assert (has_report k1) as H1 by exact Hk. clearbody k1.
  set (k2 := if timed_out && _ && _ then _ else k1).
  assert (has_report k2) as H2 by (unfold k2; destruct (timed_out && _ && _); auto with vetto).
  clearbody k2. set (k3 := if escaped then _ else k2).
  assert (has_report k3) as H3 by (unfold k3; destruct escaped; auto with vetto).
  clearbody k3. destruct ext; auto with vetto.
Qed.

Lemma apply_ledger_report location written ok k :
  has_report k → has_report (apply_ledger location written ok k).
Proof. intros Hk. unfold apply_ledger, fail_125. destruct written, ok; auto with vetto. Qed.

Lemma settle_report ext intact ok reason k :
  has_report k → has_report (settle ext intact ok reason k).
Proof.
  intros Hk. unfold settle, fail_125. destruct (negb (is_ok ext)); [auto with vetto|].
  destruct (negb intact || negb ok); [auto with vetto|].
  destruct (transition _ _ _) as [m [u|e]]; auto with vetto.
Qed.
#[local] Hint Resolve note_sweep_report apply_evidence_report apply_extinction_report
  apply_ledger_report settle_report : vetto.

(** The whole close keeps the report. *)
Lemma close_session_report me my_sid roots host disk s code timed_out :
  is_Some (enforcement (s_capability s)) →
  has_report (close_session me my_sid roots host disk s code timed_out).1.
Proof.
  intros Hs. unfold close_session, close_tree, close_phases. cbn [fst].
  apply settle_report, try_from_report, apply_ledger_report, try_from_report,
    apply_evidence_report, apply_extinction_report, note_sweep_report.
  by do 3 apply try_from_report.
Qed.

Lemma finish_gives me my_sid roots host disk s code timed_out :
  is_Some (enforcement (s_capability s)) →
  is_Some (finish me my_sid roots host disk s code timed_out).
Proof.
  intros Hs. pose proof (close_session_report me my_sid roots host disk s code timed_out Hs) as [r Hr].
  unfold finish. destruct (close_session _ _ _ _ _ _ _ _) as [k v]. cbn [fst] in Hr. rewrite Hr.
  by eexists.
Qed.
End Reports.

(** *** What counts as extinct *)

Lemma extinction_ok host :
  is_ok (extinction_of host) = true ↔
  sweep_clean (end_sweep host) = true ∧ end_elapsed_ms host ≤ MAX_EXTINCTION_DEADLINE_MS.
Proof.
  unfold extinction_of, Termination.verify, surviving_of.
  destruct (sweep_clean (end_sweep host)).
  - simpl. destruct (Z.ltb_spec MAX_EXTINCTION_DEADLINE_MS (end_elapsed_ms host)); simpl.
    + split; [done|]. intros [_ ?]. lia.
    + done.
  - destruct (Z.ltb_spec 0 (match end_sweep host with
      | Some o => Z.max (Z.of_nat (length (residual o))) 1 | None => 1 end)) as [|H].
    + split; [done|by intros []].
    + exfalso. destruct (end_sweep host); lia.
Qed.

Lemma extinct_none_survive host :
  is_ok (extinction_of host) = true → surviving_of (end_sweep host) = 0.
Proof. intros [Hc _]%extinction_ok. unfold surviving_of. by rewrite Hc. Qed.

Lemma sweep_clean_spec o :
  sweep_clean o = true ↔ ∃ out, o = Some out ∧ clean out = true ∧ blind out = false ∧ residual out = [].
Proof.
  destruct o as [out|]; simpl; [|split; [done|by intros (?&?&_)]].
  rewrite !andb_true_iff, negb_true_iff, bool_decide_eq_true. split.
  - intros [[? ?] ?]. by exists out.
  - by intros (? & [= <-] & ? & ? & ?).
Qed.

(** *** The whole close *)

Section Close.
Variables (me : Z) (my_sid : option Z) (roots : gset Z) (host : HostEnd) (disk : AuditDisk).

(** The session's ledger verifies when read back. *)
Definition session_verified (s : SpawnedProductionExecution B) (code : option Z)
    (timed_out : bool) : bool :=
  ledger_verified disk
    (session_ledger host disk s (close_tree me my_sid roots host s code timed_out)).

Lemma session_ledger_code s k k' :
  k_code k = k_code k' → session_ledger host disk s k = session_ledger host disk s k'.
Proof. unfold session_ledger. by intros ->. Qed.

Lemma close_session_eq s code timed_out :
  let k0 := close_tree me my_sid roots host s code timed_out in
  let ok := session_verified s code timed_out in
  let k1 := try_from Attest Verdict "FSM transition to Verdict"
    (apply_ledger (ledger_path disk s) (session_ledger host disk s k0) ok
       (try_from Verify Attest "FSM transition to Attest" k0)) in
  let v := final_verdict (extinction_of host) (evidence_intact host s) ok (k_code k1) in
  close_session me my_sid roots host disk s code timed_out
  = (settle (extinction_of host) (evidence_intact host s) ok (Verdict.reason v) k1, v).
Proof.
  cbv zeta. unfold close_session, session_verified.
  set (k0 := close_tree me my_sid roots host s code timed_out). clearbody k0.
  by rewrite (session_ledger_code s (try_from Verify Attest _ k0) k0) by apply try_from_code.
Qed.

Lemma close_tree_code s code timed_out :
  k_code (close_tree me my_sid roots host s code timed_out)
  = if negb (is_ok (extinction_of host)) || negb (evidence_intact host s)
       || setsid_escaped me my_sid roots s (end_scans host) then Some 125
    else if timed_out then Some 124 else code.
Proof.
  unfold close_tree, apply_evidence.
  destruct (evidence_intact host s); simpl; rewrite ?orb_true_r; [|done].
  rewrite apply_extinction_code, note_sweep_code, close_phases_code.
  destruct (is_ok (extinction_of host)) eqn:E; simpl; [|done].
  destruct (setsid_escaped _ _ _ _ _); [done|].
  rewrite extinct_none_survive by done. by destruct timed_out.
Qed.

(** The exit code the final verdict reports. *)
Lemma apply_ledger_code location written k :
  k_code (apply_ledger location written (ledger_verified disk written) k)
  = if ledger_verified disk written then k_code k else Some 125.
Proof. unfold apply_ledger. destruct written; simpl; [|done]. by case_match. Qed.

Definition all_proven (s : SpawnedProductionExecution B) (code : option Z) (timed_out : bool) :
  bool :=
  is_ok (extinction_of host) && evidence_intact host s && session_verified s code timed_out.

Lemma verdict_code s code timed_out v k :
  close_session me my_sid roots host disk s code timed_out = (k, v) →
  Verdict.exit_code v
  = default 0 (if all_proven s code timed_out
                  && negb (setsid_escaped me my_sid roots s (end_scans host))
               then if timed_out then Some 124 else code else Some 125)
  ∧ (k_code k = Some 125 ∨ all_proven s code timed_out = true ∧ k_code k =
      (if setsid_escaped me my_sid roots s (end_scans host) then Some 125
       else if timed_out then Some 124 else code)).
Proof.
  rewrite close_session_eq. intros [= <- <-].
  set (k1 := try_from Attest Verdict _ _).
  assert (k_code k1 = if all_proven s code timed_out
              && negb (setsid_escaped me my_sid roots s (end_scans host))
            then if timed_out then Some 124 else code else Some 125) as Hk1.
  { unfold k1, all_proven. rewrite try_from_code. unfold session_verified at 1.
    rewrite apply_ledger_code, try_from_code, close_tree_code. fold (session_verified s code timed_out).
    by destruct (is_ok _), (evidence_intact host s), (session_verified s code timed_out),
      (setsid_escaped _ _ _ _ _). }
  clearbody k1. unfold final_verdict. cbn [Verdict.exit_code]. rewrite Hk1. split; [done|].
  unfold all_proven in *.
  destruct (is_ok (extinction_of host)) eqn:Ex, (evidence_intact host s) eqn:Ev,
    (session_verified s code timed_out) eqn:El;
    try (left; unfold settle; rewrite Ex; done).
  destruct (settle_code (extinction_of host) true true
    (Verdict.reason (final_verdict (extinction_of host) true true (k_code k1))) k1) as [E|E];
    [|by left].
  right. split; [done|]. unfold final_verdict in E. rewrite Hk1 in E. simpl in E |- *. rewrite E.
  by destruct (setsid_escaped _ _ _ _ _).
Qed.

(** C4: Whatever state a session is in, it is reported as satisfying its
    contract exactly when the last sweep of the process tree was clean, the
    teardown met its deadline, no evidence was lost and the ledger verifies
    when read back; otherwise, and also when a detached descendant was found,
    the exit code is 125 and the verdict does not pass.  Exit code 0 is
    reported only for an agent that exited with 0 by itself. *)
Theorem finish_fail_closed s code timed_out r :
  finish me my_sid roots host disk s code timed_out = Some r →
  ∃ v, r_verdict r = Some v
    ∧ (security_verdict v = Satisfied ↔
         (∃ out, end_sweep host = Some out ∧ clean out = true ∧ blind out = false
            ∧ residual out = [])
         ∧ end_elapsed_ms host ≤ MAX_EXTINCTION_DEADLINE_MS
         ∧ evidence_intact host s = true ∧ session_verified s code timed_out = true)
    ∧ (security_verdict v ≠ Satisfied
         ∨ setsid_escaped me my_sid roots s (end_scans host) = true →
         r_exit_code r = Some 125 ∧ status v ≠ Pass)
    ∧ (r_exit_code r = Some 0 →
         security_verdict v = Satisfied ∧ code = Some 0 ∧ timed_out = false).
Proof.
  unfold finish. destruct (close_session _ _ _ _ _ _ _ _) as [k v] eqn:E.
  destruct (enforcement (k_cap k)) as [report|]; [|done]. intros [= <-]. exists v. cbn [r_verdict r_exit_code].
  split; [done|]. destruct (verdict_code s code timed_out v k E) as [Hv Hk].
  assert (security_verdict v = Satisfied ↔ all_proven s code timed_out = true) as Hsec.
  { rewrite close_session_eq in E. injection E as _ <-. unfold final_verdict, all_proven.
    cbn [security_verdict].
    by destruct (is_ok _), (evidence_intact host s), (session_verified s code timed_out). }
  assert (status v = Pass → all_proven s code timed_out = true ∧ Verdict.exit_code v = 0) as Hst.
  { rewrite close_session_eq in E. injection E as _ <-. unfold final_verdict, all_proven.
    cbn [status Verdict.exit_code]. match goal with |- context [k_code ?k1] => set (c := k_code k1) end.
    clearbody c.
    destruct (is_ok _), (evidence_intact host s), (session_verified s code timed_out); try done.
    cbn [negb orb andb]. destruct (Z.eqb_spec (default 0 c) 0); [done|done]. }
  assert (all_proven s code timed_out = true ↔
      (∃ out, end_sweep host = Some out ∧ clean out = true ∧ blind out = false
            ∧ residual out = [])
      ∧ end_elapsed_ms host ≤ MAX_EXTINCTION_DEADLINE_MS
      ∧ evidence_intact host s = true ∧ session_verified s code timed_out = true) as Hall.
  { unfold all_proven. rewrite !andb_true_iff, extinction_ok, sweep_clean_spec. tauto. }
  split; [by rewrite Hsec|]. rewrite Hsec. clear Hsec Hall E.
  destruct (all_proven s code timed_out), (setsid_escaped _ _ _ _ _); simpl in Hv.
  - destruct Hk as [->|[_ ->]]; (split; [intros _; split; [done|]|done]); intros [? ?]%Hst; lia.
  - split; [intros [?|?]; done|]. intros H0. destruct Hk as [Hk|[_ Hk]]; [by rewrite Hk in H0|].
    rewrite Hk in H0. by destruct timed_out.
  - destruct Hk as [->|[? _]]; [|done]. split; [|done]. intros _. split; [done|]. by intros [? ?]%Hst.
  - destruct Hk as [->|[? _]]; [|done]. split; [|done]. intros _. split; [done|]. by intros [? ?]%Hst.
Qed.
End Close.

Section Outcome.
Context `{!KeepsReport}.
Variables (me : Z) (my_sid : option Z) (roots : gset Z) (host : HostEnd) (disk : AuditDisk).

Lemma close_phases_at s code vis sv :
  at_state (s_fsm s) Observe vis sv →
  at_state (k_fsm (close_phases (mk_closing (s_capability s) (s_fsm s) code))) Cleanup
    (vis ++ [Terminate; Cleanup]) sv.
Proof.
  intros Hs. unfold close_phases.
  replace (vis ++ [Terminate; Cleanup]) with ((vis ++ [Terminate]) ++ [Cleanup])
    by (by rewrite <-app_assoc).
  apply try_from_at; [|done|done]. apply try_from_at; [|done|done].
  by apply try_from_skip.
Qed.

Lemma close_tree_at s code timed_out vis sv :
  at_state (s_fsm s) Observe vis sv →
  at_state (k_fsm (close_tree me my_sid roots host s code timed_out))
    (if is_ok (extinction_of host) then Verify else EmergencyCleanup)
    (vis ++ [Terminate; Cleanup]
         ++ if is_ok (extinction_of host) then [Verify] else [FailClosed; EmergencyCleanup])
    (Some (surviving_of (end_sweep host))).
Proof.
  intros Hs%(close_phases_at s code). unfold close_tree.
  set (k := close_phases _) in *. clearbody k.
  assert (∀ i k, k_fsm (apply_evidence i k) = k_fsm k) as Hev by (by intros []).
  rewrite Hev. clear Hev.
  assert (k_fsm (note_sweep (end_sweep host) k) = k_fsm k) as Hn by (by destruct (end_sweep host)).
  unfold apply_extinction. set (k1 := set_fsm _ _).
  assert (at_state (k_fsm k1) Cleanup (vis ++ [Terminate; Cleanup])
            (Some (surviving_of (end_sweep host)))) as H1.
  { unfold k1. destruct Hs as (H1 & H2 & _). rewrite <-Hn in H1, H2. by split_and!. }
  clearbody k1. clear Hs Hn.
  set (k2 := if timed_out && _ && _ then _ else k1).
  assert (k_fsm k2 = k_fsm k1) as E2 by (unfold k2; by destruct (timed_out && _ && _)).
  clearbody k2. set (k3 := if setsid_escaped _ _ _ _ _ then _ else k2).
  assert (k_fsm k3 = k_fsm k2) as E3 by (unfold k3; by destruct (setsid_escaped _ _ _ _ _)).
  clearbody k3. rewrite <-E2, <-E3 in H1. rewrite app_assoc.
  destruct (extinction_of host) as [proof|breach]; simpl.
  - by apply (try_transition_at _ Cleanup).
  - apply (enter_fail_closed_at _ Cleanup); [done|left].
Qed.

(** The states a closing session goes through. *)
Definition closing_states (ext intact ledger_ok : bool) : list ExecutionState :=
  [Terminate; Cleanup]
  ++ if ext then [Verify; Attest; Verdict]
       ++ (if intact && ledger_ok then [Terminal] else [FailClosed; EmergencyCleanup; Terminal])
     else [FailClosed; EmergencyCleanup].

Lemma apply_ledger_fsm l w o k : k_fsm (apply_ledger l w o k) = k_fsm k.
Proof. by destruct w, o. Qed.

Lemma attest_at k vis sv label1 label2 l w o :
  at_state (k_fsm k) Verify vis sv →
  at_state (k_fsm (try_from Attest Verdict label2 (apply_ledger l w o
                     (try_from Verify Attest label1 k))))
    Verdict (vis ++ [Attest; Verdict]) sv.
Proof.
  intros Ha. replace (vis ++ [Attest; Verdict]) with ((vis ++ [Attest]) ++ [Verdict])
    by (by rewrite <-app_assoc).
  apply try_from_at; [|done|done]. rewrite apply_ledger_fsm. by apply try_from_at.
Qed.

(** The settled machine, and the exit code when everything is proven. *)
Lemma settle_at ext intact ok reason k vis :
  is_ok ext = true → at_state (k_fsm k) Verdict vis (Some 0) →
  at_state (k_fsm (settle ext intact ok reason k)) Terminal
    (vis ++ if intact && ok then [Terminal] else [FailClosed; EmergencyCleanup; Terminal]) (Some 0)
  ∧ (intact && ok = true → k_code (settle ext intact ok reason k) = k_code k).
Proof.
  intros He Ha. unfold settle. rewrite He. cbn [negb]. rewrite <-negb_andb.
  destruct (intact && ok); cbn [negb].
  - by destruct (transition_at _ _ _ _ (clock_at Terminal) Terminal Ha) as (m' & -> & Hm);
      [done|simpl; lia|].
  - split; [|done]. change (k_fsm (fail_125 ?k)) with (k_fsm k).
    pose proof (enter_fail_closed_at k Verdict _ _ reason Ha) as H4.
    eapply (try_transition_at _ EmergencyCleanup) with (next := Terminal) in H4;
      [|by right; left|done|simpl; lia].
    rewrite <-app_assoc in H4. exact H4.
Qed.

Lemma close_session_at s code timed_out vis sv :
  at_state (s_fsm s) Observe vis sv →
  at_state (k_fsm (close_session me my_sid roots host disk s code timed_out).1)
    (if is_ok (extinction_of host) then Terminal else EmergencyCleanup)
    (vis ++ closing_states (is_ok (extinction_of host)) (evidence_intact host s)
              (session_verified me my_sid roots host disk s code timed_out))
    (Some (surviving_of (end_sweep host)))
  ∧ (all_proven me my_sid roots host disk s code timed_out = true →
     default 0 (k_code (close_session me my_sid roots host disk s code timed_out).1)
     = Verdict.exit_code (close_session me my_sid roots host disk s code timed_out).2
     ∧ (k_code (close_session me my_sid roots host disk s code timed_out).1 = Some 125 →
        Verdict.exit_code (close_session me my_sid roots host disk s code timed_out).2 = 125)).
Proof.
  intros Hs%(close_tree_at s code timed_out). rewrite close_session_eq. cbn [fst snd].
  unfold all_proven. generalize (session_verified me my_sid roots host disk s code timed_out).
  intros ok. set (k0 := close_tree _ _ _ _ _ _ _) in *. clearbody k0. unfold closing_states.
  pose proof (extinct_none_survive host) as H0.
  destruct (is_ok (extinction_of host)) eqn:Ex.
  - rewrite (H0 eq_refl) in *.
    match goal with |- context [settle ?e ?i ?o ?r ?k1] =>
      destruct (settle_at e i o r k1 (vis ++ [Terminate; Cleanup; Verify; Attest; Verdict]))
        as [Hat Hcode] end; [done| |].
    + eapply attest_at in Hs. rewrite <-app_assoc in Hs. exact Hs.
    + rewrite <-app_assoc in Hat. split; [exact Hat|]. cbn [andb].
      intros Hok. rewrite (Hcode Hok). split; [done|]. simpl. by intros ->.
  - split; [|done]. unfold settle. rewrite Ex. change (k_fsm (fail_125 ?k)) with (k_fsm k).
    apply (try_from_skip _ EmergencyCleanup); [|done]. rewrite apply_ledger_fsm.
    by apply (try_from_skip _ EmergencyCleanup).
Qed.

(** C5: The outcome of closing a spawned session, on every branch.  The exit
    code is 125 unless tree, evidence and ledger are all proven and no detached
    descendant was found, then 124 after a timeout and the agent's own code
    otherwise.  The machine ends in emergency clean-up when descendants may
    survive and in the terminal state when not, passing through fail-closed
    when evidence or ledger are missing. *)
Theorem finish_outcome s code timed_out vis sv :
  at_state (s_fsm s) Observe vis sv → is_Some (enforcement (s_capability s)) →
  let ext := is_ok (extinction_of host) in
  let intact := evidence_intact host s in
  let verified := session_verified me my_sid roots host disk s code timed_out in
  ∃ r v, finish me my_sid roots host disk s code timed_out = Some r
    ∧ r_fsm_state r = Some (if ext then Terminal else EmergencyCleanup)
    ∧ visited (k_fsm (close_session me my_sid roots host disk s code timed_out).1)
      = vis ++ closing_states ext intact verified
    ∧ r_exit_code r = (if ext && intact && verified
                          && negb (setsid_escaped me my_sid roots s (end_scans host))
                       then if timed_out then Some 124 else code else Some 125)
    ∧ r_verdict r = Some v ∧ Verdict.exit_code v = default 0 (r_exit_code r)
    ∧ security_verdict v = (if negb ext || negb verified then Violated
                            else if negb intact then Inconclusive else Satisfied)
    ∧ blocked_attempts r = (if bool_decide (status v = Fail) && negb timed_out then 1 else 0).
Proof.
  intros Hs Hrep ext intact ver.
  destruct (close_session_at s code timed_out vis sv Hs) as [(Hst & Hvis & _) Hgood].
  pose proof (close_session_report me my_sid roots host disk s code timed_out Hrep) as [report Hr].
  pose proof (verdict_code me my_sid roots host disk s code timed_out) as Hcode.
  assert (security_verdict (close_session me my_sid roots host disk s code timed_out).2
    = (if negb ext || negb ver then Violated else if negb intact then Inconclusive else Satisfied))
    as Hsec by (by rewrite close_session_eq).
  unfold finish. destruct (close_session _ _ _ _ _ _ _ _) as [k v] eqn:E. cbn [fst snd] in *.
  rewrite Hr. destruct (Hcode v k eq_refl) as [Hv Hk].
  do 2 eexists. split; [reflexivity|].
  cbn [r_fsm_state r_exit_code r_verdict blocked_attempts].
  assert (k_code k = (if all_proven me my_sid roots host disk s code timed_out
                         && negb (setsid_escaped me my_sid roots s (end_scans host))
                      then if timed_out then Some 124 else code else Some 125)) as Ec.
  { destruct (all_proven _ _ _ _ _ _ _ _).
    - destruct (Hgood eq_refl) as [G1 G2]. destruct Hk as [Hk|[_ Hk]].
      + specialize (G2 Hk). rewrite Hv in G2. rewrite Hk. cbn [andb] in *.
        destruct (setsid_escaped _ _ _ _ _), timed_out, code; simpl in G2; done || by rewrite G2.
      + rewrite Hk. by destruct (setsid_escaped _ _ _ _ _).
    - by destruct Hk as [->|[? _]]. }
  split_and!; [by rewrite Hst|exact Hvis|exact Ec|done|by rewrite Ec|exact Hsec|done].
Qed.
End Outcome.

(** *** The ledger of a session on a working disk *)

(** No earlier file; every write and the reading back succeed. *)
Record working_disk (disk : AuditDisk) : Prop := {
  no_file : disk_read disk = Ok None;
  opens : disk_open disk = None;
  appends f l : disk_append disk f l = (f ++ [l], None);
  reads_back lines : disk_back disk lines = Ok (Some lines);
}.

Section Ledgers.
Context {exact : value → Prop} {L : LedgerLaws HL exact}.

Lemma write_ledger_records disk s surviving ext intact code elapsed :
  working_disk disk →
  ∃ r1 r2 r3,
    write_ledger disk s surviving ext intact code elapsed
    = Some (file (record_all (disk_append disk) (mk_ledger [] 0 GENESIS_HASH)
                    (record_object <$> [r1; r2; r3])))
    ∧ record_type <$> [r1; r2; r3] = [SessionInit; TreeExtinction; SessionVerdict]
    ∧ Forall (λ r, ∀ cpu rss pids, audit_payload r ≠ PResourceSample cpu rss pids) [r1; r2; r3].
Proof.
  intros [Hr Ho _ _]. unfold write_ledger, open_ledger. rewrite Hr, Ho.
  destruct (disk_times disk) as [[t0 t1] t2]. unfold record_audit_record.
  set (r1 := session_init _ _ _ _ _ _ _). set (r2 := tree_extinction _ _ _ _ _ _ _ _).
  destruct (record_event _ _ (record_object r1)) as [l1 h1] eqn:E1.
  destruct (record_event _ _ (record_object r2)) as [l2 h2] eqn:E2.
  set (root := match h2 with Ok h => h | Err _ => zeros 64 end).
  set (r3 := session_verdict _ _ _ _ root).
  destruct (record_event _ _ (record_object r3)) as [l3 h3] eqn:E3.
  exists r1, r2, r3. split; [|split; [done|by repeat constructor]].
  unfold record_all. cbn [fmap list_fmap fold_left]. rewrite E1. cbn [fst]. rewrite E2. cbn [fst].
  by rewrite E3.
Qed.

Lemma written_verifies disk s surviving ext intact code elapsed :
  working_disk disk →
  ledger_verified disk (write_ledger disk s surviving ext intact code elapsed) = true.
Proof.
  intros Hd. destruct (write_ledger_records disk s surviving ext intact code elapsed Hd)
    as (r1 & r2 & r3 & -> & Ht & Hp). set (ps := record_object <$> _). unfold ledger_verified, verify_file, verify_file_detailed.
  rewrite (reads_back disk Hd). cbn [fmap result_fmap]. unfold verify_contents.
  destruct (record_all_scan (disk_append disk) (appends disk Hd) ps) as (_ & _ & -> & _).
  - apply Forall_fmap. eapply Forall_impl; [exact Hp|]. intros r Hr. by apply record_object_plain.
  - done.
  - unfold conclude, scan_of. cbn [expected_seq scan_terminal seen_signature is_valid].
    injection Ht as _ _ Ht. unfold ps. cbn [fmap list_fmap existsb]. rewrite !record_object_terminal, Ht.
    rewrite (bool_decide_true (SessionVerdict = SessionVerdict)) by done.
    rewrite !orb_true_r. done.
Qed.

(** C35: A session that behaves completes: with a clean sweep within the
    deadline, an intact evidence channel and a working disk, closing a spawned
    session gives a result with a verified ledger, a satisfied contract, the
    terminal state reached without failing closed, and the agent's own exit
    code (or 124 after a timeout) unless a detached descendant was found. *)
Theorem clean_session_completes `{!KeepsReport} me my_sid roots host disk s code timed_out vis sv
    out :
  at_state (s_fsm s) Observe vis sv → is_Some (enforcement (s_capability s)) →
  working_disk disk →
  end_sweep host = Some out → clean out = true → blind out = false → residual out = [] →
  end_elapsed_ms host ≤ MAX_EXTINCTION_DEADLINE_MS →
  end_channel host = true → channel_intact (evidence (s_context s)) = true →
  setsid_escaped me my_sid roots s (end_scans host) = false →
  ∃ r v, finish me my_sid roots host disk s code timed_out = Some r
    ∧ r_exit_code r = (if timed_out then Some 124 else code)
    ∧ r_fsm_state r = Some Terminal ∧ r_verdict r = Some v
    ∧ security_verdict v = Satisfied
    ∧ visited (k_fsm (close_session me my_sid roots host disk s code timed_out).1)
      = vis ++ [Terminate; Cleanup; Verify; Attest; Verdict; Terminal].
Proof.
  intros Hs Hrep Hdisk Hsw Hc Hb Hres Hel Hch Hctx Hesc.
  assert (is_ok (extinction_of host) = true) as He.
  { apply extinction_ok. split; [|done]. apply sweep_clean_spec. by exists out. }
  assert (evidence_intact host s = true) as Hi by (unfold evidence_intact; by rewrite Hch, Hctx).
  assert (session_verified me my_sid roots host disk s code timed_out = true) as Hv.
  { unfold session_verified, session_ledger. by apply written_verifies. }
  destruct (close_session_at me my_sid roots host disk s code timed_out vis sv Hs)
    as [(Hst & Hvis & _) Hgood].
  destruct (close_session_report me my_sid roots host disk s code timed_out Hrep) as [report Hr].
  pose proof (verdict_code me my_sid roots host disk s code timed_out) as Hcode.
  assert (all_proven me my_sid roots host disk s code timed_out = true) as Hall
    by (unfold all_proven; by rewrite He, Hi, Hv).
  assert (security_verdict (close_session me my_sid roots host disk s code timed_out).2
    = Satisfied) as Hsec.
  { rewrite close_session_eq. simpl. by rewrite He, Hi, Hv. }
  specialize (Hgood Hall). unfold finish.
  destruct (close_session _ _ _ _ _ _ _ _) as [k v] eqn:E. cbn [fst snd] in *.
  rewrite Hr. destruct (Hcode v k eq_refl) as [Hev Hk]. destruct Hgood as [_ G2].
  do 2 eexists. split; [reflexivity|]. cbn [r_exit_code r_fsm_state r_verdict].
  rewrite Hst, Hvis, He, Hi, Hv. rewrite Hall, Hesc in Hev. rewrite Hesc in Hk. split_and!; try done.
  destruct Hk as [Hk|[_ Hk]]; [|done]. rewrite (G2 Hk) in Hev. rewrite Hk. simpl in Hev.
  destruct timed_out, code; simpl in Hev; done || by rewrite Hev.
Qed.
End Ledgers.

(** *** Waiting *)

Section Waiting.
Context {W : Type} `{K : WaitKill W} {time : W → Z} {LK : ClockLaws W time}.

(** The killer returns, and reports a kill only after the deadline. *)
Lemma killer_returns fuel deadline poll grace w :
  0 < poll → deadline - time w ≤ Z.of_nat fuel * poll → grace ≤ Z.of_nat fuel * poll →
  seconds 10 ≤ Z.of_nat fuel * poll →
  ∃ w' outcome code,
    kill_on_deadline_with_grace (S fuel) deadline poll grace w = Some (w', (outcome, code)).
Proof.
  intros Hp Hd Hg Ht. unfold kill_on_deadline_with_grace, escalate, force_kill.
  destruct (poll_until_done fuel deadline poll w Hp Hd) as (w1 & c1 & -> & _ & _).
  cbn [mbind option_bind]. destruct c1 as [c|]; [by eauto|].
  pose proof (now_reads (terminate_graceful w1)) as H1.
  destruct (now (terminate_graceful w1)) as [w1' t]. simpl in H1. subst t.
  destruct (poll_until_done fuel (time w1' + grace) poll w1' Hp) as (w2 & c2 & -> & _ & _); [lia|].
  cbn [mbind option_bind]. destruct c2 as [c|]; [by eauto|].
  pose proof (now_reads (terminate w2)) as H2.
  destruct (now (terminate w2)) as [w2' t]. simpl in H2. subst t.
  destruct (poll_until_done fuel (time w2' + seconds 10) poll w2' Hp) as (w3 & c3 & -> & _ & _);
    [lia|].
  cbn [mbind option_bind]. destruct c3; by eauto.
Qed.

(** A session with a timeout always ends with a result: the child exits or
    is killed, and closing cannot fail.  The result carries exit code 124 only
    when the deadline killed the child or the child itself returned it, and 0
    only when the child exited with 0 in time. *)
Theorem wait_collect_returns `{!KeepsReport} me my_sid roots host disk fuel s limit w vis sv :
  s_timeout s = Some limit →
  at_state (s_fsm s) Observe vis sv → is_Some (enforcement (s_capability s)) →
  limit ≤ Z.of_nat fuel * PROD_EXIT_POLL → seconds 10 ≤ Z.of_nat fuel * PROD_EXIT_POLL →
  ∃ w' outcome code r,
    kill_on_deadline_with (S fuel) ((now w).2 + limit) PROD_EXIT_POLL (now w).1
      = Some (w', (outcome, code))
    ∧ wait_collect me my_sid roots host disk (S fuel) s w = Some (w', Some r)
    ∧ r_timed_out r = (match outcome with KilledOnDeadline => true | Exited => false end)
    ∧ (r_exit_code r = Some 124 → r_timed_out r = true ∨ code = 124)
    ∧ (r_exit_code r = Some 0 → r_timed_out r = false ∧ code = 0).
Proof.
  intros Hto Hs Hrep Hlim H10. unfold wait_collect, wait_for_exit. rewrite Hto.
  pose proof (now_reads w) as H1. destruct (now w) as [w1 t]. cbn [fst snd] in *. subst t.
  unfold kill_on_deadline_with.
  destruct (killer_returns fuel (time w1 + limit) PROD_EXIT_POLL (seconds 2) w1)
    as (w' & outcome & code & ->); [done|lia|unfold seconds in *; lia|done|].
  cbn [mbind option_bind]. set (timed_out := match outcome with KilledOnDeadline => true | _ => _ end).
  destruct (close_session_report me my_sid roots host disk s (Some code) timed_out Hrep)
    as [report Hr].
  pose proof (verdict_code me my_sid roots host disk s (Some code) timed_out) as Hcode.
  unfold finish. destruct (close_session _ _ _ _ _ _ _ _) as [k v] eqn:E. cbn [fst] in Hr.
  rewrite Hr. do 4 eexists. split; [reflexivity|]. split; [reflexivity|].
  cbn [r_timed_out r_exit_code]. destruct (Hcode v k eq_refl) as [_ Hk].
  split; [done|]. clearbody timed_out.
  destruct Hk as [->|[_ ->]]; [done|]. destruct (setsid_escaped _ _ _ _ _), timed_out; naive_solver.
Qed.
End Waiting.
End Session.

(** ** Findings *)

(** A descendant that left the session in the fs-only tier forces exit code
    125, yet the verdict reports the contract as satisfied and the session as
    completed. *)
Lemma escape_reports_satisfied `{HB : SandboxBackend B} `{HL : LedgerCodec} clock_at me my_sid roots
    host disk (s : SpawnedProductionExecution B) code timed_out r :
  finish clock_at me my_sid roots host disk s code timed_out = Some r →
  setsid_escaped me my_sid roots s (end_scans host) = true →
  all_proven clock_at me my_sid roots host disk s code timed_out = true →
  ∃ v, r_verdict r = Some v ∧ security_verdict v = Satisfied ∧ is_contract_satisfied v = true
    ∧ Verdict.reason v = completed_reason ∧ Verdict.exit_code v = 125.
Proof.
  unfold finish. destruct (close_session _ _ _ _ _ _ _ _ _) as [k v] eqn:E.
  destruct (enforcement (k_cap k)) as [report|]; [|done]. intros [= <-] Hesc Hall.
  exists v. cbn [r_verdict]. split; [done|].
  destruct (verdict_code clock_at me my_sid roots host disk s code timed_out v k E) as [Hv _].
  rewrite Hall, Hesc in Hv. simpl in Hv. rewrite close_session_eq in E.
  injection E as _ <-. unfold all_proven in Hall.
  apply andb_true_iff in Hall as [[He Hi]%andb_true_iff Hl].
  unfold final_verdict in *. unfold is_contract_satisfied. simpl in *.
  rewrite He, Hi, Hl in *. split_and!; try done.
  destruct (extinction_of host); [done|discriminate He].
Qed.

(** Spawning resets the evidence flag of the whole process, and nothing ever
    clears a session's own flag: a disruption seen while one session runs is
    forgotten when another one starts. *)
Lemma concurrent_spawn_hides_disruption g :
  evidence_channel_intact (reset_evidence_channel (mark_evidence_channel_disrupted g)) = true.
Proof. done. Qed.

(** ** Backends that keep their report *)

#[export] Instance linux_keeps_report : @KeepsReport LinuxBackend linux_backend.
Proof.
  split.
  - intros d b. done.
  - intros c b [r Hr]. simpl in *. unfold linux_tree_clean. case_bool_decide; [by exists r|].
    simpl. rewrite Hr. by eexists.
Qed.

#[export] Instance direct_keeps_report : @KeepsReport DirectBackend direct_backend.
Proof. by split. Qed.

(** ** A concrete session *)

Definition observing : list ExecutionState :=
  [Intent; PolicyCompiled; ContractSealed; Fsm.Prepare; Spawn; Enforce; Observe].
Definition demo_contract : SecurityContract :=
  mk_contract None 1 "production-n0nce" "n0nce"
    (mk_agent "claude" "claude" "0.6.3" (components "/usr/bin/claude") ["run"])
    (mk_fs (components "/workspace") [] [] [] [] false false false)
    (mk_network NmOff [] [] false false) (mk_resources 0 0 100 5000 1048576 0)
    (mk_environment [] ∅ [] true) (mk_attestation true false false "HOST_FACT") default_crypto
    "digest" "sha".
Definition demo_running : SpawnedProductionExecution LinuxBackend :=
  mk_running (context_new PROD_SCENARIO_ID) demo_contract
    (mk_handle 4242 (Some (ProcessGroup 4242 4242 true))) None None None 4242 "n0nce"
    sample_identity (components "/workspace") PROD_SCENARIO_ID (Some 5000000000)
    (note_spawned 4242 prepared_linux)
    (mk_fsm Observe ((λ s, (s, 0)) <$> observing) None).

(** A host whose last sweep was clean, or left a process behind. *)
Definition demo_end (residue : list Z) : HostEnd :=
  mk_end [Some []] (Some (mk_sweep (bool_decide (residue = [])) 1 residue true false)) 20 true
    "out" EmptyString.
Definition demo_disk : AuditDisk :=
  mk_disk (components "/tmp/vetto-audit") (Ok None) None demo_append (λ lines, Ok (Some lines))
    ("t0", "t1", "t2").
Lemma demo_disk_works : working_disk demo_disk.
Proof. by split. Qed.

Definition demo_finish (residue : list Z) (code : Z) : option ProductionResult :=
  @finish LinuxBackend linux_backend demo_ledger_codec demo_clock 7 (Some 5) ∅
    (demo_end residue) demo_disk demo_running (Some code) false.

Lemma demo_running_at : at_state (s_fsm demo_running) Observe observing None.
Proof. by split_and!. Qed.
Lemma demo_running_report : is_Some (@enforcement _ linux_backend (s_capability demo_running)).
Proof. vm_compute. by eexists. Qed.

Lemma finish_fail_closed_witness :
  match demo_finish [41] 0 with Some r => r_exit_code r = Some 125 | None => False end.
Proof.
  destruct (@finish_gives LinuxBackend linux_backend demo_ledger_codec demo_clock
    linux_keeps_report 7 (Some 5) ∅ (demo_end [41]) demo_disk demo_running (Some 0) false
    demo_running_report) as [r Er]. unfold demo_finish. rewrite Er.
  destruct (@finish_fail_closed _ _ _ _ _ _ _ _ _ _ _ _ _ Er) as (v & _ & Hsec & Hbad & _).
  apply Hbad. left. rewrite Hsec. intros ((out & [= <-] & Hc & _) & _). discriminate Hc.
Defined.

Lemma finish_outcome_witness :
  ∃ r, demo_finish [41] 0 = Some r ∧ r_fsm_state r = Some EmergencyCleanup.
Proof.
  destruct (@finish_outcome LinuxBackend linux_backend demo_ledger_codec demo_clock
    linux_keeps_report 7 (Some 5) ∅ (demo_end [41]) demo_disk demo_running (Some 0) false
    observing None demo_running_at demo_running_report) as (r & v & Hf & Hst & _).
  exists r. split; [exact Hf|exact Hst].
Defined.

Lemma clean_session_completes_witness :
  ∃ r, demo_finish [] 3 = Some r ∧ r_exit_code r = Some 3 ∧ r_fsm_state r = Some Terminal.
Proof.
  destruct (@clean_session_completes LinuxBackend linux_backend demo_ledger_codec demo_clock
    (λ _, True) demo_ledger_laws linux_keeps_report 7 (Some 5) ∅ (demo_end []) demo_disk
    demo_running (Some 3) false observing None (mk_sweep true 1 [] true false) demo_running_at
    demo_running_report demo_disk_works)
    as (r & v & Hf & Hcode & Hst & _); try reflexivity; [vm_compute; discriminate|].
  exists r. split_and!; [exact Hf|exact Hcode|exact Hst].
Defined.

Lemma wait_collect_returns_witness :
  ∃ w r, @wait_collect LinuxBackend linux_backend demo_ledger_codec demo_clock 7 (Some 5) ∅
           (demo_end []) demo_disk DemoWorld demo_wait_kill 1001 demo_running (mk_world 0 false)
         = Some (w, Some r).
Proof.
  destruct (@wait_collect_returns LinuxBackend linux_backend demo_ledger_codec demo_clock
    DemoWorld demo_wait_kill Termination.demo_time demo_clock_laws linux_keeps_report 7 (Some 5) ∅
    (demo_end []) demo_disk 1000 demo_running 5000000000 (mk_world 0 false) observing None eq_refl
    demo_running_at demo_running_report)
    as (w & outcome & code & r & _ & Hw & _); [vm_compute; discriminate..|].
  exists w, r. exact Hw.
Defined.
