(* ===== verification/Bytes.v ===== *)
(** * Bytes: byte strings by position

    Rust's [&[u8]] and the byte view of [&str] as lists of bytes, with the
    searches and runs the text filters use, character boundaries, and the UTF-8
    invariant of [str]. *)

From S2P Require Import Prelude.

Abbreviation bytes := (list ascii).

(** A literal. *)
Definition bs (s : string) : bytes := list_ascii_of_string s.

(** [s.starts_with(pre)]. *)
Fixpoint starts (s pre : bytes) {struct pre} : bool :=
  match pre, s with
  | [], _ => true
  | a :: pre, b :: s => Ascii.eqb a b && starts s pre
  | _ :: _, [] => false
  end.

(** [s.find(needle)]: the offset of the first occurrence. *)
Fixpoint find (needle s : bytes) : option nat :=
  if starts s needle then Some 0%nat
  else match s with
       | [] => None
       | _ :: s => match find needle s with Some i => Some (S i) | None => None end
       end.

(** The number of leading bytes satisfying [P]. *)
Fixpoint run (P : ascii → bool) (s : bytes) : nat :=
  match s with
  | a :: s => if P a then S (run P s) else 0
  | [] => 0
  end.

Definition is_alnum (c : ascii) : bool := is_digit c || is_upper c || is_lower c.
Definition is_hexdigit (c : ascii) : bool :=
  is_digit c || (Ascii.leb "A" c && Ascii.leb c "F") || (Ascii.leb "a" c && Ascii.leb c "f").
Definition one_of_bytes (cs : bytes) (c : ascii) : bool := existsb (Ascii.eqb c) cs.

Definition tab : ascii := chr 9.
Definition lf : ascii := chr 10.
Definition ff : ascii := chr 12.
Definition cr : ascii := chr 13.
Definition dquote : ascii := chr 34.
Definition squote : ascii := chr 39.
Definition is_ascii_whitespace (c : ascii) : bool := one_of_bytes [" "%char; tab; lf; ff; cr] c.
Definition is_blank (c : ascii) : bool := one_of_bytes [" "%char; tab] c.

Definition lower_bytes : bytes → bytes := fmap lower_ascii.

(** ** UTF-8 *)

Definition byte_in (lo hi : nat) (c : ascii) : bool :=
  (lo <=? nat_of_ascii c)%nat && (nat_of_ascii c <=? hi)%nat.
Definition is_continuation : ascii → bool := byte_in 128 191.
Definition is_ascii_byte : ascii → bool := byte_in 0 127.

(** One well-formed character. *)
Definition utf8_char (c : bytes) : bool :=
  match c with
  | [a] => is_ascii_byte a
  | [a; b] => byte_in 194 223 a && is_continuation b
  | [a; b; c] =>
      ((byte_in 224 224 a && byte_in 160 191 b) || (byte_in 225 236 a && is_continuation b)
       || (byte_in 237 237 a && byte_in 128 159 b) || (byte_in 238 239 a && is_continuation b))
      && is_continuation c
  | [a; b; c; d] =>
      ((byte_in 240 240 a && byte_in 144 191 b) || (byte_in 241 243 a && is_continuation b)
       || (byte_in 244 244 a && byte_in 128 143 b)) && is_continuation c && is_continuation d
  | _ => false
  end.

(** The invariant of [str]. *)
Inductive utf8 : bytes → Prop :=
| utf8_nil : utf8 []
| utf8_cons c s : utf8_char c = true → utf8 s → utf8 (c ++ s).

(** [s.is_char_boundary(i)]: slicing elsewhere panics. *)
Definition is_char_boundary (s : bytes) (i : nat) : bool :=
  match i with
  | O => true
  | _ => match s !! i with
         | Some b => negb (is_continuation b)
         | None => (i =? length s)%nat
         end
  end.

(** ** Lemmas: searches and runs *)

Lemma starts_true s pre : starts s pre = true ↔ ∃ r, s = pre ++ r.
Proof.
  revert s. induction pre as [|a pre IH]; intros [|b s]; cbn; [naive_solver..| |].
  - split; [done|]. by intros [? [=]].
  - rewrite andb_true_iff, Ascii.eqb_eq, IH. split; [intros [-> [r ->]]; by exists r|].
    intros [r [= -> ->]]. split; [done|]. by exists r.
Qed.

Lemma starts_app pre r : starts (pre ++ r) pre = true.
Proof. apply starts_true. by exists r. Qed.

Lemma find_Some needle s i :
  find needle s = Some i → ∃ a b, s = a ++ needle ++ b ∧ i = length a.
Proof.
  revert i. induction s as [|c s IH]; intros i; cbn.
  - destruct (starts [] needle) eqn:E; [|done]. intros [= <-].
    apply starts_true in E as [r ->]. by exists [], r.
  - destruct (starts (c :: s) needle) eqn:E.
    + intros [= <-]. apply starts_true in E as [r ->]. by exists [], r.
    + destruct (find needle s) as [j|]; [|done]. intros [= <-].
      destruct (IH j eq_refl) as (a & b & -> & ->). by exists (c :: a), b.
Qed.

Lemma find_None needle s : find needle s = None → ∀ a b, s ≠ a ++ needle ++ b.
Proof.
  induction s as [|c s IH]; cbn.
  - destruct (starts [] needle) eqn:E; [done|]. intros _ a b H.
    symmetry in H. apply app_eq_nil in H as [-> H]. by apply app_eq_nil in H as [-> ->].
  - destruct (starts (c :: s) needle) eqn:E; [done|].
    destruct (find needle s) eqn:Ef; [done|]. intros _ [|d a] b H.
    + cbn in H. by rewrite H, starts_app in E.
    + injection H as -> H. by apply (IH eq_refl a b).
Qed.

Lemma run_split P s :
  s = take (run P s) s ++ drop (run P s) s
  ∧ Forall (λ c, P c = true) (take (run P s) s)
  ∧ match drop (run P s) s with c :: _ => P c = false | [] => True end.
Proof.
  split; [by rewrite take_drop|]. induction s as [|c s [IH1 IH2]]; [done|]. cbn.
  destruct (P c) eqn:E; cbn; [|done]. split; [by constructor|done].
Qed.

Lemma run_app P w r : Forall (λ c, P c = true) w → run P (w ++ r) = (length w + run P r)%nat.
Proof. induction 1 as [|c w Hc Hw IH]; [done|]. cbn. by rewrite Hc, IH. Qed.

Lemma run_le P s : (run P s ≤ length s)%nat.
Proof. induction s as [|c s IH]; cbn; [lia|]. destruct (P c); lia. Qed.

Lemma run_max P w c r : Forall (λ c, P c = true) w → P c = false → run P (w ++ c :: r) = length w.
Proof. intros Hw Hc. rewrite run_app by done. cbn. rewrite Hc. lia. Qed.

Lemma run_ext_split P r b :
  Forall (λ c, P c = true) r → match b with c :: _ => P c = false | [] => True end →
  run P (r ++ b) = length r.
Proof.
  intros Hr Hb. destruct b as [|c b]; [|by apply run_max].
  rewrite run_app by done. cbn. lia.
Qed.

(** ** Lemmas: UTF-8 *)

Ltac all_bytes := intros [[] [] [] [] [] [] [] []]; vm_compute; done.

Lemma ascii_not_continuation c : is_ascii_byte c = true → is_continuation c = false.
Proof. revert c. all_bytes. Qed.

Lemma byte_in_mono lo hi lo' hi' a :
  byte_in lo hi a = true → (lo' ≤ lo)%nat → (hi ≤ hi')%nat → byte_in lo' hi' a = true.
Proof. unfold byte_in. rewrite !andb_true_iff, !Nat.leb_le. lia. Qed.

(** A character is a leading byte and continuation bytes, fewer than four. *)
Lemma utf8_char_shape c :
  utf8_char c = true →
  ∃ a tail, c = a :: tail ∧ is_continuation a = false
    ∧ Forall (λ b, is_continuation b = true) tail
    ∧ (tail ≠ [] → is_ascii_byte a = false).
Proof.
  assert (∀ a, byte_in 194 244 a = true → is_continuation a = false ∧ is_ascii_byte a = false)
    as Hlead by all_bytes.
  assert (∀ lo hi a, byte_in lo hi a = true → (194 ≤ lo)%nat → (hi ≤ 244)%nat →
    is_continuation a = false ∧ is_ascii_byte a = false) as Hin.
  { intros lo hi a Ha ? ?. by apply Hlead, (byte_in_mono lo hi). }
  assert (∀ lo hi a, byte_in lo hi a = true → (128 ≤ lo)%nat → (hi ≤ 191)%nat →
    is_continuation a = true) as Hc.
  { intros lo hi a Ha ? ?. by apply (byte_in_mono lo hi). }
  destruct c as [|a [|b [|c [|d [|]]]]]; cbn; try done.
  - intros H. exists a, []. split_and!; [done|by apply ascii_not_continuation|done|done].
  - rewrite andb_true_iff. intros [Ha Hb]. apply Hin in Ha as [Ha Ha']; [|lia..].
    exists a, [b]. repeat constructor; done.
  - rewrite !andb_true_iff, !orb_true_iff, !andb_true_iff. intros [H Hc']. exists a, [b; c].
    destruct H as [[[[Ha Hb]|[Ha Hb]]|[Ha Hb]]|[Ha Hb]];
      apply Hin in Ha as [Ha Ha']; try lia; repeat constructor; try done;
      apply Hc in Hb; by try lia.
  - rewrite !andb_true_iff, !orb_true_iff, !andb_true_iff. intros [[H Hc'] Hd].
    exists a, [b; c; d].
    destruct H as [[[Ha Hb]|[Ha Hb]]|[Ha Hb]];
      apply Hin in Ha as [Ha Ha']; try lia; repeat constructor; try done;
      apply Hc in Hb; by try lia.
Qed.

Lemma utf8_app s t : utf8 s → utf8 t → utf8 (s ++ t).
Proof. induction 1; [done|]. intros Ht. rewrite <-(assoc_L (++)). constructor; auto. Qed.

Lemma utf8_ascii s : Forall (λ c, is_ascii_byte c = true) s → utf8 s.
Proof. induction 1 as [|c s Hc Hs IH]; [constructor|]. by apply (utf8_cons [c]). Qed.

Lemma utf8_head c s : utf8 (c :: s) → is_continuation c = false.
Proof.
  intros H. inversion H as [|ch s' Hc Hs E]. apply utf8_char_shape in Hc as (a & tl & -> & Ha & _).
  by injection E as -> _.
Qed.

(** Slicing a [str] on a boundary leaves two [str]s. *)
Lemma utf8_boundary s i :
  utf8 s → is_char_boundary s i = true → utf8 (take i s) ∧ utf8 (drop i s) ∧ (i ≤ length s)%nat.
Proof.
  intros H. revert i. induction H as [|c s Hc Hs IH]; intros i Hi.
  - destruct i; [|done]. repeat split; [constructor..|done].
  - destruct (decide (i = 0%nat)) as [->|Hne].
    { rewrite take_0, drop_0. repeat split; [constructor| |lia]. by constructor. }
    pose proof (utf8_char_shape c Hc) as (a & tl & Ec & _ & Htl & _).
    destruct (decide (i < length c)%nat) as [Hlt|Hge].
    { exfalso. destruct i as [|i]; [done|]. unfold is_char_boundary in Hi.
      rewrite lookup_app_l in Hi by done. destruct (lookup_lt_is_Some_2 _ _ Hlt) as [b Eb].
      rewrite Eb in Hi. subst c. rewrite Forall_lookup in Htl. by rewrite (Htl i b Eb) in Hi. }
    assert (is_char_boundary s (i - length c) = true) as Hb.
    { destruct i as [|i]; [done|]. unfold is_char_boundary in Hi.
      rewrite lookup_app_r, length_app in Hi by lia.
      unfold is_char_boundary. destruct (S i - length c)%nat eqn:E; [done|].
      destruct (s !! S n); [done|]. apply Nat.eqb_eq in Hi. apply Nat.eqb_eq. lia. }
    destruct (IH _ Hb) as (H1 & H2 & H3).
    rewrite take_app_ge, drop_app_ge, length_app by lia.
    repeat split; [by constructor|done|lia].
Qed.

(** ** Offsets at which a text splits into two texts *)

Definition cut (s : bytes) (i : nat) : Prop := (i ≤ length s)%nat ∧ utf8 (drop i s).

Lemma cut_0 s : utf8 s → cut s 0.
Proof. by split; [lia|]. Qed.

Lemma cut_boundary s i : cut s i → is_char_boundary s i = true.
Proof.
  intros [Hi Hu]. destruct i as [|i]; [done|]. cbn [is_char_boundary].
  destruct (s !! S i) as [b|] eqn:E.
  - rewrite (drop_S _ _ _ E) in Hu. by rewrite (utf8_head _ _ Hu).
  - apply lookup_ge_None in E. apply Nat.eqb_eq. lia.
Qed.

Lemma boundary_cut s i : utf8 s → is_char_boundary s i = true → cut s i.
Proof. intros Hs (_ & H & ?)%utf8_boundary; [by split|done]. Qed.

Lemma cut_take s i : utf8 s → cut s i → utf8 (take i s).
Proof. intros Hs Hc. by apply utf8_boundary, cut_boundary. Qed.

Lemma cut_length s : cut s (length s).
Proof. split; [done|]. rewrite drop_all. constructor. Qed.

(** Wherever an ASCII byte stands. *)
Lemma cut_at s i b : utf8 s → s !! i = Some b → is_ascii_byte b = true → cut s i.
Proof.
  intros Hs E Hb. apply boundary_cut; [done|]. destruct i as [|i]; [done|].
  cbn [is_char_boundary]. rewrite E. by rewrite ascii_not_continuation.
Qed.

Lemma utf8_tail_ascii b s : utf8 (b :: s) → is_ascii_byte b = true → utf8 s.
Proof.
  intros H Hb. inversion H as [|ch s' Hc Hs E].
  apply utf8_char_shape in Hc as (a & tl & -> & _ & _ & Ht). injection E as -> <-.
  destruct tl as [|x tl]; [done|]. rewrite Ht in Hb; done.
Qed.

Lemma cut_next s i b : cut s i → s !! i = Some b → is_ascii_byte b = true → cut s (i + 1).
Proof.
  intros [Hi Hu] E Hb. split; [apply lookup_lt_Some in E; lia|].
  rewrite (drop_S _ _ _ E) in Hu. apply utf8_tail_ascii in Hu; [|done].
  by rewrite Nat.add_1_r.
Qed.

Lemma cut_ascii w r : utf8 (w ++ r) → Forall (λ c, is_ascii_byte c = true) w → utf8 r.
Proof. intros Hu. induction 1 as [|c w Hc Hw IH]; [done|]. by apply IH, (utf8_tail_ascii c). Qed.

(** After a run of ASCII characters, and after a run that only an ASCII byte can
    end. *)
Lemma cut_run_ascii P s i :
  (∀ c, P c = true → is_ascii_byte c = true) → cut s i → cut s (i + run P (drop i s)).
Proof.
  intros HP [Hi Hu]. pose proof (run_split P (drop i s)) as (E & Hrun & _).
  pose proof (run_le P (drop i s)) as Hle. rewrite length_drop in Hle. split; [lia|].
  rewrite <-drop_drop. eapply cut_ascii; [by rewrite <-E|].
  eapply Forall_impl; [exact Hrun|]. auto.
Qed.

Lemma cut_run_other P s i :
  (∀ c, is_continuation c = true → P c = true) → utf8 s → (i ≤ length s)%nat → cut s i →
  cut s (i + run P (drop i s)).
Proof.
  intros HP Hs Hi Hc. pose proof (run_split P (drop i s)) as (_ & _ & Hend).
  pose proof (run_le P (drop i s)) as Hle. rewrite length_drop in Hle.
  rewrite drop_drop in Hend.
  assert (i + run P (drop i s) ≤ length s)%nat as Hj by lia.
  set (j := (i + run P (drop i s))%nat) in *. clearbody j.
  destruct (decide (j = i)) as [->|Hne]; [done|].
  apply boundary_cut; [done|]. destruct j as [|j]; [done|]. cbn [is_char_boundary].
  destruct (s !! S j) as [b|] eqn:E.
  - rewrite (drop_S _ _ _ E) in Hend. destruct (is_continuation b) eqn:Eb; [|done].
    by rewrite HP in Hend.
  - apply lookup_ge_None in E. apply Nat.eqb_eq. lia.
Qed.

Lemma lower_ascii_byte_in : ∀ c,
  is_ascii_byte (lower_ascii c) = is_ascii_byte c
  ∧ (is_ascii_byte c = false → lower_ascii c = c).
Proof. all_bytes. Qed.

Lemma lower_continuation : ∀ c, is_continuation (lower_ascii c) = is_continuation c.
Proof. all_bytes. Qed.

Lemma lower_boundary s i : is_char_boundary (lower_bytes s) i = is_char_boundary s i.
Proof.
  destruct i as [|i]; [done|]. cbn [is_char_boundary]. unfold lower_bytes.
  rewrite list_lookup_fmap, length_fmap. destruct (s !! S i); [|done]. cbn. by rewrite lower_continuation.
Qed.

Lemma starts_lower s w :
  starts (lower_bytes s) w = true → ∃ u r, s = u ++ r ∧ lower_bytes u = w.
Proof.
  intros [r E]%starts_true. apply fmap_app_inv in E as (u & r' & Eu & _ & ->).
  by exists u, r'.
Qed.

Lemma cut_prefix w r : utf8 (w ++ r) → Forall (λ c, is_ascii_byte c = true) w → cut (w ++ r) (length w).
Proof.
  intros Hu Hw. split; [rewrite length_app; lia|]. rewrite drop_app_length. by eapply cut_ascii.
Qed.

Lemma cut_starts s w :
  utf8 s → Forall (λ c, is_ascii_byte c = true) w → starts s w = true → cut s (length w).
Proof. intros Hu Hw [r ->]%starts_true. by apply cut_prefix. Qed.

Lemma lower_ascii_inv u :
  Forall (λ c, is_ascii_byte c = true) (lower_bytes u) → Forall (λ c, is_ascii_byte c = true) u.
Proof.
  unfold lower_bytes. rewrite Forall_fmap. intros H. eapply Forall_impl; [exact H|].
  intros c Hc. change (is_ascii_byte (lower_ascii c) = true) in Hc. by rewrite (proj1 (lower_ascii_byte_in c)) in Hc.
Qed.

Lemma cut_starts_lower s w :
  utf8 s → Forall (λ c, is_ascii_byte c = true) w → starts (lower_bytes s) w = true →
  cut s (length w).
Proof.
  intros Hu Hw (u & r & -> & <-)%starts_lower. unfold lower_bytes. rewrite length_fmap.
  by apply cut_prefix, lower_ascii_inv.
Qed.

Lemma cut_find s needle i :
  utf8 s → needle ≠ [] → Forall (λ c, is_ascii_byte c = true) needle → find needle s = Some i →
  cut s i ∧ cut s (i + length needle).
Proof.
  intros Hs Hne Hn (u & v & -> & ->)%find_Some. destruct needle as [|a needle]; [done|].
  pose proof Hn as [Ha Hn']%Forall_cons.
  assert (cut (u ++ (a :: needle) ++ v) (length u)) as Hc.
  { apply (cut_at _ _ a); [done| |done]. rewrite lookup_app_r by lia. by rewrite Nat.sub_diag. }
  split; [done|]. destruct Hc as [_ Hu]. rewrite drop_app_length in Hu. split.
  - rewrite !length_app. lia.
  - rewrite <-drop_drop, drop_app_length, drop_app_length. by eapply cut_ascii.
Qed.

Lemma cut_drop s i j : (i ≤ length s)%nat → cut (drop i s) j → cut s (i + j).
Proof. intros Hi [Hj Hu]. rewrite length_drop in Hj. rewrite drop_drop in Hu. split; [lia|done]. Qed.
