(* ===== verification/Sanitizer.v ===== *)
(** * Sanitizer: redaction of secrets in lines and byte slices

    Model of [src/src/sanitizer.rs].  A line goes through five passes, each a loop
    over the characters that redacts what its matcher recognises ([scan]);
    slicing a [str] off a character boundary panics.  The base-2 logarithm of the
    platform's math library is a parameter. *)

From Stdlib Require Import Floats.SpecFloat.
From S2P Require Import Prelude Float64 Bytes.

(** ** Slices of [str] *)

(** [&s[a..b]] and [&s[a..]]. *)
Definition slice (s : bytes) (a b : nat) : outcome bytes :=
  if is_char_boundary s a && is_char_boundary s b && (a <=? b)%nat
  then Done (take (b - a) (drop a s)) else Panic.
Definition slice_from (s : bytes) (a : nat) : outcome bytes :=
  if is_char_boundary s a then Done (drop a s) else Panic.

(** ** PEM blocks *)

Definition PEM_MARKER : bytes := bs "[REDACTED PEM BODY]".

(** [fuel] bounds the depth of the recursion, which drops a non-empty block. *)
Fixpoint redact_pem_from (fuel : nat) (s : bytes) : outcome bytes :=
  match find (bs "-----BEGIN") s with
  | None => Done s
  | Some begin =>
      from_begin ← slice_from s begin;
      match find (bs "-----END") from_begin with
      | None => Done s
      | Some rel =>
          let after := (begin + rel + length (bs "-----END"))%nat in
          from_after ← slice_from s after;
          let block_end := match find (bs "-----") from_after with
                           | Some i => (after + i + 5)%nat
                           | None => length s
                           end in
          block ← slice s begin block_end;
          let header_line_end := match find [lf] block with
                                 | Some i => (begin + i + 1)%nat
                                 | None => begin
                                 end in
          header ← slice s 0 header_line_end;
          rest ← slice_from s block_end;
          match fuel with
          | O => Panic
          | S fuel =>
              out ← redact_pem_from fuel rest;
              Done (header ++ PEM_MARKER ++ out)
          end
      end
  end.
Definition redact_pem (s : bytes) : outcome bytes := redact_pem_from (length s) s.

(** ** The loop of the other passes *)

(** What a pass does at a position: copy [n] bytes, or keep [keep] bytes, write
    the marker and go on at [stop]. *)
Inductive action : Type := Copy (n : nat) | Redact (keep stop : nat).

Fixpoint scan (marker : bytes) (m : option ascii → bytes → outcome action) (fuel : nat)
    (prev : option ascii) (s : bytes) : outcome bytes :=
  match s, fuel with
  | [], _ => Done []
  | _ :: _, O => Panic
  | _ :: _, S fuel =>
      a ← m prev s;
      match a with
      | Copy n =>
          if is_char_boundary s n then
            out ← scan marker m fuel (last (take n s)) (drop n s);
            Done (take n s ++ out)
          else Panic
      | Redact keep stop =>
          if is_char_boundary s keep && is_char_boundary s stop then
            out ← scan marker m fuel (last (take stop s)) (drop stop s);
            Done (take keep s ++ marker ++ out)
          else Panic
      end
  end.

(** A pass over a whole line. *)
Definition pass (marker : bytes) (m : option ascii → bytes → outcome action) (s : bytes) :
  outcome bytes := scan marker m (length s) None s.

Definition utf8_step (s : bytes) : nat :=
  match s with
  | b :: _ =>
      if byte_in 0 127 b then 1
      else if byte_in 192 223 b then 2
      else if byte_in 224 239 b then 3
      else if byte_in 240 247 b then 4
      else 1
  | [] => 1
  end.

Definition REDACTED : bytes := bs "[REDACTED]".
Definition HIGH_ENTROPY : bytes := bs "[REDACTED_HIGH_ENTROPY]".

(** ** Prefixed tokens *)

Definition is_token_char (c : ascii) : bool := is_alnum c || one_of_bytes (bs "_-") c.

Definition PREFIXES : list (bytes * nat) :=
  (λ p, (bs p.1, p.2)) <$>
    [("AKIA", 16); ("ASIA", 16); ("ghp_", 20); ("github_pat_", 20); ("gho_", 20); ("ghu_", 20);
     ("ghs_", 20); ("ghr_", 20); ("sk-", 24); ("xoxb-", 20); ("xoxp-", 20); ("xoxa-", 20);
     ("xoxs-", 20)]%nat.

Definition run_action (prefix : bytes) (min_run : nat) (_ : option ascii) (s : bytes) :
  outcome action :=
  let j := (length prefix + run is_token_char (drop (length prefix) s))%nat in
  Done (if starts s prefix && (min_run <=? j - length prefix)%nat
        then Redact (length prefix) j else Copy (utf8_step s)).

Definition redact_run (s prefix : bytes) (min_run : nat) : outcome bytes :=
  pass REDACTED (run_action prefix min_run) s.

Fixpoint redact_runs (table : list (bytes * nat)) (s : bytes) : outcome bytes :=
  match table with
  | [] => Done s
  | (prefix, min_run) :: table => out ← redact_run s prefix min_run; redact_runs table out
  end.
Definition redact_prefixed_tokens : bytes → outcome bytes := redact_runs PREFIXES.

(** ** Bearer tokens *)

Definition is_bearer_char (c : ascii) : bool :=
  negb (is_ascii_whitespace c) && negb (one_of_bytes (dquote :: squote :: bs ",{}[]") c).

Definition bearer_action (_ : option ascii) (s : bytes) : outcome action :=
  let end_ := (7 + run is_bearer_char (drop 7 s))%nat in
  Done (if starts (lower_bytes s) (bs "bearer ") && (8 <=? end_ - 7)%nat
        then Redact 7 end_ else Copy (utf8_step s)).

Definition redact_bearer_tokens : bytes → outcome bytes := pass REDACTED bearer_action.

(** ** Keys and values *)

Definition SECRET_KEYS : list bytes :=
  bs <$> ["password"; "passwd"; "secret"; "token"; "api_key"; "apikey"; "authorization"].

Definition is_value_char (c : ascii) : bool :=
  negb (is_blank c) && negb (one_of_bytes (dquote :: squote :: bs ",}") c).

Definition is_quote (c : ascii) : bool := one_of_bytes [dquote; squote] c.

(** After [authorization], at the value's offset [v]: what to keep and where to
    go on. *)
Definition authorization_bearer (s : bytes) (v : nat) : outcome (option (nat * nat)) :=
  rest ← slice_from (lower_bytes s) v;
  let token_start := (v + 7)%nat in
  let token_end := (token_start + run is_bearer_char (drop token_start s))%nat in
  Done (if starts rest (bs "bearer ") && (8 <=? token_end - token_start)%nat
        then Some (token_start, token_end) else None).

Definition quote_at (s : bytes) (v : nat) : option ascii :=
  match s !! v with Some b => if is_quote b then Some b else None | None => None end.

(** The value at [v] of a key whose separator is at [k]. *)
Definition key_value_end (s : bytes) (k v : nat) : option (nat * nat) :=
  let '(value_end, total_end) :=
    match quote_at s v with
    | Some quote =>
        let e := (v + 1 + run (λ c, negb (Ascii.eqb c quote)) (drop (v + 1) s))%nat in
        (e, (e + 1) `min` length s)%nat
    | None => let e := (v + run is_value_char (drop v s))%nat in (e, e)
    end in
  if (4 <=? value_end - v)%nat then Some ((k + 1)%nat, total_end) else None.

Definition match_secret_key_value (s : bytes) : outcome (option (nat * nat)) :=
  match List.find (starts (lower_bytes s)) SECRET_KEYS with
  | None => Done None
  | Some key =>
      let k := (length key + run is_blank (drop (length key) s))%nat in
      match s !! k with
      | Some sep =>
          if one_of_bytes (bs "=:") sep then
            let v := (k + 1 + run is_blank (drop (k + 1) s))%nat in
            bearer ← (if bool_decide (key = bs "authorization") then authorization_bearer s v
                      else Done None);
            Done (match bearer with Some r => Some r | None => key_value_end s k v end)
          else Done None
      | None => Done None
      end
  end.

Definition is_word_byte (c : ascii) : bool := is_alnum c || one_of_bytes (bs "_-") c.

Definition key_action (prev : option ascii) (s : bytes) : outcome action :=
  if match prev with Some c => is_word_byte c | None => false end then Done (Copy (utf8_step s))
  else
    r ← match_secret_key_value s;
    Done (match r with Some (keep, stop) => Redact keep stop | None => Copy (utf8_step s) end).

Definition redact_key_values : bytes → outcome bytes := pass REDACTED key_action.

(** ** Environment assignments *)

Definition is_env_start (c : ascii) : bool := is_upper c || Ascii.eqb c "_".
Definition is_env_char (c : ascii) : bool := is_upper c || is_digit c || Ascii.eqb c "_".
Definition is_env_boundary (c : ascii) : bool := is_ascii_whitespace c || is_quote c.

Definition is_assigned_char (quote : option ascii) (c : ascii) : bool :=
  match quote with
  | Some q => negb (Ascii.eqb c q)
  | None => negb (is_ascii_whitespace c) && negb (one_of_bytes (bs ",}") c)
  end.

(** The assignment that starts here: what to keep and where to go on. *)
Definition env_assignment (s : bytes) : option (nat * nat) :=
  let key_end := run is_env_char s in
  let separator := (key_end + run is_blank (drop key_end s))%nat in
  if (2 <=? key_end)%nat && bool_decide (s !! separator = Some "="%char) then
    let value_start := (separator + 1 + run is_blank (drop (separator + 1) s))%nat in
    let quote := quote_at s value_start in
    let content_start := (value_start + match quote with Some _ => 1 | None => 0 end)%nat in
    let end_ := (content_start + run (is_assigned_char quote) (drop content_start s))%nat in
    if (4 <=? end_ - content_start)%nat
    then Some ((separator + 1)%nat,
               if bool_decide (is_Some quote) && (end_ <? length s)%nat then (end_ + 1)%nat else end_)
    else None
  else None.

Definition env_action (prev : option ascii) (s : bytes) : outcome action :=
  Done (if match prev with Some c => is_env_boundary c | None => true end
           && match s with c :: _ => is_env_start c | [] => false end
        then match env_assignment s with
             | Some (keep, stop) => Redact keep stop
             | None => Copy (utf8_step s)
             end
        else Copy (utf8_step s)).

Definition redact_env_assignments : bytes → outcome bytes := pass REDACTED env_action.

(** ** Entropy *)

Definition is_entropy_char (c : ascii) : bool := is_alnum c || one_of_bytes (bs "_-+/=") c.

Definition is_uuid_format (token : bytes) : bool :=
  (length token =? 36)%nat
  && forallb (λ ic, if existsb (Nat.eqb ic.1) [8; 13; 18; 23]%nat then Ascii.eqb ic.2 "-"
                    else is_hexdigit ic.2) (imap pair token).

Section Entropy.
Variable log2 : f64 → f64.

Definition byte_count (token : bytes) (c : nat) : Z :=
  Z.of_nat (length (List.filter (λ b, (nat_of_ascii b =? c)%nat) token)).

Definition shannon_entropy (token : bytes) : f64 :=
  let counts := byte_count token <$> seq 0 256 in
  let length := f64_of_Z (Z.of_nat (length token)) in
  let terms := (λ count, let probability := f64_div (f64_of_Z count) length in
                         f64_mul (SFopp probability) (log2 probability))
                 <$> List.filter (λ count, negb (count =? 0)) counts in
  foldl (SFadd prec emax) (S754_zero true) terms.

Definition f64_4_5 : f64 := decimal_to_f64 false 45 (-1).
Definition f64_4_6 : f64 := decimal_to_f64 false 46 (-1).

Definition is_whitelisted_hash_or_pattern (token : bytes) : bool :=
  (forallb is_hexdigit token && existsb (Nat.eqb (length token)) [32; 40; 64; 128]%nat)
  || ((length token =? 36)%nat && is_uuid_format token)
  || forallb is_digit token
  || (forallb is_lower token && f64_lt (shannon_entropy token) f64_4_6).

(** The test both entropy passes make on a run. *)
Definition is_high_entropy (candidate : bytes) : bool :=
  (20 <=? length candidate)%nat && negb (is_whitelisted_hash_or_pattern candidate)
  && f64_gt (shannon_entropy candidate) f64_4_5.

Definition entropy_action (_ : option ascii) (s : bytes) : outcome action :=
  let n := run is_entropy_char s in
  Done (match n with
        | O => Copy (utf8_step s)
        | _ => if is_high_entropy (take n s) then Redact 0 n else Copy n
        end).

Definition redact_high_entropy_runs : bytes → outcome bytes := pass HIGH_ENTROPY entropy_action.

Definition sanitize_line (line : bytes) : outcome bytes :=
  line ← redact_pem line;
  line ← redact_prefixed_tokens line;
  line ← redact_key_values line;
  line ← redact_bearer_tokens line;
  line ← redact_env_assignments line;
  redact_high_entropy_runs line.

(** ** Masking in place *)

Definition star : ascii := "*"%char.

Fixpoint mask_from (fuel : nat) (s : bytes) : bytes :=
  match fuel, s with
  | S fuel, c :: rest =>
      match run is_entropy_char s with
      | O => c :: mask_from fuel rest
      | n => (if is_high_entropy (take n s) then replicate n star else take n s)
             ++ mask_from fuel (drop n s)
      end
  | _, _ => []
  end.
Definition mask_secrets_in_place (s : bytes) : bytes := mask_from (length s) s.
End Entropy.

(** ** What redaction is *)

Definition markers : list bytes := [PEM_MARKER; REDACTED; HIGH_ENTROPY].

(** [redacts s t]: [t] is [s] with segments replaced by markers, all the rest
    kept byte for byte. *)
Inductive redacts : bytes → bytes → Prop :=
| redacts_nil : redacts [] []
| redacts_keep c s t : redacts s t → redacts (c :: s) (c :: t)
| redacts_mark marker seg s t :
    marker ∈ markers → redacts s t → redacts (seg ++ s) (marker ++ t).

Lemma redacts_app_keep w s t : redacts s t → redacts (w ++ s) (w ++ t).
Proof. intros H. induction w; [done|by constructor]. Qed.

Lemma redacts_refl s : redacts s s.
Proof. rewrite <-(app_nil_r s). apply redacts_app_keep. constructor. Qed.

Definition no_bracket (w : bytes) : Prop := "["%char ∉ w ∧ "]"%char ∉ w.

Lemma marker_shape marker :
  marker ∈ markers → ∃ body, marker = "["%char :: body ++ ["]"%char] ∧ no_bracket body.
Proof.
  unfold markers. rewrite !elem_of_cons, elem_of_nil. intros [->|[->|[->|[]]]].
  - exists (bs "REDACTED PEM BODY"). split; [done|]. by split; apply (bool_decide_unpack _); vm_compute.
  - exists (bs "REDACTED"). split; [done|]. by split; apply (bool_decide_unpack _); vm_compute.
  - exists (bs "REDACTED_HIGH_ENTROPY"). split; [done|]. by split; apply (bool_decide_unpack _); vm_compute.
Qed.

Lemma utf8_marker marker : marker ∈ markers → utf8 marker.
Proof.
  intros H. apply utf8_ascii. unfold markers in H. rewrite !elem_of_cons, elem_of_nil in H.
  destruct H as [->|[->|[->|[]]]]; repeat constructor.
Qed.

Lemma no_bracket_app u v : no_bracket (u ++ v) ↔ no_bracket u ∧ no_bracket v.
Proof. unfold no_bracket. rewrite !not_elem_of_app. tauto. Qed.

(** A word without brackets at the head of the output is at the head of the
    input. *)
Lemma redacts_starts s t w b :
  redacts s t → t = w ++ b → no_bracket w → ∃ b', s = w ++ b' ∧ redacts b' b.
Proof.
  intros H. revert w b. induction H as [|c s t H IH|marker seg s t Hm H IH]; intros w b E Hw.
  - symmetry in E. apply app_eq_nil in E as [-> ->]. exists []. split; [done|constructor].
  - destruct w as [|x w]; [cbn in E; subst b; by exists (c :: s); split; [|constructor]|].
    injection E as <- E. apply (no_bracket_app [c] w) in Hw as [_ Hw].
    destruct (IH _ _ E Hw) as (b' & -> & Hb). by exists b'.
  - destruct w as [|x w].
    + cbn in E. subst b. exists (seg ++ s). split; [done|]. by constructor.
    + destruct (marker_shape _ Hm) as (body & -> & _). injection E as <- E.
      by destruct Hw as [[]%not_elem_of_cons _].
Qed.

(** A word without brackets that ends behind a marker starts behind it, unless it
    stands inside it. *)
Lemma behind_marker marker t a w b :
  marker ∈ markers → no_bracket w → (∀ x y, marker ≠ x ++ w ++ y) →
  marker ++ t = a ++ w ++ b → ∃ a', t = a' ++ w ++ b.
Proof.
  intros Hm Hw Hmark E. apply app_eq_inv in E as [(k & Em & E)|(k & -> & ->)]; [|by exists k].
  apply app_eq_inv in E as [(k' & -> & ->)|(k' & -> & ->)].
  - destruct (marker_shape _ Hm) as (body & Es & _). rewrite Em in Es.
    apply no_bracket_app in Hw as [[_ Hw] _]. destruct k as [|x k _] using rev_ind; [by exists []|].
    rewrite (assoc_L (++)) in Es.
    change ("["%char :: body ++ ["]"%char]) with (("["%char :: body) ++ ["]"%char]) in Es.
    apply app_inj_tail in Es as [_ ->]. by apply not_elem_of_app in Hw as [_ []%not_elem_of_cons].
  - by destruct (Hmark a k').
Qed.

(** A text is free of the words of [W]. *)
Definition clean (W : bytes → Prop) (t : bytes) : Prop := ∀ w a b, W w → t ≠ a ++ w ++ b.

(** Words that no marker brings in. *)
Definition foreign (W : bytes → Prop) : Prop :=
  ∀ w, W w → w ≠ [] ∧ no_bracket w ∧ ∀ marker x y, marker ∈ markers → marker ≠ x ++ w ++ y.

Lemma redacts_clean W s t : foreign W → redacts s t → clean W s → clean W t.
Proof.
  intros HW H Hs w a b Hw E. destruct (HW w Hw) as (Hne & Hb & Hmark). revert a E.
  enough (∀ a, t = a ++ w ++ b → ∃ a' b', s = a' ++ w ++ b') as Hin.
  { intros a (a' & b' & E)%Hin. by apply (Hs w a' b'). }
  clear Hs. induction H as [|c s t H IH|marker seg s t Hm H IH]; intros a E.
  - symmetry in E. apply app_eq_nil in E as [-> E]. by apply app_eq_nil in E as [-> _].
  - destruct a as [|x a].
    + destruct (redacts_starts (c :: s) (c :: t) w b) as (b' & -> & _); [by constructor|done..|].
      by exists [], b'.
    + injection E as <- E. destruct (IH a E) as (a' & b' & ->). by exists (c :: a'), b'.
  - apply behind_marker in E as [a' ->]; [|done|done|by intros x y; apply Hmark].
    destruct (IH a' eq_refl) as (a2 & b2 & ->). exists (seg ++ a2), b2. by rewrite (assoc_L (++)).
Qed.

Lemma rtc_clean W s t : foreign W → rtc redacts s t → clean W s → clean W t.
Proof. intros HW. induction 1 as [|x y z Hxy _ IH]; [done|]. intros Hx. by eapply IH, redacts_clean. Qed.

(** ** The loop *)

(** What a matcher may answer: offsets between characters, ahead of the position. *)
Definition action_ok (s : bytes) (a : action) : Prop :=
  match a with
  | Copy n => (0 < n)%nat ∧ cut s n
  | Redact keep stop => (keep ≤ stop)%nat ∧ (0 < stop)%nat ∧ cut s keep ∧ cut s stop
  end.
Definition matcher_ok (m : option ascii → bytes → outcome action) : Prop :=
  ∀ prev s, utf8 s → s ≠ [] → ∃ a, m prev s = Done a ∧ action_ok s a.

Lemma utf8_step_lead : ∀ a,
  (byte_in 0 127 a = true → utf8_step [a] = 1%nat)
  ∧ (byte_in 194 223 a = true → utf8_step [a] = 2%nat)
  ∧ (byte_in 224 239 a = true → utf8_step [a] = 3%nat)
  ∧ (byte_in 240 244 a = true → utf8_step [a] = 4%nat).
Proof. all_bytes. Qed.

Lemma utf8_step_char c r : utf8_char c = true → utf8_step (c ++ r) = length c.
Proof.
  destruct c as [|a [|b [|c [|d [|]]]]]; cbn [utf8_char]; try done;
    pose proof (utf8_step_lead a) as (H1 & H2 & H3 & H4);
    rewrite ?andb_true_iff, ?orb_true_iff, ?andb_true_iff.
  - exact H1.
  - intros [Ha _]. by apply H2.
  - intros [H _]. apply H3. destruct H as [[[[H _]|[H _]]|[H _]]|[H _]]; (eapply byte_in_mono; [exact H|lia..]).
  - intros [[H _] _]. apply H4. destruct H as [[[H _]|[H _]]|[H _]]; (eapply byte_in_mono; [exact H|lia..]).
Qed.

Lemma utf8_step_ok s : utf8 s → s ≠ [] → action_ok s (Copy (utf8_step s)).
Proof.
  intros [|c r Hc Hr] Hne; [done|]. cbn. rewrite utf8_step_char by done. split.
  - destruct c; [done|cbn; lia].
  - split; [rewrite length_app; lia|]. by rewrite drop_app_length.
Qed.

Section Scan.
Variable marker : bytes.
Hypothesis Hmarker : marker ∈ markers.
Variable m : option ascii → bytes → outcome action.
Hypothesis Hm : matcher_ok m.

Lemma scan_total fuel prev s :
  utf8 s → (length s ≤ fuel)%nat →
  ∃ out, scan marker m fuel prev s = Done out ∧ utf8 out ∧ redacts s out.
Proof.
  revert prev s. induction fuel as [|fuel IH]; intros prev s Hs Hf.
  { destruct s; [|cbn in Hf; lia]. exists []. split_and!; [done|constructor..]. }
  destruct s as [|c s']; [exists []; split_and!; [done|constructor..]|].
  cbn [scan]. set (s := c :: s') in *.
  destruct (Hm prev s Hs) as (a & -> & Ha); [done|]. cbn [mbind outcome_bind].
  destruct a as [n|keep stop].
  - destruct Ha as [Hn Hc]. rewrite (cut_boundary _ _ Hc). pose proof Hc as [Hl Hu].
    destruct (IH (last (take n s)) (drop n s)) as (out & -> & Ho & Hr); [done|rewrite length_drop; lia|].
    exists (take n s ++ out). split_and!; [done|apply utf8_app; [by apply cut_take|done]|].
    rewrite <-(take_drop n s) at 1. by apply redacts_app_keep.
  - destruct Ha as (Hks & Hp & Hk & Hc). rewrite (cut_boundary _ _ Hk), (cut_boundary _ _ Hc).
    pose proof Hc as [Hl Hu].
    destruct (IH (last (take stop s)) (drop stop s)) as (out & -> & Ho & Hr);
      [done|rewrite length_drop; lia|].
    exists (take keep s ++ marker ++ out). split_and!; [done| |].
    + apply utf8_app; [by apply cut_take|]. apply utf8_app; [by apply utf8_marker|done].
    + rewrite <-(take_drop keep s) at 1. apply redacts_app_keep.
      rewrite <-(take_drop (stop - keep) (drop keep s)), drop_drop.
      replace (keep + (stop - keep))%nat with stop by lia. by constructor.
Qed.
End Scan.

(** ** Each pass *)

Ltac ascii_literal := repeat constructor.

Lemma copy_ok s : utf8 s → s ≠ [] → ∃ a, Done (Copy (utf8_step s)) = Done a ∧ action_ok s a.
Proof. intros. eexists. split; [done|]. by apply utf8_step_ok. Qed.

Lemma token_ascii : ∀ c, is_token_char c = true → is_ascii_byte c = true.
Proof. all_bytes. Qed.
Lemma blank_ascii : ∀ c, is_blank c = true → is_ascii_byte c = true.
Proof. all_bytes. Qed.
Lemma env_ascii : ∀ c, is_env_char c = true → is_ascii_byte c = true.
Proof. all_bytes. Qed.
Lemma entropy_ascii : ∀ c, is_entropy_char c = true → is_ascii_byte c = true.
Proof. all_bytes. Qed.
Lemma bearer_continuation : ∀ c, is_continuation c = true → is_bearer_char c = true.
Proof. all_bytes. Qed.
Lemma value_continuation : ∀ c, is_continuation c = true → is_value_char c = true.
Proof. all_bytes. Qed.
Lemma quote_ascii : ∀ c, is_quote c = true → is_ascii_byte c = true.
Proof. all_bytes. Qed.
Lemma separator_ascii : ∀ c, one_of_bytes (bs "=:") c = true → is_ascii_byte c = true.
Proof. all_bytes. Qed.
Lemma assigned_continuation : ∀ c, is_continuation c = true → is_assigned_char None c = true.
Proof. all_bytes. Qed.

Lemma quoted_continuation q c :
  is_quote q = true → is_continuation c = true → negb (Ascii.eqb c q) = true.
Proof.
  intros Hq%quote_ascii%ascii_not_continuation Hc. destruct (Ascii.eqb_spec c q) as [->|]; [|done].
  congruence.
Qed.

Definition entry_ok (p : bytes * nat) : Prop :=
  p.1 ≠ [] ∧ Forall (λ c, is_token_char c = true) p.1 ∧ (0 < p.2)%nat.

Lemma PREFIXES_ok : Forall entry_ok PREFIXES.
Proof. repeat constructor; done. Qed.

Lemma run_action_ok prefix min_run : entry_ok (prefix, min_run) → matcher_ok (run_action prefix min_run).
Proof.
  intros (Hne & Ht & Hm) prev s Hs Hnil. unfold run_action. cbv zeta.
  destruct (starts s prefix && _) eqn:E; [|by apply copy_ok]. to_prop. eexists. split; [done|]. cbn.
  assert (cut s (length prefix)) as Hc.
  { apply cut_starts; [done| |done]. eapply Forall_impl; [exact Ht|]. apply token_ascii. }
  destruct prefix; [done|]. split_and!; [lia|cbn; lia|done|].
  apply cut_run_ascii; [apply token_ascii|done].
Qed.

Lemma bearer_run_cut s i : utf8 s → cut s i → cut s (i + run is_bearer_char (drop i s)).
Proof. intros Hs Hc. apply cut_run_other; [apply bearer_continuation|done|apply Hc|done]. Qed.

Lemma bearer_action_ok : matcher_ok bearer_action.
Proof.
  intros prev s Hs Hnil. unfold bearer_action. cbv zeta.
  destruct (starts _ _ && _) eqn:E; [|by apply copy_ok]. apply andb_true_iff in E as [E _].
  eexists. split; [done|]. apply cut_starts_lower in E; [|done|ascii_literal].
  unfold action_ok. repeat split; [lia|lia|apply E|apply E|by apply bearer_run_cut..].
Qed.

(** An offset range a matcher may redact. *)
Definition range_ok (s : bytes) (r : option (nat * nat)) : Prop :=
  match r with
  | Some (keep, stop) => (0 < keep)%nat ∧ (keep ≤ stop)%nat ∧ cut s keep ∧ cut s stop
  | None => True
  end.

Lemma range_action s r :
  utf8 s → s ≠ [] → range_ok s r →
  action_ok s (match r with Some (keep, stop) => Redact keep stop | None => Copy (utf8_step s) end).
Proof.
  intros Hs Hne. destruct r as [[keep stop]|]; [|by intros _; apply utf8_step_ok].
  cbn. intros (H1 & H2 & H3 & H4). split_and!; [done|lia|done|done].
Qed.

Lemma authorization_bearer_ok s v :
  utf8 s → cut s v → ∃ r, authorization_bearer s v = Done r ∧ range_ok s r.
Proof.
  intros Hs Hv. unfold authorization_bearer, slice_from.
  rewrite lower_boundary, (cut_boundary _ _ Hv). cbn [mbind outcome_bind]. cbv zeta.
  eexists. split; [done|]. destruct (starts _ _ && _) eqn:E; [|done]. apply andb_true_iff in E as [E _].
  unfold lower_bytes in E. rewrite <-fmap_drop in E. destruct Hv as [Hl Hu].
  apply cut_starts_lower in E as [E1 E2]; [|done|ascii_literal]. rewrite drop_drop in E2.
  rewrite length_drop in E1. cbn [length bs list_ascii_of_string] in E1, E2.
  assert (cut s (v + 7)) as Hc by (split; [lia|done]).
  cbn. split_and!; [lia|lia|done|]. by apply bearer_run_cut.
Qed.

Lemma quote_at_Some s v q : quote_at s v = Some q → s !! v = Some q ∧ is_quote q = true.
Proof. unfold quote_at. destruct (s !! v) as [b|]; [|done]. by destruct (is_quote b) eqn:E; intros [= <-]. Qed.

Lemma key_value_end_ok s k v :
  utf8 s → cut s (k + 1) → cut s v → (k + 1 ≤ v)%nat → range_ok s (key_value_end s k v).
Proof.
  intros Hs Hk Hv Hkv. unfold key_value_end. destruct (quote_at s v) as [q|] eqn:Eq; cbv zeta.
  - apply quote_at_Some in Eq as [E Hq]. pose proof (quote_ascii q Hq) as Ha.
    assert (cut s (v + 1)) as Hv1 by (by eapply cut_next).
    pose proof (run_split (λ c, negb (Ascii.eqb c q)) (drop (v + 1) s)) as (_ & _ & Hend).
    set (e := (v + 1 + run _ _)%nat). assert (cut s e) as He.
    { apply cut_run_other; [intros c; by apply quoted_continuation|done|apply Hv1|done]. }
    rewrite drop_drop in Hend. fold e in Hend.
    destruct (4 <=? e - v)%nat; [|done]. cbn. pose proof He as [Hl _].
    assert (cut s ((e + 1) `min` length s)) as Hstop.
    { destruct (s !! e) as [b|] eqn:Eb.
      - pose proof (lookup_lt_Some _ _ _ Eb). replace ((e + 1) `min` length s)%nat with (e + 1)%nat by lia.
        rewrite (drop_S _ _ _ Eb) in Hend. apply negb_false_iff, Ascii.eqb_eq in Hend as ->.
        by eapply cut_next.
      - apply lookup_ge_None in Eb. replace ((e + 1) `min` length s)%nat with (length s) by lia.
        apply cut_length. }
    split_and!; [lia|unfold e in *; lia|done|done].
  - set (e := (v + run _ _)%nat). destruct (4 <=? e - v)%nat; [|done]. cbn.
    split_and!; [lia|unfold e; lia|done|].
    apply cut_run_other; [apply value_continuation|done|apply Hv|done].
Qed.

Lemma SECRET_KEYS_ascii : Forall (Forall (λ c, is_ascii_byte c = true)) SECRET_KEYS.
Proof. repeat constructor. Qed.

Lemma match_secret_key_value_ok s :
  utf8 s → ∃ r, match_secret_key_value s = Done r ∧ range_ok s r.
Proof.
  intros Hs. unfold match_secret_key_value.
  destruct (List.find _ SECRET_KEYS) as [key|] eqn:Ef; [|by exists None].
  apply find_some in Ef as [Hin Ef]. apply list_elem_of_In in Hin.
  pose proof SECRET_KEYS_ascii as Ha. rewrite Forall_forall in Ha.
  apply cut_starts_lower in Ef; [|done|by apply Ha].
  assert (cut s (length key + run is_blank (drop (length key) s))) as Hk
    by (apply cut_run_ascii; [apply blank_ascii|done]).
  set (k := (length key + _)%nat) in *. clearbody k. cbv zeta.
  destruct (s !! k) as [sep|] eqn:Es; [|by exists None].
  destruct (one_of_bytes (bs "=:") sep) eqn:E; [|by exists None].
  assert (cut s (k + 1)) as Hk1 by (eapply cut_next; [done..|by apply separator_ascii]).
  assert (cut s (k + 1 + run is_blank (drop (k + 1) s))) as Hv
    by (apply cut_run_ascii; [apply blank_ascii|done]).
  set (v := (k + 1 + run _ _)%nat) in *.
  assert (range_ok s (key_value_end s k v)) as Hend by (apply key_value_end_ok; try done; unfold v; lia).
  destruct (bool_decide _).
  - destruct (authorization_bearer_ok s v Hs Hv) as (r & -> & Hr). cbn [mbind outcome_bind].
    eexists. split; [done|]. by destruct r as [[keep stop]|].
  - eexists. by split.
Qed.

Lemma key_action_ok : matcher_ok key_action.
Proof.
  intros prev s Hs Hnil. unfold key_action. destruct (match prev with Some c => _ | None => _ end).
  { by apply copy_ok. }
  destruct (match_secret_key_value_ok s Hs) as (r & -> & Hr). cbn [mbind outcome_bind].
  eexists. split; [done|]. by apply range_action.
Qed.

Lemma assigned_run_cut s quote i :
  (∀ q, quote = Some q → is_quote q = true) → utf8 s → cut s i →
  cut s (i + run (is_assigned_char quote) (drop i s)).
Proof.
  intros Hq Hs Hc. apply cut_run_other; [|done|apply Hc|done]. intros c.
  destruct quote as [q|]; [|apply assigned_continuation]. apply quoted_continuation. by apply Hq.
Qed.

(** The end of a value: behind its closing quote, if it has one. *)
Lemma assigned_stop s quote i :
  (∀ q, quote = Some q → is_quote q = true) → utf8 s → cut s i →
  let e := (i + run (is_assigned_char quote) (drop i s))%nat in
  cut s (if bool_decide (is_Some quote) && (e <? length s)%nat then (e + 1)%nat else e).
Proof.
  intros Hq Hs Hc e. pose proof (assigned_run_cut s quote i Hq Hs Hc) as He. fold e in He.
  destruct (_ && _) eqn:E; [|done]. apply andb_true_iff in E as [E1 E2]. to_prop.
  destruct quote as [q|]; [|by destruct E1].
  pose proof (run_split (is_assigned_char (Some q)) (drop i s)) as (_ & _ & Hend).
  rewrite drop_drop in Hend. fold e in Hend.
  destruct (lookup_lt_is_Some_2 s e) as [b Eb]; [by apply Nat.ltb_lt|].
  rewrite (drop_S _ _ _ Eb) in Hend. cbn in Hend. apply negb_false_iff, Ascii.eqb_eq in Hend as ->.
  eapply cut_next; [done..|]. apply quote_ascii, Hq. done.
Qed.

Lemma env_assignment_ok s : utf8 s → range_ok s (env_assignment s).
Proof.
  intros Hs. unfold env_assignment.
  assert (cut s (run is_env_char s)) as Hk
    by (apply (cut_run_ascii is_env_char s 0); [apply env_ascii|by apply cut_0]).
  set (key_end := run is_env_char s) in *. cbv zeta.
  assert (cut s (key_end + run is_blank (drop key_end s))) as Hsep
    by (apply cut_run_ascii; [apply blank_ascii|done]).
  set (sep := (key_end + _)%nat) in *.
  destruct (_ && bool_decide _) eqn:E; [|done]. apply andb_true_iff in E as [_ E]. to_prop.
  assert (cut s (sep + 1)) as Hs1 by (by eapply cut_next).
  assert (cut s (sep + 1 + run is_blank (drop (sep + 1) s))) as Hv
    by (apply cut_run_ascii; [apply blank_ascii|done]).
  set (v := (sep + 1 + run _ _)%nat) in *. pose proof (quote_at_Some s v) as Hqv.
  set (quote := quote_at s v) in *. clearbody quote.
  assert (∀ q, quote = Some q → is_quote q = true) as Hq by (intros q Eq; by apply Hqv).
  assert (cut s (v + match quote with Some _ => 1 | None => 0 end)) as Hc.
  { destruct quote as [q|]; [|by rewrite Nat.add_0_r].
    destruct (Hqv q eq_refl). eapply cut_next; [done..|by apply quote_ascii]. }
  set (i := (v + match quote with Some _ => 1 | None => 0 end)%nat) in *.
  pose proof (assigned_stop s quote i Hq Hs Hc) as Hstop. cbv zeta in Hstop.
  set (e := (i + run _ _)%nat) in *. destruct (4 <=? e - i)%nat; [|done].
  assert (sep + 1 ≤ e)%nat by (unfold e, i, v; lia).
  unfold range_ok. split; [lia|split; [|by split]]. destruct (bool_decide _ && _); lia.
Qed.

Lemma env_action_ok : matcher_ok env_action.
Proof.
  intros prev s Hs Hnil. unfold env_action. eexists. split; [done|].
  destruct (_ && _); [|by apply utf8_step_ok]. by apply range_action, env_assignment_ok.
Qed.

Section EntropyFacts.
Variable log2 : f64 → f64.

Lemma entropy_action_ok : matcher_ok (entropy_action log2).
Proof.
  intros prev s Hs Hnil. unfold entropy_action. eexists. split; [done|].
  assert (cut s (run is_entropy_char s)) as Hk
    by (apply (cut_run_ascii is_entropy_char s 0); [apply entropy_ascii|by apply cut_0]).
  destruct (run is_entropy_char s) as [|n]; [by apply utf8_step_ok|].
  destruct (is_high_entropy _ _); unfold action_ok; [|by split; [lia|]].
  split; [lia|split; [lia|split; [by apply cut_0|done]]].
Qed.
End EntropyFacts.

(** ** PEM blocks *)

Lemma slice_cut s i j : cut s i → cut s j → (i ≤ j)%nat → slice s i j = Done (take (j - i) (drop i s)).
Proof.
  intros Hi Hj Hij. unfold slice. rewrite (cut_boundary _ _ Hi), (cut_boundary _ _ Hj).
  by rewrite (proj2 (Nat.leb_le i j) Hij).
Qed.
Lemma slice_from_cut s i : cut s i → slice_from s i = Done (drop i s).
Proof. intros Hi. unfold slice_from. by rewrite (cut_boundary _ _ Hi). Qed.

(** The end of the header line: the offset behind the first line feed of the block. *)
Lemma header_end_ok s begin block_end :
  utf8 s → cut s begin → cut s block_end → (begin ≤ block_end)%nat →
  let e := match find [lf] (take (block_end - begin) (drop begin s)) with
           | Some i => (begin + i + 1)%nat
           | None => begin
           end in
  cut s e ∧ (begin ≤ e ≤ block_end)%nat.
Proof.
  intros Hs Hb He Hle. destruct (find _ _) as [i|] eqn:E; [|split; [done|lia]].
  apply find_Some in E as (u & v & E & ->).
  assert (length u < block_end - begin)%nat as Hu.
  { assert (length (take (block_end - begin) (drop begin s)) = length (u ++ [lf] ++ v)) as H by (by rewrite E).
    rewrite length_take, !length_app in H. cbn in H. lia. }
  assert (s !! (begin + length u)%nat = Some lf) as Hlf.
  { rewrite <-lookup_drop. apply (lookup_take_Some _ (block_end - begin)). rewrite E.
    by rewrite lookup_app_r, Nat.sub_diag by lia. }
  split; [|lia]. apply (cut_next _ _ lf); [by apply (cut_at _ _ lf)|done|done].
Qed.

Lemma redact_pem_from_ok fuel s :
  utf8 s → (length s ≤ fuel)%nat →
  ∃ out, redact_pem_from fuel s = Done out ∧ utf8 out ∧ redacts s out.
Proof.
  revert s. induction fuel as [|fuel IH]; intros s Hs Hf.
  { destruct s; [|cbn in Hf; lia]. exists []. split_and!; [done|constructor..]. }
  cbn [redact_pem_from]. destruct (find (bs "-----BEGIN") s) as [begin|] eqn:Eb.
  2: { exists s. split_and!; [done|done|apply redacts_refl]. }
  apply cut_find in Eb as [Hb _]; [|done|done|ascii_literal]. pose proof Hb as [Hbl Hbu].
  rewrite slice_from_cut by done. cbn [mbind outcome_bind].
  destruct (find (bs "-----END") (drop begin s)) as [rel|] eqn:Er.
  2: { exists s. split_and!; [done|done|apply redacts_refl]. }
  apply cut_find in Er as [_ Ha]; [|done|done|ascii_literal]. apply cut_drop in Ha; [|done].
  rewrite Nat.add_assoc in Ha. cbv zeta. set (after := (begin + rel + _)%nat) in *.
  assert (begin < after)%nat as Hba by (unfold after; cbn; lia). clearbody after.
  pose proof Ha as [Hal Hau]. rewrite slice_from_cut by done. cbn [mbind outcome_bind].
  set (block_end := match find (bs "-----") (drop after s) with Some i => (after + i + 5)%nat | None => length s end).
  assert (cut s block_end ∧ (after ≤ block_end)%nat) as [He Hae].
  { unfold block_end. destruct (find _ _) as [i|] eqn:Ei; [|by split; [apply cut_length|]].
    apply cut_find in Ei as [_ Hi]; [|done|done|ascii_literal]. apply cut_drop in Hi; [|done].
    rewrite Nat.add_assoc in Hi. split; [exact Hi|lia]. }
  clearbody block_end. rewrite slice_cut by (done || lia). cbn [mbind outcome_bind].
  destruct (header_end_ok s begin block_end Hs Hb He) as [Hh Hhe]; [lia|]. cbv zeta in Hh, Hhe.
  set (header_end := match find [lf] _ with Some i => _ | None => begin end) in *. clearbody header_end.
  rewrite slice_cut by (done || lia || by apply cut_0). rewrite slice_from_cut by done.
  cbn [mbind outcome_bind]. rewrite Nat.sub_0_r, drop_0. pose proof He as [Hel Heu].
  destruct (IH (drop block_end s)) as (out & -> & Ho & Hr); [done|rewrite length_drop; lia|].
  exists (take header_end s ++ PEM_MARKER ++ out). split_and!; [done| |].
  - apply utf8_app; [by apply cut_take|]. apply utf8_app; [apply utf8_marker; by left|done].
  - rewrite <-(take_drop header_end s) at 1. apply redacts_app_keep.
    rewrite <-(take_drop (block_end - header_end) (drop header_end s)), drop_drop.
    replace (header_end + (block_end - header_end))%nat with block_end by lia.
    apply redacts_mark; [by left|done].
Qed.

(** ** What a pass removes *)

Section Hides.
Variable marker : bytes.
Hypothesis Hmarker : marker ∈ markers.
Variable m : option ascii → bytes → outcome action.
Hypothesis Hm : matcher_ok m.
Variable W : bytes → Prop.
Hypothesis HW : foreign W.
Hypothesis Hascii : ∀ c w, W (c :: w) → is_ascii_byte c = true.
Hypothesis Hcopy : ∀ prev s n, m prev s = Done (Copy n) → n = utf8_step s.
Hypothesis Hhit : ∀ prev w b, W w → ∃ keep stop, m prev (w ++ b) = Done (Redact keep stop).
Hypothesis Hkeep : ∀ prev s keep stop w, m prev s = Done (Redact keep stop) → W w → (keep < length w)%nat.

(** A word cannot start at a character that was copied. *)
Lemma copied_clean c r prev out a w b :
  utf8_char c = true → m prev (c ++ r) = Done (Copy (length c)) → redacts r out → clean W out →
  W w → c ++ out ≠ a ++ w ++ b.
Proof.
  intros Hc Hcp Hr Hcl Hw E. destruct (HW w Hw) as (Hne & Hb & _).
  apply app_eq_inv in E as [(k & -> & E)|(k & -> & E)]; [|by apply (Hcl w k b)].
  destruct k as [|x k]; [by apply (Hcl w [] b)|]. destruct w as [|y w]; [done|].
  injection E as -> E. pose proof (Hascii _ _ Hw) as Hx.
  apply utf8_char_shape in Hc as (l & tl & Es & Hl & Htl & Hta). destruct a as [|z a].
  - injection Es as <- <-. destruct k as [|z k]; [|by rewrite Hta in Hx].
    cbn in E. destruct (redacts_starts r out w b) as (b' & -> & _); [done..| |].
    { by apply (no_bracket_app [x] w) in Hb as [_ ?]. }
    destruct (Hhit prev (x :: w) b' Hw) as (keep & stop & Hk). cbn in Hcp, Hk. congruence.
  - injection Es as -> Es. rewrite Forall_forall in Htl.
    assert (is_continuation x = true) as Hcont by (apply Htl; rewrite <-Es; set_solver).
    by rewrite (ascii_not_continuation x Hx) in Hcont.
Qed.

(** Nor can it start in the text kept before a marker. *)
Lemma kept_clean u out a w b :
  (length u < length w)%nat → clean W out → W w → u ++ marker ++ out ≠ a ++ w ++ b.
Proof.
  intros Hl Hcl Hw E. destruct (HW w Hw) as (Hne & Hb & Hmark).
  apply app_eq_inv in E as [(k & -> & E)|(k & -> & E)].
  - apply app_eq_inv in E as [(k' & -> & E)|(k' & -> & ->)].
    + destruct k' as [|x k']; [rewrite length_app, app_nil_r in Hl; lia|].
      destruct (marker_shape _ Hmarker) as (body & Em & _). rewrite Em in E. injection E as <- _.
      destruct Hb as [Hb _]. apply Hb. set_solver.
    + rewrite !length_app in Hl. lia.
  - apply behind_marker in E as [a' ->]; [|done|done|by intros x y; apply Hmark].
    by apply (Hcl w a' b).
Qed.

Lemma scan_hides fuel prev s out :
  utf8 s → (length s ≤ fuel)%nat → scan marker m fuel prev s = Done out → clean W out.
Proof.
  revert prev s out. induction fuel as [|fuel IH]; intros prev s out Hs Hf E w a b Hw.
  { destruct s; [|cbn in Hf; lia]. injection E as <-. destruct (HW w Hw) as (Hne & _).
    intros E. symmetry in E. apply app_eq_nil in E as [_ E]. by apply app_eq_nil in E as [? _]. }
  destruct s as [|c0 s']; [|cbn [scan] in E; set (s := c0 :: s') in *].
  { injection E as <-. destruct (HW w Hw) as (Hne & _).
    intros E. symmetry in E. apply app_eq_nil in E as [_ E]. by apply app_eq_nil in E as [? _]. }
  destruct (Hm prev s Hs) as (act & Ea & Hok); [done|]. rewrite Ea in E. cbn [mbind outcome_bind] in E.
  destruct act as [n|keep stop].
  - destruct Hok as [Hn Hc]. rewrite (cut_boundary _ _ Hc) in E. pose proof Hc as [Hl Hu].
    destruct (scan_total marker Hmarker m Hm fuel (last (take n s)) (drop n s)) as (out' & Eo & _ & Hr);
      [done|rewrite length_drop; lia|]. rewrite Eo in E. injection E as <-.
    assert (clean W out') as Hcl by (eapply IH, Eo; [done|rewrite length_drop; lia]).
    pose proof (Hcopy _ _ _ Ea) as ->. clearbody s. destruct Hs as [|c r Hch Hs]; [cbn in Hl; lia|].
    rewrite utf8_step_char in * by done. rewrite take_app_length, drop_app_length in *.
    by apply (copied_clean c r prev).
  - destruct Hok as (Hks & Hp & Hk & Hc). rewrite (cut_boundary _ _ Hk), (cut_boundary _ _ Hc) in E.
    pose proof Hc as [Hl Hu]. cbn [andb] in E.
    destruct (scan _ _ _ _ _) as [out'|] eqn:Eo; [|done]. injection E as <-.
    apply kept_clean; [|eapply IH, Eo; [done|rewrite length_drop; lia]|done].
    rewrite length_take. pose proof (Hkeep _ _ _ _ w Ea Hw). lia.
Qed.
End Hides.

(** A prefix of the table with a run long enough behind it. *)
Definition prefixed_token (p : bytes * nat) (w : bytes) : Prop :=
  ∃ r, w = p.1 ++ r ∧ Forall (λ c, is_token_char c = true) r ∧ (p.2 ≤ length r)%nat.

(** [bearer], a space, and a value of eight bytes or more. *)
Definition bearer_token (w : bytes) : Prop :=
  ∃ u r, w = u ++ r ∧ lower_bytes u = bs "bearer "
    ∧ Forall (λ c, is_bearer_char c = true) r ∧ (8 ≤ length r)%nat.

Lemma no_bracket_Forall (P : ascii → bool) w :
  P "["%char = false → P "]"%char = false → Forall (λ c, P c = true) w → no_bracket w.
Proof.
  intros Ho Hc Hw. rewrite Forall_forall in Hw. split; intros H%Hw; congruence.
Qed.

Definition not_in_markers (p : bytes) : bool :=
  forallb (λ marker, bool_decide (find p marker = None)) markers.

Lemma not_in_markers_spec p marker x r y :
  not_in_markers p = true → marker ∈ markers → marker ≠ x ++ (p ++ r) ++ y.
Proof.
  unfold not_in_markers. rewrite forallb_forall. intros H Hm E.
  apply list_elem_of_In, H in Hm. apply bool_decide_eq_true in Hm.
  apply (find_None _ _ Hm x (r ++ y)). rewrite E. by rewrite <-(assoc_L (++)).
Qed.

Lemma prefixes_not_in_markers : Forall (λ p, not_in_markers p.1 = true) PREFIXES.
Proof. vm_compute. repeat constructor. Qed.

Lemma token_word p w : entry_ok p → prefixed_token p w → Forall (λ c, is_token_char c = true) w.
Proof. intros (_ & Hp & _) (r & -> & Hr & _). by apply Forall_app. Qed.

Lemma token_foreign p : p ∈ PREFIXES → foreign (prefixed_token p).
Proof.
  intros Hin w Hw. pose proof PREFIXES_ok as Hok. rewrite Forall_forall in Hok. specialize (Hok p Hin).
  pose proof prefixes_not_in_markers as Hnm. rewrite Forall_forall in Hnm. specialize (Hnm p Hin).
  split; [|split].
  - destruct Hw as (r & -> & _). destruct Hok as (Hne & _). by destruct p.1.
  - by eapply (no_bracket_Forall is_token_char), token_word.
  - intros marker x y Hm. destruct Hw as (r & -> & _). by apply not_in_markers_spec.
Qed.

Lemma bearer_length u : lower_bytes u = bs "bearer " → length u = 7%nat.
Proof. intros H. rewrite <-(length_fmap lower_ascii u). unfold lower_bytes in H. by rewrite H. Qed.

Lemma bearer_foreign : foreign bearer_token.
Proof.
  intros w (u & r & -> & Hu & Hr & _). split; [|split].
  - by destruct u.
  - apply no_bracket_app. split; [|by apply (no_bracket_Forall is_bearer_char)].
    assert (∀ c, c ∈ u → bool_decide (lower_ascii c ∈ bs "bearer ") = true) as Hin.
    { intros c Hc. apply bool_decide_eq_true. rewrite <-Hu. by apply (list_elem_of_fmap_2 lower_ascii). }
    split; intros H%Hin; by vm_compute in H.
  - intros marker x y Hm E.
    assert (lower_bytes marker = lower_bytes x ++ (bs "bearer ") ++ lower_bytes r ++ lower_bytes y) as El.
    { rewrite E. unfold lower_bytes in *. rewrite !fmap_app, Hu. by rewrite <-!(assoc_L (++)). }
    assert (forallb (λ marker, bool_decide (find (bs "bearer ") (lower_bytes marker) = None)) markers = true)
      as Hf by (vm_compute; done).
    rewrite forallb_forall in Hf. apply list_elem_of_In, Hf, bool_decide_eq_true in Hm.
    by apply (find_None _ _ Hm (lower_bytes x) (lower_bytes r ++ lower_bytes y)).
Qed.

Lemma run_action_copy p min_run prev s n :
  run_action p min_run prev s = Done (Copy n) → n = utf8_step s.
Proof. unfold run_action. by destruct (_ && _); intros [= <-]. Qed.

Lemma redact_run_hides p s out :
  p ∈ PREFIXES → utf8 s → redact_run s p.1 p.2 = Done out → clean (prefixed_token p) out.
Proof.
  intros Hin Hs E. pose proof PREFIXES_ok as Hok. rewrite Forall_forall in Hok.
  pose proof (Hok p Hin) as He. pose proof He as (Hne & Ht & Hpos).
  assert (matcher_ok (run_action p.1 p.2)) as Hm by (apply run_action_ok; by destruct p).
  eapply (scan_hides REDACTED); [right; by left|exact Hm|by apply token_foreign| | | | |exact Hs|done|exact E].
  - intros c w Hw. apply token_word in Hw; [|done]. apply Forall_cons in Hw as [Hc _]. by apply token_ascii.
  - apply run_action_copy.
  - intros prev w b (r & -> & Hr & Hlen). unfold run_action. rewrite <-(assoc_L (++)), starts_app.
    rewrite drop_app_length, run_app by done. cbv zeta.
    replace (p.2 <=? _)%nat with true by (symmetry; apply Nat.leb_le; lia). cbn [andb]. by eexists _, _.
  - intros prev s' keep stop w Ha (r & -> & _ & Hlen). unfold run_action in Ha.
    destruct (_ && _); [|done]. injection Ha as <- _. rewrite length_app. lia.
Qed.

Lemma bearer_pass_hides s out :
  utf8 s → redact_bearer_tokens s = Done out → clean bearer_token out.
Proof.
  intros Hs E.
  eapply (scan_hides REDACTED); [right; by left|exact bearer_action_ok|by apply bearer_foreign| | | | |exact Hs|done|exact E].
  - intros c w (u & r & Ew & Hu & _). assert (Forall (λ c, is_ascii_byte c = true) u) as Ha.
    { apply lower_ascii_inv. rewrite Hu. ascii_literal. }
    destruct u as [|c' u]; [done|]. injection Ew as -> _. by apply Forall_cons in Ha as [? _].
  - intros prev s' n. unfold bearer_action. by destruct (_ && _); intros [= <-].
  - intros prev w b (u & r & -> & Hu & Hr & Hlen). unfold bearer_action.
    pose proof (bearer_length u Hu) as Hlu.
    rewrite <-(assoc_L (++)). unfold lower_bytes in *. rewrite fmap_app, Hu, starts_app.
    replace (drop 7 (u ++ r ++ b)) with (r ++ b) by (by rewrite <-Hlu, drop_app_length).
    rewrite run_app by done. cbv zeta. replace (8 <=? _)%nat with true by (symmetry; apply Nat.leb_le; lia). cbn [andb]. by eexists _, _.
  - intros prev s' keep stop w Ha (u & r & -> & Hu & _ & Hlen). unfold bearer_action in Ha.
    destruct (_ && _); [|done]. injection Ha as <- _.
    apply bearer_length in Hu. rewrite length_app. lia.
Qed.

(** ** The whole line *)

Lemma pass_ok marker m s :
  marker ∈ markers → matcher_ok m → utf8 s → ∃ out, pass marker m s = Done out ∧ utf8 out ∧ redacts s out.
Proof. intros. by apply scan_total. Qed.

Lemma redact_run_ok p s :
  p ∈ PREFIXES → utf8 s → ∃ out, redact_run s p.1 p.2 = Done out ∧ utf8 out ∧ redacts s out.
Proof.
  intros Hin Hs. pose proof PREFIXES_ok as Hok. rewrite Forall_forall in Hok.
  apply pass_ok; [right; by left| |done]. apply run_action_ok. specialize (Hok p Hin). by destruct p.
Qed.

(** A step of the line: it does not panic, keeps the text well formed and only
    redacts. *)
Definition step_ok (f : bytes → outcome bytes) : Prop :=
  ∀ s, utf8 s → ∃ out, f s = Done out ∧ utf8 out ∧ rtc redacts s out.

Lemma redact_runs_ok table :
  table ⊆ PREFIXES → step_ok (redact_runs table)
  ∧ ∀ s out, utf8 s → redact_runs table s = Done out → ∀ p, p ∈ table → clean (prefixed_token p) out.
Proof.
  induction table as [|[p n] table IH]; intros Hsub.
  { split; [|intros ???? p Hp; by apply elem_of_nil in Hp]. intros s Hs. exists s. by split_and!; [..|apply rtc_refl]. }
  destruct IH as [IHok IHclean]; [set_solver|]. assert ((p, n) ∈ PREFIXES) as Hin by set_solver. split.
  - intros s Hs. destruct (redact_run_ok (p, n) s Hin Hs) as (out & E & Ho & Hr). cbn in E |- *.
    rewrite E. cbn [mbind outcome_bind]. destruct (IHok out Ho) as (out' & E' & Ho' & Hr').
    exists out'. split_and!; [done..|]. by eapply rtc_l.
  - intros s out Hs E q Hq. cbn in E. destruct (redact_run_ok (p, n) s Hin Hs) as (o & Eo & Ho & Hr).
    cbn in Eo. rewrite Eo in E. cbn [mbind outcome_bind] in E.
    apply elem_of_cons in Hq as [->|Hq]; [|by eapply IHclean].
    destruct (IHok o Ho) as (out' & E' & _ & Hr'). rewrite E in E'. injection E' as <-.
    apply (rtc_clean _ o); [by apply token_foreign|done|].
    exact (redact_run_hides (p, n) s o Hin Hs Eo).
Qed.

(** What is left of a line by [sanitize_line]. *)
Definition secret_word (w : bytes) : Prop :=
  bearer_token w ∨ ∃ p, p ∈ PREFIXES ∧ prefixed_token p w.

Lemma redact_pem_ok : step_ok redact_pem.
Proof.
  intros s Hs. destruct (redact_pem_from_ok (length s) s Hs) as (out & E & Ho & Hr); [done|].
  exists out. split_and!; [done..|by apply rtc_once].
Qed.

Lemma pass_step marker m : marker ∈ markers → matcher_ok m → step_ok (pass marker m).
Proof.
  intros Hm Hok s Hs. destruct (pass_ok marker m s Hm Hok Hs) as (out & E & Ho & Hr).
  exists out. split_and!; [done..|by apply rtc_once].
Qed.

(** The passes in their order, with what each leaves. *)
Lemma sanitize_steps log2 line :
  utf8 line → ∃ l1 l2 l3 l4 l5 out,
    redact_pem line = Done l1 ∧ redact_prefixed_tokens l1 = Done l2 ∧ redact_key_values l2 = Done l3
    ∧ redact_bearer_tokens l3 = Done l4 ∧ redact_env_assignments l4 = Done l5
    ∧ sanitize_line log2 line = Done out ∧ utf8 l1 ∧ utf8 l3 ∧ utf8 out
    ∧ rtc redacts line l2 ∧ rtc redacts l2 l4 ∧ rtc redacts l4 out.
Proof.
  intros Hs. destruct (redact_pem_ok line Hs) as (l1 & E1 & H1 & R1).
  destruct (proj1 (redact_runs_ok PREFIXES (reflexivity _)) l1 H1) as (l2 & E2 & H2 & R2).
  assert (REDACTED ∈ markers ∧ HIGH_ENTROPY ∈ markers) as [HR HE] by (unfold markers; set_solver).
  destruct (pass_step REDACTED _ HR key_action_ok l2 H2) as (l3 & E3 & H3 & R3).
  destruct (pass_step REDACTED _ HR bearer_action_ok l3 H3) as (l4 & E4 & H4 & R4).
  destruct (pass_step REDACTED _ HR env_action_ok l4 H4) as (l5 & E5 & H5 & R5).
  destruct (pass_step HIGH_ENTROPY _ HE (entropy_action_ok log2) l5 H5) as (out & E6 & H6 & R6).
  exists l1, l2, l3, l4, l5, out. split_and!; try done; try (by etrans).
  unfold sanitize_line. rewrite E1. cbn [mbind outcome_bind]. unfold redact_prefixed_tokens. rewrite E2.
  cbn [mbind outcome_bind]. unfold redact_key_values. rewrite E3. cbn [mbind outcome_bind].
  unfold redact_bearer_tokens. rewrite E4. cbn [mbind outcome_bind].
  unfold redact_env_assignments. rewrite E5. cbn [mbind outcome_bind].
  exact E6.
Qed.

(** Sanitizing a line never panics, whatever text it is given (every slice it
    takes is on a character boundary), yields well-formed text, and only redacts:
    each pass replaces segments by its marker and keeps every other byte. *)
Theorem sanitize_line_only_redacts log2 line :
  utf8 line →
  ∃ out, sanitize_line log2 line = Done out ∧ utf8 out ∧ rtc redacts line out.
Proof.
  intros Hs. destruct (sanitize_steps log2 line Hs)
    as (l1 & l2 & l3 & l4 & l5 & out & _ & _ & _ & _ & _ & E & _ & _ & Ho & R1 & R2 & R3).
  exists out. split_and!; [done..|]. do 2 (etrans; [done|]). done.
Qed.

(** C14: No credential of a known shape survives in a sanitized line: neither one of
    the vendor prefixes followed by a long enough run of token characters, nor
    [bearer] in any letter case with a value of eight bytes or more - anywhere in
    the line, whatever surrounds it, and whatever the later passes write. *)
Theorem sanitize_line_hides_secrets log2 line out w a b :
  utf8 line → sanitize_line log2 line = Done out → secret_word w → out ≠ a ++ w ++ b.
Proof.
  intros Hs E Hw. destruct (sanitize_steps log2 line Hs)
    as (l1 & l2 & l3 & l4 & l5 & out' & _ & E2 & _ & E4 & _ & E' & Hu1 & Hu3 & _ & _ & R2 & R3).
  rewrite E in E'. injection E' as <-. destruct Hw as [Hw|(p & Hp & Hw)].
  - apply (rtc_clean bearer_token l4 out bearer_foreign R3); [|done]. by eapply bearer_pass_hides.
  - apply (rtc_clean (prefixed_token p) l4 out (token_foreign p Hp) R3); [|done].
    apply (rtc_clean (prefixed_token p) l2 l4 (token_foreign p Hp) R2).
    exact (proj2 (redact_runs_ok PREFIXES (reflexivity _)) l1 l2 Hu1 E2 p Hp).
Qed.

(** ** Masking in place *)

Definition stops_run (b : bytes) : Prop :=
  match b with c :: _ => is_entropy_char c = false | [] => True end.

(** A text is a sequence of runs of entropy characters and of other bytes. *)
Lemma run_ind (P : bytes → Prop) :
  P [] → (∀ c s, is_entropy_char c = false → P s → P (c :: s)) →
  (∀ r b, r ≠ [] → Forall (λ c, is_entropy_char c = true) r → stops_run b → P b → P (r ++ b)) →
  ∀ s, P s.
Proof.
  intros H0 H1 H2 s. remember (length s) as n eqn:En. revert s En.
  induction n as [n IH] using lt_wf_ind. intros s ->. destruct s as [|c s]; [done|].
  pose proof (run_split is_entropy_char (c :: s)) as (E & Hrun & Hend).
  destruct (is_entropy_char c) eqn:Ec.
  - rewrite E. apply H2; [cbn [run]; by rewrite Ec|done|done|].
    apply (IH (length (drop (run is_entropy_char (c :: s)) (c :: s)))); [|done].
    rewrite length_drop. cbn [run length]. rewrite Ec. lia.
  - apply H1; [done|]. apply (IH (length s)); [cbn; lia|done].
Qed.

Section MaskFacts.
Variable log2 : f64 → f64.
Local Abbreviation mask := (mask_secrets_in_place log2).

(** A run, masked or not. *)
Definition masked_run (r : bytes) : bytes :=
  if is_high_entropy log2 r then replicate (length r) star else r.

Lemma mask_fuel fuel s : (length s ≤ fuel)%nat → mask_from log2 fuel s = mask s.
Proof.
  unfold mask_secrets_in_place. remember (length s) as n eqn:En. revert fuel s En.
  induction n as [n IH] using lt_wf_ind. intros fuel s En Hf.
  destruct s as [|c s]; [destruct fuel, n; done|]. destruct fuel as [|fuel]; [cbn in En; lia|].
  destruct n as [|n]; [done|]. injection En as En. cbn [mask_from].
  destruct (run is_entropy_char (c :: s)) as [|k] eqn:Er.
  - f_equal. cbn in Hf. apply (IH n); [lia|done|lia].
  - f_equal. assert (length (drop (S k) (c :: s)) = n - k)%nat as El by (rewrite length_drop; cbn; lia).
    rewrite (IH (n - k)%nat ltac:(lia) fuel), (IH (n - k)%nat ltac:(lia) n); auto; lia.
Qed.

Lemma mask_other c s : is_entropy_char c = false → mask (c :: s) = c :: mask s.
Proof.
  intros Hc. unfold mask_secrets_in_place at 1. cbn [length mask_from run]. by rewrite Hc, mask_fuel.
Qed.

Lemma mask_run r b :
  r ≠ [] → Forall (λ c, is_entropy_char c = true) r → stops_run b →
  mask (r ++ b) = masked_run r ++ mask b.
Proof.
  intros Hne Hr Hb. unfold mask_secrets_in_place at 1. pose proof (run_ext_split is_entropy_char r b Hr Hb) as Hrun.
  destruct r as [|c r]; [done|]. cbn [length app mask_from]. cbn [app] in Hrun. rewrite Hrun. cbn [length].
  change (c :: r ++ b) with ((c :: r) ++ b). change (S (length r)) with (length (c :: r)).
  rewrite take_app_length, drop_app_length, mask_fuel by (rewrite length_app; lia). done.
Qed.

Lemma mask_nil : mask [] = [].
Proof. done. Qed.

Lemma mask_stars n s : mask (replicate n star ++ s) = replicate n star ++ mask s.
Proof.
  induction n as [|n IH]; [done|]. cbn [replicate app]. by rewrite mask_other, IH.
Qed.

Lemma mask_stops b : stops_run b → stops_run (mask b).
Proof. destruct b as [|c b]; [done|]. intros Hc. by rewrite mask_other. Qed.

(** What masking may do to a byte. *)
Definition masked (a b : ascii) : Prop := b = a ∨ (is_entropy_char a = true ∧ b = star).

Lemma mask_pointwise s : Forall2 masked s (mask s).
Proof.
  induction s as [|c s Hc IH|r b Hne Hr Hb IH] using run_ind; [constructor| |].
  - rewrite mask_other by done. constructor; [by left|done].
  - rewrite mask_run by done. apply Forall2_app; [|done]. unfold masked_run.
    destruct (is_high_entropy log2 r).
    + clear -Hr. induction Hr; constructor; [by right|done].
    + clear. induction r; constructor; [by left|done].
Qed.

Lemma mask_app a c :
  (∀ x y a' c', a = a' ++ [x] → c = y :: c' → is_entropy_char x && is_entropy_char y = false) →
  mask (a ++ c) = mask a ++ mask c.
Proof.
  induction a as [|x a Hx IH|r b Hne Hr Hb IH] using run_ind; intros Hcut; [done| |].
  - cbn [app]. rewrite !mask_other by done. cbn. f_equal. apply IH. intros x' y a' c' -> ->.
    by apply (Hcut x' y (x :: a') c').
  - rewrite <-(assoc_L (++)), mask_run; [|done|done|].
    + rewrite IH, mask_run by (done || (intros x y a' c' -> ->; by apply (Hcut x y (r ++ a') c');
        [rewrite (assoc_L (++))|])). by rewrite (assoc_L (++)).
    + destruct b as [|x b]; [|done]. destruct c as [|y c]; [done|]. cbn.
      destruct r as [|z r _] using rev_ind; [done|]. apply Forall_app in Hr as [_ [Hz _]%Forall_cons].
      specialize (Hcut z y r c). rewrite app_nil_r, Hz in Hcut. by apply Hcut.
Qed.

(** Masking a byte slice in place keeps its length and touches nothing but runs:
    a maximal run of 20 bytes or more of high entropy and no known harmless shape
    is overwritten by stars as a whole, everything else is unchanged; and masking
    what was masked changes nothing. *)
Theorem mask_secrets_spec s :
  length (mask s) = length s ∧ Forall2 masked s (mask s) ∧ mask (mask s) = mask s
  ∧ ∀ a r b, s = a ++ r ++ b → r ≠ [] → Forall (λ c, is_entropy_char c = true) r →
      stops_run (reverse a) → stops_run b →
      mask s = mask a ++ (if is_high_entropy log2 r then replicate (length r) star else r) ++ mask b.
Proof.
  split; [by erewrite <-Forall2_length by apply mask_pointwise|].
  split; [apply mask_pointwise|split].
  - induction s as [|c s Hc IH|r b Hne Hr Hb IH] using run_ind; [done| |].
    + by rewrite !mask_other, IH.
    + rewrite (mask_run r b) by done. unfold masked_run at 1. destruct (is_high_entropy log2 r) eqn:E.
      * rewrite mask_stars, IH. unfold masked_run. by rewrite E.
      * rewrite mask_run by (done || by apply mask_stops). by rewrite IH.
  - intros a r b -> Hne Hr Ha Hb. rewrite mask_app.
    + by rewrite mask_run.
    + intros x y a' c' -> _. rewrite reverse_app in Ha. cbn in Ha. by rewrite Ha.
Qed.
End MaskFacts.

(** ** A concrete logarithm *)

(** The integer part of the logarithm: exact on powers of two. *)
Definition demo_log2 (x : f64) : f64 :=
  match x with S754_finite false m e => f64_of_Z (e + Z.log2 (Z.pos m)) | _ => S754_nan end.

Definition demo_line : bytes := bs "run --key sk-0123456789abcdefghijklmnop now".

Lemma demo_line_utf8 : utf8 demo_line.
Proof. apply utf8_ascii. repeat constructor. Qed.

Lemma sanitize_line_only_redacts_witness :
  ∃ out, sanitize_line demo_log2 demo_line = Done out ∧ out = bs "run --key sk-[REDACTED] now".
Proof.
  destruct (sanitize_line_only_redacts demo_log2 demo_line demo_line_utf8) as (out & E & _).
  exists out. split; [exact E|]. vm_compute in E. by injection E as <-.
Defined.

Lemma sanitize_line_hides_secrets_witness :
  bs "run --key sk-[REDACTED] now" ≠ bs "run --key " ++ bs "sk-0123456789abcdefghijklmnop" ++ bs " now".
Proof.
  apply (sanitize_line_hides_secrets demo_log2 demo_line).
  - exact demo_line_utf8.
  - vm_compute. reflexivity.
  - right. exists (bs "sk-", 24%nat). split; [apply (bool_decide_unpack _); vm_compute; done|].
    exists (bs "0123456789abcdefghijklmnop"). split; [reflexivity|]. split; [repeat constructor|cbn; lia].
Defined.

Definition demo_run : bytes := bs "0123456789ABCDEFGHIJKLMNOPQRSTUVWXYZabcdefghijklmnopqrstuvwxyz-_".

Lemma mask_secrets_spec_witness :
  mask_secrets_in_place demo_log2 (bs "id " ++ demo_run ++ bs " end")
  = bs "id " ++ replicate 64 star ++ bs " end".
Proof.
  rewrite (proj2 (proj2 (proj2 (mask_secrets_spec demo_log2 (bs "id " ++ demo_run ++ bs " end"))))
    (bs "id ") demo_run (bs " end") eq_refl ltac:(done) ltac:(repeat constructor) eq_refl eq_refl).
  vm_compute. reflexivity.
Defined.

(** ** What the line filter leaves *)

Definition sanitized (s : string) : string :=
  match sanitize_line demo_log2 (bs s) with Done out => string_of_list_ascii out | Panic => "panic" end.

(** The scheme of a basic authorization is redacted, its credentials are kept. *)
Lemma basic_credentials_survive :
  sanitized "Authorization: Basic dXNlcjpwYXNz" = "Authorization:[REDACTED] dXNlcjpwYXNz".
Proof. vm_compute. reflexivity. Qed.

(** A key whose end marker is cut off after its name counts as part of the header
    line and is kept, followed by the marker that says it was redacted. *)
Lemma truncated_pem_survives :
  sanitized ("-----BEGIN KEY-----MIIEbody-----END KEY" +:+ ch1 10 +:+ "next")
  = "-----BEGIN KEY-----MIIEbody-----END KEY" +:+ ch1 10 +:+ "[REDACTED PEM BODY]".
Proof. vm_compute. reflexivity. Qed.
