(* ===== verification/Ansi.v ===== *)
(** * Ansi: redaction of terminal output between its escape sequences

    Model of [src/src/pty/ansi.rs]: the state machine that separates escape
    sequences from text, and the redactor that passes the former through and the
    latter to [Redact]. *)

From S2P Require Import Prelude Float64 Bytes Sanitizer Redact.

Inductive AnsiState : Type := Ground | Escape | Csi | Osc | OscEscape.
#[export] Instance AnsiState_eq_dec : EqDecision AnsiState.
Proof. solve_decision. Defined.

Definition esc : ascii := chr 27.
Definition bel : ascii := chr 7.

(** The parser between two chunks, and the carry-over of the text redactor. *)
Record AnsiRedactor : Type := mk_ansi {
  state : AnsiState; partial_escape : bytes; carry_over : bytes;
}.
Definition new_redactor : AnsiRedactor := mk_ansi Ground [] [].

(** The variables of the loop. *)
Record Scan : Type := mk_scan {
  s_state : AnsiState; text_start : nat; s_carry : bytes; output : bytes;
}.

Section Ansi.
Variable log2 : f64 → f64.
Variable style : RedactionStyle.

(** [&full_input[text_start..i]]. *)
Definition segment (full_input : bytes) (text_start i : nat) : bytes :=
  take (i - text_start) (drop text_start full_input).

(** An escape sequence that ends with the byte at [i]. *)
Definition end_escape (full_input : bytes) (s : Scan) (i : nat) : Scan :=
  mk_scan Ground (i + 1) (s_carry s) (output s ++ segment full_input (text_start s) (i + 1)).

Definition to_state (s : Scan) (st : AnsiState) : Scan :=
  mk_scan st (text_start s) (s_carry s) (output s).

(** An escape byte in the text: what precedes it is redacted and flushed. *)
Definition begin_escape (full_input : bytes) (s : Scan) (i : nat) : outcome Scan :=
  '(carry, out) ← (if (text_start s <? i)%nat
                   then redact_chunk log2 style (s_carry s) (segment full_input (text_start s) i)
                   else Done (s_carry s, []));
  Done (mk_scan Escape i [] (output s ++ out ++ flush log2 style carry)).

Definition scan_byte (full_input : bytes) (s : Scan) (i : nat) (b : ascii) : outcome Scan :=
  match s_state s with
  | Ground => if Ascii.eqb b esc then begin_escape full_input s i else Done s
  | Escape =>
      Done (if Ascii.eqb b "[" then to_state s Csi
            else if Ascii.eqb b "]" then to_state s Osc
            else end_escape full_input s i)
  | Csi => Done (if byte_in 64 126 b then end_escape full_input s i else s)
  | Osc =>
      Done (if Ascii.eqb b bel then end_escape full_input s i
            else if Ascii.eqb b esc then to_state s OscEscape else s)
  | OscEscape =>
      Done (if Ascii.eqb b (chr 92) then end_escape full_input s i else to_state s Osc)
  end.

Fixpoint scan_from (full_input : bytes) (s : Scan) (i : nat) (rest : bytes) : outcome Scan :=
  match rest with
  | [] => Done s
  | b :: rest => s ← scan_byte full_input s i b; scan_from full_input s (S i) rest
  end.

Definition ansi_redact_chunk (r : AnsiRedactor) (chunk : bytes) : outcome (AnsiRedactor * bytes) :=
  let full_input := partial_escape r ++ chunk in
  s ← scan_from full_input (mk_scan Ground 0 (carry_over r) []) 0 full_input;
  let len := length full_input in
  if bool_decide (s_state s ≠ Ground)
  then Done (mk_ansi (s_state s) (drop (text_start s) full_input) (s_carry s), output s)
  else if (text_start s <? len)%nat then
    '(carry, out) ← redact_chunk log2 style (s_carry s) (drop (text_start s) full_input);
    Done (mk_ansi Ground [] carry, output s ++ out)
  else Done (mk_ansi Ground [] (s_carry s), output s).

(** Both buffers are empty afterwards. *)
Definition ansi_flush (r : AnsiRedactor) : bytes :=
  partial_escape r ++ flush log2 style (carry_over r).

Fixpoint ansi_redact_chunks (r : AnsiRedactor) (chunks : list bytes) : outcome bytes :=
  match chunks with
  | [] => Done (ansi_flush r)
  | chunk :: chunks =>
      '(r, out) ← ansi_redact_chunk r chunk;
      rest ← ansi_redact_chunks r chunks;
      Done (out ++ rest)
  end.

Definition ansi_redact_str (r : AnsiRedactor) (input : bytes) : outcome (AnsiRedactor * bytes) :=
  '(r, out) ← ansi_redact_chunk r input;
  Done (mk_ansi (state r) [] [], out ++ ansi_flush r).

Definition ansi_reset (r : AnsiRedactor) : AnsiRedactor := new_redactor.
End Ansi.

(** ** The terminal's own reading of a stream *)

(** The state after a byte, on the stream as a whole. *)
Definition ansi_next (st : AnsiState) (b : ascii) : AnsiState :=
  match st with
  | Ground => if Ascii.eqb b esc then Escape else Ground
  | Escape => if Ascii.eqb b "[" then Csi else if Ascii.eqb b "]" then Osc else Ground
  | Csi => if byte_in 64 126 b then Ground else Csi
  | Osc => if Ascii.eqb b bel then Ground else if Ascii.eqb b esc then OscEscape else Osc
  | OscEscape => if Ascii.eqb b (chr 92) then Ground else Osc
  end.
Definition ansi_after (st : AnsiState) (s : bytes) : AnsiState := foldl ansi_next st s.

(** [ansi_shown style st s t]: from state [st], the stream [s] is shown as [t]: the
    bytes of escape sequences as they are, the text between them redacted. *)
Inductive ansi_shown (style : RedactionStyle) : AnsiState → bytes → bytes → Prop :=
| ansi_shown_nil st : ansi_shown style st [] []
| ansi_shown_escape st c s t :
    st ≠ Ground ∨ c = esc → ansi_shown style (ansi_next st c) s t →
    ansi_shown style st (c :: s) (c :: t)
| ansi_shown_text text out s t :
    esc ∉ text → shown style text out → ansi_shown style Ground s t →
    ansi_shown style Ground (text ++ s) (out ++ t).

Section Facts.
Variable log2 : f64 → f64.
Variable style : RedactionStyle.

Lemma after_app st s s' : ansi_after st (s ++ s') = ansi_after (ansi_after st s) s'.
Proof. apply foldl_app. Qed.

Lemma after_text text : esc ∉ text → ansi_after Ground text = Ground.
Proof.
  induction text as [|c text IH]; [done|]. intros H%not_elem_of_cons. cbn.
  destruct (Ascii.eqb_spec c esc) as [->|]; [tauto|]. apply IH, H.
Qed.

Lemma ansi_shown_app st s t s' t' :
  ansi_shown style st s t → ansi_shown style (ansi_after st s) s' t' →
  ansi_shown style st (s ++ s') (t ++ t').
Proof.
  induction 1 as [st|st c s t Hc H IH|text out s t Ht Hs H IH]; intros H'; [done| |].
  - constructor; [done|]. by apply IH.
  - rewrite after_app, after_text in H' by done. rewrite <-!(assoc_L (++)). constructor; auto.
Qed.

Lemma ansi_shown_one text out :
  esc ∉ text → shown style text out → ansi_shown style Ground text out.
Proof.
  intros H1 H2. rewrite <-(app_nil_r text), <-(app_nil_r out). constructor; [done..|constructor].
Qed.

(** The buffers between two bytes: [carry] and, in the text state, [seg] are text; an
    unfinished escape sequence is passed through as it is, with nothing pending. *)
Definition pending (st : AnsiState) (carry seg : bytes) : Prop :=
  esc ∉ carry
  ∧ (if bool_decide (st = Ground) then esc ∉ seg
     else carry = [] ∧ ansi_shown style Ground seg seg ∧ ansi_after Ground seg = st).

(** Of the input [x], [carry] and [seg] are pending and the rest is shown. *)
Definition scanned (x : bytes) (st : AnsiState) (carry seg out : bytes) : Prop :=
  ∃ s0, x = s0 ++ carry ++ seg ∧ ansi_shown style Ground s0 out ∧ ansi_after Ground s0 = Ground
        ∧ pending st carry seg.

Lemma segment_snoc full ts i b :
  (ts ≤ i)%nat → full !! i = Some b → segment full ts (i + 1) = segment full ts i ++ [b].
Proof.
  intros Hi Hb. unfold segment. replace (i + 1 - ts)%nat with (S (i - ts)) by lia.
  apply take_S_r. rewrite lookup_drop. by replace (ts + (i - ts))%nat with i by lia.
Qed.
Lemma segment_nil full i : segment full i i = [].
Proof. unfold segment. by rewrite Nat.sub_diag. Qed.

(** Redacting the pending text. *)
Lemma redact_pending carry seg :
  esc ∉ carry → esc ∉ seg →
  ∃ carry' out, redact_chunk log2 style carry seg = Done (carry', out) ∧ esc ∉ carry'
    ∧ (∀ s0 out0, ansi_shown style Ground s0 out0 → ansi_after Ground s0 = Ground →
        scanned (s0 ++ carry ++ seg) Ground carry' [] (out0 ++ out)).
Proof.
  intros Hc Hs. destruct (redact_chunk_shown log2 style carry seg) as (carry' & out & consumed & E & Eb & Hsh & _).
  assert (esc ∉ consumed ∧ esc ∉ carry') as [H1 H2].
  { apply not_elem_of_app. rewrite <-Eb. by apply not_elem_of_app. }
  exists carry', out. split; [done|]. split; [done|]. intros s0 out0 H0 Ha.
  exists (s0 ++ consumed). rewrite app_nil_r, Eb, (assoc_L (++)). split; [done|]. split; [|split].
  - apply ansi_shown_app; [done|]. rewrite Ha. by apply ansi_shown_one.
  - by rewrite after_app, Ha, after_text.
  - split; [done|]. rewrite bool_decide_eq_true_2 by done. apply not_elem_of_nil.
Qed.

(** Flushing it. *)
Lemma flush_pending x carry out :
  scanned x Ground carry [] out → scanned x Ground [] [] (out ++ flush log2 style carry).
Proof.
  intros (s0 & -> & H0 & Ha & Hc & _). exists (s0 ++ carry). rewrite !app_nil_r. split; [done|]. split; [|split].
  - apply ansi_shown_app; [done|]. rewrite Ha. apply ansi_shown_one; [done|]. apply entropy_shown, shown_refl.
  - by rewrite after_app, Ha, after_text.
  - split; [apply not_elem_of_nil|]. rewrite bool_decide_eq_true_2 by done. apply not_elem_of_nil.
Qed.

(** A byte that starts, continues or ends an escape sequence. *)
Lemma scanned_start x out b :
  scanned x Ground [] [] out → b = esc → scanned (x ++ [b]) Escape [] [b] out.
Proof.
  intros (s0 & -> & H0 & Ha & _) ->. exists s0. rewrite !app_nil_r. split; [done|]. do 2 (split; [done|]).
  split; [apply not_elem_of_nil|]. rewrite bool_decide_eq_false_2 by done. split; [done|split; [|done]].
  constructor; [by right|constructor].
Qed.

Lemma scanned_continue x st carry seg out b :
  st ≠ Ground → scanned x st carry seg out → ansi_next st b ≠ Ground →
  scanned (x ++ [b]) (ansi_next st b) carry (seg ++ [b]) out.
Proof.
  intros Hst (s0 & -> & H0 & Ha & Hc & Hp) Hn. rewrite bool_decide_eq_false_2 in Hp by done.
  destruct Hp as (-> & Hseg & Hafter). exists s0. rewrite <-!(assoc_L (++)). split; [done|].
  do 2 (split; [done|]). split; [done|]. rewrite bool_decide_eq_false_2 by done. split; [done|]. split.
  - apply ansi_shown_app; [done|]. rewrite Hafter. constructor; [by left|constructor].
  - by rewrite after_app, Hafter.
Qed.

Lemma scanned_end x st carry seg out b :
  st ≠ Ground → scanned x st carry seg out → ansi_next st b = Ground →
  scanned (x ++ [b]) Ground carry [] (out ++ seg ++ [b]).
Proof.
  intros Hst (s0 & -> & H0 & Ha & Hc & Hp) Hn. rewrite bool_decide_eq_false_2 in Hp by done.
  destruct Hp as (-> & Hseg & Hafter). exists (s0 ++ seg ++ [b]). rewrite !app_nil_r, <-(assoc_L (++)).
  split; [done|]. split; [|split].
  - apply ansi_shown_app; [done|]. rewrite Ha. apply ansi_shown_app; [done|]. rewrite Hafter.
    constructor; [by left|constructor].
  - by rewrite !after_app, Ha, Hafter.
  - split; [done|]. rewrite bool_decide_eq_true_2 by done. apply not_elem_of_nil.
Qed.

Lemma scanned_text x carry seg out b :
  scanned x Ground carry seg out → b ≠ esc → scanned (x ++ [b]) Ground carry (seg ++ [b]) out.
Proof.
  intros (s0 & -> & H0 & Ha & Hc & Hp) Hb. exists s0. rewrite <-!(assoc_L (++)). do 3 (split; [done|]).
  split; [done|]. rewrite bool_decide_eq_true_2 in Hp |- * by done. apply not_elem_of_app. split; [done|].
  by apply not_elem_of_cons; split; [|apply not_elem_of_nil].
Qed.

(** The loop invariant, [c0] being the carry-over at its start. *)
Definition scan_inv (c0 full : bytes) (s : Scan) (i : nat) : Prop :=
  (text_start s ≤ i)%nat
  ∧ scanned (c0 ++ take i full) (s_state s) (s_carry s) (segment full (text_start s) i) (output s).

Lemma begin_escape_ok c0 full s i b :
  scan_inv c0 full s i → full !! i = Some b → s_state s = Ground → b = esc →
  ∃ s', begin_escape log2 style full s i = Done s' ∧ scan_inv c0 full s' (i + 1).
Proof.
  intros [Hts Hsc] Hb Hst Hesc. rewrite Hst in Hsc. unfold begin_escape.
  assert (∃ carry out, (if (text_start s <? i)%nat
      then redact_chunk log2 style (s_carry s) (segment full (text_start s) i) else Done (s_carry s, []))
      = Done (carry, out) ∧ scanned (c0 ++ take i full) Ground carry [] (output s ++ out))
    as (carry & out & -> & Hsc').
  { destruct (Nat.ltb_spec (text_start s) i) as [Hlt|Hge].
    - destruct Hsc as (s0 & E & H0 & Ha & Hc & Hp). rewrite bool_decide_eq_true_2 in Hp by done.
      destruct (redact_pending _ _ Hc Hp) as (carry & out & -> & _ & H). exists carry, out.
      split; [done|]. rewrite E. by apply H.
    - assert (text_start s = i) as Ei by lia. rewrite Ei, segment_nil in Hsc. exists (s_carry s), [].
      rewrite app_nil_r. by split. }
  cbn [mbind outcome_bind]. eexists. split; [done|]. split; [cbn [text_start]; lia|].
  cbn [text_start s_state s_carry output]. rewrite (segment_snoc _ _ _ b), segment_nil by done.
  rewrite Nat.add_1_r, (take_S_r _ _ b) by done. rewrite (assoc_L (++)).
  apply scanned_start; [|done]. rewrite (assoc_L (++)). by apply flush_pending.
Qed.

Lemma scan_byte_ok c0 full s i b :
  scan_inv c0 full s i → full !! i = Some b →
  ∃ s', scan_byte log2 style full s i b = Done s' ∧ scan_inv c0 full s' (i + 1).
Proof.
  intros Hinv Hb. destruct (decide (s_state s = Ground)) as [Hst|Hst].
  { unfold scan_byte. rewrite Hst. destruct (Ascii.eqb_spec b esc) as [He|He]; [by eapply begin_escape_ok|].
    exists s. split; [done|]. destruct Hinv as [Hts Hsc]. split; [lia|]. rewrite (segment_snoc _ _ _ b) by done.
    rewrite Nat.add_1_r, (take_S_r _ _ b), (assoc_L (++)), Hst in * by done. by apply scanned_text. }
  assert (∃ s', scan_byte log2 style full s i b = Done s'
    ∧ s' = if bool_decide (ansi_next (s_state s) b = Ground) then end_escape full s i
           else to_state s (ansi_next (s_state s) b)) as (s' & E & Es').
  { eexists. split; [|reflexivity]. unfold scan_byte. destruct s as [st ts c o]. cbn [s_state] in *.
    destruct st; [done|cbn [ansi_next]..].
    - by destruct (Ascii.eqb b "["), (Ascii.eqb b "]").
    - by destruct (byte_in 64 126 b).
    - by destruct (Ascii.eqb b bel), (Ascii.eqb b esc).
    - by destruct (Ascii.eqb b (chr 92)). }
  exists s'. split; [done|]. destruct Hinv as [Hts Hsc]. subst s'.
  unfold scan_inv. rewrite (Nat.add_1_r i), (take_S_r _ _ b), (assoc_L (++)) by done. rewrite <-(Nat.add_1_r i).
  case_bool_decide as Hn; cbn [text_start s_state s_carry output end_escape to_state].
  - split; [lia|]. rewrite segment_nil, (segment_snoc _ _ _ b) by done. by eapply scanned_end.
  - split; [lia|]. rewrite (segment_snoc _ _ _ b) by done. by eapply scanned_continue.
Qed.

Lemma scan_from_ok c0 before rest s :
  scan_inv c0 (before ++ rest) s (length before) →
  ∃ s', scan_from log2 style (before ++ rest) s (length before) rest = Done s'
        ∧ scan_inv c0 (before ++ rest) s' (length (before ++ rest)).
Proof.
  revert before s. induction rest as [|b rest IH]; intros before s Hinv.
  { exists s. split; [done|]. by rewrite app_nil_r in *. }
  cbn [scan_from]. destruct (scan_byte_ok c0 _ s (length before) b Hinv) as (s' & -> & Hinv').
  { rewrite lookup_app_r, Nat.sub_diag by lia. done. }
  cbn [mbind outcome_bind]. specialize (IH (before ++ [b]) s').
  rewrite <-(assoc_L (++)), length_app in IH. cbn [app length] in IH. rewrite Nat.add_1_r in *. by apply IH.
Qed.

Lemma scanned_prefix s0 out0 x st carry seg out :
  ansi_shown style Ground s0 out0 → ansi_after Ground s0 = Ground → scanned x st carry seg out →
  scanned (s0 ++ x) st carry seg (out0 ++ out).
Proof.
  intros H0 Ha (s1 & -> & H1 & Ha1 & Hp). exists (s0 ++ s1). rewrite <-(assoc_L (++)). split; [done|].
  split; [|split; [|done]]; [apply ansi_shown_app; [done|by rewrite Ha]|by rewrite after_app, Ha].
Qed.

Lemma scan_start carry full :
  esc ∉ carry → scan_inv carry full (mk_scan Ground 0 carry []) 0.
Proof.
  intros Hc. split; [done|]. exists []. rewrite take_0. cbn. split; [done|]. split; [constructor|].
  split; [done|]. split; [done|]. rewrite bool_decide_eq_true_2 by done. apply not_elem_of_nil.
Qed.

(** Between two chunks: what is shown of the stream so far, and what is pending. *)
Definition stream_inv (x : bytes) (r : AnsiRedactor) (out : bytes) : Prop :=
  ∃ st, scanned x st (carry_over r) (partial_escape r) out ∧ (st = Ground → partial_escape r = []).

(** The end of a chunk. *)
Lemma chunk_end c0 full s :
  scan_inv c0 full s (length full) →
  ∃ r out, (if bool_decide (s_state s ≠ Ground)
            then Done (mk_ansi (s_state s) (drop (text_start s) full) (s_carry s), output s)
            else if (text_start s <? length full)%nat then
              '(carry, out) ← redact_chunk log2 style (s_carry s) (drop (text_start s) full);
              Done (mk_ansi Ground [] carry, output s ++ out)
            else Done (mk_ansi Ground [] (s_carry s), output s)) = Done (r, out)
    ∧ stream_inv (c0 ++ full) r out.
Proof.
  intros [Hts Hsc]. rewrite firstn_all in Hsc. unfold segment in Hsc.
  rewrite take_ge in Hsc by (rewrite length_drop; lia). case_bool_decide as Hst.
  { eexists _, _. split; [done|]. exists (s_state s). by split. }
  rewrite Hst in Hsc. destruct (Nat.ltb_spec (text_start s) (length full)) as [Hlt|Hge].
  - destruct Hsc as (s0 & E & H0 & Ha & Hc & Hp). rewrite bool_decide_eq_true_2 in Hp by done.
    destruct (redact_pending _ _ Hc Hp) as (carry & out & -> & _ & H). cbn [mbind outcome_bind].
    eexists _, _. split; [done|]. exists Ground. split; [|done]. rewrite E. by apply H.
  - rewrite drop_ge in Hsc by done. eexists _, _. split; [done|]. exists Ground. by split.
Qed.

Lemma chunk_ok x r out0 chunk :
  stream_inv x r out0 →
  ∃ r' out, ansi_redact_chunk log2 style r chunk = Done (r', out) ∧ stream_inv (x ++ chunk) r' (out0 ++ out).
Proof.
  intros (st & (s0 & -> & H0 & Ha & Hc & Hp) & Hst). unfold ansi_redact_chunk. cbv zeta.
  destruct (scan_from_ok (carry_over r) [] (partial_escape r ++ chunk) (mk_scan Ground 0 (carry_over r) []))
    as (s & E & Hinv); [by apply scan_start|].
  cbn [length app] in E, Hinv. rewrite E. cbn [mbind outcome_bind].
  apply chunk_end in Hinv as (r' & out & Er & (st' & Hsc & Hst')). exists r', out. split; [exact Er|].
  exists st'. split; [|done]. rewrite <-!(assoc_L (++)). by apply scanned_prefix.
Qed.

Lemma flush_ok x r out :
  stream_inv x r out → ansi_shown style Ground x (out ++ ansi_flush log2 style r).
Proof.
  intros (st & (s0 & -> & H0 & Ha & Hc & Hp) & Hst). apply ansi_shown_app; [done|]. rewrite Ha. unfold ansi_flush.
  destruct (decide (st = Ground)) as [->|Hne].
  - rewrite Hst, app_nil_r by done. cbn [app]. apply ansi_shown_one; [done|]. apply entropy_shown, shown_refl.
  - rewrite bool_decide_eq_false_2 in Hp by done. destruct Hp as (-> & Hseg & _).
    replace (flush log2 style []) with ([] : bytes) by (by destruct style). by rewrite app_nil_r.
Qed.

Lemma chunks_ok x r out0 chunks :
  stream_inv x r out0 →
  ∃ out, ansi_redact_chunks log2 style r chunks = Done out
         ∧ ansi_shown style Ground (x ++ concat chunks) (out0 ++ out).
Proof.
  revert x r out0. induction chunks as [|chunk chunks IH]; intros x r out0 Hinv; cbn [ansi_redact_chunks concat].
  { eexists. split; [done|]. rewrite app_nil_r. by apply flush_ok. }
  destruct (chunk_ok x r out0 chunk Hinv) as (r' & out & -> & Hinv'). cbn [mbind outcome_bind].
  destruct (IH _ _ _ Hinv') as (rest & -> & H). cbn [mbind outcome_bind]. eexists. split; [done|].
  by rewrite !(assoc_L (++)).
Qed.
End Facts.

Lemma ansi_shown_length st s t : ansi_shown PadMask st s t → length t = length s.
Proof.
  induction 1 as [st|st c s t Hc H IH|text out s t Ht Hs H IH]; [done|by cbn; rewrite IH|].
  apply Forall2_length in Hs. by rewrite !length_app, IH, Hs.
Qed.

(** C17: Terminal output keeps its escape sequences: however a stream is cut into
    chunks - in the middle of a sequence too - redaction never panics, every byte
    of an escape sequence (as the terminal reads the whole stream) comes through
    unchanged and in place, an unfinished one at the end included, only the text
    between them is redacted, and in the padding style the output is exactly as
    long as the input. *)
Theorem ansi_stream log2 style chunks :
  ∃ out, ansi_redact_chunks log2 style new_redactor chunks = Done out
    ∧ ansi_shown style Ground (concat chunks) out
    ∧ (style = PadMask → length out = length (concat chunks)).
Proof.
  destruct (chunks_ok log2 style [] new_redactor [] chunks) as (out & E & H).
  - exists Ground. split; [|done]. exists []. cbn. split; [done|]. split; [constructor|]. split; [done|].
    split; [apply not_elem_of_nil|]. rewrite bool_decide_eq_true_2 by done. apply not_elem_of_nil.
  - exists out. split; [done|]. split; [done|]. intros ->. by eapply ansi_shown_length.
Qed.

Lemma ansi_stream_witness :
  ∃ out, ansi_redact_chunks demo_log2 PadMask new_redactor [[esc; "["%char]; bs "1mghp_0123456789abcdefghij "] = Done out
         ∧ length out = 29%nat.
Proof.
  destruct (ansi_stream demo_log2 PadMask [[esc; "["%char]; bs "1mghp_0123456789abcdefghij "])
    as (out & E & _ & Hl).
  exists out. split; [exact E|]. rewrite Hl; reflexivity.
Defined.
