(* ===== verification/Utf8.v ===== *)
(** * Utf8: bytes and text

    [String::from_utf8_lossy] of the Standard Library of Rust, and the way between
    byte strings and the strings of the other files. *)

From S2P Require Import Prelude Bytes.

(** ** Text of bytes *)

Definition text (b : bytes) : string := string_of_list_ascii b.

Definition byte_value (a : ascii) : Z := Z.of_nat (nat_of_ascii a).
Definition byte_of (z : Z) : ascii := chr (Z.to_nat z).

(** U+FFFD. *)
Definition replacement_char : bytes := [chr 239; chr 191; chr 189].

Definition e_second_ok (a b : ascii) : bool :=
  (byte_in 224 224 a && byte_in 160 191 b) || (byte_in 225 236 a && is_continuation b)
  || (byte_in 237 237 a && byte_in 128 159 b) || (byte_in 238 239 a && is_continuation b).
Definition f_second_ok (a b : ascii) : bool :=
  (byte_in 240 240 a && byte_in 144 191 b) || (byte_in 241 243 a && is_continuation b)
  || (byte_in 244 244 a && byte_in 128 143 b).

Definition starts_continuation (s : bytes) : bool :=
  match s with b :: _ => is_continuation b | [] => false end.

(** How many bytes the next character takes, or the ill-formed sequence that stands
    for one replacement character. *)
Definition lossy_char (s : bytes) : bool * nat :=
  match s with
  | [] => (true, 1)
  | a :: rest =>
      if is_ascii_byte a then (true, 1)
      else if byte_in 194 223 a then if starts_continuation rest then (true, 2) else (false, 1)
      else match rest with
      | b :: rest =>
          if e_second_ok a b then if starts_continuation rest then (true, 3) else (false, 2)
          else if f_second_ok a b then
            match rest with
            | c :: rest =>
                if is_continuation c then if starts_continuation rest then (true, 4) else (false, 3)
                else (false, 2)
            | [] => (false, 2)
            end
          else (false, 1)
      | [] => (false, 1)
      end
  end%nat.

(** [String::from_utf8_lossy]. *)
Fixpoint lossy (fuel : nat) (s : bytes) : bytes :=
  match fuel, s with
  | S fuel, _ :: _ =>
      let '(ok, n) := lossy_char s in
      (if ok then take n s else replacement_char) ++ lossy fuel (drop n s)
  | _, _ => []
  end.
Definition from_utf8_lossy (s : bytes) : bytes := lossy (length s) s.

(** ** Lossy decoding keeps well-formed text *)

Lemma byte_in_spec lo hi a : byte_in lo hi a = true ↔ (lo ≤ nat_of_ascii a ≤ hi)%nat.
Proof. unfold byte_in. by rewrite andb_true_iff, !Nat.leb_le. Qed.

Lemma byte_in_disjoint lo hi lo' hi' a :
  byte_in lo hi a = true → (hi < lo' ∨ hi' < lo)%nat → byte_in lo' hi' a = false.
Proof. intros H Hd. apply not_true_iff_false. rewrite byte_in_spec in *. lia. Qed.

Lemma e_second_lead a b : e_second_ok a b = true → byte_in 224 239 a = true.
Proof.
  unfold e_second_ok. rewrite !orb_true_iff, !andb_true_iff.
  intros [[[[H _]|[H _]]|[H _]]|[H _]]; (eapply byte_in_mono; [exact H|lia..]).
Qed.
Lemma f_second_lead a b : f_second_ok a b = true → byte_in 240 244 a = true.
Proof.
  unfold f_second_ok. rewrite !orb_true_iff, !andb_true_iff.
  intros [[[H _]|[H _]]|[H _]]; (eapply byte_in_mono; [exact H|lia..]).
Qed.

Lemma lossy_char_utf8 c r : utf8_char c = true → lossy_char (c ++ r) = (true, length c).
Proof.
  destruct c as [|a [|b [|c [|d [|]]]]]; cbn [utf8_char]; try done; cbn [app lossy_char length].
  - by intros ->.
  - intros [Ha Hb]%andb_true_iff. unfold is_ascii_byte.
    rewrite (byte_in_disjoint _ _ _ _ _ Ha), Ha by lia. cbn [starts_continuation]. by rewrite Hb.
  - fold (e_second_ok a b). intros [He Hc]%andb_true_iff. pose proof (e_second_lead _ _ He) as Ha.
    unfold is_ascii_byte. rewrite !(byte_in_disjoint _ _ _ _ _ Ha) by lia. rewrite He.
    cbn [starts_continuation]. by rewrite Hc.
  - fold (f_second_ok a b). intros [[Hf Hc]%andb_true_iff Hd]%andb_true_iff. pose proof (f_second_lead _ _ Hf) as Ha.
    unfold is_ascii_byte. rewrite !(byte_in_disjoint _ _ _ _ _ Ha) by lia.
    destruct (e_second_ok a b) eqn:He.
    { apply e_second_lead in He. apply (byte_in_disjoint _ _ 240 244) in He; [congruence|lia]. }
    rewrite Hf, Hc. cbn [starts_continuation]. by rewrite Hd.
Qed.

Lemma lossy_utf8 fuel s : utf8 s → (length s ≤ fuel)%nat → lossy fuel s = s.
Proof.
  intros H. revert fuel. induction H as [|c s Hc Hs IH]; intros fuel Hf; [by destruct fuel|].
  destruct (utf8_char_shape c Hc) as (a & tl & Ec & _). rewrite length_app in Hf.
  destruct fuel as [|fuel]; [subst c; cbn in Hf; lia|]. 
  assert (∃ x y, c ++ s = x :: y) as (x & y & E) by (subst c; by eexists _, _).
  cbn [lossy]. rewrite E, <-E, lossy_char_utf8 by done. rewrite take_app_length, drop_app_length.
  rewrite IH; [done|]. subst c. cbn in Hf. lia.
Qed.

Lemma from_utf8_lossy_utf8 s : utf8 s → from_utf8_lossy s = s.
Proof. intros H. by apply lossy_utf8. Qed.

Lemma text_app a b : text (a ++ b) = text a +:+ text b.
Proof. unfold text. induction a as [|c a IH]; [done|]. cbn. by rewrite IH. Qed.


Lemma bs_app a b : bs (a +:+ b) = bs a ++ bs b.
Proof. unfold bs. induction a as [|c a IH]; [done|]. cbn. by rewrite IH. Qed.

Lemma bs_text b : bs (text b) = b.
Proof. apply list_ascii_of_string_of_list_ascii. Qed.

Lemma bs_chars (P : ascii → bool) s : all_chars P s = true → Forall (λ c, P c = true) (bs s).
Proof.
  induction s as [|c s IH]; [constructor|]. cbn. intros [Hc Hs]%andb_true_iff. constructor; [done|by apply IH].
Qed.

Lemma lossy_ascii s : all_chars is_ascii_byte s = true → text (from_utf8_lossy (bs s)) = s.
Proof.
  intros Hs. rewrite from_utf8_lossy_utf8 by (by apply utf8_ascii, bs_chars). apply string_of_list_ascii_of_string.
Qed.

Lemma byte_value_chr n : (n < 256)%nat → byte_value (chr n) = Z.of_nat n.
Proof. intros H. unfold byte_value, chr. by rewrite nat_ascii_embedding. Qed.

Lemma byte_value_of z : 0 ≤ z < 256 → byte_value (byte_of z) = z.
Proof. intros H. unfold byte_of. rewrite byte_value_chr; lia. Qed.

Lemma byte_value_range a : 0 ≤ byte_value a < 256.
Proof. unfold byte_value. pose proof (nat_ascii_bounded a). lia. Qed.
