(* ===== verification/Relay.v ===== *)
(** * Relay: the front ends of the network relay

    Model of the client side of [src/src/sandbox/linux/net_relay.rs]: the HTTP
    CONNECT and SOCKS5 handshakes of the relay in the sandbox, the request frame
    it sends to the broker, and its answers.  A connection is the bytes the
    peer sends and how reads cut them; the JSON codec of the frame is a class. *)

From S2P Require Import Prelude Bytes Utf8 Ip NetAddr Broker.

(** ** Lines *)

(** [str::lines]: the last piece is a line only if it is not empty, and keeps its [\r]. *)
Definition strip_cr (line : string) : string :=
  match strip_suffix (ch1 13) line with Some l => l | None => line end.
Definition lines (s : string) : list string :=
  let ls := split_char (chr 10) s in
  (strip_cr <$> removelast ls)
  ++ match last ls with Some w => if is_empty w then [] else [w] | None => [] end.

(** ** Connections *)

(** What the peer still sends, and the size of each of the reads to come. *)
Record Conn : Type := mk_conn { incoming : bytes; sizes : list nat }.

(** One [read] into a buffer of [max] bytes: nothing at the end of the stream. *)
Definition read (max : nat) (c : Conn) : option (bytes * Conn) :=
  match incoming c with
  | [] => None
  | s =>
      let n := Nat.min max (S (hd max (sizes c))) in
      Some (take n s, mk_conn (drop n s) (tl (sizes c)))
  end.

(** [read_exact]. *)
Definition read_exact (n : nat) (c : Conn) : option (bytes * Conn) :=
  if (n <=? length (incoming c))%nat
  then Some (take n (incoming c), mk_conn (drop n (incoming c)) (sizes c)) else None.

(** ** HTTP CONNECT *)

Definition crlf : bytes := [chr 13; chr 10].
Definition end_of_head : bytes := crlf ++ crlf.
Definition MAX_HEAD : nat := Z.to_nat 16384.
Definition DEBUG_AUTH_HEADER : string := "X-Vetto-Debug-Token".

Record Target : Type := mk_target { host : string; port : Z; token : option string }.

(** The loop that reads up to the end of the head. *)
Fixpoint read_head (fuel : nat) (buf : bytes) (c : Conn) : option (bytes * Conn) :=
  if bool_decide (is_Some (find end_of_head buf)) then Some (buf, c)
  else if (MAX_HEAD <? length buf)%nat then None
  else match fuel, read 512 c with
       | S fuel, Some (chunk, c) => read_head fuel (buf ++ chunk) c
       | _, _ => None
       end.

(** The request line: what to answer and the authority it names. *)
Inductive RequestLine : Type := BadLine | NotConnect | Authority (host : string) (port : Z).

Definition parse_request_line (line : string) : RequestLine :=
  match split_whitespace line with
  | [] => BadLine
  | method :: parts =>
      if negb (String.eqb (to_ascii_uppercase method) "CONNECT") then NotConnect
      else match parts with
      | [] => BadLine
      | authority :: _ =>
          match rsplit_once ":" authority with
          | Some (host, port_str) =>
              match parse_u16 port_str with Some p => Authority host p | None => BadLine end
          | None => BadLine
          end
      end
  end.

(** The first debug-token header. *)
Fixpoint find_token (ls : list string) : option string :=
  match ls with
  | [] => None
  | line :: ls =>
      match split_once ":" line with
      | Some (k, v) => if eq_ignore_ascii_case (trim k) DEBUG_AUTH_HEADER then Some (trim v) else find_token ls
      | None => find_token ls
      end
  end.

Definition not_implemented : string :=
  "HTTP/1.1 501 Not Implemented" +:+ text crlf +:+ "Connection: close" +:+ text end_of_head.

(** The target, the bytes behind the head, and what was answered. *)
Definition parse_head (head : bytes) : option Target * string :=
  match lines (text (from_utf8_lossy head)) with
  | [] => (None, "")
  | request_line :: headers =>
      match parse_request_line request_line with
      | BadLine => (None, "")
      | NotConnect => (None, not_implemented)
      | Authority h p => (Some (mk_target (to_ascii_lowercase h) p (find_token headers)), "")
      end
  end.

Definition http_connect_head (first : ascii) (c : Conn) : option Target * bytes * string * Conn :=
  match read_head (S (S MAX_HEAD)) [first] c with
  | None => (None, [], "", c)
  | Some (buf, c) =>
      match find end_of_head buf with
      | None => (None, [], "", c)
      | Some pos =>
          let end_idx := (pos + 4)%nat in
          let '(target, answer) := parse_head (take end_idx buf) in
          (target, drop end_idx buf, answer, c)
      end
  end.

(** ** SOCKS5 *)


(** [format!("{:02x}{:02x}", a, b)]. *)
Definition hex2 (a : ascii) : string :=
  String (hex_char (byte_value a / 16)) (String (hex_char (byte_value a mod 16)) EmptyString).
Fixpoint halves (o : bytes) : list string :=
  match o with a :: b :: o => (hex2 a +:+ hex2 b) :: halves o | _ => [] end.

Definition socks_host (atyp : Z) (c : Conn) : option (string * Conn) :=
  if atyp =? 1 then
    '(o, c) ← read_exact 4 c;
    Some (v4_text (byte_value <$> o), c)
  else if atyp =? 3 then
    '(l, c) ← read_exact 1 c;
    '(d, c) ← read_exact (Z.to_nat (byte_value (hd (chr 0) l))) c;
    Some (text (from_utf8_lossy d), c)
  else if atyp =? 4 then
    '(o, c) ← read_exact 16 c;
    Some ("[" +:+ join ":" (halves o) +:+ "]", c)
  else None.

Definition be16_value (b : bytes) : Z :=
  match b with [x; y] => byte_value x * 256 + byte_value y | _ => 0 end.

(** Behind the greeting: the request. *)
Definition socks_request (c : Conn) : option Target * Conn :=
  match
    '(head, c) ← read_exact 4 c;
    if negb (byte_value (nth 1 head (chr 0)) =? 1) then None
    else
      '(h, c) ← socks_host (byte_value (nth 3 head (chr 0))) c;
      '(pb, c) ← read_exact 2 c;
      Some (mk_target (to_ascii_lowercase h) (be16_value pb) None, c)
  with
  | Some (t, c) => (Some t, c)
  | None => (None, c)
  end.

(** The target, what was answered, and the connection. *)
Definition socks5_handshake (first : ascii) (c : Conn) : option Target * bytes * Conn :=
  match read_exact 1 c with
  | None => (None, [], c)
  | Some (n, c) =>
      let nmethods := byte_value (hd (chr 0) n) in
      if (nmethods =? 0) || (32 <? nmethods) then (None, [], c)
      else match read_exact (Z.to_nat nmethods) c with
      | None => (None, [], c)
      | Some (methods, c) =>
          if negb (existsb (Ascii.eqb (chr 0)) methods) then (None, [chr 5; chr 255], c)
          else let '(t, c) := socks_request c in (t, [first; chr 0], c)
      end
  end.

(** ** The frame between relay and broker *)

(** [serde_json] on the request: text and parser. *)
Class RelayCodec : Type := {
  req_text : Target → bytes;
  req_parse : bytes → option Target;
}.
Class RelayCodecLaws `{RelayCodec} : Prop := {
  req_round_trip t : 0 ≤ port t ≤ u16_max → req_parse (req_text t) = Some t;
  req_text_nonempty t : req_text t ≠ [];
}.

Section Frame.
Context `{RC : RelayCodec}.

Definition le16 (n : nat) : bytes := [byte_of (Z.of_nat n mod 256); byte_of (Z.of_nat n / 256)].
Definition le16_value (b : bytes) : Z :=
  match b with [x; y] => byte_value x + byte_value y * 256 | _ => 0 end.

(** [send_request_frame]: the bytes written, when the request fits. *)
Definition request_frame (t : Target) : option bytes :=
  let body := req_text t in
  if 4096 <? Z.of_nat (length body) then None else Some (le16 (length body) ++ body).

Definition read_framed_request (c : Conn) : option (Target * Conn) :=
  '(len_buf, c) ← read_exact 2 c;
  let len := le16_value len_buf in
  if (len =? 0) || (4096 <? len) then None
  else
    '(body, c) ← read_exact (Z.to_nat len) c;
    t ← req_parse body;
    Some (t, c).
End Frame.

(** ** One client connection *)

(** [read_status_and_fd]. *)
Inductive BrokerAnswer : Type := Opened | Denied | Failed.
Definition read_status (status : option ascii) (fd_arrives : bool) : BrokerAnswer :=
  match status with
  | Some s =>
      if Ascii.eqb s "O" then if fd_arrives then Opened else Failed
      else if Ascii.eqb s "D" then Denied else Failed
  | None => Failed
  end.

(** What one connection leaves behind: the frame the broker got, the bytes sent to
    the client, and - when the tunnel is opened - the bytes written into it before
    the pumps take over, with the connection they read from. *)
Record Transcript : Type := mk_transcript {
  frame : option bytes; to_client : bytes; tunnel : option (bytes * Conn);
}.

Definition socks_reply (code : nat) : bytes := chr <$> [5; code; 0; 1; 0; 0; 0; 0; 0; 0]%nat.
Definition http_reply (status_line : string) : bytes := bs status_line ++ end_of_head.

(** The front end the first byte chooses: SOCKS or not, the target, the bytes read
    too far, and what was answered so far. *)
Definition client_target (c : Conn) : option (bool * option Target * bytes * bytes * Conn) :=
  match read_exact 1 c with
  | None => None
  | Some (first, c) =>
      let first := hd (chr 0) first in
      if Ascii.eqb first (chr 5)
      then let '(t, answer, c) := socks5_handshake first c in Some (true, t, [], answer, c)
      else let '(t, leftover, answer, c) := http_connect_head first c in Some (false, t, leftover, bs answer, c)
  end.

(** What the client is told, and whether the pumps start. *)
Definition conclude (socks : bool) (f leftover answer : bytes) (c : Conn) (outcome : BrokerAnswer) : Transcript :=
  match outcome with
  | Opened =>
      mk_transcript (Some f)
        (answer ++ (if socks then socks_reply 0 else http_reply "HTTP/1.1 200 Connection established"))
        (Some (leftover, c))
  | Denied =>
      mk_transcript (Some f)
        (answer ++ (if socks then socks_reply 2 else http_reply "HTTP/1.1 403 Forbidden")) None
  | Failed =>
      mk_transcript (Some f)
        (answer ++ (if socks then socks_reply 1 else http_reply "HTTP/1.1 502 Bad Gateway")) None
  end.

Section Client.
Context `{RC : RelayCodec}.
(** [socketpair], and handing the broker's end over, may fail; the broker answers
    the frame it gets. *)
Variables (pair_works dispatch_works : bool).
Variable broker : bytes → option ascii * bool.

(** From the request to the answer: nothing is written to the client when the
    connection cannot be handed over. *)
Definition serve_target (socks : bool) (t : Target) (leftover answer : bytes) (c : Conn) : Transcript :=
  if negb pair_works then mk_transcript None answer None
  else match request_frame t with
  | None => mk_transcript None answer None
  | Some f =>
      if negb dispatch_works then mk_transcript None answer None
      else
        let '(status, fd) := broker f in conclude socks f leftover answer c (read_status status fd)
  end.

Definition handle_client (c : Conn) : Transcript :=
  match client_target c with
  | None => mk_transcript None [] None
  | Some (_, None, _, answer, _) => mk_transcript None answer None
  | Some (socks, Some t, leftover, answer, c) => serve_target socks t leftover answer c
  end.
End Client.

(** How far [create_and_send_data_fd] gets: no socket pair, no status written, no
    descriptor sent, no thread for the tunnel, or all of it. *)
Inductive DataChannel : Type := NoPair | NoStatus | NoFd | NoThread | Running.

(** The first status byte the relay reads and whether a descriptor comes behind it;
    a failure behind the [O] appends an [X] nobody reads. *)
Definition create_and_send_data_fd (d : DataChannel) : option ascii * bool :=
  match d with
  | NoPair => (Some "X"%char, false)
  | NoStatus => (None, false)
  | NoFd => (Some "O"%char, false)
  | NoThread | Running => (Some "O"%char, true)
  end.

(** The broker's side of the same connection: frame, decision, status byte. *)
Section BrokerSide.
Context `{RC : RelayCodec}.
Variable resolve : string → Z → option (list IpAddr).
Variable tcp_connects : IpAddr → Z → bool.
Variable world : ProxyWorld.
(** How far the data channel gets. *)
Variable channel : DataChannel.

Definition broker_answer (terminal : Terminal) (config : BrokerConfig) (st : BrokerState) (f : bytes) :
  option ascii * bool :=
  match read_framed_request (mk_conn f []) with
  | None => (None, false)
  | Some (t, _) =>
      match (handle_broker_connection resolve tcp_connects world terminal (host t) (port t)
               (token t) config st).2 with
      | ReplyDenied => (Some "D"%char, false)
      | ReplyFailed => (Some "X"%char, false)
      | ReplyConnected _ => create_and_send_data_fd channel
      end
  end.
End BrokerSide.

(** ** The proxy environment *)

Definition build_proxy_env (port : Z) : list (string * string) :=
  let url := "http://127.0.0.1:" +:+ to_dec port in
  ((λ k, (k, url)) <$> ["HTTP_PROXY"; "HTTPS_PROXY"; "ALL_PROXY"; "http_proxy"; "https_proxy"; "all_proxy"])
  ++ [("NO_PROXY", ""); ("no_proxy", "")].

(** ** Lemmas: searching a growing buffer *)

Lemma starts_more s n b : starts s n = true → starts (s ++ b) n = true.
Proof. intros [r ->]%starts_true. rewrite <-(assoc_L (++)). apply starts_app. Qed.

Lemma starts_less s n b : starts (s ++ b) n = true → (length n ≤ length s)%nat → starts s n = true.
Proof.
  intros [r E]%starts_true Hl. apply starts_true. apply app_eq_inv in E as [(k & -> & _)|(k & E & _)].
  - by exists k.
  - exists []. rewrite E, length_app in Hl. destruct k; [by rewrite E, !app_nil_r|cbn in Hl; lia].
Qed.

Lemma find_more n s b p : find n s = Some p → find n (s ++ b) = Some p.
Proof.
  revert p. induction s as [|c s IH]; intros p H; cbn [find] in H.
  - destruct (starts [] n) eqn:E; [|done]. injection H as <-. apply (starts_more _ _ b) in E.
    destruct ([] ++ b) eqn:Eb; cbn [find]; by rewrite E.
  - cbn [app find]. destruct (starts (c :: s) n) eqn:E.
    + apply (starts_more _ _ b) in E. cbn [app] in E. by rewrite E.
    + destruct (find n s) as [q|] eqn:Ef; [|done]. injection H as <-. rewrite (IH q eq_refl).
      destruct (starts (c :: s ++ b) n) eqn:E'; [|done].
      exfalso. apply (starts_less (c :: s) n b) in E'; [congruence|].
      apply find_Some in Ef as (x & y & -> & _). cbn. rewrite !length_app. lia.
Qed.

Lemma find_less n s b p : find n (s ++ b) = Some p → (p + length n ≤ length s)%nat → find n s = Some p.
Proof.
  revert p. induction s as [|c s IH]; intros p H Hl.
  - cbn in Hl. destruct n; [|cbn in Hl; lia]. cbn in Hl. assert (p = 0%nat) as -> by lia. done.
  - cbn [app find] in H |- *. destruct (starts (c :: s ++ b) n) eqn:E.
    + injection H as <-. apply (starts_less (c :: s) n b) in E; [by rewrite E|]. lia.
    + destruct (find n (s ++ b)) as [q|] eqn:Ef; [|done]. injection H as <-.
      rewrite (IH q eq_refl) by (cbn in Hl; lia). destruct (starts (c :: s) n) eqn:E'; [|done].
      apply (starts_more _ _ b) in E'. cbn [app] in E'. congruence.
Qed.

Lemma read_spec max c chunk c' :
  (0 < max)%nat → read max c = Some (chunk, c') →
  incoming c = chunk ++ incoming c' ∧ (0 < length chunk ≤ max)%nat.
Proof.
  unfold read. intros Hm. destruct (incoming c) as [|b s] eqn:E; [done|]. intros [= <- <-]. cbn [incoming].
  rewrite take_drop. split; [done|]. rewrite length_take. cbn [length]. lia.
Qed.

Lemma read_none max c : read max c = None → incoming c = [].
Proof. unfold read. by destruct (incoming c). Qed.

(** Whatever the loop returns is a beginning of the stream that holds the end of
    the head; the rest is still to be read. *)
Lemma read_head_sound fuel buf c buf' c' :
  read_head fuel buf c = Some (buf', c') →
  buf' ++ incoming c' = buf ++ incoming c ∧ is_Some (find end_of_head buf').
Proof.
  revert buf c. induction fuel as [|fuel IH]; intros buf c; cbn [read_head]; case_bool_decide as Hf.
  1,3: by intros [= <- <-].
  all: destruct (MAX_HEAD <? length buf)%nat; [done|].
  { done. }
  destruct (read 512 c) as [[chunk c1]|] eqn:Er; [|done]. intros [E Hs]%IH. split; [|done].
  apply read_spec in Er as [Er _]; [|lia]. by rewrite E, Er, (assoc_L (++)).
Qed.

(** The loop finds an end of the head that lies within the limit, however the
    reads cut the stream. *)
Lemma read_head_complete fuel buf c pos :
  find end_of_head (buf ++ incoming c) = Some pos → (pos + 4 ≤ MAX_HEAD)%nat →
  (pos + 4 ≤ length buf + fuel)%nat → is_Some (read_head fuel buf c).
Proof.
  revert buf c. induction fuel as [|fuel IH]; intros buf c Hp Hmax Hf; cbn [read_head]; case_bool_decide as Hb.
  1,3: by eexists.
  all: assert (length buf < pos + 4)%nat as Hl by (destruct (decide (length buf < pos + 4)%nat); [done|];
    exfalso; apply Hb; exists pos; eapply find_less; [done|cbn; lia]).
  { lia. }
  destruct (Nat.ltb_spec MAX_HEAD (length buf)); [lia|].
  destruct (read 512 c) as [[chunk c1]|] eqn:Er.
  - apply read_spec in Er as [Er Hc]; [|lia]. apply IH; [by rewrite <-(assoc_L (++)), <-Er|done|].
    rewrite length_app. lia.
  - apply read_none in Er. rewrite Er, app_nil_r in Hp. destruct Hb. by exists pos.
Qed.

Lemma http_connect_head_spec first c :
  match http_connect_head first c with
  | (target, leftover, answer, c') =>
      (∃ pos, find end_of_head (first :: incoming c) = Some pos
         ∧ (target, answer) = parse_head (take (pos + 4) (first :: incoming c))
         ∧ leftover ++ incoming c' = drop (pos + 4) (first :: incoming c))
      ∨ target = None ∧ ∀ pos, find end_of_head (first :: incoming c) = Some pos → ¬ (pos + 4 ≤ MAX_HEAD)%nat
  end.
Proof.
  change (first :: incoming c) with ([first] ++ incoming c). unfold http_connect_head.
  destruct (read_head _ [first] c) as [[buf c']|] eqn:Er.
  2: { right. split; [done|]. intros pos Hp Hm.
       destruct (read_head_complete (S (S MAX_HEAD)) [first] c pos Hp Hm) as [? E]; [cbn; lia|congruence]. }
  apply read_head_sound in Er as [E [pos Hpos]]. rewrite Hpos, <-E.
  destruct (parse_head (take (pos + 4) buf)) as [target answer] eqn:Eh. left. exists pos.
  assert (pos + 4 ≤ length buf)%nat as Hl.
  { apply find_Some in Hpos as (x & y & -> & ->). rewrite !length_app. cbn. lia. }
  split; [by apply find_more|]. rewrite take_app_le, drop_app_le by done. by rewrite Eh.
Qed.

(** The CONNECT front end reads exactly one head off the stream, however reads
    cut it: a target is only taken from the bytes up to the first blank line, no
    byte behind it is lost or reordered (what was read too far plus what is still
    to be read is the rest of the stream, which becomes the tunnel), and a head
    within the limit is always found and gives the same target and answer. *)
Theorem connect_head_exact first c :
  let stream := first :: incoming c in
  let '(target, leftover, answer, c') := http_connect_head first c in
  (is_Some target →
   ∃ pos, find end_of_head stream = Some pos
     ∧ (target, answer) = parse_head (take (pos + 4) stream)
     ∧ leftover ++ incoming c' = drop (pos + 4) stream)
  ∧ ∀ pos, find end_of_head stream = Some pos → (pos + 4 ≤ MAX_HEAD)%nat →
     (target, answer) = parse_head (take (pos + 4) stream)
     ∧ leftover ++ incoming c' = drop (pos + 4) stream.
Proof.
  cbv zeta. pose proof (http_connect_head_spec first c) as H.
  destruct (http_connect_head first c) as [[[target leftover] answer] c'].
  destruct H as [(pos & Hp & Ht & Hl)|[-> Hn]]; [|split; [by intros [? ?]|intros pos Hp Hm; by destruct (Hn pos Hp)]].
  split; [intros _; by exists pos|]. intros p Hp' _. rewrite Hp in Hp'. by injection Hp' as <-.
Qed.

(** ** SOCKS5 *)

(** What a client sends: the methods it offers, and its request. *)
Inductive SocksAddr : Type := AddrV4 (o : bytes) | AddrDomain (d : bytes) | AddrV6 (o : bytes).

Definition greeting_bytes (methods : bytes) : bytes := chr (length methods) :: methods.
Definition be16_bytes (p : Z) : bytes := [byte_of (p / 256); byte_of (p mod 256)].
Definition addr_bytes (a : SocksAddr) : bytes :=
  match a with
  | AddrV4 o => chr 1 :: o
  | AddrDomain d => chr 3 :: chr (length d) :: d
  | AddrV6 o => chr 4 :: o
  end.
Definition request_bytes (a : SocksAddr) (p : Z) : bytes := [chr 5; chr 1; chr 0] ++ addr_bytes a ++ be16_bytes p.

Definition addr_ok (a : SocksAddr) : Prop :=
  match a with
  | AddrV4 o => length o = 4%nat
  | AddrDomain d => utf8 d ∧ (length d < 256)%nat
  | AddrV6 o => length o = 16%nat
  end.

(** The host the relay hands to the broker. *)
Definition addr_host (a : SocksAddr) : string :=
  match a with
  | AddrV4 o => v4_text (byte_value <$> o)
  | AddrDomain d => to_ascii_lowercase (text d)
  | AddrV6 o => "[" +:+ join ":" (halves o) +:+ "]"
  end.

Lemma read_exact_app a r n ss :
  length a = n → read_exact n (mk_conn (a ++ r) ss) = Some (a, mk_conn r ss).
Proof.
  intros <-. unfold read_exact. cbn [incoming sizes]. rewrite length_app, (proj2 (Nat.leb_le _ _)) by lia.
  by rewrite take_app_length, drop_app_length.
Qed.

Lemma lower_lower s : to_ascii_lowercase (to_ascii_lowercase s) = to_ascii_lowercase s.
Proof.
  unfold to_ascii_lowercase. induction s as [|c s IH]; [done|]. cbn. rewrite IH. f_equal.
  by destruct c as [[] [] [] [] [] [] [] []].
Qed.

Lemma join_smap f sep ws : smap f sep = sep → Forall (λ w, smap f w = w) ws → smap f (join sep ws) = join sep ws.
Proof.
  intros Hs. induction 1 as [|w ws Hw Hws IH]; [done|]. destruct ws as [|v ws]; [done|].
  change (join sep (w :: v :: ws)) with (w +:+ sep +:+ join sep (v :: ws)). by rewrite !smap_app, Hw, Hs, IH.
Qed.

Lemma v4_text_lower o : Forall (λ z, 0 ≤ z) o → to_ascii_lowercase (v4_text o) = v4_text o.
Proof.
  intros Ho. apply join_smap; [done|]. apply Forall_fmap. eapply Forall_impl; [exact Ho|].
  intros z Hz. apply (smap_id _ _ is_digit); [apply lower_digit|by apply to_dec_digits].
Qed.

Lemma hex_char_lower : ∀ a, lower_ascii (hex_char (byte_value a / 16)) = hex_char (byte_value a / 16)
  ∧ lower_ascii (hex_char (byte_value a mod 16)) = hex_char (byte_value a mod 16).
Proof. all_bytes. Qed.

Lemma hex2_lower a : smap lower_ascii (hex2 a) = hex2 a.
Proof. unfold hex2. cbn [smap]. by destruct (hex_char_lower a) as [-> ->]. Qed.

Lemma halves_lower n o : length o = (2 * n)%nat → Forall (λ w, smap lower_ascii w = w) (halves o).
Proof.
  revert o. induction n as [|n IH]; intros o Ho; [by destruct o|].
  destruct o as [|a [|b o]]; [done|cbn in Ho; lia|]. cbn [halves]. constructor.
  - by rewrite smap_app, !hex2_lower.
  - apply IH. cbn in Ho. lia.
Qed.

Lemma addr_host_lower a : addr_ok a → to_ascii_lowercase (addr_host a) = addr_host a.
Proof.
  destruct a as [o|d|o]; cbn [addr_host addr_ok]; intros Ho.
  - apply v4_text_lower. apply Forall_fmap, Forall_true. intros x. apply byte_value_range.
  - apply lower_lower.
  - unfold to_ascii_lowercase. rewrite !smap_app.
    rewrite (join_smap lower_ascii ":" (halves o)); [done|done|by apply (halves_lower 8)].
Qed.

Lemma v4_octets_ok o : length o = 4%nat → ip_wf (V4 (byte_value <$> o)) = true.
Proof.
  intros Ho. cbn. rewrite length_fmap, Ho. cbn. apply forallb_forall. intros z Hz.
  apply list_elem_of_In, list_elem_of_fmap in Hz as (a & -> & _). pose proof (byte_value_range a).
  unfold octet_ok. rewrite andb_true_iff, !Z.leb_le. lia.
Qed.

Lemma be16_round_trip p : 0 ≤ p ≤ u16_max → be16_value (be16_bytes p) = p.
Proof.
  unfold u16_max. intros Hp. unfold be16_value, be16_bytes.
  assert (0 ≤ p / 256 < 256) by (split; [apply Z.div_pos; lia|apply Z.div_lt_upper_bound; lia]).
  pose proof (Z.mod_pos_bound p 256). rewrite !byte_value_of by lia.
  rewrite (Z.div_mod p 256) at 3 by lia. lia.
Qed.

Lemma socks_host_exact a r ss :
  addr_ok a →
  ∃ h, socks_host (match a with AddrV4 _ => 1 | AddrDomain _ => 3 | AddrV6 _ => 4 end)
         (mk_conn (tail (addr_bytes a) ++ r) ss) = Some (h, mk_conn r ss)
       ∧ to_ascii_lowercase h = addr_host a.
Proof.
  intros Ha. pose proof (addr_host_lower a Ha) as Hl. destruct a as [o|d|o]; cbn [addr_ok] in Ha; unfold socks_host; cbn [Z.eqb Pos.eqb addr_bytes tail].
  - rewrite read_exact_app by done. cbn [mbind option_bind]. by eexists.
  - destruct Ha as [Hu Hd]. change ((chr (length d) :: d) ++ r) with ([chr (length d)] ++ (d ++ r)).
    rewrite read_exact_app by done. cbn [mbind option_bind hd]. rewrite byte_value_chr, Nat2Z.id by done.
    rewrite read_exact_app by done. cbn [mbind option_bind]. eexists. split; [done|].
    by rewrite from_utf8_lossy_utf8.
  - rewrite read_exact_app by done. cbn [mbind option_bind]. by eexists.
Qed.

Lemma socks_request_exact a p r ss :
  addr_ok a → 0 ≤ p ≤ u16_max →
  socks_request (mk_conn (request_bytes a p ++ r) ss) = (Some (mk_target (addr_host a) p None), mk_conn r ss).
Proof.
  intros Ha Hp. destruct (socks_host_exact a (be16_bytes p ++ r) ss Ha) as (h & Eh & Hh).
  unfold socks_request, request_bytes. rewrite <-!(assoc_L (++)).
  assert (∃ t rest, addr_bytes a = t :: rest
    ∧ byte_value t = match a with AddrV4 _ => 1 | AddrDomain _ => 3 | AddrV6 _ => 4 end) as (t & rest & Et & Ht).
  { destruct a; eexists _, _; (split; [reflexivity|vm_compute; reflexivity]). }
  rewrite Et in *. change ([chr 5; chr 1; chr 0] ++ (t :: rest) ++ be16_bytes p ++ r)
    with ([chr 5; chr 1; chr 0; t] ++ rest ++ be16_bytes p ++ r).
  rewrite read_exact_app by done. cbn [mbind option_bind nth]. rewrite byte_value_chr by lia. cbn [Z.of_nat Z.eqb negb].
  rewrite Ht. cbn [tail] in Eh. rewrite Eh. cbn [mbind option_bind]. rewrite read_exact_app by done.
  cbn [mbind option_bind]. by rewrite Hh, be16_round_trip.
Qed.

Definition no_bracket (c : ascii) : bool := negb (Ascii.eqb c "[") && negb (Ascii.eqb c "]").
Definition host_char (c : ascii) : bool := no_bracket c && is_graph c.

Lemma hex_char_ok : ∀ a,
  host_char (hex_char (byte_value a / 16)) = true ∧ host_char (hex_char (byte_value a mod 16)) = true.
Proof. all_bytes. Qed.

Lemma halves_ok n o : length o = (2 * n)%nat → Forall (λ w, all_chars host_char w = true) (halves o).
Proof.
  revert o. induction n as [|n IH]; intros o Ho; [by destruct o|].
  destruct o as [|a [|b o]]; [done|cbn in Ho; lia|]. cbn [halves]. constructor; [|apply IH; cbn in Ho; lia].
  unfold hex2. cbn [append all_chars].
  destruct (hex_char_ok a) as [-> ->], (hex_char_ok b) as [-> ->]. done.
Qed.

Lemma halves_chars (P : ascii → bool) n o :
  (∀ c, host_char c = true → P c = true) → length o = (2 * n)%nat → Forall (λ w, all_chars P w = true) (halves o).
Proof.
  intros HP Ho. eapply Forall_impl; [by apply (halves_ok n)|]. intros w Hw. by apply (all_chars_mono _ _ _ HP).
Qed.

Lemma strip_brackets_wrapped s :
  all_chars no_bracket s = true → strip_brackets ("[" +:+ s +:+ "]") = s.
Proof.
  intros Hs. unfold strip_brackets.
  assert (∀ c, c = "["%char ∨ c = "]"%char → all_chars (λ x, negb (Ascii.eqb x c)) s = true) as Hc.
  { intros c Hc. eapply all_chars_mono; [|exact Hs]. unfold no_bracket. intros x [H1 H2]%andb_true_iff.
    by destruct Hc as [-> | ->]. }
  assert (trim_start_char "[" ("[" +:+ s +:+ "]") = s +:+ "]") as ->.
  { unfold trim_start_char. cbn [append String.length strip_loop strip_prefix]. rewrite Ascii.eqb_refl.
    apply strip_loop_none. specialize (Hc _ (or_introl eq_refl)). destruct s as [|x s]; [done|]. cbn in *.
    apply andb_true_iff in Hc as [Hx%negb_true_iff _]. by rewrite Ascii.eqb_sym, Hx. }
  unfold trim_end_char. assert (String.length (s +:+ "]") = S (String.length s)) as ->.
  { clear. induction s as [|x s IH]; [done|]. cbn. by rewrite IH. }
  cbn [strip_loop]. rewrite (proj2 (strip_suffix_Some "]" (s +:+ "]") s) eq_refl).
  exact (trim_end_char_none "]" s (Hc _ (or_intror eq_refl))).
Qed.

(** The SOCKS5 front end understands every well-formed client: whatever methods
    it offers with no-authentication among them, its request gives exactly the
    address and port it asked for, the relay answers with the chosen method, and
    what the client sends behind the request is untouched. A domain is lowered, an
    IPv4 address is handed on as text that reads back as the same address. *)
Theorem socks_target_exact methods a p rest ss :
  (0 < length methods ≤ 32)%nat → chr 0 ∈ methods → addr_ok a → 0 ≤ p ≤ u16_max →
  socks5_handshake (chr 5) (mk_conn (greeting_bytes methods ++ request_bytes a p ++ rest) ss)
  = (Some (mk_target (addr_host a) p None), [chr 5; chr 0], mk_conn rest ss)
  ∧ match a with
    | AddrV4 o => parse_ip (addr_host a) = Some (V4 (byte_value <$> o))
    | AddrDomain d => addr_host a = to_ascii_lowercase (text d)
    | AddrV6 o => strip_brackets (addr_host a) = join ":" (halves o)
    end.
Proof.
  intros Hm H0 Ha Hp. split.
  - unfold socks5_handshake, greeting_bytes.
    change ((chr (length methods) :: methods) ++ request_bytes a p ++ rest)
      with ([chr (length methods)] ++ methods ++ request_bytes a p ++ rest).
    rewrite read_exact_app by done. cbn [hd]. rewrite byte_value_chr by lia.
    destruct (Z.eqb_spec (Z.of_nat (length methods)) 0); [lia|].
    destruct (Z.ltb_spec 32 (Z.of_nat (length methods))); [lia|]. cbn [orb]. rewrite Nat2Z.id.
    rewrite read_exact_app by done.
    assert (existsb (Ascii.eqb (chr 0)) methods = true) as ->.
    { apply existsb_true. exists (chr 0). split; [done|]. apply Ascii.eqb_refl. }
    cbn [negb]. by rewrite socks_request_exact.
  - destruct a as [o|d|o]; [|done|].
    + change (addr_host (AddrV4 o)) with (ip_text (V4 (byte_value <$> o))).
      apply parse_ip_text. by apply v4_octets_ok.
    + apply strip_brackets_wrapped, join_chars; [done|apply (halves_chars _ 8); [|done]; by intros c [? _]%andb_true_iff].
Qed.

Lemma socks_target_exact_witness :
  socks5_handshake (chr 5)
    (mk_conn (greeting_bytes [chr 2; chr 0] ++ request_bytes (AddrDomain (bs "API.example.com")) 443 ++ bs "hello") [])
  = (Some (mk_target "api.example.com" 443 None), [chr 5; chr 0], mk_conn (bs "hello") []).
Proof.
  refine (proj1 (socks_target_exact [chr 2; chr 0] (AddrDomain (bs "API.example.com")) 443 (bs "hello") [] _ _ _ _)).
  - cbn. lia.
  - right. left.
  - split; [apply utf8_ascii; by repeat constructor|cbn; lia].
  - unfold u16_max. lia.
Defined.

(** ** The request frame *)

Section FrameLemmas.
Context `{RC : RelayCodec} {RL : RelayCodecLaws}.

Lemma le16_round_trip n : Z.of_nat n < 65536 → le16_value (le16 n) = Z.of_nat n.
Proof.
  intros Hn. unfold le16_value, le16.
  assert (0 ≤ Z.of_nat n / 256 < 256) by (split; [apply Z.div_pos; lia|apply Z.div_lt_upper_bound; lia]).
  pose proof (Z.mod_pos_bound (Z.of_nat n) 256). rewrite !byte_value_of by lia.
  rewrite (Z.div_mod (Z.of_nat n) 256) at 3 by lia. lia.
Qed.

Lemma frame_round_trip t f r ss :
  0 ≤ port t ≤ u16_max → request_frame t = Some f →
  read_framed_request (mk_conn (f ++ r) ss) = Some (t, mk_conn r ss).
Proof.
  intros Hp. unfold request_frame. destruct (Z.ltb_spec 4096 (Z.of_nat (length (req_text t)))) as [|Hl]; [done|].
  intros Hf%(inj Some). subst f.
  unfold read_framed_request. rewrite <-(assoc_L (++)), read_exact_app by done. cbn [mbind option_bind].
  rewrite le16_round_trip by lia. pose proof (req_text_nonempty t) as Hn.
  destruct (Z.eqb_spec (Z.of_nat (length (req_text t))) 0); [destruct (req_text t); cbn in *; [done|lia]|].
  destruct (Z.ltb_spec 4096 (Z.of_nat (length (req_text t)))); [lia|]. cbn [orb]. rewrite Nat2Z.id.
  rewrite read_exact_app by done. cbn [mbind option_bind]. by rewrite req_round_trip.
Qed.
End FrameLemmas.

Lemma read_exact_spec n c a c' :
  read_exact n c = Some (a, c') → incoming c = a ++ incoming c' ∧ length a = n.
Proof.
  unfold read_exact. destruct (Nat.leb_spec n (length (incoming c))); [|done]. intros [= <- <-]. cbn [incoming].
  by rewrite take_drop, length_take_le.
Qed.

(** A codec of the same contract, for concrete runs. *)
Fixpoint demo_host (s : string) : bytes :=
  match s with EmptyString => [] | String c s => chr 1 :: c :: demo_host s end.
Definition demo_text (t : Target) : bytes :=
  demo_host (host t) ++ chr 0 :: be16_bytes (port t)
  ++ match token t with Some s => chr 1 :: bs s | None => [] end.
Fixpoint demo_parse (b : bytes) : option Target :=
  match b with
  | x :: y :: b =>
      if Ascii.eqb x (chr 0) then
        match b with
        | z :: tok => Some (mk_target "" (be16_value [y; z]) (match tok with _ :: tok => Some (text tok) | [] => None end))
        | [] => None
        end
      else match demo_parse b with
           | Some t => Some (mk_target (String y (host t)) (port t) (token t))
           | None => None
           end
  | _ => None
  end.
#[local] Instance demo_codec : RelayCodec := {| req_text := demo_text; req_parse := demo_parse |}.

#[local] Instance demo_codec_laws : RelayCodecLaws.
Proof.
  split; cbn [req_text req_parse demo_codec].
  - intros [h p tok] Hp. unfold demo_text. cbn [host port token] in *. induction h as [|c h IH].
    + cbn [demo_host app be16_bytes demo_parse]. rewrite Ascii.eqb_refl.
      change [byte_of (p / 256); byte_of (p mod 256)] with (be16_bytes p). rewrite be16_round_trip by done.
      destruct tok; [|done]. unfold text, bs. by rewrite string_of_list_ascii_of_string.
    + cbn [demo_host app demo_parse]. rewrite IH. done.
  - intros [h p tok]. unfold demo_text. by destruct h.
Qed.

(** The channel is exact in both directions: a request the relay can send is read
    back as itself and nothing behind it is consumed, and whatever the broker takes
    for a request is a length between 1 and 4096 and that many bytes of a text that
    parses to it. *)
Theorem request_frame_exact `{RC : RelayCodec} {RL : RelayCodecLaws} :
  (∀ t f r ss, 0 ≤ port t ≤ u16_max → request_frame t = Some f →
     read_framed_request (mk_conn (f ++ r) ss) = Some (t, mk_conn r ss))
  ∧ ∀ c t c', read_framed_request c = Some (t, c') →
      ∃ len body, incoming c = len ++ body ++ incoming c' ∧ length len = 2%nat
        ∧ le16_value len = Z.of_nat (length body) ∧ 1 ≤ Z.of_nat (length body) ≤ 4096
        ∧ req_parse body = Some t.
Proof.
  split; [intros t f r ss; apply frame_round_trip|]. intros c t c'. unfold read_framed_request.
  destruct (read_exact 2 c) as [[len c1]|] eqn:E1; [|done]. cbn [mbind option_bind].
  apply read_exact_spec in E1 as [E1 L1].
  destruct (Z.eqb_spec (le16_value len) 0); [done|]. destruct (Z.ltb_spec 4096 (le16_value len)); [done|].
  cbn [orb]. destruct (read_exact _ c1) as [[body c2]|] eqn:E2; [|done]. cbn [mbind option_bind].
  apply read_exact_spec in E2 as [E2 L2]. destruct (req_parse body) eqn:Ep; [|done]. intros [= <- <-].
  assert (0 ≤ le16_value len).
  { destruct len as [|x [|y [|]]]; cbn; try lia. pose proof (byte_value_range x). pose proof (byte_value_range y). lia. }
  exists len, body. rewrite E1, E2, L2, Z2Nat.id by done. split_and!; done || lia.
Qed.

(** Used at the demo codec. *)
Lemma request_frame_exact_witness :
  match request_frame (mk_target "a.io" 443 (Some "t")) with
  | Some f => read_framed_request (mk_conn (f ++ bs "more") [])
              = Some (mk_target "a.io" 443 (Some "t"), mk_conn (bs "more") [])
  | None => False
  end.
Proof.
  destruct (request_frame (mk_target "a.io" 443 (Some "t"))) as [f|] eqn:E; [|vm_compute in E; discriminate E].
  refine (proj1 (request_frame_exact (RL := demo_codec_laws)) _ _ (bs "more") [] _ E).
  unfold u16_max. cbn. lia.
Defined.

(** ** The relay and the broker *)

Lemma parse_u16_range s p : parse_u16 s = Some p → 0 ≤ p ≤ u16_max.
Proof. by apply from_str_radix_range. Qed.

Lemma socks_target_port first c t answer c' :
  socks5_handshake first c = (Some t, answer, c') → 0 ≤ port t ≤ u16_max.
Proof.
  unfold socks5_handshake. destruct (read_exact 1 c) as [[n c1]|]; [|done].
  destruct (_ || _); [done|]. destruct (read_exact _ c1) as [[m c2]|]; [|done]. destruct (negb _); [done|].
  unfold socks_request. destruct (match _ with Some _ => _ | None => _ end) as [u c3] eqn:E. intros [= -> _ _].
  revert E. destruct (read_exact 4 c2) as [[head c4]|]; [|done]. cbn [mbind option_bind]. destruct (negb _); [done|].
  destruct (socks_host _ c4) as [[h c5]|]; [|done]. cbn [mbind option_bind].
  destruct (read_exact 2 c5) as [[pb c6]|]; [|done]. cbn [mbind option_bind]. intros [= <- _]. cbn [port].
  unfold be16_value, u16_max. destruct pb as [|x [|y [|]]]; try lia.
  pose proof (byte_value_range x). pose proof (byte_value_range y). lia.
Qed.

Lemma connect_target_port first c t leftover answer c' :
  http_connect_head first c = (Some t, leftover, answer, c') → 0 ≤ port t ≤ u16_max.
Proof.
  unfold http_connect_head. destruct (read_head _ _ _) as [[buf c1]|]; [|done].
  destruct (find _ buf); [|done]. destruct (parse_head _) as [u an] eqn:E. intros [= -> _ _ _].
  revert E. unfold parse_head. destruct (lines _) as [|l hs]; [done|]. unfold parse_request_line.
  destruct (split_whitespace l) as [|m parts]; [done|]. destruct (negb _); [done|].
  destruct parts as [|a]; [done|]. destruct (rsplit_once ":" a) as [[h ps]|]; [|done].
  destruct (parse_u16 ps) as [p|] eqn:Ep; [|done]. intros [= <- _]. by apply parse_u16_range in Ep.
Qed.

Lemma client_target_port c socks t leftover answer c' :
  client_target c = Some (socks, Some t, leftover, answer, c') → 0 ≤ port t ≤ u16_max.
Proof.
  unfold client_target. destruct (read_exact 1 c) as [[f c1]|]; [|done]. destruct (Ascii.eqb _ _).
  - destruct (socks5_handshake _ c1) as [[u an] c2] eqn:E. intros [= _ -> _ _ _]. by apply socks_target_port in E.
  - destruct (http_connect_head _ c1) as [[[u lo] an] c2] eqn:E. intros [= _ -> _ _ _].
    by apply connect_target_port in E.
Qed.

Lemma serve_target_cases `{RC : RelayCodec} pair dispatch broker socks t leftover answer c :
  serve_target pair dispatch broker socks t leftover answer c = mk_transcript None answer None
  ∨ ∃ f, request_frame t = Some f
     ∧ serve_target pair dispatch broker socks t leftover answer c
       = conclude socks f leftover answer c (read_status (broker f).1 (broker f).2).
Proof.
  unfold serve_target. destruct pair; [|by left]. destruct (request_frame t) as [f|]; [|by left].
  destruct dispatch; [|by left]. right. exists f. cbn [negb]. by destruct (broker f).
Qed.

Lemma broker_reads_frame `{RC : RelayCodec} {RL : RelayCodecLaws}
    resolve tcp proxy channel terminal config st t f :
  0 ≤ port t ≤ u16_max → request_frame t = Some f →
  broker_answer resolve tcp proxy channel terminal config st f
  = match (handle_broker_connection resolve tcp proxy terminal (host t) (port t) (token t) config st).2 with
    | ReplyDenied => (Some "D"%char, false)
    | ReplyFailed => (Some "X"%char, false)
    | ReplyConnected _ => create_and_send_data_fd channel
    end.
Proof.
  intros Hp Hf. unfold broker_answer. pose proof (frame_round_trip t f [] [] Hp Hf) as E.
  rewrite app_nil_r in E. by rewrite E.
Qed.

Lemma broker_reply_spec resolve tcp proxy terminal h p tok config st :
  if (request_allowed terminal h p tok config st).2
  then (handle_broker_connection resolve tcp proxy terminal h p tok config st).2 ≠ ReplyDenied
  else (handle_broker_connection resolve tcp proxy terminal h p tok config st).2 = ReplyDenied.
Proof.
  unfold handle_broker_connection. destruct (request_allowed _ _ _ _ _ _) as [st1 []]; cbn [negb snd]; [|done].
  by destruct (resolve_and_connect _ _ _ _ _ _ _) as [st2 [k|]].
Qed.

(** C20: A client gets a tunnel only by the broker's consent: the relay opens one
    exactly for the target its front end read off this connection, the broker's
    policy allowed that very host and port with that token, the broker connected it,
    and the client is told so; when the policy refuses, no tunnel is opened and all
    that the client can get is the refusal. *)
Theorem relay_follows_broker `{RC : RelayCodec} {RL : RelayCodecLaws}
    resolve tcp proxy channel terminal config st pair dispatch c :
  let tr := handle_client pair dispatch (broker_answer resolve tcp proxy channel terminal config st) c in
  (∀ leftover c', tunnel tr = Some (leftover, c') →
     ∃ socks t answer k, client_target c = Some (socks, Some t, leftover, answer, c')
       ∧ (request_allowed terminal (host t) (port t) (token t) config st).2 = true
       ∧ (handle_broker_connection resolve tcp proxy terminal (host t) (port t) (token t) config st).2
         = ReplyConnected k
       ∧ to_client tr = answer ++ (if socks then socks_reply 0 else http_reply "HTTP/1.1 200 Connection established"))
  ∧ ∀ socks t leftover answer c', client_target c = Some (socks, Some t, leftover, answer, c') →
     (request_allowed terminal (host t) (port t) (token t) config st).2 = false →
     tunnel tr = None
     ∧ (to_client tr = answer
        ∨ to_client tr = answer ++ (if socks then socks_reply 2 else http_reply "HTTP/1.1 403 Forbidden")).
Proof.
  cbv zeta. unfold handle_client.
  destruct (client_target c) as [[[[[socks [t|]] lo] an] c1]|] eqn:Ec; [|by split..].
  pose proof (client_target_port _ _ _ _ _ _ Ec) as Hp.
  set (broker := broker_answer resolve tcp proxy channel terminal config st).
  pose proof (broker_reply_spec resolve tcp proxy terminal (host t) (port t) (token t) config st) as Hs.
  destruct (serve_target_cases pair dispatch broker socks t lo an c1) as [->|(f & Hf & ->)].
  { split; [done|]. intros ????? [= <- <- <- <- <-] _. by split; [|left]. }
  unfold broker. rewrite (broker_reads_frame _ _ _ _ _ _ _ t f Hp Hf).
  destruct (handle_broker_connection resolve tcp proxy terminal _ _ _ config st) as [st' [| |k]] eqn:Eh; cbn [snd] in *.
  - split; [done|]. intros ????? [= <- <- <- <- <-] _. by split; [|right].
  - split; [done|]. intros ????? [= <- <- <- <- <-] Hd. by rewrite Hd in Hs.
  - split.
    + intros leftover c' Ht. exists socks, t, an, k.
      destruct channel; try discriminate Ht; injection Ht as <- <-;
        (destruct (request_allowed _ _ _ _ _ _).2; [|discriminate Hs]); (split; [done|split; [done|by rewrite Eh]]).
    + intros ????? [= <- <- <- <- <-] Hd. by rewrite Hd in Hs.
Qed.

Definition demo_client (request : string) : Conn := mk_conn (bs request ++ end_of_head ++ bs "hello") [6; 0; 30; 2]%nat.

(** A CONNECT to an allowed host opens a tunnel, and one to another host is refused. *)
Lemma relay_follows_broker_witness :
  (∃ k, (handle_broker_connection demo_resolver (λ _ _, true) no_proxies no_terminal "api.example.com" 443 None
     demo_config empty_state).2 = ReplyConnected k)
  ∧ tunnel (handle_client true true
      (broker_answer demo_resolver (λ _ _, true) no_proxies Running no_terminal demo_config empty_state)
      (demo_client "CONNECT evil.org:443 HTTP/1.1")) = None.
Proof.
  split.
  - edestruct (proj1 (relay_follows_broker (RL := demo_codec_laws) demo_resolver (λ _ _, true) no_proxies
      Running no_terminal demo_config empty_state true true (demo_client "CONNECT API.example.com:443 HTTP/1.1")))
      as (socks & t & answer & k & Ec & _ & Hk & _); [vm_compute; reflexivity|].
    exists k. vm_compute in Ec. injection Ec as <- <- <-. exact Hk.
  - refine (proj1 (proj2 (relay_follows_broker (RL := demo_codec_laws) demo_resolver (λ _ _, true) no_proxies
      Running no_terminal demo_config empty_state true true (demo_client "CONNECT evil.org:443 HTTP/1.1"))
      false (mk_target "evil.org" 443 None) (bs "hello") [] (mk_conn [] [2%nat]) _ _)); vm_compute; reflexivity.
Defined.

(** The reads may cut the head anywhere. *)
Lemma connect_head_exact_witness :
  let '(target, leftover, _, c') := http_connect_head "C"
      (mk_conn (bs "ONNECT a.io:80 HTTP/1.1" ++ end_of_head ++ bs "hello") [2; 0; 700]%nat) in
  target = Some (mk_target "a.io" 80 None) ∧ leftover ++ incoming c' = bs "hello".
Proof.
  pose proof (connect_head_exact "C" (mk_conn (bs "ONNECT a.io:80 HTTP/1.1" ++ end_of_head ++ bs "hello") [2; 0; 700]%nat)) as H.
  destruct (http_connect_head _ _) as [[[target leftover] answer] c'].
  destruct (proj2 H 24%nat) as [E1 E2]; [vm_compute; reflexivity|unfold MAX_HEAD; lia|].
  vm_compute in E1. injection E1 as -> _. split; [reflexivity|]. rewrite E2. vm_compute. reflexivity.
Defined.

(** An IPv6 address of a SOCKS5 client is given to the resolver in its brackets, which
    no resolver knows: without an upstream proxy such a request always fails. *)
Lemma socks_v6_never_connects resolve tcp proxy o p config st :
  (∀ h p, starts_with h "[" = true → resolve h p = None) →
  length o = 16%nat → get_upstream_proxy (addr_host (AddrV6 o)) p config = None →
  (resolve_and_connect resolve tcp proxy (addr_host (AddrV6 o)) p config st).2 = None.
Proof.
  intros Hr Ho Hp. unfold resolve_and_connect.
  assert (trim_end_char "." (trim (addr_host (AddrV6 o))) = addr_host (AddrV6 o)) as ->.
  { rewrite trim_graph.
    - unfold trim_end_char. apply strip_loop_none. destruct (strip_suffix _ _) as [r|] eqn:E; [|done].
      apply strip_suffix_Some in E. exfalso. cbn [addr_host] in E. revert E.
      rewrite <-(string_app_assoc "[" _ "]").
      generalize ("[" +:+ join ":" (halves o)). clear. intros u. revert r.
      induction u as [|c u IH]; intros [|d r] E; cbn in E; try discriminate E; injection E as E.
      + by destruct r.
      + by destruct u.
      + by apply (IH r).
    - cbn [addr_host]. rewrite !all_chars_app. cbn [all_chars]. rewrite join_chars; [done|done|]. apply (halves_chars _ 8); [|done]. by intros c [_ ?]%andb_true_iff. }
  destruct (_ || _); [done|]. destruct (is_doh_or_dot _ _ _); [done|].
  destruct (match parse_ip _ with Some _ => _ | None => _ end); [done|].
  rewrite (Hr (addr_host (AddrV6 o)) p) by done. cbn [default existsb]. by rewrite Hp.
Qed.
