(* ===== verification/SshProxy.v ===== *)
(** * SshProxy: SSH through the relay

    Model of [build_git_ssh_command], [shell_quote] and [run_ssh_proxy] of
    [src/src/sandbox/linux/net_relay.rs]: the command git runs, and the dialogue of
    the helper with the relay.  The quoting is proved against a reader of the
    shell's words; [%h] and [%p] are the tokens ssh expands before the shell. *)

From S2P Require Import Prelude Bytes Utf8 Ip NetAddr Broker Relay.

(** ** The command line *)

(** [shell_quote]: in single quotes, each single quote outside of them. *)
Definition quote_char (c : ascii) : string :=
  if Ascii.eqb c squote then String squote (String (chr 92) (String squote (String squote EmptyString)))
  else String c EmptyString.
Fixpoint quote_chars (s : string) : string :=
  match s with EmptyString => EmptyString | String c s => quote_char c +:+ quote_chars s end.
Definition shell_quote (value : string) : string :=
  if is_empty value then String squote (String squote EmptyString)
  else String squote (quote_chars value +:+ String squote EmptyString).

(** [executable] is the path as text. *)
Definition ssh_helper (executable : string) : string := shell_quote executable +:+ " ssh-proxy %h %p".
Definition build_git_ssh_command (executable : string) : string :=
  "ssh -o BatchMode=yes -o ProxyCommand=" +:+ shell_quote (ssh_helper executable).

(** [run_ssh_proxy] up to the tunnel: the request it writes, and whether it takes
    the answer for a success. *)
Definition ssh_target_ok (host : string) (port : Z) : bool :=
  negb (port =? 0) && negb (is_empty host) && negb (has_ascii_ws host).
Definition ssh_proxy_request (host : string) (port : Z) : string :=
  let authority := host +:+ ":" +:+ to_dec port in
  "CONNECT " +:+ authority +:+ " HTTP/1.1" +:+ text crlf +:+ "Host: " +:+ authority +:+ text crlf
  +:+ "Connection: keep-alive" +:+ text end_of_head.
Definition ssh_proxy_accepts (response : bytes) : bool :=
  let status := text (from_utf8_lossy response) in
  starts_with status "HTTP/1.1 200 " || starts_with status "HTTP/1.0 200 ".

Definition MAX_RESPONSE : nat := Z.to_nat 16384.

(** The loop that reads the response byte by byte. *)
Fixpoint read_response (fuel : nat) (response : bytes) (c : Conn) : option (bytes * Conn) :=
  if (MAX_RESPONSE <? length response)%nat || bool_decide (is_Some (find end_of_head response))
  then Some (response, c)
  else match fuel, read_exact 1 c with
       | S fuel, Some (b, c) => read_response fuel (response ++ b) c
       | _, _ => None
       end.

(** What the helper leaves: the request it wrote, and the connection behind the
    response when the copying starts. *)
Inductive ssh_error : Type := InvalidTarget | RelayClosed | RelayDenied.
Definition run_ssh_proxy (host : string) (port : Z) (c : Conn) : string * result ssh_error Conn :=
  if negb (ssh_target_ok host port) then ("", Err InvalidTarget)
  else
    (ssh_proxy_request host port,
     match read_response (S MAX_RESPONSE) [] c with
     | None => Err RelayClosed
     | Some (response, c) => if ssh_proxy_accepts response then Ok c else Err RelayDenied
     end).

(** ** Words of the shell *)

(** The characters that mean more than themselves outside of quotes. *)
Definition sh_special (c : ascii) : bool :=
  existsb (Ascii.eqb c)
    (chr 10 :: dquote :: chr 92 :: list_ascii_of_string "|&;<>()$`*?[]#~!{}").
Definition sh_blank (c : ascii) : bool := Ascii.eqb c " " || Ascii.eqb c (chr 9).

Definition snoc (s : string) (c : ascii) : string := s +:+ String c EmptyString.

(** The words of a simple command that uses no more than single quotes and
    backslashes; any other construct has no words here.  [cur] is the word being read. *)
Fixpoint sh (quoted : bool) (cur : option string) (s : string) : option (list string) :=
  match s with
  | EmptyString => if quoted then None else Some (match cur with Some w => [w] | None => [] end)
  | String c s =>
      if quoted then
        if Ascii.eqb c squote then sh false cur s else sh true (Some (snoc (default "" cur) c)) s
      else if Ascii.eqb c squote then sh true (Some (default "" cur)) s
      else if Ascii.eqb c (chr 92) then
        match s with
        | String d s => if Ascii.eqb d (chr 10) then None else sh false (Some (snoc (default "" cur) d)) s
        | EmptyString => None
        end
      else if sh_blank c then
        match cur with
        | Some w => match sh false None s with Some ws => Some (w :: ws) | None => None end
        | None => sh false None s
        end
      else if sh_special c then None
      else sh false (Some (snoc (default "" cur) c)) s
  end.
Definition sh_words (s : string) : option (list string) := sh false None s.

(** ** Lemmas: quoting *)

Lemma snoc_app w c v : snoc w c +:+ v = w +:+ String c v.
Proof. unfold snoc. by rewrite string_app_assoc. Qed.

Lemma sh_quoted v w r : sh true (Some w) (quote_chars v +:+ String squote r) = sh false (Some (w +:+ v)) r.
Proof.
  revert w. induction v as [|c v IH]; intros w; cbn [quote_chars append].
  - cbn [sh]. by rewrite Ascii.eqb_refl, string_app_nil_r.
  - unfold quote_char. destruct (Ascii.eqb_spec c squote) as [->|Hc].
    + transitivity (sh true (Some (snoc w squote)) (quote_chars v +:+ String squote r)); [reflexivity|].
      by rewrite IH, snoc_app.
    + cbn [append sh]. apply Ascii.eqb_neq in Hc. rewrite Hc. cbn [default from_option]. by rewrite IH, snoc_app.
Qed.

Lemma sh_shell_quote v cur r :
  sh false cur (shell_quote v +:+ r) = sh false (Some (default "" cur +:+ v)) r.
Proof.
  unfold shell_quote. destruct v as [|c v].
  - cbn [is_empty String.eqb append]. by rewrite string_app_nil_r.
  - change (is_empty (String c v)) with false. cbv iota.
    transitivity (sh true (Some (default "" cur)) (quote_chars (String c v) +:+ String squote r)).
    { change (sh true (Some (default "" cur)) ((quote_chars (String c v) +:+ String squote "") +:+ r)
              = sh true (Some (default "" cur)) (quote_chars (String c v) +:+ String squote r)).
      by rewrite string_app_assoc. }
    apply sh_quoted.
Qed.

Definition sh_plain (c : ascii) : bool :=
  negb (Ascii.eqb c squote) && negb (Ascii.eqb c (chr 92)) && negb (sh_blank c) && negb (sh_special c).

Lemma sh_plain_word u w r :
  all_chars sh_plain w = true → sh false (Some u) (w +:+ r) = sh false (Some (u +:+ w)) r.
Proof.
  revert u. induction w as [|c w IH]; intros u; cbn [all_chars]; [by rewrite string_app_nil_r|].
  intros [Hc Hw]%andb_true_iff. rewrite <-snoc_app, <-(IH _ Hw). unfold sh_plain in Hc.
  apply andb_true_iff in Hc as [[[H1 H2]%andb_true_iff H3]%andb_true_iff H4]. apply negb_true_iff in H1, H2, H3, H4.
  cbn [append sh]. by rewrite H1, H2, H3, H4.
Qed.

Lemma sh_open c s : sh_plain c = true → sh false None (String c s) = sh false (Some "") (String c s).
Proof.
  unfold sh_plain. intros [[[H1 H2]%andb_true_iff H3]%andb_true_iff H4]%andb_true_iff. apply negb_true_iff in H1, H2, H3, H4.
  cbn [sh]. by rewrite H1, H2, H3, H4.
Qed.

Lemma sh_word c w r :
  all_chars sh_plain (String c w) = true →
  sh false None (String c w +:+ String " " r)
  = match sh false None r with Some ws => Some (String c w :: ws) | None => None end.
Proof.
  intros Hw. transitivity (sh false (Some "") (String c w +:+ String " " r)); [|by rewrite sh_plain_word].
  cbn [all_chars] in Hw. apply andb_true_iff in Hw as [Hc _]. by apply sh_open.
Qed.

(** No path can break out of the command git runs: whatever bytes the path of
    the executable holds - quotes, blanks, newlines, metacharacters - the shell
    reads the command as one ssh invocation with the helper as one option, and the
    helper's own command line, which ssh gives to a second shell, as that path and
    its three arguments. *)
Theorem git_ssh_command_safe executable :
  sh_words (build_git_ssh_command executable)
  = Some ["ssh"; "-o"; "BatchMode=yes"; "-o"; "ProxyCommand=" +:+ ssh_helper executable]
  ∧ sh_words (ssh_helper executable) = Some [executable; "ssh-proxy"; "%h"; "%p"].
Proof.
  unfold sh_words, build_git_ssh_command. split.
  - change ("ssh -o BatchMode=yes -o ProxyCommand=" +:+ shell_quote (ssh_helper executable))
      with ("ssh" +:+ String " " ("-o" +:+ String " " ("BatchMode=yes" +:+ String " "
             ("-o" +:+ String " " ("ProxyCommand=" +:+ shell_quote (ssh_helper executable)))))).
    rewrite !sh_word by done.
    transitivity (match sh false (Some "") ("ProxyCommand=" +:+ shell_quote (ssh_helper executable)) with
      | Some ws => Some ("ssh" :: "-o" :: "BatchMode=yes" :: "-o" :: ws) | None => None end).
    { change (sh false None ("ProxyCommand=" +:+ ?x)) with (sh false (Some "") ("ProxyCommand=" +:+ x)).
      by destruct (sh _ _ _). }
    rewrite sh_plain_word by done. rewrite <-(string_app_nil_r (shell_quote _)), sh_shell_quote. reflexivity.
  - unfold ssh_helper. rewrite sh_shell_quote.
    change (" ssh-proxy %h %p") with (String " " ("ssh-proxy" +:+ String " " ("%h" +:+ String " " "%p"))).
    transitivity (match sh false None ("ssh-proxy" +:+ String " " ("%h" +:+ String " " "%p")) with
      | Some ws => Some (executable :: ws) | None => None end); [reflexivity|]. by rewrite !sh_word.
Qed.

(** What ssh makes of the tokens of [ProxyCommand] before the shell runs it: [%h],
    [%p] and [%%] (the other tokens, and a lone percent sign, are left out). *)
Fixpoint expand_tokens (host port s : string) : option string :=
  match s with
  | EmptyString => Some EmptyString
  | String c s =>
      if Ascii.eqb c "%" then
        match s with
        | String d s =>
            if Ascii.eqb d "h" then append host <$> expand_tokens host port s
            else if Ascii.eqb d "p" then append port <$> expand_tokens host port s
            else if Ascii.eqb d "%" then String "%" <$> expand_tokens host port s
            else None
        | EmptyString => None
        end
      else String c <$> expand_tokens host port s
  end.

Definition no_percent (c : ascii) : bool := negb (Ascii.eqb c "%").

Lemma expand_app host port w r :
  all_chars no_percent w = true → expand_tokens host port (w +:+ r) = append w <$> expand_tokens host port r.
Proof.
  induction w as [|c w IH]; intros H; cbn [append expand_tokens].
  - by destruct (expand_tokens host port r).
  - cbn in H. apply andb_true_iff in H as [Hc%negb_true_iff Hw]. rewrite Hc, IH by done.
    by destruct (expand_tokens host port r).
Qed.

Lemma quote_no_percent v : all_chars no_percent v = true → all_chars no_percent (shell_quote v) = true.
Proof.
  intros Hv. unfold shell_quote. destruct (is_empty v); [done|]. cbn [all_chars].
  rewrite all_chars_app. cbn [all_chars]. rewrite !andb_true_r. apply andb_true_iff. split; [done|].
  induction v as [|c v IH]; [done|]. cbn in Hv. apply andb_true_iff in Hv as [Hc Hv].
  cbn [quote_chars]. rewrite all_chars_app, IH, andb_true_r by done. unfold quote_char.
  destruct (Ascii.eqb c squote); [done|]. cbn. by rewrite Hc.
Qed.

(** The helper is started with what git asked for: for a path without a percent
    sign, and a host of ordinary characters, the command that ssh expands and the
    shell splits is the executable with the sub-command, the host and the port. *)
Theorem helper_arguments executable host port :
  all_chars no_percent executable = true → all_chars sh_plain host = true → host ≠ "" → 0 ≤ port →
  (expand_tokens host (to_dec port) (ssh_helper executable) ≫= sh_words)
  = Some [executable; "ssh-proxy"; host; to_dec port].
Proof.
  intros He Hh Hn Hp. unfold ssh_helper. rewrite expand_app by (by apply quote_no_percent).
  change (expand_tokens host (to_dec port) " ssh-proxy %h %p")
    with (Some (" ssh-proxy " +:+ host +:+ " " +:+ to_dec port +:+ "")).
  cbn [fmap option_fmap option_map mbind option_bind]. rewrite string_app_nil_r. unfold sh_words.
  rewrite sh_shell_quote.
  change (" ssh-proxy " +:+ host +:+ " " +:+ to_dec port)
    with (String " " ("ssh-proxy" +:+ String " " (host +:+ String " " (to_dec port)))).
  transitivity (match sh false None ("ssh-proxy" +:+ String " " (host +:+ String " " (to_dec port))) with
    | Some ws => Some (executable :: ws) | None => None end); [reflexivity|].
  rewrite sh_word by done. destruct host as [|c h]; [done|]. rewrite sh_word by done.
  assert (sh false None (to_dec port) = Some [to_dec port]) as ->; [|done].
  pose proof (to_dec_nonempty port) as Hne. pose proof (to_dec_digits port Hp) as Hd.
  rewrite <-(string_app_nil_r (to_dec port)) at 1.
  assert (all_chars sh_plain (to_dec port) = true) as Hpl.
  { eapply all_chars_mono; [|exact Hd]. intros x Hx. by destruct x as [[] [] [] [] [] [] [] []]. }
  destruct (to_dec port) as [|d ds]; [done|].
  transitivity (sh false (Some "") (String d ds +:+ "")); [|by rewrite sh_plain_word].
  cbn [all_chars] in Hpl. apply andb_true_iff in Hpl as [Hc _]. by apply sh_open.
Qed.

Lemma helper_arguments_witness :
  (expand_tokens "github.com" "22" (ssh_helper "/opt/it's here/vetto") ≫= sh_words)
  = Some ["/opt/it's here/vetto"; "ssh-proxy"; "github.com"; "22"].
Proof. by refine (helper_arguments "/opt/it's here/vetto" "github.com" 22 _ _ _ _). Defined.

(** A percent sign in the path is not doubled, so ssh expands it. *)
Lemma percent_in_path_is_expanded :
  (expand_tokens "github.com" "22" (ssh_helper "/opt/100%pure/vetto") ≫= sh_words)
  = Some ["/opt/10022ure/vetto"; "ssh-proxy"; "github.com"; "22"]
  ∧ expand_tokens "github.com" "22" (ssh_helper "/opt/50%/vetto") = None.
Proof. split; vm_compute; reflexivity. Qed.

(** ** Lemmas: the helper's request *)

Lemma split_char_behind c a b :
  all_chars (λ x, negb (Ascii.eqb x c)) a = true → split_char c (a +:+ String c b) = a :: split_char c b.
Proof.
  unfold split_char. induction a as [|x a IH]; cbn; [by rewrite Ascii.eqb_refl|].
  intros [Hx%negb_true_iff Ha]%andb_true_iff. by rewrite Ascii.eqb_sym, Hx, IH.
Qed.

Lemma split_by_cons P s : ∃ w ws, split_by P s = w :: ws.
Proof.
  induction s as [|x s (w & ws & E)]; cbn; [by eexists _, _|]. rewrite E. destruct (P x); by eexists _, _.
Qed.

Definition no_eol (c : ascii) : bool := negb (Ascii.eqb c (chr 10)).

Lemma lines_crlf l r : all_chars no_eol l = true → lines (l +:+ text crlf +:+ r) = l :: lines r.
Proof.
  intros Hl. unfold lines.
  assert (split_char (chr 10) (l +:+ text crlf +:+ r) = (l +:+ ch1 13) :: split_char (chr 10) r) as ->.
  { rewrite <-(split_char_behind _ (l +:+ ch1 13)) by (rewrite all_chars_app; unfold no_eol in Hl; by rewrite Hl).
    by rewrite string_app_assoc. }
  destruct (split_by_cons (Ascii.eqb (chr 10)) r) as (w & ws & E). unfold split_char. rewrite E.
  assert (strip_cr (l +:+ ch1 13) = l) as Hs.
  { unfold strip_cr. by rewrite (proj2 (strip_suffix_Some (ch1 13) _ l) eq_refl). }
  change (removelast ((l +:+ ch1 13) :: w :: ws)) with ((l +:+ ch1 13) :: removelast (w :: ws)).
  cbn [fmap list_fmap app]. by rewrite Hs.
Qed.

Lemma ws_graph c s : is_graph c = true → first_some (λ u, strip_prefix u (String c s)) white_space = None.
Proof.
  intros Hc. apply first_some_None, Forall_forall. intros w Hw.
  destruct (strip_prefix w (String c s)) as [r|] eqn:E; [|done]. exfalso.
  assert (forallb (λ u, match u with String a _ => negb (is_graph a) | EmptyString => false end) white_space = true) as H
    by (vm_compute; reflexivity).
  rewrite forallb_forall in H. apply list_elem_of_In, H in Hw. destruct w as [|a w]; [done|].
  cbn in E. destruct (Ascii.eqb_spec a c) as [->|]; [|done]. by rewrite Hc in Hw.
Qed.

Lemma ws_word w n s cur :
  all_chars is_graph w = true → ws_pieces (String.length w + n) (w +:+ s) cur = ws_pieces n s (cur +:+ w).
Proof.
  revert cur. induction w as [|c w IH]; intros cur; cbn [all_chars]; [by rewrite string_app_nil_r|].
  intros [Hc Hw]%andb_true_iff. cbn [String.length Nat.add append ws_pieces]. rewrite (ws_graph c _ Hc), IH by done.
  by rewrite string_app_assoc.
Qed.

Lemma ws_blank n s cur : ws_pieces (S n) (String " " s) cur = cur :: ws_pieces n s EmptyString.
Proof. reflexivity. Qed.

(** Three words, with one blank between them. *)
Lemma split_three a b c :
  all_chars is_graph a = true → all_chars is_graph b = true → all_chars is_graph c = true →
  is_empty a = false → is_empty b = false → is_empty c = false →
  split_whitespace (a +:+ String " " (b +:+ String " " c)) = [a; b; c].
Proof.
  intros Ha Hb Hc Na Nb Nc. unfold split_whitespace.
  assert (S (String.length (a +:+ String " " (b +:+ String " " c)))
          = String.length a + S (String.length b + S (String.length c + 1)))%nat as ->.
  { rewrite string_length_app. cbn [String.length]. rewrite string_length_app. cbn [String.length]. lia. }
  rewrite ws_word, ws_blank, ws_word, ws_blank by done.
  rewrite <-(string_app_nil_r c) at 2. rewrite ws_word by done. cbn [append ws_pieces first_some].
  cbn -[white_space]. rewrite Na, Nb. cbn. by rewrite Nc.
Qed.

Lemma rsplit_once_behind c a b :
  all_chars (λ x, negb (Ascii.eqb x c)) b = true → rsplit_once c (a +:+ String c b) = Some (a, b).
Proof.
  intros Hb. assert (rsplit_once c b = None) as Hn.
  { induction b as [|x b IH]; [done|]. cbn in *. apply andb_true_iff in Hb as [Hx%negb_true_iff Hb]. by rewrite IH, Hx. }
  induction a as [|x a IH]; cbn; [by rewrite Hn, Ascii.eqb_refl|]. by rewrite IH.
Qed.

Definition authority (host : string) (port : Z) : string := host +:+ ":" +:+ to_dec port.

Lemma digit_chars (P : ascii → bool) n :
  0 ≤ n → (∀ c, is_digit c = true → P c = true) → all_chars P (to_dec n) = true.
Proof. intros Hn H. eapply all_chars_mono; [exact H|by apply to_dec_digits]. Qed.

Lemma authority_graph host port :
  all_chars is_graph host = true → 0 ≤ port → all_chars is_graph (authority host port) = true.
Proof.
  intros Hh Hp. unfold authority. rewrite !all_chars_app, Hh, digit_chars; [done..|].
  intros c Hc. by destruct c as [[] [] [] [] [] [] [] []].
Qed.

Lemma connect_line host port :
  all_chars is_graph host = true → 0 ≤ port ≤ u16_max →
  parse_request_line ("CONNECT " +:+ authority host port +:+ " HTTP/1.1") = Authority host port.
Proof.
  intros Hh Hp. unfold parse_request_line.
  assert (is_empty (authority host port) = false) as Hn by (by destruct host).
  change ("CONNECT " +:+ authority host port +:+ " HTTP/1.1")
    with ("CONNECT" +:+ String " " (authority host port +:+ String " " "HTTP/1.1")).
  rewrite split_three by (done || (apply authority_graph; [done|lia])). cbn -[authority rsplit_once parse_u16].
  change (authority host port) with (host +:+ String ":" (to_dec port)). rewrite rsplit_once_behind.
  - unfold parse_u16. rewrite from_str_radix_to_dec by lia. by destruct (Z.leb_spec port u16_max); [|lia].
  - apply digit_chars; [lia|]. intros c Hc. by destruct c as [[] [] [] [] [] [] [] []].
Qed.

Definition request_lines (host : string) (port : Z) : string :=
  ("CONNECT " +:+ authority host port +:+ " HTTP/1.1") +:+ text crlf
  +:+ ("Host: " +:+ authority host port) +:+ text crlf
  +:+ "Connection: keep-alive" +:+ text crlf +:+ "" +:+ text crlf +:+ "".

Lemma request_as_lines host port : ssh_proxy_request host port = request_lines host port.
Proof. unfold ssh_proxy_request, request_lines, authority. by rewrite !string_app_assoc. Qed.

Lemma graph_mono (P : ascii → bool) s :
  (∀ c, is_graph c = true → P c = true) → all_chars is_graph s = true → all_chars P s = true.
Proof. apply all_chars_mono. Qed.

Lemma graph_no_cr c : is_graph c = true → negb (Ascii.eqb c (chr 13)) = true.
Proof. intros Hc. by destruct c as [[] [] [] [] [] [] [] []]. Qed.
Lemma graph_no_eol c : is_graph c = true → no_eol c = true.
Proof. intros Hc. by destruct c as [[] [] [] [] [] [] [] []]. Qed.
Lemma graph_ascii c : is_graph c = true → is_ascii_byte c = true.
Proof. intros Hc. by destruct c as [[] [] [] [] [] [] [] []]. Qed.

Lemma parse_ssh_request host port :
  all_chars is_graph host = true → 0 ≤ port ≤ u16_max →
  parse_head (bs (ssh_proxy_request host port)) = (Some (mk_target (to_ascii_lowercase host) port None), "").
Proof.
  intros Hh Hp. assert (all_chars is_graph (authority host port) = true) as Ha by (apply authority_graph; [done|lia]).
  unfold parse_head. rewrite request_as_lines, lossy_ascii.
  - pose proof (graph_mono no_eol _ graph_no_eol Ha) as Hn. unfold request_lines.
    rewrite !lines_crlf by (done || by rewrite !all_chars_app, Hn).
    by rewrite connect_line.
  - unfold request_lines. rewrite !all_chars_app, (graph_mono _ _ graph_ascii Ha). done.
Qed.

Lemma find_skip l s :
  Forall (λ c, negb (Ascii.eqb c (chr 13)) = true) l →
  find end_of_head (l ++ s) = Nat.add (length l) <$> find end_of_head s.
Proof.
  induction 1 as [|c l Hc Hl IH]; cbn [app length]; [by destruct (find _ s)|].
  apply negb_true_iff in Hc. cbn [find]. change (starts (c :: l ++ s) end_of_head)
    with (starts (c :: l ++ s) (chr 13 :: tail end_of_head)). cbn [starts]. rewrite Ascii.eqb_sym in Hc.
  rewrite Hc, IH. by destruct (find end_of_head s).
Qed.

Lemma find_line_end c s :
  Ascii.eqb c (chr 13) = false →
  find end_of_head (crlf ++ c :: s) = Nat.add 2 <$> find end_of_head (c :: s).
Proof.
  intros Hc. rewrite Ascii.eqb_sym in Hc.
  assert (find end_of_head (crlf ++ c :: s) = Nat.add 1 <$> find end_of_head (chr 10 :: c :: s)) as ->.
  { cbn [crlf app find]. change (starts (chr 13 :: chr 10 :: c :: s) end_of_head)
      with (true && (true && (Ascii.eqb (chr 13) c && starts s [chr 10]))). rewrite Hc. cbn [andb].
    by destruct (starts _ _); [|destruct (starts _ _); [|destruct (find _ s)]]. }
  change (chr 10 :: c :: s) with ([chr 10] ++ c :: s). rewrite find_skip by (by repeat constructor).
  by destruct (find end_of_head (c :: s)).
Qed.

Lemma find_line l s :
  l ≠ [] → Forall (λ c, negb (Ascii.eqb c (chr 13)) = true) l →
  find end_of_head (crlf ++ l ++ s) = Nat.add (2 + length l) <$> find end_of_head s.
Proof.
  intros Hn Hl. destruct l as [|c l]; [done|]. pose proof Hl as Hl'. apply Forall_cons in Hl as [Hc%negb_true_iff _].
  cbn [app]. rewrite find_line_end by done. change (c :: l ++ s) with ((c :: l) ++ s).
  rewrite find_skip by done. by destruct (find end_of_head s).
Qed.

Lemma request_end host port r :
  all_chars is_graph host = true → 0 ≤ port ≤ u16_max →
  find end_of_head (bs (ssh_proxy_request host port) ++ r)
  = Some (length (bs (ssh_proxy_request host port)) - 4)%nat.
Proof.
  intros Hh Hp. assert (all_chars is_graph (authority host port) = true) as Ha by (apply authority_graph; [done|lia]).
  pose proof (graph_mono _ _ graph_no_cr Ha) as Hn. rewrite request_as_lines. unfold request_lines.
  rewrite !bs_app, !bs_text. rewrite <-!(assoc_L (++)).
  set (a := bs (authority host port)).
  assert (Forall (λ c, negb (Ascii.eqb c (chr 13)) = true) a) as Fa by (by apply bs_chars).
  rewrite (find_skip (bs "CONNECT ")) by (by repeat constructor). rewrite (find_skip a) by done.
  rewrite (find_skip (bs " HTTP/1.1")) by (by repeat constructor).
  rewrite (find_line (bs "Host: ")) by (done || by repeat constructor). rewrite (find_skip a) by done.
  rewrite (find_line (bs "Connection: keep-alive")) by (done || by repeat constructor).
  assert (find end_of_head (crlf ++ bs "" ++ crlf ++ bs "" ++ r) = Some 0%nat) as -> by done.
  cbn [fmap option_fmap option_map]. f_equal. rewrite !length_app.
  cbn [length bs list_ascii_of_string crlf]. lia.
Qed.

(** ** Lemmas: the response *)

Lemma read_response_exact n pre suf r ss fuel :
  find end_of_head (pre ++ suf) = Some n → length (pre ++ suf) = (n + 4)%nat →
  (length (pre ++ suf) ≤ MAX_RESPONSE)%nat → (length suf < fuel)%nat →
  read_response fuel pre (mk_conn (suf ++ r) ss) = Some (pre ++ suf, mk_conn r ss).
Proof.
  revert pre fuel. induction suf as [|b suf IH]; intros pre fuel Hf Hl Hm Hs.
  - rewrite app_nil_r in *. destruct fuel; cbn [read_response]; rewrite Hf, bool_decide_true, orb_true_r by (by eexists); done.
  - destruct fuel as [|fuel]; [lia|]. cbn [read_response].
    rewrite length_app in Hl, Hm. cbn [length] in Hl, Hm, Hs.
    destruct (Nat.ltb_spec MAX_RESPONSE (length pre)); [lia|]. cbn [orb].
    case_bool_decide as Hb.
    { destruct Hb as [p Hb]. assert (p + 4 ≤ length pre)%nat.
      { apply find_Some in Hb as (x & y & -> & ->). rewrite !length_app. cbn. lia. }
      apply (find_more _ _ (b :: suf)) in Hb. rewrite Hf in Hb. injection Hb as ->. lia. }
    change ((b :: suf) ++ r) with ([b] ++ suf ++ r). rewrite read_exact_app by done.
    rewrite IH; rewrite <-?(assoc_L (++)); try done; cbn [app]; rewrite ?length_app; cbn [length]; lia.
Qed.

Definition http_outcome (o : BrokerAnswer) : string :=
  match o with
  | Opened => "HTTP/1.1 200 Connection established"
  | Denied => "HTTP/1.1 403 Forbidden"
  | Failed => "HTTP/1.1 502 Bad Gateway"
  end.

Lemma read_reply o r ss :
  read_response (S MAX_RESPONSE) [] (mk_conn (http_reply (http_outcome o) ++ r) ss)
  = Some (http_reply (http_outcome o), mk_conn r ss).
Proof.
  destruct o; (eapply read_response_exact; [vm_compute; reflexivity|vm_compute; reflexivity|..];
    unfold MAX_RESPONSE; cbn [app length http_reply http_outcome bs list_ascii_of_string end_of_head crlf]; lia).
Qed.

Lemma graph_no_char s c : all_chars is_graph s = true → is_graph c = false → contains_char s c = false.
Proof.
  intros Hs Hc. induction s as [|d s IH]; [done|]. cbn in *. apply andb_true_iff in Hs as [Hd Hs].
  destruct (Ascii.eqb_spec d c) as [->|]; [congruence|]. by apply IH.
Qed.

Lemma graph_target_ok host port :
  all_chars is_graph host = true → host ≠ "" → 1 ≤ port → ssh_target_ok host port = true.
Proof.
  intros Hh Hn Hp. unfold ssh_target_ok. destruct (Z.eqb_spec port 0); [lia|].
  assert (is_empty host = false) as -> by (by apply String.eqb_neq).
  assert (has_ascii_ws host = false) as ->; [|done].
  unfold has_ascii_ws. cbn [existsb]. rewrite !graph_no_char; done.
Qed.

(** C23: SSH works through the relay exactly as the broker decides: the relay reads
    the helper's request, however the reads cut it, as the host and port ssh asked
    for, with the bytes behind it untouched; and of the answers the relay gives,
    the helper starts to copy on the one that opens the tunnel, at the first byte
    of the server, and fails on the others. *)
Theorem ssh_through_relay host port r ss :
  all_chars is_graph host = true → host ≠ "" → 1 ≤ port ≤ u16_max →
  (length (bs (ssh_proxy_request host port)) ≤ MAX_HEAD)%nat →
  ∃ leftover c',
    client_target (mk_conn (bs (ssh_proxy_request host port) ++ r) ss)
    = Some (false, Some (mk_target (to_ascii_lowercase host) port None), leftover, [], c')
    ∧ leftover ++ incoming c' = r
    ∧ ∀ o f server ss',
        run_ssh_proxy host port (mk_conn (to_client (conclude false f leftover [] c' o) ++ server) ss')
        = (ssh_proxy_request host port, match o with Opened => Ok (mk_conn server ss') | _ => Err RelayDenied end).
Proof.
  intros Hh Hn Hp Hm. assert (0 ≤ port ≤ u16_max) as Hp' by lia.
  pose proof (request_end host port r Hh Hp') as Hend. pose proof (parse_ssh_request host port Hh Hp') as Hparse.
  assert (∃ l, bs (ssh_proxy_request host port) = "C"%char :: l) as [l El] by (by eexists).
  set (req := bs (ssh_proxy_request host port)) in *.
  assert (4 ≤ length req)%nat as H4 by (subst req; rewrite request_as_lines; unfold request_lines;
    rewrite !bs_app, !length_app; cbn; lia).
  rewrite El. change ((("C"%char :: l) ++ r)) with (["C"%char] ++ (l ++ r)).
  unfold client_target. rewrite read_exact_app by done. cbn [hd].
  pose proof (http_connect_head_spec "C" (mk_conn (l ++ r) ss)) as H.
  change (Ascii.eqb "C" (chr 5)) with false. cbv iota. cbn [incoming] in H.
  change ("C"%char :: l ++ r) with (("C"%char :: l) ++ r) in H. rewrite <-El in H.
  destruct (http_connect_head "C" _) as [[[t lo] an] c'].
  destruct H as [(pos & Hpos & Ht & Hlo)|[_ Hno]].
  2: { by destruct (Hno _ Hend); lia. }
  rewrite Hend in Hpos. apply (inj Some) in Hpos. assert (pos + 4 = length req)%nat as Hl by lia. rewrite Hl in Ht, Hlo.
  rewrite take_app_length, Hparse in Ht. rewrite drop_app_length in Hlo. injection Ht as -> ->.
  exists lo, c'. split; [done|]. split; [done|]. intros o f server ss'.
  unfold run_ssh_proxy. rewrite graph_target_ok by (done || lia). cbn [negb].
  assert (to_client (conclude false f lo [] c' o) = http_reply (http_outcome o)) as -> by (by destruct o).
  rewrite read_reply. by destruct o.
Qed.

Lemma ssh_through_relay_witness :
  ∃ leftover c',
    client_target (mk_conn (bs (ssh_proxy_request "GitHub.com" 22) ++ bs "SSH-2.0-client") [3; 40; 0; 7]%nat)
    = Some (false, Some (mk_target "github.com" 22 None), leftover, [], c')
    ∧ leftover ++ incoming c' = bs "SSH-2.0-client".
Proof.
  destruct (ssh_through_relay "GitHub.com" 22 (bs "SSH-2.0-client") [3; 40; 0; 7]%nat) as (lo & c' & E & El & _).
  - reflexivity.
  - discriminate.
  - unfold u16_max. lia.
  - apply Nat.leb_le. reflexivity.
  - exists lo, c'. exact (conj E El).
Defined.
