(* ===== verification/Tunnel.v ===== *)
(** * Tunnel: the two pumps of a broker tunnel

    Model of [forward_data_tunnel] of [src/src/sandbox/linux/net_relay.rs]: two
    threads that copy between the client and the server, count what they read in two
    shared counters, and stop each other through a shared flag when a quota is
    exceeded; on port 443 the first must see a TLS hello for the right host before
    it sends anything.  A step is one access to shared state or one I/O call; the
    threads, and the other tunnels that record their transfers, interleave freely,
    and every access sees the latest value. *)

From S2P Require Import Prelude Bytes Utf8 Ip NetAddr Broker Sni Relay.

(** ** State *)

(** Where a thread stands.  The [Sni] points are the first phase of the sending
    thread on port 443; [Joining] to [Ended] follow its loop; [Gone] is a thread that
    returned early or panicked. *)
Inductive Pc : Type :=
| SniReading (sni_buf : list Z)
| SniWriting (sni_buf : list Z)
| SniCounting (sni_buf : list Z)
| Check
| Reading
| Added (buf : list Z) (total_mine : Z)
| Quotas (buf : list Z) (transfer_now : Z) (pending : list (string * Z))
| Writing (buf : list Z)
| Leaving
| Joining
| Recording
| Ended
| Gone.

(** One direction: its thread, its counter, what the peer still sends and what
    the other peer got. *)
Record Half : Type := mk_half { pc : Pc; count : Z; source : list Z; wrote : list Z }.

Inductive Side : Type := Up | Down.
Definition other (s : Side) : Side := match s with Up => Down | Down => Up end.

(** [Up] is client to server, [Down] server to client; [shared] belongs to all tunnels. *)
Record Tunnel : Type := mk_tunnel {
  up : Half; down : Half; quota_killed : bool; shared : BrokerState;
}.

Definition half (s : Side) (t : Tunnel) : Half := match s with Up => up t | Down => down t end.
Definition set_half (s : Side) (h : Half) (t : Tunnel) : Tunnel :=
  match s with
  | Up => mk_tunnel h (down t) (quota_killed t) (shared t)
  | Down => mk_tunnel (up t) h (quota_killed t) (shared t)
  end.
Definition goto (s : Side) (p : Pc) (t : Tunnel) : Tunnel :=
  let h := half s t in set_half s (mk_half p (count h) (source h) (wrote h)) t.
Definition report (e : BusEvent) (t : Tunnel) : Tunnel :=
  mk_tunnel (up t) (down t) (quota_killed t) (publish e (shared t)).

(** What an I/O call returns: a read of that many bytes, the end of the stream or an
    error, a write of everything, or an error after that many bytes. *)
Inductive Io : Type := Got (n : nat) | NoMore | Sent | Broken (n : nat).

Definition BUF : nat := Z.to_nat 16384.
Definition SNI_CHUNK : nat := Z.to_nat 4096.

(** The bytes of one read; none is no read. *)
Definition read_bytes (max n : nat) (source : list Z) : option (list Z * list Z) :=
  let n := Nat.min n max in
  match take n source with [] => None | buf => Some (buf, drop n source) end.

Section Tunnel.
Variables (host : string) (target_ip : string) (target_port : Z) (quotas : list (string * Z)).

(** The loop both threads run; [None] is a step the thread cannot take. *)
Definition loop_step (s : Side) (io : Io) (t : Tunnel) : option Tunnel :=
  let h := half s t in
  match pc h, io with
  | Check, _ => Some (goto s (if quota_killed t then Leaving else Reading) t)
  | Reading, Got n =>
      '(buf, rest) ← read_bytes BUF n (source h);
      let total := wrap 64 (count h + Z.of_nat (length buf)) in
      Some (set_half s (mk_half (Added buf total) total rest (wrote h)) t)
  | Reading, NoMore => Some (goto s Leaving t)
  | Added buf total_mine, _ =>
      Some (goto s (Quotas buf (wrap 64 (total_mine + count (half (other s) t))) quotas) t)
  | Quotas buf transfer_now [], _ => Some (goto s (Writing buf) t)
  | Quotas buf transfer_now ((pat, limit) :: pending), _ =>
      let total := wrap 64 (get_quota_bytes (shared t) pat + transfer_now) in
      if limit <? total then
        let t := mk_tunnel (up t) (down t) true (shared t) in
        Some (goto s (Writing buf) (report (NetQuotaExceeded pat limit total) t))
      else Some (goto s (Quotas buf transfer_now pending) t)
  | Writing buf, Sent => Some (set_half s (mk_half Check (count h) (source h) (wrote h ++ buf)) t)
  | Writing buf, Broken n =>
      Some (set_half s (mk_half Leaving (count h) (source h) (wrote h ++ take n buf)) t)
  | _, _ => None
  end.

(** [outbound.shutdown(Both)]: the other thread reads nothing more. *)
Definition shutdown_both (t : Tunnel) : Tunnel :=
  mk_tunnel (mk_half Gone (count (up t)) (source (up t)) (wrote (up t)))
    (mk_half (pc (down t)) (count (down t)) [] (wrote (down t))) (quota_killed t) (shared t).

Definition sni_text (name : list Z) : string := text (from_utf8_lossy (byte_of <$> name)).

(** The first phase of the sending thread. *)
Definition sni_step (io : Io) (t : Tunnel) : option Tunnel :=
  let h := up t in
  match pc h, io with
  | SniReading sni_buf, Got n =>
      '(chunk, rest) ← read_bytes SNI_CHUNK n (source h);
      let buf := sni_buf ++ chunk in
      let t := set_half Up (mk_half (pc h) (count h) rest (wrote h)) t in
      Some match extract_sni buf with
      | Panic => goto Up Gone t
      | Done (SniName name) =>
          if validate_sni_host host (sni_text name) then goto Up (SniWriting buf) t
          else shutdown_both (report (Notice ("SNI mismatch: expected '" +:+ host +:+ "', got '" +:+ sni_text name +:+ "'")) t)
      | Done SniMore =>
          if 8192 <? Z.of_nat (length buf) then shutdown_both t else goto Up (SniReading buf) t
      | Done SniErr =>
          shutdown_both (report (Notice ("Non-TLS or malformed traffic on port 443 to " +:+ host)) t)
      end
  | SniReading _, NoMore => Some (shutdown_both t)
  | SniWriting buf, Sent => Some (set_half Up (mk_half (SniCounting buf) (count h) (source h) (wrote h ++ buf)) t)
  | SniWriting buf, Broken n =>
      Some (set_half Up (mk_half Gone (count h) (source h) (wrote h ++ take n buf)) t)
  | SniCounting buf, _ =>
      Some (set_half Up (mk_half Check (wrap 64 (count h + Z.of_nat (length buf))) (source h) (wrote h)) t)
  | _, _ => None
  end.

(** Behind the loop: the writing side is shut down; the sending thread joins the
    other, records the transfer and reports it. *)
Definition leave_step (s : Side) (t : Tunnel) : option Tunnel :=
  match pc (half s t), s with
  | Leaving, Down => Some (goto Down Ended t)
  | Leaving, Up => Some (goto Up Joining t)
  | Joining, Up => match pc (down t) with Ended => Some (goto Up Recording t) | _ => None end
  | Recording, Up =>
      let tx := count (up t) in
      let rx := count (down t) in
      let t := mk_tunnel (up t) (down t) (quota_killed t) (add_domain_transfer host tx rx (shared t)) in
      Some (goto Up Ended (report (NetEgress host target_ip target_port tx rx) t))
  | _, _ => None
  end.

Definition thread_step (s : Side) (io : Io) (t : Tunnel) : option Tunnel :=
  match pc (half s t) with
  | SniReading _ | SniWriting _ | SniCounting _ => match s with Up => sni_step io t | Down => None end
  | Leaving | Joining | Recording => leave_step s t
  | Ended | Gone => None
  | _ => loop_step s io t
  end.

(** Another tunnel ends and records its transfer; the totals stay far from the end
    of the 64 bits. *)
Definition others_step (h : string) (tx rx : Z) (t : Tunnel) : option Tunnel :=
  if (0 <=? tx) && (0 <=? rx) && (get_quota_bytes (shared t) "*" + tx + rx <? 2 ^ 62)
  then Some (mk_tunnel (up t) (down t) (quota_killed t) (add_domain_transfer h tx rx (shared t)))
  else None.

Inductive Action : Type := Thread (s : Side) (io : Io) | Others (host : string) (tx rx : Z).
Definition tunnel_step (a : Action) (t : Tunnel) : option Tunnel :=
  match a with Thread s io => thread_step s io t | Others h tx rx => others_step h tx rx t end.

Fixpoint run (schedule : list Action) (t : Tunnel) : option Tunnel :=
  match schedule with [] => Some t | a :: schedule => t ← tunnel_step a t; run schedule t end.

(** A new tunnel: what the two peers are going to send, and whether the thread of the
    answers could be started. *)
Definition forward_data_tunnel (client server : list Z) (rev : bool) (st : BrokerState) : Tunnel :=
  mk_tunnel (mk_half (if target_port =? 443 then SniReading [] else Check) 0 client [])
    (mk_half (if rev then Check else Ended) 0 server []) false st.
End Tunnel.

(** ** Lemmas: recorded transfers *)

Definition stats_ok (st : BrokerState) : Prop :=
  ∀ k v, transfer st !! k = Some v → 0 ≤ bytes_tx v ∧ 0 ≤ bytes_rx v.

Definition matched (pat : string) (e : string * DomainStats) : Z :=
  if domain_matches_pattern e.1 pat then bytes_tx e.2 + bytes_rx e.2 else 0.
Definition sum_matched (pat : string) (l : list (string * DomainStats)) : Z :=
  foldr (λ e total, matched pat e + total) 0 l.
Definition used (st : BrokerState) (pat : string) : Z := sum_matched pat (map_to_list (transfer st)).

Lemma wrap_small w x : 0 ≤ x < 2 ^ w → wrap w x = x.
Proof. apply Z.mod_small. Qed.

#[local] Instance sum_matched_proper pat : Proper ((≡ₚ) ==> (=)) (sum_matched pat).
Proof. intros l1 l2. unfold sum_matched. induction 1; cbn [foldr]; lia. Qed.

Lemma matched_all e : matched "*" e = bytes_tx e.2 + bytes_rx e.2.
Proof. done. Qed.

Lemma sum_matched_bounds pat l :
  Forall (λ e, 0 ≤ bytes_tx e.2 ∧ 0 ≤ bytes_rx e.2) l → 0 ≤ sum_matched pat l ≤ sum_matched "*" l.
Proof.
  unfold sum_matched. induction 1 as [|e l He Hl IH]; cbn [foldr]; [lia|].
  rewrite matched_all. unfold matched at 1 3. destruct (domain_matches_pattern _ _); lia.
Qed.

Lemma stats_ok_list st : stats_ok st → Forall (λ e, 0 ≤ bytes_tx e.2 ∧ 0 ≤ bytes_rx e.2) (map_to_list (transfer st)).
Proof. intros H. apply Forall_forall. intros [k v] Hin. apply elem_of_map_to_list in Hin. by apply (H k v). Qed.

Lemma used_bounds st pat : stats_ok st → 0 ≤ used st pat ≤ used st "*".
Proof. intros H. by apply sum_matched_bounds, stats_ok_list. Qed.

(** The saturating sum is the sum, as long as that fits. *)
Lemma get_quota_used st pat : stats_ok st → get_quota_bytes st pat = Z.min u64_max (used st pat).
Proof.
  intros H. unfold get_quota_bytes, used. apply stats_ok_list in H. revert H. generalize (map_to_list (transfer st)).
  intros l Hl. match goal with |- fold_left ?f _ _ = _ => set (add := f) end.
  assert (∀ total, 0 ≤ total ≤ u64_max → fold_left add l total = Z.min u64_max (total + sum_matched pat l)) as ->;
    [|unfold u64_max; lia|done].
  induction Hl as [|[k v] l Hv Hl IH]; intros total Ht; [cbn; lia|].
  pose proof (sum_matched_bounds pat l Hl). cbn [fst snd] in Hv.
  change (sum_matched pat ((k, v) :: l)) with (matched pat (k, v) + sum_matched pat l).
  cbn [fold_left]. unfold add at 2, matched. cbn [fst snd]. unfold saturating_add_u64.
  destruct (domain_matches_pattern k pat); rewrite IH; unfold u64_max in *; lia.
Qed.


Lemma sum_insert pat k v m : sum_matched pat (map_to_list (<[k := v]> m)) = matched pat (k, v) + sum_matched pat (map_to_list (delete k m)).
Proof.
  rewrite <-insert_delete_eq, map_to_list_insert by apply lookup_delete_eq. done.
Qed.

Lemma sum_lookup pat k m :
  sum_matched pat (map_to_list m)
  = matched pat (k, default default_stats (m !! k)) + sum_matched pat (map_to_list (delete k m)).
Proof.
  destruct (m !! k) as [v|] eqn:E; cbn [default].
  - rewrite <-sum_insert. by rewrite insert_id.
  - rewrite delete_id by done. unfold matched. cbn. by destruct (domain_matches_pattern _ _).
Qed.

Definition record_key (host : string) : string := to_ascii_lowercase (trim host).

(** A recorded transfer adds exactly its bytes to every pattern that matches. *)
Lemma record_exact st h tx rx :
  stats_ok st → 0 ≤ tx → 0 ≤ rx → used st "*" + tx + rx < 2 ^ 64 →
  stats_ok (add_domain_transfer h tx rx st)
  ∧ ∀ pat, used (add_domain_transfer h tx rx st) pat
           = used st pat + (if domain_matches_pattern (record_key h) pat then tx + rx else 0).
Proof.
  intros Hok Htx Hrx Hb. unfold add_domain_transfer. fold (record_key h). set (k := record_key h).
  set (e := default default_stats (transfer st !! k)).
  assert (0 ≤ bytes_tx e ∧ 0 ≤ bytes_rx e) as He.
  { subst e. destruct (transfer st !! k) eqn:E; cbn; [by apply (Hok k)|lia]. }
  pose proof (sum_lookup "*" k (transfer st)) as Hs. rewrite matched_all in Hs. cbn [snd] in Hs. fold e in Hs.
  assert (stats_ok (mk_state (delete k (transfer st)) (ask_cache st) (bus st))) as Hd.
  { intros j v Hj. cbn in Hj. apply lookup_delete_Some in Hj as [_ Hj]. by apply (Hok j). }
  pose proof (used_bounds _ "*" Hd) as Hrest. unfold used in Hb, Hrest. cbn [transfer] in Hrest.
  rewrite (wrap_small 64 (bytes_tx e + tx)), (wrap_small 64 (bytes_rx e + rx)) by lia. split.
  - intros j v Hj. cbn [transfer] in Hj. apply lookup_insert_Some in Hj as [[_ <-]|[_ Hj]]; [cbn; lia|by apply (Hok j)].
  - intros pat. unfold used. cbn [transfer]. rewrite sum_insert, (sum_lookup pat k (transfer st)). fold e.
    unfold matched. cbn [fst snd bytes_tx bytes_rx]. destruct (domain_matches_pattern k pat); lia.
Qed.

(** ** Lemmas: steps *)

Section Steps.
Context {host : string} {target_ip : string} {target_port : Z} {quotas : list (string * Z)}.

Definition with_pc (p : Pc) (h : Half) : Half := mk_half p (count h) (source h) (wrote h).

(** What a step of the loop does to its half and to the flag. *)
Inductive LoopStep (t : Tunnel) (s : Side) : Half → bool → Prop :=
| L_stop : pc (half s t) = Check → quota_killed t = true → LoopStep t s (with_pc Leaving (half s t)) true
| L_go : pc (half s t) = Check → quota_killed t = false → LoopStep t s (with_pc Reading (half s t)) false
| L_read buf rest :
    pc (half s t) = Reading → source (half s t) = buf ++ rest → (0 < length buf ≤ BUF)%nat →
    LoopStep t s (let total := wrap 64 (count (half s t) + Z.of_nat (length buf)) in
                  mk_half (Added buf total) total rest (wrote (half s t))) (quota_killed t)
| L_end : pc (half s t) = Reading → LoopStep t s (with_pc Leaving (half s t)) (quota_killed t)
| L_load buf mine :
    pc (half s t) = Added buf mine →
    LoopStep t s (with_pc (Quotas buf (wrap 64 (mine + count (half (other s) t))) quotas) (half s t)) (quota_killed t)
| L_kept buf transfer :
    pc (half s t) = Quotas buf transfer [] → LoopStep t s (with_pc (Writing buf) (half s t)) (quota_killed t)
| L_exceeded buf transfer pat limit pending :
    pc (half s t) = Quotas buf transfer ((pat, limit) :: pending) →
    limit < wrap 64 (get_quota_bytes (shared t) pat + transfer) →
    LoopStep t s (with_pc (Writing buf) (half s t)) true
| L_within buf transfer pat limit pending :
    pc (half s t) = Quotas buf transfer ((pat, limit) :: pending) →
    wrap 64 (get_quota_bytes (shared t) pat + transfer) ≤ limit →
    LoopStep t s (with_pc (Quotas buf transfer pending) (half s t)) (quota_killed t)
| L_written buf :
    pc (half s t) = Writing buf →
    LoopStep t s (mk_half Check (count (half s t)) (source (half s t)) (wrote (half s t) ++ buf)) (quota_killed t)
| L_broken buf n :
    pc (half s t) = Writing buf →
    LoopStep t s (mk_half Leaving (count (half s t)) (source (half s t)) (wrote (half s t) ++ take n buf)) (quota_killed t).

Lemma half_set s h t : half s (set_half s h t) = h.
Proof. by destruct s. Qed.
Lemma half_set_other s h t : half (other s) (set_half s h t) = half (other s) t.
Proof. by destruct s. Qed.
Lemma killed_set s h t : quota_killed (set_half s h t) = quota_killed t.
Proof. by destruct s. Qed.
Lemma shared_set s h t : shared (set_half s h t) = shared t.
Proof. by destruct s. Qed.

Lemma read_bytes_spec max n src buf rest :
  read_bytes max n src = Some (buf, rest) → src = buf ++ rest ∧ (0 < length buf ≤ max)%nat.
Proof.
  unfold read_bytes. destruct (take _ src) as [|x l] eqn:E; [done|]. intros [= <- <-].
  rewrite <-E, take_drop. split; [done|]. rewrite length_take. assert (length (take (n `min` max) src) ≠ 0%nat) by (by rewrite E).
  rewrite length_take in *. lia.
Qed.

Lemma loop_step_cases s io t t' :
  loop_step quotas s io t = Some t' →
  half (other s) t' = half (other s) t ∧ transfer (shared t') = transfer (shared t)
  ∧ LoopStep t s (half s t') (quota_killed t').
Proof.
  unfold loop_step, goto, report. destruct (pc (half s t)) as [| | | | |buf mine|buf transfer pending|buf| | | | |] eqn:Ep; try done.
  - intros [= <-]. rewrite half_set, half_set_other, killed_set, shared_set. split_and!; [done..|].
    destruct (quota_killed t) eqn:Ek; [by apply L_stop|by apply L_go].
  - destruct io as [n| | |]; try done.
    + destruct (read_bytes BUF n _) as [[buf rest]|] eqn:Er; [|done]. cbn [mbind option_bind]. intros [= <-].
      rewrite half_set, half_set_other, killed_set, shared_set. split_and!; [done..|].
      apply read_bytes_spec in Er as [? ?]. by apply (L_read _ _ buf rest).
    + intros [= <-]. rewrite half_set, half_set_other, killed_set, shared_set. split_and!; [done..|]. by apply L_end.
  - intros [= <-]. rewrite half_set, half_set_other, killed_set, shared_set. split_and!; [done..|]. by apply (L_load _ _ buf mine).
  - destruct pending as [|[pat limit] pending].
    + intros [= <-]. rewrite half_set, half_set_other, killed_set, shared_set. split_and!; [done..|]. by eapply L_kept.
    + destruct (Z.ltb_spec limit (wrap 64 (get_quota_bytes (shared t) pat + transfer))) as [Hl|Hl]; intros [= <-];
        rewrite half_set, half_set_other, killed_set, shared_set.
      * destruct s; (split_and!; [done..|]); exact (L_exceeded t _ buf transfer pat limit pending Ep Hl).
      * split_and!; [done..|]. by eapply (L_within _ _ buf transfer pat limit pending).
  - destruct io as [| | |n]; try done; intros [= <-]; rewrite half_set, half_set_other, killed_set, shared_set;
      (split_and!; [done..|]); [by apply L_written|by apply L_broken].
Qed.
End Steps.

(** ** The quota bound *)

(** The bytes a thread has read and not yet written. *)
Definition inflight (p : Pc) : list Z :=
  match p with
  | SniReading buf | SniWriting buf | Added buf _ | Quotas buf _ _ | Writing buf => buf
  | _ => []
  end.

Definition in_sni (p : Pc) : bool :=
  match p with SniReading _ | SniWriting _ | SniCounting _ | Gone => true | _ => false end.

Definition SNI_MAX : Z := 8192 + 4096.
Definition CHUNK : Z := 16384.

Definition counted (t : Tunnel) : Z := count (up t) + count (down t).

Lemma b2z_range b : 0 ≤ Z.b2z b ≤ 1.
Proof. destruct b; cbn; lia. Qed.
Lemma b2z_mono a b : (a = true → b = true) → Z.b2z a ≤ Z.b2z b.
Proof. destruct a, b; cbn; lia. Qed.

Section Bound.
Context (host : string) (target_ip : string) (target_port : Z) (quotas : list (string * Z)).
Context (pat : string) (limit used0 : Z).
Hypothesis pat_quota : (pat, limit) ∈ quotas.
Hypothesis limit_small : limit < 2 ^ 62.
Hypothesis used0_pos : 0 ≤ used0.

Definition left : Z := limit - used0.

(** The thread adds nothing more to its counter before it stops. *)
Definition committed (total : Z) (killed : bool) (p : Pc) : bool :=
  match p with
  | SniReading _ | SniWriting _ | SniCounting _ | Reading => false
  | Check | Writing _ => killed
  | Added _ _ => killed || (left <? total)
  | Quotas _ transfer pending => killed || (bool_decide ((pat, limit) ∈ pending) && (left <? transfer))
  | _ => true
  end.

Definition stop_of (s : Side) (t : Tunnel) : Z := Z.b2z (committed (counted t) (quota_killed t) (pc (half s t))).

Definition sni_max : Z := if target_port =? 443 then SNI_MAX else 0.
Definition allowance (t : Tunnel) : Z := Z.max 0 left + (if in_sni (pc (up t)) then 0 else sni_max).

Definition point_ok (t : Tunnel) (s : Side) : Prop :=
  let h := half s t in
  match pc h with
  | SniReading buf => s = Up ∧ target_port = 443 ∧ Z.of_nat (length buf) ≤ 8192 ∧ wrote h = []
  | SniWriting buf => s = Up ∧ target_port = 443 ∧ Z.of_nat (length buf) ≤ SNI_MAX ∧ wrote h = []
  | SniCounting buf => s = Up ∧ target_port = 443 ∧ Z.of_nat (length buf) ≤ SNI_MAX ∧ wrote h = buf
  | Gone => s = Up ∧ target_port = 443 ∧ Z.of_nat (length (wrote h)) ≤ SNI_MAX
  | Added buf mine => mine = count h
  | Quotas buf transfer _ => 0 ≤ transfer ≤ counted t
  | Joining | Recording => s = Up
  | _ => True
  end.

Definition sent_ok (h : Half) : Prop :=
  in_sni (pc h) = false → Z.of_nat (length (wrote h)) + Z.of_nat (length (inflight (pc h))) ≤ count h.

Definition shared_ok (t : Tunnel) : Prop :=
  stats_ok (shared t) ∧ used0 ≤ used (shared t) pat
  ∧ used (shared t) "*" < 2 ^ 62 + (match pc (up t) with Ended => 2 ^ 62 + 2 ^ 20 | _ => 0 end).

Record Inv (t : Tunnel) : Prop := mk_inv {
  inv_point s : point_ok t s;
  inv_count s : 0 ≤ count (half s t);
  inv_sent s : sent_ok (half s t);
  inv_shared : shared_ok t;
  inv_sni : in_sni (pc (up t)) = true → count (up t) = 0;
  inv_bound : counted t ≤ allowance t + CHUNK * (stop_of Up t + stop_of Down t);
}.

Lemma committed_mono total total' killed killed' p :
  total ≤ total' → (killed = true → killed' = true) →
  committed total killed p = true → committed total' killed' p = true.
Proof.
  intros Ht Hk. destruct p; cbn [committed]; auto; destruct killed, killed'; cbn [orb]; auto; try (by specialize (Hk eq_refl)).
  rewrite !Z.ltb_lt. lia.
Qed.

Lemma counted_split s t : counted t = count (half s t) + count (half (other s) t).
Proof. unfold counted. destruct s; cbn; lia. Qed.

Lemma stop_split s t : stop_of Up t + stop_of Down t = stop_of s t + stop_of (other s) t.
Proof. destruct s; cbn [other]; lia. Qed.

Lemma counted_small t : Inv t → counted t < 2 ^ 62 + 2 ^ 20.
Proof.
  intros H. pose proof (inv_bound t H) as Hb. revert Hb. unfold allowance, sni_max, left, stop_of, SNI_MAX, CHUNK.
  pose proof (b2z_range (committed (counted t) (quota_killed t) (pc (half Up t)))).
  pose proof (b2z_range (committed (counted t) (quota_killed t) (pc (half Down t)))).
  destruct (in_sni _); [|destruct (target_port =? 443)]; lia.
Qed.

(** A step that adds nothing to a counter keeps the bound. *)
Lemma bound_keep t t' s :
  Inv t → half (other s) t' = half (other s) t → count (half s t') = count (half s t) →
  (quota_killed t = true → quota_killed t' = true) → in_sni (pc (half s t)) = false → in_sni (pc (half s t')) = false →
  (committed (counted t) (quota_killed t) (pc (half s t)) = true →
   committed (counted t) (quota_killed t') (pc (half s t')) = true) →
  counted t' = counted t ∧ counted t' ≤ allowance t' + CHUNK * (stop_of Up t' + stop_of Down t').
Proof.
  intros H Ho Hc Hk Hs Hs' Hm. assert (counted t' = counted t) as Ec by (rewrite !(counted_split s), Ho; lia).
  split; [done|]. rewrite Ec. pose proof (inv_bound t H) as Hb.
  assert (allowance t' = allowance t) as ->.
  { unfold allowance. destruct s; cbn [half other] in *; [by rewrite Hs, Hs'|by rewrite Ho]. }
  rewrite (stop_split s) in Hb |- *.
  assert (stop_of s t ≤ stop_of s t') by (unfold stop_of; rewrite Ec; by apply b2z_mono).
  assert (stop_of (other s) t ≤ stop_of (other s) t').
  { unfold stop_of. rewrite Ec, Ho. apply b2z_mono. by apply committed_mono. }
  unfold CHUNK in *. lia.
Qed.

Lemma loop_point s t h k : LoopStep (quotas := quotas) t s h k → in_sni (pc (half s t)) = false ∧ in_sni (pc h) = false.
Proof. intros H. destruct H as [E _|E _|? ? E _ _|E|? ? E|? ? E|? ? ? ? ? E _|? ? ? ? ? E _|? E|? ? E]; by rewrite E. Qed.

Lemma used_total t : Inv t →
  get_quota_bytes (shared t) pat = used (shared t) pat ∧ used0 ≤ used (shared t) pat < 2 ^ 62 + 2 ^ 62 + 2 ^ 20.
Proof.
  intros H. destruct (inv_shared t H) as (Hok & H0 & Hs).
  pose proof (used_bounds (shared t) pat Hok). rewrite get_quota_used by done. unfold u64_max.
  destruct (pc (up t)); lia.
Qed.

(** The loop keeps the bound: only a read counts, and one that passes the budget
    commits its thread to stop. *)
Lemma loop_bound s t t' :
  Inv t → half (other s) t' = half (other s) t → LoopStep (quotas := quotas) t s (half s t') (quota_killed t') →
  counted t' ≤ allowance t' + CHUNK * (stop_of Up t' + stop_of Down t').
Proof.
  intros H Ho Hl. pose proof (loop_point _ _ _ _ Hl) as [Hs Hs'].
  assert (count (half s t') = count (half s t) → (quota_killed t = true → quota_killed t' = true) →
    (committed (counted t) (quota_killed t) (pc (half s t)) = true →
     committed (counted t) (quota_killed t') (pc (half s t')) = true) →
    counted t' ≤ allowance t' + CHUNK * (stop_of Up t' + stop_of Down t')) as Hkeep.
  { intros. by apply (bound_keep t t' s). }
  pose proof (counted_small t H) as Hsmall. pose proof (inv_count t H s). pose proof (inv_count t H (other s)).
  pose proof (inv_point t H s) as Hpt. unfold point_ok in Hpt. pose proof (counted_split s t) as Hc.
  inversion Hl as [E K Eh Ek|E K Eh Ek|buf rest E Es Hb Eh Ek|E Eh Ek|buf mine E Eh Ek|buf tr E Eh Ek|
    buf tr q l pending E Hx Eh Ek|buf tr q l pending E Hx Eh Ek|buf E Eh Ek|buf n E Eh Ek]; rewrite <-Eh in *; try rewrite <-Ek in *.
  all: try (apply Hkeep; [done|congruence|rewrite E; cbn [pc with_pc committed]; congruence]).
  - (* read *)
    assert (length buf ≤ BUF)%nat as HB by lia. unfold BUF in HB.
    assert (counted t' = counted t + Z.of_nat (length buf)) as Ec.
    { rewrite !(counted_split s), Ho, <-Eh. cbn [count]. rewrite wrap_small; lia. }
    pose proof (inv_bound t H) as Hbd. rewrite (stop_split s) in Hbd |- *.
    assert (allowance t' = allowance t) as ->.
    { unfold allowance. destruct s; cbn [half other] in *; [by rewrite <-Eh, E|by rewrite Ho]. }
    assert (stop_of s t = 0) as Es0 by (unfold stop_of; by rewrite E).
    assert (stop_of (other s) t ≤ stop_of (other s) t').
    { unfold stop_of. rewrite Ho, <-Ek. apply b2z_mono. apply committed_mono; [lia|done]. }
    destruct (Z.ltb_spec left (counted t')).
    + assert (stop_of s t' = 1) as ->.
      { unfold stop_of. rewrite <-Eh. cbn [pc committed]. rewrite (proj2 (Z.ltb_lt _ _)) by done. by rewrite orb_true_r. }
      unfold CHUNK in *. lia.
    + assert (0 ≤ stop_of s t' ∧ 0 ≤ stop_of (other s) t') by (unfold stop_of; split; apply b2z_range).
      unfold allowance, sni_max, SNI_MAX, CHUNK. destruct (in_sni (pc (up t))); [|destruct (target_port =? 443)]; lia.
  - (* load *)
    apply Hkeep; [done|congruence|]. rewrite E in Hpt |- *. subst mine. cbn [pc with_pc committed].
    rewrite <-Hc, wrap_small by lia. rewrite (bool_decide_true ((pat, limit) ∈ quotas)) by done. done.
  - (* no quota left *)
    apply Hkeep; [done|congruence|]. rewrite E. cbn [pc with_pc committed].
    rewrite (bool_decide_false ((pat, limit) ∈ [])) by (by intros ?%not_elem_of_nil). cbn [andb]. by rewrite orb_false_r.
  - (* within this quota *)
    apply Hkeep; [done|congruence|]. rewrite E in Hpt |- *. cbn [pc with_pc committed].
    destruct (quota_killed t); [done|]. cbn [orb].
    destruct (Z.ltb_spec left tr); [|by rewrite andb_false_r]. rewrite !andb_true_r, !bool_decide_eq_true.
    intros [Eq|Hin]%elem_of_cons; [|done]. injection Eq as <- <-. exfalso.
    destruct (used_total t H) as [Eu Hu]. rewrite Eu in Hx. unfold left in *.
    rewrite wrap_small in Hx; lia.
Qed.

Lemma side_cases (s s' : Side) : s' = s ∨ s' = other s.
Proof. destruct s, s'; cbn; auto. Qed.

(** What another thread's or tunnel's step leaves of a half's facts. *)
Lemma point_other t t' s :
  half s t' = half s t → counted t ≤ counted t' → point_ok t s → point_ok t' s.
Proof. intros Eh Hc. unfold point_ok. rewrite Eh. destruct (pc (half s t)); auto. lia. Qed.

Lemma loop_local s t h k :
  Inv t → LoopStep (quotas := quotas) t s h k → count (half s t) ≤ count h ∧ sent_ok h.
Proof.
  intros H Hl. pose proof (inv_sent t H s) as Hsent. unfold sent_ok in *. pose proof (counted_small t H).
  pose proof (inv_count t H s). pose proof (inv_count t H (other s)). pose proof (counted_split s t) as Hc.
  destruct Hl as [E _|E _|buf rest E _ Hb|E|buf mine E|buf tr E|buf tr q l pending E _|buf tr q l pending E _|buf E|buf n E];
    rewrite E in Hsent; specialize (Hsent eq_refl); cbn [with_pc pc count wrote inflight] in *; rewrite ?length_app; cbn [length] in *.
  all: try (split; [lia|intros _; lia]).
  - unfold BUF in Hb. cbn zeta. rewrite wrap_small by lia. cbn [pc count wrote inflight]. split; [lia|intros _; lia].
  - rewrite length_take. split; [lia|intros _; lia].
Qed.

Lemma loop_point_ok s t t' :
  Inv t → half (other s) t' = half (other s) t → LoopStep (quotas := quotas) t s (half s t') (quota_killed t') →
  counted t ≤ counted t' → point_ok t' s.
Proof.
  intros H Ho Hl Hc. pose proof (inv_point t H s) as Hp. unfold point_ok in *. pose proof (counted_small t H).
  pose proof (inv_count t H s). pose proof (inv_count t H (other s)). pose proof (counted_split s t) as Hsplit.
  inversion Hl as [E K Eh Ek|E K Eh Ek|buf rest E Es Hb Eh Ek|E Eh Ek|buf mine E Eh Ek|buf tr E Eh Ek|
    buf tr q l pending E Hx Eh Ek|buf tr q l pending E Hx Eh Ek|buf E Eh Ek|buf n E Eh Ek]; rewrite E in Hp; cbn [with_pc pc count]; try done.
  - subst mine. rewrite wrap_small; lia.
  - lia.
Qed.

Lemma loop_inv s io t t' : Inv t → loop_step quotas s io t = Some t' → Inv t'.
Proof.
  intros H (Ho & Hsh & Hl)%loop_step_cases. destruct (loop_local _ _ _ _ H Hl) as [Hc Hsent].
  destruct (loop_point _ _ _ _ Hl) as [Hs Hs'].
  assert (counted t ≤ counted t') as Hcc by (rewrite !(counted_split s), Ho; lia).
  split.
  - intros s'. destruct (side_cases s s') as [-> | ->]; [by apply (loop_point_ok s t t')|].
    by apply (point_other t), inv_point.
  - intros s'. destruct (side_cases s s') as [-> | ->]; [pose proof (inv_count t H s); lia|].
    rewrite Ho. by apply inv_count.
  - intros s'. destruct (side_cases s s') as [-> | ->]; [done|]. rewrite Ho. by apply inv_sent.
  - destruct (inv_shared t H) as (Hok & H0 & H1). unfold shared_ok, used, stats_ok in *. rewrite Hsh.
    split; [done|]. split; [done|]. destruct s; cbn [half other] in *; [|by rewrite Ho].
    clear -Hl H1. inversion Hl as [E K Eh Ek|E K Eh Ek|buf rest E Es Hb Eh Ek|E Eh Ek|buf mine E Eh Ek|buf tr E Eh Ek|
      buf tr q l pending E Hx Eh Ek|buf tr q l pending E Hx Eh Ek|buf E Eh Ek|buf n E Eh Ek];
      cbn [half] in E; rewrite E in H1; exact H1.
  - destruct s; cbn [half other] in *; [by rewrite Hs'|]. rewrite Ho. by apply inv_sni.
  - by apply (loop_bound s t).
Qed.

(** Steps of the first phase that count nothing. *)
Lemma sni_keep t t' :
  Inv t → in_sni (pc (up t)) = true → pc (up t) ≠ Gone → in_sni (pc (up t')) = true → count (up t') = count (up t) →
  pc (down t') = pc (down t) → count (down t') = count (down t) → wrote (down t') = wrote (down t) →
  quota_killed t' = quota_killed t → transfer (shared t') = transfer (shared t) → point_ok t' Up → Inv t'.
Proof.
  intros H Hs Hg Hs' Eu Ep Ed Ew Ek Esh Hpt. assert (counted t' = counted t) as Ec by (unfold counted; lia).
  split.
  - intros []; [done|]. pose proof (inv_point t H Down) as Hp. unfold point_ok in *. cbn [half] in *.
    rewrite Ep, Ed, Ew, Ec. done.
  - intros []; cbn [half]; [rewrite Eu|rewrite Ed]; [apply (inv_count t H Up)|apply (inv_count t H Down)].
  - intros []; cbn [half]; [intros E; congruence|]. pose proof (inv_sent t H Down) as Hd. unfold sent_ok in *. cbn [half] in Hd.
    by rewrite Ep, Ed, Ew.
  - destruct (inv_shared t H) as (Hok & H0 & H1). unfold shared_ok, used, stats_ok in *. rewrite Esh.
    destruct (pc (up t)); try discriminate Hs; destruct (pc (up t')); try discriminate Hs'; done.
  - intros _. rewrite Eu. by apply inv_sni.
  - pose proof (inv_bound t H) as Hb. unfold allowance, stop_of in *. rewrite Hs', Ec, Ek. rewrite Hs in Hb. cbn [half] in *.
    rewrite Ep. assert (committed (counted t) (quota_killed t) (pc (up t)) = false) as Ef by (by destruct (pc (up t))).
    rewrite Ef in Hb. pose proof (b2z_range (committed (counted t) (quota_killed t) (pc (up t')))).
    unfold CHUNK in *. cbn [Z.b2z] in Hb. lia.
Qed.

Lemma point_gone t : target_port = 443 → pc (up t) = Gone → Z.of_nat (length (wrote (up t))) ≤ SNI_MAX → point_ok t Up.
Proof. intros H E Hw. unfold point_ok. cbn [half]. by rewrite E. Qed.

Lemma sni_read_inv n t t' buf : Inv t → pc (up t) = SniReading buf → sni_step host (Got n) t = Some t' → Inv t'.
Proof.
  intros H E. pose proof (inv_point t H Up) as Hpt. unfold point_ok in Hpt. cbn [half] in Hpt. rewrite E in Hpt.
  destruct Hpt as (_ & Hport & Hlen & Hw). unfold sni_step. rewrite E.
  destruct (read_bytes SNI_CHUNK n _) as [[chunk rest]|] eqn:Er; [|done]. cbn [mbind option_bind].
  apply read_bytes_spec in Er as [_ [_ Hchunk]]. unfold SNI_CHUNK in Hchunk. intros Ht. apply (inj Some) in Ht. subst t'.
  assert (Z.of_nat (length (buf ++ chunk)) ≤ SNI_MAX) as Hnew by (rewrite length_app; unfold SNI_MAX; lia).
  assert (0 ≤ SNI_MAX) by (unfold SNI_MAX; lia).
  assert (∀ t', pc (up t') = Gone → wrote (up t') = wrote (up t) → count (up t') = count (up t) →
    pc (down t') = pc (down t) → count (down t') = count (down t) → wrote (down t') = wrote (down t) →
    quota_killed t' = quota_killed t → transfer (shared t') = transfer (shared t) → Inv t') as Hgone.
  { intros t' Ep Eu Ec E1 E2 E3 E4 E5. apply (sni_keep t t'); try done; try by rewrite ?E, ?Ep.
    apply point_gone; [done..|]. by rewrite Eu, Hw. }
  destruct (extract_sni (buf ++ chunk)) as [[| |name]|]; [by apply Hgone| | |by apply Hgone].
  - destruct (Z.ltb_spec 8192 (Z.of_nat (length (buf ++ chunk)))); [by apply Hgone|].
    apply (sni_keep t); try done; try by rewrite E.
  - destruct (validate_sni_host host (sni_text name)); [|by apply Hgone].
    apply (sni_keep t); try done; try by rewrite E.
Qed.

Lemma sni_count_inv t t' buf io : Inv t → pc (up t) = SniCounting buf → sni_step host io t = Some t' → Inv t'.
Proof.
  intros H E. pose proof (inv_point t H Up) as Hpt. unfold point_ok in Hpt. cbn [half] in Hpt. rewrite E in Hpt.
  destruct Hpt as (_ & Hport & Hlen & Hw). pose proof (inv_sni t H) as H0. rewrite E in H0. specialize (H0 eq_refl).
  unfold SNI_MAX in Hlen. unfold sni_step. rewrite E, H0. cbn [set_half Z.add]. intros Ht.
  assert (t' = mk_tunnel (mk_half Check (Z.of_nat (length buf)) (source (up t)) (wrote (up t))) (down t) (quota_killed t) (shared t)) as ->.
  { destruct io; injection Ht as <-; by rewrite wrap_small by lia. }
  assert (counted t = count (down t)) as Ec by (unfold counted; lia).
  split.
  - intros []; [by unfold point_ok|]. apply (point_other t); [done|unfold counted; cbn; lia|by apply inv_point].
  - intros []; cbn; [lia|apply (inv_count t H Down)].
  - intros []; cbn [half up down]; [|apply (inv_sent t H Down)]. intros _. cbn. rewrite Hw. lia.
  - destruct (inv_shared t H) as (Hok & Hu & Hs). rewrite E in Hs. by split.
  - done.
  - pose proof (inv_bound t H) as Hb. unfold allowance, stop_of, counted in *. cbn [half up down pc in_sni quota_killed count] in *.
    rewrite E in Hb. cbn [in_sni committed Z.b2z] in Hb. rewrite H0 in Hb. unfold sni_max. rewrite Hport. cbn [Z.eqb Pos.eqb].
    assert (Z.b2z (committed (0 + count (down t)) (quota_killed t) (pc (down t)))
            ≤ Z.b2z (committed (Z.of_nat (length buf) + count (down t)) (quota_killed t) (pc (down t)))).
    { apply b2z_mono, committed_mono; [lia|done]. }
    pose proof (b2z_range (committed (Z.of_nat (length buf) + count (down t)) (quota_killed t) Check)).
    unfold CHUNK, SNI_MAX in *. lia.
Qed.

Lemma sni_inv io t t' : Inv t → sni_step host io t = Some t' → Inv t'.
Proof.
  intros H Hst. destruct (pc (up t)) as [buf|buf|buf| | | | | | | | | |] eqn:E;
    try (unfold sni_step in Hst; rewrite E in Hst; destruct io; discriminate Hst).
  - destruct io as [n| | |]; try (unfold sni_step in Hst; rewrite E in Hst; discriminate Hst).
    + by apply (sni_read_inv n t t' buf).
    + unfold sni_step in Hst. rewrite E in Hst. injection Hst as <-.
      pose proof (inv_point t H Up) as Hpt. unfold point_ok in Hpt. cbn [half] in Hpt. rewrite E in Hpt.
      destruct Hpt as (_ & Hport & _ & Hw).
      apply (sni_keep t); try done; try by rewrite E. apply point_gone; [done..|]. cbn. rewrite Hw. by cbn.
  - pose proof (inv_point t H Up) as Hpt. unfold point_ok in Hpt. cbn [half] in Hpt. rewrite E in Hpt.
    destruct Hpt as (_ & Hport & Hlen & Hw). unfold sni_step in Hst. rewrite E in Hst.
    destruct io as [| | |n]; try discriminate Hst; injection Hst as <-;
      (apply (sni_keep t); try done; try by rewrite E).
    + unfold point_ok. cbn. by rewrite Hw.
    + apply point_gone; [done..|]. cbn. rewrite Hw. cbn [app]. rewrite length_take. lia.
  - by apply (sni_count_inv t t' buf io).
Qed.

(** Steps between the points behind the loop. *)
Lemma leave_keep t t' s p :
  Inv t → half (other s) t' = half (other s) t → half s t' = with_pc p (half s t) → quota_killed t' = quota_killed t →
  (pc (half s t) = Leaving ∨ pc (half s t) = Joining ∨ pc (half s t) = Recording) →
  (p = Ended ∨ s = Up ∧ (p = Joining ∨ p = Recording)) → shared_ok t' → Inv t'.
Proof.
  intros H Ho Eh Ek Hp Hp' Hsh. assert (counted t' = counted t) as Ec by (rewrite !(counted_split s), Ho, Eh; done).
  assert (in_sni (pc (half s t)) = false ∧ inflight (pc (half s t)) = []) as [Hs Hi] by (destruct Hp as [-> | [-> | ->]]; done).
  assert (in_sni p = false ∧ inflight p = []) as [Hs' Hi'] by (destruct Hp' as [-> | [_ [-> | ->]]]; done).
  split.
  - intros s'. destruct (side_cases s s') as [-> | ->].
    + unfold point_ok. rewrite Eh. cbn [with_pc pc]. destruct Hp' as [-> | [-> [-> | ->]]]; done.
    + apply (point_other t); [done|lia|by apply inv_point].
  - intros s'. destruct (side_cases s s') as [-> | ->]; [rewrite Eh|rewrite Ho]; by apply (inv_count t H).
  - intros s'. destruct (side_cases s s') as [-> | ->]; [|rewrite Ho; by apply inv_sent].
    rewrite Eh. unfold sent_ok. cbn [with_pc pc count wrote]. intros _. pose proof (inv_sent t H s) as Hx. unfold sent_ok in Hx.
    rewrite Hs, Hi in Hx. rewrite Hi'. by apply Hx.
  - done.
  - destruct s; cbn [half other] in *; [by rewrite Eh; cbn [with_pc pc]; rewrite Hs'|]. rewrite Ho. by apply inv_sni.
  - apply (bound_keep t t' s); try done; [by rewrite Eh|congruence|by rewrite Eh|].
    intros _. rewrite Eh. cbn [with_pc pc]. destruct Hp' as [-> | [-> [-> | ->]]]; done.
Qed.

Lemma shared_same t t' :
  Inv t → transfer (shared t') = transfer (shared t) → pc (up t) ≠ Ended → shared_ok t'.
Proof.
  intros H E Hp. destruct (inv_shared t H) as (Hok & H0 & H1). unfold shared_ok, used, stats_ok in *. rewrite E.
  split; [done|]. split; [done|]. destruct (pc (up t)); try done; destruct (pc (up t')); lia.
Qed.

Lemma leave_inv s t t' : Inv t → leave_step host target_ip target_port s t = Some t' → Inv t'.
Proof.
  intros H. unfold leave_step. destruct (pc (half s t)) eqn:E; try done.
  - destruct s; intros [= <-].
    + eapply (leave_keep t _ Up Joining); try done; try tauto. apply (shared_same t); [done|done|cbn in E; congruence].
    + eapply (leave_keep t _ Down Ended); try done; try tauto.
      pose proof (inv_shared t H) as (Hok & H0 & H1). by split.
  - destruct s; [|done]. destruct (pc (down t)) eqn:Ed; try done. intros [= <-].
    eapply (leave_keep t _ Up Recording); try done; try tauto. apply (shared_same t); [done|done|cbn in E; congruence].
  - destruct s; [|done]. intros [= <-]. eapply (leave_keep t _ Up Ended); try done; try tauto.
    destruct (inv_shared t H) as (Hok & H0 & H1). cbn [half] in E. rewrite E in H1. pose proof (counted_small t H) as Hc.
    pose proof (inv_count t H Up) as Hu. pose proof (inv_count t H Down) as Hd. cbn [half] in Hu, Hd. unfold counted in Hc.
    destruct (record_exact (shared t) host (count (up t)) (count (down t)) Hok Hu Hd) as [Hok' Hx]; [lia|].
    unfold shared_ok, goto, report. cbn [half set_half shared up down quota_killed pc publish].
    split; [exact Hok'|]. unfold used, stats_ok in *. cbn [transfer publish]. rewrite !Hx. split.
    + destruct (domain_matches_pattern _ _); lia.
    + change (domain_matches_pattern (record_key host) "*") with true. cbn. lia.
Qed.

Lemma others_inv h tx rx t t' : Inv t → others_step h tx rx t = Some t' → Inv t'.
Proof.
  intros H. unfold others_step. destruct (_ && _) eqn:Eg; [|done]. intros [= <-]. to_prop.
  destruct (inv_shared t H) as (Hok & Hu0 & Hs0). pose proof (used_bounds (shared t) "*" Hok).
  assert (get_quota_bytes (shared t) "*" = used (shared t) "*") as Eq.
  { rewrite get_quota_used by done. unfold u64_max. destruct (pc (up t)); lia. }
  destruct (record_exact (shared t) h tx rx Hok) as [Hok' Hx]; [lia..|].
  split; try apply H. unfold shared_ok. cbn [up shared]. split; [done|]. rewrite !Hx. split.
  - destruct (domain_matches_pattern _ _); lia.
  - change (domain_matches_pattern (record_key h) "*") with true. cbn iota. destruct (pc (up t)); lia.
Qed.

Lemma step_inv a t t' : Inv t → tunnel_step host target_ip target_port quotas a t = Some t' → Inv t'.
Proof.
  intros H. destruct a as [s io|h tx rx]; cbn [tunnel_step]; [|by apply others_inv].
  unfold thread_step. destruct (pc (half s t)); try done; try (by apply loop_inv); try (by apply leave_inv).
  all: destruct s; [by apply sni_inv|done].
Qed.

Lemma run_inv schedule t t' : Inv t → run host target_ip target_port quotas schedule t = Some t' → Inv t'.
Proof.
  revert t. induction schedule as [|a schedule IH]; intros t H; cbn [run]; [by intros [= <-]|].
  destruct (tunnel_step _ _ _ _ a t) as [t1|] eqn:E; [|done]. cbn [mbind option_bind]. apply IH. by apply (step_inv a t).
Qed.

Lemma start_inv client server rev st :
  stats_ok st → used0 ≤ used st pat → used st "*" < 2 ^ 62 →
  Inv (forward_data_tunnel target_port client server rev st).
Proof.
  intros Hok H0 H1. unfold forward_data_tunnel. destruct (Z.eqb_spec target_port 443) as [Hp|Hp].
  - split; cbn; try done.
    + intros []; unfold point_ok; cbn; [done|by destruct rev].
    + by intros [].
    + intros []; unfold sent_ok; cbn; [done|]. by destruct rev; cbn.
    + unfold counted, allowance. cbn. unfold stop_of.
      pose proof (b2z_range (committed (counted (mk_tunnel (mk_half (SniReading []) 0 client []) (mk_half (if rev then Check else Ended) 0 server []) false st)) false (if rev then Check else Ended))).
      unfold CHUNK. cbn. lia.
  - split; cbn; try done.
    + intros []; unfold point_ok; cbn; [done|by destruct rev].
    + by intros [].
    + intros []; unfold sent_ok; cbn; [done|]. by destruct rev; cbn.
    + unfold counted, allowance, sni_max. cbn. unfold stop_of, SNI_MAX. rewrite (proj2 (Z.eqb_neq _ _) Hp).
      pose proof (b2z_range (committed (counted (mk_tunnel (mk_half Check 0 client []) (mk_half (if rev then Check else Ended) 0 server []) false st)) false (if rev then Check else Ended))).
      unfold CHUNK. cbn. lia.
Qed.

Lemma sent_bound t : Inv t →
  Z.of_nat (length (wrote (up t))) + Z.of_nat (length (wrote (down t))) ≤ Z.max 0 left + sni_max + 2 * CHUNK.
Proof.
  intros H. pose proof (inv_sent t H Up) as Hu. pose proof (inv_sent t H Down) as Hd. unfold sent_ok in *. cbn [half] in *.
  pose proof (inv_bound t H) as Hb. unfold stop_of, allowance, counted in Hb.
  pose proof (b2z_range (committed (count (up t) + count (down t)) (quota_killed t) (pc (half Up t)))).
  pose proof (b2z_range (committed (count (up t) + count (down t)) (quota_killed t) (pc (half Down t)))).
  pose proof (inv_point t H Down) as Hpd. pose proof (inv_point t H Up) as Hpu. pose proof (inv_sni t H) as Hzero.
  assert (in_sni (pc (down t)) = false) as Ed.
  { unfold point_ok in Hpd. cbn [half] in Hpd. destruct (pc (down t)); try done; by destruct Hpd. }
  specialize (Hd Ed). destruct (in_sni (pc (up t))) eqn:Eu.
  - specialize (Hzero eq_refl). unfold point_ok in Hpu. cbn [half] in Hpu.
    assert (target_port = 443 ∧ Z.of_nat (length (wrote (up t))) ≤ SNI_MAX) as [Hport Hw].
    { destruct (pc (up t)); try discriminate Eu; destruct Hpu as (_ & Hport & Hl); (split; [done|]).
      - destruct Hl as [_ ->]. by cbn.
      - destruct Hl as [_ ->]. by cbn.
      - destruct Hl as [Hl ->]. done.
      - done. }
    unfold sni_max. rewrite Hport. cbn [Z.eqb Pos.eqb]. unfold CHUNK in *. lia.
  - specialize (Hu eq_refl). unfold CHUNK in *. lia.
Qed.
End Bound.

(** C21: A quota bounds each tunnel: however the two threads and the other tunnels
    interleave, however reads and writes cut the streams, the bytes a tunnel moves
    in both directions stay within what was left of every matching quota when it
    was opened, plus the one chunk that each thread may have in hand (and on port
    443 the hello, which is counted but not tested). *)
Theorem tunnel_within_quota host ip port quotas pat limit client server rev st schedule t :
  (pat, limit) ∈ quotas → limit < 2 ^ 62 → stats_ok st → get_quota_bytes st "*" < 2 ^ 62 →
  run host ip port quotas schedule (forward_data_tunnel port client server rev st) = Some t →
  Z.of_nat (length (wrote (up t))) + Z.of_nat (length (wrote (down t)))
  ≤ Z.max 0 (limit - get_quota_bytes st pat) + (if port =? 443 then SNI_MAX else 0) + 2 * CHUNK.
Proof.
  intros Hq Hl Hok Hs Hrun. pose proof (used_bounds st pat Hok) as Hu.
  rewrite get_quota_used in Hs |- * by done. unfold u64_max in *. rewrite Z.min_r by lia.
  assert (0 ≤ used st pat) as H0 by lia.
  assert (Inv port pat limit (used st pat) (forward_data_tunnel port client server rev st)) as Hi.
  { apply start_inv; try done; lia. }
  pose proof (run_inv host ip port quotas pat limit (used st pat) Hq Hl H0 schedule _ _ Hi Hrun) as Ht.
  by apply (sent_bound port pat limit (used st pat)).
Qed.

(** ** What the peers see *)

Definition stopped (p : Pc) : bool :=
  match p with Leaving | Joining | Recording | Ended | Gone => true | _ => false end.

Section Flow.
Context (host : string) (target_ip : string) (target_port : Z) (quotas : list (string * Z)).
Context (client server : list Z).

Definition sends (s : Side) : list Z := match s with Up => client | Down => server end.

(** Nothing is lost, changed or reordered: what was written and what is in hand is a
    beginning of what the peer sent; a thread that can still read goes on there. *)
Definition flow_ok (s : Side) (h : Half) : Prop :=
  ∃ rest, sends s = wrote h ++ inflight (pc h) ++ rest ∧ (source h = rest ∨ source h = [] ∨ stopped (pc h) = true).

(** A hello for the right host is the beginning of what the client sent. *)
Definition approved : Prop :=
  ∃ hello rest name, client = hello ++ rest ∧ extract_sni hello = Done (SniName name)
    ∧ validate_sni_host host (sni_text name) = true.

Definition guard_ok (t : Tunnel) : Prop :=
  match pc (up t) with
  | SniReading _ => wrote (up t) = []
  | SniWriting buf => wrote (up t) = [] ∧ approved
  | Gone => wrote (up t) = [] ∨ approved
  | _ => target_port = 443 → approved
  end.

Record Flow (t : Tunnel) : Prop := mk_flow { flow s : flow_ok s (half s t); guard : guard_ok t }.

Lemma loop_flow s t h k :
  Flow t → LoopStep (quotas := quotas) t s h k → flow_ok s h ∧ ((target_port = 443 → approved) → s = Up → guard_ok (set_half Up h t)).
Proof.
  intros H Hl. pose proof (flow t H s) as (rest & E0 & Hr).
  destruct Hl as [E _|E _|buf r E Es Hb|E|buf mine E|buf tr E|buf tr q l pending E _|buf tr q l pending E _|buf E|buf n E];
    rewrite E in E0, Hr; cbn [inflight stopped app] in E0, Hr;
    (split; [|intros Ha _; unfold guard_ok; cbn; exact Ha]); unfold flow_ok; cbn [with_pc pc wrote source inflight app].
  all: try (exists rest; split; [done|]; destruct Hr as [?|[?|?]]; auto; done).
  - exists r. split; [|by left]. destruct Hr as [Hr|[Hr|Hr]]; [by rewrite E0, <-Hr, Es| |done].
    rewrite Hr in Es. destruct buf; [cbn in Hb; lia|done].
  - exists rest. split; [by rewrite E0, <-(assoc_L (++))|]. destruct Hr as [?|[?|?]]; auto; done.
  - exists (drop n buf ++ rest). split; [|by right; right].
    by rewrite E0, <-(assoc_L (++)), (assoc_L (++) (take n buf)), take_drop.
Qed.

Lemma loop_flow_inv s io t t' : Flow t → loop_step quotas s io t = Some t' → Flow t'.
Proof.
  intros H (Ho & _ & Hl)%loop_step_cases. destruct (loop_flow _ _ _ _ H Hl) as [Hf Hg].
  pose proof (guard t H) as Hg0. pose proof (loop_point quotas _ _ _ _ Hl) as [Hp _]. split.
  - intros s'. destruct (side_cases s s') as [-> | ->]; [done|]. rewrite Ho. apply H.
  - destruct s; cbn [half other] in *.
    + assert (target_port = 443 → approved) as Ha by (unfold guard_ok in Hg0; by destruct (pc (up t))).
      specialize (Hg Ha eq_refl). unfold guard_ok in *. cbn in Hg. done.
    + unfold guard_ok in *. by rewrite Ho.
Qed.

Lemma gone_flow t t' :
  Flow t → pc (up t') = Gone → wrote (up t') = [] → pc (down t') = pc (down t) → wrote (down t') = wrote (down t) →
  source (down t') = [] ∨ source (down t') = source (down t) → Flow t'.
Proof.
  intros H E Hw Ep Ew Es. split; [|unfold guard_ok; rewrite E; by left]. intros []; unfold flow_ok; cbn [half sends].
  - exists client. rewrite E, Hw. split; [done|by right; right].
  - destruct (flow t H Down) as (rest & E0 & Hr). exists rest. cbn [half sends] in E0, Hr. rewrite Ep, Ew. split; [done|].
    destruct Es as [Es|Es]; [by right; left|by rewrite Es].
Qed.

(** A step of the sending thread alone. *)
Lemma up_flow t t' rest :
  Flow t → down t' = down t → client = wrote (up t') ++ inflight (pc (up t')) ++ rest →
  source (up t') = rest ∨ source (up t') = [] ∨ stopped (pc (up t')) = true → guard_ok t' → Flow t'.
Proof.
  intros H Hd E Hr Hg. split; [|done]. intros []; [by exists rest|]. cbn [half]. rewrite Hd. apply (flow t H Down).
Qed.

Lemma sni_read_flow n t t' buf : Flow t → pc (up t) = SniReading buf → sni_step host (Got n) t = Some t' → Flow t'.
Proof.
  intros H E. pose proof (guard t H) as Hg. unfold guard_ok in Hg. rewrite E in Hg.
  destruct (flow t H Up) as (rest & E0 & Hr). cbn [half sends] in E0, Hr. rewrite E, Hg in E0. rewrite E in Hr.
  cbn [inflight stopped app] in E0, Hr. unfold sni_step. rewrite E.
  destruct (read_bytes SNI_CHUNK n _) as [[chunk r]|] eqn:Er; [|done]. cbn [mbind option_bind].
  apply read_bytes_spec in Er as [Es Hc]. intros Ht. apply (inj Some) in Ht. subst t'.
  assert (client = (buf ++ chunk) ++ r) as Ecl.
  { destruct Hr as [Hr|[Hr|Hr]]; [|rewrite Hr in Es; destruct chunk; [cbn in Hc; lia|done]|done].
    by rewrite E0, <-Hr, Es, (assoc_L (++)). }
  destruct (extract_sni (buf ++ chunk)) as [[| |name]|] eqn:Ex.
  - eapply (gone_flow t); try done. by left.
  - destruct (8192 <? _); [eapply (gone_flow t); try done; by left|].
    apply (up_flow t _ r); try done; cbn; [by rewrite Hg|by left].
  - destruct (validate_sni_host host (sni_text name)) eqn:Ev; [|eapply (gone_flow t); try done; by left].
    apply (up_flow t _ r); try done; cbn; [by rewrite Hg|by left|]. split; [done|]. by exists (buf ++ chunk), r, name.
  - eapply (gone_flow t); try done. by right.
Qed.

Lemma sni_flow io t t' : Flow t → sni_step host io t = Some t' → Flow t'.
Proof.
  intros H Hst. pose proof (guard t H) as Hg. unfold guard_ok in Hg.
  destruct (flow t H Up) as (rest & E0 & Hr). cbn [half sends] in E0, Hr.
  destruct (pc (up t)) as [buf|buf|buf| | | | | | | | | |] eqn:E; cbn [inflight stopped app] in E0, Hr;
    try (unfold sni_step in Hst; rewrite E in Hst; destruct io; discriminate Hst).
  - destruct io as [n| | |]; try (unfold sni_step in Hst; rewrite E in Hst; discriminate Hst).
    + by apply (sni_read_flow n t t' buf).
    + unfold sni_step in Hst. rewrite E in Hst. injection Hst as <-. eapply (gone_flow t); try done. by left.
  - destruct Hg as [Hg Ha]. unfold sni_step in Hst. rewrite E in Hst.
    destruct io as [| | |n]; try discriminate Hst; injection Hst as <-.
    + apply (up_flow t _ rest); try done; cbn; [by rewrite E0, <-(assoc_L (++))|].
      destruct Hr as [?|[?|?]]; auto; done.
    + apply (up_flow t _ (drop n buf ++ rest)); try done; cbn; [|by right; right|by right].
      by rewrite E0, <-(assoc_L (++)), (assoc_L (++) (take n buf)), take_drop.
  - unfold sni_step in Hst. rewrite E in Hst.
    apply (up_flow t _ rest); destruct io; injection Hst as <-; try done.
Qed.

Lemma goto_flow t t' s p :
  Flow t → half s t' = with_pc p (half s t) → half (other s) t' = half (other s) t →
  (pc (half s t) = Leaving ∨ pc (half s t) = Joining ∨ pc (half s t) = Recording) →
  (p = Joining ∨ p = Recording ∨ p = Ended) → Flow t'.
Proof.
  intros H Eh Ho Hp Hp'. split.
  - intros s'. destruct (side_cases s s') as [-> | ->]; [|rewrite Ho; apply H].
    destruct (flow t H s) as (rest & E0 & _). exists rest. rewrite Eh. unfold with_pc. cbn.
    assert (inflight (pc (half s t)) = []) as Ei by (destruct Hp as [-> | [-> | ->]]; done). rewrite Ei in E0.
    destruct Hp' as [-> | [-> | ->]]; (split; [exact E0|by right; right]).
  - pose proof (guard t H) as Hg. unfold guard_ok in *. destruct s; cbn [half other] in *; [|by rewrite Ho].
    rewrite Eh. cbn. destruct Hp as [Hp|[Hp|Hp]]; rewrite Hp in Hg; destruct Hp' as [-> | [-> | ->]]; done.
Qed.

Lemma leave_flow s t t' : Flow t → leave_step host target_ip target_port s t = Some t' → Flow t'.
Proof.
  intros H. unfold leave_step. destruct (pc (half s t)) eqn:E; try done.
  - destruct s; intros [= <-]; [by apply (goto_flow t _ Up Joining); auto|by apply (goto_flow t _ Down Ended); auto].
  - destruct s; [|done]. destruct (pc (down t)); try done. intros [= <-]. apply (goto_flow t _ Up Recording); auto.
  - destruct s; [|done]. intros [= <-]. apply (goto_flow t _ Up Ended); auto.
Qed.

Lemma run_flow schedule t t' : Flow t → run host target_ip target_port quotas schedule t = Some t' → Flow t'.
Proof.
  revert t. induction schedule as [|a schedule IH]; intros t H; cbn [run]; [by intros [= <-]|].
  destruct (tunnel_step _ _ _ _ a t) as [t1|] eqn:E; [|done]. cbn [mbind option_bind]. apply IH. revert E.
  destruct a as [s io|h tx rx]; cbn [tunnel_step].
  - unfold thread_step. destruct (pc (half s t)); try done; try (by apply loop_flow_inv); try (by apply leave_flow).
    all: destruct s; [by apply sni_flow|done].
  - unfold others_step. destruct (_ && _); [|done]. intros [= <-]. split; [apply H|apply (guard t H)].
Qed.

Lemma start_flow rev st : Flow (forward_data_tunnel target_port client server rev st).
Proof.
  unfold forward_data_tunnel. destruct (Z.eqb_spec target_port 443) as [Hp|Hp]; split.
  - intros []; unfold flow_ok; cbn; [exists client; auto|exists server; destruct rev; auto].
  - done.
  - intros []; unfold flow_ok; cbn; [exists client; auto|exists server; destruct rev; auto].
  - by intros ?.
Qed.
End Flow.

(** C22: The tunnel is transparent and, on port 443, guarded: what each side gets is
    at every moment a beginning of what the other side sent, byte for byte, and no
    byte of the client reaches the server on port 443 unless the client began with a
    TLS hello whose server name fits the host the tunnel was granted for. *)
Theorem tunnel_transparent host ip port quotas client server rev st schedule t :
  run host ip port quotas schedule (forward_data_tunnel port client server rev st) = Some t →
  wrote (up t) `prefix_of` client ∧ wrote (down t) `prefix_of` server
  ∧ (port = 443 → wrote (up t) ≠ [] →
     ∃ hello rest name, client = hello ++ rest ∧ extract_sni hello = Done (SniName name)
       ∧ validate_sni_host host (sni_text name) = true).
Proof.
  intros Hrun. apply (run_flow host ip port quotas client server) in Hrun; [|apply start_flow].
  destruct (flow _ _ _ _ _ Hrun Up) as (r1 & E1 & _), (flow _ _ _ _ _ Hrun Down) as (r2 & E2 & _).
  split; [by eexists|]. split; [by eexists|]. intros Hp Hw. pose proof (guard _ _ _ _ _ Hrun) as Hg.
  unfold guard_ok in Hg. destruct (pc (up t)); try (by apply Hg); try done; by destruct Hg.
Qed.

(** Everything a tunnel moved is recorded when it ends: for every pattern that the
    host matches, the record grows by no less than what both sides were sent. *)
Theorem tunnel_is_recorded host ip port quotas pat limit client server rev st schedule t io :
  (pat, limit) ∈ quotas → limit < 2 ^ 62 → stats_ok st → get_quota_bytes st "*" < 2 ^ 62 →
  run host ip port quotas schedule (forward_data_tunnel port client server rev st) = Some t →
  pc (up t) = Recording →
  ∃ t', thread_step host ip port quotas Up io t = Some t' ∧ pc (up t') = Ended
    ∧ ∀ p, domain_matches_pattern (record_key host) p = true →
        get_quota_bytes (shared t) p + Z.of_nat (length (wrote (up t))) + Z.of_nat (length (wrote (down t)))
        ≤ get_quota_bytes (shared t') p.
Proof.
  intros Hq Hl Hok Hs Hrun Hpc. pose proof (used_bounds st pat Hok) as Hu.
  rewrite get_quota_used in Hs by done. unfold u64_max in *.
  assert (0 ≤ used st pat) as H0 by lia.
  assert (Inv port pat limit (used st pat) (forward_data_tunnel port client server rev st)) as Hi by (apply start_inv; try done; lia).
  pose proof (run_inv host ip port quotas pat limit (used st pat) Hq Hl H0 schedule _ _ Hi Hrun) as Ht.
  eexists. unfold thread_step, leave_step. cbn [half]. rewrite Hpc. split; [reflexivity|]. split; [done|]. intros p Hp.
  destruct (inv_shared _ _ _ _ _ Ht) as (Hok' & Hu' & Hs'). rewrite Hpc in Hs'.
  pose proof (inv_count _ _ _ _ _ Ht Up) as Cu. pose proof (inv_count _ _ _ _ _ Ht Down) as Cd. cbn [half] in Cu, Cd.
  pose proof (counted_small _ _ _ _ Hl H0 t Ht) as Hc. unfold counted in Hc.
  destruct (record_exact (shared t) host (count (up t)) (count (down t)) Hok' Cu Cd) as [Hok2 Hx]; [lia|].
  specialize (Hx p). rewrite Hp in Hx.
  change (get_quota_bytes (shared (goto Up Ended _)) p)
    with (get_quota_bytes (add_domain_transfer host (count (up t)) (count (down t)) (shared t)) p).
  rewrite !get_quota_used, Hx by done. pose proof (used_bounds (shared t) p Hok').
  pose proof (inv_sent _ _ _ _ _ Ht Up) as Su. pose proof (inv_sent _ _ _ _ _ Ht Down) as Sd.
  unfold sent_ok in *. cbn [half] in *. rewrite Hpc in Su. specialize (Su eq_refl). cbn [inflight length] in Su.
  pose proof (inv_point _ _ _ _ _ Ht Down) as Pd. unfold point_ok in Pd. cbn [half] in Pd.
  assert (in_sni (pc (down t)) = false) as Ed by (destruct (pc (down t)); try done; by destruct Pd).
  specialize (Sd Ed). unfold u64_max. lia.
Qed.

(** ** Stopping *)

(** The steps a thread takes at most before it leaves its loop. *)
Definition rank (quotas : list (string * Z)) (p : Pc) : nat :=
  match p with
  | Reading => length quotas + 5
  | Added _ _ => length quotas + 4
  | Quotas _ _ pending => length pending + 3
  | Writing _ => 2
  | Check => 1
  | _ => 0
  end%nat.

(** Once a quota has been exceeded the tunnel winds down by itself: the flag is
    never taken back, and every step of a thread's loop brings it strictly closer to
    its end - at most one more read, its test and its write away. *)
Theorem killed_tunnel_stops quotas s io t t' :
  quota_killed t = true → loop_step quotas s io t = Some t' →
  quota_killed t' = true ∧ (rank quotas (pc (half s t')) < rank quotas (pc (half s t)))%nat.
Proof.
  intros Hk (_ & _ & Hl)%loop_step_cases.
  inversion Hl as [E K Eh Ek|E K Eh Ek|buf rest E Es Hb Eh Ek|E Eh Ek|buf mine E Eh Ek|buf tr E Eh Ek|
    buf tr q l pending E Hx Eh Ek|buf tr q l pending E Hx Eh Ek|buf E Eh Ek|buf n E Eh Ek];
    rewrite E; cbn [with_pc pc rank length]; try congruence; (split; [congruence|lia]).
Qed.

(** The loop can always go on: reads and writes have a step for what they return. *)
Lemma loop_never_stuck quotas s t :
  match pc (half s t) with
  | Check | Added _ _ | Quotas _ _ _ => ∀ io, is_Some (loop_step quotas s io t)
  | Reading => is_Some (loop_step quotas s NoMore t)
      ∧ ∀ n, (0 < n)%nat → source (half s t) ≠ [] → is_Some (loop_step quotas s (Got n) t)
  | Writing _ => is_Some (loop_step quotas s Sent t) ∧ ∀ n, is_Some (loop_step quotas s (Broken n) t)
  | _ => True
  end.
Proof.
  unfold loop_step. destruct (pc (half s t)) as [| | | | |buf mine|buf tr pending|buf| | | | |]; try done;
    try (intros io; by eexists).
  - split; [by eexists|]. intros n Hn Hs. unfold read_bytes. destruct (source (half s t)) as [|b src]; [done|].
    destruct (Nat.min n BUF) as [|k] eqn:E; [unfold BUF in E; lia|]. cbn [take mbind option_bind]. by eexists.
  - intros io. destruct pending as [|[q l] pending]; [by eexists|]. destruct (l <? _); by eexists.
Qed.

(** ** Concrete runs *)

Definition demo_quotas : list (string * Z) := [("example.com", 100)].
Definition zeros (n : nat) : list Z := replicate n 0.

(** One turn of a thread's loop under one quota. *)
Definition turn (s : Side) (n : nat) : list Action :=
  [Thread s Sent; Thread s (Got n); Thread s Sent; Thread s Sent; Thread s Sent; Thread s Sent].
Definition finish (s : Side) : list Action := [Thread s Sent; Thread s NoMore; Thread s Sent].

Definition demo_run (schedule : list Action) : option Tunnel :=
  run "api.example.com" "93.184.216.34" 80 demo_quotas schedule
    (forward_data_tunnel 80 (zeros 60) (zeros 90) true empty_state).

Lemma empty_stats_ok : stats_ok empty_state.
Proof. intros k v H. discriminate H. Qed.

(** The answer's chunk passes the quota: it is delivered, and both threads stop. *)
Lemma tunnel_within_quota_witness :
  match demo_run (turn Up 60 ++ turn Down 70 ++ [Thread Down Sent; Thread Up Sent]) with
  | Some t => quota_killed t = true ∧ pc (down t) = Ended
      ∧ Z.of_nat (length (wrote (up t))) + Z.of_nat (length (wrote (down t))) ≤ 100 + 2 * CHUNK
  | None => False
  end.
Proof.
  destruct (demo_run _) as [t|] eqn:E; [|vm_compute in E; discriminate E].
  pose proof (tunnel_within_quota "api.example.com" "93.184.216.34" 80 demo_quotas "example.com" 100
    (zeros 60) (zeros 90) true empty_state _ t ltac:(left) ltac:(lia) empty_stats_ok ltac:(vm_compute; reflexivity) E) as H.
  split; [|split; [|exact H]]; vm_compute in E; injection E as <-; reflexivity.
Defined.

Lemma tunnel_transparent_witness :
  match demo_run (turn Up 20 ++ turn Down 7) with
  | Some t => wrote (up t) `prefix_of` zeros 60 ∧ wrote (down t) `prefix_of` zeros 90
  | None => False
  end.
Proof.
  destruct (demo_run _) as [t|] eqn:E; [|vm_compute in E; discriminate E].
  destruct (tunnel_transparent "api.example.com" "93.184.216.34" 80 demo_quotas (zeros 60) (zeros 90) true empty_state _ t E)
    as (H1 & H2 & _). exact (conj H1 H2).
Defined.

(** Each tunnel only sees what ended tunnels recorded: two that run side by side move
    90 bytes each under a quota of 100, and neither is stopped. *)
Lemma parallel_tunnels_exceed_quota :
  match demo_run (turn Down 90 ++ [Others "api.example.com" 0 90] ++ finish Down ++ finish Up ++ [Thread Up Sent; Thread Up Sent]) with
  | Some t => pc (up t) = Ended ∧ quota_killed t = false ∧ get_quota_bytes (shared t) "example.com" = 180
  | None => False
  end.
Proof. vm_compute. done. Qed.

(** When the hello is refused nothing is recorded, whatever the server has already
    sent: here 90 bytes reach the client and the record stays empty. *)
Lemma refused_hello_is_not_recorded :
  match run "api.example.com" "93.184.216.34" 443 demo_quotas (turn Down 90 ++ [Thread Up (Got 1)])
          (forward_data_tunnel 443 (zeros 60) (zeros 90) true empty_state) with
  | Some t => pc (up t) = Gone ∧ length (wrote (down t)) = 90%nat ∧ get_quota_bytes (shared t) "example.com" = 0
      ∧ ∀ io, thread_step "api.example.com" "93.184.216.34" 443 demo_quotas Up io t = None
  | None => False
  end.
Proof. vm_compute. done. Qed.
