(* ===== verification/Tar.v ===== *)
(** * Tar: the snapshot archive

    Model of the ustar writer and reader of [src/src/rescue/snapshot.rs]: headers,
    archives and the listing of an archive.  A copy into a slice of another length
    is the panic [WPanic]; times are seconds since the epoch. *)

From S2P Require Import Prelude Paths Bytes Utf8.

(** ** Fields *)

Definition nul : ascii := chr 0.
Definition zeros (n : nat) : bytes := replicate n nul.
Definition pad (n : nat) (b : bytes) : bytes := b ++ zeros (n - length b).

Definition oct_char (n : Z) : ascii := chr (Z.to_nat (48 + n mod 8)).
(** The last [w] octal digits of [n]. *)
Fixpoint oct (w : nat) (n : Z) : bytes :=
  match w with O => [] | S w => oct w (n / 8) ++ [oct_char n] end.
Definition oct_len (n : Z) : nat := S (Z.to_nat (Z.log2 n / 3)).
(** [format!("{:0w$o}", n)]: at least [w] digits. *)
Definition format_oct (w : nat) (n : Z) : bytes := oct (Nat.max w (oct_len n)) n.

Definition checksum (b : bytes) : Z := foldr (λ a s, byte_value a + s) 0 b.

(** ** Writing *)

(** The place where a long path is cut: the last slash below [i] that leaves a name of
    100 and a prefix of 155 bytes at most. *)
Fixpoint find_split (path : bytes) (i : nat) : option nat :=
  match i with
  | O => None
  | S j =>
      if bool_decide (path !! i = Some slash) && (length path - i - 1 <=? 100)%nat && (i <=? 155)%nat
      then Some i else find_split path j
  end.
Definition split_path (path : bytes) : option (bytes * bytes) :=
  if (length path <=? 100)%nat then Some ([], path)
  else match find_split path (Nat.min (length path) 156 - 1) with
       | Some i => Some (take i path, drop (S i) path)
       | None => None
       end.

(** The header with the given text in its checksum field. *)
Definition header_with (prefix name mode size mtime chksum : bytes) : bytes :=
  pad 100 name ++ mode ++ bs "0000000" ++ [nul] ++ bs "0000000" ++ [nul] ++ size ++ mtime ++ chksum
  ++ bs "0" ++ zeros 100 ++ bs "ustar" ++ [nul] ++ bs "00" ++ zeros 80 ++ pad 155 prefix ++ zeros 12.

Inductive Written : Type := WOk (b : bytes) | WTooLong | WPanic.

Definition padding (size : Z) : nat := Z.to_nat ((512 - size mod 512) mod 512).

Definition write_tar_entry_with_mode (path data : bytes) (mtime mode : Z) : Written :=
  match split_path path with
  | None => WTooLong
  | Some (prefix, name) =>
      let mode_oct := format_oct 7 (Z.land mode 0x1ff) ++ [nul] in
      let size_oct := format_oct 11 (Z.of_nat (length data)) ++ [nul] in
      let mtime_oct := format_oct 11 (Z.max 0 mtime) ++ [nul] in
      if negb ((length mode_oct =? 8) && (length size_oct =? 12) && (length mtime_oct =? 12))%nat then WPanic
      else
        let header := header_with prefix name mode_oct size_oct mtime_oct in
        let chksum := checksum (header (bs "        ")) in
        WOk (header (format_oct 6 chksum ++ [nul; " "%char]) ++ data ++ zeros (padding (Z.of_nat (length data))))
  end.

Definition write_tar_entry (path data : bytes) (mtime : Z) : Written :=
  write_tar_entry_with_mode path data mtime 0x1a4.

(** ** Reading *)

Fixpoint until_nul (b : bytes) : bytes :=
  match b with
  | [] => []
  | a :: b => if Ascii.eqb a nul then [] else a :: until_nul b
  end.
Definition slice (i n : nat) (b : bytes) : bytes := take n (drop i b).

(** [String::from_utf8_lossy(..).trim().trim_matches('\0')]. *)
Definition field_text (b : bytes) : string :=
  trim_end_char nul (trim_start_char nul (trim (text (from_utf8_lossy b)))).

Definition parse_tar_header_with_mode (header : bytes) : string * Z * Z :=
  let name := text (from_utf8_lossy (until_nul (take 100 header))) in
  let prefix := text (from_utf8_lossy (until_nul (slice 345 155 header))) in
  let full_name := if negb (is_empty prefix) then prefix +:+ "/" +:+ name else name in
  let mode := default 0x1a4 (from_str_radix 8 u32_max (field_text (slice 100 8 header))) in
  let size := default 0 (from_str_radix 8 u64_max (field_text (slice 124 12 header))) in
  (full_name, size, mode).
Definition parse_tar_header (header : bytes) : string * Z :=
  let '(name, size, _) := parse_tar_header_with_mode header in (name, size).

Record TarEntry : Type := mk_entry { e_name : string; e_data : bytes; e_mode : Z }.

(** The loop both readers of archives run: the entries that can be read, and whether
    the archive ended well. *)
Fixpoint read_entries (fuel : nat) (b : bytes) : list TarEntry * bool :=
  match fuel with
  | O => ([], true)
  | S fuel =>
      let header := take 512 b in
      if (length header <? 512)%nat || forallb (Ascii.eqb nul) header then ([], true)
      else
        let '(name, size, mode) := parse_tar_header_with_mode header in
        if is_empty name then ([], true)
        else
          let rest := drop 512 b in
          let n := Z.to_nat size in
          if (length rest <? n)%nat || (length rest <? n + padding size)%nat then ([], false)
          else
            let '(es, ok) := read_entries fuel (drop (n + padding size) rest) in
            (mk_entry name (take n rest) mode :: es, ok)
  end.
Definition read_archive (b : bytes) : list TarEntry * bool := read_entries (S (length b)) b.

(** A name that stays below the directory it is joined to. *)
Definition is_clean (name : string) : bool :=
  negb (is_absolute (components name)) && negb (existsb is_parent (components name)).

Definition slashes (c : ascii) : ascii := if Ascii.eqb c (chr 92) then slash else c.
Definition normalize_name (name : string) : string := smap slashes name.

(** [BTreeMap]: the last of two entries with one name wins. *)
Definition read_tar_entries_with_modes (b : bytes) : option (gmap string (bytes * Z)) :=
  let '(es, ok) := read_archive b in
  if ok then Some (foldl (λ m e, if is_clean (e_name e) then <[normalize_name (e_name e) := (e_data e, e_mode e)]> m else m) ∅ es)
  else None.
Definition read_tar_entries (b : bytes) : option (gmap string bytes) :=
  match read_tar_entries_with_modes b with Some m => Some (fst <$> m) | None => None end.

(** The listing seeks over the data instead of reading it. *)
Fixpoint inspect (fuel : nat) (b : bytes) : list (string * Z) :=
  match fuel with
  | O => []
  | S fuel =>
      let header := take 512 b in
      if (length header <? 512)%nat || forallb (Ascii.eqb nul) header then []
      else
        let '(name, size) := parse_tar_header header in
        if is_empty name then []
        else
          (if is_clean name then [(name, size)] else [])
          ++ inspect fuel (drop (512 + Z.to_nat size + padding size) b)
  end.
Definition inspect_archive (b : bytes) : list (string * Z) := inspect (S (length b)) b.

(** An archive: the entries one after the other and two empty blocks. *)
Fixpoint write_entries (es : list (TarEntry * Z)) : Written :=
  match es with
  | [] => WOk []
  | (e, mtime) :: es =>
      match write_tar_entry_with_mode (bs (e_name e)) (e_data e) mtime (e_mode e) with
      | WOk b => match write_entries es with WOk bs => WOk (b ++ bs) | w => w end
      | w => w
      end
  end.
Definition END_OF_ARCHIVE : bytes := zeros 1024.

(** ** Lemmas: octal fields *)

Lemma oct_length w n : length (oct w n) = w.
Proof. revert n. induction w as [|w IH]; intros n; [done|]. cbn. rewrite length_app, IH. cbn. lia. Qed.

Lemma oct_char_spec n :
  is_digit (oct_char n) = true ∧ is_ascii_byte (oct_char n) = true ∧ digit_value 8 (oct_char n) = Some (n mod 8)
  ∧ is_graph (oct_char n) = true.
Proof.
  unfold oct_char. pose proof (Z.mod_pos_bound n 8).
  assert (n mod 8 ∈ [0; 1; 2; 3; 4; 5; 6; 7]) as Hin by (rewrite !elem_of_cons; lia).
  rewrite !elem_of_cons in Hin. clear H. repeat (destruct Hin as [->|Hin]; [vm_compute; done|]). by apply not_elem_of_nil in Hin.
Qed.

Lemma oct_forall (P : ascii → Prop) w n : (∀ m, P (oct_char m)) → Forall P (oct w n).
Proof.
  intros HP. revert n. induction w as [|w IH]; intros n; [constructor|]. cbn. apply Forall_app. split; [apply IH|by constructor].
Qed.

Lemma format_oct_fits w n : 0 ≤ n < 8 ^ Z.of_nat w → (0 < w)%nat → format_oct w n = oct w n.
Proof.
  intros Hn Hw. unfold format_oct. rewrite Nat.max_l; [done|]. unfold oct_len.
  destruct (decide (n = 0)) as [->|Hn0]; [change (Z.to_nat (Z.log2 0 / 3)) with 0%nat; lia|].
  assert (Z.log2 n < 3 * Z.of_nat w) as Hl.
  { apply Z.log2_lt_pow2; [lia|]. rewrite Z.pow_mul_r by lia. apply Hn. }
  assert (Z.log2 n / 3 < Z.of_nat w) by (apply Z.div_lt_upper_bound; lia).
  pose proof (Z.log2_nonneg n). assert (0 ≤ Z.log2 n / 3) by (apply Z.div_pos; lia). lia.
Qed.

Lemma format_oct_length w n : 0 ≤ n → (length (format_oct w n) = w ↔ n < 8 ^ Z.of_nat w ∧ (0 < w)%nat).
Proof.
  intros Hn. unfold format_oct. rewrite oct_length. split.
  - intros E. assert (oct_len n ≤ w)%nat as Hl by lia. unfold oct_len in Hl. split; [|lia].
    destruct (decide (n = 0)) as [->|Hn0]; [lia|].
    assert (Z.log2 n / 3 < Z.of_nat w) by (pose proof (Z.log2_nonneg n); assert (0 ≤ Z.log2 n / 3) by (apply Z.div_pos; lia); lia).
    pose proof (Z.div_mod (Z.log2 n) 3). pose proof (Z.mod_pos_bound (Z.log2 n) 3).
    change 8 with (2 ^ 3). rewrite <-Z.pow_mul_r by lia. apply Z.log2_lt_pow2; lia.
  - intros [Hl Hw]. rewrite <-(oct_length (Nat.max w (oct_len n)) n). fold (format_oct w n).
    by rewrite format_oct_fits, oct_length.
Qed.

Lemma oct_value w n a r :
  digits_acc 8 a (text (oct w n) +:+ r) = digits_acc 8 (a * 8 ^ Z.of_nat w + n mod 8 ^ Z.of_nat w) r.
Proof.
  revert n a r. induction w as [|w IH]; intros n a r.
  - cbn. by rewrite Z.mod_1_r, Z.mul_1_r, Z.add_0_r.
  - cbn [oct]. rewrite text_app, string_app_assoc, IH. cbn [text string_of_list_ascii append digits_acc].
    destruct (oct_char_spec n) as (_ & _ & -> & _). f_equal.
    rewrite Nat2Z.inj_succ, Z.pow_succ_r by lia.
    rewrite (Z.rem_mul_r n 8 (8 ^ Z.of_nat w)) by lia. lia.
Qed.

Lemma text_chars (P : ascii → bool) b : Forall (λ c, P c = true) b → all_chars P (text b) = true.
Proof. induction 1 as [|c b Hc Hb IH]; [done|]. cbn. by rewrite Hc. Qed.

Lemma oct_text_digits w n : all_chars is_digit (text (oct w n)) = true.
Proof. apply text_chars, oct_forall. intros m. apply oct_char_spec. Qed.

Lemma oct_text_nonempty w n : (0 < w)%nat → text (oct w n) ≠ EmptyString.
Proof. intros Hw E. assert (length (bs (text (oct w n))) = 0%nat) as H by (by rewrite E). rewrite bs_text, oct_length in H. lia. Qed.

Lemma white_space_no_prefix w c s : w ∈ white_space → is_digit c = true → strip_prefix w (String c s) = None.
Proof.
  intros Hw Hc. destruct (strip_prefix w (String c s)) as [r|] eqn:E; [|done]. exfalso.
  assert (forallb (λ u, match u with String a _ => negb (is_digit a) | EmptyString => false end) white_space = true) as H
    by (vm_compute; reflexivity).
  rewrite forallb_forall in H. apply list_elem_of_In, H in Hw. destruct w as [|a w]; [done|].
  cbn in E. destruct (Ascii.eqb_spec a c) as [->|]; [|done]. by rewrite Hc in Hw.
Qed.

(** The last byte of a string. *)
Fixpoint last_char (s : string) : option ascii :=
  match s with EmptyString => None | String c EmptyString => Some c | String _ s => last_char s end.
Lemma last_char_app a c s : last_char (a +:+ String c s) = last_char (String c s).
Proof. induction a as [|x a IH]; [done|]. cbn [append]. rewrite <-IH. by destruct a. Qed.

Lemma white_space_no_suffix w s : w ∈ white_space → last_char s = Some nul → strip_suffix w s = None.
Proof.
  intros Hw Hs. destruct (strip_suffix w s) as [r|] eqn:E; [|done]. exfalso.
  assert (forallb (λ u, match last_char u with Some a => negb (Ascii.eqb a nul) | None => false end) white_space = true) as H
    by (vm_compute; reflexivity).
  rewrite forallb_forall in H. apply list_elem_of_In, H in Hw. apply strip_suffix_Some in E as ->.
  destruct w as [|c w]; [done|]. rewrite last_char_app in Hs. rewrite Hs in Hw. by rewrite Ascii.eqb_refl in Hw.
Qed.

Lemma field_text_oct w n : (0 < w)%nat → field_text (oct w n ++ [nul]) = text (oct w n).
Proof.
  intros Hw. unfold field_text. rewrite from_utf8_lossy_utf8, text_app.
  2: { apply utf8_ascii, Forall_app. split; [apply oct_forall; intros m; apply oct_char_spec|by repeat constructor]. }
  change (text [nul]) with (String nul EmptyString).
  pose proof (oct_text_digits w n) as Hd. pose proof (oct_text_nonempty w n Hw) as Hn.
  destruct (text (oct w n)) as [|c d]; [done|]. cbn in Hd. apply andb_true_iff in Hd as [Hc Hd].
  assert (trim (String c d +:+ String nul "") = String c d +:+ String nul "") as ->.
  { unfold trim, trim_start, trim_end. rewrite (strip_loop_none _ _ (String c d +:+ String nul "")).
    - apply strip_loop_none, first_some_None, Forall_forall. intros u Hu. apply white_space_no_suffix; [done|].
      by rewrite last_char_app.
    - apply first_some_None, Forall_forall. intros u Hu. by apply white_space_no_prefix. }
  assert (trim_start_char nul (String c d +:+ String nul "") = String c d +:+ String nul "") as ->.
  { apply strip_loop_none. cbn. by destruct c as [[] [] [] [] [] [] [] []]. }
  assert (String c d +:+ String nul "" = String c (d +:+ String nul "")) as E by done.
  unfold trim_end_char. rewrite string_length_app. cbn [String.length]. rewrite Nat.add_1_r. cbn [strip_loop].
  rewrite (proj2 (strip_suffix_Some (String nul "") _ (String c d)) eq_refl).
  destruct (strip_suffix _ (String c d)) as [r|] eqn:Es; [|done]. exfalso. apply strip_suffix_Some in Es.
  assert (all_chars is_digit (String c d) = true) as H by (cbn; by rewrite Hc).
  rewrite Es, all_chars_app in H. apply andb_true_iff in H as [_ H]. discriminate H.
Qed.

Lemma field_value w n max : (0 < w)%nat → 0 ≤ n < 8 ^ Z.of_nat w → n ≤ max →
  from_str_radix 8 max (field_text (oct w n ++ [nul])) = Some n.
Proof.
  intros Hw Hn Hm. rewrite field_text_oct by done. unfold from_str_radix.
  pose proof (oct_text_digits w n) as Hd. pose proof (oct_text_nonempty w n Hw) as Hne.
  pose proof (oct_value w n 0 EmptyString) as Hv. rewrite string_app_nil_r, Z.mod_small in Hv by done. rewrite Z.mul_0_l, Z.add_0_l in Hv. cbn [digits_acc] in Hv.
  destruct (text (oct w n)) as [|c s]; [done|].
  assert (strip_prefix "+" (String c s) = None) as ->.
  { simpl. destruct (Ascii.eqb_spec "+" c) as [<-|]; [discriminate Hd|done]. }
  change (is_empty (String c s)) with false. cbv iota. rewrite Hv. cbv iota beta. by rewrite (proj2 (Z.leb_le n max) Hm).
Qed.

(** ** Lemmas: the header *)

Lemma pad_length n b : (length b ≤ n)%nat → length (pad n b) = n.
Proof. intros H. unfold pad, zeros. rewrite length_app, length_replicate. lia. Qed.

Lemma until_nul_pad n b : Forall (λ c, c ≠ nul) b → until_nul (pad n b) = b.
Proof.
  intros Hb. unfold pad. generalize (n - length b)%nat. intros k.
  induction Hb as [|c b Hc Hb IH]; cbn [app until_nul]; [by destruct k|].
  apply Ascii.eqb_neq in Hc. by rewrite Hc, IH.
Qed.

Lemma slice_at pre x post i n : i = length pre → n = length x → slice i n (pre ++ x ++ post) = x.
Proof. intros -> ->. unfold slice. by rewrite drop_app_length, take_app_length. Qed.

(** Where the fields are. *)
Lemma header_fields prefix name m s t c :
  (length prefix ≤ 155)%nat → (length name ≤ 100)%nat →
  length m = 8%nat → length s = 12%nat → length t = 12%nat → length c = 8%nat →
  let h := header_with prefix name m s t c in
  length h = 512%nat ∧ take 100 h = pad 100 name ∧ slice 345 155 h = pad 155 prefix
  ∧ slice 100 8 h = m ∧ slice 124 12 h = s.
Proof.
  intros Hp Hn Hm Hs Ht Hc h. pose proof (pad_length 155 prefix Hp) as Lp. pose proof (pad_length 100 name Hn) as Ln.
  set (id := bs "0000000" ++ [nul]). set (magic := bs "ustar" ++ [nul] ++ bs "00").
  set (z100 := zeros 100). set (z80 := zeros 80). set (z12 := zeros 12).
  assert (length id = 8%nat ∧ length magic = 8%nat ∧ length z100 = 100%nat ∧ length z80 = 80%nat ∧ length z12 = 12%nat)
    as (Lid & Lma & L1 & L2 & L3) by done.
  assert (h = pad 100 name ++ m ++ id ++ id ++ s ++ t ++ c ++ bs "0" ++ z100 ++ magic ++ z80 ++ pad 155 prefix ++ z12) as ->.
  { subst h id magic. unfold header_with. by rewrite <-!(assoc_L (++)). }
  split_and!.
  - rewrite !length_app, Lp, Ln, Hm, Hs, Ht, Hc, Lid, Lma, L1, L2, L3. done.
  - by rewrite take_app_length' by done.
  - rewrite !(assoc_L (++)). rewrite <-(assoc_L (++) _ (pad 155 prefix)). apply slice_at; [|done].
    rewrite !length_app, Ln, Hm, Hs, Ht, Hc, Lid, Lma, L1, L2. done.
  - by apply slice_at.
  - rewrite (assoc_L (++) id id), (assoc_L (++) m), (assoc_L (++) (pad 100 name)). apply slice_at; [|done].
    rewrite !length_app, Ln, Hm, Lid. done.
Qed.

Lemma find_split_spec path i j :
  find_split path i = Some j → (1 ≤ j ≤ i)%nat ∧ path !! j = Some slash ∧ (length path - j - 1 ≤ 100)%nat ∧ (j ≤ 155)%nat.
Proof.
  revert j. induction i as [|i IH]; intros j; cbn [find_split]; [done|].
  destruct (bool_decide (path !! S i = Some slash)) eqn:E1; cbn [andb].
  - apply bool_decide_eq_true in E1. destruct (Nat.leb_spec (length path - S i - 1) 100); cbn [andb].
    + destruct (Nat.leb_spec (S i) 155); [intros [= <-]; split_and!; done || lia|].
      intros (H1 & H2)%IH. split; [lia|done].
    + intros (H1 & H2)%IH. split; [lia|done].
  - intros (H1 & H2)%IH. split; [lia|done].
Qed.

Lemma split_path_spec path prefix name :
  split_path path = Some (prefix, name) →
  (length prefix ≤ 155)%nat ∧ (length name ≤ 100)%nat
  ∧ (prefix = [] ∧ name = path ∨ prefix ≠ [] ∧ path = prefix ++ slash :: name).
Proof.
  unfold split_path. destruct (Nat.leb_spec (length path) 100).
  - intros [= <- <-]. cbn. split; [lia|]. split; [lia|by left].
  - destruct (find_split path _) as [i|] eqn:E; [|done]. intros [= <- <-].
    apply find_split_spec in E as (Hi & Hs & Hn & Hp). pose proof (lookup_lt_Some _ _ _ Hs).
    rewrite length_take, length_drop. split; [lia|]. split; [lia|]. right. split.
    + intros E0. assert (length (take i path) = 0%nat) as Hz by (by rewrite E0). rewrite length_take in Hz. lia.
    + by rewrite <-(drop_S _ _ _ Hs), take_drop.
Qed.

(** What a path must be to come back as it is: text, without a NUL. *)
Definition path_text (path : string) : Prop :=
  utf8 (bs path) ∧ Forall (λ c, c ≠ nul) (bs path) ∧ path ≠ EmptyString.

Lemma checksum_bound b : 0 ≤ checksum b ≤ 255 * Z.of_nat (length b).
Proof.
  induction b as [|a b IH]; [done|]. cbn [checksum foldr length]. fold (checksum b). pose proof (byte_value_range a). lia.
Qed.

Lemma full_name_spec path prefix name :
  path_text path → split_path (bs path) = Some (prefix, name) →
  let n := text (from_utf8_lossy name) in let p := text (from_utf8_lossy prefix) in
  (if negb (is_empty p) then p +:+ "/" +:+ n else n) = path.
Proof.
  intros (Hu & _ & _) (_ & _ & [[-> ->]|[Hne E]])%split_path_spec; cbv zeta.
  - cbn. rewrite from_utf8_lossy_utf8 by done. apply string_of_list_ascii_of_string.
  - rewrite E in Hu. assert (utf8 prefix ∧ utf8 name) as [Hp Hn].
    { assert ((prefix ++ slash :: name) !! length prefix = Some slash) as Hs by (by apply list_lookup_middle).
      pose proof (cut_at _ _ _ Hu Hs eq_refl) as Hc. pose proof (cut_take _ _ Hu Hc) as Ht.
      rewrite take_app_length in Ht. destruct Hc as [_ Hd]. rewrite drop_app_length in Hd.
      split; [done|]. by apply (utf8_tail_ascii slash). }
    rewrite !from_utf8_lossy_utf8 by done. destruct prefix as [|c p]; [done|].
    change (is_empty (text (c :: p))) with false. cbn [negb].
    rewrite <-(string_of_list_ascii_of_string path). fold (bs path) (text (bs path)). rewrite E, text_app. done.
Qed.

(** A written entry is a header that parses to it, its data and its padding. *)
Lemma write_entry_spec path data mtime mode b :
  path_text path → write_tar_entry_with_mode (bs path) data mtime mode = WOk b →
  ∃ h, b = h ++ data ++ zeros (padding (Z.of_nat (length data))) ∧ length h = 512%nat
    ∧ parse_tar_header_with_mode h = (path, Z.of_nat (length data), Z.land mode 0x1ff)
    ∧ forallb (Ascii.eqb nul) h = false.
Proof.
  intros Ht. unfold write_tar_entry_with_mode. destruct (split_path (bs path)) as [[prefix name]|] eqn:Es; [|done].
  pose proof (full_name_spec path prefix name Ht Es) as Hfull. destruct Ht as (Hu & Hnul & Hne).
  pose proof (split_path_spec _ _ _ Es) as (Hp & Hn & Hcut).
  destruct (negb _) eqn:El; [done|]. apply negb_false_iff in El. rewrite !andb_true_iff, !Nat.eqb_eq in El.
  destruct El as [[Lm Ls] Lt]. rewrite !length_app in *. cbn [length] in *.
  intros Hb. match type of Hb with WOk ?x = _ => assert (x = b) as <- by congruence end. clear Hb.
  assert (0 ≤ Z.land mode 511 < 8 ^ Z.of_nat 7) as Hmode.
  { change 511 with (Z.ones 9). rewrite Z.land_ones by lia. pose proof (Z.mod_pos_bound mode (2 ^ 9)). lia. }
  assert (Z.of_nat (length data) < 8 ^ Z.of_nat 11) as Hsize by (apply (format_oct_length 11); lia).
  set (m := format_oct 7 (Z.land mode 511)) in *. set (sz := format_oct 11 (Z.of_nat (length data))) in *.
  set (t := format_oct 11 (Z.max 0 mtime)) in *. set (chk := checksum _).
  assert (length (format_oct 6 chk) = 6%nat) as Lc.
  { assert (0 ≤ chk < 8 ^ Z.of_nat 6) as Hchk; [|by apply format_oct_length; lia].
    pose proof (checksum_bound (header_with prefix name (m ++ [nul]) (sz ++ [nul]) (t ++ [nul]) (bs "        "))) as Hc.
    fold chk in Hc. destruct (header_fields prefix name (m ++ [nul]) (sz ++ [nul]) (t ++ [nul]) (bs "        ")) as (Lh & _);
      rewrite ?length_app; cbn [length]; try lia; done. }
  eexists. split; [reflexivity|].
  destruct (header_fields prefix name (m ++ [nul]) (sz ++ [nul]) (t ++ [nul]) (format_oct 6 chk ++ [nul; " "%char]))
    as (Lh & F1 & F2 & F3 & F4); rewrite ?length_app; cbn [length]; try lia; try done.
  clear Lc. revert Lh F1 F2 F3 F4. generalize (header_with prefix name (m ++ [nul]) (sz ++ [nul]) (t ++ [nul]) (format_oct 6 chk ++ [nul; " "%char])).
  intros h Lh F1 F2 F3 F4. split; [done|]. subst m sz.
  rewrite format_oct_fits in F3, F4 by lia. split.
  - assert (Forall (λ c, c ≠ nul) name ∧ Forall (λ c, c ≠ nul) prefix) as [Nn Np].
    { destruct Hcut as [[-> ->]|[_ E]]; [by split|]. rewrite E in Hnul. apply Forall_app in Hnul as [? [_ ?]%Forall_cons]. done. }
    unfold parse_tar_header_with_mode. rewrite F1, F2, F3, F4, !until_nul_pad by done.
    rewrite (field_value 7), (field_value 11); [| | | | |..]; try lia; [|unfold u64_max; lia|unfold u32_max; lia].
    cbn [default from_option id]. by rewrite Hfull.
  - apply not_true_iff_false. rewrite forallb_forall. intros Hall.
    assert (oct_char (Z.land mode 511) ∈ h) as Hin.
    { assert (oct_char (Z.land mode 511) ∈ slice 100 8 h) as Hs.
      { rewrite F3. apply elem_of_app. left. cbn [oct]. apply elem_of_app. right. left. }
      unfold slice in Hs. rewrite <-(take_drop 100 h). apply elem_of_app. right.
      rewrite <-(take_drop 8 (drop 100 h)). apply elem_of_app. by left. }
    apply list_elem_of_In, Hall, Ascii.eqb_eq in Hin. destruct (oct_char_spec (Z.land mode 511)) as [Hd _].
    rewrite <-Hin in Hd. discriminate Hd.
Qed.

(** Reading goes on behind a written entry. *)
Lemma read_entry path data mtime mode b fuel r :
  path_text path → write_tar_entry_with_mode (bs path) data mtime mode = WOk b →
  read_entries (S fuel) (b ++ r)
  = (mk_entry path data (Z.land mode 0x1ff) :: (read_entries fuel r).1, (read_entries fuel r).2)
  ∧ (512 ≤ length b)%nat.
Proof.
  intros Ht Hw. destruct (write_entry_spec _ _ _ _ _ Ht Hw) as (h & -> & Lh & Hp & Hz).
  split; [|rewrite length_app; lia]. cbn [read_entries]. rewrite <-!(assoc_L (++)).
  rewrite take_app_length', drop_app_length' by done. rewrite Lh, Hz. cbn [orb].
  change ((512 <? 512)%nat) with false. cbn [orb]. rewrite Hp.
  assert (is_empty path = false) as -> by (by apply String.eqb_neq, Ht). rewrite Nat2Z.id.
  assert (length (zeros (padding (Z.of_nat (length data)))) = padding (Z.of_nat (length data))) as Lz by apply length_replicate.
  rewrite !length_app, Lz.
  destruct (Nat.ltb_spec (length data + (padding (Z.of_nat (length data)) + length r)) (length data)); [lia|].
  destruct (Nat.ltb_spec (length data + (padding (Z.of_nat (length data)) + length r)) (length data + padding (Z.of_nat (length data)))); [lia|].
  cbn [orb]. rewrite take_app_length. rewrite (assoc_L (++) data), drop_app_length' by (by rewrite length_app, Lz).
  by destruct (read_entries fuel r).
Qed.

Lemma end_block r : take 512 (END_OF_ARCHIVE ++ r) = zeros 512.
Proof. rewrite take_app_le by (by vm_compute; lia). reflexivity. Qed.

Lemma read_end fuel r : read_entries (S fuel) (END_OF_ARCHIVE ++ r) = ([], true).
Proof.
  cbn [read_entries]. rewrite end_block.
  assert ((length (zeros 512) <? 512)%nat || forallb (Ascii.eqb nul) (zeros 512) = true) as -> by (vm_compute; reflexivity).
  done.
Qed.

(** What comes back of a written entry: its mode has the nine permission bits. *)
Definition kept (e : TarEntry) : TarEntry := mk_entry (e_name e) (e_data e) (Z.land (e_mode e) 0x1ff).

Lemma read_written es b fuel r :
  Forall (λ e, path_text (e_name e.1)) es → write_entries es = WOk b → (length b < fuel)%nat →
  read_entries fuel (b ++ END_OF_ARCHIVE ++ r) = (kept ∘ fst <$> es, true).
Proof.
  intros Hes. revert b fuel. induction Hes as [|[e mtime] es He Hes IH]; intros b fuel; cbn [write_entries].
  - intros [= <-] Hf. destruct fuel as [|fuel]; [cbn in Hf; lia|]. apply read_end.
  - destruct (write_tar_entry_with_mode _ _ _ _) as [b1| |] eqn:E1; try done.
    destruct (write_entries es) as [b2| |] eqn:E2; try done. intros [= <-] Hf. rewrite length_app in Hf.
    destruct fuel as [|fuel]; [lia|]. rewrite <-(assoc_L (++)).
    destruct (read_entry _ _ _ _ _ fuel (b2 ++ END_OF_ARCHIVE ++ r) He E1) as [-> Hl].
    rewrite (IH b2 fuel eq_refl) by lia. done.
Qed.

(** C37: The archive is exact: whatever entries are written - of any length, binary
    content included, with paths that are text without a NUL - are read back in their
    order with their paths (a long one joined from its two fields), contents and the
    nine permission bits, and nothing behind the end marker is read. *)
Theorem archive_round_trip es b r :
  Forall (λ e, path_text (e_name e.1)) es → write_entries es = WOk b →
  read_archive (b ++ END_OF_ARCHIVE ++ r) = (kept ∘ fst <$> es, true).
Proof. intros Hes Hw. apply read_written; [done..|]. rewrite length_app. lia. Qed.

Definition demo_entries : list (TarEntry * Z) :=
  [(mk_entry "src/main.rs" (bs "fn main() {}") 0x81ed, 1700000000);
   (mk_entry "empty" [] 0x1a4, -5)].

Lemma archive_round_trip_witness :
  match write_entries demo_entries with
  | WOk b => read_archive (b ++ END_OF_ARCHIVE ++ bs "junk")
      = ([mk_entry "src/main.rs" (bs "fn main() {}") 0x1ed; mk_entry "empty" [] 0x1a4], true)
  | _ => False
  end.
Proof.
  destruct (write_entries demo_entries) as [b| |] eqn:E; [|vm_compute in E; discriminate E..].
  refine (archive_round_trip demo_entries b (bs "junk") _ E).
  repeat constructor; cbn; try discriminate; by apply utf8_ascii; repeat constructor.
Defined.

(** A time behind the eleven digits (the year 2242) does not fit its field: the copy
    into the header panics. *)
Lemma far_mtime_panics data mode :
  write_tar_entry_with_mode (bs "a") data (8 ^ 11) mode = WPanic.
Proof.
  unfold write_tar_entry_with_mode. cbn [split_path bs list_ascii_of_string length Nat.leb].
  change (length (format_oct 11 (Z.max 0 (8 ^ 11)) ++ [nul]) =? 12)%nat with false. by rewrite andb_false_r.
Qed.

(** A name of more than a hundred bytes has no place to be cut. *)
Lemma long_name_fails data mtime mode :
  write_tar_entry_with_mode (bs "src/" ++ replicate 101 "x"%char) data mtime mode = WTooLong.
Proof. reflexivity. Qed.

(** ** The listing *)

Lemma inspect_written es b fuel r :
  Forall (λ e, path_text (e_name e.1)) es → write_entries es = WOk b → (length b < fuel)%nat →
  inspect fuel (b ++ END_OF_ARCHIVE ++ r)
  = (λ e, (e_name e.1, Z.of_nat (length (e_data e.1)))) <$> filter (λ e, is_clean (e_name e.1) = true) es.
Proof.
  intros Hes. revert b fuel. induction Hes as [|[e mtime] es He Hes IH]; intros b fuel; cbn [write_entries].
  - intros [= <-] Hf. destruct fuel as [|fuel]; [cbn in Hf; lia|]. cbn [inspect]. rewrite app_nil_l, end_block.
    assert ((length (zeros 512) <? 512)%nat || forallb (Ascii.eqb nul) (zeros 512) = true) as -> by (vm_compute; reflexivity).
    done.
  - destruct (write_tar_entry_with_mode _ _ _ _) as [b1| |] eqn:E1; try done.
    destruct (write_entries es) as [b2| |] eqn:E2; try done. intros [= <-] Hf. rewrite length_app in Hf.
    destruct fuel as [|fuel]; [lia|]. rewrite <-(assoc_L (++)).
    destruct (write_entry_spec _ _ _ _ _ He E1) as (h & -> & Lh & Hp & Hz). cbn [fst] in *.
    cbn [inspect]. rewrite <-!(assoc_L (++)). rewrite take_app_length' by done. rewrite Lh, Hz.
    change (512 <? 512)%nat with false. cbn [orb]. unfold parse_tar_header. rewrite Hp.
    assert (is_empty (e_name e) = false) as -> by (by apply String.eqb_neq, He). rewrite Nat2Z.id.
    rewrite filter_cons. rewrite (assoc_L (++)), (assoc_L (++) _ (zeros _)), drop_app_length'.
    2: { rewrite !length_app, Lh. unfold zeros. by rewrite length_replicate. }
    rewrite (IH b2 fuel eq_refl) by (rewrite !length_app in Hf; lia). cbn [fst].
    case_decide as Hc; [by rewrite Hc|]. apply not_true_is_false in Hc. by rewrite Hc.
Qed.

(** The listing names every entry with its size, without reading the data. *)
Theorem listing_exact es b r :
  Forall (λ e, path_text (e_name e.1)) es → write_entries es = WOk b →
  inspect_archive (b ++ END_OF_ARCHIVE ++ r)
  = (λ e, (e_name e.1, Z.of_nat (length (e_data e.1)))) <$> filter (λ e, is_clean (e_name e.1) = true) es.
Proof. intros Hes Hw. apply inspect_written; [done..|]. rewrite length_app. lia. Qed.
