(* ===== verification/Snapshot.v ===== *)
(** * Snapshot: the project snapshot

    Model of the directory scans and of [create_snapshot]
    ([src/src/rescue/snapshot.rs]) on a store of files: a map from absolute paths,
    as lists of names, to objects.  The order of a directory listing and the files
    that cannot be read are parameters. *)

From S2P Require Import Prelude Paths Bytes Utf8 Tar.

(** ** Files *)

Abbreviation loc := (list string).

(** A link holds its target as an absolute path. *)
Inductive Obj : Type := ODir | OFile (data : bytes) (mode mtime : Z) | OLink (target : loc).
Abbreviation FS := (gmap (list string) Obj).

Definition is_dir (o : Obj) : bool := match o with ODir => true | _ => false end.

(** The name of [p] in the directory [d]. *)
Definition child_name (d p : loc) : option string :=
  if bool_decide (take (length d) p = d)
  then match drop (length d) p with [n] => Some n | _ => None end else None.

(** [crate::fs::is_ignored_directory]. *)
Definition IGNORED : list string :=
  [".git"; "node_modules"; "target"; "vendor"; ".venv"; "venv"; "dist"; "build"; "__pycache__";
   ".vetto"; ".vetto-reports"; ".cargo"; ".rustup"].
Definition is_ignored_directory (name : string) : bool := existsb (String.eqb name) IGNORED.

(** [rel.to_string_lossy().replace('\\', "/")]. *)
Definition rel_str (rel : loc) : string := normalize_name (text (from_utf8_lossy (bs (join_with "/" rel)))).

(** The names of a relative path. *)
Definition names_of (p : path) : loc :=
  omap (λ c, match c with Normal n => Some n | _ => None end) p.

Section Disk.
(** The order in which a directory is listed. *)
Variable order : list (string * Obj) → list (string * Obj).
(** Whether a file can be opened and read. *)
Variable readable : loc → bool.

Definition read_dir (fs : FS) (d : loc) : list (string * Obj) :=
  match fs !! d with
  | Some ODir => order (omap (λ '(p, o), match child_name d p with Some n => Some (n, o) | None => None end) (map_to_list fs))
  | _ => []
  end.

(** The directories of a listing that are walked into. *)
Definition subdirs (d : loc) (es : list (string * Obj)) : list loc :=
  omap (λ '(n, o), if is_dir o && negb (is_ignored_directory n) then Some (d ++ [n]) else None) es.

(** The walk of all three scans: a stack of directories; the last one found is the
    next.  [visit] sees the listing of each. *)
Fixpoint walk {St} (disk : St → FS) (visit : St → loc → list (string * Obj) → St)
    (fuel : nat) (st : St) (queue : list loc) : St * list loc :=
  match fuel, queue with
  | S fuel, d :: queue =>
      let es := read_dir (disk st) d in
      let '(st, ds) := walk disk visit fuel (visit st d es) (rev (subdirs d es) ++ queue) in
      (st, d :: ds)
  | _, _ => (st, [])
  end.
Definition walk_fuel (fs : FS) : nat := S (size fs).

(** ** The snapshot *)

Inductive Snapshot : Type :=
| SnapRunning (archive : bytes) (file_count : nat) (total_size : Z)
| SnapTooBig
| SnapUnfit (partial : bytes)
| SnapPanicked (partial : bytes).

Definition DEFAULT_MAX_SNAPSHOT_SIZE : Z := 50 * 1024 * 1024.

Definition snap_entry (project : loc) (max_bytes : Z) (d : loc) (s : Snapshot) (e : string * Obj) : Snapshot :=
  match s, e.2 with
  | SnapRunning archive count total, OFile data mode mtime =>
      let path := d ++ [e.1] in
      let len := Z.of_nat (length data) in
      if max_bytes <? total + len then SnapTooBig
      else if negb (readable path) then s
      else match write_tar_entry_with_mode (bs (rel_str (drop (length project) path))) data mtime (Z.land mode 0x1ff) with
           | WOk b => SnapRunning (archive ++ b) (S count) (total + len)
           | WTooLong => SnapUnfit archive
           | WPanic => SnapPanicked archive
           end
  | _, _ => s
  end.

(** What is left in the snapshot's directory. *)
Inductive SnapResult : Type :=
| SnapSkipped
| SnapDone (archive : bytes) (file_count : nat) (total_size_bytes : Z)
| SnapRemoved
| SnapLeft (partial : bytes) (panicked : bool).

Definition create_snapshot (is_home_or_root : bool) (fs : FS) (project : loc) (max_bytes : Z) : SnapResult :=
  if is_home_or_root then SnapSkipped
  else
    match (walk (λ _, fs) (λ s d es, foldl (snap_entry project max_bytes d) s es) (walk_fuel fs)
             (SnapRunning [] 0 0) [project]).1 with
    | SnapRunning archive count total => SnapDone (archive ++ END_OF_ARCHIVE) count total
    | SnapTooBig => SnapRemoved
    | SnapUnfit partial => SnapLeft partial false
    | SnapPanicked partial => SnapLeft partial true
    end.

(** ** The preview *)

(** [scan_disk_files]: what a scan reads, by the names the archive would use. *)
Definition scan_dir (root d : loc) (m : gmap string bytes) (es : list (string * Obj)) : gmap string bytes :=
  foldl (λ m e, match e.2 with
                | OFile data _ _ =>
                    if readable (d ++ [e.1]) then <[rel_str (drop (length root) (d ++ [e.1])) := data]> m else m
                | _ => m
                end) m es.
Definition scan_disk_files (fs : FS) (root : loc) : gmap string bytes :=
  (walk (λ _, fs) (λ m d es, scan_dir root d m es) (walk_fuel fs) ∅ [root]).1.

(** [(modified, added, deleted)]. *)
Definition preview_snapshot_changes (archive_path : loc) (archive : bytes) (fs : FS) (project : loc) : option (nat * nat * nat) :=
  match read_tar_entries archive with
  | None => None
  | Some snapshot_files =>
      let disk_files := scan_disk_files fs project in
      let disk_files :=
        if bool_decide (project `prefix_of` archive_path)
        then delete (rel_str (drop (length project) archive_path)) disk_files else disk_files in
      let both := dom disk_files ∩ dom snapshot_files in
      Some (size (filter (λ n, snapshot_files !! n ≠ disk_files !! n) both),
            size (dom disk_files ∖ dom snapshot_files), size (dom snapshot_files ∖ dom disk_files))
  end.
End Disk.

(** ** Lemmas: listings *)

Lemma elem_of_rev {A} (l : list A) x : x ∈ rev l ↔ x ∈ l.
Proof. by rewrite <-(Permutation_rev l). Qed.
Lemma elem_of_rev_1 {A} (l : list A) x : x ∈ rev l → x ∈ l.
Proof. apply elem_of_rev. Qed.
Lemma NoDup_rev_list {A} (l : list A) : NoDup l → NoDup (rev l).
Proof. intros H. by rewrite <-(Permutation_rev l). Qed.

Lemma child_name_spec d p n : child_name d p = Some n ↔ p = d ++ [n].
Proof.
  unfold child_name. case_bool_decide as H.
  - rewrite <-(take_drop (length d) p) at 2. rewrite H. destruct (drop (length d) p) as [|m [|]].
    + split; [done|]. rewrite app_nil_r. intros E. assert (length d = length (d ++ [n])) as El by (by rewrite <-E).
      rewrite length_app in El. cbn in El. lia.
    + split; [by intros [= ->]|]. intros E. apply app_inv_head in E. by injection E as ->.
    + split; [done|]. intros E. apply app_inv_head in E. discriminate E.
  - split; [done|]. intros ->. destruct H. apply take_app_length.
Qed.

Section Walks.
Context {order : list (string * Obj) → list (string * Obj)}.
Hypothesis order_perm : ∀ l, order l ≡ₚ l.

Lemma elem_read_dir fs d n o : (n, o) ∈ read_dir order fs d ↔ fs !! d = Some ODir ∧ fs !! (d ++ [n]) = Some o.
Proof.
  unfold read_dir. destruct (fs !! d) as [[|? ? ?|?]|]; try (split; [intros H; by apply not_elem_of_nil in H|by intros [? _]]).
  rewrite (order_perm _), list_elem_of_omap. split.
  - intros ([p o'] & Hp%elem_of_map_to_list & H). destruct (child_name d p) as [m|] eqn:E; [|done].
    injection H as <- <-. apply child_name_spec in E as ->. done.
  - intros [_ H]. exists (d ++ [n], o). split; [by apply elem_of_map_to_list|].
    by rewrite (proj2 (child_name_spec d (d ++ [n]) n) eq_refl).
Qed.

Lemma children_NoDup (d : loc) (l : list (loc * Obj)) :
  NoDup l.*1 → NoDup (omap (λ '(p, o), match child_name d p with Some n => Some (n, o) | None => None end) l).*1.
Proof.
  induction l as [|[p o] l IH]; [constructor|]. cbn [fmap list_fmap fst]. intros [Hp Hl]%NoDup_cons. cbn [omap list_omap].
  destruct (child_name d p) as [n|] eqn:E; [|by apply IH].
  cbn. apply NoDup_cons. split; [|by apply IH]. intros ([m o'] & -> & Hin)%list_elem_of_fmap.
  apply list_elem_of_omap in Hin as ([q oq] & Hq & Eq). destruct (child_name d q) as [k|] eqn:Ek; [|done].
  injection Eq as -> ->. apply child_name_spec in E, Ek. cbn in E. subst p q. apply Hp.
  apply list_elem_of_fmap. by exists (d ++ [m], o').
Qed.

Lemma read_dir_NoDup fs d : NoDup (read_dir order fs d).*1.
Proof.
  unfold read_dir. destruct (fs !! d) as [[|? ? ?|?]|]; try constructor. rewrite (order_perm _).
  apply children_NoDup, NoDup_fst_map_to_list.
Qed.

Lemma elem_subdirs fs d c :
  c ∈ subdirs d (read_dir order fs d)
  ↔ ∃ n, c = d ++ [n] ∧ fs !! d = Some ODir ∧ fs !! c = Some ODir ∧ is_ignored_directory n = false.
Proof.
  unfold subdirs. rewrite list_elem_of_omap. split.
  - intros ([n o] & Hin & H). apply elem_read_dir in Hin as [Hd Ho]. destruct (is_dir o) eqn:Eo; [|done].
    destruct (is_ignored_directory n) eqn:Ei; [done|]. injection H as <-. exists n. destruct o; done.
  - intros (n & -> & Hd & Hc & Hi). exists (n, ODir). split; [by apply elem_read_dir|]. cbv beta iota. change (is_dir ODir) with true. by rewrite Hi.
Qed.

Lemma subdirs_NoDup d (es : list (string * Obj)) : NoDup es.*1 → NoDup (subdirs d es).
Proof.
  induction es as [|[n o] l IH]; [constructor|]. cbn [fmap list_fmap fst]. intros [Hn Hl]%NoDup_cons.
  unfold subdirs. cbn [omap list_omap]. fold (subdirs d l).
  destruct (is_dir o && negb (is_ignored_directory n)); [|by apply IH]. apply NoDup_cons. split; [|by apply IH].
  unfold subdirs. intros ([m o'] & Hin & E)%list_elem_of_omap. destruct (_ && _); [|done]. injection E as E.
  apply app_inv_head in E. injection E as ->. apply Hn. apply list_elem_of_fmap. by exists (n, o').
Qed.

(** The directories a scan reaches. *)
Inductive visible (fs : FS) (root : loc) : loc → Prop :=
| vis_root : fs !! root = Some ODir → visible fs root root
| vis_child d n :
    visible fs root d → fs !! (d ++ [n]) = Some ODir → is_ignored_directory n = false → visible fs root (d ++ [n]).

Definition same_dirs (fs fs' : FS) : Prop := ∀ p, fs !! p = Some ODir ↔ fs' !! p = Some ODir.

Lemma visible_dir fs root d : visible fs root d → fs !! d = Some ODir.
Proof. by destruct 1. Qed.

Lemma visible_same fs fs' root d : same_dirs fs fs' → visible fs root d → visible fs' root d.
Proof.
  intros H. induction 1 as [Hr|d n Hd IH Hn Hi]; [by apply vis_root, H|].
  apply vis_child; [done| |done]. by apply H.
Qed.

Lemma visible_prefix fs root d : visible fs root d → ∃ rel, d = root ++ rel ∧ Forall (λ n, is_ignored_directory n = false) rel.
Proof.
  induction 1 as [Hr|d n Hd (rel & -> & Hf) Hn Hi]; [exists []; by rewrite app_nil_r|].
  exists (rel ++ [n]). rewrite (assoc_L (++)). split; [done|]. apply Forall_app. by repeat constructor.
Qed.

Lemma same_dirs_sym fs fs' : same_dirs fs fs' → same_dirs fs' fs.
Proof. intros H p. by rewrite (H p). Qed.
Lemma same_dirs_trans fs1 fs2 fs3 : same_dirs fs1 fs2 → same_dirs fs2 fs3 → same_dirs fs1 fs3.
Proof. intros H1 H2 p. by rewrite (H1 p), (H2 p). Qed.

(** The state of a walk: the directories behind it and those on its stack. *)
Record WalkInv (fs : FS) (root : loc) (popped queue : list loc) : Prop := mk_walk_inv {
  w_nodup : NoDup (popped ++ queue);
  w_visible p : p ∈ popped ++ queue → visible fs root p;
  w_root : root ∈ popped ++ queue;
  w_closed d n : d ∈ popped → fs !! (d ++ [n]) = Some ODir → is_ignored_directory n = false → d ++ [n] ∈ popped ++ queue;
  w_parent p : p ∈ popped ++ queue → p = root ∨ ∃ d n, p = d ++ [n] ∧ d ∈ popped;
}.

Lemma walk_start fs root : fs !! root = Some ODir → WalkInv fs root [] [root].
Proof.
  intros Hr. split; cbn.
  - repeat constructor. by apply not_elem_of_nil.
  - intros p Hp%list_elem_of_singleton. subst p. by apply vis_root.
  - left.
  - intros d n H. by apply not_elem_of_nil in H.
  - intros p Hp%list_elem_of_singleton. by left.
Qed.

Lemma walk_next fs fs' root popped d queue :
  WalkInv fs root popped (d :: queue) → same_dirs fs fs' →
  WalkInv fs' root (popped ++ [d]) (rev (subdirs d (read_dir order fs d)) ++ queue).
Proof.
  intros [Hnd Hvis Hroot Hclosed Hpar] Hs. set (subs := subdirs d (read_dir order fs d)).
  assert (∀ p, p ∈ (popped ++ [d]) ++ rev subs ++ queue ↔ p ∈ popped ++ d :: queue ∨ p ∈ subs) as Hel.
  { intros p. rewrite !elem_of_app, !elem_of_cons, elem_of_nil, elem_of_rev. tauto. }
  assert (visible fs root d) as Hd by (apply Hvis, elem_of_app; right; left).
  assert (d ∉ popped) as Hdp.
  { apply NoDup_app in Hnd as (_ & Hx & _). intros H. apply (Hx d H). left. }
  assert (∀ c, c ∈ subs → c ∉ popped ++ d :: queue) as Hnew.
  { intros c (n & -> & _)%elem_subdirs Hin. destruct (Hpar _ Hin) as [E|(d' & m & E & Hd')].
    - apply visible_prefix in Hd as (rel & -> & _). rewrite <-(assoc_L (++)) in E.
      apply (f_equal length) in E. rewrite !length_app in E. cbn in E. lia.
    - apply app_inj_tail in E as [-> _]. done. }
  split.
  - rewrite <-(assoc_L (++)). apply NoDup_app in Hnd as (N1 & N2 & [N3 N4]%NoDup_cons). apply NoDup_app. split; [done|].
    split; [|cbn; apply NoDup_cons; split].
    + intros p Hp [Hq|Hq]%elem_of_app; [apply list_elem_of_singleton in Hq as ->; done|].
      apply elem_of_app in Hq as [Hq|Hq]; [|apply (N2 p Hp); by right].
      apply elem_of_rev_1, Hnew in Hq. apply Hq, elem_of_app. by left.
    + intros [Hq|Hq]%elem_of_app; [|done]. apply elem_of_rev_1, Hnew in Hq. apply Hq, elem_of_app. right. left.
    + apply NoDup_app. split; [apply NoDup_rev_list, subdirs_NoDup, read_dir_NoDup|]. split; [|done].
      intros p Hp%elem_of_rev_1 Hq. apply (Hnew p Hp), elem_of_app. right. by right.
  - intros p [Hp|Hp]%Hel; apply (visible_same _ _ _ _ Hs); [by apply Hvis|].
    apply elem_subdirs in Hp as (n & -> & _ & Hn & Hi). by apply vis_child.
  - apply Hel. by left.
  - intros p n [Hp|Hp%list_elem_of_singleton]%elem_of_app Hn Hi; apply Hs in Hn; apply Hel.
    + left. by apply Hclosed.
    + subst p. right. apply elem_subdirs. exists n. split; [done|]. split; [by apply (visible_dir fs root)|done].
  - intros p [Hp|Hp]%Hel.
    + destruct (Hpar p Hp) as [->|(d' & n & -> & Hd')]; [by left|]. right. exists d', n. split; [done|].
      apply elem_of_app. by left.
    + apply elem_subdirs in Hp as (n & -> & _). right. exists d, n. split; [done|]. apply elem_of_app. right. left.
Qed.

Lemma walk_end fs root popped : WalkInv fs root popped [] → ∀ d, visible fs root d ↔ d ∈ popped.
Proof.
  intros [Hnd Hvis Hroot Hclosed Hpar] d. rewrite app_nil_r in *. split; [|by apply Hvis].
  induction 1 as [Hr|p n Hp IHp Hn Hi]; [done|]. by apply Hclosed.
Qed.

Lemma walk_bound fs root popped queue : WalkInv fs root popped queue → (length popped ≤ size fs)%nat.
Proof.
  intros [Hnd Hvis _ _ _]. apply NoDup_app in Hnd as [Hnd _].
  assert (popped ⊆+ (map_to_list fs).*1) as Hs%submseteq_length.
  { apply NoDup_submseteq; [done|]. intros p Hp. assert (visible fs root p) as Hv by (apply Hvis, elem_of_app; by left).
    apply visible_dir in Hv. apply list_elem_of_fmap. exists (p, ODir). split; [done|]. by apply elem_of_map_to_list. }
  by rewrite length_fmap, length_map_to_list in Hs.
Qed.

(** The walk visits exactly the visible directories, each once; its visits may
    change the disk as long as they keep the directories. *)
Section Walk.
Context {St : Type} (disk : St → FS) (visit : St → loc → list (string * Obj) → St).
Hypothesis visit_dirs : ∀ st d, same_dirs (disk st) (disk (visit st d (read_dir order (disk st) d))).
Hypothesis visit_size : ∀ st d es, (size (disk (visit st d es)) ≤ size (disk st))%nat.
Context (root : loc).

Lemma walk_invariant fuel st queue popped :
  WalkInv (disk st) root popped queue → (size (disk st) < fuel + length popped)%nat →
  let '(st', ds) := walk order disk visit fuel st queue in
  NoDup (popped ++ ds) ∧ (∀ d, visible (disk st) root d ↔ d ∈ popped ++ ds) ∧ same_dirs (disk st) (disk st').
Proof.
  revert st queue popped. induction fuel as [|fuel IH]; intros st queue popped Hinv Hfuel; cbn [walk].
  - pose proof (walk_bound _ _ _ _ Hinv). lia.
  - destruct queue as [|d queue].
    + pose proof (walk_end _ _ _ Hinv) as He. pose proof (w_nodup _ _ _ _ Hinv) as Hn.
      rewrite app_nil_r in *. split; [done|]. by split.
    + set (es := read_dir order (disk st) d). pose proof (visit_dirs st d) as Hs. fold es in Hs.
      specialize (IH (visit st d es) (rev (subdirs d es) ++ queue) (popped ++ [d]) (walk_next _ _ _ _ _ _ Hinv Hs)).
      destruct (walk order disk visit fuel _ _) as [st' ds].
      rewrite <-(assoc_L (++)) in IH. cbn [app] in IH. destruct IH as (H1 & H2 & H3).
      { rewrite length_app. cbn. pose proof (visit_size st d es). lia. }
      split; [done|]. split; [|by eapply same_dirs_trans].
      intros p. rewrite <-H2. split; apply visible_same; [done|by apply same_dirs_sym].
Qed.

Lemma walk_visits st :
  (disk st) !! root = Some ODir →
  let '(st', ds) := walk order disk visit (walk_fuel (disk st)) st [root] in
  NoDup ds ∧ (∀ d, visible (disk st) root d ↔ d ∈ ds) ∧ same_dirs (disk st) (disk st').
Proof.
  intros Hr. pose proof (walk_invariant (walk_fuel (disk st)) st [root] [] (walk_start _ _ Hr)) as H.
  apply H. unfold walk_fuel. cbn. lia.
Qed.

(** What the visits leave is what they leave one after the other. *)
Lemma walk_folds fuel st queue :
  (walk order disk visit fuel st queue).1
  = foldl (λ st d, visit st d (read_dir order (disk st) d)) st (walk order disk visit fuel st queue).2.
Proof.
  revert st queue. induction fuel as [|fuel IH]; intros st [|d queue]; try done. cbn [walk].
  specialize (IH (visit st d (read_dir order (disk st) d)) (rev (subdirs d (read_dir order (disk st) d)) ++ queue)).
  by destruct (walk order disk visit fuel _ _).
Qed.
End Walk.
End Walks.

(** ** Lemmas: the archive of a snapshot *)

Lemma write_entries_app es1 es2 b1 b2 :
  write_entries es1 = WOk b1 → write_entries es2 = WOk b2 → write_entries (es1 ++ es2) = WOk (b1 ++ b2).
Proof.
  revert b1. induction es1 as [|[e mtime] es1 IH]; intros b1; cbn [write_entries app]; [by intros [= <-]|].
  destruct (write_tar_entry_with_mode _ _ _ _) as [b| |]; try done.
  destruct (write_entries es1) as [b'| |]; try done. intros [= <-] H2. rewrite (IH b' eq_refl H2). by rewrite (assoc_L (++)).
Qed.

Section Snap.
Context (readable : loc → bool) (project : loc) (max_bytes : Z).

(** The entry of one object of the directory [d]. *)
Definition item_entry (d : loc) (e : string * Obj) : option (TarEntry * Z) :=
  match e.2 with
  | OFile data mode mtime => Some (mk_entry (rel_str (drop (length project) (d ++ [e.1]))) data (Z.land mode 0x1ff), mtime)
  | _ => None
  end.

Lemma snap_stuck d s l :
  (∀ a c t, s ≠ SnapRunning a c t) → ∀ a c t, foldl (snap_entry readable project max_bytes d) s l ≠ SnapRunning a c t.
Proof.
  revert s. induction l as [|e l IH]; intros s Hs; [done|]. cbn [foldl]. apply IH.
  intros a c t. destruct s as [a' c' t'| | |]; try done. by destruct (Hs a' c' t').
Qed.

Lemma snap_inner d l a c t a' c' t' :
  (∀ p, readable p = true) →
  foldl (snap_entry readable project max_bytes d) (SnapRunning a c t) l = SnapRunning a' c' t' →
  ∃ b, write_entries (omap (item_entry d) l) = WOk b ∧ a' = a ++ b ∧ c' = (c + length (omap (item_entry d) l))%nat.
Proof.
  intros Hr. revert a c t. induction l as [|[n o] l IH]; intros a c t; cbn [foldl].
  - intros [= -> -> ->]. exists []. cbn. rewrite app_nil_r. split; [done|]. split; [done|lia].
  - unfold snap_entry at 2. cbn [fst snd omap list_omap item_entry].
    destruct o as [|data mode mtime|target]; [apply IH| |apply IH]. rewrite Hr. cbn [negb].
    destruct (max_bytes <? _); [intros H; exfalso; revert H; by apply snap_stuck|].
    destruct (write_tar_entry_with_mode _ _ _ _) as [b1| |] eqn:E1;
      [|intros H; exfalso; revert H; by apply snap_stuck..].
    intros (b & Eb & -> & ->)%IH. exists (b1 ++ b).
    change (item_entry d (n, OFile data mode mtime))
      with (Some (mk_entry (rel_str (drop (length project) (d ++ [n]))) data (Z.land mode 0x1ff), mtime)).
    cbn [write_entries e_name e_data e_mode]. rewrite E1, Eb. split; [done|]. split; [by rewrite (assoc_L (++))|cbn [length]; lia].
Qed.

Context {order : list (string * Obj) → list (string * Obj)}.

Definition snapshot_entries (fs : FS) (ds : list loc) : list (TarEntry * Z) :=
  ds ≫= λ d, omap (item_entry d) (read_dir order fs d).

Lemma outer_stuck fs ds s :
  (∀ a c t, s ≠ SnapRunning a c t) →
  ∀ a c t, foldl (λ s d, foldl (snap_entry readable project max_bytes d) s (read_dir order fs d)) s ds ≠ SnapRunning a c t.
Proof. revert s. induction ds as [|d ds IH]; intros s Hs; [done|]. cbn [foldl]. by apply IH, snap_stuck. Qed.

Lemma snap_outer fs ds a c t a' c' t' :
  (∀ p, readable p = true) →
  foldl (λ s d, foldl (snap_entry readable project max_bytes d) s (read_dir order fs d)) (SnapRunning a c t) ds
    = SnapRunning a' c' t' →
  ∃ b, write_entries (snapshot_entries fs ds) = WOk b ∧ a' = a ++ b ∧ c' = (c + length (snapshot_entries fs ds))%nat.
Proof.
  intros Hr. revert a c t. induction ds as [|d ds IH]; intros a c t; cbn [foldl].
  - intros [= -> -> ->]. exists []. cbn. rewrite app_nil_r. split; [done|]. split; [done|lia].
  - destruct (foldl (snap_entry readable project max_bytes d) _ _) as [a1 c1 t1| | |] eqn:E1.
    + apply snap_inner in E1 as (b1 & E1 & -> & ->); [|done].
      intros (b & Eb & -> & ->)%IH. exists (b1 ++ b). unfold snapshot_entries. cbn [mbind list_bind].
      split; [by apply write_entries_app|]. split; [by rewrite (assoc_L (++))|]. rewrite length_app. unfold snapshot_entries. lia.
    + intros H. exfalso. revert H. by apply outer_stuck.
    + intros H. exfalso. revert H. by apply outer_stuck.
    + intros H. exfalso. revert H. by apply outer_stuck.
Qed.
End Snap.

(** ** Lemmas: names *)

(** A name that survives the archive: one component, text, no NUL and no backslash. *)
Definition name_char (c : ascii) : bool := negb (Ascii.eqb c nul) && negb (Ascii.eqb c (chr 92)).
Definition good_name (n : string) : Prop :=
  name_ok n = true ∧ utf8 (bs n) ∧ all_chars name_char n = true.

Lemma join_utf8 rel : Forall good_name rel → utf8 (bs (join_with "/" rel)) ∧ all_chars name_char (join_with "/" rel) = true.
Proof.
  induction 1 as [|n rel (_ & Hu & Hc) Hr IH]; [split; [constructor|done]|]. destruct IH as [IHu IHc].
  destruct rel as [|m rel]; [done|]. change (join_with "/" (n :: m :: rel)) with (n +:+ "/" +:+ join_with "/" (m :: rel)).
  split; [|by rewrite !all_chars_app, Hc, IHc]. rewrite !bs_app. apply utf8_app; [done|]. apply utf8_app; [|done].
  apply utf8_ascii. by repeat constructor.
Qed.

Lemma rel_str_good rel : Forall good_name rel → rel_str rel = join_with "/" rel.
Proof.
  intros H. destruct (join_utf8 rel H) as [Hu Hc]. unfold rel_str, normalize_name.
  rewrite from_utf8_lossy_utf8 by done.
  assert (text (bs (join_with "/" rel)) = join_with "/" rel) as -> by apply string_of_list_ascii_of_string.
  apply (smap_id _ _ name_char); [|done]. intros c Hn. unfold slashes. unfold name_char in Hn.
  apply andb_true_iff in Hn as [_ Hn%negb_true_iff]. by rewrite Hn.
Qed.

Lemma join_nonempty rel : rel ≠ [] → Forall good_name rel → join_with "/" rel ≠ EmptyString.
Proof.
  intros Hne Hr. destruct rel as [|n rel]; [done|]. apply Forall_cons in Hr as [(Hn & _ & _) _].
  destruct n as [|c n]; [done|]. by destruct rel.
Qed.

Lemma rel_path_text rel : rel ≠ [] → Forall good_name rel → path_text (rel_str rel).
Proof.
  intros Hne Hr. rewrite rel_str_good by done. destruct (join_utf8 rel Hr) as [Hu Hc].
  split; [done|]. split; [|by apply join_nonempty].
  eapply Forall_impl; [by apply bs_chars|]. intros c Hn. unfold name_char in Hn. apply andb_true_iff in Hn as [Hn _].
  by apply Ascii.eqb_neq, negb_true_iff.
Qed.

Lemma rel_components rel : rel ≠ [] → Forall good_name rel → components (rel_str rel) = Normal <$> rel.
Proof.
  intros Hne Hr. rewrite rel_str_good by done.
  assert (join_with "/" rel = to_str (Normal <$> rel)) as ->.
  { destruct rel as [|n rel]; [done|]. cbn [fmap list_fmap to_str]. f_equal. cbn. f_equal.
    clear. induction rel as [|m rel IH]; [done|]. cbn. by rewrite <-IH. }
  apply components_to_str. unfold path_ok. apply andb_true_iff. split.
  - apply tail_ok_wf. unfold path_tail_ok. apply forallb_forall. intros c Hc.
    apply list_elem_of_In, list_elem_of_fmap in Hc as (n & -> & _). done.
  - apply forallb_forall. intros c Hc. apply list_elem_of_In, list_elem_of_fmap in Hc as (n & -> & Hn).
    rewrite Forall_forall in Hr. by apply (Hr n Hn).
Qed.

Lemma rel_clean rel : rel ≠ [] → Forall good_name rel →
  is_clean (rel_str rel) = true ∧ names_of (components (rel_str rel)) = rel.
Proof.
  intros Hne Hr. unfold is_clean. rewrite rel_components by done. split.
  - destruct rel as [|n rel]; [done|]. cbn [fmap list_fmap is_absolute is_root negb andb].
    apply negb_true_iff. apply not_true_iff_false. rewrite existsb_true. intros (c & Hc & Hp).
    apply (list_elem_of_fmap Normal (n :: rel)) in Hc as (m & -> & _). done.
  - clear. induction rel as [|n rel IH]; [done|]. cbn in *. unfold names_of in IH. by rewrite IH.
Qed.

Lemma rel_str_inj r1 r2 : r1 ≠ [] → r2 ≠ [] → Forall good_name r1 → Forall good_name r2 → rel_str r1 = rel_str r2 → r1 = r2.
Proof.
  intros N1 N2 G1 G2 E. destruct (rel_clean r1 N1 G1) as [_ <-], (rel_clean r2 N2 G2) as [_ <-]. by rewrite E.
Qed.

Lemma normalize_rel rel : Forall good_name rel → normalize_name (rel_str rel) = rel_str rel.
Proof.
  intros Hg. rewrite rel_str_good by done. unfold normalize_name. apply (smap_id _ _ name_char); [|by apply join_utf8].
  intros c Hc. unfold slashes, name_char in *. apply andb_true_iff in Hc as [_ Hc%negb_true_iff]. by rewrite Hc.
Qed.
