(* ===== verification/Rollback.v ===== *)
(** * Rollback: the project restored from its snapshot

    Model of [rollback_session] and [atomic_commit_bytes_with_mode]
    ([src/src/rescue/rollback.rs]) on the store of [Snapshot].  Removals and writes
    succeed. *)

From Stdlib Require Import Sorting.Sorted.
From S2P Require Import Prelude Paths Bytes Utf8 Tar Snapshot.

Definition remove_tree (p : loc) (fs : FS) : FS := filter (λ '(q, _), ¬ p `prefix_of` q) fs.
Definition prefixes (p : loc) : list loc := (λ k, take k p) <$> seq 1 (length p).

Section Disk.
(** The order in which a directory is listed. *)
Variable order : list (string * Obj) → list (string * Obj).

(** ** The rollback *)

(** The object a path names when links in it are followed, all but its last name. *)
Fixpoint locate (links : nat) (fs : FS) (done rest : loc) {struct links} : option loc :=
  let fix go (done rest : loc) {struct rest} : option loc :=
    match rest with
    | [] => Some done
    | [n] => Some (done ++ [n])
    | n :: rest =>
        match fs !! (done ++ [n]) with
        | Some ODir => go (done ++ [n]) rest
        | Some (OLink target) => match links with S links => locate links fs [] (target ++ rest) | O => None end
        | _ => None
        end
    end in
  go done rest.
Definition MAX_LINKS : nat := 40.

(** A link or a directory where a file is to be. *)
Definition clear_target (out : loc) (fs : FS) : FS :=
  match fs !! out with
  | Some (OLink _) => delete out fs
  | Some ODir => remove_tree out fs
  | _ => fs
  end.

Definition clear_ancestor (fs : FS) (p : loc) : FS :=
  match fs !! p with Some ODir | None => fs | _ => delete p fs end.
Definition make_dir (fs : FS) (p : loc) : FS :=
  match fs !! p with Some _ => fs | None => <[p := ODir]> fs end.

(** [atomic_commit_bytes_with_mode]: the rename puts the whole file in place. *)
Definition atomic_commit_bytes_with_mode (now : Z) (out : loc) (data : bytes) (mode : Z) (fs : FS) : FS :=
  let parent := removelast out in
  let fs := foldl clear_ancestor fs (prefixes parent) in
  let fs := foldl make_dir fs (prefixes parent) in
  let fs := clear_target out fs in
  <[out := OFile data mode now]> fs.

Record Restored : Type := mk_restored { disk : FS; tracked : list string; bytes_restored : Z }.

Definition restore_entry (now : Z) (dest : loc) (r : Restored) (e : TarEntry) : Restored :=
  if negb (is_clean (e_name e)) then r
  else
    let rel := names_of (components (e_name e)) in
    let out := dest ++ rel in
    let fs := match locate MAX_LINKS (disk r) [] out with
              | Some p => clear_target p (disk r)
              | None => disk r
              end in
    mk_restored (atomic_commit_bytes_with_mode now out (e_data e) (e_mode e) fs)
      (tracked r ++ [e_name e]) (bytes_restored r + Z.of_nat (length (e_data e))).

(** [snapshot_files.contains(rel)], paths being equal as components, or the same text. *)
Definition is_tracked (tracked : list string) (rel : loc) : bool :=
  existsb (λ p, bool_decide (components p = Normal <$> rel) || String.eqb (normalize_name p) (rel_str rel)) tracked.

(** Remove what the snapshot does not know; the state counts the removals. *)
Definition remove_untracked (dest : loc) (tracked : list string) (d : loc) (st : FS * Z) (e : string * Obj) : FS * Z :=
  let path := d ++ [e.1] in
  if is_dir e.2 || is_tracked tracked (drop (length dest) path) then st
  else (delete path st.1, st.2 + 1).

Definition has_child (fs : FS) (d : loc) : bool :=
  existsb (λ '(p, _), bool_decide (is_Some (child_name d p))) (map_to_list fs).
Definition remove_if_empty (fs : FS) (d : loc) : FS :=
  match fs !! d with Some ODir => if has_child fs d then fs else delete d fs | _ => fs end.

(** [sort_by(|a, b| b.cmp(a))]. *)
Fixpoint insert_desc (p : loc) (l : list loc) : list loc :=
  match l with
  | [] => [p]
  | q :: l' => match compare_path (Normal <$> p) (Normal <$> q) with
               | Lt => q :: insert_desc p l'
               | _ => p :: l
               end
  end.
Definition sort_desc (l : list loc) : list loc := foldr insert_desc [] l.

Record RollbackResult : Type := mk_rollback {
  files_restored : nat; restored_bytes : Z; files_deleted : Z; result : FS;
}.

(** [rollback_session] once archive and destination are known; [None] is an archive
    that ends in the middle of an entry, with the disk as the entries before it left it. *)
Definition rollback (now : Z) (dest : loc) (archive : bytes) (fs : FS) : RollbackResult + FS :=
  let '(es, ok) := read_archive archive in
  let r := foldl (restore_entry now dest) (mk_restored (foldl make_dir fs (prefixes dest)) [] 0) es in
  if negb ok then inr (disk r)
  else
    let '((fs, deleted), dirs) :=
      walk order fst (λ st d es, foldl (remove_untracked dest (tracked r) d) st es) (walk_fuel (disk r)) (disk r, 0) [dest] in
    let fs := foldl remove_if_empty fs (sort_desc (tail dirs)) in
    inl (mk_rollback (length (tracked r)) (bytes_restored r) deleted fs).
End Disk.

(** ** Lemmas: the disk *)

Lemma elem_prefixes p q : q ∈ prefixes p ↔ q ≠ [] ∧ q `prefix_of` p.
Proof.
  unfold prefixes. rewrite list_elem_of_fmap. split.
  - intros (k & -> & Hk%elem_of_seq). split; [|apply prefix_take].
    intros E. apply (f_equal length) in E. rewrite length_take in E. cbn in E. lia.
  - intros [Hn [r ->]]. exists (length q). rewrite take_app_length. split; [done|]. apply elem_of_seq.
    rewrite length_app. destruct q; [done|]. cbn. lia.
Qed.

Lemma removelast_snoc (p : loc) n : removelast (p ++ [n]) = p.
Proof. apply removelast_last. Qed.

Lemma prefix_parent (q p : loc) n : q `prefix_of` p ↔ q `prefix_of` p ++ [n] ∧ q ≠ p ++ [n].
Proof.
  split.
  - intros [r ->]. split; [by exists (r ++ [n]); rewrite (assoc_L (++))|]. intros E. apply (f_equal length) in E.
    rewrite !length_app in E. cbn in E. lia.
  - intros [[r E] Hne]. destruct r as [|m r _] using rev_ind; [rewrite app_nil_r in E; congruence|].
    rewrite (assoc_L (++)) in E. apply app_inj_tail in E as [-> _]. by exists r.
Qed.

Lemma remove_tree_lookup p fs q : remove_tree p fs !! q = if bool_decide (p `prefix_of` q) then None else fs !! q.
Proof.
  unfold remove_tree. rewrite map_lookup_filter. case_bool_decide as H; destruct (fs !! q) as [o|] eqn:E; cbn; try done.
  - by rewrite option_guard_False by auto.
  - by rewrite option_guard_True by done.
Qed.

Lemma clear_target_other out fs q : ¬ out `prefix_of` q → clear_target out fs !! q = fs !! q.
Proof.
  intros H. unfold clear_target. destruct (fs !! out) as [[|? ? ?|?]|]; try done.
  - rewrite remove_tree_lookup. by rewrite bool_decide_false.
  - rewrite lookup_delete_ne; [done|]. by intros ->.
Qed.

Lemma clear_ancestor_lookup fs p q :
  clear_ancestor fs p !! q = match fs !! q with
                             | Some o => if bool_decide (q = p) && negb (is_dir o) then None else Some o
                             | None => None
                             end.
Proof.
  unfold clear_ancestor. destruct (decide (q = p)) as [->|Hne].
  - rewrite (bool_decide_true (p = p)) by done. destruct (fs !! p) as [[|? ? ?|?]|] eqn:E; cbn; rewrite ?E; try done; by rewrite lookup_delete_eq.
  - rewrite (bool_decide_false (q = p)) by done. cbn. destruct (fs !! p) as [[|? ? ?|?]|] eqn:E; rewrite ?lookup_delete_ne by done; by destruct (fs !! q).
Qed.

Lemma make_dir_lookup fs p q :
  make_dir fs p !! q = match fs !! q with Some o => Some o | None => if bool_decide (q = p) then Some ODir else None end.
Proof.
  unfold make_dir. destruct (decide (q = p)) as [->|Hne].
  - rewrite (bool_decide_true (p = p)) by done. destruct (fs !! p) as [o|] eqn:E; [by rewrite E|]. by rewrite lookup_insert_eq.
  - rewrite (bool_decide_false (q = p)) by done. destruct (fs !! p) as [o|] eqn:E; [by destruct (fs !! q)|].
    rewrite lookup_insert_ne by done. by destruct (fs !! q).
Qed.

Lemma clear_ancestors_lookup fs ps q :
  foldl clear_ancestor fs ps !! q = match fs !! q with
                                    | Some o => if bool_decide (q ∈ ps) && negb (is_dir o) then None else Some o
                                    | None => None
                                    end.
Proof.
  revert fs. induction ps as [|p ps IH]; intros fs; cbn [foldl]; [by destruct (fs !! q)|].
  rewrite IH, clear_ancestor_lookup. destruct (fs !! q) as [o|]; [|done].
  destruct (decide (q = p)) as [->|Hne].
  - rewrite (bool_decide_true (p = p)), (bool_decide_true (p ∈ p :: ps)) by (done || left).
    destruct o; cbn; rewrite ?andb_false_r; done.
  - rewrite (bool_decide_false (q = p)) by done. cbn [andb].
    assert (bool_decide (q ∈ p :: ps) = bool_decide (q ∈ ps)) as -> by (apply bool_decide_ext; rewrite elem_of_cons; tauto). done.
Qed.

Lemma make_dirs_lookup fs ps q :
  foldl make_dir fs ps !! q = match fs !! q with Some o => Some o | None => if bool_decide (q ∈ ps) then Some ODir else None end.
Proof.
  revert fs. induction ps as [|p ps IH]; intros fs; cbn [foldl]; [by destruct (fs !! q)|].
  rewrite IH, make_dir_lookup. destruct (fs !! q) as [o|]; [done|].
  destruct (decide (q = p)) as [->|Hne].
  - by rewrite (bool_decide_true (p = p)), (bool_decide_true (p ∈ p :: ps)) by (done || left).
  - rewrite (bool_decide_false (q = p)) by done.
    assert (bool_decide (q ∈ p :: ps) = bool_decide (q ∈ ps)) as -> by (apply bool_decide_ext; rewrite elem_of_cons; tauto). done.
Qed.

(** What a commit leaves of the disk: the file, directories above it, and everything
    that is neither above nor below. *)
Lemma commit_lookup now p n data mode fs q :
  let out := p ++ [n] in
  let fs' := atomic_commit_bytes_with_mode now out data mode fs in
  (q = out → fs' !! q = Some (OFile data mode now))
  ∧ (q ∈ prefixes p → fs' !! q = Some ODir)
  ∧ (¬ out `prefix_of` q → q ∉ prefixes p → fs' !! q = fs !! q).
Proof.
  cbv zeta. unfold atomic_commit_bytes_with_mode. rewrite removelast_snoc.
  assert (q ∈ prefixes p → q ≠ p ++ [n] ∧ ¬ p ++ [n] `prefix_of` q) as Hq.
  { intros [_ Hq]%elem_prefixes. apply (prefix_parent q p n) in Hq as [[r Hr] Hne]. split; [done|]. intros [r' ->].
    rewrite <-(assoc_L (++)) in Hr. apply Hne. apply (f_equal length) in Hr. rewrite !length_app in Hr. cbn in Hr.
    destruct r'; [by rewrite app_nil_r|cbn in Hr; lia]. }
  split; [intros ->; by rewrite lookup_insert_eq|]. split.
  - intros Hin. destruct (Hq Hin) as [Hne Hnp]. rewrite lookup_insert_ne by done. rewrite clear_target_other by done.
    rewrite make_dirs_lookup, clear_ancestors_lookup. rewrite (bool_decide_true (q ∈ prefixes p)) by done.
    destruct (fs !! q) as [[|? ? ?|?]|]; done.
  - intros Hnp Hni. rewrite lookup_insert_ne by (by intros <-; apply Hnp). rewrite clear_target_other by done.
    rewrite make_dirs_lookup, clear_ancestors_lookup. rewrite (bool_decide_false (q ∈ prefixes p)) by done.
    by destruct (fs !! q).
Qed.

Lemma locate_step links fs done n m rest :
  locate links fs done (n :: m :: rest)
  = match fs !! (done ++ [n]) with
    | Some ODir => locate links fs (done ++ [n]) (m :: rest)
    | Some (OLink target) => match links with S links => locate links fs [] (target ++ m :: rest) | O => None end
    | _ => None
    end.
Proof. by destruct links. Qed.

(** Without links on the way a path names what it says. *)
Lemma locate_plain links fs done rest n :
  (∀ q, q ∈ prefixes rest → ∀ t, fs !! (done ++ q) ≠ Some (OLink t)) →
  locate links fs done (rest ++ [n]) = Some (done ++ rest ++ [n]) ∨ locate links fs done (rest ++ [n]) = None.
Proof.
  revert done. induction rest as [|m rest IH]; intros done Hl; [left; by destruct links|].
  assert (∃ k r, rest ++ [n] = k :: r) as (k & r & E) by (destruct rest; by eexists _, _).
  change ((m :: rest) ++ [n]) with (m :: (rest ++ [n])). rewrite E, locate_step, <-E.
  assert (∀ t, fs !! (done ++ [m]) ≠ Some (OLink t)) as Hm.
  { apply Hl, elem_prefixes. split; [done|]. by exists rest. }
  destruct (fs !! (done ++ [m])) as [[|? ? ?|t]|] eqn:Em; [|by right|by destruct (Hm t)|by right].
  specialize (IH (done ++ [m])). rewrite <-!(assoc_L (++)) in IH. cbn [app] in IH. apply IH.
  intros q [Hq [r' ->]]%elem_prefixes t. rewrite <-(assoc_L (++)). apply (Hl (m :: q)), elem_prefixes. split; [done|]. by exists r'.
Qed.

(** ** Lemmas: restoring *)

Lemma prefix_app_cases (q a b : loc) : q `prefix_of` a ++ b → q `prefix_of` a ∨ ∃ q', q = a ++ q' ∧ q' `prefix_of` b.
Proof.
  revert q. induction a as [|x a IH]; intros q; cbn [app]; [right; by exists q|].
  destruct q as [|y q]; [left; apply prefix_nil|]. intros H. pose proof (prefix_cons_inv_1 _ _ _ _ H) as ->.
  apply prefix_cons_inv_2, IH in H as [H|(q' & -> & H)]; [left; by apply prefix_cons|right; by exists q'].
Qed.

Lemma prefix_app_inv (a b c : loc) : a ++ b `prefix_of` a ++ c → b `prefix_of` c.
Proof. intros [r E]. rewrite <-(assoc_L (++)) in E. apply app_inv_head in E. by exists r. Qed.

Lemma not_prefix_longer (p : loc) n : ¬ p ++ [n] `prefix_of` p.
Proof. intros H%prefix_length. rewrite length_app in H. cbn in H. lia. Qed.

(** A file of a snapshot. *)
Record Item : Type := mk_item { i_rel : loc; i_data : bytes; i_mode : Z }.
#[export] Instance Item_eq_dec : EqDecision Item.
Proof. solve_decision. Defined.
Definition item_tar (i : Item) : TarEntry := mk_entry (rel_str (i_rel i)) (i_data i) (i_mode i).

Section Restore.
Context (now : Z) (dest : loc) (fs1 : FS) (items : list Item).
Hypothesis names : ∀ i, i ∈ items → i_rel i ≠ [] ∧ Forall good_name (i_rel i).
(** No file of the snapshot lies under another. *)
Hypothesis apart : ∀ i j, i ∈ items → j ∈ items → i_rel i `prefix_of` i_rel j → i = j.
(** The disk has no link where the snapshot has a directory. *)
Definition no_links (fs : FS) : Prop :=
  ∀ i q, i ∈ items → q `prefix_of` i_rel i → q ≠ i_rel i → ∀ t, fs !! (dest ++ q) ≠ Some (OLink t).
Definition above (fs : FS) : Prop := ∀ q, q `prefix_of` dest → fs !! q = Some ODir.

Record RestoreInv (done : list Item) (fs : FS) : Prop := mk_restore_inv {
  ri_files i : i ∈ done → fs !! (dest ++ i_rel i) = Some (OFile (i_data i) (i_mode i) now);
  ri_above : above fs;
  ri_links : no_links fs;
  ri_outside q : ¬ dest `prefix_of` q → fs !! q = fs1 !! q;
}.

(** One entry: the file and the directories above it; what is neither above nor below
    stays. *)
Lemma restore_lookup r i rel n q :
  i ∈ items → i_rel i = rel ++ [n] → above (disk r) → no_links (disk r) →
  let fs' := disk (restore_entry now dest r (item_tar i)) in
  let out := dest ++ i_rel i in
  (q = out → fs' !! q = Some (OFile (i_data i) (i_mode i) now))
  ∧ (q ∈ prefixes (dest ++ rel) → fs' !! q = Some ODir)
  ∧ (¬ out `prefix_of` q → q ∉ prefixes (dest ++ rel) → fs' !! q = disk r !! q).
Proof.
  intros Hi Er Ha Hl. cbv zeta. destruct (names i Hi) as [Hne Hg]. destruct (rel_clean _ Hne Hg) as [Hc Hn].
  unfold restore_entry, item_tar. cbn [e_name e_data e_mode]. rewrite Hc, Hn. cbn [negb]. cbv zeta. cbn [disk].
  assert (∀ l, locate l (disk r) [] (dest ++ i_rel i) = Some (dest ++ i_rel i) ∨ locate l (disk r) [] (dest ++ i_rel i) = None) as Hloc.
  { intros l. rewrite Er, (assoc_L (++)).
    destruct (locate_plain l (disk r) [] (dest ++ rel) n) as [E|E]; [|by left|by right].
    intros p [_ Hp]%elem_prefixes t. cbn [app]. apply prefix_app_cases in Hp as [Hp|(p' & -> & Hp)]; [by rewrite (Ha _ Hp)|].
    destruct (proj1 (prefix_parent p' rel n) Hp) as [Hp1 Hp2]. apply (Hl i); [done|by rewrite Er..]. }
  destruct (commit_lookup now (dest ++ rel) n (i_data i) (i_mode i)
    (match locate MAX_LINKS (disk r) [] (dest ++ i_rel i) with Some p => clear_target p (disk r) | None => disk r end) q)
    as (H1 & H2 & H3). cbv zeta in H1, H2, H3. rewrite <-(assoc_L (++)), <-Er in H1, H2, H3.
  split; [done|]. split; [done|]. intros Hq Hp. rewrite (H3 Hq Hp).
  destruct (Hloc MAX_LINKS) as [-> | ->]; [by rewrite clear_target_other|done].
Qed.

Lemma restore_step done r i :
  i ∈ items → done ⊆ items → RestoreInv done (disk r) →
  RestoreInv (done ++ [i]) (disk (restore_entry now dest r (item_tar i))).
Proof.
  intros Hi Hd [Hf Ha Hl Ho].
  destruct (exists_last (proj1 (names i Hi))) as (rel & n & Er).
  pose proof (λ q, restore_lookup r i rel n q Hi Er Ha Hl) as HL. cbv zeta in HL. split.
  - intros j [Hj|Hj%list_elem_of_singleton]%elem_of_app; [|subst j; by apply HL].
    destruct (decide (j = i)) as [->|Hne]; [by apply HL|]. rewrite <-(Hf j Hj). apply HL.
    + intros Hp%prefix_app_inv. by rewrite (apart i j Hi (Hd j Hj) Hp) in Hne.
    + intros [_ Hp]%elem_prefixes. apply prefix_app_inv in Hp. apply Hne, (apart j i (Hd j Hj) Hi).
      rewrite Er. by apply (proj1 (prefix_parent _ _ n)).
  - intros q Hq. destruct (decide (q = [])) as [->|Hn].
    + destruct (HL []) as (_ & _ & ->); [by apply Ha| |by intros [? _]%elem_prefixes].
      intros Hp%prefix_nil_inv. apply (f_equal length) in Hp. rewrite length_app, Er, length_app in Hp. cbn in Hp. lia.
    + apply HL, elem_prefixes. split; [done|]. by apply prefix_app_r.
  - intros j q Hj Hq Hne t E. destruct (decide (dest ++ q ∈ prefixes (dest ++ rel))) as [Hin|Hin].
    + by rewrite (proj1 (proj2 (HL _)) Hin) in E.
    + assert (¬ dest ++ i_rel i `prefix_of` dest ++ q) as Hp.
      { intros Hp%prefix_app_inv. pose proof (apart i j Hi Hj (transitivity Hp Hq)) as ->.
        apply Hne. by apply (anti_symm prefix). }
      rewrite (proj2 (proj2 (HL _)) Hp Hin) in E. by apply (Hl j q Hj Hq Hne t).
  - intros q Hq. destruct (decide (q ∈ prefixes (dest ++ rel))) as [Hin|Hin].
    + rewrite (proj1 (proj2 (HL _)) Hin). apply elem_prefixes in Hin as [_ [Hp|(q' & -> & _)]%prefix_app_cases].
      * rewrite <-Ho by done. symmetry. by apply Ha.
      * destruct Hq. by exists q'.
    + rewrite (proj2 (proj2 (HL _))); [by apply Ho| |done]. intros [r' ->]. apply Hq. rewrite <-(assoc_L (++)). by eexists.
Qed.

Lemma restore_all done r l :
  done ++ l = items → RestoreInv done (disk r) → tracked r = rel_str ∘ i_rel <$> done →
  let r' := foldl (restore_entry now dest) r (item_tar <$> l) in
  RestoreInv items (disk r') ∧ tracked r' = rel_str ∘ i_rel <$> items.
Proof.
  revert done r. induction l as [|i l IH]; intros done r E Hinv Ht; cbn [fmap list_fmap foldl].
  - rewrite app_nil_r in E. by subst done.
  - assert (i ∈ items) as Hi by (rewrite <-E; apply elem_of_app; right; left).
    apply (IH (done ++ [i])).
    + by rewrite <-(assoc_L (++)).
    + apply restore_step; [done| |done]. intros j Hj. rewrite <-E. apply elem_of_app. by left.
    + destruct (names i Hi) as [Hne Hg]. destruct (rel_clean _ Hne Hg) as [Hc _].
      unfold restore_entry, item_tar. cbn [e_name]. rewrite Hc. cbn [negb tracked]. by rewrite Ht, fmap_app.
Qed.
End Restore.

(** ** Lemmas: the clean-up *)

Section Cleanup.
Context {order : list (string * Obj) → list (string * Obj)}.
Hypothesis order_perm : ∀ l, order l ≡ₚ l.
Context (dest : loc) (tr : list string).

(** What the clean-up takes. *)
Definition lost (q : loc) (o : Obj) : Prop := is_dir o = false ∧ is_tracked tr (drop (length dest) q) = false.
Definition clean_dir (st : FS * Z) (d : loc) (es : list (string * Obj)) : FS * Z :=
  foldl (remove_untracked dest tr d) st es.

Lemma remove_fold d l st q o :
  (clean_dir st d l).1 !! q = Some o
  ↔ st.1 !! q = Some o ∧ ∀ e, e ∈ l → lost (d ++ [e.1]) e.2 → q ≠ d ++ [e.1].
Proof.
  unfold clean_dir. revert st. induction l as [|e l IH]; intros st; cbn [foldl].
  { split; [|tauto]. intros H. split; [done|]. intros e He. by apply not_elem_of_nil in He. }
  rewrite IH. unfold remove_untracked at 1. setoid_rewrite elem_of_cons.
  destruct (is_dir e.2 || is_tracked tr (drop (length dest) (d ++ [e.1]))) eqn:E; cbn [fst].
  - split; (intros [H1 H2]; split; [done|]); [|by auto]. intros e' [->|He'] Hl; [|by auto].
    destruct Hl as [L1 L2]. by rewrite L1, L2 in E.
  - apply orb_false_iff in E. rewrite lookup_delete_Some. split.
    + intros [[Hne H1] H2]. split; [done|]. intros e' [->|He'] Hl; [congruence|by auto].
    + intros [H1 H2]. split; [split; [|done]|by auto]. intros E'. by apply (H2 e (or_introl eq_refl)).
Qed.

Lemma clean_dir_lookup st d q o :
  (clean_dir st d (read_dir order st.1 d)).1 !! q = Some o
  ↔ st.1 !! q = Some o ∧ ¬ (lost q o ∧ st.1 !! d = Some ODir ∧ ∃ n, q = d ++ [n]).
Proof.
  rewrite remove_fold. split; intros [H1 H2]; (split; [done|]).
  - intros (Hl & Hd & n & ->). apply (H2 (n, o)); [by apply (elem_read_dir order_perm)|done|done].
  - intros [n o'] [Hd Ho]%(elem_read_dir order_perm) Hl ->. cbn [fst snd] in *. rewrite Ho in H1. injection H1 as ->.
    apply H2. split; [done|]. split; [done|]. by exists n.
Qed.

Lemma clean_dir_dirs st d : same_dirs st.1 (clean_dir st d (read_dir order st.1 d)).1.
Proof. intros p. rewrite clean_dir_lookup. split; [|tauto]. intros H. split; [done|]. by intros [[? _] _]. Qed.

Lemma clean_dir_size st d es : (size (clean_dir st d es).1 ≤ size st.1)%nat.
Proof.
  apply map_subseteq_size, map_subseteq_spec. intros q o [H _]%remove_fold. done.
Qed.

Lemma clean_dirs_lookup ds st q o :
  (∀ d, d ∈ ds → st.1 !! d = Some ODir) →
  (foldl (λ st d, clean_dir st d (read_dir order st.1 d)) st ds).1 !! q = Some o
  ↔ st.1 !! q = Some o ∧ ¬ (lost q o ∧ ∃ d n, d ∈ ds ∧ q = d ++ [n]).
Proof.
  revert st. induction ds as [|d ds IH]; intros st Hd; cbn [foldl].
  - split; [|tauto]. intros H. split; [done|]. intros (_ & d & n & Hin & _). by apply not_elem_of_nil in Hin.
  - rewrite IH by (intros p Hp; apply (clean_dir_dirs st d), Hd; by right).
    rewrite clean_dir_lookup. assert (st.1 !! d = Some ODir) as E by (apply Hd; left).
    setoid_rewrite elem_of_cons. split.
    + intros [[H1 H2] H3]. split; [done|]. intros (Hl & p & n & [->|Hp] & Hq); [by apply H2; eauto|by apply H3; eauto 6].
    + intros [H1 H2]. split; [split; [done|]|].
      * intros (Hl & _ & n & Hq). apply H2. eauto 6.
      * intros (Hl & p & n & Hp & Hq). apply H2. eauto 7.
Qed.
End Cleanup.

Lemma has_child_spec fs d : has_child fs d = true ↔ ∃ n o, fs !! (d ++ [n]) = Some o.
Proof.
  unfold has_child. rewrite existsb_true. split.
  - intros ([p o] & Hin%elem_of_map_to_list & [n Hn%child_name_spec]%bool_decide_eq_true). subst p. eauto.
  - intros (n & o & E). exists (d ++ [n], o). split; [by apply elem_of_map_to_list|].
    apply bool_decide_eq_true. exists n. by apply child_name_spec.
Qed.

Lemma remove_if_empty_lookup fs d q o :
  remove_if_empty fs d !! q = Some o ↔ fs !! q = Some o ∧ (q = d → o = ODir → has_child fs d = true).
Proof.
  unfold remove_if_empty. destruct (fs !! d) as [[|? ? ?|?]|] eqn:E; try (split; [|tauto]; intros H; split; [done|]; intros -> ->; congruence).
  destruct (has_child fs d) eqn:Ec; [tauto|]. rewrite lookup_delete_Some. split.
  - intros [Hne H]. split; [done|]. congruence.
  - intros [H Hd]. split; [|done]. intros <-. rewrite E in H. injection H as <-. by specialize (Hd eq_refl eq_refl).
Qed.

Lemma remove_empty_sub ds fs q o : foldl remove_if_empty fs ds !! q = Some o → fs !! q = Some o.
Proof. revert fs. induction ds as [|d ds IH]; intros fs; [done|]. cbn [foldl]. by intros [H _]%IH%remove_if_empty_lookup. Qed.

Lemma remove_empty_keeps ds fs q o : fs !! q = Some o → o ≠ ODir ∨ q ∉ ds → foldl remove_if_empty fs ds !! q = Some o.
Proof.
  revert fs. induction ds as [|d ds IH]; intros fs Hq Ho; [done|]. cbn [foldl]. apply IH.
  - apply remove_if_empty_lookup. split; [done|]. intros -> ->. destruct Ho as [Ho|Ho]; [done|]. destruct Ho. left.
  - destruct Ho as [Ho|Ho]; [by left|right]. intros H. apply Ho. by right.
Qed.

(** Children come before their parents. *)
Definition children_first (ds : list loc) : Prop := StronglySorted (λ d c, ¬ ∃ n, c = d ++ [n]) ds.

Lemma no_empty_left ds fs d :
  children_first ds → d ∈ ds → foldl remove_if_empty fs ds !! d = Some ODir →
  ∃ n o, foldl remove_if_empty fs ds !! (d ++ [n]) = Some o.
Proof.
  intros Hs. revert fs. induction Hs as [|p ds Hs IH Hp]; intros fs Hin Hd; [by apply not_elem_of_nil in Hin|].
  cbn [foldl] in *. destruct (decide (d ∈ ds)) as [Hd'|Hd']; [by apply IH|].
  apply elem_of_cons in Hin as [->|Hin]; [|done].
  pose proof (remove_empty_sub _ _ _ _ Hd) as Hc. apply remove_if_empty_lookup in Hc as [Hfs Hc].
  specialize (Hc eq_refl eq_refl). apply has_child_spec in Hc as (n & o & Hn). exists n, o.
  apply remove_empty_keeps.
  - apply remove_if_empty_lookup. split; [done|]. intros E. by destruct (not_prefix_longer p n); rewrite E.
  - right. intros Hin. rewrite Forall_forall in Hp. apply (Hp _ Hin). by exists n.
Qed.

(** ** Lemmas: the order of the clean-up *)

Definition loc_le (p q : loc) : Prop := compare_path (Normal <$> p) (Normal <$> q) ≠ Gt.

Lemma insert_desc_elem p l q : q ∈ insert_desc p l ↔ q = p ∨ q ∈ l.
Proof.
  induction l as [|r l IH]; cbn [insert_desc]; [by rewrite list_elem_of_singleton, elem_of_nil; tauto|].
  destruct (compare_path _ _); rewrite !elem_of_cons, ?IH; tauto.
Qed.

Lemma sort_desc_elem l q : q ∈ sort_desc l ↔ q ∈ l.
Proof. induction l as [|p l IH]; [done|]. cbn [sort_desc foldr]. rewrite insert_desc_elem, elem_of_cons. unfold sort_desc in IH. by rewrite IH. Qed.

Lemma loc_le_trans p q r : loc_le p q → loc_le q r → loc_le p r.
Proof.
  unfold loc_le. intros H1 H2.
  destruct (compare_path (Normal <$> p) (Normal <$> q)) eqn:E1; [apply compare_path_eq in E1 as ->; done| |done].
  destruct (compare_path (Normal <$> q) (Normal <$> r)) eqn:E2; [apply compare_path_eq in E2 as <-; by rewrite E1| |done].
  by rewrite (path_lt_trans _ _ _ E1 E2).
Qed.

Lemma insert_desc_sorted p l : StronglySorted (flip loc_le) l → StronglySorted (flip loc_le) (insert_desc p l).
Proof.
  induction 1 as [|q l Hs IH Hf]; cbn [insert_desc]; [repeat constructor|].
  destruct (compare_path (Normal <$> p) (Normal <$> q)) eqn:E.
  1,3: assert (loc_le q p) as Hq by (unfold loc_le; by rewrite compare_path_antisym, E);
    (constructor; [by constructor|]; constructor; [done|]); eapply Forall_impl; [exact Hf|];
    intros r Hr; by apply (loc_le_trans r q p).
  constructor; [done|]. apply Forall_forall. intros r [->|Hr]%insert_desc_elem.
  - unfold flip, loc_le. by rewrite E.
  - rewrite Forall_forall in Hf. by apply Hf.
Qed.

Lemma child_not_le d n : ¬ loc_le (d ++ [n]) d.
Proof.
  unfold loc_le. rewrite fmap_app. generalize (Normal <$> d). intros p H. apply H. clear H.
  induction p as [|c p IH]; [done|]. cbn. by rewrite compare_component_refl.
Qed.

Lemma sort_desc_children l : children_first (sort_desc l).
Proof.
  assert (StronglySorted (flip loc_le) (sort_desc l)) as H.
  { induction l as [|p l IH]; [constructor|]. by apply insert_desc_sorted. }
  unfold children_first. induction H as [|d l' Hs IH Hf]; [constructor|]. constructor; [done|].
  eapply Forall_impl; [exact Hf|]. cbn. intros c Hc [n ->]. by apply (child_not_le d n).
Qed.

(** ** Lemmas: the files of a snapshot *)

(** The file [rel] of the project, which a scan of it reaches. *)
Definition snapshot_file (fs : FS) (project rel : loc) (data : bytes) (mode : Z) : Prop :=
  ∃ d n mtime, visible fs project d ∧ project ++ rel = d ++ [n] ∧ fs !! (project ++ rel) = Some (OFile data mode mtime).

Lemma visible_above fs root d q : visible fs root d → root `prefix_of` q → q `prefix_of` d → fs !! q = Some ODir.
Proof.
  induction 1 as [Hr|d n Hd IH Hn Hi]; intros H1 H2.
  - by rewrite (anti_symm prefix q root H2 H1).
  - destruct (decide (q = d ++ [n])) as [->|Hne]; [done|]. apply IH; [done|]. by apply (prefix_parent q d n).
Qed.

Lemma file_nonempty fs project rel data mode : snapshot_file fs project rel data mode → rel ≠ [].
Proof.
  intros (d & n & mt & Hv & E & _) ->. rewrite app_nil_r in E. apply visible_prefix in Hv as (rel & -> & _).
  apply (f_equal length) in E. rewrite !length_app in E. cbn in E. lia.
Qed.

Section Files.
Context {order : list (string * Obj) → list (string * Obj)}.
Hypothesis order_perm : ∀ l, order l ≡ₚ l.
Context (project : loc) (fs : FS).

Definition item_of (d : loc) (e : string * Obj) : option Item :=
  match e.2 with
  | OFile data mode _ => Some (mk_item (drop (length project) (d ++ [e.1])) data (Z.land mode 0x1ff))
  | _ => None
  end.
Definition snapshot_items (ds : list loc) : list Item := ds ≫= λ d, omap (item_of d) (read_dir order fs d).

Lemma item_entry_of d e : kept ∘ fst <$> item_entry project d e = item_tar <$> item_of d e.
Proof.
  destruct e as [n [|data mode mtime|t]]; [done| |done]. cbn. f_equal. unfold kept, item_tar. cbn. f_equal.
  by rewrite <-Z.land_assoc.
Qed.

Lemma entries_items ds : kept ∘ fst <$> snapshot_entries project (order := order) fs ds = item_tar <$> snapshot_items ds.
Proof.
  unfold snapshot_entries, snapshot_items. induction ds as [|d ds IH]; [done|]. cbn [mbind list_bind].
  rewrite !fmap_app, IH. f_equal. induction (read_dir order fs d) as [|e l IHl]; [done|].
  cbn [omap list_omap]. pose proof (item_entry_of d e) as E.
  destruct (item_entry project d e) as [x|], (item_of d e) as [y|]; cbn in E; try done.
  apply (inj Some) in E. rewrite !fmap_cons, IHl. f_equal. exact E.
Qed.

Lemma elem_items ds i :
  (∀ d, visible fs project d ↔ d ∈ ds) →
  i ∈ snapshot_items ds ↔ ∃ mode, snapshot_file fs project (i_rel i) (i_data i) mode ∧ i_mode i = Z.land mode 0x1ff.
Proof.
  intros Hds. unfold snapshot_items. rewrite list_elem_of_bind. split.
  - intros (d & Hi & Hd). apply list_elem_of_omap in Hi as ([n o] & [Ho1 Ho]%(elem_read_dir order_perm) & E).
    destruct o as [|data mode mtime|t]; try done. injection E as <-. cbn [i_rel i_data i_mode fst].
    exists mode. split; [|done]. apply Hds in Hd. destruct (visible_prefix _ _ _ Hd) as (rel & -> & _).
    exists (project ++ rel), n, mtime. rewrite <-(assoc_L (++)), drop_app_length in *. by rewrite (assoc_L (++)) in *.
  - intros (mode & (d & n & mtime & Hd & E & Hf) & Em). exists d. split; [|by apply Hds].
    apply list_elem_of_omap. exists (n, OFile (i_data i) mode mtime). split.
    + apply (elem_read_dir order_perm). split; [by apply (visible_dir _ project)|]. by rewrite <-E.
    + unfold item_of. cbn [snd fst]. rewrite <-E, drop_app_length, <-Em. by destruct i.
Qed.

Lemma file_apart i j ds :
  (∀ d, visible fs project d ↔ d ∈ ds) →
  i ∈ snapshot_items ds → j ∈ snapshot_items ds → i_rel i `prefix_of` i_rel j → i = j.
Proof.
  intros Hds (mi & (di & ni & ti & Vi & Ei & Fi) & Mi)%elem_items (mj & (dj & nj & tj & Vj & Ej & Fj) & Mj)%elem_items Hp; [|done..].
  destruct (decide (i_rel i = i_rel j)) as [E|Hne].
  - rewrite E, Fj in Fi. injection Fi as Ed Em _. destruct i, j. cbn in *. congruence.
  - assert (fs !! (project ++ i_rel i) = Some ODir) as Hd.
    + apply (visible_above fs project dj); [done|by apply prefix_app_r|]. apply (prefix_parent _ _ nj). split.
      * rewrite <-Ej. by apply prefix_app.
      * rewrite <-Ej. intros E%app_inv_head. done.
    + by rewrite Fi in Hd.
Qed.
End Files.

Lemma create_snapshot_entries order project max_bytes fs archive count total :
  (∀ l, order l ≡ₚ l) → fs !! project = Some ODir →
  create_snapshot order (λ _, true) false fs project max_bytes = SnapDone archive count total →
  ∃ ds b, (∀ d, visible fs project d ↔ d ∈ ds) ∧ archive = b ++ END_OF_ARCHIVE
  ∧ write_entries (snapshot_entries project (order := order) fs ds) = WOk b
  ∧ count = length (snapshot_items (order := order) project fs ds).
Proof.
  intros Ho Hp. unfold create_snapshot.
  set (visit := λ s d es, foldl (snap_entry (λ _, true) project max_bytes d) s es).
  assert (∀ s : Snapshot, ∀ d : loc, same_dirs fs fs) as Hs by done.
  pose proof (walk_visits Ho (λ _ : Snapshot, fs) visit (λ st d, Hs st d) (λ _ _ _, le_n _) project (SnapRunning [] 0 0) Hp) as Hw.
  pose proof (walk_folds (order := order) (λ _ : Snapshot, fs) visit (walk_fuel fs) (SnapRunning [] 0 0) [project]) as Hf.
  destruct (walk order (λ _ : Snapshot, fs) visit (walk_fuel fs) (SnapRunning [] 0 0) [project]) as [s ds].
  cbn [fst snd] in *. destruct Hw as (_ & Hv & _). intros H. destruct s as [a c t| | |]; try done. injection H as <- <- _.
  symmetry in Hf. apply snap_outer in Hf as (b & Hb & -> & ->); [|done]. exists ds, b. split; [done|]. split; [done|].
  split; [done|]. pose proof (f_equal length (entries_items (order := order) project fs ds)) as El.
  rewrite !length_fmap in El. cbn. lia.
Qed.

(** A completed snapshot reads back as the files of the project. *)
Lemma snapshot_reads_back order project max_bytes fs archive count total :
  (∀ l, order l ≡ₚ l) → fs !! project = Some ODir →
  (∀ rel data mode, snapshot_file fs project rel data mode → Forall good_name rel) →
  create_snapshot order (λ _, true) false fs project max_bytes = SnapDone archive count total →
  ∃ ds, let items := snapshot_items (order := order) project fs ds in
    (∀ d, visible fs project d ↔ d ∈ ds) ∧ read_archive archive = (item_tar <$> items, true) ∧ count = length items
    ∧ ∀ i, i ∈ items → i_rel i ≠ [] ∧ Forall good_name (i_rel i).
Proof.
  intros Ho Hp Hg Hs. destruct (create_snapshot_entries _ _ _ _ _ _ _ Ho Hp Hs) as (ds & b & Hds & -> & Hb & ->).
  exists ds. cbv zeta. set (items := snapshot_items (order := order) project fs ds).
  assert (∀ i, i ∈ items → i_rel i ≠ [] ∧ Forall good_name (i_rel i)) as Hn.
  { intros i (mode & Hf & _)%(elem_items Ho project fs ds i Hds). split; [by eapply file_nonempty|by eapply Hg]. }
  split; [done|]. split; [|done]. unfold items.
  rewrite <-(entries_items (order := order) project fs ds), <-(app_nil_r END_OF_ARCHIVE).
  unfold read_archive. apply read_written; [|done|rewrite !length_app; lia].
  assert (Forall (λ e, path_text (e_name e)) (kept ∘ fst <$> snapshot_entries project (order := order) fs ds)) as Hf.
  { rewrite entries_items. apply Forall_fmap, Forall_forall. intros i H. destruct (Hn i H). by apply rel_path_text. }
  rewrite Forall_fmap in Hf. eapply Forall_impl; [exact Hf|]. by intros [e mt].
Qed.

Lemma visible_mono fs fs' root d : (∀ p, fs !! p = Some ODir → fs' !! p = Some ODir) → visible fs root d → visible fs' root d.
Proof. intros H. induction 1 as [Hr|d n Hd IH Hn Hi]; [by apply vis_root, H|apply vis_child; auto]. Qed.

Lemma walk_head (order : list (string * Obj) → list (string * Obj)) {St} (dk : St → FS) visit n st root :
  ∃ ds, (walk order dk visit (S n) st [root]).2 = root :: ds.
Proof. cbn [walk]. destruct (walk order dk visit n _ _) as [s ds]. by exists ds. Qed.

(** What the clean-up leaves of the disk [fs]. *)
Record Cleaned (dest : loc) (tr : list string) (fs fs' : FS) : Prop := mk_cleaned {
  cl_tracked q o : fs !! q = Some o → o ≠ ODir → is_tracked tr (drop (length dest) q) = true → fs' !! q = Some o;
  cl_sub q o : fs' !! q = Some o → fs !! q = Some o;
  cl_visible d n o :
    visible fs' dest d → fs' !! (d ++ [n]) = Some o → o ≠ ODir → is_tracked tr (drop (length dest) (d ++ [n])) = true;
  cl_outside q : ¬ dest `prefix_of` q → fs' !! q = fs !! q;
  cl_nonempty d : visible fs' dest d → d ≠ dest → ∃ n o, fs' !! (d ++ [n]) = Some o;
}.

Lemma cleanup_spec order dest tr fs :
  (∀ l, order l ≡ₚ l) → fs !! dest = Some ODir →
  let '((fs2, _), dirs) := walk order fst (clean_dir dest tr) (walk_fuel fs) (fs, 0) [dest] in
  Cleaned dest tr fs (foldl remove_if_empty fs2 (sort_desc (tail dirs))).
Proof.
  intros Ho Hd.
  pose proof (walk_visits Ho fst (clean_dir dest tr) (clean_dir_dirs Ho dest tr) (clean_dir_size dest tr) dest (fs, 0) Hd) as Hw.
  pose proof (walk_folds (order := order) fst (clean_dir dest tr) (walk_fuel fs) (fs, 0) [dest]) as Hf.
  destruct (walk_head order fst (clean_dir dest tr) (size fs) (fs, 0) dest) as (ds & Hh).
  change (S (size fs)) with (walk_fuel fs) in Hh. cbn [fst] in Hw.
  destruct (walk order fst (clean_dir dest tr) (walk_fuel fs) (fs, 0) [dest]) as [[fs2 k] dirs]. cbn [fst snd] in *. subst dirs.
  destruct Hw as (Hn & Hv & Hsame). cbn [tail]. apply NoDup_cons in Hn as [Hn _].
  assert (∀ q o, fs2 !! q = Some o ↔ fs !! q = Some o ∧ ¬ (lost dest tr q o ∧ ∃ d n, d ∈ dest :: ds ∧ q = d ++ [n])) as HL.
  { intros q o. pose proof (clean_dirs_lookup Ho dest tr (dest :: ds) (fs, 0) q o) as H. rewrite <-Hf in H. apply H.
    intros d Hd'%Hv. by apply (visible_dir _ dest). }
  assert (∀ q o, foldl remove_if_empty fs2 (sort_desc ds) !! q = Some o → fs !! q = Some o) as Hsub.
  { intros q o H%remove_empty_sub. by apply HL in H as [H _]. }
  assert (∀ d, visible (foldl remove_if_empty fs2 (sort_desc ds)) dest d → d ∈ dest :: ds) as Hvis.
  { intros d H. apply Hv. revert H. apply visible_mono. intros p. apply Hsub. }
  split; [| done | | |].
  - intros q o Hq Hne Ht. apply remove_empty_keeps; [|by left]. apply HL. split; [done|]. intros [[_ L] _]. congruence.
  - intros d n o Hdv Hq Hne. apply remove_empty_sub, HL in Hq as [_ Hl].
    destruct (is_tracked tr (drop (length dest) (d ++ [n]))) eqn:E; [done|]. destruct Hl.
    split; [by destruct o|]. exists d, n. split; [by apply Hvis|done].
  - intros q Hq. destruct (fs !! q) as [o|] eqn:E.
    + assert (∀ p, p ∈ dest :: ds → dest `prefix_of` p) as Hp.
      { intros p Hp. apply Hv in Hp. destruct (visible_prefix _ _ _ Hp) as (rel & -> & _). by exists rel. }
      apply remove_empty_keeps.
      * apply HL. split; [done|]. intros (_ & d & n & Hin & ->). by apply Hq, prefix_app_r, Hp.
      * right. intros Hin. apply (sort_desc_elem ds q) in Hin. apply Hq, Hp. by right.
    + destruct (foldl remove_if_empty fs2 (sort_desc ds) !! q) as [o|] eqn:E'; [|done]. by rewrite (Hsub _ _ E') in E.
  - intros d Hdv Hne. apply no_empty_left; [apply sort_desc_children| |by apply (visible_dir _ dest)].
    apply sort_desc_elem. apply Hvis, elem_of_cons in Hdv as [->|Hin]; done.
Qed.

Lemma make_dirs_above fs dest : above dest fs → foldl make_dir fs (prefixes dest) = fs.
Proof.
  intros Ha. apply map_eq. intros q. rewrite make_dirs_lookup. destruct (fs !! q) as [o|] eqn:E; [done|].
  case_bool_decide as H; [|done]. apply elem_prefixes in H as [_ H]. by rewrite (Ha q H) in E.
Qed.

(** ** The project comes back *)

(** What an undo leaves: the files of the project as they were, up to their time and
    the bits above the permissions; no file the project did not have; of what is new
    since the snapshot only directories with something in them; and everything outside
    the project as it is.  A name that a scan reads with [\ ] for [/] counts as the
    file it spells. *)
Definition same_text (before : FS) (project rel : loc) : Prop :=
  ∃ rel' data mode, snapshot_file before project rel' data mode ∧ rel_str rel' = rel_str rel.
Record Restores (now : Z) (project : loc) (before during after : FS) : Prop := mk_restores {
  rs_back rel data mode :
    snapshot_file before project rel data mode → after !! (project ++ rel) = Some (OFile data (Z.land mode 0x1ff) now);
  rs_files rel data mode : snapshot_file after project rel data mode → same_text before project rel;
  rs_added d n o :
    visible after project d → after !! (d ++ [n]) = Some o → before !! (d ++ [n]) = None →
    same_text before project (drop (length project) (d ++ [n]))
    ∨ o = ODir ∧ (is_ignored_directory n = true ∨ ∃ m o', after !! (d ++ [n; m]) = Some o');
  rs_outside q : ¬ project `prefix_of` q → after !! q = during !! q;
}.

Lemma is_tracked_names (items : list Item) rel :
  (∀ i, i ∈ items → i_rel i ≠ [] ∧ Forall good_name (i_rel i)) →
  is_tracked (rel_str ∘ i_rel <$> items) rel = true ↔ ∃ i, i ∈ items ∧ rel_str (i_rel i) = rel_str rel.
Proof.
  intros Hn. unfold is_tracked. rewrite existsb_true.
  assert (∀ i, i ∈ items → normalize_name (rel_str (i_rel i)) = rel_str (i_rel i)) as Hnorm.
  { intros i Hi. by apply normalize_rel, Hn. }
  split.
  - intros (p & (i & -> & Hi)%list_elem_of_fmap & H). exists i. split; [done|].
    cbn [compose] in H. apply orb_true_iff in H as [H|H].
    + apply bool_decide_eq_true in H. destruct (Hn i Hi) as [Hne Hg]. cbn in H. rewrite rel_components in H by done.
      assert (Inj eq eq Normal) by (by intros ? ? [= ->]). apply (list_fmap_eq_inj Normal) in H; [|done]. by rewrite H.
    + apply String.eqb_eq in H. cbn in H. by rewrite Hnorm in H.
  - intros (i & Hi & E). exists (rel_str (i_rel i)). split; [apply list_elem_of_fmap; by exists i|].
    apply orb_true_iff. right. apply String.eqb_eq. by rewrite Hnorm.
Qed.

Lemma rollback_items order now project archive (items : list Item) fs :
  (∀ l, order l ≡ₚ l) → above project fs →
  read_archive archive = (item_tar <$> items, true) →
  (∀ i, i ∈ items → i_rel i ≠ [] ∧ Forall good_name (i_rel i)) →
  (∀ i j, i ∈ items → j ∈ items → i_rel i `prefix_of` i_rel j → i = j) →
  no_links project items fs →
  ∃ res mid, rollback order now project archive fs = inl res ∧ files_restored res = length items
  ∧ RestoreInv now project fs items items mid ∧ Cleaned project (rel_str ∘ i_rel <$> items) mid (result res).
Proof.
  intros Ho Ha Hr Hn Hap Hl. unfold rollback. rewrite Hr, (make_dirs_above fs project Ha). cbn [negb].
  pose proof (restore_all now project fs items Hn Hap [] (mk_restored fs [] 0) items eq_refl) as HR.
  cbn [disk tracked] in HR. destruct HR as [Hinv Ht]; [|done|].
  { split; [intros i Hi; by apply not_elem_of_nil in Hi|done..]. }
  set (r := foldl (restore_entry now project) (mk_restored fs [] 0) (item_tar <$> items)) in *.
  assert (disk r !! project = Some ODir) as Hd by by apply (ri_above _ _ _ _ _ _ Hinv).
  pose proof (cleanup_spec order project (tracked r) (disk r) Ho Hd) as HC. unfold clean_dir in HC.
  destruct (walk order fst _ _ _ _) as [[fs2 k] dirs]. eexists _, (disk r). split; [done|].
  cbn [files_restored result]. rewrite <-Ht. split; [by rewrite Ht, length_fmap|done].
Qed.

Lemma rollback_restores order order' now project before during max_bytes archive count total :
  (∀ l, order l ≡ₚ l) → (∀ l, order' l ≡ₚ l) →
  before !! project = Some ODir →
  (∀ rel data mode, snapshot_file before project rel data mode → Forall good_name rel) →
  create_snapshot order (λ _, true) false before project max_bytes = SnapDone archive count total →
  above project during →
  (∀ rel data mode q t, snapshot_file before project rel data mode → q `prefix_of` rel → q ≠ rel →
     during !! (project ++ q) ≠ Some (OLink t)) →
  ∃ res, rollback order' now project archive during = inl res ∧ files_restored res = count
         ∧ Restores now project before during (result res).
Proof.
  intros Ho Ho' Hp Hg Hs Ha Hl.
  destruct (snapshot_reads_back _ _ _ _ _ _ _ Ho Hp Hg Hs) as (ds & Hds & Hr & -> & Hn).
  set (items := snapshot_items (order := order) project before ds) in *.
  assert (∀ i, i ∈ items → ∃ mode, snapshot_file before project (i_rel i) (i_data i) mode ∧ i_mode i = Z.land mode 0x1ff) as Hi.
  { intros i H. by apply (elem_items Ho project before ds i Hds) in H. }
  destruct (rollback_items order' now project _ items during Ho' Ha Hr Hn) as (res & mid & Hres & Hc & [Rf _ _ Rout] & HC).
  - intros i j. by apply (file_apart Ho project before i j ds).
  - intros i q (mode & Hf & _)%Hi Hq Hne t. by eapply Hl.
  - exists res. split; [done|]. split; [done|].
    assert (∀ d n o, visible (result res) project d → result res !! (d ++ [n]) = Some o → o ≠ ODir →
      same_text before project (drop (length project) (d ++ [n]))) as Honly.
    { intros d n o Hv Hq Hne. pose proof (cl_visible _ _ _ _ HC d n o Hv Hq Hne) as Ht.
      apply is_tracked_names in Ht as (i & (mode & Hf & _)%Hi & E); [|done]. by exists (i_rel i), (i_data i), mode. }
    split.
    + intros rel data mode Hf. assert (mk_item rel data (Z.land mode 0x1ff) ∈ items) as Hin.
      { apply (elem_items Ho project before ds _ Hds). by exists mode. }
      apply (cl_tracked _ _ _ _ HC); [by apply (Rf _ Hin)|done|]. apply is_tracked_names; [done|].
      exists (mk_item rel data (Z.land mode 0x1ff)). by rewrite drop_app_length.
    + intros rel data mode (d & n & mt & Hv & E & Hf). rewrite E in Hf.
      rewrite <-(drop_app_length project rel), E. by eapply Honly.
    + intros d n o Hv Hq _. destruct o as [|? ? ?|?]; [right|left; by eapply Honly..].
      split; [done|]. destruct (is_ignored_directory n) eqn:Ei; [by left|right].
      assert (visible (result res) project (d ++ [n])) as Hv' by (by apply vis_child).
      destruct (cl_nonempty _ _ _ _ HC _ Hv') as (m & o' & Hm).
      * intros E. apply visible_prefix in Hv as (rel & -> & _). rewrite <-(assoc_L (++)) in E.
        apply (f_equal length) in E. rewrite !length_app in E. cbn in E. lia.
      * exists m, o'. by rewrite <-(assoc_L (++)) in Hm.
    + intros q Hq. rewrite (cl_outside _ _ _ _ HC) by done. by apply Rout.
Qed.


Definition demo_disk (l : list (loc * Obj)) : FS := list_to_map l.
Definition demo_before : FS := demo_disk
  [([], ODir); (["home"], ODir); (["home"; "p"], ODir); (["home"; "p"; "a.txt"], OFile (bs "one") 0x1a4 17);
   (["home"; "p"; "src"], ODir); (["home"; "p"; "src"; "main.rs"], OFile (bs "fn main() {}") 0x9ed 1700000000);
   (["home"; "p"; ".git"], ODir); (["home"; "p"; ".git"; "HEAD"], OFile (bs "ref") 0x1a4 3);
   (["home"; "notes"], OFile (bs "mine") 0x180 5)].
(** A file is replaced by a directory, a directory by a file, and new ones appear. *)
Definition demo_during : FS := demo_disk
  [([], ODir); (["home"], ODir); (["home"; "p"], ODir); (["home"; "p"; "a.txt"], ODir);
   (["home"; "p"; "a.txt"; "x"], OFile (bs "two") 0x1a4 18); (["home"; "p"; "src"], OFile (bs "three") 0x1a4 19);
   (["home"; "p"; "new"], ODir); (["home"; "p"; "new"; "deep"], ODir); (["home"; "p"; "new"; "deep"; "link"], OLink ["home"; "notes"]);
   (["home"; "p"; ".git"], ODir); (["home"; "p"; ".git"; "HEAD"], OFile (bs "moved") 0x1a4 20);
   (["home"; "notes"], OFile (bs "mine") 0x180 5)].

Lemma demo_files rel data mode :
  snapshot_file demo_before ["home"; "p"] rel data mode →
  rel = ["a.txt"] ∨ rel = ["src"; "main.rs"].
Proof.
  intros (d & n & mt & Hv & E & Hf%elem_of_list_to_map_2).
  repeat (apply elem_of_cons in Hf as [Hf|Hf]; [try discriminate; injection Hf as H _ _ _; subst; auto|]);
    [|by apply not_elem_of_nil in Hf].
  exfalso. change (["home"; "p"; ".git"; "HEAD"] = d ++ [n]) in E.
  change ["home"; "p"; ".git"; "HEAD"] with (["home"; "p"; ".git"] ++ ["HEAD"]) in E. apply app_inj_tail in E as [<- _].
  apply visible_prefix in Hv as (rel & E & Hi). injection E as <-. by apply Forall_cons in Hi as [Hi _].
Qed.

Lemma demo_above : above ["home"; "p"] demo_during.
Proof.
  intros q Hq. assert (q ∈ [] :: prefixes ["home"; "p"]) as Hin.
  { destruct q as [|n q]; [left|right]. apply (proj2 (elem_prefixes _ _)). by split. }
  clear Hq. change (q ∈ [[]; ["home"]; ["home"; "p"]]) in Hin. repeat (apply elem_of_cons in Hin as [->|Hin]; [reflexivity|]). exfalso. by apply not_elem_of_nil in Hin.
Qed.

Lemma demo_links rel data mode q t :
  snapshot_file demo_before ["home"; "p"] rel data mode → q `prefix_of` rel → q ≠ rel →
  demo_during !! (["home"; "p"] ++ q) ≠ Some (OLink t).
Proof.
  intros Hf Hq Hne Ht. apply elem_of_list_to_map_2 in Ht.
  repeat (apply elem_of_cons in Ht as [Ht|Ht]; [try discriminate Ht; injection Ht as Ht _|]); [|by apply not_elem_of_nil in Ht].
  destruct (demo_files _ _ _ Hf) as [-> | ->]; subst q; apply prefix_length in Hq; cbn in Hq; lia.
Qed.


(** ** Where the project does not come back *)

(** The disk a rollback leaves of [during], after a snapshot of [before] that ended or
    stopped half-way. *)
Definition undone (readable : loc → bool) (before during : FS) : option FS :=
  let run archive := match rollback id 99 ["home"; "p"] archive during with inl r => Some (result r) | inr _ => None end in
  match create_snapshot id readable false before ["home"; "p"] DEFAULT_MAX_SNAPSHOT_SIZE with
  | SnapDone archive _ _ | SnapLeft archive _ => run archive
  | _ => None
  end.
Definition demo_home (l : list (loc * Obj)) : FS := demo_disk ([([], ODir); (["home"], ODir); (["home"; "p"], ODir)] ++ l).

(** The test before a file is written follows links above it: with a directory of the
    project replaced by a link, a directory outside the project is removed with all it
    holds. *)
Lemma undo_deletes_outside :
  let before := demo_home [(["home"; "p"; "sub"], ODir); (["home"; "p"; "sub"; "docs"], OFile (bs "x") 0x1a4 1);
                           (["home"; "docs"], ODir); (["home"; "docs"; "letter"], OFile (bs "dear") 0x180 2)] in
  let during := demo_home [(["home"; "p"; "sub"], OLink ["home"]);
                           (["home"; "docs"], ODir); (["home"; "docs"; "letter"], OFile (bs "dear") 0x180 2)] in
  match undone (λ _, true) before during with
  | Some after => after !! ["home"; "docs"; "letter"] = None ∧ after !! ["home"; "docs"] = None
  | None => False
  end.
Proof. vm_compute. done. Qed.

(** Nothing happens between snapshot and rollback, and links, files that could not be
    read and empty directories of the project are gone. *)
Lemma undo_deletes_untouched :
  let disk := demo_home [(["home"; "p"; "a"], OFile (bs "x") 0x1a4 1); (["home"; "p"; "link"], OLink ["home"; "p"; "a"]);
                         (["home"; "p"; "key"], OFile (bs "k") 0 1); (["home"; "p"; "empty"], ODir)] in
  match undone (λ p, negb (bool_decide (p = ["home"; "p"; "key"]))) disk disk with
  | Some after =>
      after !! ["home"; "p"; "a"] = Some (OFile (bs "x") 0x1a4 99) ∧ after !! ["home"; "p"; "link"] = None
      ∧ after !! ["home"; "p"; "key"] = None ∧ after !! ["home"; "p"; "empty"] = None
  | None => False
  end.
Proof. vm_compute. done. Qed.

(** A snapshot that stops at a name it cannot write leaves its archive in place: a
    rollback to it deletes every file behind that name. *)
Lemma undo_of_partial_deletes :
  let disk := demo_home [(["home"; "p"; text (replicate 101 "x"%char)], OFile (bs "x") 0x1a4 1);
                         (["home"; "p"; "a"], OFile (bs "work") 0x1a4 1)] in
  match undone (λ _, true) disk disk with
  | Some after => after !! ["home"; "p"; "a"] = None
  | None => False
  end.
Proof. vm_compute. done. Qed.
