(* ===== verification/Undo.v ===== *)
(** * Undo: which snapshot is rolled back, and what a disposable session leaves

    Model of [list_snapshots_in] ([src/src/rescue/snapshot.rs]), the session half of
    [rollback_session] ([src/src/rescue/rollback.rs]), [run_undo]
    ([src/src/cli/undo.rs]) and [src/src/rescue/ephemeral.rs] over a store of
    snapshots.  The current directory, the clock, the reply of the user and the
    directory listings are arguments. *)

From Stdlib Require Import Sorting.Sorted.
From S2P Require Import Prelude Paths Bytes Utf8 Tar Snapshot Rollback.

(** ** The store *)

Record SnapshotMetadata : Type := mk_meta {
  session_id : string; created_at : string; project_dir : loc; archive_file : loc;
  file_count : nat; total_size_bytes : Z;
}.

(** [metadata.json]: missing, not readable as metadata, or read. *)
Inductive MetaFile : Type := NoMeta | BadMeta | Meta (m : SnapshotMetadata).

(** The directory of a session under [~/.vetto/snapshots]. *)
Record SnapDir : Type := mk_snap_dir { snap_archive : option bytes; snap_meta : MetaFile }.
Abbreviation Store := (gmap string SnapDir).

Inductive UndoErr : Type := ListFailed | NoSnapshots | NoSession | NoArchive | NotFound | Truncated.

(** The order of [list_snapshots_in]: newest first, then by session, backwards. *)
Definition meta_cmp (a b : SnapshotMetadata) : comparison :=
  match String.compare (created_at b) (created_at a) with
  | Eq => String.compare (session_id b) (session_id a)
  | o => o
  end.
Fixpoint insert_meta (m : SnapshotMetadata) (l : list SnapshotMetadata) : list SnapshotMetadata :=
  match l with
  | [] => [m]
  | n :: l' => match meta_cmp m n with Gt => n :: insert_meta m l' | _ => m :: l end
  end.
Definition sort_metas (l : list SnapshotMetadata) : list SnapshotMetadata := foldr insert_meta [] l.

Section Undo.
(** Listings of the project and of the store. *)
Variable order : list (string * Obj) → list (string * Obj).
Variable store_order : list (string * SnapDir) → list (string * SnapDir).
Variable now : Z.
Variable cwd : loc.
Variable canonicalize : loc → option loc.
(** A session may also name an archive: its bytes and the metadata beside it. *)
Variable direct : string → option (bytes * MetaFile).

Definition listed (store : Store) : list SnapshotMetadata :=
  omap (λ '(_, d), match snap_meta d with Meta m => Some m | _ => None end) (store_order (map_to_list store)).

(** [failures] of the first reads of the directory fail; three are tried. *)
Definition list_snapshots_in (root_exists : bool) (failures : nat) (store : Store) : UndoErr + list SnapshotMetadata :=
  if negb root_exists then inr []
  else if (failures <? 3)%nat then inr (sort_metas (listed store))
  else inl ListFailed.

(** ** [rollback_session] *)

Definition meta_project (m : MetaFile) : loc := match m with Meta m => project_dir m | _ => cwd end.

Definition session_source (store : Store) (session : string) : UndoErr + (bytes * loc) :=
  match direct session with
  | Some (archive, m) => inr (archive, meta_project m)
  | None =>
      match store !! session with
      | None => inl NoSession
      | Some d => match snap_archive d with
                  | None => inl NoArchive
                  | Some archive => inr (archive, meta_project (snap_meta d))
                  end
      end
  end.

Definition rollback_session (store : Store) (session : string) (target_dir_override : option loc) (fs : FS)
    : (UndoErr + RollbackResult) * FS :=
  match session_source store session with
  | inl e => (inl e, fs)
  | inr (archive, project) =>
      match rollback order now (default project target_dir_override) archive fs with
      | inl res => (inr res, result res)
      | inr fs => (inl Truncated, fs)
      end
  end.

(** ** [run_undo] *)

Record UndoArgs : Type := mk_undo_args { u_session : option string; u_list : bool; u_dry_run : bool; u_target : option loc }.

Inductive Undone : Type :=
| Listed (l : list SnapshotMetadata)
| Previewed (target : loc) (files : list (string * Z))
| Undone_ok (res : RollbackResult).

(** Metadata made up for a session that is not listed; only its session and project are
    used. *)
Definition bare_meta (session : string) (archive : loc) : SnapshotMetadata := mk_meta session EmptyString cwd archive 0 0.

(** The snapshot the arguments mean, of those listed. *)
Definition in_cwd (m : SnapshotMetadata) : bool :=
  bool_decide (project_dir m = cwd)
  || match canonicalize (project_dir m) with
     | Some p => bool_decide (p = default cwd (canonicalize cwd))
     | None => false
     end.
Definition choose (store : Store) (snapshots : list SnapshotMetadata) (req : option string) : UndoErr + SnapshotMetadata :=
  match req with
  | Some id =>
      match List.find (λ s, String.eqb (session_id s) id) snapshots with
      | Some s => inr s
      | None =>
          if bool_decide (is_Some (direct id)) then inr (bare_meta id [])
          else match store !! id with
               | Some d => if bool_decide (is_Some (snap_archive d)) then inr (bare_meta id []) else inl NotFound
               | None => inl NotFound
               end
      end
  | None => match snapshots with
            | [] => inl NoSnapshots
            | first :: _ => inr (default first (List.find in_cwd snapshots))
            end
  end.

Definition run_undo (root_exists : bool) (failures : nat) (store : Store) (args : UndoArgs) (fs : FS) : (UndoErr + Undone) * FS :=
  match list_snapshots_in root_exists failures store with
  | inl e => (inl e, fs)
  | inr snapshots =>
      if u_list args then (inr (Listed snapshots), fs)
      else if bool_decide (snapshots = []) then (inl NoSnapshots, fs)
      else
        match choose store snapshots (u_session args) with
        | inl e => (inl e, fs)
        | inr s =>
            if u_dry_run args then
              match session_source store (session_id s) with
              | inl e => (inl e, fs)
              | inr (archive, _) => (inr (Previewed (default (project_dir s) (u_target args)) (inspect_archive archive)), fs)
              end
            else
              match rollback_session store (session_id s) (u_target args) fs with
              | (inr res, fs) => (inr (Undone_ok res), fs)
              | (inl e, fs) => (inl e, fs)
              end
        end
  end.

(** ** Disposable sessions *)

(** Whether the archive named by a listed session is a file. *)
Variable archive_exists : loc → bool.
Variable snapshots_exist : bool.
Variable failures : nat.

Definition find_snapshot_archive (store : Store) (session : string) : bool :=
  bool_decide (is_Some (direct session))
  || match store !! session with Some d => bool_decide (is_Some (snap_archive d)) | None => false end
  || match list_snapshots_in snapshots_exist failures store with
     | inr l => existsb (λ s, String.eqb (session_id s) session && archive_exists (archive_file s)) l
     | inl _ => false
     end.

Inductive Ended : Type := Restored_clean | No_snapshot | Kept.

(** The rollback, or the note that there is nothing to roll back to. *)
Definition roll_back_or_note (store : Store) (session : string) (project : loc) (fs : FS) : (UndoErr + Ended) * FS :=
  if find_snapshot_archive store session then
    match rollback_session store session (Some project) fs with
    | (inr _, fs) => (inr Restored_clean, fs)
    | (inl e, fs) => (inl e, fs)
    end
  else (inr No_snapshot, fs).

(** [answer] is the line the user types; [None] when there is no terminal.  An error of
    the rollback returns before the snapshot is removed. *)
Definition handle_ephemeral_completion (session : string) (project : loc) (exit_code : Z)
    (auto_accept force_discard : bool) (answer : option string) (store : Store) (fs : FS) : (UndoErr + Ended) * Store * FS :=
  let '(res, fs) :=
    if force_discard || negb (exit_code =? 0) then roll_back_or_note store session project fs
    else if auto_accept then (inr Kept, fs)
    else match answer with
         | Some input =>
             let trimmed := trim input in
             if eq_ignore_ascii_case trimmed "n" || eq_ignore_ascii_case trimmed "no"
             then roll_back_or_note store session project fs
             else (inr Kept, fs)
         | None => (inr Kept, fs)
         end in
  match res with
  | inl e => (inl e, store, fs)
  | inr how => (inr how, delete session store, fs)
  end.

(** [Drop] of [EphemeralGuard]: the result of the rollback is dropped. *)
Definition drop_guard (completed : bool) (session : string) (project : loc) (store : Store) (fs : FS) : Store * FS :=
  if completed then (store, fs)
  else (delete session store, (rollback_session store session (Some project) fs).2).
End Undo.

(** ** Lemmas: the listing *)

Definition meta_le (a b : SnapshotMetadata) : Prop := meta_cmp a b ≠ Gt.

Lemma insert_meta_elem m l x : x ∈ insert_meta m l ↔ x = m ∨ x ∈ l.
Proof.
  induction l as [|y l IH]; cbn [insert_meta]; [by rewrite list_elem_of_singleton, elem_of_nil; tauto|].
  destruct (meta_cmp m y); rewrite !elem_of_cons, ?IH; tauto.
Qed.

Lemma sort_metas_elem l x : x ∈ sort_metas l ↔ x ∈ l.
Proof.
  induction l as [|y l IH]; [done|]. cbn [sort_metas foldr]. rewrite insert_meta_elem, elem_of_cons.
  unfold sort_metas in IH. by rewrite IH.
Qed.

Lemma meta_cmp_antisym a b : meta_cmp b a = CompOpp (meta_cmp a b).
Proof.
  unfold meta_cmp. rewrite (String.compare_antisym (created_at a) (created_at b)).
  destruct (String.compare (created_at b) (created_at a)); cbn; [|done..]. apply String.compare_antisym.
Qed.

Lemma meta_le_trans a b c : meta_le a b → meta_le b c → meta_le a c.
Proof.
  unfold meta_le, meta_cmp. intros H1 H2.
  destruct (String.compare (created_at b) (created_at a)) eqn:E1; [apply String.compare_eq_iff in E1; rewrite <-E1| |done].
  - destruct (String.compare (created_at c) (created_at b)) eqn:E2; [|done..].
    destruct (String.compare (session_id b) (session_id a)) eqn:E3; [apply String.compare_eq_iff in E3; by rewrite <-E3| |done].
    destruct (String.compare (session_id c) (session_id b)) eqn:E4; [apply String.compare_eq_iff in E4; by rewrite E4, E3| |done].
    by rewrite (string_compare_trans _ _ _ E4 E3).
  - destruct (String.compare (created_at c) (created_at b)) eqn:E2; [apply String.compare_eq_iff in E2; by rewrite E2, E1| |done].
    by rewrite (string_compare_trans _ _ _ E2 E1).
Qed.

Lemma insert_meta_sorted m l : StronglySorted meta_le l → StronglySorted meta_le (insert_meta m l).
Proof.
  induction 1 as [|x l Hs IH Hf]; cbn [insert_meta]; [repeat constructor|].
  destruct (meta_cmp m x) eqn:E.
  1,2: assert (meta_le m x) as Hm by (unfold meta_le; by rewrite E);
    (constructor; [by constructor|]; constructor; [done|]); eapply Forall_impl; [exact Hf|];
    intros y Hy; by apply (meta_le_trans m x y).
  constructor; [done|]. rewrite Forall_forall in Hf |- *. intros y [->|Hy]%insert_meta_elem; [|by apply Hf].
  unfold meta_le. by rewrite meta_cmp_antisym, E.
Qed.

Lemma sort_metas_sorted l : StronglySorted meta_le (sort_metas l).
Proof. induction l as [|m l IH]; [constructor|]. by apply insert_meta_sorted. Qed.

Lemma find_spec {A} (P : A → bool) l x : List.find P l = Some x → x ∈ l ∧ P x = true.
Proof. intros [H1 H2]%List.find_some. split; [by apply list_elem_of_In|done]. Qed.

Lemma find_first P l x :
  StronglySorted meta_le l → List.find P l = Some x → ∀ y, y ∈ l → P y = true → y = x ∨ meta_le x y.
Proof.
  induction 1 as [|z l Hs IH Hf]; [done|]. cbn [List.find]. destruct (P z) eqn:E.
  - intros [= <-] y [->|Hy]%elem_of_cons _; [by left|right]. rewrite Forall_forall in Hf. by apply Hf.
  - intros Hx y [->|Hy]%elem_of_cons Hp; [congruence|by apply IH].
Qed.

(** ** Lemmas: the preview *)

(** The files of a list of items by name. *)
Definition files_of (items : list Item) : gmap string bytes := foldl (λ m i, <[rel_str (i_rel i) := i_data i]> m) ∅ items.

Lemma files_of_lookup items name data :
  (∀ i j, i ∈ items → j ∈ items → rel_str (i_rel i) = rel_str (i_rel j) → i = j) →
  files_of items !! name = Some data ↔ ∃ i, i ∈ items ∧ rel_str (i_rel i) = name ∧ i_data i = data.
Proof.
  induction items as [|i items IH] using rev_ind; intros Hf.
  - split; [done|]. intros (i & Hi & _). by apply not_elem_of_nil in Hi.
  - unfold files_of. rewrite foldl_snoc. fold (files_of items). rewrite lookup_insert_Some, IH.
    + split.
      * intros [[<- <-]|[Hne (j & Hj & <- & <-)]]; [exists i|exists j]; (split; [apply elem_of_app|done]); [right; left|by left].
      * intros (j & [Hj|Hj%list_elem_of_singleton]%elem_of_app & <- & <-); [|subst j; by left].
        destruct (decide (rel_str (i_rel i) = rel_str (i_rel j))) as [E|E]; [|right; split; [done|by exists j]].
        left. split; [done|]. f_equal. apply Hf; [| |done]; apply elem_of_app; [right; left|by left].
    + intros a b Ha Hb. apply Hf; apply elem_of_app; by left.
Qed.

Lemma scan_dir_items project d m es :
  scan_dir (λ _, true) project d m es
  = foldl (λ m i, <[rel_str (i_rel i) := i_data i]> m) m (omap (item_of project d) es).
Proof.
  unfold scan_dir. revert m. induction es as [|[n o] es IH]; intros m; [done|]. cbn [foldl fst snd omap list_omap].
  destruct o as [|data mode mt|t]; apply IH.
Qed.

Section Scan.
Context {order : list (string * Obj) → list (string * Obj)}.
Hypothesis order_perm : ∀ l, order l ≡ₚ l.
Context (project : loc) (fs : FS).
Hypothesis project_dir_here : fs !! project = Some ODir.

Lemma scan_items :
  ∃ ds, (∀ d, visible fs project d ↔ d ∈ ds)
        ∧ scan_disk_files order (λ _, true) fs project = files_of (snapshot_items (order := order) project fs ds).
Proof.
  unfold scan_disk_files. set (visit := λ m d es, scan_dir (λ _, true) project d m es).
  assert (∀ s : gmap string bytes, ∀ d : loc, same_dirs fs fs) as Hs by done.
  pose proof (walk_visits order_perm (λ _ : gmap string bytes, fs) visit (λ st d, Hs st d) (λ _ _ _, le_n _) project ∅ project_dir_here) as Hw.
  rewrite (walk_folds (order := order) (λ _ : gmap string bytes, fs) visit).
  destruct (walk order (λ _ : gmap string bytes, fs) visit (walk_fuel fs) ∅ [project]) as [s ds].
  destruct Hw as (_ & Hv & _). exists ds. split; [done|]. cbn [snd]. unfold snapshot_items, files_of, visit. clear.
  generalize (∅ : gmap string bytes). induction ds as [|d ds IH]; intros m; [done|]. cbn [foldl mbind list_bind].
  by rewrite foldl_app, IH, scan_dir_items.
Qed.

Hypothesis names : ∀ rel data mode, snapshot_file fs project rel data mode → Forall good_name rel.

Lemma items_named ds i j :
  (∀ d, visible fs project d ↔ d ∈ ds) →
  i ∈ snapshot_items (order := order) project fs ds → j ∈ snapshot_items (order := order) project fs ds →
  rel_str (i_rel i) = rel_str (i_rel j) → i = j.
Proof.
  intros Hds Hi Hj E. apply (file_apart order_perm project fs i j ds Hds Hi Hj).
  apply (elem_items order_perm project fs ds _ Hds) in Hi as (mi & Fi & _), Hj as (mj & Fj & _).
  rewrite (rel_str_inj (i_rel i) (i_rel j)); [done|by eapply file_nonempty|by eapply file_nonempty|by eapply names..|done].
Qed.

Lemma items_files ds name data :
  (∀ d, visible fs project d ↔ d ∈ ds) →
  files_of (snapshot_items (order := order) project fs ds) !! name = Some data
  ↔ ∃ rel mode, name = rel_str rel ∧ snapshot_file fs project rel data mode.
Proof.
  intros Hds. rewrite files_of_lookup by (intros i j; by apply items_named). split.
  - intros (i & (mode & Hf & _)%(elem_items order_perm _ _ _ _ Hds) & <- & <-). by exists (i_rel i), mode.
  - intros (rel & mode & -> & Hf). exists (mk_item rel data (Z.land mode 0x1ff)). split; [|done].
    apply (elem_items order_perm _ _ _ _ Hds). by exists mode.
Qed.
End Scan.

Lemma entries_files items archive :
  read_archive archive = (item_tar <$> items, true) → (∀ i, i ∈ items → i_rel i ≠ [] ∧ Forall good_name (i_rel i)) →
  read_tar_entries archive = Some (files_of items).
Proof.
  intros Hr Hn. unfold read_tar_entries, read_tar_entries_with_modes. rewrite Hr. f_equal. clear Hr.
  assert (∀ m : gmap string (bytes * Z),
    fst <$> foldl (λ m e, if is_clean (e_name e) then <[normalize_name (e_name e) := (e_data e, e_mode e)]> m else m) m (item_tar <$> items)
    = foldl (λ m i, <[rel_str (i_rel i) := i_data i]> m) (fst <$> m) items) as H; [|by rewrite H, fmap_empty].
  induction items as [|i items IH]; intros m; [done|]. cbn [fmap list_fmap foldl].
  destruct (Hn i (list_elem_of_here _ _)) as [Hne Hg]. destruct (rel_clean _ Hne Hg) as [Hc _].
  change (e_name (item_tar i)) with (rel_str (i_rel i)). rewrite Hc, normalize_rel by done.
  rewrite IH by (intros j Hj; apply Hn; by right). by rewrite fmap_insert.
Qed.

Lemma maps_same (m1 m2 : gmap string bytes) :
  let both := dom m2 ∩ dom m1 in
  (size (filter (λ n, m1 !! n ≠ m2 !! n) both) = 0%nat ∧ size (dom m2 ∖ dom m1) = 0%nat ∧ size (dom m1 ∖ dom m2) = 0%nat)
  ↔ m1 = m2.
Proof.
  cbv zeta. rewrite !size_empty_iff, !leibniz_equiv_iff. split.
  - intros (H1 & H2 & H3). apply map_eq. intros n.
    destruct (m1 !! n) as [a|] eqn:E1, (m2 !! n) as [b|] eqn:E2; [| | |done].
    + assert (n ∉ filter (λ n, m1 !! n ≠ m2 !! n) (dom m2 ∩ dom m1)) as H by (rewrite H1; set_solver).
      rewrite <-E1, <-E2. apply dec_stable. intros Hne. apply H, elem_of_filter. split; [done|].
      apply elem_of_intersection. split; apply elem_of_dom; by eexists.
    + assert (n ∈ dom m1 ∖ dom m2) as H; [|rewrite H3 in H; set_solver].
      apply elem_of_difference. split; [apply elem_of_dom; by eexists|by apply not_elem_of_dom].
    + assert (n ∈ dom m2 ∖ dom m1) as H; [|rewrite H2 in H; set_solver].
      apply elem_of_difference. split; [apply elem_of_dom; by eexists|by apply not_elem_of_dom].
  - intros ->. split; [|split; set_solver]. apply set_eq. intros n. rewrite elem_of_filter. set_solver.
Qed.

Lemma files_by_name fs project (m : gmap string bytes) :
  (∀ rel data mode, snapshot_file fs project rel data mode → Forall good_name rel) →
  (∀ name data, m !! name = Some data ↔ ∃ rel mode, name = rel_str rel ∧ snapshot_file fs project rel data mode) →
  ∀ rel data, (∃ mode, snapshot_file fs project rel data mode)
              ↔ rel ≠ [] ∧ Forall good_name rel ∧ m !! rel_str rel = Some data.
Proof.
  intros Hg Hm rel data. split.
  - intros [mode Hf]. split; [by eapply file_nonempty|]. split; [by eapply Hg|]. apply Hm. by exists rel, mode.
  - intros (Hne & Hgood & (rel' & mode & E & Hf)%Hm). exists mode.
    rewrite (rel_str_inj rel rel'); [done|done|by eapply file_nonempty|done|by eapply Hg|done].
Qed.

(** C39: The preview before a decision is truthful.  For a project directory whose
    regular files are all readable, when the snapshot is made and when it is compared,
    and have UTF-8 names without backslash both times, and for a completed snapshot
    whose archive lies outside the project: the preview reports no change exactly when
    the project has the same files, by path and content, as when the snapshot was
    made - whatever happened to modes, links, directories and ignored directories. *)
Theorem preview_silent_iff order order' project before after max_bytes archive count total archive_path :
  (∀ l, order l ≡ₚ l) → (∀ l, order' l ≡ₚ l) →
  before !! project = Some ODir → after !! project = Some ODir →
  (∀ rel data mode, snapshot_file before project rel data mode → Forall good_name rel) →
  (∀ rel data mode, snapshot_file after project rel data mode → Forall good_name rel) →
  create_snapshot order (λ _, true) false before project max_bytes = SnapDone archive count total →
  ¬ project `prefix_of` archive_path →
  preview_snapshot_changes order' (λ _, true) archive_path archive after project = Some (0, 0, 0)%nat
  ↔ ∀ rel data, (∃ mode, snapshot_file before project rel data mode) ↔ (∃ mode, snapshot_file after project rel data mode).
Proof.
  intros Ho Ho' Hb Ha Gb Ga Hs Hout.
  destruct (snapshot_reads_back _ _ _ _ _ _ _ Ho Hb Gb Hs) as (ds & Hds & Hr & _ & Hn).
  destruct (scan_items Ho' project after Ha) as (ds' & Hds' & Hscan).
  unfold preview_snapshot_changes. rewrite (entries_files _ _ Hr Hn), bool_decide_false, Hscan by done. cbv zeta.
  set (m1 := files_of (snapshot_items (order := order) project before ds)).
  set (m2 := files_of (snapshot_items (order := order') project after ds')).
  assert (∀ P Q R : nat, Some (P, Q, R) = Some (0, 0, 0)%nat ↔ P = 0%nat ∧ Q = 0%nat ∧ R = 0%nat) as Hpair.
  { intros P Q R. split; [by intros [= -> -> ->]|by intros (-> & -> & ->)]. }
  rewrite Hpair, maps_same. clear Hpair.
  pose proof (λ name data, items_files Ho project before Gb ds name data Hds) as H1.
  pose proof (λ name data, items_files Ho' project after Ga ds' name data Hds') as H2.
  fold m1 in H1. fold m2 in H2. split.
  - intros E rel data. rewrite (files_by_name _ _ _ Gb H1), (files_by_name _ _ _ Ga H2). by rewrite E.
  - intros H. apply map_eq. intros name. apply option_eq. intros data. rewrite H1, H2. split.
    + intros (rel & mode & -> & Hf). destruct (proj1 (H rel data)) as [mode' Hf']; [by exists mode|by exists rel, mode'].
    + intros (rel & mode & -> & Hf). destruct (proj2 (H rel data)) as [mode' Hf']; [by exists mode|by exists rel, mode'].
Qed.

(** The demonstration disk after a change of mode and in an ignored directory only. *)
Definition demo_touched : FS := demo_disk
  [([], ODir); (["home"], ODir); (["home"; "p"], ODir); (["home"; "p"; "a.txt"], OFile (bs "one") 0x1ff 18);
   (["home"; "p"; "src"], ODir); (["home"; "p"; "src"; "main.rs"], OFile (bs "fn main() {}") 0x180 19);
   (["home"; "p"; ".git"], ODir); (["home"; "p"; ".git"; "HEAD"], OFile (bs "moved") 0x1a4 20)].

Lemma demo_touched_files rel data mode :
  snapshot_file demo_touched ["home"; "p"] rel data mode → rel = ["a.txt"] ∨ rel = ["src"; "main.rs"].
Proof.
  intros (d & n & mt & Hv & E & Hf%elem_of_list_to_map_2).
  repeat (apply elem_of_cons in Hf as [Hf|Hf]; [try discriminate; injection Hf as H _ _ _; subst; auto|]);
    [|by apply not_elem_of_nil in Hf].
  exfalso. change (["home"; "p"; ".git"; "HEAD"] = d ++ [n]) in E.
  change ["home"; "p"; ".git"; "HEAD"] with (["home"; "p"; ".git"] ++ ["HEAD"]) in E. apply app_inj_tail in E as [<- _].
  apply visible_prefix in Hv as (rel & E & Hi). injection E as <-. by apply Forall_cons in Hi as [Hi _].
Qed.

Lemma preview_silent_iff_witness :
  ∃ archive count total mode,
    create_snapshot (@rev _) (λ _, true) false demo_before ["home"; "p"] DEFAULT_MAX_SNAPSHOT_SIZE = SnapDone archive count total
    ∧ preview_snapshot_changes id (λ _, true) ["home"; ".vetto"; "s"] archive demo_touched ["home"; "p"] = Some (0, 0, 0)%nat
    ∧ snapshot_file demo_touched ["home"; "p"] ["src"; "main.rs"] (bs "fn main() {}") mode.
Proof.
  destruct (create_snapshot (@rev _) (λ _, true) false demo_before ["home"; "p"] DEFAULT_MAX_SNAPSHOT_SIZE) as [|archive count total| |p b] eqn:E;
    [vm_compute in E; discriminate E| |vm_compute in E; discriminate E..].
  assert (preview_snapshot_changes id (λ _, true) ["home"; ".vetto"; "s"] archive demo_touched ["home"; "p"] = Some (0, 0, 0)%nat) as Hp.
  { vm_compute in E. injection E as <- _ _. vm_compute. reflexivity. }
  exists archive, count, total. pose proof Hp as Hsame.
  rewrite (preview_silent_iff (@rev _) id ["home"; "p"] demo_before demo_touched DEFAULT_MAX_SNAPSHOT_SIZE archive count total
      ["home"; ".vetto"; "s"]) in Hsame.
  - destruct (proj1 (Hsame ["src"; "main.rs"] (bs "fn main() {}"))) as [mode Hm]; [|exists mode; exact (conj eq_refl (conj Hp Hm))].
    exists 0x9ed, ["home"; "p"; "src"], "main.rs", 1700000000. split; [|split; vm_compute; reflexivity].
    apply (vis_child _ _ ["home"; "p"] "src"); [apply vis_root|..]; vm_compute; reflexivity.
  - intros l. symmetry. apply Permutation_rev.
  - done.
  - reflexivity.
  - reflexivity.
  - intros rel data mode [-> | ->]%demo_files; repeat constructor; by apply utf8_ascii; repeat constructor.
  - intros rel data mode [-> | ->]%demo_touched_files; repeat constructor; by apply utf8_ascii; repeat constructor.
  - exact E.
  - intros [r Er]. discriminate Er.
Defined.

(** ** Which snapshot an undo takes *)

Section Default.
Context {store_order : list (string * SnapDir) → list (string * SnapDir)} {order : list (string * Obj) → list (string * Obj)}.
Context (now : Z) (cwd : loc) (canonicalize : loc → option loc) (direct : string → option (bytes * MetaFile)).

(** C40: [vetto undo] without arguments takes the newest snapshot of the current
    directory: whenever a listed snapshot belongs to it - by its path or its canonical
    path - the one rolled back does, none of the directory is newer, and the result is
    the rollback of that session into its own project. *)
Theorem undo_takes_newest store fs :
  (∃ m, m ∈ listed store_order store ∧ in_cwd cwd canonicalize m = true) →
  ∃ s, s ∈ listed store_order store ∧ in_cwd cwd canonicalize s = true
  ∧ (∀ m, m ∈ listed store_order store → in_cwd cwd canonicalize m = true → String.compare (created_at m) (created_at s) ≠ Gt)
  ∧ run_undo order store_order now cwd canonicalize direct true 0 store (mk_undo_args None false false None) fs
    = let '(res, fs) := rollback_session order now cwd direct store (session_id s) None fs in
      (match res with inr res => inr (Undone_ok res) | inl e => inl e end, fs).
Proof.
  intros (m & Hm & Hin). set (l := sort_metas (listed store_order store)).
  assert (m ∈ l) as Hml by by apply sort_metas_elem.
  destruct (List.find (in_cwd cwd canonicalize) l) as [s|] eqn:E;
    [|by rewrite (List.find_none _ _ E m (proj1 (list_elem_of_In _ _) Hml)) in Hin].
  destruct (find_spec _ _ _ E) as [Hs Hc]. exists s. split; [by apply sort_metas_elem|]. split; [done|]. split.
  - intros x Hx Hxc. destruct (find_first _ _ _ (sort_metas_sorted _) E x) as [->|Hle]; [by apply sort_metas_elem|done| |].
    + pose proof (String.compare_antisym (created_at s) (created_at s)) as Ha. by destruct (String.compare (created_at s) (created_at s)).
    + unfold meta_le, meta_cmp in Hle. by destruct (String.compare (created_at x) (created_at s)).
  - unfold run_undo, list_snapshots_in. cbn [negb Nat.ltb Nat.leb u_list u_session u_dry_run u_target]. fold l.
    destruct l as [|first l]; [by apply not_elem_of_nil in Hml|]. rewrite bool_decide_false by done.
    unfold choose. rewrite E. cbn [default from_option id]. by destruct (rollback_session _ _ _ _ _ _ _ _) as [[e|r] fs'].
Qed.
End Default.

(** A store with one snapshot, of another project. *)
Definition demo_other (archive : bytes) : Store :=
  {["s1" := mk_snap_dir (Some archive) (Meta (mk_meta "s1" "2026-01-01T00:00:00+00:00" ["home"; "p"] ["home"; ".vetto"; "s1"] 1 3))]}.
Definition demo_archive : bytes := Eval vm_compute in
  match create_snapshot id (λ _, true) false demo_before ["home"; "p"] DEFAULT_MAX_SNAPSHOT_SIZE with
  | SnapDone archive _ _ => archive
  | _ => []
  end.
#[local] Opaque demo_archive.

Lemma undo_takes_newest_witness :
  let store := demo_other demo_archive in
  ∃ s, s ∈ listed id store ∧ in_cwd ["home"; "p"] Some s = true
  ∧ run_undo id id 99 ["home"; "p"] Some (λ _, None) true 0 store (mk_undo_args None false false None) demo_during
    = let '(res, fs) := rollback_session id 99 ["home"; "p"] (λ _, None) store (session_id s) None demo_during in
      (match res with inr res => inr (Undone_ok res) | inl e => inl e end, fs).
Proof.
  destruct (undo_takes_newest (store_order := id) (order := id) 99 ["home"; "p"] Some (λ _, None) (demo_other demo_archive) demo_during)
    as (s & H1 & H2 & _ & H3); [|exact (ex_intro _ s (conj H1 (conj H2 H3)))].
  eexists. split; [left|]. reflexivity.
Defined.

(** Without a snapshot of the current directory the newest of all is taken, and another
    project is rolled back where it lies. *)
Lemma undo_of_another_project :
  match run_undo id id 99 ["home"; "elsewhere"] Some (λ _, None) true 0 (demo_other demo_archive)
          (mk_undo_args None false false None) demo_during with
  | (inr (Undone_ok _), fs) => fs !! ["home"; "p"; "a.txt"] = Some (OFile (bs "one") 0x1a4 99)
                               ∧ fs !! ["home"; "p"; "new"; "deep"; "link"] = None
  | _ => False
  end.
Proof. vm_compute. done. Qed.

(** ** A disposable session *)



(** A session that succeeds keeps its work, whatever was typed, unless it was [n] or
    [no]. *)
Lemma kept_session order store_order now cwd direct archive_exists snapshots_exist failures session project auto_accept answer store fs :
  (∀ input, answer = Some input → to_ascii_lowercase (trim input) ∉ ["n"; "no"]) ∨ auto_accept = true →
  handle_ephemeral_completion order store_order now cwd direct archive_exists snapshots_exist failures session project 0
    auto_accept false answer store fs = (inr Kept, delete session store, fs).
Proof.
  intros H. unfold handle_ephemeral_completion. cbn [Z.eqb negb orb]. destruct auto_accept; [done|]. destruct answer as [input|]; [|done].
  destruct H as [H|H]; [|done]. specialize (H input eq_refl). unfold eq_ignore_ascii_case. cbv zeta.
  change (to_ascii_lowercase "n") with "n". change (to_ascii_lowercase "no") with "no".
  destruct (String.eqb _ "n") eqn:E1; [apply String.eqb_eq in E1; destruct H; rewrite E1; left|].
  destruct (String.eqb _ "no") eqn:E2; [apply String.eqb_eq in E2; destruct H; rewrite E2; right; left|done].
Qed.

(** The guard drops the error of a failed rollback and removes the snapshot all the same:
    here the archive is cut short, the work is not restored and its only copy is gone. *)
Lemma dropped_guard_loses_snapshot :
  let store := demo_other (take 600 demo_archive) in
  let '(store', fs) := drop_guard id 99 ["home"] (λ _, None) false "s1" ["home"; "p"] store demo_during in
  store' = ∅ ∧ fs !! ["home"; "p"; "src"; "main.rs"] = None ∧ fs !! ["home"; "p"; "new"; "deep"; "link"] = Some (OLink ["home"; "notes"]).
Proof. vm_compute. done. Qed.
