(* ===== verification/Seatbelt.v ===== *)
(** * Seatbelt: the macOS sandbox profile

    Model of the profile generators of [src/src/sandbox/macos/seatbelt.rs].  What a
    profile means is stated by a reader of its text and the rule that the last match
    wins, which the comments of the source give; paths are text. *)

From S2P Require Import Prelude Paths PolicyTypes Globs.

(** ** Generators *)

Definition dq : string := String (chr 34) EmptyString.
Definition backslash : string := String (chr 92) EmptyString.
Definition nl : string := String (chr 10) EmptyString.
Definition quoted (s : string) : string := dq +:+ s +:+ dq.

Definition sb_escape (s : string) : string :=
  replace dq (backslash +:+ dq) (replace backslash (backslash +:+ backslash) s).

Definition base_rules : string :=
  "(version 1)" +:+ nl +:+ "(deny default)" +:+ nl
  +:+ "(allow process-exec)" +:+ nl +:+ "(allow process-fork)" +:+ nl
  +:+ "(allow sysctl-read)" +:+ nl +:+ "(allow mach-lookup)" +:+ nl.

Definition subpath_rule (action value : string) : string :=
  "(" +:+ action +:+ " (subpath " +:+ value +:+ "))" +:+ nl.
Definition param (key : string) : string := "(param " +:+ quoted key +:+ ")".

Definition write_key (i : nat) : string := "ALLOW_WRITE_DIR_" +:+ to_dec (Z.of_nat i).
Definition deny_key (i : nat) : string := "DENY_PATH_" +:+ to_dec (Z.of_nat i).

(** The daemons whose sockets stay closed. *)
Definition socket_rules (name : string) : string :=
  "(deny network-outbound (remote unix-socket (path-literal " +:+ quoted ("/private" +:+ name) +:+ ")))" +:+ nl
  +:+ "(deny network-outbound (remote unix-socket (path-literal " +:+ quoted name +:+ ")))" +:+ nl
  +:+ "(deny file-read* file-write* (literal " +:+ quoted ("/private" +:+ name) +:+ "))" +:+ nl
  +:+ "(deny file-read* file-write* (literal " +:+ quoted name +:+ "))" +:+ nl.
Definition SOCKETS : list string := ["/var/run/mDNSResponder"; "/var/run/usbmuxd"; "/var/run/docker.sock"].
Definition deny_network_rules : string :=
  "(deny network*)" +:+ nl +:+ "(allow network-outbound (remote unix-socket))" +:+ nl.
Definition sconcat (l : list string) : string := foldr String.append EmptyString l.

Definition net_rules (net : NetMode) (proxy_port : option Z) : string :=
  match net with
  | NetOff => deny_network_rules +:+ sconcat (socket_rules <$> SOCKETS)
  | NetAllowlist _ =>
      deny_network_rules +:+ sconcat (socket_rules <$> SOCKETS)
      +:+ match proxy_port with
          | Some port =>
              "(allow network-outbound (remote tcp " +:+ quoted ("localhost:" +:+ to_dec port) +:+ "))" +:+ nl
              +:+ "(allow network-outbound (remote ip " +:+ quoted ("localhost:" +:+ to_dec port) +:+ "))" +:+ nl
          | None => EmptyString
          end
  | NetStrict _ | NetAsk => deny_network_rules
  end.

Definition generate_sbpl_template_and_params (policy : Policy) (net : NetMode) (proxy_port : option Z)
    : string * list (string * string) :=
  let sb := base_rules +:+ "(allow file-read* (subpath " +:+ quoted "/" +:+ "))" +:+ nl in
  let sb := sb +:+ sconcat (imap (λ i _, subpath_rule "allow file-write*" (param (write_key i))) (allow_write policy)) in
  let params := imap (λ i p, (write_key i, to_str p)) (allow_write policy) in
  let sb := sb +:+ sconcat (imap (λ i _,
    subpath_rule "deny file-read*" (param (deny_key i)) +:+ subpath_rule "deny file-write*" (param (deny_key i)))
    (deny_resolved policy)) in
  let params := params ++ imap (λ i d, (deny_key i, to_str (deny_path d))) (deny_resolved policy) in
  (sb +:+ net_rules net proxy_port +:+ nl +:+ "; generated by vetto native seatbelt" +:+ nl, params).

(** The profile with its values inlined, for inspection. *)
Definition generate (policy : Policy) (net : NetMode) (proxy_port : option Z) : string :=
  let '(template, params) := generate_sbpl_template_and_params policy net proxy_port in
  foldl (λ s kv, replace (param kv.1) (quoted (sb_escape kv.2)) s) template params.

Definition inline (p : path) : string := quoted (sb_escape (to_str p)).
Definition read_line (form value : string) : string := "    (" +:+ form +:+ " " +:+ value +:+ ")" +:+ nl.

Definition generate_sbpl_shape_d (policy : Policy) (net : NetMode) (proxy_port : option Z) : string :=
  base_rules
  +:+ "(allow file-read*" +:+ nl +:+ "  (require-any" +:+ nl
  +:+ sconcat (read_line "subpath" ∘ quoted <$>
        ["/System/Volumes/Preboot/Cryptexes/OS/System/Library/dyld/"; "/private/var/db/dyld/"; "/usr/lib/";
         "/System/Library/Frameworks/"])
  +:+ sconcat (read_line "literal" ∘ quoted <$> ["/dev/null"; "/dev/zero"; "/dev/random"; "/dev/urandom"])
  +:+ sconcat (read_line "subpath" ∘ inline <$> allow_read policy)
  +:+ sconcat (read_line "subpath" ∘ inline <$> allow_write policy)
  +:+ "  )" +:+ nl +:+ ")" +:+ nl
  +:+ sconcat (subpath_rule "allow file-write*" ∘ inline <$> allow_write policy)
  +:+ sconcat ((λ d, subpath_rule "deny file-read*" (inline (deny_path d))
                     +:+ subpath_rule "deny file-write*" (inline (deny_path d))) <$> deny_resolved policy)
  +:+ net_rules net proxy_port +:+ nl +:+ "; generated by vetto native seatbelt shape-d" +:+ nl.

(** ** Reading a profile *)

Inductive Sexp : Type := Sym (s : string) | Str (s : string) | SList (l : list Sexp).

Inductive Lex : Type := LPlain | LSym (acc : string) | LStr (acc : string) | LEsc (acc : string) | LComment.

(** The lists that are open, the innermost first, each in reverse order. *)
Abbreviation Reading := (option (Lex * list (list Sexp))).

Definition add (x : Sexp) (stack : list (list Sexp)) : list (list Sexp) :=
  match stack with [] => [] | l :: stack => (x :: l) :: stack end.
Definition snoc (s : string) (c : ascii) : string := s +:+ String c EmptyString.

Definition is_space (c : ascii) : bool := Ascii.eqb c " "%char || Ascii.eqb c (chr 10).
Definition read_plain (stack : list (list Sexp)) (c : ascii) : Reading :=
  if is_space c then Some (LPlain, stack)
  else if Ascii.eqb c "("%char then Some (LPlain, [] :: stack)
  else if Ascii.eqb c ")"%char then
    match stack with
    | l :: outer :: stack => Some (LPlain, add (SList (rev l)) (outer :: stack))
    | _ => None
    end
  else if Ascii.eqb c (chr 34) then Some (LStr EmptyString, stack)
  else if Ascii.eqb c ";"%char then Some (LComment, stack)
  else Some (LSym (String c EmptyString), stack).
Definition ends_symbol (c : ascii) : bool :=
  is_space c || Ascii.eqb c "("%char || Ascii.eqb c ")"%char || Ascii.eqb c (chr 34) || Ascii.eqb c ";"%char.

Definition read_char (r : Reading) (c : ascii) : Reading :=
  match r with
  | None => None
  | Some (lex, stack) =>
      match lex with
      | LPlain => read_plain stack c
      | LSym acc => if ends_symbol c then read_plain (add (Sym acc) stack) c else Some (LSym (snoc acc c), stack)
      | LStr acc =>
          if Ascii.eqb c (chr 34) then Some (LPlain, add (Str acc) stack)
          else if Ascii.eqb c (chr 92) then Some (LEsc acc, stack)
          else Some (LStr (snoc acc c), stack)
      | LEsc acc =>
          if Ascii.eqb c (chr 34) || Ascii.eqb c (chr 92) then Some (LStr (snoc acc c), stack) else None
      | LComment => if Ascii.eqb c (chr 10) then Some (LPlain, stack) else r
      end
  end.

Fixpoint run (r : Reading) (s : string) : Reading :=
  match s with EmptyString => r | String c s => run (read_char r c) s end.
Definition read_profile (s : string) : option (list Sexp) :=
  match run (Some (LPlain, [[]])) s with Some (LPlain, [l]) => Some (rev l) | _ => None end.

(** ** Meaning *)

Inductive Filter : Type :=
| Subpath (value : string) | Literal (value : string) | RemoteUnix (path : option string)
| Remote (proto address : string) | AnyOf (fs : list Filter).
Record Rule : Type := mk_rule { r_allow : bool; r_ops : list string; r_filters : list Filter }.

Section Meaning.
Variable params : list (string * string).

Definition value_of (x : Sexp) : option string :=
  match x with
  | Str s => Some s
  | SList [Sym "param"; Str k] => match List.find (λ kv, String.eqb kv.1 k) params with Some kv => Some kv.2 | None => None end
  | _ => None
  end.

Fixpoint filter_of (x : Sexp) : option Filter :=
  match x with
  | SList (Sym head :: args) =>
      if String.eqb head "require-any" then
        let fix go (l : list Sexp) : option (list Filter) :=
          match l with
          | [] => Some []
          | x :: l => match filter_of x, go l with Some f, Some fs => Some (f :: fs) | _, _ => None end
          end in
        match go args with Some fs => Some (AnyOf fs) | None => None end
      else if String.eqb head "subpath" then match args with [v] => Subpath <$> value_of v | _ => None end
      else if String.eqb head "literal" then match args with [v] => Literal <$> value_of v | _ => None end
      else if String.eqb head "remote" then
        match args with
        | [Sym "unix-socket"] => Some (RemoteUnix None)
        | [Sym "unix-socket"; SList [Sym "path-literal"; Str v]] => Some (RemoteUnix (Some v))
        | [Sym proto; Str address] => Some (Remote proto address)
        | _ => None
        end
      else None
  | _ => None
  end.

(** The operations of a rule come before its filters. *)
Fixpoint rule_args (l : list Sexp) : option (list string * list Filter) :=
  match l with
  | [] => Some ([], [])
  | Sym op :: l => match rule_args l with Some (ops, fs) => Some (op :: ops, fs) | None => None end
  | x :: l =>
      match filter_of x, rule_args l with
      | Some f, Some ([], fs) => Some ([], f :: fs)
      | _, _ => None
      end
  end.

Fixpoint rules_of (l : list Sexp) : option (list Rule) :=
  match l with
  | [] => Some []
  | SList [Sym "version"; Sym "1"] :: l => rules_of l
  | SList (Sym action :: args) :: l =>
      if String.eqb action "allow" || String.eqb action "deny" then
        match rule_args args, rules_of l with
        | Some (ops, fs), Some rs => Some (mk_rule (String.eqb action "allow") ops fs :: rs)
        | _, _ => None
        end
      else None
  | _ => None
  end.
Definition profile_rules (s : string) : option (list Rule) :=
  match read_profile s with Some l => rules_of l | None => None end.
End Meaning.

Inductive Access : Type :=
| OnPath (p : path) | ToUnix (p : path) | ToInet (proto address : string) | Plain.

Fixpoint filter_matches (f : Filter) (t : Access) : bool :=
  match f, t with
  | Subpath v, OnPath p => path_starts_with p (components v)
  | Literal v, OnPath p => bool_decide (p = components v)
  | RemoteUnix None, ToUnix _ => true
  | RemoteUnix (Some v), ToUnix p => bool_decide (p = components v)
  | Remote proto address, ToInet proto' address' =>
      (String.eqb proto "ip" || String.eqb proto proto') && String.eqb address address'
  | AnyOf fs, _ => existsb (λ f, filter_matches f t) fs
  | _, _ => false
  end.
Definition op_matches (pattern op : string) : bool :=
  String.eqb pattern "default" || String.eqb pattern op
  || match strip_suffix "*" pattern with Some pre => starts_with op pre | None => false end.
Definition rule_matches (r : Rule) (op : string) (t : Access) : bool :=
  existsb (λ pat, op_matches pat op) (r_ops r)
  && match r_filters r with [] => true | fs => existsb (λ f, filter_matches f t) fs end.

(** The last rule that matches decides. *)
Definition decision (rules : list Rule) (op : string) (t : Access) : bool :=
  foldl (λ verdict r, if rule_matches r op t then r_allow r else verdict) false rules.

(** ** What the profiles are to say *)

Definition rule (allow : bool) (op : string) (fs : list Filter) : Rule := mk_rule allow [op] fs.
Definition base_meaning : list Rule :=
  [rule false "default" []; rule true "process-exec" []; rule true "process-fork" []; rule true "sysctl-read" [];
   rule true "mach-lookup" []].
Definition write_meaning (ws : list path) : list Rule := (λ w, rule true "file-write*" [Subpath (to_str w)]) <$> ws.
Definition deny_meaning (ds : list DenyEntry) : list Rule :=
  ds ≫= λ d, [rule false "file-read*" [Subpath (to_str (deny_path d))]; rule false "file-write*" [Subpath (to_str (deny_path d))]].
Definition socket_meaning (name : string) : list Rule :=
  [rule false "network-outbound" [RemoteUnix (Some ("/private" +:+ name))]; rule false "network-outbound" [RemoteUnix (Some name)];
   mk_rule false ["file-read*"; "file-write*"] [Literal ("/private" +:+ name)]; mk_rule false ["file-read*"; "file-write*"] [Literal name]].
Definition net_meaning (net : NetMode) (proxy_port : option Z) : list Rule :=
  [rule false "network*" []; rule true "network-outbound" [RemoteUnix None]]
  ++ match net with
     | NetOff => SOCKETS ≫= socket_meaning
     | NetAllowlist _ =>
         (SOCKETS ≫= socket_meaning)
         ++ match proxy_port with
            | Some port => [rule true "network-outbound" [Remote "tcp" ("localhost:" +:+ to_dec port)];
                            rule true "network-outbound" [Remote "ip" ("localhost:" +:+ to_dec port)]]
            | None => []
            end
     | NetStrict _ | NetAsk => []
     end.
Definition meaning (reads : Filter) (policy : Policy) (net : NetMode) (proxy_port : option Z) : list Rule :=
  base_meaning ++ [rule true "file-read*" [reads]] ++ write_meaning (allow_write policy)
  ++ deny_meaning (deny_resolved policy) ++ net_meaning net proxy_port.
Definition shape_d_reads (policy : Policy) : Filter :=
  AnyOf ((Subpath <$> ["/System/Volumes/Preboot/Cryptexes/OS/System/Library/dyld/"; "/private/var/db/dyld/"; "/usr/lib/";
                       "/System/Library/Frameworks/"])
         ++ (Literal <$> ["/dev/null"; "/dev/zero"; "/dev/random"; "/dev/urandom"])
         ++ (Subpath ∘ to_str <$> allow_read policy) ++ (Subpath ∘ to_str <$> allow_write policy)).

Definition demo_policy : Policy :=
  mk_policy "demo" default_metadata default_limits
    [[RootDir; Normal "w"]; [RootDir; Normal ("a" +:+ dq +:+ "b" +:+ backslash)]] [[RootDir; Normal "r"]] [] []
    [mk_deny [RootDir; Normal "w"; Normal ".env"] false] default_env false None [] [] ∅ [] [] [] [] DefaultProfile None
    None None None None false false false false false [] [] false false false false true [].


(** ** Lemmas: escaping *)

Definition esc_char (c : ascii) : string :=
  if Ascii.eqb c (chr 92) || Ascii.eqb c (chr 34) then backslash +:+ String c EmptyString else String c EmptyString.
Fixpoint esc (s : string) : string := match s with EmptyString => EmptyString | String c s => esc_char c +:+ esc s end.

Fixpoint sbind (f : ascii → string) (s : string) : string :=
  match s with EmptyString => EmptyString | String c s => f c +:+ sbind f s end.

Lemma replace_single c repl s :
  replace (String c EmptyString) repl s = sbind (λ a, if Ascii.eqb a c then repl else String a EmptyString) s.
Proof.
  unfold replace. induction s as [|a s IH]; [done|]. cbn [String.length replace_fuel sbind strip_prefix].
  rewrite (Ascii.eqb_sym c a). destruct (Ascii.eqb a c) eqn:E.
  - by rewrite IH.
  - by rewrite IH.
Qed.

Lemma sbind_app f a b : sbind f (a +:+ b) = sbind f a +:+ sbind f b.
Proof. induction a as [|c a IH]; [done|]. cbn [append sbind]. by rewrite IH, string_app_assoc. Qed.

Lemma sb_escape_esc s : sb_escape s = esc s.
Proof.
  unfold sb_escape, dq, backslash. rewrite !replace_single.
  induction s as [|c s IH]; [done|]. cbn [sbind esc]. rewrite sbind_app, IH. f_equal. unfold esc_char.
  destruct (Ascii.eqb_spec c (chr 92)) as [->|H1]; [done|].
  cbn [sbind orb]. destruct (Ascii.eqb_spec c (chr 34)) as [->|H2]; [done|]. done.
Qed.

(** ** Lemmas: reading *)

Lemma run_text_app r a b : run r (a +:+ b) = run (run r a) b.
Proof. revert r. induction a as [|c a IH]; intros r; [done|]. apply IH. Qed.

Lemma snoc_char_app s c t : snoc s c +:+ t = s +:+ String c t.
Proof. unfold snoc. by rewrite string_app_assoc. Qed.

Lemma run_escaped s acc stack : run (Some (LStr acc, stack)) (esc s) = Some (LStr (acc +:+ s), stack).
Proof.
  revert acc. induction s as [|c s IH]; intros acc; cbn [esc]; [by rewrite string_app_nil_r|].
  rewrite run_text_app, <-snoc_char_app, <-IH. f_equal. unfold esc_char.
  destruct (Ascii.eqb_spec c (chr 92)) as [->|H1]; [done|]. destruct (Ascii.eqb_spec c (chr 34)) as [->|H2]; [done|].
  apply Ascii.eqb_neq in H1, H2. cbn [orb run read_char]. by rewrite H1, H2.
Qed.

(** Text that needs no escape. *)
Definition plain_char (c : ascii) : bool := negb (Ascii.eqb c (chr 92)) && negb (Ascii.eqb c (chr 34)).
Lemma esc_plain s : all_chars plain_char s = true → esc s = s.
Proof.
  induction s as [|c s IH]; [done|]. cbn [all_chars esc]. intros [Hc Hs]%andb_true_iff. rewrite IH by done. unfold esc_char.
  unfold plain_char in Hc. apply andb_true_iff in Hc as [->%negb_true_iff ->%negb_true_iff]. done.
Qed.

(** A text that is read as the list [l], whatever is open. *)
Definition reads (text : string) (l : list Sexp) : Prop :=
  ∀ top stack, run (Some (LPlain, top :: stack)) text = Some (LPlain, (rev l ++ top) :: stack).

Lemma reads_app a b l1 l2 : reads a l1 → reads b l2 → reads (a +:+ b) (l1 ++ l2).
Proof. intros Ha Hb top stack. by rewrite run_text_app, Ha, Hb, rev_app_distr, <-(assoc_L (++)). Qed.

Lemma reads_sconcat {A} (f : A → string) (g : A → list Sexp) l :
  (∀ x, x ∈ l → reads (f x) (g x)) → reads (sconcat (f <$> l)) (l ≫= g).
Proof.
  induction l as [|x l IH]; intros H; [done|]. cbn [fmap list_fmap sconcat foldr mbind list_bind].
  apply reads_app; [apply H; left|apply IH; intros y Hy; apply H; by right].
Qed.

Lemma reads_quoted s : reads (quoted (esc s)) [Str s].
Proof.
  intros top stack. unfold quoted. rewrite !run_text_app. change (run (Some (LPlain, top :: stack)) dq) with (Some (LStr "", top :: stack)).
  by rewrite run_escaped.
Qed.

Lemma reads_plain s : all_chars plain_char s = true → reads (quoted s) [Str s].
Proof. intros H. rewrite <-(esc_plain s) at 1 by done. apply reads_quoted. Qed.

Lemma reads_inline p : reads (inline p) [Str (to_str p)].
Proof. unfold inline. rewrite sb_escape_esc. apply reads_quoted. Qed.

(** [before] opens two lists, the last with [inner] in it, and [after] closes them. *)
Lemma reads_within before after value x outer inner :
  (∀ top stack, run (Some (LPlain, top :: stack)) before = Some (LPlain, rev inner :: rev outer :: top :: stack)) →
  (∀ inner outer top stack, run (Some (LPlain, inner :: outer :: top :: stack)) after
     = Some (LPlain, (SList (rev (SList (rev inner) :: outer)) :: top) :: stack)) →
  reads value [x] → reads (before +:+ value +:+ after) [SList (outer ++ [SList (inner ++ [x])])].
Proof.
  intros Hb Ha Hv top stack. rewrite !run_text_app, Hb, Hv, Ha. cbn [rev app]. by rewrite !rev_involutive.
Qed.

(** ** Lemmas: from text to rules *)

Section Means.
Context (params : list (string * string)).

(** A text that adds the rules [rs] to a profile. *)
Definition means (text : string) (rs : list Rule) : Prop :=
  ∃ l, reads text l ∧ ∀ l', rules_of params (l ++ l') = match rules_of params l' with Some rs' => Some (rs ++ rs') | None => None end.

Lemma means_app a b r1 r2 : means a r1 → means b r2 → means (a +:+ b) (r1 ++ r2).
Proof.
  intros (l1 & H1 & M1) (l2 & H2 & M2). exists (l1 ++ l2). split; [by apply reads_app|]. intros l'.
  rewrite <-(assoc_L (++)), M1, M2. destruct (rules_of params l'); [|done]. by rewrite (assoc_L (++)).
Qed.

Lemma means_nil : means EmptyString [].
Proof. exists []. split; [done|]. intros l'. cbn. by destruct (rules_of params l'). Qed.

Lemma means_sconcat (texts : list string) (rss : list (list Rule)) :
  Forall2 means texts rss → means (sconcat texts) (concat rss).
Proof. induction 1; [apply means_nil|]. cbn [sconcat foldr concat]. by apply means_app. Qed.

(** One rule as a list that is read as a rule. *)
Lemma means_rule text x r :
  reads text [x] → (∀ l', rules_of params (x :: l') = match rules_of params l' with Some rs' => Some (r :: rs') | None => None end) →
  means text [r].
Proof. intros Hr Hm. by exists [x]. Qed.

Definition action_text (allow : bool) (op : string) : string := (if allow then "allow " else "deny ") +:+ op.

Lemma subpath_means allow op value x v :
  (allow, op) ∈ [(true, "file-write*"); (true, "file-read*"); (false, "file-read*"); (false, "file-write*")] →
  reads value [x] → value_of params x = Some v →
  means (subpath_rule (action_text allow op) value) [rule allow op [Subpath v]].
Proof.
  intros Hin Hr Hv. apply (means_rule _ (SList ([Sym (if allow then "allow" else "deny"); Sym op] ++ [SList ([Sym "subpath"] ++ [x])]))).
  - assert (subpath_rule (action_text allow op) value
            = ("(" +:+ action_text allow op +:+ " (subpath ") +:+ value +:+ ("))" +:+ nl)) as ->
      by (unfold subpath_rule; by rewrite !string_app_assoc).
    apply reads_within; [|reflexivity|done].
    repeat (apply elem_of_cons in Hin as [Hin|Hin]; [injection Hin as -> ->; reflexivity|]). by apply not_elem_of_nil in Hin.
  - intros l'. cbn [app rules_of].
    assert (filter_of params (SList [Sym "subpath"; x]) = Some (Subpath v)) as Hf by (cbn; by rewrite Hv).
    repeat (apply elem_of_cons in Hin as [Hin|Hin];
      [injection Hin as -> ->; cbn [rule_args]; rewrite Hf; cbn; by destruct (rules_of params l')|]).
    by apply not_elem_of_nil in Hin.
Qed.

Lemma base_means : means base_rules base_meaning.
Proof.
  exists (SList [Sym "version"; Sym "1"] :: ((λ r, SList (Sym (if r_allow r then "allow" else "deny") :: (Sym <$> r_ops r))) <$> base_meaning)).
  split; [intros top stack; reflexivity|]. intros l'. cbn. by destruct (rules_of params l').
Qed.
End Means.

(** ** Lemmas: the network rules *)

Section NetMeans.
Context (params : list (string * string)).

Lemma deny_network_means :
  means params deny_network_rules [rule false "network*" []; rule true "network-outbound" [RemoteUnix None]].
Proof.
  exists [SList [Sym "deny"; Sym "network*"]; SList [Sym "allow"; Sym "network-outbound"; SList [Sym "remote"; Sym "unix-socket"]]].
  split; [intros top stack; reflexivity|]. intros l'. cbn. by destruct (rules_of params l').
Qed.

Definition socket_sexps (name : string) : list Sexp :=
  [SList [Sym "deny"; Sym "network-outbound"; SList [Sym "remote"; Sym "unix-socket"; SList [Sym "path-literal"; Str ("/private" +:+ name)]]];
   SList [Sym "deny"; Sym "network-outbound"; SList [Sym "remote"; Sym "unix-socket"; SList [Sym "path-literal"; Str name]]];
   SList [Sym "deny"; Sym "file-read*"; Sym "file-write*"; SList [Sym "literal"; Str ("/private" +:+ name)]];
   SList [Sym "deny"; Sym "file-read*"; Sym "file-write*"; SList [Sym "literal"; Str name]]].

Lemma sockets_means : means params (sconcat (socket_rules <$> SOCKETS)) (SOCKETS ≫= socket_meaning).
Proof.
  assert (∀ name, name ∈ SOCKETS → means params (socket_rules name) (socket_meaning name)) as H.
  { intros name Hin. exists (socket_sexps name). split.
    - intros top stack. repeat (apply elem_of_cons in Hin as [->|Hin]; [reflexivity|]). by apply not_elem_of_nil in Hin.
    - intros l'. cbn. by destruct (rules_of params l'). }
  unfold SOCKETS. cbn [fmap list_fmap mbind list_bind sconcat foldr].
  repeat (apply means_app; [apply H; unfold SOCKETS; set_solver|]). apply means_nil.
Qed.

Lemma to_dec_plain n : 0 ≤ n → all_chars plain_char (to_dec n) = true.
Proof.
  intros Hn. eapply all_chars_mono; [|by apply to_dec_digits]. intros c Hc. unfold plain_char.
  destruct (Ascii.eqb_spec c (chr 92)) as [->|_]; [discriminate Hc|]. by destruct (Ascii.eqb_spec c (chr 34)) as [->|_].
Qed.

Lemma port_means proto port :
  proto ∈ ["tcp"; "ip"] → 0 ≤ port →
  means params ("(allow network-outbound (remote " +:+ proto +:+ " " +:+ quoted ("localhost:" +:+ to_dec port) +:+ "))" +:+ nl)
    [rule true "network-outbound" [Remote proto ("localhost:" +:+ to_dec port)]].
Proof.
  intros Hin Hp. set (address := "localhost:" +:+ to_dec port).
  apply (means_rule _ _ (SList ([Sym "allow"; Sym "network-outbound"] ++ [SList ([Sym "remote"; Sym proto] ++ [Str address])]))).
  - assert ("(allow network-outbound (remote " +:+ proto +:+ " " +:+ quoted address +:+ "))" +:+ nl
            = ("(allow network-outbound (remote " +:+ proto +:+ " ") +:+ quoted address +:+ ("))" +:+ nl)) as ->
      by (by rewrite !string_app_assoc).
    apply reads_within; [|reflexivity|].
    + repeat (apply elem_of_cons in Hin as [->|Hin]; [reflexivity|]). by apply not_elem_of_nil in Hin.
    + apply reads_plain. unfold address. rewrite all_chars_app. by rewrite to_dec_plain.
  - intros l'. repeat (apply elem_of_cons in Hin as [->|Hin]; [cbn; by destruct (rules_of params l')|]). by apply not_elem_of_nil in Hin.
Qed.

Lemma net_means net port :
  (∀ n, port = Some n → 0 ≤ n) → means params (net_rules net port) (net_meaning net port).
Proof.
  intros Hp. unfold net_rules, net_meaning. destruct net as [|ds|rs|].
  - apply means_app; [apply deny_network_means|apply sockets_means].
  - apply means_app; [apply deny_network_means|]. apply means_app; [apply sockets_means|].
    destruct port as [n|]; [|apply means_nil]. specialize (Hp n eq_refl).
    pose proof (port_means "tcp" n ltac:(set_solver) Hp) as H1. pose proof (port_means "ip" n ltac:(set_solver) Hp) as H2.
    pose proof (means_app _ _ _ _ _ H1 H2) as H. rewrite !string_app_assoc in H. exact H.
  - rewrite app_nil_r. apply deny_network_means.
  - rewrite app_nil_r. apply deny_network_means.
Qed.

(** A comment at the end is not read. *)
Lemma comment_reads text rs comment :
  means params text rs → (∀ l, run (Some (LPlain, [l])) comment = Some (LPlain, [l])) →
  profile_rules params (text +:+ comment) = Some rs.
Proof.
  intros (l & Hr & Hm) Hc. unfold profile_rules, read_profile. rewrite run_text_app, Hr, Hc, app_nil_r, rev_involutive.
  specialize (Hm []). by rewrite app_nil_r in Hm; rewrite Hm; cbn; rewrite app_nil_r.
Qed.
End NetMeans.

(** ** Lemmas: parameters *)

Lemma to_dec_inj m n : 0 ≤ m → 0 ≤ n → to_dec m = to_dec n → m = n.
Proof. intros Hm Hn E. pose proof (digits_acc_to_dec m Hm) as H. rewrite E, digits_acc_to_dec in H by done. by injection H. Qed.

Lemma find_unique {A} (P : A → bool) l x : x ∈ l → P x = true → (∀ y, y ∈ l → P y = true → y = x) → List.find P l = Some x.
Proof.
  intros Hx Hp Hu. induction l as [|y l IH]; [by apply not_elem_of_nil in Hx|]. cbn [List.find].
  destruct (P y) eqn:E; [f_equal; apply Hu; [left|done]|]. apply elem_of_cons in Hx as [->|Hx]; [congruence|].
  apply IH; [done|]. intros z Hz. apply Hu. by right.
Qed.

Lemma key_inj (pre : string) i j : pre +:+ to_dec (Z.of_nat i) = pre +:+ to_dec (Z.of_nat j) → i = j.
Proof.
  intros E. assert (to_dec (Z.of_nat i) = to_dec (Z.of_nat j)) as H.
  { induction pre as [|c pre IH]; [done|]. apply IH. cbn in E. by injection E. }
  apply to_dec_inj in H; lia.
Qed.

Section Template.
Context (policy : Policy) (net : NetMode) (port : option Z).

Definition template_params : list (string * string) :=
  imap (λ i p, (write_key i, to_str p)) (allow_write policy)
  ++ imap (λ i d, (deny_key i, to_str (deny_path d))) (deny_resolved policy).

Lemma params_elem kv :
  kv ∈ template_params ↔ (∃ i p, kv = (write_key i, to_str p) ∧ allow_write policy !! i = Some p)
                         ∨ (∃ i d, kv = (deny_key i, to_str (deny_path d)) ∧ deny_resolved policy !! i = Some d).
Proof. unfold template_params. by rewrite elem_of_app, !elem_of_lookup_imap. Qed.

Lemma write_value i p : allow_write policy !! i = Some p →
  value_of template_params (SList [Sym "param"; Str (write_key i)]) = Some (to_str p).
Proof.
  intros Hi. cbn [value_of]. rewrite (find_unique _ _ (write_key i, to_str p)); [done| | |].
  - apply params_elem. left. by exists i, p.
  - apply String.eqb_refl.
  - intros kv [(j & q & -> & Hj)|(j & d & -> & Hj)]%params_elem E%String.eqb_eq; cbn [fst] in E.
    + apply (key_inj "ALLOW_WRITE_DIR_") in E as ->. congruence.
    + discriminate E.
Qed.

Lemma deny_value i d : deny_resolved policy !! i = Some d →
  value_of template_params (SList [Sym "param"; Str (deny_key i)]) = Some (to_str (deny_path d)).
Proof.
  intros Hi. cbn [value_of]. rewrite (find_unique _ _ (deny_key i, to_str (deny_path d))); [done| | |].
  - apply params_elem. right. by exists i, d.
  - apply String.eqb_refl.
  - intros kv [(j & q & -> & Hj)|(j & e & -> & Hj)]%params_elem E%String.eqb_eq; cbn [fst] in E.
    + discriminate E.
    + apply (key_inj "DENY_PATH_") in E as ->. congruence.
Qed.

Lemma reads_param key : all_chars plain_char key = true → reads (param key) [SList [Sym "param"; Str key]].
Proof.
  intros Hk top stack. unfold param. rewrite !run_text_app.
  change (run (Some (LPlain, top :: stack)) "(param ") with (Some (LPlain, [Sym "param"] :: top :: stack)).
  by rewrite (reads_plain key Hk).
Qed.

Lemma means_imap {A} params (f : nat → A → string) (g : A → list Rule) l :
  (∀ i x, l !! i = Some x → means params (f i x) (g x)) → means params (sconcat (imap f l)) (l ≫= g).
Proof.
  revert f. induction l as [|x l IH]; intros f H; [apply means_nil|].
  rewrite imap_cons. cbn [sconcat foldr mbind list_bind]. apply means_app; [by apply H|].
  apply IH. intros i y Hy. by apply (H (S i)).
Qed.

Lemma key_plain pre i : all_chars plain_char pre = true → all_chars plain_char (pre +:+ to_dec (Z.of_nat i)) = true.
Proof. intros H. rewrite all_chars_app, H. apply to_dec_plain. lia. Qed.

Lemma write_meaning_bind ws : write_meaning ws = ws ≫= λ w, [rule true "file-write*" [Subpath (to_str w)]].
Proof. unfold write_meaning. induction ws as [|w ws IH]; [done|]. cbn. by f_equal. Qed.

Lemma template_meaning :
  (∀ n, port = Some n → 0 ≤ n) →
  let '(template, params) := generate_sbpl_template_and_params policy net port in
  profile_rules params template = Some (meaning (Subpath "/") policy net port).
Proof.
  intros Hp. unfold generate_sbpl_template_and_params. cbv zeta. fold template_params.
  set (read := "(allow file-read* (subpath " +:+ quoted "/" +:+ "))" +:+ nl).
  set (writes := sconcat (imap _ (allow_write policy))). set (denies := sconcat (imap _ (deny_resolved policy))).
  assert ((((base_rules +:+ read) +:+ writes) +:+ denies) +:+ net_rules net port +:+ nl +:+ "; generated by vetto native seatbelt" +:+ nl
          = (base_rules +:+ read +:+ writes +:+ denies +:+ net_rules net port)
            +:+ (nl +:+ "; generated by vetto native seatbelt" +:+ nl)) as -> by (by rewrite !string_app_assoc).
  apply comment_reads; [|intros l; reflexivity]. unfold meaning.
  apply means_app; [apply base_means|]. apply means_app.
  { apply (subpath_means _ true "file-read*" (quoted "/") (Str "/")); [set_solver|by apply reads_plain|done]. }
  apply means_app; [rewrite write_meaning_bind; apply means_imap|apply means_app; [apply means_imap|by apply net_means]].
  - intros i w Hi. apply (subpath_means _ true "file-write*" _ (SList [Sym "param"; Str (write_key i)])); [set_solver| |by apply write_value].
    by apply reads_param, key_plain.
  - intros i d Hi. change [?a; ?b] with ([a] ++ [b]). apply means_app.
    + apply (subpath_means _ false "file-read*" _ (SList [Sym "param"; Str (deny_key i)])); [set_solver| |by apply deny_value].
      by apply reads_param, key_plain.
    + apply (subpath_means _ false "file-write*" _ (SList [Sym "param"; Str (deny_key i)])); [set_solver| |by apply deny_value].
      by apply reads_param, key_plain.
Qed.
End Template.

(** ** Lemmas: the strict shape *)

Lemma filter_any params (l : list (Sexp * Filter)) :
  (∀ x f, (x, f) ∈ l → filter_of params x = Some f) →
  filter_of params (SList (Sym "require-any" :: l.*1)) = Some (AnyOf l.*2).
Proof.
  intros H. change (filter_of params (SList (Sym "require-any" :: l.*1)))
    with (match (fix go (l : list Sexp) : option (list Filter) :=
            match l with
            | [] => Some []
            | x :: l => match filter_of params x, go l with Some f, Some fs => Some (f :: fs) | _, _ => None end
            end) l.*1 with Some fs => Some (AnyOf fs) | None => None end).
  assert ((fix go (l : list Sexp) : option (list Filter) :=
            match l with
            | [] => Some []
            | x :: l => match filter_of params x, go l with Some f, Some fs => Some (f :: fs) | _, _ => None end
            end) l.*1 = Some l.*2) as ->; [|done].
  induction l as [|[x f] l IH]; [done|]. cbn [fmap list_fmap fst snd]. rewrite (H x f) by left.
  rewrite IH; [done|]. intros y g Hy. apply H. by right.
Qed.

Definition line_sexp (form v : string) : Sexp := SList [Sym form; Str v].

Lemma reads_line form value v :
  form ∈ ["subpath"; "literal"] → reads value [Str v] → reads (read_line form value) [line_sexp form v].
Proof.
  intros Hin Hv top stack. unfold read_line. rewrite <-!string_app_assoc, (string_app_assoc _ ")"). rewrite !run_text_app.
  assert (run (run (run (Some (LPlain, top :: stack)) "    (") form) " " = Some (LPlain, [Sym form] :: top :: stack)) as E.
  { repeat (apply elem_of_cons in Hin as [->|Hin]; [reflexivity|]). by apply not_elem_of_nil in Hin. }
  by rewrite E, Hv.
Qed.

Lemma reads_lines {A} form (text value : A → string) l :
  form ∈ ["subpath"; "literal"] → (∀ x, reads (text x) [Str (value x)]) →
  reads (sconcat (read_line form ∘ text <$> l)) (line_sexp form ∘ value <$> l).
Proof.
  intros Hf Hv. induction l as [|x l IH]; [done|]. cbn [fmap list_fmap sconcat foldr].
  apply (reads_app _ _ [_] _); [by apply reads_line|done].
Qed.

Section ShapeD.
Context (policy : Policy) (net : NetMode) (port : option Z).

Definition any_lines : list (Sexp * Filter) :=
  ((λ v, (line_sexp "subpath" v, Subpath v)) <$>
     ["/System/Volumes/Preboot/Cryptexes/OS/System/Library/dyld/"; "/private/var/db/dyld/"; "/usr/lib/"; "/System/Library/Frameworks/"])
  ++ ((λ v, (line_sexp "literal" v, Literal v)) <$> ["/dev/null"; "/dev/zero"; "/dev/random"; "/dev/urandom"])
  ++ ((λ p, (line_sexp "subpath" (to_str p), Subpath (to_str p))) <$> allow_read policy)
  ++ ((λ p, (line_sexp "subpath" (to_str p), Subpath (to_str p))) <$> allow_write policy).

Lemma any_lines_mean x f : (x, f) ∈ any_lines → filter_of [] x = Some f.
Proof.
  unfold any_lines. rewrite !elem_of_app, !list_elem_of_fmap.
  intros [(v & [= -> ->] & _)|[(v & [= -> ->] & _)|[(p & [= -> ->] & _)|(p & [= -> ->] & _)]]]; done.
Qed.

Lemma any_lines_filters : AnyOf any_lines.*2 = shape_d_reads policy.
Proof. unfold any_lines, shape_d_reads. by rewrite !fmap_app, <-!list_fmap_compose. Qed.

Definition read_block : string :=
  "(allow file-read*" +:+ nl +:+ "  (require-any" +:+ nl
  +:+ sconcat (read_line "subpath" ∘ quoted <$>
        ["/System/Volumes/Preboot/Cryptexes/OS/System/Library/dyld/"; "/private/var/db/dyld/"; "/usr/lib/";
         "/System/Library/Frameworks/"])
  +:+ sconcat (read_line "literal" ∘ quoted <$> ["/dev/null"; "/dev/zero"; "/dev/random"; "/dev/urandom"])
  +:+ sconcat (read_line "subpath" ∘ inline <$> allow_read policy)
  +:+ sconcat (read_line "subpath" ∘ inline <$> allow_write policy)
  +:+ "  )" +:+ nl +:+ ")" +:+ nl.

Lemma read_block_reads : reads read_block [SList [Sym "allow"; Sym "file-read*"; SList (Sym "require-any" :: any_lines.*1)]].
Proof.
  unfold read_block. set (fixed := sconcat (read_line "subpath" ∘ quoted <$> _)). set (dev := sconcat (read_line "literal" ∘ quoted <$> _)).
  set (rd := sconcat (read_line "subpath" ∘ inline <$> allow_read policy)).
  set (wr := sconcat (read_line "subpath" ∘ inline <$> allow_write policy)).
  assert (reads (fixed +:+ dev +:+ rd +:+ wr) any_lines.*1) as Hl.
  { unfold any_lines. rewrite !fmap_app, <-!list_fmap_compose. apply reads_app; [intros top stack; reflexivity|].
    apply reads_app; [intros top stack; reflexivity|]. apply reads_app; apply reads_lines; first [set_solver|apply reads_inline]. }
  assert ("(allow file-read*" +:+ nl +:+ "  (require-any" +:+ nl +:+ fixed +:+ dev +:+ rd +:+ wr +:+ "  )" +:+ nl +:+ ")" +:+ nl
          = ("(allow file-read*" +:+ nl +:+ "  (require-any" +:+ nl) +:+ (fixed +:+ dev +:+ rd +:+ wr) +:+ ("  )" +:+ nl +:+ ")" +:+ nl)) as ->
    by (by rewrite !string_app_assoc).
  intros top stack. rewrite (run_text_app _ ("(allow file-read*" +:+ nl +:+ "  (require-any" +:+ nl)), (run_text_app _ (fixed +:+ _)).
  change (run (Some (LPlain, top :: stack)) ("(allow file-read*" +:+ nl +:+ "  (require-any" +:+ nl))
    with (Some (LPlain, [Sym "require-any"] :: [Sym "file-read*"; Sym "allow"] :: top :: stack)).
  rewrite Hl. assert (∀ inner outer : list Sexp, run (Some (LPlain, inner :: outer :: top :: stack)) ("  )" +:+ nl +:+ ")" +:+ nl)
    = Some (LPlain, (SList (rev (SList (rev inner) :: outer)) :: top) :: stack)) as -> by done.
  by rewrite rev_app_distr, rev_involutive.
Qed.

Lemma read_block_means : means [] read_block [rule true "file-read*" [shape_d_reads policy]].
Proof.
  eapply means_rule; [apply read_block_reads|]. intros l'. cbn [rules_of].
  change (String.eqb "allow" "allow" || String.eqb "allow" "deny") with true. cbv iota. cbn [rule_args].
  rewrite (filter_any [] any_lines any_lines_mean), any_lines_filters. cbn. by destruct (rules_of [] l').
Qed.

Lemma inline_means (allow : bool) op p :
  (allow, op) ∈ [(true, "file-write*"); (true, "file-read*"); (false, "file-read*"); (false, "file-write*")] →
  means [] (subpath_rule (action_text allow op) (inline p)) [rule allow op [Subpath (to_str p)]].
Proof. intros H. by apply (subpath_means _ _ _ _ (Str (to_str p))); [|apply reads_inline|]. Qed.

Lemma means_bind {A} params (f : A → string) (g : A → list Rule) l :
  (∀ x, means params (f x) (g x)) → means params (sconcat (f <$> l)) (l ≫= g).
Proof.
  intros H. induction l as [|x l IH]; [apply means_nil|]. cbn [fmap list_fmap sconcat foldr mbind list_bind].
  by apply means_app.
Qed.

Lemma shape_d_meaning :
  (∀ n, port = Some n → 0 ≤ n) →
  profile_rules [] (generate_sbpl_shape_d policy net port) = Some (meaning (shape_d_reads policy) policy net port).
Proof.
  intros Hp. unfold generate_sbpl_shape_d.
  set (writes := sconcat (subpath_rule "allow file-write*" ∘ inline <$> allow_write policy)).
  set (denies := sconcat (_ <$> deny_resolved policy)).
  transitivity (profile_rules [] ((base_rules +:+ read_block +:+ writes +:+ denies +:+ net_rules net port)
    +:+ (nl +:+ "; generated by vetto native seatbelt shape-d" +:+ nl))); [unfold read_block; by rewrite !string_app_assoc|].
  apply comment_reads; [|intros l; reflexivity]. unfold meaning.
  apply means_app; [apply base_means|]. apply means_app; [apply read_block_means|].
  apply means_app; [rewrite write_meaning_bind; apply means_bind|apply means_app; [apply means_bind|by apply net_means]].
  - intros w. apply (inline_means true "file-write*"). set_solver.
  - intros d. change [?a; ?b] with ([a] ++ [b]).
    apply means_app; [apply (inline_means false "file-read*")|apply (inline_means false "file-write*")]; set_solver.
Qed.
End ShapeD.

(** ** Lemmas: the last match *)

Definition under (p : path) (roots : list path) : bool := existsb (path_starts_with p) roots.
Definition closed_socket (p : path) : bool :=
  existsb (λ name, bool_decide (p = components ("/private" +:+ name)) || bool_decide (p = components name)) SOCKETS.
Definition sockets_closed (net : NetMode) : bool := match net with NetOff | NetAllowlist _ => true | _ => false end.

(** What a profile that reads [reads] is to allow. *)
Definition may_write (policy : Policy) (net : NetMode) (p : path) : bool :=
  under p (allow_write policy) && negb (under p (deny_path <$> deny_resolved policy))
  && negb (sockets_closed net && closed_socket p).
Definition may_read (reads : Filter) (policy : Policy) (net : NetMode) (p : path) : bool :=
  filter_matches reads (OnPath p) && negb (under p (deny_path <$> deny_resolved policy))
  && negb (sockets_closed net && closed_socket p).
Definition may_connect (net : NetMode) (port : option Z) (op : string) (t : Access) : bool :=
  String.eqb op "network-outbound"
  && match t with
     | ToUnix p => negb (sockets_closed net && closed_socket p)
     | ToInet _ address =>
         match net, port with NetAllowlist _, Some n => String.eqb ("localhost:" +:+ to_dec n) address | _, _ => false end
     | _ => false
     end.
Definition BASE_OPS : list string := ["process-exec"; "process-fork"; "sysctl-read"; "mach-lookup"].

Section Decision.
Context (op : string) (t : Access).

Definition dec (v : bool) (rules : list Rule) : bool :=
  foldl (λ verdict r, if rule_matches r op t then r_allow r else verdict) v rules.
Lemma dec_app v a b : dec v (a ++ b) = dec (dec v a) b.
Proof. apply foldl_app. Qed.
Lemma dec_skip v rules : (∀ r, r ∈ rules → rule_matches r op t = false) → dec v rules = v.
Proof.
  revert v. induction rules as [|r rules IH]; intros v H; [done|]. cbn [dec foldl]. rewrite (H r) by left.
  apply IH. intros r' Hr'. apply H. by right.
Qed.
Lemma dec_allow v rules : Forall (λ r, r_allow r = true) rules → dec v rules = v || existsb (λ r, rule_matches r op t) rules.
Proof.
  intros H. revert v. induction H as [|r rules Hr H IH]; intros v; [cbn; by rewrite orb_false_r|]. cbn [dec foldl existsb].
  unfold dec in IH. rewrite IH, Hr. by destruct (rule_matches r op t), v.
Qed.
Lemma dec_deny v rules : Forall (λ r, r_allow r = false) rules → dec v rules = v && negb (existsb (λ r, rule_matches r op t) rules).
Proof.
  intros H. revert v. induction H as [|r rules Hr H IH]; intros v; [cbn; by rewrite andb_true_r|]. cbn [dec foldl existsb].
  unfold dec in IH. rewrite IH, Hr. by destruct (rule_matches r op t), v.
Qed.
End Decision.

Lemma existsb_bind {A B} (f : A → list B) (P : B → bool) l : existsb P (l ≫= f) = existsb (λ x, existsb P (f x)) l.
Proof. induction l as [|x l IH]; [done|]. cbn [mbind list_bind existsb]. by rewrite existsb_app, IH. Qed.
Lemma existsb_fmap {A B} (f : A → B) (P : B → bool) l : existsb P (f <$> l) = existsb (P ∘ f) l.
Proof. induction l as [|x l IH]; [done|]. cbn. by rewrite IH. Qed.

Section Profile.
Context (reads : Filter) (policy : Policy) (net : NetMode) (port : option Z).
Hypothesis write_ok : ∀ w, w ∈ allow_write policy → path_ok w = true.
Hypothesis deny_ok : ∀ d, d ∈ deny_resolved policy → path_ok (deny_path d) = true.

Lemma deny_all_deny ds : Forall (λ r, r_allow r = false) (deny_meaning ds).
Proof. unfold deny_meaning. induction ds as [|d ds IH]; [constructor|]. cbn. by repeat constructor. Qed.
Lemma socket_all_deny : Forall (λ r, r_allow r = false) (SOCKETS ≫= socket_meaning).
Proof. by repeat constructor. Qed.

Lemma wild_op pre s : pre ∈ ["file-read"; "file-write"; "network"] → op_matches (pre +:+ "*") (pre +:+ s) = true.
Proof.
  intros Hin. unfold op_matches. rewrite orb_true_iff. right.
  repeat (apply elem_of_cons in Hin as [->|Hin]; [reflexivity|]). by apply not_elem_of_nil in Hin.
Qed.

(** What the network rules say of files. *)
Lemma net_on_path v op p :
  op_matches "network*" op = false → op_matches "network-outbound" op = false →
  existsb (λ pat, op_matches pat op) ["file-read*"; "file-write*"] = true →
  dec op (OnPath p) v (net_meaning net port) = v && negb (sockets_closed net && closed_socket p).
Proof.
  intros H1 H2 H3. unfold net_meaning. rewrite dec_app.
  assert (∀ allow fs, rule_matches (rule allow "network*" fs) op (OnPath p) = false) as N1.
  { intros allow fs. unfold rule_matches, rule. cbn [r_ops existsb]. by rewrite H1. }
  assert (∀ allow fs, rule_matches (rule allow "network-outbound" fs) op (OnPath p) = false) as N2.
  { intros allow fs. unfold rule_matches, rule. cbn [r_ops existsb]. by rewrite H2. }
  rewrite (dec_skip op (OnPath p) v [_; _]).
  2: { intros r Hr. repeat (apply elem_of_cons in Hr as [->|Hr]; [by rewrite ?N1, ?N2|]). by apply not_elem_of_nil in Hr. }
  assert (∀ v, dec op (OnPath p) v (SOCKETS ≫= socket_meaning) = v && negb (closed_socket p)) as HS.
  { intros v'. rewrite dec_deny by apply socket_all_deny. f_equal. f_equal. rewrite existsb_bind.
    apply existsb_ext. intros name _. unfold socket_meaning. cbn [existsb]. rewrite !N2.
    unfold rule_matches. cbn [r_ops r_filters]. rewrite H3. cbn [existsb filter_matches andb orb]. by rewrite !orb_false_r. }
  destruct net as [|ds|rs|]; cbn [sockets_closed andb negb]; rewrite ?andb_true_r; [by rewrite HS| |done..].
  rewrite dec_app, HS. apply dec_skip. intros r Hr. destruct port as [n|]; [|by apply not_elem_of_nil in Hr].
  repeat (apply elem_of_cons in Hr as [->|Hr]; [by rewrite N2|]). by apply not_elem_of_nil in Hr.
Qed.

Lemma subpath_matches op pat allow v p :
  op_matches pat op = true → rule_matches (rule allow pat [Subpath v]) op (OnPath p) = path_starts_with p (components v).
Proof. intros H. unfold rule_matches, rule. cbn [r_ops r_filters existsb filter_matches]. by rewrite H, !orb_false_r. Qed.
Lemma other_op op pat allow fs t : op_matches pat op = false → rule_matches (rule allow pat fs) op t = false.
Proof. intros H. unfold rule_matches, rule. cbn [r_ops existsb]. by rewrite H. Qed.

Lemma ok_components p : path_ok p = true → components (to_str p) = p.
Proof. apply components_to_str. Qed.

Lemma deny_part v op p :
  (op_matches "file-read*" op = true ∧ op_matches "file-write*" op = false)
  ∨ (op_matches "file-read*" op = false ∧ op_matches "file-write*" op = true) →
  dec op (OnPath p) v (deny_meaning (deny_resolved policy)) = v && negb (under p (deny_path <$> deny_resolved policy)).
Proof.
  intros Hop. rewrite dec_deny by apply deny_all_deny. f_equal. f_equal. unfold deny_meaning, under.
  rewrite existsb_bind, existsb_fmap. apply existsb_ext. intros d Hd. cbn [existsb compose].
  rewrite <-(ok_components (deny_path d)) at 3 by by apply deny_ok.
  destruct Hop as [[H1 H2]|[H1 H2]].
  - rewrite (subpath_matches op "file-read*"), (other_op op "file-write*") by done. by rewrite orb_false_r.
  - rewrite (subpath_matches op "file-write*"), (other_op op "file-read*") by done. by rewrite orb_false_r.
Qed.

Lemma decision_write s p : decision (meaning reads policy net port) ("file-write" +:+ s) (OnPath p) = may_write policy net p.
Proof.
  pose proof (wild_op "file-write" s ltac:(set_solver)) as Hw.
  change (dec ("file-write" +:+ s) (OnPath p) false (meaning reads policy net port) = may_write policy net p).
  unfold meaning, may_write. rewrite !dec_app. rewrite net_on_path; [|reflexivity|reflexivity|].
  2: { cbn [existsb]. change "file-write*" with ("file-write" +:+ "*"). by rewrite Hw, orb_true_r. }
  f_equal. rewrite deny_part by (right; by split). f_equal.
  change (dec ("file-write" +:+ s) (OnPath p) (dec ("file-write" +:+ s) (OnPath p) false base_meaning) [rule true "file-read*" [reads]]) with false.
  rewrite dec_allow by (apply Forall_fmap, Forall_forall; done). unfold write_meaning, under. rewrite existsb_fmap.
  apply existsb_ext. intros w Hin. cbn [compose]. rewrite subpath_matches by done. by rewrite ok_components by by apply write_ok.
Qed.

Lemma decision_read s p : decision (meaning reads policy net port) ("file-read" +:+ s) (OnPath p) = may_read reads policy net p.
Proof.
  pose proof (wild_op "file-read" s ltac:(set_solver)) as Hr.
  change (dec ("file-read" +:+ s) (OnPath p) false (meaning reads policy net port) = may_read reads policy net p).
  unfold meaning, may_read. rewrite !dec_app. rewrite net_on_path; [|reflexivity|reflexivity|].
  2: { cbn [existsb]. change "file-read*" with ("file-read" +:+ "*"). by rewrite Hr. }
  f_equal. rewrite deny_part by (left; by split). f_equal.
  rewrite dec_skip.
  - change (dec ("file-read" +:+ s) (OnPath p) false base_meaning) with false. cbn [dec foldl].
    unfold rule_matches, rule. cbn [r_ops r_filters r_allow existsb]. change "file-read*" with ("file-read" +:+ "*").
    rewrite Hr. cbn [orb andb]. rewrite orb_false_r. by destruct (filter_matches reads (OnPath p)).
  - intros r (w & -> & _)%list_elem_of_fmap. by apply other_op.
Qed.
Lemma before_net op t : op_matches "file-read*" op = false → op_matches "file-write*" op = false →
  dec op t false (meaning reads policy net port)
  = dec op t (dec op t false base_meaning) (net_meaning net port).
Proof.
  intros H1 H2. unfold meaning. rewrite !dec_app. f_equal. rewrite (dec_skip op t _ (deny_meaning _)), (dec_skip op t _ (write_meaning _)).
  - apply dec_skip. intros r ->%list_elem_of_singleton. by apply other_op.
  - intros r (w & -> & _)%list_elem_of_fmap. by apply other_op.
  - intros r (d & Hr & _)%list_elem_of_bind. cbn in Hr.
    repeat (apply elem_of_cons in Hr as [->|Hr]; [by apply other_op|]). by apply not_elem_of_nil in Hr.
Qed.

(** An operation no network rule allows. *)
Lemma net_denies v op t :
  v = false → op_matches "network-outbound" op = false → op_matches "file-read*" op = false → op_matches "file-write*" op = false →
  dec op t v (net_meaning net port) = false.
Proof.
  intros -> H1 H2 H3. rewrite <-(andb_false_l (negb (existsb (λ r, rule_matches r op t) [rule false "network*" []]))).
  unfold net_meaning. rewrite dec_app. change ([?a; ?b]) with ([a] ++ [b]). rewrite dec_app, (dec_deny op t false [_]) by by repeat constructor.
  cbn [andb]. rewrite (dec_skip op t false [_]) by (intros r ->%list_elem_of_singleton; by apply other_op).
  apply dec_skip. assert (∀ r, r ∈ SOCKETS ≫= socket_meaning → rule_matches r op t = false) as HS.
  { intros r (name & Hr & _)%list_elem_of_bind. unfold socket_meaning in Hr.
    repeat (apply elem_of_cons in Hr as [->|Hr]; [by first [apply other_op|unfold rule_matches; cbn [r_ops existsb]; rewrite H2, H3]|]).
    by apply not_elem_of_nil in Hr. }
  intros r Hr. destruct net as [|ds|rs|]; [by apply HS| |by apply not_elem_of_nil in Hr..].
  apply elem_of_app in Hr as [Hr|Hr]; [by apply HS|]. destruct port as [n|]; [|by apply not_elem_of_nil in Hr].
  repeat (apply elem_of_cons in Hr as [->|Hr]; [by apply other_op|]). by apply not_elem_of_nil in Hr.
Qed.

Lemma sockets_outbound v t :
  dec "network-outbound" t v (SOCKETS ≫= socket_meaning) = v && negb (match t with ToUnix p => closed_socket p | _ => false end).
Proof.
  rewrite dec_deny by apply socket_all_deny. f_equal. f_equal. rewrite existsb_bind. destruct t as [p|p|proto a|]; [done| |done..].
  apply existsb_ext. intros name _. unfold socket_meaning. cbn [existsb].
  assert (∀ v, rule_matches (mk_rule false ["file-read*"; "file-write*"] [Literal v]) "network-outbound" (ToUnix p) = false) as HL by done.
  rewrite !HL. unfold rule_matches, rule. cbn [r_ops r_filters existsb filter_matches].
  change (op_matches "network-outbound" "network-outbound") with true. cbn [orb andb]. by rewrite !orb_false_r.
Qed.

Lemma decision_network s t :
  decision (meaning reads policy net port) ("network" +:+ s) t = may_connect net port ("network" +:+ s) t.
Proof.
  change (dec ("network" +:+ s) t false (meaning reads policy net port) = may_connect net port ("network" +:+ s) t).
  rewrite before_net by reflexivity. unfold may_connect. destruct (String.eqb_spec ("network" +:+ s) "network-outbound") as [E|Hne].
  - rewrite E. change (dec "network-outbound" t false base_meaning) with false. unfold net_meaning. rewrite dec_app.
    assert (dec "network-outbound" t false [rule false "network*" []; rule true "network-outbound" [RemoteUnix None]]
            = match t with ToUnix _ => true | _ => false end) as -> by by destruct t.
    destruct net as [|ds|rs|].
    + rewrite sockets_outbound. by destruct t.
    + rewrite dec_app, sockets_outbound. destruct port as [n|]; cbn [dec foldl]; [|by destruct t; rewrite ?andb_true_l].
      unfold rule_matches, rule. cbn [r_ops r_filters r_allow existsb].
      change (op_matches "network-outbound" "network-outbound") with true. cbn [orb andb filter_matches].
      destruct t as [p|p|proto a|]; try done. cbn [filter_matches andb negb].
      change (String.eqb "ip" "ip") with true. rewrite !orb_false_r. cbn [orb andb].
      destruct (String.eqb ("localhost:" +:+ to_dec n) a); [done|]. by rewrite andb_false_r.
    + by destruct t.
    + by destruct t.
  - apply net_denies; try reflexivity. unfold op_matches.
    rewrite (proj2 (String.eqb_neq "network-outbound" ("network" +:+ s))); [done|congruence].
Qed.

End Profile.

(** ** The profiles confine *)

(** The sockets of the host's daemons, by both of their names. *)
Definition daemon_sockets : list path :=
  components <$> ["/private/var/run/mDNSResponder"; "/var/run/mDNSResponder"; "/private/var/run/usbmuxd";
                  "/var/run/usbmuxd"; "/private/var/run/docker.sock"; "/var/run/docker.sock"].

Lemma closed_socket_iff p : closed_socket p = true ↔ p ∈ daemon_sockets.
Proof.
  unfold closed_socket, daemon_sockets, SOCKETS. cbn [existsb].
  rewrite !orb_true_iff, !bool_decide_eq_true. cbn [fmap list_fmap]. rewrite !elem_of_cons.
  cbn [String.append]. pose proof (not_elem_of_nil p). pose proof diff_false_true. tauto.
Qed.

Lemma under_iff p l : under p l = true ↔ ∃ w, w ∈ l ∧ path_starts_with p w = true.
Proof. unfold under. by rewrite existsb_true. Qed.

Lemma allowed_iff (b : bool) policy p :
  b && negb (under p (deny_path <$> deny_resolved policy)) && negb (closed_socket p) = true
  ↔ b = true ∧ (∀ d, d ∈ deny_resolved policy → path_starts_with p (deny_path d) = false) ∧ p ∉ daemon_sockets.
Proof.
  rewrite !andb_true_iff, !negb_true_iff, <-closed_socket_iff, not_true_iff_false.
  assert (under p (deny_path <$> deny_resolved policy) = false
          ↔ ∀ d, d ∈ deny_resolved policy → path_starts_with p (deny_path d) = false) as ->; [|tauto].
  rewrite <-not_true_iff_false, under_iff. split.
  - intros H d Hd. apply not_true_iff_false. intros E. apply H. exists (deny_path d). split; [|done].
    by apply list_elem_of_fmap_2.
  - intros H (w & (d & -> & Hd)%list_elem_of_fmap & E). by rewrite H in E.
Qed.

(** C26: The macOS profile says what the policy says, in the two modes the backend runs,
    no network and an allow list.  Its text, for any roots and secrets whatever their
    characters, is read as a profile in which - the last matching rule winning - a path
    can be written exactly if it is under a write root, under no denied path and no
    socket of the host's resolver, USB or container daemon, and read exactly if it is
    absolute and likewise under no denied path and no such socket; of the network
    operations only outbound connections are allowed, exactly to local sockets other
    than those and, with an allow list and a running proxy, to the proxy's port. *)
Theorem seatbelt_confines policy net port :
  (∀ w, w ∈ allow_write policy → path_ok w = true) → (∀ d, d ∈ deny_resolved policy → path_ok (deny_path d) = true) →
  (∀ n, port = Some n → 0 ≤ n) → (net = NetOff ∨ ∃ domains, net = NetAllowlist domains) →
  let '(template, params) := generate_sbpl_template_and_params policy net port in
  let denied p := ∃ d, d ∈ deny_resolved policy ∧ path_starts_with p (deny_path d) = true in
  ∃ rules, profile_rules params template = Some rules
  ∧ (∀ s p, decision rules ("file-write" +:+ s) (OnPath p) = true
       ↔ (∃ w, w ∈ allow_write policy ∧ path_starts_with p w = true) ∧ ¬ denied p ∧ p ∉ daemon_sockets)
  ∧ (∀ s p, decision rules ("file-read" +:+ s) (OnPath p) = true
       ↔ path_starts_with p [RootDir] = true ∧ ¬ denied p ∧ p ∉ daemon_sockets)
  ∧ (∀ s t, decision rules ("network" +:+ s) t = true
       ↔ s = "-outbound"
         ∧ match t with
           | ToUnix p => p ∉ daemon_sockets
           | ToInet _ address => ∃ domains n, net = NetAllowlist domains ∧ port = Some n
                                              ∧ address = "localhost:" +:+ to_dec n
           | _ => False
           end).
Proof.
  intros Hw Hd Hp Hnet. pose proof (template_meaning policy net port Hp) as H.
  assert (sockets_closed net = true) as Hc by by destruct Hnet as [->|[ds ->]].
  assert (∀ p, (¬ ∃ d, d ∈ deny_resolved policy ∧ path_starts_with p (deny_path d) = true)
    ↔ ∀ d, d ∈ deny_resolved policy → path_starts_with p (deny_path d) = false) as Hden.
  { intros p. setoid_rewrite <-not_true_iff_false. naive_solver. }
  destruct (generate_sbpl_template_and_params policy net port) as [template params]. cbv zeta.
  exists (meaning (Subpath "/") policy net port). split; [done|]. split; [|split].
  - intros s p. rewrite decision_write by done. unfold may_write. rewrite Hc, Hden.
    change (true && closed_socket p) with (closed_socket p). by rewrite allowed_iff, under_iff.
  - intros s p. rewrite decision_read by done. unfold may_read. rewrite Hc, Hden.
    change (true && closed_socket p) with (closed_socket p). by rewrite allowed_iff.
  - intros s t. rewrite decision_network by done. unfold may_connect. rewrite Hc, andb_true_iff, String.eqb_eq.
    assert ("network" +:+ s = "network-outbound" ↔ s = "-outbound") as ->.
    { split; [by intros [= ->]|by intros ->]. }
    apply and_iff_compat_l. destruct t as [p|p|proto address|]; try done.
    + change (true && closed_socket p) with (closed_socket p).
      by rewrite negb_true_iff, <-closed_socket_iff, not_true_iff_false.
    + destruct Hnet as [->|[ds ->]]; [split; [done|by intros (? & ? & ? & _)]|].
      destruct port as [n|]; [|split; [done|by intros (? & ? & _ & ? & _)]]. rewrite String.eqb_eq. split.
      * intros <-. by exists ds, n.
      * by intros (? & ? & [= <-] & [= <-] & ->).
Qed.

Lemma seatbelt_confines_witness :
  let '(template, params) := generate_sbpl_template_and_params demo_policy (NetAllowlist []) (Some 5000) in
  ∃ rules, profile_rules params template = Some rules
  ∧ decision rules "file-write-data" (OnPath [RootDir; Normal "w"; Normal "x"]) = true
  ∧ decision rules "file-write-data" (OnPath [RootDir; Normal "w"; Normal ".env"]) = false
  ∧ decision rules "network-outbound" (ToInet "tcp" "localhost:5000") = true.
Proof.
  assert (∀ w, w ∈ allow_write demo_policy → path_ok w = true) as Hw.
  { intros w Hw. unfold demo_policy in Hw. cbn [allow_write] in Hw.
    repeat (apply elem_of_cons in Hw as [->|Hw]; [reflexivity|]). by apply not_elem_of_nil in Hw. }
  assert (∀ d, d ∈ deny_resolved demo_policy → path_ok (deny_path d) = true) as Hd.
  { intros d Hd. unfold demo_policy in Hd. cbn [deny_resolved] in Hd. by apply list_elem_of_singleton in Hd as ->. }
  pose proof (seatbelt_confines demo_policy (NetAllowlist []) (Some 5000) Hw Hd) as H.
  destruct (generate_sbpl_template_and_params demo_policy (NetAllowlist []) (Some 5000)) as [template params].
  destruct H as (rules & H & H1 & _ & H3); [by intros n [= <-]|right; by exists []|]. exists rules. split; [exact H|].
  split.
  - apply (H1 "-data"). split; [exists [RootDir; Normal "w"]; split; [left|reflexivity]|]. split.
    + intros (d & Hin & Hp). unfold demo_policy in Hin. cbn [deny_resolved] in Hin.
      apply list_elem_of_singleton in Hin as ->. vm_compute in Hp. discriminate Hp.
    + apply (bool_decide_unpack _). vm_compute. exact I.
  - split.
    + apply not_true_iff_false. intros (_ & Hn & _)%(H1 "-data"). apply Hn.
      exists (mk_deny [RootDir; Normal "w"; Normal ".env"] false). split; [left|reflexivity].
    + apply (H3 "-outbound"). split; [reflexivity|]. exists [], 5000. split_and!; reflexivity.
Defined.

(** C27: The strict profile inlines its paths in the text: for any characters in them it is
    read as the same rules, with reads limited to the system paths it names, the read
    roots and the write roots. *)
Theorem shape_d_confines policy net port :
  (∀ w, w ∈ allow_write policy → path_ok w = true) → (∀ d, d ∈ deny_resolved policy → path_ok (deny_path d) = true) →
  (∀ n, port = Some n → 0 ≤ n) →
  ∃ rules, profile_rules [] (generate_sbpl_shape_d policy net port) = Some rules
  ∧ (∀ s p, decision rules ("file-write" +:+ s) (OnPath p) = may_write policy net p)
  ∧ (∀ s p, decision rules ("file-read" +:+ s) (OnPath p) = may_read (shape_d_reads policy) policy net p)
  ∧ (∀ s t, decision rules ("network" +:+ s) t = may_connect net port ("network" +:+ s) t).
Proof.
  intros Hw Hd Hp. exists (meaning (shape_d_reads policy) policy net port). split; [by apply shape_d_meaning|].
  split; [|split]; intros.
  - by apply decision_write.
  - by apply decision_read.
  - by apply decision_network.
Qed.

Lemma shape_d_confines_witness :
  ∃ rules, profile_rules [] (generate_sbpl_shape_d demo_policy NetOff None) = Some rules
  ∧ decision rules "file-read-data" (OnPath [RootDir; Normal "etc"; Normal "passwd"]) = false
  ∧ decision rules "file-read-data" (OnPath [RootDir; Normal ("a" +:+ dq +:+ "b" +:+ backslash); Normal "x"]) = true.
Proof.
  destruct (shape_d_confines demo_policy NetOff None) as (rules & H & _ & H2 & _).
  - intros w Hw. unfold demo_policy in Hw. cbn [allow_write] in Hw.
    repeat (apply elem_of_cons in Hw as [->|Hw]; [reflexivity|]). by apply not_elem_of_nil in Hw.
  - intros d Hd. unfold demo_policy in Hd. cbn [deny_resolved] in Hd. by apply list_elem_of_singleton in Hd as ->.
  - done.
  - exists rules. split; [exact H|]. split; rewrite (H2 "-data"); reflexivity.
Defined.

(** The profile shown for inspection has, on this policy, the rules of the one applied. *)
Lemma generate_shows_profile :
  (let '(template, params) := generate_sbpl_template_and_params demo_policy (NetAllowlist []) (Some 5000) in
   profile_rules params template) = profile_rules [] (generate demo_policy (NetAllowlist []) (Some 5000)).
Proof. vm_compute. reflexivity. Qed.

(** The rules of the strict modes, which the backend refuses on macOS, would leave the
    sockets of the daemons open, the container daemon's among them. *)
Lemma strict_reaches_docker policy port :
  may_connect (NetStrict []) port "network-outbound" (ToUnix (components "/var/run/docker.sock")) = true
  ∧ may_connect NetOff port "network-outbound" (ToUnix (components "/var/run/docker.sock")) = false
  ∧ generate_sbpl_template_and_params policy (NetStrict []) port = generate_sbpl_template_and_params policy NetAsk None.
Proof. done. Qed.

(** The profile depends on the write roots and the resolved denials alone: what is pushed
    to [deny_write] after loading, as the agent's own binary is, has no effect. *)
Lemma denied_lists_ignored policy policy' net port :
  allow_write policy = allow_write policy' → deny_resolved policy = deny_resolved policy' →
  generate_sbpl_template_and_params policy net port = generate_sbpl_template_and_params policy' net port.
Proof. intros E1 E2. unfold generate_sbpl_template_and_params. by rewrite E1, E2. Qed.
