(* ===== verification/MacProxy.v ===== *)
(** * MacProxy: the network broker of the macOS sandbox

    Model of [src/src/sandbox/macos/net_proxy.rs]: the classes of addresses it refuses,
    its policy, the pinned connections and the two protocols of its clients.  The
    resolver and the outcome of a connection attempt are arguments. *)

From S2P Require Import Prelude PolicyTypes Bytes Utf8 Ip NetAddr Sni Broker Relay.

(** ** Addresses *)

Definition is_restricted_v4 (o : list Z) : bool :=
  let first := nth 0 o 0 in
  let second := nth 1 o 0 in
  let third := nth 2 o 0 in
  let fourth := nth 3 o 0 in
  let is_unspecified := (first =? 0) && (second =? 0) && (third =? 0) && (fourth =? 0) in
  let is_private := (first =? 10) || ((first =? 172) && between 16 31 second) || ((first =? 192) && (second =? 168)) in
  let is_link_local := (first =? 169) && (second =? 254) in
  let is_multicast := between 224 239 first in
  let is_broadcast := (first =? 255) && (second =? 255) && (third =? 255) && (fourth =? 255) in
  is_unspecified || v4_is_loopback o || is_private || is_link_local || is_multicast || is_broadcast
  || (first =? 0)
  || ((first =? 100) && between 64 127 second)
  || ((first =? 169) && (second =? 254))
  || ((first =? 192) && (second =? 0) && (third =? 0))
  || ((first =? 192) && (second =? 0) && (third =? 2))
  || ((first =? 198) && (second =? 18))
  || ((first =? 198) && (second =? 19))
  || ((first =? 198) && (second =? 51) && (third =? 100))
  || ((first =? 203) && (second =? 0) && (third =? 113))
  || ((first =? 192) && (second =? 88) && (third =? 99))
  || ((first =? 169) && (second =? 254) && (third =? 169) && (fourth =? 254)).

Definition segment (o : list Z) (i : nat) : Z := nth (2 * i) o 0 * 256 + nth (2 * i + 1) o 0.
Definition is_restricted_v6 (o : list Z) : bool :=
  let zero i := segment o i =? 0 in
  let low4 := [Z.shiftr (segment o 6) 8; Z.land (segment o 6) 255; Z.shiftr (segment o 7) 8; Z.land (segment o 7) 255] in
  let mapped_v4 :=
    if zero 0%nat && zero 1%nat && zero 2%nat && zero 3%nat && zero 4%nat && (segment o 5 =? 0xffff) then Some low4
    else if zero 0%nat && zero 1%nat && zero 2%nat && zero 3%nat && zero 4%nat && zero 5%nat then Some low4
    else None in
  forallb (Z.eqb 0) o || v6_is_loopback o || (nth 0 o 0 =? 0xff)
  || (Z.land (segment o 0) 0xfe00 =? 0xfc00)
  || (Z.land (segment o 0) 0xffc0 =? 0xfe80)
  || ((segment o 0 =? 0x2001) && (segment o 1 =? 0x0db8))
  || ((segment o 0 =? 0x0064) && (segment o 1 =? 0xff9b))
  || ((segment o 0 =? 0x0064) && (segment o 1 =? 0xff9b) && (segment o 2 =? 1))
  || match mapped_v4 with Some v4 => is_restricted_v4 v4 | None => false end.
Definition is_restricted_addr (ip : IpAddr) : bool :=
  match ip with V4 o => is_restricted_v4 o | V6 o => is_restricted_v6 o end.
Definition validate_public_addr (ip : IpAddr) : bool := negb (is_restricted_addr ip).

(** ** Hosts *)

Definition has_white_space (s : string) : bool := existsb (contains s) white_space.
Definition is_ascii (s : string) : bool := all_chars is_ascii_byte s.

(** A label of a DNS name. *)
Definition label_ok (label : string) : bool :=
  negb (is_empty label) && (String.length label <=? 63)%nat && negb (starts_with label "-") && negb (ends_with label "-")
  && all_chars (λ c, is_alnum c || Ascii.eqb c "-"%char) label.

Definition normalize_host (host : string) : option string :=
  let host := strip_domain_port host in
  if is_empty host || contains_char host (chr 0) || has_white_space host then None
  else
    let host := to_ascii_lowercase (trim_end_char "." host) in
    if is_empty host || contains_char host "@" || contains_char host "/" || contains_char host (chr 92) then None
    else if (253 <? String.length host)%nat || bool_decide (is_Some (parse_ip host)) || negb (is_ascii host) then None
    else if forallb label_ok (split_char "." host) then Some host else None.

Definition host_matches (host configured : string) : bool :=
  let configured_clean := strip_domain_port configured in
  let '(is_wildcard, clean_target) :=
    match strip_prefix "*." configured_clean with Some suffix => (true, suffix) | None => (false, configured_clean) end in
  match normalize_host clean_target with
  | None => false
  | Some configured =>
      let host := to_ascii_lowercase (strip_domain_port host) in
      if (is_wildcard : bool) then ends_with host ("." +:+ configured)
      else String.eqb host configured || ends_with host ("." +:+ configured)
  end.

(** ** The policy *)

Record SocketAddr : Type := mk_sock { sa_ip : IpAddr; sa_port : Z }.
#[export] Instance SocketAddr_eq_dec : EqDecision SocketAddr.
Proof. solve_decision. Defined.
Record PinnedConnection : Type := mk_pinned { pin_host : string; pin_port : Z; pin_addr : SocketAddr }.

Record BrokerPolicy : Type := mk_broker { mode : NetMode; bind : SocketAddr }.
Definition broker_new (mode : NetMode) (bind : SocketAddr) : option BrokerPolicy :=
  if negb (ip_is_loopback (sa_ip bind)) then None
  else match mode with NetOff => None | _ => Some (mk_broker mode bind) end.

(** The rules of the mode on a normalised host. *)
Definition mode_allows (m : NetMode) (host : string) (port : Z) : bool :=
  match m with
  | NetOff => false
  | NetAllowlist domains => existsb (host_matches host) domains
  | NetStrict rules => existsb (λ r, (rule_port r =? port) && host_matches host (rule_domain r)) rules
  | NetAsk => true
  end.

Definition authorize (policy : BrokerPolicy) (host : string) (port : Z) (addr : SocketAddr) : option PinnedConnection :=
  match normalize_host host with
  | None => None
  | Some host =>
      if (port =? 0) || negb (sa_port addr =? port) then None
      else if negb (validate_public_addr (sa_ip addr)) then None
      else if mode_allows (mode policy) host port then Some (mk_pinned host port addr) else None
  end.

(** [Ord] of [SocketAddr]: version 4 first, then the address, then the port. *)
Fixpoint compare_octets (a b : list Z) : comparison :=
  match a, b with
  | [], [] => Eq
  | [], _ => Lt
  | _, [] => Gt
  | x :: a, y :: b => match Z.compare x y with Eq => compare_octets a b | o => o end
  end.
Definition compare_sock (a b : SocketAddr) : comparison :=
  match sa_ip a, sa_ip b with
  | V4 x, V4 y | V6 x, V6 y => match compare_octets x y with Eq => Z.compare (sa_port a) (sa_port b) | o => o end
  | V4 _, V6 _ => Lt
  | V6 _, V4 _ => Gt
  end.
Fixpoint insert_sock (a : SocketAddr) (l : list SocketAddr) : list SocketAddr :=
  match l with
  | [] => [a]
  | b :: l' => match compare_sock a b with Gt => b :: insert_sock a l' | _ => a :: l end
  end.
Fixpoint dedup (l : list SocketAddr) : list SocketAddr :=
  match l with
  | a :: ((b :: _) as l') => if decide (a = b) then dedup l' else a :: dedup l'
  | _ => l
  end.
Definition sorted_addrs (l : list SocketAddr) : list SocketAddr := dedup (foldr insert_sock [] l).

Section Network.
(** [to_socket_addrs]; whether an address answers within the timeout. *)
Variable resolver : string → Z → option (list SocketAddr).
Variable answers : SocketAddr → bool.

Definition resolve (policy : BrokerPolicy) (host : string) (port : Z) : option (list PinnedConnection) :=
  match normalize_host host with
  | None => None
  | Some normalized =>
      if port =? 0 then None
      else if negb (mode_allows (mode policy) normalized port) then None
      else match resolver normalized port with
           | None => None
           | Some addrs =>
               let addresses := sorted_addrs addrs in
               if bool_decide (addresses = []) || (1024 <? length addresses)%nat then None
               else mapM (authorize policy normalized port) addresses
           end
  end.

Definition connect (p : PinnedConnection) : option SocketAddr :=
  if (pin_port p =? 0) || negb (sa_port (pin_addr p) =? pin_port p) then None
  else match normalize_host (pin_host p) with
       | None => None
       | Some _ => if validate_public_addr (sa_ip (pin_addr p)) && answers (pin_addr p) then Some (pin_addr p) else None
       end.
End Network.

(** ** The server name of a TLS client *)

(** The names of one extension; the name that is no text ends the search. *)
Fixpoint mac_names (fuel : nat) (buf : list Z) (sni_pos list_end : nat) : outcome (option (list Z)) :=
  match fuel with
  | O => Done None
  | S fuel =>
      if (sni_pos + 3 <=? list_end)%nat then
        name_type ← index buf sni_pos;
        name_len ← index16 buf (sni_pos + 1);
        let sni_pos := (sni_pos + 3)%nat in
        if (name_type =? 0) && (sni_pos + name_len <=? list_end)%nat
        then Done (Some (take name_len (drop sni_pos buf)))
        else mac_names fuel buf (sni_pos + name_len) list_end
      else Done None
  end.

Definition text_of (name : list Z) : option string :=
  let b := byte_of <$> name in
  if bool_decide (from_utf8_lossy b = b) then Some (text b) else None.

Fixpoint mac_extensions (fuel : nat) (buf : list Z) (pos ext_end : nat) : outcome (option string) :=
  match fuel with
  | O => Done None
  | S fuel =>
      if (pos + 4 <=? ext_end)%nat then
        ext_type ← index16 buf pos;
        ext_len ← index16 buf (pos + 2);
        let pos := (pos + 4)%nat in
        if (ext_type =? 0)%nat then
          if (ext_end <? pos + ext_len)%nat || (ext_len <? 2)%nat then Done None
          else
            list_len ← index16 buf pos;
            let list_end := (pos + 2 + list_len)%nat in
            if (pos + ext_len <? list_end)%nat then Done None
            else
              name ← mac_names (length buf) buf (pos + 2) list_end;
              match name with
              | Some name => Done (text_of name)
              | None => mac_extensions fuel buf (pos + ext_len) ext_end
              end
        else mac_extensions fuel buf (pos + ext_len) ext_end
      else Done None
  end.

Definition mac_hello_body (buf : list Z) : outcome (option string) :=
  let pos := (9 + 2 + 32)%nat in
  if (length buf <=? pos)%nat then Done None
  else
    session_id_len ← index buf pos;
    let pos := (pos + (1 + Z.to_nat session_id_len))%nat in
    if (length buf <? pos + 2)%nat then Done None
    else
      cipher_suites_len ← index16 buf pos;
      let pos := (pos + (2 + cipher_suites_len))%nat in
      if (length buf <=? pos)%nat then Done None
      else
        comp_methods_len ← index buf pos;
        let pos := (pos + (1 + Z.to_nat comp_methods_len))%nat in
        if (length buf <? pos + 2)%nat then Done None
        else
          extensions_len ← index16 buf pos;
          let pos := (pos + 2)%nat in
          let ext_end := (pos + extensions_len)%nat in
          if (length buf <? ext_end)%nat then Done None
          else mac_extensions (length buf) buf pos ext_end.

Definition extract_client_hello_sni (buf : list Z) : outcome (option string) :=
  if (length buf <? 5)%nat then Done None
  else
    b0 ← index buf 0;
    if negb (b0 =? 0x16) then Done None
    else
      record_len ← index16 buf 3;
      if (length buf <? 5 + record_len)%nat then Done None
      else
        b5 ← index buf 5;
        if negb (b5 =? 1) then Done None
        else
          h0 ← index buf 6; h1 ← index buf 7; h2 ← index buf 8;
          let handshake_len := Z.to_nat (h0 * 65536 + h1 * 256 + h2) in
          if (record_len <? 4 + handshake_len)%nat then Done None
          else mac_hello_body buf.

(** ** Clients *)

(** What a worker thread does before the tunnel: the reply to the client, the connection
    with the bytes it writes on it, and what the tunnel has still to carry. *)
Record Served : Type := mk_served { reply : bytes; dialled : option SocketAddr; upstream : bytes; unread : bytes }.
Definition nothing : Served := mk_served [] None [] [].
Definition answer_only (s : string) : Served := mk_served (bs s) None [] [].

Definition crlf_text : string := text crlf.
Definition BAD_REQUEST : string := "HTTP/1.1 400 Bad Request" +:+ crlf_text +:+ "Connection: close" +:+ crlf_text +:+ crlf_text.
Definition FORBIDDEN : string :=
  "HTTP/1.1 403 Forbidden" +:+ crlf_text +:+ "Content-Type: text/plain" +:+ crlf_text +:+ "Connection: close" +:+ crlf_text
  +:+ crlf_text +:+ "Access denied by Vetto policy" +:+ crlf_text.
Definition BAD_GATEWAY : string := "HTTP/1.1 502 Bad Gateway" +:+ crlf_text +:+ "Connection: close" +:+ crlf_text +:+ crlf_text.
Definition ESTABLISHED : string := "HTTP/1.1 200 Connection Established" +:+ crlf_text +:+ crlf_text.
Definition MAX_TLS_HELLO : nat := Z.to_nat 16384.
Definition MAX_HTTP_HEAD : nat := Z.to_nat 32768.

Section Clients.
Variable resolver : string → Z → option (list SocketAddr).
Variable answers : SocketAddr → bool.
Variable policy : BrokerPolicy.

Definition octets (b : bytes) : list Z := byte_value <$> b.

(** The first pinned address, connected. *)
Definition dial (pinned : list PinnedConnection) : option SocketAddr :=
  match pinned with p :: _ => connect answers p | [] => None end.

(** The loop that reads until the hello is complete. *)
Fixpoint read_hello (fuel : nat) (buf : bytes) (c : Conn) : outcome (option string * bytes * Conn) :=
  sni ← extract_client_hello_sni (octets buf);
  match sni with
  | Some host => Done (Some host, buf, c)
  | None =>
      if (MAX_TLS_HELLO <=? length buf)%nat then Done (None, buf, c)
      else
        let complete := match octets buf with
                        | _ :: _ :: _ :: b3 :: b4 :: _ => (5 + Z.to_nat (b3 * 256 + b4) <=? length buf)%nat
                        | _ => false
                        end in
        if complete then Done (None, buf, c)
        else match fuel, read 1024 c with
             | S fuel, Some (chunk, c) => read_hello fuel (buf ++ chunk) c
             | _, _ => Done (None, buf, c)
             end
  end.

Definition handle_tls_client (buf : bytes) (c : Conn) : outcome Served :=
  hello ← read_hello MAX_TLS_HELLO buf c;
  match hello with
  | (None, _, _) => Done nothing
  | (Some host, buf, c) =>
      match resolve resolver policy host 443 with
      | None => Done nothing
      | Some pinned =>
          match dial pinned with
          | None => Done nothing
          | Some addr => Done (mk_served [] (Some addr) buf (incoming c))
          end
      end
  end.

Fixpoint read_http_head (fuel : nat) (buf : bytes) (c : Conn) : option (bytes * Conn) :=
  if bool_decide (is_Some (find end_of_head buf)) || (MAX_HTTP_HEAD <=? length buf)%nat then Some (buf, c)
  else match fuel, read 1024 c with
       | S fuel, Some (chunk, c) => read_http_head fuel (buf ++ chunk) c
       | _, _ => None
       end.

(** [authority.rsplit_once(':')] with a port that is 80 when it is no number. *)
Definition plain_authority (authority : string) : string * Z :=
  match rsplit_once ":" authority with
  | Some (h, p) => (h, default 80 (parse_u16 p))
  | None => (authority, 80)
  end.

Fixpoint host_header (ls : list string) : option string :=
  match ls with
  | [] => None
  | line :: ls =>
      match split_once ":" line with
      | Some (k, v) => if eq_ignore_ascii_case (trim k) "host" then Some (trim v) else host_header ls
      | None => host_header ls
      end
  end.

(** Where a request that is no CONNECT goes, with the path it asks for there. *)
Definition plain_target (target : string) (headers : list string) : option (string * Z * string) :=
  match strip_prefix "http://" target with
  | Some stripped =>
      let '(authority, path) := match split_once "/" stripped with
                                | Some (a, p) => (a, "/" +:+ p)
                                | None => (stripped, "/")
                                end in
      Some (plain_authority authority, path)
  | None =>
      match host_header headers with
      | None => None
      | Some authority => Some (plain_authority authority, target)
      end
  end.
Definition connect_target (target : string) : option (string * Z) :=
  match rsplit_once ":" target with
  | Some (h, p) => match parse_u16 p with Some port => Some (h, port) | None => None end
  | None => Some (target, 443)
  end.

(** The head with a new request line. *)
Definition rewritten_head (method path : string) (head : bytes) : bytes :=
  bs (method +:+ " " +:+ path +:+ " HTTP/1.1" +:+ crlf_text)
  ++ match find crlf head with Some pos => drop (pos + 2) head | None => [] end.

Definition handle_http_client (buf : bytes) (c : Conn) : Served :=
  match read_http_head MAX_HTTP_HEAD buf c with
  | None => nothing
  | Some (buf, c) =>
      match find end_of_head buf with
      | None => nothing
      | Some pos =>
          let header_end := (pos + 4)%nat in
          let head := take header_end buf in
          let body := drop header_end buf in
          if negb (bool_decide (from_utf8_lossy head = head)) then nothing
          else
            let head_str := text head in
            match lines head_str with
            | [] => nothing
            | request_line :: headers =>
                match split_whitespace request_line with
                | method :: target :: _ =>
                    let method := to_ascii_uppercase method in
                    if String.eqb method "CONNECT" then
                      match connect_target target with
                      | None => answer_only BAD_REQUEST
                      | Some (host, port) =>
                          match resolve resolver policy host port with
                          | None => answer_only FORBIDDEN
                          | Some pinned =>
                              match dial pinned with
                              | None => answer_only BAD_GATEWAY
                              | Some addr => mk_served (bs ESTABLISHED) (Some addr) body (incoming c)
                              end
                          end
                      end
                    else
                      match plain_target target headers with
                      | None => answer_only (BAD_REQUEST +:+ "Missing Host header" +:+ crlf_text)
                      | Some ((host, port), path) =>
                          match resolve resolver policy host port with
                          | None => answer_only FORBIDDEN
                          | Some pinned =>
                              match dial pinned with
                              | None => answer_only BAD_GATEWAY
                              | Some addr => mk_served [] (Some addr) (rewritten_head method path head ++ body) (incoming c)
                              end
                          end
                      end
                | _ => nothing
                end
            end
      end
  end.

Definition handle_client (c : Conn) : outcome Served :=
  match read 1024 c with
  | None => Done nothing
  | Some (chunk, c) =>
      match octets chunk with
      | 0x16 :: _ => handle_tls_client chunk c
      | _ => Done (handle_http_client chunk c)
      end
  end.
End Clients.

(** ** The refused addresses *)

Definition RESTRICTED_V4 : list (list Z * Z) :=
  [([0; 0; 0; 0], 8); ([10; 0; 0; 0], 8); ([100; 64; 0; 0], 10); ([127; 0; 0; 0], 8); ([169; 254; 0; 0], 16);
   ([172; 16; 0; 0], 12); ([192; 0; 0; 0], 24); ([192; 0; 2; 0], 24); ([192; 88; 99; 0], 24); ([192; 168; 0; 0], 16);
   ([198; 18; 0; 0], 15); ([198; 51; 100; 0], 24); ([203; 0; 113; 0], 24); ([224; 0; 0; 0], 4); ([255; 255; 255; 255], 32)].

Lemma be_value_4 a b c d : be_value [a; b; c; d] = ((a * 256 + b) * 256 + c) * 256 + d.
Proof. unfold be_value. cbn. lia. Qed.

Lemma v4_in_block n p a b c d :
  ip_wf (V4 n) = true → ip_wf (V4 [a; b; c; d]) = true → 0 ≤ p ≤ 32 →
  cidr_contains (mk_cidr (V4 n) p) (V4 [a; b; c; d]) = (be_value n / 2 ^ (32 - p) =? be_value [a; b; c; d] / 2 ^ (32 - p)).
Proof.
  intros Hn Ht Hp. apply eq_true_iff_eq. rewrite (cidr_contains_spec (mk_cidr (V4 n) p)) by done. cbn [cidr_network prefix_len].
  unfold same_prefix. by rewrite Z.eqb_eq.
Qed.

(** The leading bits of an address by its octets. *)
Lemma leading_bits a b c d :
  0 ≤ a ≤ 255 → 0 ≤ b ≤ 255 → 0 ≤ c ≤ 255 → 0 ≤ d ≤ 255 →
  let v := be_value [a; b; c; d] in
  v / 2 ^ 24 = a ∧ v / 2 ^ 16 = a * 256 + b ∧ v / 2 ^ 8 = (a * 256 + b) * 256 + c ∧ v / 2 ^ 0 = v
  ∧ v / 2 ^ 22 = a * 4 + b / 64 ∧ v / 2 ^ 20 = a * 16 + b / 16 ∧ v / 2 ^ 17 = a * 128 + b / 2 ∧ v / 2 ^ 28 = a / 16.
Proof.
  intros Ha Hb Hc Hd. cbv zeta. rewrite be_value_4. split_and!; Z.to_euclidean_division_equations; lia.
Qed.

Lemma v4_block n p k a b c d :
  ip_wf (V4 n) = true → ip_wf (V4 [a; b; c; d]) = true → 0 ≤ p ≤ 32 → be_value n / 2 ^ (32 - p) = k →
  cidr_contains (mk_cidr (V4 n) p) (V4 [a; b; c; d]) = (be_value [a; b; c; d] / 2 ^ (32 - p) =? k).
Proof. intros Hn Ht Hp <-. rewrite v4_in_block by done. apply Z.eqb_sym. Qed.

Lemma digits_eqb a b m p q : 0 ≤ b < m → 0 ≤ q < m → (a * m + b =? p * m + q) = (a =? p) && (b =? q).
Proof.
  intros Hb Hq. apply eq_true_iff_eq. rewrite andb_true_iff, !Z.eqb_eq. split; [|by intros [-> ->]].
  intros H. assert (a = p) by nia. subst a. lia.
Qed.

Lemma quotient_eqb b m k : 0 < m → (b / m =? k) = between (k * m) (k * m + (m - 1)) b.
Proof.
  intros Hm. unfold between. pose proof (Z.div_mod b m ltac:(lia)). pose proof (Z.mod_pos_bound b m Hm).
  apply eq_true_iff_eq. rewrite Z.eqb_eq, andb_true_iff, !Z.leb_le. split; [intros <-; lia|intros]. nia.
Qed.

Lemma two_values k b : between k (k + 1) b = (b =? k) || (b =? k + 1).
Proof. unfold between. lia. Qed.

(** The IPv4 addresses the macOS broker refuses are exactly those of fifteen blocks:
    this, private, shared, loopback, link-local with the metadata service, protocol
    assignments, the documentation and benchmark networks, the 6to4 relay, multicast and
    broadcast. *)
Theorem restricted_v4_exact o :
  ip_wf (V4 o) = true →
  is_restricted_v4 o = existsb (λ '(n, p), cidr_contains (mk_cidr (V4 n) p) (V4 o)) RESTRICTED_V4.
Proof.
  intros Hwf. pose proof Hwf as Hok. apply andb_true_iff in Hok as [Hlen Hall]. apply Nat.eqb_eq in Hlen.
  destruct o as [|a [|b [|c [|d [|? ?]]]]]; try discriminate Hlen.
  assert (0 ≤ a ≤ 255 ∧ 0 ≤ b ≤ 255 ∧ 0 ≤ c ≤ 255 ∧ 0 ≤ d ≤ 255) as (Ha & Hb & Hc & Hd).
  { cbn [forallb] in Hall. unfold octet_ok in Hall. lia. }
  destruct (leading_bits a b c d Ha Hb Hc Hd) as (H24 & H16 & H8 & H0 & H22 & H20 & H17 & H28).
  unfold RESTRICTED_V4. cbn [existsb].
  rewrite (v4_block [0; 0; 0; 0] 8 0), (v4_block [10; 0; 0; 0] 8 10), (v4_block [100; 64; 0; 0] 10 (100 * 4 + 1)),
    (v4_block [127; 0; 0; 0] 8 127), (v4_block [169; 254; 0; 0] 16 (169 * 256 + 254)),
    (v4_block [172; 16; 0; 0] 12 (172 * 16 + 1)), (v4_block [192; 0; 0; 0] 24 ((192 * 256 + 0) * 256 + 0)),
    (v4_block [192; 0; 2; 0] 24 ((192 * 256 + 0) * 256 + 2)), (v4_block [192; 88; 99; 0] 24 ((192 * 256 + 88) * 256 + 99)),
    (v4_block [192; 168; 0; 0] 16 (192 * 256 + 168)), (v4_block [198; 18; 0; 0] 15 (198 * 128 + 9)),
    (v4_block [198; 51; 100; 0] 24 ((198 * 256 + 51) * 256 + 100)),
    (v4_block [203; 0; 113; 0] 24 ((203 * 256 + 0) * 256 + 113)), (v4_block [224; 0; 0; 0] 4 14),
    (v4_block [255; 255; 255; 255] 32 (((255 * 256 + 255) * 256 + 255) * 256 + 255))
    by (done || lia || reflexivity).
  change (32 - 8) with 24. change (32 - 10) with 22. change (32 - 16) with 16. change (32 - 12) with 20. change (32 - 24) with 8.
  change (32 - 15) with 17. change (32 - 4) with 28. change (32 - 32) with 0.
  rewrite H24, H16, H8, H0, H22, H20, H17, H28, be_value_4. clear H24 H16 H8 H0 H22 H20 H17 H28 Hwf Hall Hlen.
  rewrite !digits_eqb by (Z.to_euclidean_division_equations; lia). rewrite !quotient_eqb by done.
  change (between (9 * 2) (9 * 2 + (2 - 1)) b) with (between 18 (18 + 1) b). rewrite two_values.
  unfold is_restricted_v4, v4_is_loopback, Ip.oct. cbn [nth]. cbv zeta.
  change (between (1 * 64) (1 * 64 + (64 - 1)) b) with (between 64 127 b).
  change (between (1 * 16) (1 * 16 + (16 - 1)) b) with (between 16 31 b).
  change (between (14 * 16) (14 * 16 + (16 - 1)) a) with (between 224 239 a). change (18 + 1) with 19.
  apply eq_true_iff_eq. rewrite !orb_true_iff, !andb_true_iff, orb_true_iff.
  split; intros H; destruct_or? H; try discriminate H; tauto.
Qed.

(** The refused IPv6 addresses by their octets: unspecified, loopback, multicast, unique
    local, link-local, documentation, NAT64, and IPv4-mapped or -compatible forms of a
    refused IPv4 address. *)
Definition refused_v4 (o : list Z) : bool :=
  existsb (λ '(n, p), cidr_contains (mk_cidr (V4 n) p) (V4 o)) RESTRICTED_V4.
Definition refused_v6 (o : list Z) : bool :=
  let b i := nth i o 0 in
  (bool_decide (take 15 o = replicate 15 0) && ((b 15%nat =? 0) || (b 15%nat =? 1)))
  || (b 0%nat =? 0xff) || (b 0%nat =? 0xfc) || (b 0%nat =? 0xfd)
  || ((b 0%nat =? 0xfe) && between 0x80 0xbf (b 1%nat))
  || bool_decide (take 4 o = [0x20; 0x01; 0x0d; 0xb8])
  || bool_decide (take 4 o = [0; 0x64; 0xff; 0x9b])
  || (bool_decide (take 12 o = replicate 10 0 ++ [0xff; 0xff] ∨ take 12 o = replicate 12 0)
      && refused_v4 (drop 12 o)).
Definition refused_space (ip : IpAddr) : bool :=
  match ip with V4 o => refused_v4 o | V6 o => refused_v6 o end.

Lemma land_high x n m : 0 ≤ n ≤ m → 0 ≤ x < 2 ^ m → Z.land x (2 ^ m - 2 ^ n) = x / 2 ^ n * 2 ^ n.
Proof.
  intros Hn Hx. assert (2 ^ m - 2 ^ n = Z.ldiff (Z.ones m) (Z.ones n)) as ->.
  { rewrite Z.ldiff_ones_r, Z.shiftr_div_pow2, Z.shiftl_mul_pow2, Z.ones_equiv by lia.
    replace (2 ^ m) with (2 ^ (m - n) * 2 ^ n) by (rewrite <-Z.pow_add_r by lia; f_equal; lia).
    assert (0 < 2 ^ n) by (apply Z.pow_pos_nonneg; lia).
    replace (Z.pred (2 ^ (m - n) * 2 ^ n)) with ((2 ^ (m - n) - 1) * 2 ^ n + (2 ^ n - 1)) by lia.
    rewrite Z.div_add_l, Z.div_small by lia. lia. }
  assert (Z.land x (Z.ldiff (Z.ones m) (Z.ones n)) = Z.ldiff (Z.land x (Z.ones m)) (Z.ones n)) as ->.
  { apply Z.bits_inj'. intros k Hk. rewrite !Z.land_spec, !Z.ldiff_spec, Z.land_spec. by rewrite andb_assoc. }
  rewrite Z.land_ones, Z.mod_small, Z.ldiff_ones_r, Z.shiftr_div_pow2, Z.shiftl_mul_pow2 by lia. done.
Qed.

Lemma segment_split h l : 0 ≤ h ≤ 255 → 0 ≤ l ≤ 255 →
  Z.shiftr (h * 256 + l) 8 = h ∧ Z.land (h * 256 + l) 255 = l.
Proof.
  intros. rewrite Z.shiftr_div_pow2 by done. change (Z.land (h * 256 + l) 255) with (Z.land (h * 256 + l) (Z.ones 8)).
  rewrite Z.land_ones by done. split; change (2 ^ 8) with 256; Z.to_euclidean_division_equations; lia.
Qed.

Lemma octets_eqb (l k : list Z) : bool_decide (l = k) = (length l =? length k)%nat && forallb (λ '(x, y), x =? y) (combine l k).
Proof.
  revert k. induction l as [|x l IH]; intros [|y k]; [done..|]. cbn [length combine forallb Nat.eqb].
  rewrite (bool_decide_ext (x :: l = y :: k) (x = y ∧ l = k)) by (split; [by intros [= -> ->]|by intros [-> ->]]).
  rewrite bool_decide_and, IH. apply eq_true_iff_eq. rewrite !andb_true_iff, bool_decide_eq_true, Z.eqb_eq. tauto.
Qed.

Section V6.
Context (a b : Z).
Hypothesis a_octet : 0 ≤ a ≤ 255.
Hypothesis b_octet : 0 ≤ b ≤ 255.

Lemma segment_eqb h l : 0 ≤ l ≤ 255 → (a * 256 + b =? h * 256 + l) = (a =? h) && (b =? l).
Proof. intros. apply digits_eqb; lia. Qed.

Lemma unique_local_eqb : (Z.land (a * 256 + b) 0xfe00 =? 0xfc00) = (a =? 0xfc) || (a =? 0xfd).
Proof.
  change 0xfe00 with (2 ^ 16 - 2 ^ 9). rewrite land_high by lia. change (2 ^ 9) with 512.
  apply eq_true_iff_eq. rewrite orb_true_iff, !Z.eqb_eq. Z.to_euclidean_division_equations; lia.
Qed.

Lemma link_local_eqb : (Z.land (a * 256 + b) 0xffc0 =? 0xfe80) = (a =? 0xfe) && between 0x80 0xbf b.
Proof.
  change 0xffc0 with (2 ^ 16 - 2 ^ 6). rewrite land_high by lia. change (2 ^ 6) with 64. unfold between.
  apply eq_true_iff_eq. rewrite !andb_true_iff, !Z.eqb_eq, !Z.leb_le. Z.to_euclidean_division_equations; lia.
Qed.

Lemma segment_zero : (a * 256 + b =? 0) = (a =? 0) && (b =? 0).
Proof. apply eq_true_iff_eq. rewrite andb_true_iff, !Z.eqb_eq. lia. Qed.
End V6.

Lemma low_octets h l : 0 ≤ h ≤ 255 → 0 ≤ l ≤ 255 →
  [Z.shiftr (h * 256 + l) 8; Z.land (h * 256 + l) 255] = [h; l].
Proof. intros Hh Hl. by destruct (segment_split h l Hh Hl) as [-> ->]. Qed.

Lemma mapped_eqb (A B : bool) (x : list Z) (f : list Z → bool) :
  match (if A then Some x else if B then Some x else None) with Some v => f v | None => false end
  = (A || B) && f x.
Proof. by destruct A, B. Qed.

Lemma regroup (P Q B C D E F F' G G' K H H' : bool) :
  P = Q → F = F' → G = G' → H = H' →
  P || B || (C || D) || E || F || G || (G && K) || H = Q || B || C || D || E || F' || G' || H'.
Proof. intros -> -> -> ->. by destruct Q, B, C, D, E, F', G', K, H'. Qed.

Ltac split_eqb := repeat match goal with |- context [?x =? ?k] => is_var x; destruct (x =? k); cbn [andb orb]; [|try done] end.

(** The IPv6 addresses the macOS broker refuses, by octets. *)
Lemma restricted_v6_exact o : ip_wf (V6 o) = true → is_restricted_v6 o = refused_v6 o.
Proof.
  intros Hwf. apply andb_true_iff in Hwf as [Hlen Hall]. apply Nat.eqb_eq in Hlen.
  destruct o as [|o0 [|o1 [|o2 [|o3 [|o4 [|o5 [|o6 [|o7 [|o8 [|o9 [|o10 [|o11 [|o12 [|o13 [|o14 [|o15 [|? ?]]]]]]]]]]]]]]]]]; try discriminate Hlen. clear Hlen.
  cbn [forallb] in Hall. unfold octet_ok in Hall. rewrite !andb_true_iff, !Z.leb_le in Hall.
  destruct_and! Hall. unfold is_restricted_v6, refused_v6, segment, v6_is_loopback, oct.
  cbn [nth Nat.mul Nat.add take drop replicate app forallb]. cbv zeta.
  destruct (segment_split o12 o13 ltac:(lia) ltac:(lia)) as [-> ->].
  destruct (segment_split o14 o15 ltac:(lia) ltac:(lia)) as [-> ->].
  rewrite mapped_eqb, unique_local_eqb, link_local_eqb, (restricted_v4_exact [o12; o13; o14; o15]) by
    (try lia; cbn; unfold octet_ok; rewrite !andb_true_iff, !Z.leb_le; lia).
  change 0x2001 with (0x20 * 256 + 0x01). change 0x0db8 with (0x0d * 256 + 0xb8).
  change (?a =? 0x0064) with (a =? 0 * 256 + 0x64). change 0xff9b with (0xff * 256 + 0x9b).
  change 0xffff with (0xff * 256 + 0xff).
  rewrite !bool_decide_or, !octets_eqb. cbn [length Nat.eqb combine forallb andb].
  rewrite !(Z.eqb_sym 0), !segment_zero by lia.
  change (existsb _ RESTRICTED_V4) with (refused_v4 [o12; o13; o14; o15]).
  apply regroup.
  - by split_eqb; destruct (o15 =? 0), (o15 =? 1).
  - rewrite !segment_eqb by lia. split_eqb; done.
  - rewrite !segment_eqb by lia. split_eqb; done.
  - rewrite !segment_eqb by lia. split_eqb; done.
Qed.
Lemma restricted_exact ip : ip_wf ip = true → is_restricted_addr ip = refused_space ip.
Proof. destruct ip; [apply restricted_v4_exact|apply restricted_v6_exact]. Qed.

(** ** Lemmas: resolving *)

Lemma insert_sock_elem a l x : x ∈ insert_sock a l ↔ x = a ∨ x ∈ l.
Proof.
  induction l as [|b l IH]; cbn [insert_sock]; [by rewrite list_elem_of_singleton, elem_of_nil; tauto|].
  destruct (compare_sock a b); rewrite !elem_of_cons, ?IH; tauto.
Qed.

Lemma dedup_elem l x : x ∈ dedup l ↔ x ∈ l.
Proof.
  induction l as [|a l IH]; [done|]. destruct l as [|b l]; [done|].
  change (dedup (a :: b :: l)) with (if decide (a = b) then dedup (b :: l) else a :: dedup (b :: l)).
  destruct (decide (a = b)) as [->|Hne]; rewrite ?elem_of_cons, IH, ?elem_of_cons; tauto.
Qed.

Lemma sorted_addrs_elem l x : x ∈ sorted_addrs l ↔ x ∈ l.
Proof.
  unfold sorted_addrs. rewrite dedup_elem. induction l as [|a l IH]; [done|]. cbn [foldr].
  by rewrite insert_sock_elem, elem_of_cons, IH.
Qed.

(** What a connection for [asked] has passed. *)
Definition permitted (resolver : string → Z → option (list SocketAddr)) (policy : BrokerPolicy) (asked : string)
    (a : SocketAddr) : Prop :=
  ∃ host addrs,
    normalize_host asked = Some host ∧ sa_port a ≠ 0 ∧ mode_allows (mode policy) host (sa_port a) = true
    ∧ resolver host (sa_port a) = Some addrs ∧ a ∈ addrs
    ∧ ∀ b, b ∈ addrs → sa_port b = sa_port a ∧ (ip_wf (sa_ip b) = true → refused_space (sa_ip b) = false).

Lemma authorize_spec policy host port addr p :
  authorize policy host port addr = Some p →
  pin_addr p = addr ∧ sa_port addr = port ∧ is_restricted_addr (sa_ip addr) = false.
Proof.
  unfold authorize. destruct (normalize_host host) as [h|]; [|done].
  destruct (_ || _) eqn:E; [done|]. apply orb_false_iff in E as [_ Ep%negb_false_iff%Z.eqb_eq].
  destruct (negb (validate_public_addr _)) eqn:Ev; [done|]. apply negb_false_iff, negb_true_iff in Ev.
  destruct (mode_allows _ _ _); [|done]. by intros [= <-].
Qed.

Lemma resolve_sound resolver policy asked port pinned p :
  resolve resolver policy asked port = Some pinned → p ∈ pinned →
  permitted resolver policy asked (pin_addr p) ∧ sa_port (pin_addr p) = port.
Proof.
  unfold resolve. destruct (normalize_host asked) as [host|] eqn:Eh; [|done].
  destruct (Z.eqb_spec port 0) as [|Hport]; [done|]. destruct (mode_allows (mode policy) host port) eqn:Em; [|done]. cbn [negb].
  destruct (resolver host port) as [addrs|] eqn:Er; [|done]. destruct (_ || _); [done|].
  intros HF%mapM_Some Hp.
  assert (∀ b, b ∈ addrs → sa_port b = port ∧ is_restricted_addr (sa_ip b) = false) as Hall.
  { intros b Hb%sorted_addrs_elem. apply list_elem_of_lookup in Hb as [i Hi].
    destruct (Forall2_lookup_l _ _ _ _ _ HF Hi) as (q & _ & Hq). apply authorize_spec in Hq as (_ & H1 & H2). done. }
  apply list_elem_of_lookup in Hp as [i Hi]. destruct (Forall2_lookup_r _ _ _ _ _ HF Hi) as (a & Ha & Hq).
  apply authorize_spec in Hq as (-> & Hpa & _). assert (a ∈ addrs) as Hin by (apply sorted_addrs_elem, list_elem_of_lookup; by exists i).
  split; [|done]. exists host, addrs. rewrite Hpa. split_and!; try done.
  intros b Hb. destruct (Hall b Hb) as [? Hr]. split; [done|]. intros Hwf. by rewrite <-restricted_exact.
Qed.

Lemma dial_pinned answers pinned a : dial answers pinned = Some a → ∃ p, p ∈ pinned ∧ a = pin_addr p.
Proof.
  destruct pinned as [|p pinned]; [done|]. cbn [dial]. unfold connect. destruct (_ || _); [done|].
  destruct (normalize_host _); [|done]. destruct (_ && _); [|done]. intros [= <-]. exists p. split; [left|done].
Qed.

Lemma dialled_permitted resolver answers policy asked port pinned a :
  resolve resolver policy asked port = Some pinned → dial answers pinned = Some a →
  permitted resolver policy asked a ∧ sa_port a = port.
Proof. intros Hr (p & Hp & ->)%dial_pinned. by eapply resolve_sound. Qed.

(** ** Lemmas: streams *)

Lemma read_hello_stream fuel buf c sni buf' c' :
  read_hello fuel buf c = Done (sni, buf', c') → buf' ++ incoming c' = buf ++ incoming c.
Proof.
  revert buf c. induction fuel as [|fuel IH]; intros buf c; cbn [read_hello];
    (destruct (extract_client_hello_sni (octets buf)) as [[host|]|]; rewrite ?done_bind; [by intros [= _ <- <-]| |done]);
    (destruct (MAX_TLS_HELLO <=? length buf)%nat; [by intros [= _ <- <-]|]); cbv zeta;
    match goal with |- context [if ?b then Done (None, buf, c) else _] => destruct b; [by intros [= _ <- <-]|] end.
  - by intros [= _ <- <-].
  - destruct (read 1024 c) as [[chunk c1]|] eqn:Er; [|by intros [= _ <- <-]].
    intros ->%IH. apply read_spec in Er as [-> _]; [|lia]. by rewrite (assoc_L (++)).
Qed.

Lemma read_http_stream fuel buf c buf' c' :
  read_http_head fuel buf c = Some (buf', c') → buf' ++ incoming c' = buf ++ incoming c.
Proof.
  revert buf c. induction fuel as [|fuel IH]; intros buf c; cbn [read_http_head]; (destruct (_ || _); [by intros [= <- <-]|]); [done|].
  destruct (read 1024 c) as [[chunk c1]|] eqn:Er; [|done].
  intros ->%IH. apply read_spec in Er as [-> _]; [|lia]. by rewrite (assoc_L (++)).
Qed.

Lemma read_hello_sni fuel buf c host buf' c' :
  read_hello fuel buf c = Done (Some host, buf', c') → extract_client_hello_sni (octets buf') = Done (Some host).
Proof.
  revert buf c. induction fuel as [|fuel IH]; intros buf c; cbn [read_hello];
    (destruct (extract_client_hello_sni (octets buf)) as [[h|]|] eqn:E; rewrite ?done_bind;
      [by intros [= <- <- _]| |done]);
    (destruct (MAX_TLS_HELLO <=? length buf)%nat; [done|]); cbv zeta;
    match goal with |- context [if ?b then Done (None, buf, c) else _] => destruct b; [done|] end; [done|].
  destruct (read 1024 c) as [[chunk c1]|]; [apply IH|done].
Qed.

(** What a client that sent [sent] gets forwarded, by the protocol its first byte
    chooses, and the host and port it asked for: a TLS stream whole, under the server name
    of its hello on port 443; after a CONNECT what follows the head; and any other request
    with its request line rewritten. *)
Definition starts_tls (sent : bytes) : bool := match octets sent with 0x16 :: _ => true | _ => false end.
Definition http_head (sent head body : bytes) (method target : string) (headers : list string) : Prop :=
  starts_tls sent = false ∧ sent = head ++ body ∧ find end_of_head head = Some (length head - 4)%nat
  ∧ ∃ line more, lines (text head) = line :: headers ∧ split_whitespace line = method :: target :: more.
Inductive forwards (sent : bytes) (s : Served) : string → Z → Prop :=
| fwd_tls host :
    starts_tls sent = true → extract_client_hello_sni (octets (upstream s)) = Done (Some host) →
    upstream s ++ unread s = sent → forwards sent s host 443
| fwd_connect head body method target headers host port :
    http_head sent head body method target headers →
    to_ascii_uppercase method = "CONNECT" → connect_target target = Some (host, port) →
    reply s = bs ESTABLISHED → upstream s ++ unread s = body → forwards sent s host port
| fwd_plain head body method target headers host port path :
    http_head sent head body method target headers →
    to_ascii_uppercase method ≠ "CONNECT" → plain_target target headers = Some ((host, port), path) →
    reply s = [] → upstream s ++ unread s = rewritten_head (to_ascii_uppercase method) path head ++ body →
    forwards sent s host port.

Section Served.
Context (resolver : string → Z → option (list SocketAddr)) (answers : SocketAddr → bool) (policy : BrokerPolicy).

Lemma head_end buf pos :
  find end_of_head buf = Some pos →
  find end_of_head (take (pos + 4) buf) = Some (length (take (pos + 4) buf) - 4)%nat.
Proof.
  intros H. destruct (find_Some _ _ _ H) as (a & b & E & Ep).
  assert (length (take (pos + 4) buf) = (pos + 4)%nat) as El.
  { rewrite length_take, E, !length_app. change (length end_of_head) with 4%nat. lia. }
  rewrite El, Nat.add_sub. apply (find_less _ _ (drop (pos + 4) buf)); [by rewrite take_drop|]. rewrite El. by cbn.
Qed.

Definition served (sent : bytes) (s : Served) (a : SocketAddr) : Prop :=
  ∃ asked, permitted resolver policy asked a ∧ forwards sent s asked (sa_port a).

Lemma http_served buf c a :
  starts_tls (buf ++ incoming c) = false →
  dialled (handle_http_client resolver answers policy buf c) = Some a →
  served (buf ++ incoming c) (handle_http_client resolver answers policy buf c) a.
Proof.
  intros Ht. unfold handle_http_client. destruct (read_http_head _ _ _) as [[buf' c']|] eqn:Er; [|done].
  apply read_http_stream in Er. destruct (find end_of_head buf') as [pos|] eqn:Ef; [|done]. cbv zeta.
  destruct (negb _); [done|]. destruct (lines _) as [|line headers] eqn:El; [done|].
  destruct (split_whitespace line) as [|method [|target rest]] eqn:Ew; [done..|].
  assert (http_head (buf ++ incoming c) (take (pos + 4) buf') (drop (pos + 4) buf' ++ incoming c') method target headers) as Hh.
  { split_and!; [done|by rewrite <-Er, (assoc_L (++)), take_drop|exact (head_end _ _ Ef)|by eauto]. }
  destruct (String.eqb_spec (to_ascii_uppercase method) "CONNECT") as [Em|Em].
  - destruct (connect_target target) as [[host port]|] eqn:Et; [|done].
    destruct (resolve resolver policy host port) as [pinned|] eqn:Erp; [|done].
    destruct (dial answers pinned) as [b|] eqn:Ed; [|done]. cbn [dialled]. intros [= <-].
    destruct (dialled_permitted _ _ _ _ _ _ _ Erp Ed) as [Hp <-]. exists host. split; [done|]. by eapply fwd_connect.
  - destruct (plain_target target headers) as [[[host port] path]|] eqn:Et; [|done].
    destruct (resolve resolver policy host port) as [pinned|] eqn:Erp; [|done].
    destruct (dial answers pinned) as [b|] eqn:Ed; [|done]. cbn [dialled]. intros [= <-].
    destruct (dialled_permitted _ _ _ _ _ _ _ Erp Ed) as [Hp <-]. exists host. split; [done|].
    eapply fwd_plain; [done..|]. cbn [upstream unread]. by rewrite (assoc_L (++)).
Qed.

Lemma tls_served buf c s a :
  starts_tls (buf ++ incoming c) = true →
  handle_tls_client resolver answers policy buf c = Done s → dialled s = Some a →
  served (buf ++ incoming c) s a.
Proof.
  intros Ht. unfold handle_tls_client.
  destruct (read_hello MAX_TLS_HELLO buf c) as [[[sni buf'] c']|] eqn:Er; [|done]. rewrite done_bind.
  destruct sni as [host|]; [|by intros [= <-]].
  pose proof (read_hello_sni _ _ _ _ _ _ Er) as Hs. apply read_hello_stream in Er.
  destruct (resolve resolver policy host 443) as [pinned|] eqn:Erp; [|by intros [= <-]].
  destruct (dial answers pinned) as [b|] eqn:Ed; [|by intros [= <-]]. intros [= <-] [= <-].
  destruct (dialled_permitted _ _ _ _ _ _ _ Erp Ed) as [Hp Hport]. exists host. split; [done|].
  rewrite Hport. by apply fwd_tls.
Qed.
End Served.

(** ** Clients are confined *)

(** C19: Whatever a client of the macOS broker sends, in whatever pieces: when the broker
    connects anywhere, the address is an answer of the one resolution of the host the
    client asked for, on the port it asked for, the mode allows that host there, and no
    answer of that resolution lies in the refused space - fifteen IPv4 blocks (private,
    shared, loopback, link-local with the metadata service, ...) and the IPv6 loopback,
    multicast, unique-local, link-local, documentation, NAT64 and mapped forms; 6to4 and
    Teredo addresses, the former site-local block and class E are not refused.  What the
    client asked for and what is forwarded follows from the bytes it sent: a TLS stream
    goes whole and in order to the server its hello names on port 443; after a CONNECT
    goes everything that follows the head; any other request goes with its request line
    rewritten and its other headers and everything that follows unchanged. *)
Theorem mac_broker_confines resolver answers policy c s a :
  handle_client resolver answers policy c = Done s → dialled s = Some a →
  ∃ asked, permitted resolver policy asked a ∧ forwards (incoming c) s asked (sa_port a).
Proof.
  unfold handle_client. destruct (read 1024 c) as [[chunk c']|] eqn:Er; [|by intros [= <-]].
  apply read_spec in Er as [-> Hlen]; [|lia].
  destruct chunk as [|b chunk]; [cbn in Hlen; lia|].
  change (octets (b :: chunk)) with (byte_value b :: octets chunk).
  pose proof (http_served resolver answers policy (b :: chunk) c' a) as Hh.
  pose proof (tls_served resolver answers policy (b :: chunk) c' s a) as Ht.
  assert (∀ l, starts_tls (b :: l) = (byte_value b =? 0x16)) as Hstart.
  { intros l. unfold starts_tls. change (octets (b :: l)) with (byte_value b :: octets l).
    destruct (byte_value b) as [|p|p]; [done| |done]. do 5 (destruct p as [p|p|]; try done). }
  cbn [app] in *. rewrite Hstart in Hh, Ht. destruct (Z.eqb_spec (byte_value b) 0x16) as [E|Hne].
  - rewrite E. by apply Ht.
  - intros H. assert (Done (handle_http_client resolver answers policy (b :: chunk) c') = Done s) as E.
    { rewrite <-H. destruct (byte_value b) as [|p|p]; [done| |done]. do 5 (destruct p as [p|p|]; try done). }
    injection E as <-. by apply Hh.
Qed.

Definition demo_resolver (host : string) (port : Z) : option (list SocketAddr) :=
  if String.eqb host "api.example.com" then Some [mk_sock (V4 [93; 184; 216; 34]) port] else None.
Definition demo_broker : BrokerPolicy := mk_broker (NetAllowlist ["*.example.com"]) (mk_sock (V4 [127; 0; 0; 1]) 5000).
Definition demo_connect : Conn :=
  mk_conn (bs ("CONNECT api.example.com:443 HTTP/1.1" +:+ crlf_text +:+ crlf_text) ++ bs "payload") [6; 0; 30; 2]%nat.

Lemma mac_broker_confines_witness :
  ∃ s, handle_client demo_resolver (λ _, true) demo_broker demo_connect = Done s
  ∧ dialled s = Some (mk_sock (V4 [93; 184; 216; 34]) 443)
  ∧ upstream s ++ unread s = bs "payload"
  ∧ ∃ asked, permitted demo_resolver demo_broker asked (mk_sock (V4 [93; 184; 216; 34]) 443).
Proof.
  destruct (handle_client demo_resolver (λ _, true) demo_broker demo_connect) as [s|] eqn:E; [|vm_compute in E; discriminate E].
  assert (dialled s = Some (mk_sock (V4 [93; 184; 216; 34]) 443)) as Hd by (vm_compute in E; injection E as <-; reflexivity).
  exists s. split; [reflexivity|]. split; [exact Hd|]. split; [vm_compute in E; injection E as <-; reflexivity|].
  destruct (mac_broker_confines _ _ _ _ _ _ E Hd) as (asked & Hp & _). exists asked. exact Hp.
Defined.

(** ** What the parser survives *)

Lemma mac_names_total fuel buf p stop : (stop ≤ length buf)%nat → mac_names fuel buf p stop ≠ Panic.
Proof.
  intros Hs. revert p. induction fuel as [|fuel IH]; intros p; cbn [mac_names]; [done|].
  destruct (Nat.leb_spec (p + 3) stop); [|done]. read_ok. read_ok. destruct (_ && _); [done|apply IH].
Qed.

Lemma mac_extensions_total fuel buf p e : (e ≤ length buf)%nat → mac_extensions fuel buf p e ≠ Panic.
Proof.
  intros He. revert p. induction fuel as [|fuel IH]; intros p; cbn [mac_extensions]; [done|].
  destruct (Nat.leb_spec (p + 4) e); [|done]. read_ok. read_ok. cbv zeta.
  destruct (_ =? 0)%nat; [|apply IH].
  match goal with |- context [(e <? ?n)%nat || (?l <? 2)%nat] => destruct (Nat.ltb_spec e n), (Nat.ltb_spec l 2) end; try done. cbn [orb].
  read_ok. match goal with |- context [(?x <? ?y)%nat] => destruct (Nat.ltb_spec x y) end; [done|].
  match goal with |- context [mac_names ?f ?b ?p ?l] => pose proof (mac_names_total f b p l) as Hn; destruct (mac_names f b p l) as [[name|]|] end;
    [done|rewrite done_bind; apply IH|]. exfalso. apply Hn; [lia|reflexivity].
Qed.

Lemma mac_hello_total buf : mac_hello_body buf ≠ Panic.
Proof.
  unfold mac_hello_body. cbv zeta.
  destruct (Nat.leb_spec (length buf) (9 + 2 + 32)); [done|]. read_ok.
  match goal with |- context [(length buf <? ?n)%nat] => destruct (Nat.ltb_spec (length buf) n) end; [done|]. read_ok.
  match goal with |- context [(length buf <=? ?n)%nat] => destruct (Nat.leb_spec (length buf) n) end; [done|]. read_ok.
  match goal with |- context [(length buf <? ?n)%nat] => destruct (Nat.ltb_spec (length buf) n) end; [done|]. read_ok.
  match goal with |- context [(length buf <? ?n)%nat] => destruct (Nat.ltb_spec (length buf) n) end; [done|].
  apply mac_extensions_total. lia.
Qed.

(** The hello parser reads out of bounds only of records shorter than nine bytes... *)
Lemma hello_needs_nine buf : (9 ≤ length buf)%nat → extract_client_hello_sni buf ≠ Panic.
Proof.
  intros Hl. unfold extract_client_hello_sni. destruct (Nat.ltb_spec (length buf) 5); [lia|]. read_ok.
  destruct (negb _); [done|]. read_ok. destruct (_ <? _)%nat; [done|]. read_ok. destruct (negb _); [done|].
  do 3 read_ok. cbv zeta. destruct (_ <? _)%nat; [done|]. apply mac_hello_total.
Qed.

(** ... and does on an empty one, which a client may send. *)
Lemma empty_record_panics resolver answers policy sizes :
  handle_client resolver answers policy (mk_conn (chr <$> [22; 3; 1; 0; 0]%nat) (4%nat :: sizes)) = Panic.
Proof. reflexivity. Qed.

(** ** What the checks leave open *)

(** The Linux broker refuses more: the reserved class E, 6to4 and Teredo addresses that
    embed a private one, and the former site-local block are connected to here. *)
Lemma linux_refuses_more :
  Forall (λ ip, forbidden_destination ip = true ∧ is_restricted_addr ip = false)
    [V4 [240; 0; 0; 1]; V6 [0x20; 0x02; 10; 0; 0; 1; 0; 0; 0; 0; 0; 0; 0; 0; 0; 1];
     V6 [0x20; 0x01; 0; 0; 0; 0; 0; 0; 0; 0; 0; 0; 0; 0; 0; 1]; V6 [0xfe; 0xc0; 0; 0; 0; 0; 0; 0; 0; 0; 0; 0; 0; 0; 0; 1]].
Proof. repeat constructor. Qed.

(** A plain-HTTP request is routed by its target alone: the Host header it carries on
    may name another site than the one the policy allowed. *)
Lemma host_header_not_compared :
  let request := bs ("GET http://api.example.com/ HTTP/1.1" +:+ crlf_text +:+ "Host: evil.test" +:+ crlf_text +:+ crlf_text) in
  let s := handle_client demo_resolver (λ _, true) demo_broker (mk_conn request [1024%nat]) in
  s = Done (mk_served [] (Some (mk_sock (V4 [93; 184; 216; 34]) 80))
              (bs ("GET / HTTP/1.1" +:+ crlf_text +:+ "Host: evil.test" +:+ crlf_text +:+ crlf_text)) []).
Proof. vm_compute. reflexivity. Qed.
