(* ===== verification/Lint.v ===== *)
(** * Lint: the checks of [vetto policy lint]

    Model of [src/src/policy/lint.rs] on Linux: the seventeen rules over a resolved
    policy, their order, and when the command succeeds.  Existence, canonical paths and
    variables are those of the host. *)

From S2P Require Import Prelude Float64 Paths PolicyTypes Ip NetAddr Broker Globs.

Inductive Severity : Type := High | Warn.
#[export] Instance Severity_eq_dec : EqDecision Severity.
Proof. solve_decision. Defined.
Definition severity_label (s : Severity) : string := match s with High => "high" | Warn => "warn" end.

Record Finding : Type := mk_finding { severity : Severity; rule : string; message : string }.

(** ** Quantities *)

Definition is_max (t : string) : bool := eq_ignore_ascii_case t "max".
Definition positive (o : option Z) : bool := match o with Some v => 0 <? v | None => false end.

Definition is_valid_memory_spec (s : string) : bool :=
  let t := trim s in
  if is_empty t || starts_with t "-" then false else if is_max t then true else positive (parse_bytes_value t).

Definition is_valid_pids_spec (s : string) : bool :=
  let t := trim s in
  if is_empty t || starts_with t "-" then false else if is_max t then true else positive (parse_u64 t).

Definition positive_f64 (s : string) : bool :=
  match parse_f64 s with Some p => f64_gt p (f64_of_Z 0) && f64_is_finite p | None => false end.
Definition has_space (t : string) : bool := existsb (contains t) white_space.

Definition is_valid_cpu_spec (s : string) : bool :=
  let t := trim s in
  if is_empty t || starts_with t "-" then false
  else if is_max t then true
  else match strip_suffix "%" t with
  | Some pct_str =>
      let pct_str := trim pct_str in
      if is_empty pct_str || starts_with pct_str "-" then false else positive_f64 pct_str
  | None =>
      if has_space t then
        match split_whitespace t with
        | [quota_s; period_s] =>
            if starts_with quota_s "-" || starts_with period_s "-" then false
            else (is_max quota_s || positive (parse_u64 quota_s)) && positive (parse_u64 period_s)
        | _ => false
        end
      else positive (parse_u64 t)
  end.

Section Rules.
Context `{LoadHost}.
Variable policy : Policy.

(** [std::env::temp_dir] on Unix. *)
Definition temp_dir : path := match host_env "TMPDIR" with Some t => components t | None => components "/tmp" end.
Definition is_temp_root (p : path) : bool :=
  bool_decide (p = components "/tmp") || bool_decide (p = components "/var/tmp")
  || bool_decide (p = components "/private/tmp") || bool_decide (p = temp_dir) || path_starts_with p (components "/dev/").

(** ** Roots *)

Definition covers_home (root home : path) : bool :=
  bool_decide (root = home) || (negb (is_temp_root root) && path_starts_with home root).
Definition root_covers_home (home root : path) : bool :=
  covers_home root home
  || match host_canonicalize root, host_canonicalize home with
     | Some root_canonical, Some home_canonical => covers_home root_canonical home_canonical
     | _, _ => false
     end.
Definition rule_home_write_root (home : path) : option Finding :=
  match List.find (root_covers_home home) (allow_write policy) with
  | Some root =>
      Some (mk_finding High "home_write_root"
        ("write root '" +:+ to_str root +:+ "' is the user home directory ($HOME) or an ancestor of it: "
         +:+ "the agent can rewrite its own credential store"))
  | None => None
  end.

Definition rule_home_blanket_read (home : path) : option Finding :=
  match List.find (λ root, bool_decide (root = home)) (allow_read policy) with
  | Some root =>
      Some (mk_finding High "home_blanket_read"
        ("read root '" +:+ to_str root +:+ "' is $HOME itself: every user secret is readable regardless of deny rules"))
  | None => None
  end.

Definition roots : list path := allow_read policy ++ allow_write policy.
Definition rule_useless_deny : option Finding :=
  match List.find (λ entry, negb (existsb (path_starts_with (deny_path entry)) roots)) (deny_resolved policy) with
  | Some entry =>
      Some (mk_finding Warn "useless_deny"
        ("denied path '" +:+ to_str (deny_path entry) +:+ "' is not under any allow_read or allow_write root: "
         +:+ "the deny rule is a no-op"))
  | None => None
  end.

Definition rule_no_secrets_resolved (home : path) : option Finding :=
  let credential_dirs := filter (λ dir, host_exists dir = true)
    ((λ dir, push home (components dir)) <$> [".ssh"; ".codex"; ".claude"]) in
  if bool_decide (credential_dirs = []) || negb (bool_decide (deny_resolved policy = [])) then None
  else Some (mk_finding Warn "no_secrets_resolved"
    ("deny_resolved is empty although host credential directories exist (" +:+ join ", " (to_str <$> credential_dirs)
     +:+ "); add display_only_deny paths so secrets stay masked")).

Definition rule_no_limits : option Finding :=
  match cpu_seconds (limits policy), address_space_bytes (limits policy), processes (limits policy),
        open_files (limits policy), file_size_bytes (limits policy) with
  | None, None, None, None, None =>
      Some (mk_finding Warn "no_limits"
        "no resource limits are set: cpu, address space, processes, open files and file size are all unlimited")
  | _, _, _, _, _ => None
  end.

(** ** Quotas *)

Definition bad_spec (what spec expected : string) : Finding :=
  mk_finding High "invalid-cgroup-spec" ("invalid " +:+ what +:+ " limit spec '" +:+ spec +:+ "': must be " +:+ expected).
Definition check_spec (valid : string → bool) (what expected : string) (o : option string) : list Finding :=
  match o with Some spec => if valid spec then [] else [bad_spec what spec expected] | None => [] end.
Definition rule_invalid_cgroup_spec : list Finding :=
  match cgroup policy with
  | Some cg =>
      check_spec is_valid_memory_spec "cgroup memory" "'max' or positive byte quantity (e.g. '512M')" (memory_max cg)
      ++ check_spec is_valid_memory_spec "cgroup swap" "'max' or positive byte quantity (e.g. '256M')" (swap_max cg)
      ++ check_spec is_valid_pids_spec "cgroup pids" "'max' or positive integer" (pids_max cg)
      ++ check_spec is_valid_cpu_spec "cgroup cpu"
           "'max', percentage (e.g. '50%'), or quota/period (e.g. '50000 100000')" (cgroup_cpu_max cg)
  | None => []
  end
  ++ check_spec is_valid_cpu_spec "policy cpu_max" "'max', percentage (e.g. '50%'), or quota/period" (cpu_max policy).

Definition inversion (swap_str mem_str : string) : bool :=
  match is_max (trim swap_str), is_max (trim mem_str), parse_bytes_value swap_str, parse_bytes_value mem_str with
  | true, false, _, Some _ => true
  | false, false, Some sb, Some mb => mb <? sb
  | _, _, _, _ => false
  end.
Definition rule_memory_swap_inversion : option Finding :=
  cg ← cgroup policy;
  swap_str ← swap_max cg;
  mem_str ← memory_max cg;
  if inversion swap_str mem_str then
    Some (mk_finding High "memory-swap-inversion"
      ("cgroup swap.max ('" +:+ swap_str +:+ "') exceeds memory.max ('" +:+ mem_str
       +:+ "'): swap ceiling cannot be greater than memory ceiling"))
  else None.

Definition rule_unsupported_platform_quota : option Finding :=
  let set (o : option string) := bool_decide (is_Some o) in
  let has_cgroup :=
    match cgroup policy with
    | Some cg => set (memory_max cg) || set (swap_max cg) || set (pids_max cg) || set (cgroup_cpu_max cg)
    | None => false
    end || set (cpu_max policy) in
  if negb has_cgroup then None
  else
    let os := default "linux" (host_env "VETTO_TARGET_OS") in
    if String.eqb os "macos" || String.eqb os "windows" then
      Some (mk_finding Warn "unsupported-platform-quota"
        "cgroup v2 resource quotas configured in policy are not supported on macOS/Windows and will not be enforced")
    else None.

(** ** Network and environment *)

Definition rule_network_off_with_domains : option Finding :=
  let net_off := match network_mode policy with Some m => eq_ignore_ascii_case m "off" | None => false end
                 || deny_network policy in
  let has_domains := negb (bool_decide (network_allow policy = [])) || negb (bool_decide (net_quota policy = ∅)) in
  if net_off && has_domains then
    Some (mk_finding Warn "network-off-with-domains"
      ("network mode is 'off' but domain allowlist rules are defined (" +:+ to_dec (Z.of_nat (length (network_allow policy)))
       +:+ " domain(s)); domain rules are dormant and will never be contacted"))
  else None.

Definition is_wildcard (domain : string) : bool := String.eqb (trim domain) "*" || String.eqb (trim domain) "*.*".
Definition rule_insecure_allowlist_wildcard : option Finding :=
  if existsb is_wildcard (network_allow policy) then
    Some (mk_finding High "insecure-allowlist-wildcard"
      "wildcard '*' in network allowlist destroys domain isolation: every outbound destination is permitted")
  else None.

Definition is_collision (pass : string) : bool := existsb (λ d, eq_ignore_ascii_case d pass) (env_deny (environment policy)).
Definition rule_env_allow_deny_collision : list Finding :=
  (λ pass, mk_finding High "env-allow-deny-collision"
     ("environment variable '" +:+ pass +:+ "' is present in both pass-through and deny lists: "
      +:+ "conflicting grant and revocation"))
  <$> filter (λ pass, is_collision pass = true) (pass_through (environment policy)).

(** ** Workspace *)

Definition rule_workspace_outside_roots (project : path) : option Finding :=
  let all := allow_write policy ++ allow_read policy in
  let covered_lexical := existsb (path_starts_with project) all in
  let covered_canon :=
    match host_canonicalize project with
    | Some project_canon =>
        existsb (λ root, match host_canonicalize root with
                         | Some root_canon => path_starts_with project_canon root_canon
                         | None => false
                         end) all
    | None => false
    end in
  if covered_lexical || covered_canon then None
  else Some (mk_finding High "workspace-outside-roots"
    ("workspace root '" +:+ to_str project +:+ "' is outside all allowed read/write roots: "
     +:+ "agent cannot access its own working directory")).

Definition backslash : string := String (chr 92) EmptyString.
Definition is_root_pattern (p : path) : bool :=
  let s := trim (to_str p) in
  existsb (String.eqb s) ["/"; "/*"; backslash; backslash +:+ "*"; "/*.*"] || bool_decide (p = [RootDir]).
Definition rule_root_wildcard : list Finding :=
  ((λ root, mk_finding High "root-wildcard-write"
      ("write root '" +:+ to_str root +:+ "' grants root wildcard access: unrestricted modification "
       +:+ "of host filesystem causes catastrophic sandbox collapse"))
   <$> filter (λ root, is_root_pattern root = true) (allow_write policy))
  ++ ((λ root, mk_finding High "root-wildcard-read"
      ("read root '" +:+ to_str root +:+ "' grants root wildcard access: entire host filesystem "
       +:+ "is exposed to unauthorized inspection"))
   <$> filter (λ root, is_root_pattern root = true) (allow_read policy)).

Definition is_dangerous_cidr (trimmed : string) : bool :=
  String.eqb trimmed "0.0.0.0/0" || String.eqb trimmed "::/0" || starts_with trimmed "0.0.0.0/0:" || starts_with trimmed "::/0:".
Definition rule_dangerous_network_cidr : list Finding :=
  (λ trimmed, mk_finding High "dangerous-network-cidr"
     ("dangerous network CIDR '" +:+ trimmed +:+ "' permits outbound connections to any "
      +:+ "destination on the internet, destroying network isolation"))
  <$> filter (λ trimmed, is_dangerous_cidr trimmed = true) (trim <$> allow_cidr policy).

Definition is_bare_tmp (root : path) : bool :=
  bool_decide (root = components "/tmp") || bool_decide (root = components "/var/tmp")
  || bool_decide (root = components "/private/tmp").
Definition rule_broad_tmp_write : option Finding :=
  match List.find (λ root, is_bare_tmp root && negb (tmpfs_tmp policy)) (allow_write policy) with
  | Some root =>
      Some (mk_finding Warn "broad-tmp-write"
        ("write root '" +:+ to_str root +:+ "' is granted without subdirectory isolation or private tmpfs: "
         +:+ "shared /tmp permits symlink races and socket tampering; use '--tmpfs-tmp' or an isolated subdirectory"))
  | None => None
  end.

(** ** Secrets *)

Definition masks (base secret d : path) : bool :=
  bool_decide (d = secret) || (negb (is_absolute d) && bool_decide (push base d = secret)) || path_starts_with secret d.
Definition masked (base secret : path) : bool :=
  existsb (λ d, masks base secret (deny_path d)) (deny_resolved policy) || existsb (masks base secret) (deny_read policy).
Definition unmasked (base : path) (names : list string) : list path :=
  filter (λ secret, host_exists secret && negb (masked base secret) = true) ((λ n, push base (components n)) <$> names).

Definition HOST_SECRETS : list string := [".ssh"; ".aws"; ".gnupg"; ".docker"; ".netrc"].
Definition ENV_FILES : list string := [".env"; ".env.local"; ".env.production"; ".env.development"].
Definition rule_missing_secret_masking (home : path) (project : option path) : list Finding :=
  ((λ secret, mk_finding Warn "missing-secret-masking"
      ("host credential store '" +:+ to_str secret +:+ "' exists but is not masked in policy deny "
       +:+ "rules: credentials may be exposed")) <$> unmasked home HOST_SECRETS)
  ++ match project with
     | Some proj =>
         (λ secret, mk_finding High "missing-secret-masking"
            ("workspace secret file '" +:+ to_str secret +:+ "' exists but is not masked by "
             +:+ "display_only_deny or deny_read")) <$> unmasked proj ENV_FILES
     | None => []
     end.

(** ** The command *)

Definition opt (o : option Finding) : list Finding := match o with Some f => [f] | None => [] end.

Definition evaluate_with_project (home : path) (project : option path) : list Finding :=
  opt (rule_home_write_root home) ++ opt (rule_home_blanket_read home)
  ++ opt rule_useless_deny ++ opt (rule_no_secrets_resolved home) ++ opt rule_no_limits
  ++ rule_invalid_cgroup_spec ++ opt rule_memory_swap_inversion
  ++ opt rule_unsupported_platform_quota ++ opt rule_network_off_with_domains
  ++ opt rule_insecure_allowlist_wildcard ++ rule_env_allow_deny_collision
  ++ match project with Some p => opt (rule_workspace_outside_roots p) | None => [] end
  ++ rule_root_wildcard ++ rule_dangerous_network_cidr ++ opt rule_broad_tmp_write
  ++ rule_missing_secret_masking home project.
Definition evaluate (home : path) : list Finding := evaluate_with_project home None.

Definition is_high (f : Finding) : bool := bool_decide (severity f = High).
(** The exit code of [run_cli] once the policy is loaded. *)
Definition lint_success (strict : bool) (findings : list Finding) : bool :=
  negb (existsb is_high findings) && (negb strict || bool_decide (findings = [])).
Definition lint_exit (strict : bool) (findings : list Finding) : Z := if lint_success strict findings then 0 else 1.
End Rules.

(** ** Lemmas: resolution of granted roots *)

(** What canonical paths are: absolute names, each of whose ancestors is canonical; a
    name is looked up in the directory its parent resolves to; the root is itself. *)
Class CanonicalLaws (canonicalize : path → option path) : Prop := {
  canonical_normal : ∀ p q, canonicalize p = Some q → normal_abs q = true;
  canonical_ancestor : ∀ p a b, canonicalize p = Some (a ++ b) → a ≠ [] → canonicalize a = Some a;
  canonical_child : ∀ p q n, canonicalize p = Some q → canonicalize (p ++ [Normal n]) = canonicalize (q ++ [Normal n]);
  canonical_root : canonicalize [RootDir] = Some [RootDir];
}.

Section Canonical.
Context (canonicalize : path → option path) `{CanonicalLaws canonicalize}.

Lemma normal_not_nil q : normal_abs q = true → q ≠ [].
Proof. by destruct q. Qed.

Lemma canonical_below p q ns h b :
  canonicalize p = Some q → names_only ns = true → canonicalize h = Some (q ++ ns ++ b) →
  canonicalize (p ++ ns) = Some (q ++ ns).
Proof.
  revert p q. induction ns as [|c ns IH]; intros p q Hp Hns Hh; [by rewrite !app_nil_r|].
  unfold names_only in Hns. cbn in Hns. to_prop. destruct c as [| | |n]; try discriminate.
  assert (canonicalize (p ++ [Normal n]) = Some (q ++ [Normal n])) as Hstep.
  { rewrite (canonical_child _ _ _ Hp). apply (canonical_ancestor h _ (ns ++ b)); [by rewrite <-app_assoc|].
    intros E. by apply app_eq_nil in E as [_ E]. }
  change (Normal n :: ns) with ([Normal n] ++ ns). rewrite (app_assoc p), (app_assoc q). apply IH; [done|done|].
  by rewrite <-app_assoc.
Qed.

Lemma push_names ns q : names_only ns = true → q ≠ [] → fold_left (λ acc c, push acc [c]) ns q = q ++ ns.
Proof.
  revert q. induction ns as [|c ns IH]; intros q Hns Hq; cbn; [by rewrite app_nil_r|].
  unfold names_only in Hns. cbn in Hns. to_prop. destruct c as [| | |n]; try discriminate.
  destruct q as [|x q]; [done|]. cbn [push is_absolute is_root List.filter is_cur negb].
  rewrite IH by done. by rewrite <-app_assoc.
Qed.

Lemma resolve_split a un orig :
  normal_abs a = true → names_only un = true →
  ∃ p q ns, resolve_ancestor canonicalize (rev a) un orig = q ++ ns ∧ canonicalize p = Some q ∧ p ++ ns = a ++ un
    ∧ names_only ns = true.
Proof.
  revert un. induction a as [|c a IH] using rev_ind; intros un Ha Hun; [done|].
  rewrite rev_app_distr. cbn [rev app].
  destruct (canonicalize (a ++ [c])) as [q|] eqn:E.
  - exists (a ++ [c]), q, un. split; [|by rewrite E]. cbn [resolve_ancestor].
    change (rev (c :: rev a)) with (rev (rev a) ++ [c]). rewrite rev_involutive, E.
    pose proof (canonical_normal _ _ E) as Hq. rewrite push_names by (done || by apply normal_not_nil).
    apply lexical_normalize_fixed. destruct q as [|[] q]; try discriminate. cbn in *. unfold names_only in *.
    rewrite forallb_app. by rewrite Hq, Hun.
  - destruct a as [|r a]; [destruct c; try discriminate; cbn in E; by rewrite canonical_root in E|].
    destruct r; try discriminate. cbn in Ha. unfold names_only in Ha. rewrite forallb_app in Ha. cbn in Ha. to_prop.
    destruct c as [| | |n]; try discriminate.
    destruct (IH (Normal n :: un)) as (p & q & ns & R1 & R2 & R3 & R4); [done|done|].
    exists p, q, ns. split; [|split; [done|split; [by rewrite R3, <-app_assoc|done]]].
    cbn [resolve_ancestor]. change (rev (Normal n :: rev (RootDir :: a))) with (rev (rev (RootDir :: a)) ++ [Normal n]).
    rewrite rev_involutive, E. exact R1.
Qed.

(** A resolved root that lies on a canonical path is itself canonical. *)
Lemma resolved_on_canonical r h p :
  normal_abs r = true → canonicalize p = Some h → path_starts_with h (normalize_scope_path canonicalize r) = true →
  canonicalize r = Some (normalize_scope_path canonicalize r).
Proof.
  intros Hr Hp. unfold normalize_scope_path.
  assert (is_absolute r = true) as -> by (destruct r as [|[] r]; try discriminate; done).
  destruct (resolve_split r [] r Hr) as (a & q & ns & -> & Ha & E & Hns); [done|].
  rewrite app_nil_r in E. intros [b Hb]%path_starts_with_spec. subst r h.
  apply (canonical_below _ _ _ p b); [done|done|]. by rewrite Hp, <-app_assoc.
Qed.

Lemma resolved_canonical q a :
  is_absolute q = true → canonicalize q = Some a → normalize_scope_path canonicalize q = a.
Proof.
  intros Hq Ha. unfold normalize_scope_path. rewrite Hq. pose proof (canonical_normal _ _ Ha) as Hn.
  destruct q as [|c q] using rev_ind; [done|]. rewrite rev_app_distr. cbn [rev app resolve_ancestor].
  change (rev (c :: rev q)) with (rev (rev q) ++ [c]). rewrite rev_involutive, Ha. by apply lexical_normalize_fixed.
Qed.
End Canonical.

(** ** Lemmas: what a passed lint rules out *)

Lemma no_high_app a b : existsb is_high (a ++ b) = false ↔ existsb is_high a = false ∧ existsb is_high b = false.
Proof. rewrite existsb_app. apply orb_false_iff. Qed.

Lemma success_no_high strict fs : lint_success strict fs = true → existsb is_high fs = false.
Proof. unfold lint_success. intros [H _]%andb_true_iff. by apply negb_true_iff. Qed.

Lemma no_high_opt o : (∀ f, o = Some f → severity f = High) → existsb is_high (opt o) = false → o = None.
Proof.
  intros Hs. destruct o as [f|]; [|done]. cbn. unfold is_high. rewrite Hs by done. by rewrite bool_decide_eq_true_2.
Qed.

Lemma no_high_fmap {A} (f : A → Finding) l : (∀ x, severity (f x) = High) → existsb is_high (f <$> l) = false → l = [].
Proof.
  intros Hs. destruct l as [|x l]; [done|]. cbn. unfold is_high at 1. rewrite Hs. by rewrite bool_decide_eq_true_2.
Qed.

Section Passed.
Context `{LoadHost} (policy : Policy) (home : path) (project : option path).

Definition passed : Prop := existsb is_high (evaluate_with_project policy home project) = false.

Lemma passed_home root : passed → root ∈ allow_write policy → root_covers_home home root = false.
Proof.
  unfold passed, evaluate_with_project. rewrite !no_high_app. intros (Hw & _) Hin. apply no_high_opt in Hw.
  - unfold rule_home_write_root in Hw. destruct (List.find _ _) eqn:E; [done|].
    apply not_true_iff_false. intros Ht. apply list_elem_of_In in Hin.
    by rewrite (List.find_none _ _ E _ Hin) in Ht.
  - intros f. unfold rule_home_write_root. by destruct (List.find _ _); [intros [= <-]|].
Qed.

Lemma passed_home_read root : passed → root ∈ allow_read policy → root ≠ home.
Proof.
  unfold passed, evaluate_with_project. rewrite !no_high_app. intros (_ & Hr & _) Hin. apply no_high_opt in Hr.
  - unfold rule_home_blanket_read in Hr. destruct (List.find _ _) eqn:E; [done|]. intros ->.
    apply list_elem_of_In in Hin. apply (List.find_none _ _ E) in Hin. by rewrite bool_decide_eq_true_2 in Hin.
  - intros f. unfold rule_home_blanket_read. by destruct (List.find _ _); [intros [= <-]|].
Qed.

Lemma passed_specs : passed → rule_invalid_cgroup_spec policy = [].
Proof.
  unfold passed, evaluate_with_project. rewrite !no_high_app. intros (_ & _ & _ & _ & _ & Hs & _).
  destruct (rule_invalid_cgroup_spec policy) as [|f fs] eqn:E; [done|].
  assert (severity f = High) as Hf.
  { assert (f ∈ rule_invalid_cgroup_spec policy) as Hin by (rewrite E; left). clear - Hin.
    unfold rule_invalid_cgroup_spec, check_spec in Hin. repeat (case_match || apply elem_of_app in Hin as [Hin|Hin]);
      try (by apply not_elem_of_nil in Hin); by apply list_elem_of_singleton in Hin as ->. }
  cbn in Hs. unfold is_high in Hs at 1. by rewrite bool_decide_eq_true_2 in Hs.
Qed.

Lemma passed_swap cg s m sb mb :
  passed → cgroup policy = Some cg → swap_max cg = Some s → memory_max cg = Some m →
  is_max (trim s) = false → is_max (trim m) = false → parse_bytes_value s = Some sb → parse_bytes_value m = Some mb → sb ≤ mb.
Proof.
  unfold passed, evaluate_with_project. rewrite !no_high_app. intros (_ & _ & _ & _ & _ & _ & Hs & _) Hc Hsw Hm Es Em Ps Pm.
  apply no_high_opt in Hs.
  - unfold rule_memory_swap_inversion, inversion in Hs. rewrite Hc in Hs. cbn in Hs. rewrite Hsw in Hs. cbn in Hs.
    rewrite Hm in Hs. cbn in Hs. rewrite Es, Em, Ps, Pm in Hs. destruct (Z.ltb_spec mb sb); [done|lia].
  - intros f. unfold rule_memory_swap_inversion. destruct (cgroup policy) as [c|]; [cbn|done].
    destruct (swap_max c); [cbn|done]. destruct (memory_max c); [cbn|done]. by case_match; [intros [= <-]|].
Qed.

Lemma passed_roots root : passed → root ∈ allow_write policy ++ allow_read policy → is_root_pattern root = false.
Proof.
  unfold passed, evaluate_with_project. rewrite !no_high_app. intros (_ & _ & _ & _ & _ & _ & _ & _ & _ & _ & _ & _ & Hr & _).
  unfold rule_root_wildcard in Hr. rewrite no_high_app in Hr. destruct Hr as [Hw Hr].
  apply no_high_fmap in Hw; [|done]. apply no_high_fmap in Hr; [|done]. intros Hin. apply not_true_iff_false. intros Ht.
  apply elem_of_app in Hin as [Hin|Hin].
  - assert (root ∈ filter (λ r, is_root_pattern r = true) (allow_write policy)) as Hf by (by apply list_elem_of_filter). rewrite Hw in Hf. by apply not_elem_of_nil in Hf.
  - assert (root ∈ filter (λ r, is_root_pattern r = true) (allow_read policy)) as Hf by (by apply list_elem_of_filter). rewrite Hr in Hf. by apply not_elem_of_nil in Hf.
Qed.

Lemma passed_env proj name :
  passed → project = Some proj → name ∈ ENV_FILES → host_exists (push proj (components name)) = true →
  masked policy proj (push proj (components name)) = true.
Proof.
  unfold passed, evaluate_with_project. rewrite !no_high_app. intros Hp -> Hn He.
  destruct Hp as (_ & _ & _ & _ & _ & _ & _ & _ & _ & _ & _ & _ & _ & _ & _ & Hm).
  unfold rule_missing_secret_masking in Hm. rewrite no_high_app in Hm. destruct Hm as [_ Hm].
  apply no_high_fmap in Hm; [|done]. apply not_false_iff_true. intros Ef.
  assert (push proj (components name) ∈ unmasked policy proj ENV_FILES) as Hin; [|rewrite Hm in Hin; by apply not_elem_of_nil in Hin].
  apply list_elem_of_filter; split; [by rewrite He, Ef|]. apply (list_elem_of_fmap_2 (λ n, push proj (components n))). done.
Qed.
End Passed.

(** A policy that passes the lint keeps the home directory out of the write scope:
    neither the home directory nor a directory above it, under whatever spelling or link,
    is writable, except below a root the rule exempts (temporary directories, devices)
    and that is not the home directory itself. *)
Theorem lint_protects_home `{LoadHost} `{CanonicalLaws host_canonicalize} policy home project strict h q a :
  (∀ w, w ∈ allow_write policy → normal_abs w = true) → host_canonicalize home = Some h →
  is_absolute q = true → host_canonicalize q = Some a → path_starts_with h a = true →
  lint_success strict (evaluate_with_project policy home project) = true →
  in_write_scope host_canonicalize policy q = true →
  ∃ w t, w ∈ allow_write policy ∧ host_canonicalize w = Some t ∧ is_temp_root t = true ∧ t ≠ h ∧ path_starts_with a t = true.
Proof.
  intros Hw Hh Hq Ha Hin Hs Hscope. apply success_no_high in Hs. unfold in_write_scope in Hscope.
  destruct (existsb _ (deny_write policy)); [done|]. apply existsb_true in Hscope as (w & Hwin & Hc).
  rewrite (resolved_canonical host_canonicalize q a) in Hc by done.
  assert (host_canonicalize w = Some (normalize_scope_path host_canonicalize w)) as Ht.
  { apply (resolved_on_canonical host_canonicalize w a q); [by apply Hw|done|done]. }
  exists w, (normalize_scope_path host_canonicalize w). split; [done|]. split; [done|].
  pose proof (passed_home policy home project w Hs Hwin) as Hp. unfold root_covers_home in Hp.
  rewrite Ht, Hh in Hp. apply orb_false_iff in Hp as [_ Hp]. unfold covers_home in Hp.
  apply orb_false_iff in Hp as [Hne Hp]. apply bool_decide_eq_false in Hne.
  rewrite (path_starts_with_trans h a) in Hp by done. rewrite andb_true_r in Hp. apply negb_false_iff in Hp. done.
Qed.

(** A host where the home directory is [/home/u] and a link [/h] leads to it. *)
Definition lint_dirs : list path :=
  components <$> ["/"; "/home"; "/home/u"; "/work"; "/work/.env"; "/srv"; "/tmp"].
Definition lint_host (tmpdir : option string) : LoadHost := {|
  host_canonicalize := λ p, if bool_decide (p ∈ lint_dirs) then Some p else None;
  host_kind := λ _, Err "ENOENT"; host_exists := λ p, bool_decide (p ∈ lint_dirs);
  host_is_file := λ _, false; host_is_dir := λ p, bool_decide (p ∈ lint_dirs); host_read_dir := λ _, Err "ENOENT";
  host_read_to_string := λ _, Err "ENOENT"; host_glob := λ _, [];
  host_env := λ v, if String.eqb v "TMPDIR" then tmpdir else None; host_cwd := Some (components "/work"); host_uid := 1000;
|}.

Lemma lint_host_laws tmpdir : CanonicalLaws (@host_canonicalize (lint_host tmpdir)).
Proof.
  split; cbn [lint_host host_canonicalize].
  - intros p q Hc. case_bool_decide as Hp; [|done]. injection Hc as <-. clear -Hp.
    repeat (apply elem_of_cons in Hp as [->|Hp]; [reflexivity|]). by apply not_elem_of_nil in Hp.
  - intros p a b Hc Ha. case_bool_decide as Hp; [|done]. injection Hc as ->. clear -Hp Ha.
    assert (forallb (λ p, forallb (λ k, bool_decide (take (S k) p ∈ lint_dirs)) (seq 0 (length p))) lint_dirs = true) as Hall
      by (vm_compute; reflexivity).
    rewrite forallb_forall in Hall. apply list_elem_of_In, Hall in Hp. rewrite forallb_forall in Hp.
    destruct a as [|c a]; [done|]. specialize (Hp (length a)). cbn [app length take] in Hp. rewrite take_app_length in Hp.
    rewrite bool_decide_eq_true_2; [done|]. apply (bool_decide_eq_true_1 _), Hp. apply in_seq. rewrite length_app. lia.
  - intros p q n Hc. case_bool_decide; [|done]. by injection Hc as <-.
  - by vm_compute.
Qed.

Definition clean_limits : ResourceLimits := mk_limits (Some 60) None None None None None.
Definition lint_policy (writes : list path) : Policy :=
  mk_policy "demo" default_metadata clean_limits writes [] [] [] [mk_deny (components "/work/.env") false] default_env
    false None [] [] ∅ [] [] [] [] DefaultProfile None None None None None false false false false false [] []
    false false false false true [].

(** The exemption is the environment's to give: with [TMPDIR] set to a directory above
    the home directory, a policy that grants it passes the lint. *)
Lemma lint_protects_home_witness :
  let H := lint_host (Some "/home") in
  let policy := lint_policy [components "/work"; components "/home"] in
  lint_success true (evaluate_with_project policy (components "/home/u") (Some (components "/work"))) = true
  ∧ in_write_scope host_canonicalize policy (components "/home/u") = true
  ∧ ∃ w t, w ∈ allow_write policy ∧ host_canonicalize w = Some t ∧ is_temp_root t = true
     ∧ t ≠ components "/home/u" ∧ path_starts_with (components "/home/u") t = true.
Proof.
  intros H policy.
  assert (lint_success true (evaluate_with_project policy (components "/home/u") (Some (components "/work"))) = true) as Hl
    by (vm_compute; reflexivity).
  assert (in_write_scope host_canonicalize policy (components "/home/u") = true) as Hs by (vm_compute; reflexivity).
  split; [exact Hl|]. split; [exact Hs|]. pose proof (lint_host_laws (Some "/home")) as L.
  apply (lint_protects_home policy (components "/home/u") (Some (components "/work")) true (components "/home/u") (components "/home/u")).
  - intros w Hw. apply elem_of_cons in Hw as [->|Hw]; [reflexivity|]. apply list_elem_of_singleton in Hw as ->. reflexivity.
  - vm_compute. reflexivity.
  - reflexivity.
  - vm_compute. reflexivity.
  - reflexivity.
  - exact Hl.
  - exact Hs.
Defined.

(** ** What the rules miss *)

(** Every prefix of length 0 admits all addresses; only two spellings are reported. *)
Lemma prefix_zero_missed :
  is_dangerous_cidr "8.8.8.8/0" = false ∧ is_dangerous_cidr "0:0::/0" = false
  ∧ ∃ c, cidr_parse "8.8.8.8/0" = Ok c ∧ ∀ o, cidr_contains c (V4 o) = true.
Proof. split; [done|]. split; [done|]. exists (mk_cidr (V4 [8; 8; 8; 8]) 0). split; [reflexivity|done]. Qed.

(** A wildcard with a port admits every host and port as the bare one does, and is not
    reported. *)
Lemma wildcard_with_port_missed :
  is_wildcard "*:443" = false ∧ ∀ host, domain_allowed host ["*:443"] = true.
Proof. split; [reflexivity|done]. Qed.

(** A directory of credentials is no ancestor of the home directory: granting it for
    writing is not reported. *)
Lemma credential_root_missed :
  let H := lint_host None in
  lint_success true (evaluate_with_project (lint_policy [components "/work"; components "/home/u/.ssh"]) (components "/home/u")
    (Some (components "/work"))) = true.
Proof. vm_compute. reflexivity. Qed.
