(* ===== verification/Explain.v ===== *)
(** * Explain: why a path is granted or denied

    Model of the answer of [vetto policy explain --why] ([explain_why] of
    [src/src/policy/explain.rs]) and of the labels of a tier.  Its verdict is compared
    with the profiles of [Seatbelt], which enforce the policy on macOS. *)

From S2P Require Import Prelude Paths PolicyTypes Globs Lint Seatbelt.

Record PathExplanation : Type := mk_explanation {
  ex_path : string;
  access : string;
  writable : bool;
  readable : bool;
  denied : bool;
  rule_type : string;
  matching_rule : string;
  how_to_change : string;
}.

(** [target_path] on a project; a relative one is joined, not normalised. *)
Definition resolved_target (target project : path) : path := if is_absolute target then target else push project target.

Definition denied_secret (policy : Policy) (q : path) : bool :=
  existsb (λ d, if deny_is_dir d then path_starts_with q (deny_path d) else bool_decide (q = deny_path d)) (deny_resolved policy).

(** The words of the answer: access, rule type, rule, remedy. *)
Definition verdict_words (target : string) (secret denied_read is_writable denied_write is_readable : bool)
    (write_root read_root : string) : string * string * string * string :=
  if secret then
    ("DENIED", "display_only_deny", "masked credential / secret path",
     "To allow access: remove matching pattern from [display_only_deny.paths] in policy.toml, or move file out of masked secrets pattern.")
  else if denied_read then
    ("DENIED", "deny_read", "filesystem.deny_read rule",
     "To allow access: remove path from [filesystem.deny_read] in policy.toml.")
  else if is_writable then
    ("WRITABLE", "allow_write", "allow_write root: " +:+ write_root,
     "Path is writable and readable. To restrict to read-only, remove from [filesystem.allow_write] and keep in [filesystem.allow_read].")
  else if denied_write && is_readable then
    ("READ_ONLY", "deny_write", "subtractive deny_write rule overrides write access in root: " +:+ write_root,
     "Path is read-only due to subtractive [filesystem.deny_write] override. To allow writing: run `vetto allow "
     +:+ target +:+ "` or remove from [filesystem.deny_write] in policy.toml.")
  else if is_readable then
    ("READ_ONLY", "allow_read", "allow_read root: " +:+ read_root,
     "Path is read-only. To allow writing: run `vetto allow " +:+ target
     +:+ "` (or add to [filesystem.allow_write] in policy.toml).")
  else
    ("BLOCKED", "unmapped", "isolated scope (not in any allowed read or write root)",
     "Path is outside sandbox scope. To allow reading: run `vetto allow --read-only " +:+ target
     +:+ "`. To allow writing: run `vetto allow " +:+ target +:+ "`.").

Definition explain_why (policy : Policy) (target project : path) : PathExplanation :=
  let q := resolved_target target project in
  let is_denied_secret := denied_secret policy q in
  let is_denied_read := existsb (path_starts_with q) (deny_read policy) in
  let is_denied_write := existsb (path_starts_with q) (deny_write policy) in
  let matching_write_root := to_str <$> List.find (path_starts_with q) (allow_write policy) in
  let is_writable := bool_decide (is_Some matching_write_root) && negb is_denied_write && negb is_denied_secret in
  let matching_read_root := match to_str <$> List.find (path_starts_with q) (allow_read policy) with
                            | Some r => Some r
                            | None => matching_write_root
                            end in
  let is_readable := bool_decide (is_Some matching_read_root) && negb is_denied_read && negb is_denied_secret in
  let '(access, rule_type, matching_rule, how_to_change) :=
    verdict_words (to_str target) is_denied_secret is_denied_read is_writable is_denied_write is_readable
      (default EmptyString matching_write_root) (default EmptyString matching_read_root) in
  mk_explanation (to_str q) access is_writable is_readable (is_denied_secret || is_denied_read)
    rule_type matching_rule how_to_change.

(** ** Labels *)

Definition explain_tier_label (tier : option Tier) : string :=
  match tier with Some t => tier_label t | None => "macos-seatbelt" end.
Definition masking_strategy (tier : option Tier) : string :=
  match tier with
  | Some Full => "mount-masked"
  | Some FsOnly => "allowlist-carved"
  | Some Seccomp => "unmasked-filesystem-seccomp-only"
  | None => "seatbelt-denied"
  end.
(** [platform_diagnostic] on Linux. *)
Definition platform_diagnostic (tier : option Tier) : string * string :=
  let sub := match tier with Some Full => "Full" | Some FsOnly => "FS-Only" | Some Seccomp => "Seccomp-Only" | None => "Unconfined" end in
  ("Linux Tier 1", "Linux Tier 1: " +:+ sub +:+ " (Landlock ABI, namespaces, cgroups v2, seccomp)").

(** ** Lemmas *)

Lemma find_is_some {A} (P : A → bool) l : bool_decide (is_Some (List.find P l)) = existsb P l.
Proof.
  apply eq_true_iff_eq. rewrite bool_decide_eq_true, existsb_true. split.
  - intros [x Hx]. apply find_some in Hx as [Hin Hp]. exists x. split; [by apply list_elem_of_In|done].
  - intros (x & Hin & Hp). destruct (List.find P l) eqn:E; [done|].
    apply list_elem_of_In in Hin. by rewrite (List.find_none _ _ E _ Hin) in Hp.
Qed.

Lemma is_some_fmap {A B} (f : A → B) o : bool_decide (is_Some (f <$> o)) = bool_decide (is_Some o).
Proof. by destruct o. Qed.

Section Facts.
Context (policy : Policy) (target project : path).
Let q := resolved_target target project.

Lemma explain_writable :
  writable (explain_why policy target project)
  = under q (allow_write policy) && negb (under q (deny_write policy)) && negb (denied_secret policy q).
Proof. unfold explain_why. destruct (verdict_words _ _ _ _ _ _ _ _) as [[[? ?] ?] ?]. cbn [writable]. by rewrite is_some_fmap, find_is_some. Qed.

Lemma explain_readable :
  readable (explain_why policy target project)
  = under q (allow_read policy ++ allow_write policy) && negb (under q (deny_read policy)) && negb (denied_secret policy q).
Proof.
  unfold explain_why. destruct (verdict_words _ _ _ _ _ _ _ _) as [[[? ?] ?] ?]. cbn [readable]. f_equal. f_equal.
  unfold under. rewrite existsb_app, <-!find_is_some. fold q.
  destruct (List.find (path_starts_with q) (allow_read policy)); [done|]. cbn. by rewrite is_some_fmap.
Qed.

(** Nothing lies below a denied file. *)
Definition files_are_leaves : Prop :=
  ∀ d, d ∈ deny_resolved policy → deny_is_dir d = false → path_starts_with q (deny_path d) = true → q = deny_path d.
(** What the denied lists cover is among the resolved denials, as loading leaves it. *)
Definition denials_resolved : Prop :=
  ∀ d, d ∈ deny_read policy ++ deny_write policy → path_starts_with q d = true → under q (deny_path <$> deny_resolved policy) = true.

Lemma secret_is_under : files_are_leaves → denied_secret policy q = under q (deny_path <$> deny_resolved policy).
Proof.
  intros Hf. unfold denied_secret, under. apply eq_true_iff_eq. rewrite !existsb_true. split.
  - intros (d & Hd & Hq). exists (deny_path d). split; [by apply list_elem_of_fmap_2|]. destruct (deny_is_dir d); [done|].
    apply bool_decide_eq_true in Hq as ->. apply path_starts_with_refl.
  - intros (x & Hx & Hq). apply list_elem_of_fmap in Hx as (d & -> & Hd). exists d. split; [done|].
    destruct (deny_is_dir d) eqn:E; [done|]. apply bool_decide_eq_true. by apply Hf.
Qed.

Lemma list_adds_nothing l :
  denials_resolved → (∀ d, d ∈ l → d ∈ deny_read policy ++ deny_write policy) →
  negb (under q l) && negb (under q (deny_path <$> deny_resolved policy)) = negb (under q (deny_path <$> deny_resolved policy)).
Proof.
  intros Hd Hl. destruct (under q l) eqn:E; [|done]. unfold under in E. apply existsb_true in E as (d & Hin & Hq).
  by rewrite (Hd d (Hl d Hin) Hq).
Qed.
End Facts.

Definition system_path (q : path) : bool :=
  under q (components <$> ["/System/Volumes/Preboot/Cryptexes/OS/System/Library/dyld/"; "/private/var/db/dyld/"; "/usr/lib/";
                           "/System/Library/Frameworks/"])
  || existsb (λ n, bool_decide (q = components n)) ["/dev/null"; "/dev/zero"; "/dev/random"; "/dev/urandom"].

Lemma shape_d_reads_at policy q :
  (∀ r, r ∈ allow_read policy ++ allow_write policy → path_ok r = true) →
  filter_matches (shape_d_reads policy) (OnPath q) = system_path q || under q (allow_read policy ++ allow_write policy).
Proof.
  intros Hok. unfold shape_d_reads. cbn [filter_matches]. rewrite !existsb_app. unfold system_path, under.
  assert (∀ l, (∀ r, r ∈ l → path_ok r = true) →
    existsb (λ f, filter_matches f (OnPath q)) (Subpath ∘ to_str <$> l) = existsb (path_starts_with q) l) as Hl.
  { intros l Hr. rewrite existsb_fmap. apply existsb_ext. intros r Hin. cbn. by rewrite components_to_str by auto. }
  rewrite !Hl by (intros r Hr; apply Hok, elem_of_app; auto). rewrite existsb_app. cbn [fmap list_fmap existsb filter_matches].
  by rewrite !orb_assoc.
Qed.

(** [policy explain --why] tells what is enforced on macOS.  For a path that is no
    closed socket, with nothing below denied files and the denied lists resolved as
    loading does, it says writable exactly when the profile allows a write, and - but for
    the system paths the strict profile names - readable exactly when the strict profile
    allows a read. *)
Theorem explain_agrees_with_profile policy target project net :
  let q := resolved_target target project in
  (∀ r, r ∈ allow_read policy ++ allow_write policy → path_ok r = true) →
  files_are_leaves policy target project → denials_resolved policy target project → closed_socket q = false →
  writable (explain_why policy target project) = may_write policy net q
  ∧ (system_path q = false → readable (explain_why policy target project) = may_read (shape_d_reads policy) policy net q).
Proof.
  intros q Hok Hf Hd Hs. pose proof (secret_is_under policy target project Hf) as E.
  pose proof (list_adds_nothing policy target project) as L. rewrite explain_writable, explain_readable.
  fold q in E, L |- *. rewrite E. unfold may_write, may_read. rewrite Hs, andb_false_r, !andb_true_r, <-!andb_assoc.
  rewrite !L by (done || (intros d Hin; apply elem_of_app; auto)).
  split; [done|]. intros Hsys. by rewrite shape_d_reads_at, Hsys by done.
Qed.

Definition explain_policy : Policy :=
  mk_policy "demo" default_metadata default_limits [components "/w"] [components "/r"] [] [components "/r/keys"]
    [mk_deny (components "/r/keys") true; mk_deny (components "/w/.env") false] default_env
    false None [] [] ∅ [] [] [] [] DefaultProfile None None None None None false false false false false [] []
    false false false false true [].

Lemma explain_agrees_with_profile_witness :
  let e := explain_why explain_policy (components "src/a") (components "/w") in
  writable e = true
  ∧ writable e = may_write explain_policy NetOff (components "/w/src/a")
  ∧ readable e = may_read (shape_d_reads explain_policy) explain_policy NetOff (components "/w/src/a").
Proof.
  intros e. split; [vm_compute; reflexivity|].
  destruct (explain_agrees_with_profile explain_policy (components "src/a") (components "/w") NetOff) as [H1 H2].
  - intros r Hr. cbn in Hr. repeat (apply elem_of_cons in Hr as [->|Hr]; [reflexivity|]). by apply not_elem_of_nil in Hr.
  - intros d Hd Hf Hq. cbn in Hd. apply elem_of_cons in Hd as [->|Hd]; [discriminate Hf|].
    apply list_elem_of_singleton in Hd as ->. discriminate Hq.
  - intros d Hd Hq. cbn in Hd. apply list_elem_of_singleton in Hd as ->. discriminate Hq.
  - vm_compute. reflexivity.
  - split; [exact H1|]. apply H2. vm_compute. reflexivity.
Defined.

(** ** What the answers miss *)

(** With [..] in the target the answer is about a path that is not meant: a file outside
    the project is said to be writable. *)
Lemma dotdot_is_writable :
  writable (explain_why explain_policy (components "../etc/passwd") (components "/w")) = true
  ∧ lexical_normalize (resolved_target (components "../etc/passwd") (components "/w")) = components "/etc/passwd".
Proof. vm_compute. done. Qed.

(** On macOS a path explained as outside of the sandbox is readable under the profile
    that is applied by default. *)
Lemma blocked_is_readable :
  access (explain_why explain_policy (components "/etc/passwd") (components "/w")) = "BLOCKED"
  ∧ may_read (Subpath "/") explain_policy NetOff (components "/etc/passwd") = true.
Proof. vm_compute. done. Qed.

(** A denial the lint calls a no-op: it lies above a root, and denies what that root
    grants; and on macOS, where reads are broad, it is what keeps the path unreadable. *)
Lemma useless_deny_denies :
  let grant denials := mk_policy "demo" default_metadata default_limits [] [components "/r/docs"] [] []
    denials default_env false None [] [] ∅ [] [] [] [] DefaultProfile None None None None None
    false false false false false [] [] false false false false true [] in
  let with_deny := grant [mk_deny (components "/r") true] in
  Lint.rule <$> rule_useless_deny with_deny = Some "useless_deny"
  ∧ readable (explain_why with_deny (components "/r/docs/a") []) = false
  ∧ readable (explain_why (grant []) (components "/r/docs/a") []) = true
  ∧ may_read (Subpath "/") with_deny NetOff (components "/r/secret") = false
  ∧ may_read (Subpath "/") (grant []) NetOff (components "/r/secret") = true.
Proof. vm_compute. done. Qed.
