(* ===== verification/Cgroup.v ===== *)
(** * Cgroup: resource quotas of a session

    Model of [src/src/sandbox/linux/cgroup.rs]: the search for a writable hierarchy, the
    scope of a session with its quotas, and the handle that kills and removes it.  The
    host answers each operation given those done before; what was done is the state. *)

From S2P Require Import Prelude Float64 Paths PolicyTypes Ip Proctrack Globs Lint.

(** ** The host *)

Inductive CgOp : Type :=
| OpWrite (p : path) (content : string) (ok : bool)
| OpRemove (p : path)
| OpMkdir (p : path) (ok : bool)
| OpRmdir (p : path)
| OpKill (pid : Z).
#[export] Instance CgOp_eq_dec : EqDecision CgOp.
Proof. solve_decision. Defined.
Abbreviation History := (list CgOp).

Class CgroupHost : Type := {
  cg_exists : History → path → bool;
  cg_is_dir : History → path → bool;
  (** [fs::read_to_string], [fs::write], [fs::create_dir]; errors by their text *)
  cg_read : History → path → result string string;
  cg_write : History → path → string → result string unit;
  cg_mkdir : History → path → result string unit;
  (** [env::var_os], [getuid], [process::id] and the clock in nanoseconds *)
  cg_env : string → option string;
  cg_uid : Z;
  cg_pid : Z;
  cg_nanos : Z;
}.

Definition sub (p : path) (name : string) : path := push p (components name).

Section Cgroup.
Context `{CgroupHost}.

Definition do_write (p : path) (content : string) (h : History) : result string unit * History :=
  let r := cg_write h p content in (r, h ++ [OpWrite p content (is_ok r)]).

(** ** Finding a hierarchy *)

Definition is_dir_writable (p : path) (h : History) : bool * History :=
  if negb (cg_is_dir h p) then (false, h)
  else
    let test_file := sub p (".vetto-write-test-" +:+ to_dec cg_pid) in
    match do_write test_file "test" h with
    | (Ok _, h) => (true, h ++ [OpRemove test_file])
    | (Err _, h) => (false, h)
    end.

Definition cgroup2_mount : path := components "/sys/fs/cgroup".

(** The walk from the own group up to the mount point. *)
Fixpoint climb (fuel : nat) (cur : path) (h : History) : option path * History :=
  match fuel with
  | O => (None, h)
  | S fuel =>
      if path_starts_with cur cgroup2_mount then
        match is_dir_writable cur h with
        | (true, h) => (Some cur, h)
        | (false, h) => match parent cur with Some up => climb fuel up h | None => (None, h) end
        end
      else (None, h)
  end.
Fixpoint own_group (ls : list string) (h : History) : option path * History :=
  match ls with
  | [] => (None, h)
  | line :: ls =>
      match strip_prefix "0::" line with
      | Some path_part =>
          let cur := sub cgroup2_mount (trim_start_char "/" (trim path_part)) in
          match climb (S (length cur)) cur h with
          | (Some found, h) => (Some found, h)
          | (None, h) => own_group ls h
          end
      | None => own_group ls h
      end
  end.
Fixpoint first_writable (ps : list path) (h : History) : option path * History :=
  match ps with
  | [] => (None, h)
  | p :: ps => match is_dir_writable p h with (true, h) => (Some p, h) | (false, h) => first_writable ps h end
  end.

Definition find_cgroup_root (h : History) : option path * History :=
  if bool_decide (is_Some (cg_env "VETTO_TEST_NO_CGROUP")) then (None, h)
  else if negb (cg_exists h (sub cgroup2_mount "cgroup.controllers")) then (None, h)
  else
    let own := match cg_read h (components "/proc/self/cgroup") with
               | Ok content => own_group (lines content) h
               | Err _ => (None, h)
               end in
    match own with
    | (Some found, h) => (Some found, h)
    | (None, h) =>
        let uid := to_dec cg_uid in
        first_writable
          ([sub cgroup2_mount ("user.slice/user-" +:+ uid +:+ ".slice/user@" +:+ uid +:+ ".service");
            sub cgroup2_mount ("user.slice/user-" +:+ uid +:+ ".slice");
            cgroup2_mount]
           ++ match cg_env "XDG_RUNTIME_DIR" with Some dir => [sub (components dir) "cgroup"] | None => [] end) h
    end.

(** ** The scope of a session *)

Definition default_cgroup : CgroupConfig := mk_cgroup None None None None.
Definition effective_cgroup (config : option CgroupConfig) (cpu_override : option string) : CgroupConfig :=
  match config, cpu_override with
  | None, None => default_cgroup
  | Some c, None => c
  | None, Some cpu => mk_cgroup None None None (Some cpu)
  | Some c, Some cpu => mk_cgroup (memory_max c) (pids_max c) (swap_max c) (Some cpu)
  end.
Definition has_quotas (c : CgroupConfig) : bool :=
  bool_decide (is_Some (memory_max c)) || bool_decide (is_Some (swap_max c)) || bool_decide (is_Some (pids_max c))
  || bool_decide (is_Some (cgroup_cpu_max c)).
Definition quotas_mandated (config : option CgroupConfig) (cpu_override : option string) : bool :=
  bool_decide (is_Some config) || bool_decide (is_Some cpu_override)
  || bool_decide (is_Some (cg_env "VETTO_REQUIRE_CGROUP")).

Definition FAIL_CLOSED : string := " (fail-closed exit 125)".
Definition invalid_spec (name spec : string) : string := "invalid " +:+ name +:+ " spec '" +:+ spec +:+ "'" +:+ FAIL_CLOSED.

(** What is written for a memory quota. *)
Definition memory_value (spec : string) : option string :=
  match parse_cgroup_memory spec with Ok None => Some "max" | Ok (Some b) => Some (to_dec b) | Err _ => None end.

(** The early checks, in order. *)
Definition check_quota (valid : string → bool) (name : string) (spec : option string) (is_required : bool) : result string unit :=
  match spec with
  | Some s => if negb (valid s) && is_required then Err (invalid_spec name s) else Ok tt
  | None => Ok tt
  end.
Definition check_quotas (c : CgroupConfig) (is_required : bool) : result string unit :=
  _ ← check_quota (λ s, bool_decide (is_Some (memory_value s))) "memory_max" (memory_max c) is_required;
  _ ← check_quota (λ s, bool_decide (is_Some (memory_value s))) "swap_max" (swap_max c) is_required;
  check_quota (λ s, bool_decide (is_Some (parse_cpu_max s))) "cpu_max" (cgroup_cpu_max c) is_required.

(** One quota: its value, or the error and the removal of the directory. *)
Definition write_quota (dir : path) (is_required : bool) (value : string → option string) (name file : string)
    (spec : option string) (h : History) : result string unit * History :=
  let undo h := if is_required then h ++ [OpRmdir dir] else h in
  match spec with
  | None => (Ok tt, h)
  | Some s =>
      match value s with
      | None => (Err (invalid_spec name s), undo h)
      | Some content =>
          match do_write (sub dir file) content h with
          | (Ok _, h) => (Ok tt, h)
          | (Err e, h) =>
              if is_required then (Err ("failed to write " +:+ file +:+ " (" +:+ content +:+ "): " +:+ e +:+ FAIL_CLOSED), undo h)
              else (Ok tt, h)
          end
      end
  end.

Definition then_quota (r : result string unit * History) (next : History → result string unit * History) :
  result string unit * History :=
  match r with (Ok _, h) => next h | (Err e, h) => (Err e, h) end.
Definition write_quotas (dir : path) (is_required : bool) (c : CgroupConfig) (h : History) : result string unit * History :=
  then_quota (write_quota dir is_required memory_value "memory_max" "memory.max" (memory_max c) h) (λ h,
  then_quota (write_quota dir is_required memory_value "swap_max" "memory.swap.max" (swap_max c) h) (λ h,
  then_quota (write_quota dir is_required Some "pids_max" "pids.max" (pids_max c) h) (λ h,
  write_quota dir is_required parse_cpu_max "cpu_max" "cpu.max" (cgroup_cpu_max c) h))).

Definition UNAVAILABLE : string :=
  "cgroup v2 is unavailable or not writable on this system; cannot enforce mandated cgroup resource quotas" +:+ FAIL_CLOSED.

(** The new directory, if one is made. *)
Definition setup_cgroup (config : option CgroupConfig) (cpu_override : option string) (h : History) :
  result string (option path) * History :=
  let c := effective_cgroup config cpu_override in
  let is_required := quotas_mandated config cpu_override || has_quotas c in
  match check_quotas c is_required with
  | Err e => (Err e, h)
  | Ok _ =>
      match find_cgroup_root h with
      | (None, h) => if is_required then (Err UNAVAILABLE, h) else (Ok None, h)
      | (Some root, h) =>
          let subtree_file := sub root "cgroup.subtree_control" in
          let h := if cg_exists h subtree_file then (do_write subtree_file "+memory +pids +cpu" h).2 else h in
          let dir := sub root ("vetto-session-" +:+ to_dec cg_pid +:+ "-" +:+ to_dec cg_nanos) in
          let made := cg_mkdir h dir in
          let h := h ++ [OpMkdir dir (is_ok made)] in
          match made with
          | Err e =>
              if is_required then (Err ("failed to create cgroup directory " +:+ to_str dir +:+ ": " +:+ e +:+ FAIL_CLOSED), h)
              else (Ok None, h)
          | Ok _ =>
              match write_quotas dir is_required c h with
              | (Err e, h) => (Err e, h)
              | (Ok _, h) => (Ok (Some dir), h)
              end
          end
      end
  end.

(** ** The handle *)

Record CgroupHandle : Type := mk_handle { cg_path : path; cleaned : bool }.

Definition add_process (cg : CgroupHandle) (pid : Z) (h : History) : result string unit * History :=
  match do_write (sub (cg_path cg) "cgroup.procs") (to_dec pid) h with
  | (Ok _, h) => (Ok tt, h)
  | (Err e, h) => (Err ("failed to move pid " +:+ to_dec pid +:+ " into cgroup " +:+ to_str (cg_path cg) +:+ ": " +:+ e), h)
  end.

(** [cgroup_processes]: the numbers of [cgroup.procs]. *)
Definition cgroup_processes (cg : CgroupHandle) (h : History) : result string (list Z) :=
  content ← cg_read h (sub (cg_path cg) "cgroup.procs");
  Ok (omap (λ line, parse_u32 (trim line)) (lines content)).
Definition surviving_processes (cg : CgroupHandle) (h : History) : nat :=
  match cgroup_processes cg h with Ok ps => length ps | Err _ => 0%nat end.

Definition kill_all (cg : CgroupHandle) (h : History) : result string unit * History :=
  let kill_file := sub (cg_path cg) "cgroup.kill" in
  if cg_exists h kill_file then do_write kill_file "1" h
  else
    let freeze_file := sub (cg_path cg) "cgroup.freeze" in
    let h := if cg_exists h freeze_file then (do_write freeze_file "1" h).2 else h in
    match cgroup_processes cg h with
    | Err e => (Err e, h)
    | Ok pids => (Ok tt, h ++ (OpKill <$> filter (λ pid, 1 < pid) pids))
    end.

Definition cleanup (cg : CgroupHandle) (h : History) : CgroupHandle * History :=
  let h := if cleaned cg then h else (kill_all cg h).2 in
  (mk_handle (cg_path cg) true, if cg_exists h (cg_path cg) then h ++ [OpRmdir (cg_path cg)] else h).

(** [available_controllers], [child_cgroup_dir]. *)
Definition available_controllers (h : History) : list string :=
  match cg_read h (components "/sys/fs/cgroup/cgroup.controllers") with Ok content => split_whitespace content | Err _ => [] end.
Definition child_cgroup_dir (pid : Z) (h : History) : option path :=
  match cg_read h (components ("/proc/" +:+ to_dec pid +:+ "/cgroup")) with
  | Err _ => None
  | Ok content =>
      first_some (λ line,
        match strip_prefix "0::" line with
        | Some path_part =>
            let dir := sub cgroup2_mount (trim_start_char "/" (trim path_part)) in
            if cg_exists h dir && cg_exists h (sub dir "cgroup.procs") then Some dir else None
        | None => None
        end) (lines content)
  end.
End Cgroup.

(** ** What a set-up leaves behind *)

Section Facts.
Context `{CgroupHost}.

(** The quotas of a configuration: file, value of a specification, specification. *)
Definition quota_specs (c : CgroupConfig) : list (string * (string → option string) * option string) :=
  [("memory.max", memory_value, memory_max c); ("memory.swap.max", memory_value, swap_max c);
   ("pids.max", Some, pids_max c); ("cpu.max", parse_cpu_max, cgroup_cpu_max c)].

Definition quiet (o : CgOp) : Prop := match o with OpMkdir _ _ => False | _ => True end.
Definition grows (h h' : History) : Prop := ∃ l, h' = h ++ l ∧ Forall quiet l.

Lemma grows_refl h : grows h h.
Proof. exists []. by rewrite app_nil_r. Qed.
Lemma grows_trans h1 h2 h3 : grows h1 h2 → grows h2 h3 → grows h1 h3.
Proof. intros (l1 & -> & Q1) (l2 & -> & Q2). exists (l1 ++ l2). rewrite app_assoc. split; [done|by apply Forall_app]. Qed.
Lemma grows_snoc h o : quiet o → grows h (h ++ [o]).
Proof. intros Hq. exists [o]. split; [done|by constructor]. Qed.
Lemma grows_elem h h' o : grows h h' → o ∈ h → o ∈ h'.
Proof. intros (l & -> & _) Ho. apply elem_of_app. by left. Qed.
Hint Resolve grows_refl : core.

Lemma do_write_grows p content h r h' : do_write p content h = (r, h') → grows h h'.
Proof. intros [= _ <-]. by apply grows_snoc. Qed.

Lemma writable_grows p h b h' : is_dir_writable p h = (b, h') → grows h h'.
Proof.
  unfold is_dir_writable. destruct (negb _); [by intros [= _ <-]|]. unfold do_write.
  destruct (cg_write _ _ _) as [[]|e]; intros [= _ <-]; [|by apply grows_snoc].
  eapply grows_trans; by apply grows_snoc.
Qed.

Lemma climb_grows fuel cur h r h' : climb fuel cur h = (r, h') → grows h h'.
Proof.
  revert cur h. induction fuel as [|fuel IH]; intros cur h; cbn [climb]; [by intros [= _ <-]|].
  destruct (path_starts_with _ _); [|by intros [= _ <-]].
  destruct (is_dir_writable cur h) as [[] h1] eqn:E; apply writable_grows in E; [by intros [= _ <-]|].
  destruct (parent cur); [|by intros [= _ <-]]. intros G%IH. by eapply grows_trans.
Qed.

Lemma own_group_grows ls h r h' : own_group ls h = (r, h') → grows h h'.
Proof.
  revert h. induction ls as [|l ls IH]; intros h; cbn [own_group]; [by intros [= _ <-]|].
  destruct (strip_prefix "0::" l) as [p|]; [|apply IH].
  destruct (climb _ _ h) as [[found|] h1] eqn:E; apply climb_grows in E; [by intros [= _ <-]|].
  intros G%IH. by eapply grows_trans.
Qed.

Lemma first_writable_grows ps h r h' : first_writable ps h = (r, h') → grows h h'.
Proof.
  revert h. induction ps as [|p ps IH]; intros h; cbn [first_writable]; [by intros [= _ <-]|].
  destruct (is_dir_writable p h) as [[] h1] eqn:E; apply writable_grows in E; [by intros [= _ <-]|].
  intros G%IH. by eapply grows_trans.
Qed.

Lemma find_root_grows h r h' : find_cgroup_root h = (r, h') → grows h h'.
Proof.
  unfold find_cgroup_root. case_bool_decide; [by intros [= _ <-]|]. destruct (negb _); [by intros [= _ <-]|].
  destruct (cg_read h _) as [content|e].
  - destruct (own_group _ h) as [[found|] h1] eqn:E; apply own_group_grows in E; [by intros [= _ <-]|].
    intros G%first_writable_grows. by eapply grows_trans.
  - apply first_writable_grows.
Qed.

(** A quota is written as it reads, or the directory is removed. *)
Lemma write_quota_cases dir value name file spec h r h' :
  write_quota dir true value name file spec h = (r, h') →
  grows h h'
  ∧ match r with
    | Ok _ => ∀ s, spec = Some s → ∃ content, value s = Some content ∧ OpWrite (sub dir file) content true ∈ h'
    | Err _ => last h' = Some (OpRmdir dir)
    end.
Proof.
  unfold write_quota. destruct spec as [s|]; [|by intros [= <- <-]].
  destruct (value s) as [content|] eqn:Ev.
  2:{ intros [= <- <-]. split; [by apply grows_snoc|by rewrite last_snoc]. }
  unfold do_write. destruct (cg_write h (sub dir file) content) as [[]|e]; intros [= <- <-].
  - split; [by apply grows_snoc|]. intros s' [= <-]. exists content. split; [done|]. apply elem_of_app. right. by left.
  - split; [eapply grows_trans; by apply grows_snoc|by rewrite last_snoc].
Qed.

Lemma write_quotas_cases dir c h r h' :
  write_quotas dir true c h = (r, h') →
  grows h h'
  ∧ match r with
    | Ok _ => ∀ file value s, (file, value, Some s) ∈ quota_specs c →
                ∃ content, value s = Some content ∧ OpWrite (sub dir file) content true ∈ h'
    | Err _ => last h' = Some (OpRmdir dir)
    end.
Proof.
  unfold write_quotas.
  destruct (write_quota dir true memory_value "memory_max" "memory.max" (memory_max c) h) as [[[]|e1] h1] eqn:E1;
    apply write_quota_cases in E1 as [G1 P1]; [cbn [then_quota]|by intros [= <- <-]].
  destruct (write_quota dir true memory_value "swap_max" "memory.swap.max" (swap_max c) h1) as [[[]|e2] h2] eqn:E2;
    apply write_quota_cases in E2 as [G2 P2]; [cbn [then_quota]|intros [= <- <-]; split; [by eapply grows_trans|done]].
  destruct (write_quota dir true Some "pids_max" "pids.max" (pids_max c) h2) as [[[]|e3] h3] eqn:E3;
    apply write_quota_cases in E3 as [G3 P3];
    [cbn [then_quota]|intros [= <- <-]; split; [by repeat (eapply grows_trans; [done|])|done]].
  intros E4. apply write_quota_cases in E4 as [G4 P4].
  assert (grows h h') as G by (by repeat (eapply grows_trans; [done|])). split; [done|]. destruct r as [[]|e]; [|done].
  assert (grows h2 h') as G24 by (by eapply grows_trans). assert (grows h1 h') as G14 by (by eapply grows_trans).
  intros file value s Hin. unfold quota_specs in Hin.
  repeat (apply elem_of_cons in Hin as [[= -> -> Hs]|Hin]); try (by apply not_elem_of_nil in Hin).
  - destruct (P1 s (eq_sym Hs)) as (x & ? & ?). exists x. split; [done|by apply (grows_elem h1)].
  - destruct (P2 s (eq_sym Hs)) as (x & ? & ?). exists x. split; [done|by apply (grows_elem h2)].
  - destruct (P3 s (eq_sym Hs)) as (x & ? & ?). exists x. split; [done|by apply (grows_elem h3)].
  - destruct (P4 s (eq_sym Hs)) as (x & ? & ?). exists x. split; [done|done].
Qed.

Lemma no_quotas c dir h : has_quotas c = false → write_quotas dir false c h = (Ok tt, h).
Proof.
  unfold has_quotas, write_quotas, then_quota. destruct (memory_max c), (swap_max c), (pids_max c), (cgroup_cpu_max c); try done.
Qed.

Lemma no_quota_specs c file value s : has_quotas c = false → (file, value, Some s) ∈ quota_specs c → False.
Proof.
  unfold has_quotas, quota_specs. intros Hq Hin.
  repeat (apply elem_of_cons in Hin as [[= -> -> Hs]|Hin]; [rewrite <-Hs in Hq; cbn in Hq; by rewrite ?orb_true_r in Hq|]).
  by apply not_elem_of_nil in Hin.
Qed.

Lemma check_required c req e : check_quotas c req = Err e → req = true.
Proof.
  unfold check_quotas, check_quota. destruct req; [done|].
  destruct (memory_max c), (swap_max c), (cgroup_cpu_max c); rewrite ?andb_false_r; cbn; rewrite ?andb_false_r; cbn; rewrite ?andb_false_r; done.
Qed.

Lemma quiet_no_mkdir l dir ok : Forall quiet l → OpMkdir dir ok ∉ l.
Proof. intros Hq Hin. rewrite Forall_forall in Hq. exact (Hq _ Hin). Qed.

(** Quotas are enforced or the session does not start.  When a set-up yields a
    directory, it was made in this set-up and every quota of the effective
    configuration is written in it with the value it was read as; when it yields none, no
    quota is set and none was mandated; an error means that quotas were mandated, and if
    a directory had been made, its removal is the last thing done. *)
Theorem setup_fail_closed config cpu_override h r h' :
  setup_cgroup config cpu_override h = (r, h') →
  ∃ l, h' = h ++ l
  ∧ match r with
    | Ok (Some dir) =>
        OpMkdir dir true ∈ l
        ∧ ∀ file value s, (file, value, Some s) ∈ quota_specs (effective_cgroup config cpu_override) →
            ∃ content, value s = Some content ∧ OpWrite (sub dir file) content true ∈ h'
    | Ok None => has_quotas (effective_cgroup config cpu_override) = false ∧ quotas_mandated config cpu_override = false
    | Err _ => (quotas_mandated config cpu_override || has_quotas (effective_cgroup config cpu_override) = true)
               ∧ ∀ dir, OpMkdir dir true ∈ l → last h' = Some (OpRmdir dir)
    end.
Proof.
  unfold setup_cgroup. set (c := effective_cgroup config cpu_override). set (req := quotas_mandated config cpu_override || has_quotas c).
  destruct (check_quotas c req) as [[]|e] eqn:Ec.
  2:{ intros [= <- <-]. exists []. rewrite app_nil_r. split; [done|]. split; [exact (check_required c req e Ec)|].
      intros dir Hd. by apply not_elem_of_nil in Hd. }
  destruct (find_cgroup_root h) as [[root|] h1] eqn:Ef; apply find_root_grows in Ef as (l1 & -> & Q1).
  2:{ destruct req eqn:Er; intros [= <- <-]; exists l1; (split; [done|]).
      - split; [done|]. intros dir Hd. by apply (quiet_no_mkdir _ dir true) in Q1.
      - unfold req in Er. by apply orb_false_iff in Er as [-> ->]. }
  cbv zeta. set (dir := sub root ("vetto-session-" +:+ to_dec cg_pid +:+ "-" +:+ to_dec cg_nanos)). set (h2 := if cg_exists _ _ then _ else _).
  assert (grows (h ++ l1) h2) as (l2 & E2 & Q2).
  { unfold h2. destruct (cg_exists _ _); [by apply grows_snoc|apply grows_refl]. }
  rewrite E2. destruct (cg_mkdir ((h ++ l1) ++ l2) dir) as [[]|e] eqn:Em; cbn [is_ok].
  2:{ destruct req eqn:Er; intros [= <- <-]; exists (l1 ++ l2 ++ [OpMkdir dir false]); (split; [by rewrite !app_assoc|]).
      - split; [done|]. intros d Hd. apply elem_of_app in Hd as [Hd|Hd]; [by apply (quiet_no_mkdir _ d true) in Q1|].
        apply elem_of_app in Hd as [Hd|Hd]; [by apply (quiet_no_mkdir _ d true) in Q2|].
        by apply list_elem_of_singleton in Hd.
      - unfold req in Er. by apply orb_false_iff in Er as [-> ->]. }
  destruct req eqn:Er.
  - destruct (write_quotas dir true c _) as [[[]|e] h3] eqn:Ew; apply write_quotas_cases in Ew as [(l3 & -> & Q3) P];
      intros [= <- <-]; exists (l1 ++ l2 ++ OpMkdir dir true :: l3); (split; [by rewrite <-!app_assoc|]).
    + split; [|done]. rewrite !elem_of_app. right. right. by left.
    + split; [done|]. intros d Hd. rewrite !elem_of_app, elem_of_cons in Hd.
      destruct Hd as [Hd|[Hd|[[= ->]|Hd]]]; [by apply (quiet_no_mkdir _ d true) in Q1|by apply (quiet_no_mkdir _ d true) in Q2|done|].
      by apply (quiet_no_mkdir _ d true) in Q3.
  - unfold req in Er. apply orb_false_iff in Er as [_ Hq]. rewrite no_quotas by done. intros [= <- <-].
    exists (l1 ++ l2 ++ [OpMkdir dir true]). split; [by rewrite <-!app_assoc|]. split; [rewrite !elem_of_app; right; right; by left|].
    intros file value s Hin. by apply no_quota_specs in Hin.
Qed.
End Facts.

(** ** Lemmas: specifications that end in a percent sign *)

Definition pct : ascii := "%"%char.

Lemma white_space_pct : forallb (λ u, negb (last_is pct u)) white_space = true.
Proof. vm_compute. reflexivity. Qed.

Lemma strip_prefix_last u s r : last_is pct u = false → last_is pct s = true → strip_prefix u s = Some r → last_is pct r = true.
Proof.
  intros Hu Hs ->%strip_prefix_Some. destruct (string_dec r EmptyString) as [->|Hr].
  - rewrite string_app_nil_r in Hs. congruence.
  - by rewrite last_is_app in Hs.
Qed.

Lemma trim_pct s : last_is pct s = true → last_is pct (trim s) = true.
Proof.
  intros Hs. unfold trim, trim_start. generalize (String.length s) as n. pose proof white_space_pct as Hw.
  rewrite forallb_forall in Hw. intros n. assert (∀ t, last_is pct t = true →
    last_is pct (strip_loop (λ s, first_some (λ u, strip_prefix u s) white_space) n t) = true) as H.
  { induction n as [|n IH]; intros t Ht; cbn [strip_loop]; [done|]. destruct (first_some _ _) as [t'|] eqn:E; [|done].
    apply first_some_Some in E as (u & Hu & E). apply IH, (strip_prefix_last u t); [|done|done].
    apply list_elem_of_In, Hw in Hu. by apply negb_true_iff in Hu. }
  specialize (H s Hs). unfold trim_end. rewrite strip_loop_none; [done|]. apply first_some_None, Forall_forall.
  intros u Hu. destruct (strip_suffix u _) as [r|] eqn:E; [|done]. apply strip_suffix_Some in E. exfalso.
  rewrite E, last_is_app in H by by apply white_space_nonempty.
  apply list_elem_of_In, Hw in Hu. by rewrite H in Hu.
Qed.

Lemma take_digits_pct acc n s v k rest : last_is pct s = true → take_digits acc n s = (v, k, rest) → last_is pct rest = true.
Proof.
  revert acc n. induction s as [|c s IH]; intros acc n Hs; [done|]. cbn [take_digits].
  destruct (digit_value 10 c) as [d|] eqn:Ed; [|by intros [= _ _ <-]]. apply IH.
  destruct s as [|x s]; [|done]. cbn in Hs. apply Ascii.eqb_eq in Hs as ->. discriminate Ed.
Qed.

Lemma tail_pct c s : c ≠ pct → last_is pct (String c s) = true → last_is pct s = true.
Proof. intros Hc. destruct s as [|x s]; [|done]. cbn. by intros ->%Ascii.eqb_eq. Qed.

Lemma exponent_pct s : last_is pct s = true → parse_exponent s = None.
Proof.
  intros Hs. destruct s as [|c s]; [done|]. cbn [parse_exponent].
  destruct (Ascii.eqb c "e" || Ascii.eqb c "E") eqn:Ec; [|done].
  assert (last_is pct s = true) as Ht. { apply (tail_pct c); [by intros ->|done]. }
  set (nb := match s with String "-" r => _ | String "+" r => _ | _ => _ end).
  assert (last_is pct nb.2 = true) as Hb.
  { unfold nb. destruct s as [|x s]; [done|]. destruct x as [[] [] [] [] [] [] [] []]; try exact Ht; by apply tail_pct in Ht. }
  destruct nb as [neg body]. cbn [snd] in Hb. destruct (take_digits 0 0 body) as [[v n] rest] eqn:E.
  apply take_digits_pct in E; [|done]. by destruct rest.
Qed.

Lemma number_pct neg s : last_is pct s = true → parse_number neg s = None.
Proof.
  intros Hs. unfold parse_number. destruct (take_digits 0 0 s) as [[int n1] rest] eqn:E. apply take_digits_pct in E; [|done].
  set (mn := match rest with String "." r => _ | _ => _ end).
  assert (last_is pct mn.2 = true) as Hm.
  { unfold mn. destruct rest as [|x r]; [done|].
    destruct (take_digits int 0 r) as [[m n2] rest2] eqn:E2.
    destruct x as [[] [] [] [] [] [] [] []]; try exact E. apply tail_pct in E; [|done]. by apply take_digits_pct in E2. }
  destruct mn as [[m n2] rest2]. destruct (_ =? 0); [done|]. by rewrite exponent_pct.
Qed.

Lemma lower_pct s : last_is pct s = true → last_is pct (to_ascii_lowercase s) = true.
Proof.
  unfold to_ascii_lowercase. induction s as [|c s IH]; [done|]. destruct s as [|x s].
  - cbn. by intros ->%Ascii.eqb_eq.
  - exact IH.
Qed.

Lemma f64_pct s : last_is pct s = true → parse_f64 s = None.
Proof.
  intros Hs. unfold parse_f64. set (nb := match s with String "-" r => _ | String "+" r => _ | _ => _ end).
  assert (last_is pct nb.2 = true) as Hb.
  { unfold nb. destruct s as [|x s]; [done|]. destruct x as [[] [] [] [] [] [] [] []]; try exact Hs; by apply tail_pct in Hs. }
  destruct nb as [neg body]. cbn [snd] in Hb. destruct (is_empty body); [done|]. rewrite number_pct by done.
  pose proof (lower_pct body Hb) as Hl. unfold eq_ignore_ascii_case.
  assert (∀ w, last_is pct (to_ascii_lowercase w) = false → String.eqb (to_ascii_lowercase body) (to_ascii_lowercase w) = false) as Hne.
  { intros w Hw. apply String.eqb_neq. intros E. congruence. }
  by rewrite !Hne by reflexivity.
Qed.

(** ** Linted quotas *)

Lemma cpu_percent_parses t p : strip_suffix "%" t = Some p → trim t = t → positive_f64 (trim p) = true → is_Some (parse_cpu_max t).
Proof.
  intros Hp Ht Hv. unfold parse_cpu_max. rewrite Ht. destruct (_ || _); [done|].
  assert (t = p +:+ "%") as Et by (by apply strip_suffix_Some).
  assert (ends_with t "%" = true) as -> by (apply ends_with_true; by exists p).
  assert (last_is pct p = false) as Hl.
  { apply not_true_iff_false. intros Hl%trim_pct%f64_pct. unfold positive_f64 in Hv. by rewrite Hl in Hv. }
  assert (trim_end_char "%" t = p) as ->.
  { unfold trim_end_char. rewrite Et, string_length_app. rewrite Nat.add_comm. cbn [String.length Nat.add strip_loop].
    rewrite (proj2 (strip_suffix_Some _ _ p) eq_refl). apply strip_loop_none. destruct (strip_suffix _ p) as [r|] eqn:E; [|done].
    apply strip_suffix_Some in E. rewrite E, last_is_app in Hl by done. discriminate Hl. }
  unfold positive_f64 in Hv. by destruct (parse_f64 (trim p)).
Qed.

Lemma valid_cpu_parses s :
  is_valid_cpu_spec s = true → (has_space (trim s) = true → contains_char (trim s) " " = true) → is_Some (parse_cpu_max s).
Proof.
  intros Hv Hsp. assert (parse_cpu_max s = parse_cpu_max (trim s)) as ->.
  { unfold parse_cpu_max. by rewrite trim_idem. }
  unfold is_valid_cpu_spec in Hv. destruct (is_empty (trim s) || starts_with (trim s) "-"); [done|].
  destruct (is_max (trim s)) eqn:Em.
  { unfold parse_cpu_max. rewrite trim_idem. unfold is_max in Em. by rewrite Em, orb_true_r. }
  destruct (strip_suffix "%" (trim s)) as [p|] eqn:Ep.
  { apply (cpu_percent_parses _ p); [done|apply trim_idem|]. by destruct (is_empty (trim p) || starts_with (trim p) "-"). }
  unfold parse_cpu_max. rewrite trim_idem. destruct (_ || _); [done|].
  destruct (ends_with (trim s) "%") eqn:Ee.
  { apply ends_with_true in Ee as [r Hr]. apply (strip_suffix_Some "%") in Hr. congruence. }
  destruct (contains_char (trim s) " ") eqn:Ec; [done|].
  destruct (has_space (trim s)); [by specialize (Hsp eq_refl)|]. by destruct (parse_u64 (trim s)).
Qed.

Lemma valid_memory_value s : is_valid_memory_spec s = true → is_Some (memory_value s).
Proof.
  unfold is_valid_memory_spec, memory_value, parse_bytes_value, parse_cgroup_memory. rewrite !trim_idem.
  destruct (is_empty (trim s)); [done|]. destruct (starts_with (trim s) "-") eqn:Es; [done|]. unfold is_max.
  destruct (eq_ignore_ascii_case (trim s) "max"); [done|]. cbn.
  destruct (String.eqb_spec (trim s) "-1") as [E|_]; [by rewrite E in Es|].
  by destruct (parse_bytes_with_standard (trim s) IecBinary).
Qed.

(** The quotas a policy asks for. *)
Definition blank_separated (spec : option string) : Prop :=
  ∀ s, spec = Some s → has_space (trim s) = true → contains_char (trim s) " " = true.

Lemma check_spec_nil valid what expected o s : check_spec valid what expected o = [] → o = Some s → valid s = true.
Proof. intros Hc ->. unfold check_spec in Hc. by destruct (valid s). Qed.

Lemma passed_effective `{LoadHost} policy home project c :
  passed policy home project → c = effective_cgroup (cgroup policy) (cpu_max policy) →
  (∀ s, memory_max c = Some s → is_valid_memory_spec s = true) ∧ (∀ s, swap_max c = Some s → is_valid_memory_spec s = true)
  ∧ (∀ s, cgroup_cpu_max c = Some s → is_valid_cpu_spec s = true).
Proof.
  intros Hp%passed_specs ->. unfold rule_invalid_cgroup_spec in Hp. apply app_eq_nil in Hp as [Hp Hc].
  destruct (cgroup policy) as [cg|].
  - apply app_eq_nil in Hp as [Hm Hp]. apply app_eq_nil in Hp as [Hs Hp]. apply app_eq_nil in Hp as [_ Hcc].
    destruct (cpu_max policy); cbn; (split; [|split]; intros spec Hq).
    all: first [by apply (check_spec_nil _ _ _ _ spec Hm)|by apply (check_spec_nil _ _ _ _ spec Hs)
               |by apply (check_spec_nil _ _ _ _ spec Hc)|by apply (check_spec_nil _ _ _ _ spec Hcc)].
  - destruct (cpu_max policy); cbn; (split; [|split]; intros spec Hq); try discriminate Hq. by apply (check_spec_nil _ _ _ _ spec Hc).
Qed.

(** A policy that passes the lint does not fail at start for what its quotas say: each
    memory, swap and processor quota of the configuration in effect has a value to write,
    so the checks before the set-up succeed - if the parts of a processor quota are
    separated by blanks, for the lint takes any white space. *)
Theorem linted_quotas_accepted `{LoadHost} policy home project strict req :
  let c := effective_cgroup (cgroup policy) (cpu_max policy) in
  lint_success strict (evaluate_with_project policy home project) = true → blank_separated (cgroup_cpu_max c) →
  check_quotas c req = Ok tt
  ∧ ∀ file value s, (file, value, Some s) ∈ quota_specs c → is_Some (value s).
Proof.
  intros c Hl Hb. apply success_no_high in Hl. destruct (passed_effective policy home project c Hl eq_refl) as (Hm & Hs & Hc).
  assert (∀ s, memory_max c = Some s → is_Some (memory_value s)) as Vm by (intros s E; by apply valid_memory_value, Hm).
  assert (∀ s, swap_max c = Some s → is_Some (memory_value s)) as Vs by (intros s E; by apply valid_memory_value, Hs).
  assert (∀ s, cgroup_cpu_max c = Some s → is_Some (parse_cpu_max s)) as Vc.
  { intros s E. apply valid_cpu_parses; [by apply Hc|by apply Hb]. }
  split.
  - unfold check_quotas, check_quota.
    destruct (memory_max c) as [m|]; [rewrite (bool_decide_eq_true_2 _ (Vm m eq_refl))|]; cbn [negb andb];
    (destruct (swap_max c) as [w|]; [rewrite (bool_decide_eq_true_2 _ (Vs w eq_refl))|]; cbn [negb andb];
      (destruct (cgroup_cpu_max c) as [u|]; [rewrite (bool_decide_eq_true_2 _ (Vc u eq_refl))|]; done)).
  - intros file value s Hin. unfold quota_specs in Hin.
    repeat (apply elem_of_cons in Hin as [[= -> -> Hq]|Hin]); try (by apply not_elem_of_nil in Hin); auto.
Qed.

(** ** A host *)

(** Where [/proc/self/cgroup] names [group], only paths under [writable] can be written,
    and the write of [broken] files fails. *)
Definition demo_cgroups (group : string) (writable : path) (broken : list string) : CgroupHost := {|
  cg_exists := λ _ p, path_starts_with p cgroup2_mount;
  cg_is_dir := λ _ _, true;
  cg_read := λ _ p, if bool_decide (p = components "/proc/self/cgroup") then Ok ("0::" +:+ group +:+ ch1 10)
                    else Ok ("1" +:+ ch1 10 +:+ "41" +:+ ch1 10 +:+ "42" +:+ ch1 10);
  cg_write := λ _ p _, if negb (path_starts_with p writable) then Err "EACCES"
                       else if existsb (λ f, bool_decide (last p = Some (Normal f))) broken then Err "EIO" else Ok tt;
  cg_mkdir := λ _ _, Ok tt;
  cg_env := λ _, None; cg_uid := 1000; cg_pid := 7; cg_nanos := 99;
|}.

Definition demo_group : path := components "/sys/fs/cgroup/user/agent".
Definition demo_quotas : CgroupConfig := mk_cgroup (Some "512M") None None None.
Definition demo_dir : path := components "/sys/fs/cgroup/user/agent/vetto-session-7-99".

Lemma setup_fail_closed_witness :
  let H := demo_cgroups "/user/agent" demo_group [] in
  let '(r, h') := setup_cgroup (Some demo_quotas) (Some "50%") [] in
  r = Ok (Some demo_dir)
  ∧ ∃ content, parse_cpu_max "50%" = Some content ∧ OpWrite (sub demo_dir "cpu.max") content true ∈ h'.
Proof.
  intros H. pose proof (setup_fail_closed (Some demo_quotas) (Some "50%") []) as T.
  destruct (setup_cgroup (Some demo_quotas) (Some "50%") []) as [r h'] eqn:E.
  assert (r = Ok (Some demo_dir)) as Hr by (apply (f_equal fst) in E; cbn [fst] in E; rewrite <-E; vm_compute; reflexivity).
  split; [exact Hr|]. destruct (T r h' eq_refl) as (l & _ & T'). rewrite Hr in T'. destruct T' as [_ T'].
  apply (T' "cpu.max" parse_cpu_max "50%"). right. right. right. left.
Defined.

(** A mandated quota that cannot be written: an error, and the directory is removed. *)
Lemma broken_quota_fails :
  let H := demo_cgroups "/user/agent" demo_group ["cpu.max"] in
  let '(r, h') := setup_cgroup (Some demo_quotas) (Some "50%") [] in
  is_err r = true ∧ last h' = Some (OpRmdir demo_dir).
Proof. vm_compute. done. Qed.

Lemma linted_quotas_accepted_witness :
  let H := lint_host None in
  let policy := mk_policy "demo" default_metadata clean_limits [components "/work"] [] [] []
    [mk_deny (components "/work/.env") false] default_env false None [] [] ∅ [] [] [] [] DefaultProfile None
    (Some demo_quotas) (Some " 37.5 %") None None false false false false false [] [] false false false false true [] in
  let c := effective_cgroup (cgroup policy) (cpu_max policy) in
  lint_success true (evaluate_with_project policy (components "/home/u") (Some (components "/work"))) = true
  ∧ check_quotas c true = Ok tt ∧ is_Some (parse_cpu_max " 37.5 %").
Proof.
  intros H policy c.
  assert (lint_success true (evaluate_with_project policy (components "/home/u") (Some (components "/work"))) = true) as Hl
    by (vm_compute; reflexivity).
  split; [exact Hl|].
  destruct (linted_quotas_accepted policy (components "/home/u") (Some (components "/work")) true true Hl) as [Hc Hv].
  - intros s [= <-] _. vm_compute. reflexivity.
  - split; [exact Hc|]. apply (Hv "cpu.max" parse_cpu_max " 37.5 %"). right. right. right. left.
Defined.

(** ** Killing and removing *)

(** A kill that reports success reached every process of the group but the first. *)
Lemma kill_all_reaches `{CgroupHost} cg h h' :
  kill_all cg h = (Ok tt, h') →
  OpWrite (sub (cg_path cg) "cgroup.kill") "1" true ∈ h'
  ∨ ∃ h1 pids, grows h h1 ∧ cgroup_processes cg h1 = Ok pids ∧ ∀ pid, pid ∈ pids → 1 < pid → OpKill pid ∈ h'.
Proof.
  unfold kill_all. destruct (cg_exists h _).
  - unfold do_write. intros [= Hr <-]. left. rewrite Hr. apply elem_of_app. right. by left.
  - set (h1 := if cg_exists _ _ then _ else _). destruct (cgroup_processes cg h1) as [pids|e] eqn:E; [|done].
    intros [= <-]. right. exists h1, pids. split; [|split; [done|]].
    + unfold h1. destruct (cg_exists _ _); [by apply grows_snoc|apply grows_refl].
    + intros pid Hp H1. apply elem_of_app. right. apply list_elem_of_fmap_2, list_elem_of_filter. done.
Qed.

(** ** What the code does not mean *)

(** A kill that fails is not tried again: the second clean-up only tries to remove the
    directory, which fails while its processes live. *)
Lemma failed_kill_is_final :
  let H := demo_cgroups "/user/agent" demo_group ["cgroup.kill"] in
  let '(cg, h) := cleanup (mk_handle demo_dir false) [] in
  let '(cg, h) := cleanup cg h in
  h = [OpWrite (sub demo_dir "cgroup.kill") "1" false; OpRmdir demo_dir; OpRmdir demo_dir].
Proof. vm_compute. reflexivity. Qed.

(** In a container whose group lies outside of its namespace, the group is named by [..]:
    the search leaves the mount point, and a privileged session gets its quotas written
    to plain files of another directory. *)
Lemma search_leaves_the_mount :
  let H := demo_cgroups "/../../../srv" (components "/sys/fs/cgroup/../../../srv") [] in
  let '(r, h) := setup_cgroup (Some demo_quotas) None [] in
  r = Ok (Some (components "/sys/fs/cgroup/../../../srv/vetto-session-7-99"))
  ∧ lexical_normalize (components "/sys/fs/cgroup/../../../srv") = components "/srv".
Proof. vm_compute. done. Qed.

(** White space the lint takes and the set-up does not. *)
Lemma tab_is_refused :
  is_valid_cpu_spec ("50000" +:+ ch1 9 +:+ "100000") = true ∧ parse_cpu_max ("50000" +:+ ch1 9 +:+ "100000") = None.
Proof. vm_compute. done. Qed.
