(* ===== verification/Config.v ===== *)
(** * Config: from the command line to the configuration of a run

    Model of [src/src/config.rs] and of [Cli::to_run_config_with_global]
    ([src/src/cli.rs]): network modes, timeouts and the other option texts, and how
    options, the global file and the environment are put together. *)

From S2P Require Import Prelude Paths PolicyTypes Ip NetAddr Broker Termination Schema Presets EditRules Bytes MacProxy SshProxy Globs.

(** ** Option texts *)

Inductive TuiMode : Type := Statusline | TuiNone.
#[export] Instance TuiMode_eq_dec : EqDecision TuiMode.
Proof. solve_decision. Defined.
Inductive ReportFormat : Type := Markdown | JsonReport | Sarif.

(** One label of a name: its length, its hyphens, its characters. *)
Definition check_label (label : string) : result string unit :=
  if is_empty label || (63 <? String.length label)%nat then Err "domain labels must be 1..63 bytes"
  else if starts_with label "-" || ends_with label "-" then Err "domain labels cannot start or end with '-'"
  else if negb (all_chars (λ c, is_alnum c || Ascii.eqb c "-"%char) label)
  then Err "domain contains a character outside ASCII letters, digits, '-' and '.'"
  else Ok tt.

Definition validate_domain (domain : string) : result string unit :=
  let domain := trim_end_char "." domain in
  if is_empty domain then Err "domain is empty"
  else if (253 <? String.length domain)%nat then Err "domain is longer than 253 bytes"
  else if bool_decide (is_Some (parse_ip domain)) then Err "IP literals are not accepted; use a DNS name"
  else
    check_domain ← match strip_prefix "*." domain with
                   | Some suffix => if is_empty suffix then Err "wildcard domain has no base domain" else Ok suffix
                   | None => Ok domain
                   end;
    try_each check_label (split_char "." check_domain).

(** One domain of an allow list: lower case, without its port. *)
Definition allowlist_item (d : string) : string :=
  let d := to_ascii_lowercase (trim d) in
  match rsplit_once ":" d with
  | Some (h, p) => if negb (is_empty p) && all_chars is_digit p && negb (contains_char h ":") then h else d
  | None => d
  end.

(** One rule of a strict mode. *)
Definition strict_item (raw : string) : result string NetRule :=
  let item := trim raw in
  match rsplit_once ":" item with
  | None => Err ("strict rule '" +:+ item +:+ "' must use domain:port (for example github.com:443)")
  | Some (domain, port_text) =>
      let domain := to_ascii_lowercase (trim domain) in
      match validate_domain domain with
      | Err e => Err ("invalid domain in strict rule '" +:+ item +:+ "': " +:+ e)
      | Ok _ =>
          match parse_u16 (trim port_text) with
          | Some port => if port =? 0 then Err ("invalid port in strict rule '" +:+ item +:+ "': expected 1..65535")
                         else Ok (mk_net_rule domain port)
          | None => Err ("invalid port in strict rule '" +:+ item +:+ "': expected 1..65535")
          end
      end
  end.
Fixpoint strict_rules (items : list string) (rules : list NetRule) : result string (list NetRule) :=
  match items with
  | [] => Ok rules
  | item :: items =>
      rule ← strict_item item;
      strict_rules items (if bool_decide (rule ∈ rules) then rules else rules ++ [rule])
  end.

Definition parse_net_mode (s : string) : result string NetMode :=
  if String.eqb s "off" then Ok NetOff
  else if String.eqb s "open" then Ok (NetAllowlist ["*"])
  else if String.eqb s "ask" then Ok NetAsk
  else match strip_prefix "allowlist:" s with
  | Some rest =>
      let domains := filter (λ d, is_empty d = false) (allowlist_item <$> split_char "," rest) in
      if bool_decide (domains = []) then Err "--net=allowlist requires at least one domain"
      else
        _ ← try_each (λ d, match validate_domain d with
                           | Ok _ => Ok tt
                           | Err e => Err ("invalid domain in allowlist '" +:+ d +:+ "': " +:+ e)
                           end) domains;
        Ok (NetAllowlist domains)
  | None =>
      match strip_prefix "strict:" s with
      | Some rest =>
          rules ← strict_rules (split_char "," rest) [];
          if bool_decide (rules = []) then Err "--net=strict requires at least one domain:port rule"
          else Ok (NetStrict rules)
      | None =>
          Err ("invalid --net mode '" +:+ s +:+ "' (expected off, ask, allowlist:d1,d2,..., or strict:domain:port,... )")
      end
  end.

Definition parse_tui_mode (s : string) : result string TuiMode :=
  if String.eqb s "statusline" then Ok Statusline
  else if String.eqb s "none" then Ok TuiNone
  else Err ("invalid --tui mode '" +:+ s +:+ "' (expected statusline or none)").

(** Seconds; the product is that of a release build. *)
Definition invalid_timeout (s : string) : string := "invalid --timeout '" +:+ s +:+ "' (expected e.g. 90s, 30m, 2h)".
Definition timeout_unit (raw : string) : string * Z :=
  match strip_suffix "s" raw with
  | Some n => (n, 1)
  | None => match strip_suffix "m" raw with
            | Some n => (n, 60)
            | None => match strip_suffix "h" raw with Some n => (n, 3600) | None => (raw, 1) end
            end
  end.
Definition parse_session_timeout (s : string) : result string Z :=
  let '(number, multiplier) := timeout_unit (trim s) in
  match parse_u64 (trim number) with
  | None => Err (invalid_timeout s)
  | Some secs =>
      if secs =? 0 then Err "--timeout must be greater than zero" else Ok (wrap 64 (secs * multiplier))
  end.

Definition validate_limits_spec (spec : string) : result string unit :=
  if is_empty (trim spec) then Err "--limits requires at least one key=value pair"
  else try_each (λ pair,
    let pair := trim pair in
    match split_once "=" pair with
    | Some (key, value) =>
        if is_empty (trim key) || is_empty (trim value)
        then Err ("invalid --limits entry '" +:+ pair +:+ "' (expected key=value, e.g. cpu=300,as=4g)") else Ok tt
    | None => Err ("invalid --limits entry '" +:+ pair +:+ "' (expected key=value, e.g. cpu=300,as=4g)")
    end) (split_char "," spec).

Definition report_format (f : string) : result string ReportFormat :=
  let f := to_ascii_lowercase (trim f) in
  if String.eqb f "md" || String.eqb f "markdown" then Ok Markdown
  else if String.eqb f "json" then Ok JsonReport
  else if String.eqb f "sarif" then Ok Sarif
  else Err ("unknown report format '" +:+ f +:+ "' (expected md, json, sarif)").
Fixpoint report_formats_of (fs : list string) : result string (list ReportFormat) :=
  match fs with
  | [] => Ok []
  | f :: fs => r ← report_format f; rs ← report_formats_of fs; Ok (r :: rs)
  end.

(** ** Commands *)

(** [Path::file_stem] of the last name. *)
Definition file_stem (p : path) : option string :=
  name ← file_name p;
  Some (match rsplit_once "." name with
        | Some (before, _) => if is_empty before then name else before
        | None => name
        end).
Definition command_stem (command : list string) : option string :=
  match command with
  | [] => None
  | first :: _ => to_ascii_lowercase <$> file_stem (components (replace_char (chr 92) "/" first))
  end.

Definition detect_agent_preset (command : list string) : option string := stem ← command_stem command; canonical_agent_name stem.
Definition TOOLCHAINS : list string := ["npm"; "pnpm"; "yarn"; "pip"; "pip3"; "poetry"; "uv"; "cargo"; "go"].
Definition is_toolchain_command (command : list string) : bool :=
  match command_stem command with Some stem => bool_decide (stem ∈ TOOLCHAINS) | None => false end.

Definition INTERACTIVE : list string :=
  ["codex"; "claude"; "opencode"; "aider"; "antigravity"; "cursor"; "cline"; "copilot"; "windsurf"; "goose"; "openhands";
   "devin"; "smolagents"; "omp"; "zcode"; "kimi"; "grok"].
Definition is_interactive_agent_command (agent : option string) (command : list string) : bool :=
  let name := match agent with
              | Some a => Some a
              | None => match command with c :: _ => file_stem (components c) | [] => None end
              end in
  match name with
  | Some n => let lower := to_ascii_lowercase n in bool_decide (default lower (canonical_agent_name lower) ∈ INTERACTIVE)
  | None => false
  end.

(** ** The configuration of a run *)

Record GlobalConfig : Type := mk_global {
  g_profile : option string;
  g_preset : option string;
  g_net : option string;
  g_tui : option string;
  g_observe_seccomp : option bool;
  g_jsonl : option string;
  g_report : option string;
  g_report_dir : option string;
  g_report_retention : option Z;
  g_report_max_age_secs : option Z;
  g_fail_on_block : option Z;
  g_git_ssh : option bool;
  g_timeout : option string;
  g_limits : option string;
  g_verify : option bool;
  g_shadow : option bool;
  g_mask_secrets : option bool;
}.
Definition no_globals : GlobalConfig :=
  mk_global None None None None None None None None None None None None None None None None None.

(** The options of a run, as [clap] hands them over. *)
Record Cli : Type := mk_cli {
  c_profile : string;
  c_preset : option string;
  c_policy : option string;
  c_net : option string;
  c_tui : option string;
  c_backend : option string;
  c_lpac : bool;
  c_observe_seccomp : bool;
  c_read_only_caches : bool;
  c_tmpfs_tmp : bool;
  c_shadow : bool;
  c_jsonl : option string;
  c_report : option string;
  c_report_dir : option string;
  c_no_report_auto_cleanup : bool;
  c_report_retention : option Z;
  c_report_max_age_secs : option Z;
  c_fail_on_block : option Z;
  c_git_ssh : bool;
  c_timeout : option string;
  c_adaptive_timeout : bool;
  c_limits : option string;
  c_verify : bool;
  c_dry_run : bool;
  c_ci : bool;
  c_agents : list string;
  c_deny_glob : list string;
  c_git_guard : bool;
  c_auto_branch : bool;
  c_snapshot : bool;
  c_ephemeral : bool;
  c_auto_deny_secrets : bool;
  c_mask_secrets : bool;
  c_no_mask_secrets : bool;
  c_net_quota : list string;
  c_block_doh : bool;
  c_no_block_doh : bool;
  c_benchmark : bool;
  c_agent : list string;
}.

Record RunConfig : Type := mk_run {
  r_profile : string;
  r_preset : option SecurityPreset;
  r_policy_path : option path;
  r_net : NetMode;
  r_explicit_net : bool;
  r_tui : TuiMode;
  r_backend : option string;
  r_lpac : bool;
  r_observe_seccomp : bool;
  r_jsonl_path : option path;
  r_report_formats : list ReportFormat;
  r_report_dir : option path;
  r_report_auto_cleanup : bool;
  r_report_retention : option Z;
  r_report_max_age_secs : option Z;
  r_fail_on_block : option Z;
  r_git_ssh : bool;
  r_session_timeout : option Z;
  r_auto_timeout_requested : bool;
  r_limits_spec : option string;
  r_verify_preflight : bool;
  r_shadow : bool;
  r_dry_run : bool;
  r_ci : bool;
  r_agent_preset : option string;
  r_deny_glob : list string;
  r_git_guard : bool;
  r_auto_branch : bool;
  r_snapshot : bool;
  r_ephemeral : bool;
  r_ephemeral_auto_accept : bool;
  r_ephemeral_force_discard : bool;
  r_auto_deny_secrets : bool;
  r_read_only_caches : bool;
  r_tmpfs_tmp : bool;
  r_mask_secrets : bool;
  r_net_quota : gmap string Z;
  r_http_proxy : option string;
  r_https_proxy : option string;
  r_no_proxy : option string;
  r_block_doh : bool;
  r_benchmark : bool;
  r_agent : list string;
}.

Section Run.
Context `{LoadHost}.
(** Whether stdin or stdout is a terminal; the TOML parser; the timeouts suggested by the
    history of past runs. *)
Variable is_tty : bool.
Variable toml_config : string → option GlobalConfig.
Variable auto_timeout recommended_timeout : option Z.

Definition load_global_config_from_home (home : path) : option GlobalConfig :=
  let dot_vetto := push home (components ".vetto/config.toml") in
  let xdg_cfg := match host_env "XDG_CONFIG_HOME" with
                 | Some xdg => push (components xdg) (components "vetto/config.toml")
                 | None => push home (components ".config/vetto/config.toml")
                 end in
  let chosen := if host_is_file dot_vetto then Some dot_vetto else if host_is_file xdg_cfg then Some xdg_cfg else None in
  p ← chosen;
  match host_read_to_string p with Ok text => toml_config text | Err _ => None end.

Definition env_set (v : string) : bool := bool_decide (is_Some (host_env v)).
Definition is_ci_environment : bool :=
  existsb env_set ["CI"; "GITHUB_ACTIONS"; "GITLAB_CI"; "CONTINUOUS_INTEGRATION"; "BUILDKITE"; "TF_BUILD"; "CIRRUS_CI";
                   "TRAVIS"; "APPVEYOR"].
Definition env_is_1 (v : string) : bool := bool_decide (host_env v = Some "1").
Definition should_default_to_no_tui (agent : option string) (command : list string) : bool :=
  (env_is_1 "VETTO_SHIM_ACTIVE" || env_is_1 "VETTO_WRAPPED") || is_ci_environment || negb is_tty
  || is_interactive_agent_command agent command.

Definition or_global {A} (o g : option A) : option A := match o with Some _ => o | None => g end.
Definition lift {A} (r : result string A) : result AnyError A := match r with Ok a => Ok a | Err e => Err (Untyped e) end.

(** The preset, or the agent its name stands for. *)
Definition choose_preset (preset_str : option string) : result AnyError (option SecurityPreset * option string) :=
  match preset_str with
  | None => Ok (None, None)
  | Some p =>
      match preset_parse p with
      | Ok parsed => Ok (Some parsed, None)
      | Err e => match canonical_agent_name p with Some canon => Ok (None, Some canon) | None => Err e end
      end
  end.

Definition choose_agent (agents : list string) (preset_agent : option string) (command : list string) :
  result AnyError (option string) :=
  match agents with
  | [] => Ok (or_global preset_agent (detect_agent_preset command))
  | [agent] =>
      if negb (contains_char agent "=") && negb (is_empty (trim agent))
      then Ok (Some (default agent (canonical_agent_name agent)))
      else Err (Untyped "--agent expects a preset name (e.g. claude, codex, aider)")
  | _ => Err (Untyped "accepts at most one --agent preset")
  end.

Definition choose_net (raw : option string) (agent : option string) (command : list string) : result AnyError NetMode :=
  match raw with
  | Some raw => lift (parse_net_mode raw)
  | None =>
      match agent with
      | Some agent =>
          let domains := agent_network_allowlist host_env agent in
          Ok (if bool_decide (domains = []) then NetOff else NetAllowlist domains)
      | None =>
          Ok (if is_toolchain_command command then NetAllowlist CANONICAL_PACKAGE_REGISTRY_DOMAINS else NetOff)
      end
  end.

Definition choose_tui (cli : Cli) (global : GlobalConfig) : result AnyError TuiMode :=
  let explicit_tui := bool_decide (is_Some (c_tui cli)) || bool_decide (is_Some (g_tui global)) in
  tui ← lift (parse_tui_mode (default "statusline" (or_global (c_tui cli) (g_tui global))));
  let tui := if c_ci cli && bool_decide (tui = Statusline) then TuiNone else tui in
  Ok (if negb explicit_tui && bool_decide (tui = Statusline) && should_default_to_no_tui None (c_agent cli)
      then TuiNone else tui).

(** The timeout, and whether the automatic one was asked for. *)
Definition choose_timeout (timeout_str : option string) (adaptive : bool) : result AnyError (option Z * bool) :=
  match timeout_str with
  | Some raw =>
      if String.eqb raw "auto" then Ok (auto_timeout, true)
      else t ← lift (parse_session_timeout raw); Ok (Some t, false)
  | None => Ok (if adaptive then recommended_timeout else None, false)
  end.

Definition choose_limits (cli_l glob_l : option string) : option string :=
  match cli_l, glob_l with
  | Some c, Some g => Some (g +:+ "," +:+ c)
  | Some c, None => Some c
  | None, g => g
  end.

Definition quota_item (item : string) : result AnyError (string * Z) :=
  match split_once "=" item with
  | None => Err (Untyped ("invalid --net-quota format '" +:+ item +:+ "': expected DOMAIN=SIZE (e.g. api.openai.com=100mb)"))
  | Some (domain, size_str) =>
      let domain := to_ascii_lowercase (trim_end_char "." (trim domain)) in
      if is_empty domain then Err (Untyped ("invalid --net-quota '" +:+ item +:+ "': domain cannot be empty"))
      else bytes ← parse_quota_bytes (trim size_str); Ok (domain, bytes)
  end.
Fixpoint quota_items (items : list string) (m : gmap string Z) : result AnyError (gmap string Z) :=
  match items with
  | [] => Ok m
  | item :: items => q ← quota_item item; quota_items items (<[q.1 := q.2]> m)
  end.

Definition first_var (vs : list string) : option string := first_some host_env vs.

Definition to_run_config_with_global (cli : Cli) (global : GlobalConfig) : result AnyError RunConfig :=
  '(preset, preset_agent) ← choose_preset (or_global (c_preset cli) (g_preset global));
  agent_preset ← choose_agent (c_agents cli) preset_agent (c_agent cli);
  net ← choose_net (or_global (c_net cli) (g_net global)) agent_preset (c_agent cli);
  let git_ssh := c_git_ssh cli || default false (g_git_ssh global) in
  _ ← if git_ssh && negb (uses_relay net)
      then Err (Untyped "--git-ssh requires --net=allowlist:... or --net=strict:...") else Ok tt;
  let fail_on_block := or_global (c_fail_on_block cli) (g_fail_on_block global) in
  _ ← if bool_decide (fail_on_block = Some 0)
      then Err (TypedVetto (VCli "--fail-on-block threshold must be greater than zero")) else Ok tt;
  tui ← choose_tui cli global;
  let limits_spec := choose_limits (c_limits cli) (g_limits global) in
  _ ← match limits_spec with Some spec => lift (validate_limits_spec spec) | None => Ok tt end;
  report_formats ← match or_global (c_report cli) (g_report global) with
                   | Some fmts => lift (report_formats_of (split_char "," fmts))
                   | None => Ok []
                   end;
  '(session_timeout, auto_timeout_requested) ←
    choose_timeout (or_global (c_timeout cli) (g_timeout global)) (c_adaptive_timeout cli);
  net_quota ← quota_items (c_net_quota cli) ∅;
  let mask_secrets := if c_no_mask_secrets cli then false else if c_mask_secrets cli then true
                      else default true (g_mask_secrets global) in
  let block_doh := if c_no_block_doh cli then false else if c_block_doh cli then true
                   else match net with NetAllowlist _ | NetStrict _ => true | _ => false end in
  let benchmark := c_benchmark cli in
  Ok {|
    r_profile := if negb (String.eqb (c_profile cli) "default") then c_profile cli else default "default" (g_profile global);
    r_preset := preset;
    r_policy_path := components <$> c_policy cli;
    r_net := net;
    r_explicit_net := bool_decide (is_Some (c_net cli));
    r_tui := if benchmark then TuiNone else tui;
    r_backend := c_backend cli;
    r_lpac := c_lpac cli;
    r_observe_seccomp := c_observe_seccomp cli || default false (g_observe_seccomp global);
    r_jsonl_path := components <$> or_global (c_jsonl cli) (g_jsonl global);
    r_report_formats := if benchmark then [] else report_formats;
    r_report_dir := components <$> or_global (c_report_dir cli) (g_report_dir global);
    r_report_auto_cleanup := negb (c_no_report_auto_cleanup cli);
    r_report_retention := or_global (or_global (c_report_retention cli) (g_report_retention global)) (Some 50);
    r_report_max_age_secs := or_global (c_report_max_age_secs cli) (g_report_max_age_secs global);
    r_fail_on_block := fail_on_block;
    r_git_ssh := git_ssh;
    r_session_timeout := session_timeout;
    r_auto_timeout_requested := auto_timeout_requested;
    r_limits_spec := limits_spec;
    r_verify_preflight := c_verify cli || default false (g_verify global);
    r_shadow := c_shadow cli || default false (g_shadow global);
    r_dry_run := c_dry_run cli;
    r_ci := if benchmark then true else c_ci cli;
    r_agent_preset := agent_preset;
    r_deny_glob := c_deny_glob cli;
    r_git_guard := c_git_guard cli;
    r_auto_branch := c_auto_branch cli;
    r_snapshot := if benchmark then false else c_snapshot cli || c_ephemeral cli;
    r_ephemeral := if benchmark then true else c_ephemeral cli;
    r_ephemeral_auto_accept := false;
    r_ephemeral_force_discard := false;
    r_auto_deny_secrets := if benchmark then true else c_auto_deny_secrets cli;
    r_read_only_caches := c_read_only_caches cli;
    r_tmpfs_tmp := if benchmark then true else c_tmpfs_tmp cli;
    r_mask_secrets := if benchmark then true else mask_secrets;
    r_net_quota := net_quota;
    r_http_proxy := first_var ["HTTP_PROXY"; "http_proxy"; "ALL_PROXY"; "all_proxy"];
    r_https_proxy := first_var ["HTTPS_PROXY"; "https_proxy"; "ALL_PROXY"; "all_proxy"];
    r_no_proxy := first_var ["NO_PROXY"; "no_proxy"];
    r_block_doh := block_doh;
    r_benchmark := benchmark;
    r_agent := c_agent cli;
  |}.
End Run.

(** ** Lemmas: names *)

Definition name_char (c : ascii) : bool := is_alnum c || Ascii.eqb c "-"%char || Ascii.eqb c "."%char.
Definition lower_text (s : string) : Prop := to_ascii_lowercase s = s.

Lemma check_label_ok l : check_label l = Ok tt ↔ label_ok l = true.
Proof.
  unfold check_label, label_ok. destruct (is_empty l); [done|]. cbn [orb negb andb].
  destruct (Nat.ltb_spec 63 (String.length l)); destruct (Nat.leb_spec (String.length l) 63); try lia; cbn [orb negb andb]; [done|].
  destruct (starts_with l "-"), (ends_with l "-"); cbn [orb negb andb]; try done. by destruct (all_chars _ l).
Qed.

Lemma try_each_check ls : try_each check_label ls = Ok tt ↔ forallb label_ok ls = true.
Proof.
  induction ls as [|l ls IH]; [done|]. cbn. rewrite andb_true_iff, <-IH, <-check_label_ok.
  destruct (check_label l) as [[]|e]; cbn; intuition discriminate.
Qed.

Lemma split_chars P c s : (∀ w, w ∈ split_char c s → all_chars P w = true) → all_chars (λ x, P x || Ascii.eqb x c) s = true.
Proof.
  unfold split_char. induction s as [|x s IH]; [done|]. cbn [split_by all_chars]. intros Hw.
  destruct (split_by_cons (Ascii.eqb c) s) as (w & ws & E). rewrite E in Hw, IH.
  destruct (Ascii.eqb_spec c x) as [->|Hx].
  - rewrite Ascii.eqb_refl, orb_true_r. apply IH. intros v Hv. apply Hw. by right.
  - assert (all_chars P (String x w) = true) as Hxw by (apply Hw; left). cbn in Hxw. apply andb_true_iff in Hxw as [-> Hxw]. apply IH.
    intros v [->|Hv]%elem_of_cons; [done|]. apply Hw. by right.
Qed.

Lemma labels_chars s : forallb label_ok (split_char "." s) = true → all_chars name_char s = true.
Proof.
  intros Hl. rewrite forallb_forall in Hl. apply (split_chars (λ c, is_alnum c || Ascii.eqb c "-"%char)). intros w Hw.
  apply list_elem_of_In, Hl in Hw. unfold label_ok in Hw. by to_prop.
Qed.

Lemma name_graph c : name_char c = true → is_graph c = true.
Proof. by destruct c as [[] [] [] [] [] [] [] []]. Qed.
Lemma names_graph s : all_chars name_char s = true → all_chars is_graph s = true.
Proof. apply all_chars_mono, name_graph. Qed.
Lemma name_no_char s c : all_chars name_char s = true → name_char c = false → contains_char s c = false.
Proof.
  intros Hs Hc. induction s as [|d s IH]; [done|]. cbn in *. apply andb_true_iff in Hs as [Hd Hs].
  destruct (Ascii.eqb_spec d c) as [->|]; [congruence|]. by apply IH.
Qed.

Lemma trim_end_dot_stuck s : strip_suffix "." (trim_end_char "." s) = None.
Proof.
  unfold trim_end_char. apply (strip_loop_stuck (strip_suffix ".") (String.length s) s); [|done].
  intros a b. by apply strip_suffix_shorter.
Qed.

Lemma no_dot_end s : strip_suffix "." s = None → trim_end_char "." s = s.
Proof. intros H. by apply strip_loop_none. Qed.

Lemma rsplit_none c s : contains_char s c = false → rsplit_once c s = None.
Proof.
  induction s as [|x s IH]; [done|]. cbn. intros [Hx Hs]%orb_false_iff. rewrite IH by done. by rewrite Hx.
Qed.

(** What has no port, no brackets and no blanks is left as it is but for dots at its end. *)
Lemma strip_port_visible s :
  all_chars is_graph s = true → contains_char s ":" = false → contains_char s "[" = false →
  strip_domain_port s = trim_end_char "." s.
Proof.
  intros Hg Hc Hb. unfold strip_domain_port. rewrite trim_graph by done.
  assert (all_chars (λ c, negb (Ascii.eqb c ":") && negb (Ascii.eqb c "[")) s = true) as Hs.
  { clear Hg. induction s as [|x s IH]; [done|]. cbn in *. apply orb_false_iff in Hc as [-> Hc], Hb as [-> Hb]. by rewrite IH. }
  apply (trim_end_char_chars _ ".") in Hs. set (t := trim_end_char "." s) in *.
  destruct (strip_prefix "[" t) as [r|] eqn:E; [apply strip_prefix_Some in E; rewrite E in Hs; discriminate Hs|].
  rewrite rsplit_none; [done|]. clear -Hs. induction t as [|x t IH]; [done|]. cbn in *. to_prop. rewrite IH by done. by rewrite orb_false_r.
Qed.

(** A valid domain below its final dots: a name, or [*.] and a name. *)
Definition plain_name (n : string) : Prop :=
  forallb label_ok (split_char "." n) = true ∧ strip_suffix "." n = None ∧ (String.length n ≤ 253)%nat.

Lemma plain_name_nonempty n : plain_name n → n ≠ EmptyString.
Proof. by intros (Hl & _ & _) ->. Qed.

Lemma valid_domain_shape d :
  validate_domain d = Ok tt →
  let t := trim_end_char "." d in
  strip_suffix "." t = None ∧ parse_ip t = None
  ∧ match strip_prefix "*." t with Some suffix => plain_name suffix | None => plain_name t end.
Proof.
  unfold validate_domain. pose proof (trim_end_dot_stuck d) as Hstuck. cbv zeta. set (t := trim_end_char "." d) in *.
  destruct (is_empty t); [done|]. destruct (Nat.ltb_spec 253 (String.length t)) as [|Hlen]; [done|].
  case_bool_decide as Hip; [done|]. assert (parse_ip t = None) as Ht by (destruct (parse_ip t); [exfalso; by apply Hip|done]).
  destruct (strip_prefix "*." t) as [suffix|] eqn:E; cbn.
  - apply strip_prefix_Some in E. destruct (is_empty suffix); [done|]. intros Hl%try_each_check. split_and!; [done|done|].
    split_and!; [done| |].
    + destruct (strip_suffix "." suffix) as [r|] eqn:Es; [|done]. apply strip_suffix_Some in Es.
      assert (t = ("*." +:+ r) +:+ ".") as Et by (rewrite E, Es; by rewrite string_app_assoc).
      apply (strip_suffix_Some ".") in Et. congruence.
    + rewrite E, string_length_app in Hlen. cbn in Hlen. lia.
  - intros Hl%try_each_check. done.
Qed.

Lemma plain_name_chars n : plain_name n → all_chars name_char n = true.
Proof. intros (Hl & _ & _). by apply labels_chars. Qed.

Lemma visible_domain t :
  match strip_prefix "*." t with Some suffix => plain_name suffix | None => plain_name t end →
  all_chars (λ c, name_char c || Ascii.eqb c "*"%char) t = true.
Proof.
  destruct (strip_prefix "*." t) as [suffix|] eqn:E; intros Hn%plain_name_chars.
  - apply strip_prefix_Some in E as ->. cbn. eapply all_chars_mono; [|exact Hn]. by intros c ->.
  - eapply all_chars_mono; [|exact Hn]. by intros c ->.
Qed.

Lemma dots_only n s : ∃ k, s = strip_loop (strip_suffix ".") n s +:+ k ∧ all_chars (Ascii.eqb "."%char) k = true.
Proof.
  revert s. induction n as [|n IH]; intros s; cbn [strip_loop]; [exists EmptyString; by rewrite string_app_nil_r|].
  destruct (strip_suffix "." s) as [r|] eqn:E; [|exists EmptyString; by rewrite string_app_nil_r].
  apply strip_suffix_Some in E as ->. destruct (IH r) as (k & Hk & Hd). exists (k +:+ ".").
  rewrite <-string_app_assoc, <-Hk. split; [done|]. by rewrite all_chars_app, Hd.
Qed.

(** A valid domain has no port and no brackets: both brokers read it below its dots. *)
Lemma valid_domain_visible d :
  validate_domain d = Ok tt → all_chars (λ c, name_char c || Ascii.eqb c "*"%char) d = true.
Proof.
  intros Hv. destruct (valid_domain_shape d Hv) as (_ & _ & Hs). apply visible_domain in Hs.
  destruct (dots_only (String.length d) d) as (k & Hk & Hd). rewrite Hk, all_chars_app. apply andb_true_iff.
  split; [exact Hs|]. eapply all_chars_mono; [|exact Hd]. by intros c <-%Ascii.eqb_eq.
Qed.

Lemma visible_graph d : all_chars (λ c, name_char c || Ascii.eqb c "*"%char) d = true → all_chars is_graph d = true.
Proof. apply all_chars_mono. intros c [Hc| ->%Ascii.eqb_eq]%orb_true_iff; [by apply name_graph|done]. Qed.

Lemma visible_no_char d c :
  all_chars (λ c, name_char c || Ascii.eqb c "*"%char) d = true → name_char c || Ascii.eqb c "*"%char = false → contains_char d c = false.
Proof.
  intros Hs Hc. induction d as [|x d IH]; [done|]. cbn in *. apply andb_true_iff in Hs as [Hd Hs].
  destruct (Ascii.eqb_spec x c) as [->|]; [congruence|]. by apply IH.
Qed.

Lemma valid_domain_port d : validate_domain d = Ok tt → strip_domain_port d = trim_end_char "." d.
Proof.
  intros Hv%valid_domain_visible. apply strip_port_visible; [by apply visible_graph|by apply visible_no_char|by apply visible_no_char].
Qed.

Lemma lower_trimmed d : lower_text d → lower_text (trim_end_char "." d).
Proof.
  unfold lower_text. intros Hl. apply (smap_id _ _ (λ c, negb (is_upper c))).
  - intros c Hc. unfold lower_ascii. by apply negb_true_iff in Hc as ->.
  - apply trim_end_char_chars. rewrite <-Hl. apply lower_not_upper.
Qed.

(** ** Lemmas: names on the macOS broker *)

Lemma graph_no_space s : all_chars is_graph s = true → has_white_space s = false.
Proof.
  intros Hs. unfold has_white_space. apply existsb_false, Forall_forall. intros w Hw. apply not_true_iff_false.
  intros (a & b & ->)%contains_spec. rewrite !all_chars_app in Hs.
  apply andb_true_iff in Hs as [_ [Hs _]%andb_true_iff]. by rewrite (white_space_not_graph w Hw) in Hs.
Qed.

Lemma plain_is_ascii n : all_chars name_char n = true → is_ascii n = true.
Proof. apply all_chars_mono. by intros [[] [] [] [] [] [] [] []]. Qed.

Lemma normalize_plain n : plain_name n → lower_text n → parse_ip n = None → normalize_host n = Some n.
Proof.
  intros Hn Hlow Hip. pose proof (plain_name_chars n Hn) as Hc. destruct Hn as (Hl & Hdot & Hlen).
  assert (strip_domain_port n = n) as Hs.
  { rewrite strip_port_visible; [by apply no_dot_end|by apply names_graph|by apply name_no_char|by apply name_no_char]. }
  unfold normalize_host. rewrite Hs, (no_dot_end n Hdot), Hlow.
  assert (is_empty n = false) as -> by (destruct n; [discriminate Hl|done]).
  rewrite !(name_no_char n) by done. rewrite graph_no_space by by apply names_graph. cbn [orb].
  destruct (Nat.ltb_spec 253 (String.length n)); [lia|]. rewrite Hip, (plain_is_ascii n Hc), Hl. done.
Qed.

Lemma dot_last s : last_is "." (to_ascii_lowercase s) = true → last_is "." s = true.
Proof.
  unfold to_ascii_lowercase. induction s as [|c s IH]; [done|]. destruct s as [|x s]; [|exact IH].
  cbn. intros Hc%Ascii.eqb_eq. apply Ascii.eqb_eq. revert Hc. by destruct c as [[] [] [] [] [] [] [] []].
Qed.

(** A host name as the macOS broker normalises it. *)
Lemma normal_host raw host : normalize_host raw = Some host → plain_name host ∧ lower_text host ∧ parse_ip host = None.
Proof.
  unfold normalize_host. set (h := strip_domain_port raw). destruct (_ || _ || _); [done|].
  set (t := to_ascii_lowercase (trim_end_char "." h)). destruct (_ || _ || _ || _); [done|].
  destruct (Nat.ltb_spec 253 (String.length t)); [done|]. cbn [orb]. case_bool_decide as Hip; [done|]. cbn [orb].
  destruct (negb (is_ascii t)); [done|]. destruct (forallb label_ok (split_char "." t)) eqn:El; [|done].
  intros [= <-]. split; [|split; [apply lowercase_idem|by destruct (parse_ip t); [exfalso; apply Hip|]]].
  split_and!; [done| |done]. destruct (strip_suffix "." t) as [r|] eqn:E; [|done]. exfalso.
  pose proof (trim_end_dot_stuck h) as Hs. apply strip_suffix_Some in E.
  assert (last_is "." t = true) as Hd%dot_last by by rewrite E, last_is_app.
  apply last_is_split in Hd as [q Hq]. apply (strip_suffix_Some ".") in Hq. congruence.
Qed.

(** Both brokers read a normalised host as it is. *)
Lemma normal_read host : plain_name host → lower_text host → clean_host host = host ∧ to_ascii_lowercase (strip_domain_port host) = host.
Proof.
  intros Hn Hl. pose proof (plain_name_chars host Hn) as Hc. destruct Hn as (_ & Hd & _). split.
  - unfold clean_host. rewrite trim_graph by by apply names_graph. by rewrite no_dot_end.
  - rewrite strip_port_visible; [by rewrite no_dot_end|by apply names_graph|by apply name_no_char|by apply name_no_char].
Qed.

(** ** The brokers agree *)

(** What is under the final dots of a configured domain. *)
Definition base_of (d : string) : string :=
  let t := trim_end_char "." d in match strip_prefix "*." t with Some suffix => suffix | None => t end.
Definition admits (host d : string) : bool :=
  let t := trim_end_char "." d in
  match strip_prefix "*." t with
  | Some suffix => is_dot_suffix host suffix
  | None => String.eqb host t || is_dot_suffix host t
  end.

Lemma lower_suffix a b : lower_text (a +:+ b) → lower_text b.
Proof.
  unfold lower_text, to_ascii_lowercase. rewrite smap_app. intros H. apply string_app_inj_length in H as [_ H]; [done|].
  clear. induction a; cbn; congruence.
Qed.

Lemma not_star d : validate_domain d = Ok tt → String.eqb (trim_end_char "." d) "*" = false.
Proof.
  intros Hv. apply String.eqb_neq. intros E. destruct (valid_domain_shape d Hv) as (_ & _ & Hs). rewrite E in Hs.
  cbn in Hs. destruct Hs as [Hl _]. discriminate Hl.
Qed.

Lemma linux_admits host d :
  validate_domain d = Ok tt → lower_text d → domain_allowed host [d] = admits (to_ascii_lowercase (strip_domain_port host)) d.
Proof.
  intros Hv Hl. pose proof (lower_trimmed d Hl) as Ht. unfold lower_text in Ht. unfold domain_allowed, admits.
  cbn [existsb]. cbv zeta. rewrite valid_domain_port, Ht, not_star by done.
  destruct (strip_prefix "*." (trim_end_char "." d)); by rewrite orb_false_r.
Qed.

Lemma macos_admits host d :
  validate_domain d = Ok tt → lower_text d → parse_ip (base_of d) = None →
  host_matches host d = admits (to_ascii_lowercase (strip_domain_port host)) d.
Proof.
  intros Hv Hl Hip. unfold host_matches, admits. rewrite valid_domain_port by done.
  destruct (valid_domain_shape d Hv) as (_ & _ & Hs). pose proof (lower_trimmed d Hl) as Ht. unfold base_of in Hip.
  destruct (strip_prefix "*." (trim_end_char "." d)) as [suffix|] eqn:E.
  - rewrite (normalize_plain suffix); [done|done| |done]. apply strip_prefix_Some in E. rewrite E in Ht. by apply (lower_suffix "*.").
  - by rewrite (normalize_plain (trim_end_char "." d)).
Qed.

(** ** Lemmas: what a mode is parsed to *)

Definition domain_ok (d : string) : Prop := validate_domain d = Ok tt ∧ lower_text d.
Definition rule_ok (r : NetRule) : Prop := domain_ok (rule_domain r) ∧ 1 ≤ rule_port r ≤ u16_max.

Lemma no_upper_lower s : all_chars (λ c, negb (is_upper c)) s = true → lower_text s.
Proof.
  intros Hs. apply (smap_id _ _ (λ c, negb (is_upper c))); [|done]. intros c Hc. unfold lower_ascii. by apply negb_true_iff in Hc as ->.
Qed.

Lemma allowlist_item_lower d : lower_text (allowlist_item d).
Proof.
  apply no_upper_lower. unfold allowlist_item. pose proof (lower_not_upper (trim d)) as Hl.
  destruct (rsplit_once ":" _) as [[h p]|] eqn:E; [|done]. apply rsplit_once_chars with (Q := λ c, negb (is_upper c)) in E; [|done].
  by destruct (_ && _).
Qed.

Lemma try_each_all {A E} (f : A → result E unit) l : try_each f l = Ok tt ↔ ∀ x, x ∈ l → f x = Ok tt.
Proof.
  induction l as [|x l IH]; cbn; [split; [by intros _ y ?%elem_of_nil|done]|].
  destruct (f x) as [[]|e] eqn:Ex; cbn.
  - rewrite IH. split; [intros Hl y [->|Hy]%elem_of_cons; auto|]. intros Hl y Hy. apply Hl. by right.
  - split; [done|]. intros Hl. specialize (Hl x (list_elem_of_here _ _)). congruence.
Qed.

Lemma strict_item_ok raw r : strict_item raw = Ok r → rule_ok r.
Proof.
  unfold strict_item. destruct (rsplit_once ":" (trim raw)) as [[dom pt]|]; [|done].
  destruct (validate_domain _) as [[]|e] eqn:Ev; [|done]. destruct (parse_u16 (trim pt)) as [port|] eqn:Ep; [|done].
  destruct (Z.eqb_spec port 0); [done|]. intros [= <-]. apply from_str_radix_range in Ep.
  split; [split; [done|apply lowercase_idem]|cbn; lia].
Qed.

Lemma strict_rules_ok items acc rs :
  strict_rules items acc = Ok rs → Forall rule_ok acc → NoDup acc → Forall rule_ok rs ∧ NoDup rs.
Proof.
  revert acc. induction items as [|i items IH]; intros acc; cbn; [by intros [= <-]|].
  destruct (strict_item i) as [r|e] eqn:E; cbn; [|done]. apply strict_item_ok in E. intros Hr Ha Hn. apply (IH _ Hr).
  - case_bool_decide; [done|]. apply Forall_app. split; [done|by constructor].
  - case_bool_decide as Hin; [done|]. apply NoDup_app. split; [done|]. split; [|by apply NoDup_singleton].
    intros x Hx ->%list_elem_of_singleton. done.
Qed.

(** A mode of the command line, but for [open]. *)
Lemma parsed_mode s m :
  parse_net_mode s = Ok m →
  match m with
  | NetAllowlist ds => s = "open" ∨ (ds ≠ [] ∧ Forall domain_ok ds)
  | NetStrict rs => rs ≠ [] ∧ Forall rule_ok rs ∧ NoDup rs
  | _ => True
  end.
Proof.
  unfold parse_net_mode. destruct (String.eqb s "off"); [by intros [= <-]|].
  destruct (String.eqb_spec s "open"); [intros [= <-]; by left|]. destruct (String.eqb s "ask"); [by intros [= <-]|].
  destruct (strip_prefix "allowlist:" s) as [rest|].
  - set (ds := filter _ _). case_bool_decide as Hne; [done|]. destruct (try_each _ ds) as [[]|e] eqn:E; cbn; [|done].
    intros [= <-]. right. split; [done|]. rewrite try_each_all in E. apply Forall_forall. intros d Hd. specialize (E d Hd). cbn in E.
    destruct (validate_domain d) as [[]|] eqn:Ev; [|done]. split; [done|].
    unfold ds in Hd. apply list_elem_of_filter in Hd as [_ Hd]. apply list_elem_of_fmap in Hd as (x & -> & _). apply allowlist_item_lower.
  - destruct (strip_prefix "strict:" s) as [rest|]; [|done].
    destruct (strict_rules _ []) as [rs|e] eqn:E; cbn; [|done]. case_bool_decide; [done|]. intros [= <-]. split; [done|].
    apply (strict_rules_ok _ [] rs E); [done|constructor].
Qed.

(** What the Linux broker admits without asking. *)
Definition linux_allows (m : NetMode) (host : string) (port : Z) : bool :=
  match m with
  | NetAllowlist domains => domain_allowed host domains
  | NetStrict rules => strict_allowed host port rules
  | _ => false
  end.
Definition domains_of (m : NetMode) : list string :=
  match m with NetAllowlist ds => ds | NetStrict rs => rule_domain <$> rs | _ => [] end.

Lemma allowed_each host ds : domain_allowed host ds = existsb (λ d, domain_allowed host [d]) ds.
Proof. unfold domain_allowed. apply existsb_ext. intros d _. cbn [existsb]. by rewrite orb_false_r. Qed.

Lemma strict_admits host port r :
  plain_name host → lower_text host → rule_ok r →
  strict_allowed host port [r] = (rule_port r =? port) && admits host (rule_domain r).
Proof.
  intros Hn Hl [[Hv Hd] _]. unfold strict_allowed, admits. cbn [existsb]. rewrite (proj1 (normal_read host Hn Hl)).
  destruct (rule_port r =? port); [cbn [negb andb]|done].
  assert (clean_host (rule_domain r) = trim_end_char "." (rule_domain r)) as ->.
  { unfold clean_host. rewrite trim_graph by by apply visible_graph, valid_domain_visible. by apply lower_trimmed. }
  rewrite not_star by done. assert (is_empty (trim_end_char "." (rule_domain r)) = false) as ->.
  { destruct (valid_domain_shape _ Hv) as (_ & _ & Hs). destruct (trim_end_char "." (rule_domain r)); [|done].
    cbn in Hs. by apply plain_name_nonempty in Hs. }
  cbn [orb]. destruct (strip_prefix "*." (trim_end_char "." (rule_domain r))); by rewrite orb_false_r.
Qed.

(** A network mode means the same on both platforms.  For every allow list and every
    strict mode the command line accepts, and every host name and port, the Linux broker
    and the macOS broker admit the same - but for a wildcard over something that reads
    as an address, and the mode [open]. *)
Theorem brokers_agree s m raw host port :
  parse_net_mode s = Ok m → s ≠ "open" → m ≠ NetAsk →
  Forall (λ d, parse_ip (base_of d) = None) (domains_of m) → normalize_host raw = Some host →
  linux_allows m host port = mode_allows m host port.
Proof.
  intros Hm Ho Ha Hip (Hn & Hl & _)%normal_host. apply parsed_mode in Hm. pose proof (proj2 (normal_read host Hn Hl)) as Hh.
  destruct m as [|ds|rs|]; cbn [linux_allows mode_allows domains_of] in *; [done| | |done].
  - destruct Hm as [?|[_ Hok]]; [done|]. rewrite allowed_each. rewrite Forall_forall in Hok. rewrite Forall_forall in Hip. apply existsb_ext. intros d Hd.
    destruct (Hok d Hd) as [Hv Hlow]. by rewrite linux_admits, macos_admits, Hh by auto.
  - destruct Hm as (_ & Hok & _). rewrite Forall_forall in Hok. rewrite Forall_fmap, Forall_forall in Hip.
    assert (strict_allowed host port rs = existsb (λ r, strict_allowed host port [r]) rs) as ->.
    { unfold strict_allowed. apply existsb_ext. intros r _. cbn [existsb]. by rewrite orb_false_r. }
    apply existsb_ext. intros r Hr. rewrite strict_admits by auto. destruct (Hok r Hr) as [[Hv Hlow] _].
    rewrite macos_admits, Hh; [done|done|done|]. by apply Hip.
Qed.

Definition api_host : string := "api.example.com".
Lemma brokers_agree_witness :
  parse_net_mode "strict:*.Example.com:443,internal.test.:22" = Ok (NetStrict [mk_net_rule "*.example.com" 443; mk_net_rule "internal.test." 22])
  ∧ linux_allows (NetStrict [mk_net_rule "*.example.com" 443; mk_net_rule "internal.test." 22]) api_host 443
    = mode_allows (NetStrict [mk_net_rule "*.example.com" 443; mk_net_rule "internal.test." 22]) api_host 443
  ∧ linux_allows (NetStrict [mk_net_rule "*.example.com" 443; mk_net_rule "internal.test." 22]) api_host 443 = true.
Proof.
  assert (parse_net_mode "strict:*.Example.com:443,internal.test.:22"
          = Ok (NetStrict [mk_net_rule "*.example.com" 443; mk_net_rule "internal.test." 22])) as Hm by (vm_compute; reflexivity).
  split; [exact Hm|]. split; [|vm_compute; reflexivity].
  apply (brokers_agree "strict:*.Example.com:443,internal.test.:22" _ "API.example.com." api_host 443 Hm).
  - intros E. vm_compute in E. discriminate E.
  - intros E. discriminate E.
  - repeat constructor.
  - vm_compute. reflexivity.
Defined.

(** ** What a mode is labelled reads back as the mode *)

Lemma domain_no_char d c : domain_ok d → name_char c || Ascii.eqb c "*"%char = false → contains_char d c = false.
Proof. intros [Hv _]. by apply visible_no_char, valid_domain_visible. Qed.
Lemma domain_trim d : domain_ok d → trim d = d.
Proof. intros [Hv _]. by apply trim_graph, visible_graph, valid_domain_visible. Qed.
Lemma domain_nonempty d : domain_ok d → is_empty d = false.
Proof. intros [Hv _]. by destruct d. Qed.

Lemma allowlist_item_domain d : domain_ok d → allowlist_item d = d.
Proof.
  intros Hd. unfold allowlist_item. rewrite domain_trim by done. destruct Hd as [Hv Hl]. unfold lower_text in Hl. rewrite Hl.
  by rewrite rsplit_none by by apply (domain_no_char d ":").
Qed.

Definition rule_label (r : NetRule) : string := rule_domain r +:+ ":" +:+ to_dec (rule_port r).
Lemma rule_label_graph r : rule_ok r → all_chars (λ c, is_graph c && negb (Ascii.eqb c ",")) (rule_label r) = true.
Proof.
  intros [[Hv _] Hp]. unfold rule_label. rewrite !all_chars_app. apply andb_true_iff. split; [|apply andb_true_iff; split; [done|]].
  - eapply all_chars_mono; [|by apply valid_domain_visible]. by intros [[] [] [] [] [] [] [] []].
  - apply digit_chars; [lia|]. by intros [[] [] [] [] [] [] [] []].
Qed.

Lemma chars_no_char (P : ascii → bool) s c : all_chars P s = true → P c = false → contains_char s c = false.
Proof.
  intros Hs Hc. induction s as [|x s IH]; [done|]. cbn in *. apply andb_true_iff in Hs as [Hx Hs].
  destruct (Ascii.eqb_spec x c) as [->|]; [congruence|]. by apply IH.
Qed.

Lemma strict_item_label r : rule_ok r → strict_item (rule_label r) = Ok r.
Proof.
  intros Hr. pose proof (rule_label_graph r Hr) as Hg. destruct Hr as [Hd Hp]. unfold strict_item.
  rewrite trim_graph by (eapply all_chars_mono; [|exact Hg]; by intros c [? _]%andb_true_iff).
  assert (rsplit_once ":" (rule_label r) = Some (rule_domain r, to_dec (rule_port r))) as ->.
  { apply rsplit_once_behind, digit_chars; [lia|]. by intros [[] [] [] [] [] [] [] []]. }
  rewrite domain_trim by done. destruct Hd as [Hv Hl]. unfold lower_text in Hl. cbv zeta. rewrite Hl, Hv.
  rewrite trim_graph by (apply digit_chars; [lia|]; by intros [[] [] [] [] [] [] [] []]).
  unfold parse_u16. rewrite from_str_radix_to_dec by lia. destruct (Z.leb_spec (rule_port r) u16_max); [|lia].
  destruct (Z.eqb_spec (rule_port r) 0); [lia|]. by destruct r.
Qed.

Lemma strict_rules_labels rs acc :
  Forall rule_ok rs → NoDup (acc ++ rs) → strict_rules (rule_label <$> rs) acc = Ok (acc ++ rs).
Proof.
  revert acc. induction rs as [|r rs IH]; intros acc Hr Hn; cbn; [by rewrite app_nil_r|].
  apply Forall_cons in Hr as [Hr Hrs]. rewrite strict_item_label by done. cbn.
  rewrite bool_decide_eq_false_2.
  - rewrite IH; [by rewrite <-app_assoc|done|by rewrite <-app_assoc].
  - intros Hin. apply NoDup_app in Hn as (_ & Hn & _). apply (Hn r Hin). left.
Qed.

Lemma parse_allowlist rest :
  parse_net_mode ("allowlist:" +:+ rest) =
  let domains := filter (λ d, is_empty d = false) (allowlist_item <$> split_char "," rest) in
  if bool_decide (domains = []) then Err "--net=allowlist requires at least one domain"
  else
    _ ← try_each (λ d, match validate_domain d with
                       | Ok _ => Ok tt
                       | Err e => Err ("invalid domain in allowlist '" +:+ d +:+ "': " +:+ e)
                       end) domains;
    Ok (NetAllowlist domains).
Proof. reflexivity. Qed.
Lemma parse_strict rest :
  parse_net_mode ("strict:" +:+ rest) =
  (rules ← strict_rules (split_char "," rest) [];
   if bool_decide (rules = []) then Err "--net=strict requires at least one domain:port rule" else Ok (NetStrict rules)).
Proof. reflexivity. Qed.

(** The label of a mode is the mode.  A network mode the command line accepts - the
    word [open] apart, which has no label of its own - is read back from the label that the
    contract, the ledger and the plan record for it. *)
Theorem net_label_round_trip s m : parse_net_mode s = Ok m → s ≠ "open" → parse_net_mode (net_label m) = Ok m.
Proof.
  intros Hm%parsed_mode Ho. destruct m as [|ds|rs|]; [done| | |done].
  - destruct Hm as [?|[Hne Hok]]; [done|]. change (net_label (NetAllowlist ds)) with ("allowlist:" +:+ join_with "," ds).
    rewrite parse_allowlist. cbv zeta.
    rewrite split_joined; [|done|eapply Forall_impl; [exact Hok|]; intros d Hd; by apply domain_no_char].
    assert (allowlist_item <$> ds = ds) as ->.
    { clear Hne. induction Hok as [|d ds Hd _ IH]; [done|]. cbn. by rewrite IH, allowlist_item_domain. }
    assert (filter (λ d, is_empty d = false) ds = ds) as ->.
    { clear Hne. induction Hok as [|d ds Hd _ IH]; [done|]. rewrite filter_cons_True by by apply domain_nonempty. by rewrite IH. }
    rewrite bool_decide_eq_false_2 by done.
    assert (try_each (λ d, match validate_domain d with
        | Ok _ => Ok tt | Err e => Err ("invalid domain in allowlist '" +:+ d +:+ "': " +:+ e) end) ds = Ok tt) as Ht.
    { apply try_each_all. intros d Hd. rewrite Forall_forall in Hok. by rewrite (proj1 (Hok d Hd)). }
    by rewrite Ht.
  - destruct Hm as (Hne & Hok & Hn). change (net_label (NetStrict rs)) with ("strict:" +:+ join_with "," (rule_label <$> rs)).
    rewrite parse_strict, split_joined; [|by destruct rs|].
    + rewrite strict_rules_labels by done. cbn. by rewrite bool_decide_eq_false_2.
    + apply Forall_fmap, Forall_forall. intros r Hr. rewrite Forall_forall in Hok. eapply chars_no_char; [apply rule_label_graph; by apply Hok|done].
Qed.

Lemma net_label_round_trip_witness :
  parse_net_mode "allowlist: API.Example.com:8443,,*.test." = Ok (NetAllowlist ["api.example.com"; "*.test."])
  ∧ parse_net_mode (net_label (NetAllowlist ["api.example.com"; "*.test."])) = Ok (NetAllowlist ["api.example.com"; "*.test."]).
Proof.
  assert (parse_net_mode "allowlist: API.Example.com:8443,,*.test." = Ok (NetAllowlist ["api.example.com"; "*.test."])) as Hm
    by (vm_compute; reflexivity).
  split; [exact Hm|]. apply (net_label_round_trip _ _ Hm). intros E. vm_compute in E. discriminate E.
Defined.

(** ** What the two brokers and the texts disagree on *)

(** The mode [open] is the allow list of [*]: every host for the Linux broker, none for
    the macOS one. *)
Lemma open_differs host port :
  parse_net_mode "open" = Ok (NetAllowlist ["*"])
  ∧ linux_allows (NetAllowlist ["*"]) host port = true ∧ mode_allows (NetAllowlist ["*"]) host port = false.
Proof. split_and!; [done|..]; cbn [linux_allows mode_allows]; vm_compute; reflexivity. Qed.

(** A wildcard over an address: the Linux broker alone reads it. *)
Lemma wildcard_over_address :
  parse_net_mode "allowlist:*.10.0.0.1" = Ok (NetAllowlist ["*.10.0.0.1"])
  ∧ normalize_host "x.10.0.0.1" = Some "x.10.0.0.1"
  ∧ linux_allows (NetAllowlist ["*.10.0.0.1"]) "x.10.0.0.1" 443 = true
  ∧ mode_allows (NetAllowlist ["*.10.0.0.1"]) "x.10.0.0.1" 443 = false.
Proof. split_and!; vm_compute; reflexivity. Qed.

(** The product of number and unit is taken modulo 2^64: a huge timeout is a short one,
    or none at all. *)
Lemma timeout_wraps :
  parse_session_timeout "90s" = Ok 90 ∧ parse_session_timeout "2h" = Ok 7200
  ∧ parse_session_timeout "4611686018427387904m" = Ok 0 ∧ parse_session_timeout "5124095576030432h" = Ok 3584.
Proof. split_and!; vm_compute; reflexivity. Qed.

(** The help of [--report] lists a format that is refused. *)
Lemma html_is_refused : ∃ e, report_formats_of ["html"; "md"] = Err e.
Proof. eexists. vm_compute. reflexivity. Qed.

(** ** The configuration of a run *)

Section RunLemmas.
Context `{LoadHost} (is_tty : bool) (auto recommended : option Z).

Lemma ci_no_statusline cli global tui : choose_tui is_tty cli global = Ok tui → c_ci cli = true → tui = TuiNone.
Proof.
  unfold choose_tui. destruct (lift _) as [t|]; cbn; [|done]. intros [= <-] ->. destruct t; cbn; [by destruct (_ && _)|]. by destruct (_ && _).
Qed.

(** What a configured run promises.  Whatever the options, the global file and the
    environment say: forwarding SSH needs a brokered network; a threshold of blocks is not
    zero; without a terminal nothing is drawn; secrets stay masked unless they are switched
    off by name; a benchmark runs in a throw-away workspace with the secrets denied and
    masked; and a mode on the command line is the mode of the run. *)
Theorem run_config_sound cli global r :
  to_run_config_with_global is_tty auto recommended cli global = Ok r →
  (r_git_ssh r = true → uses_relay (r_net r) = true)
  ∧ r_fail_on_block r ≠ Some 0
  ∧ (r_ci r = true → r_tui r = TuiNone)
  ∧ (r_mask_secrets r = false →
      c_benchmark cli = false ∧ (c_no_mask_secrets cli = true ∨ (c_mask_secrets cli = false ∧ g_mask_secrets global = Some false)))
  ∧ (r_benchmark r = true → r_ephemeral r = true ∧ r_auto_deny_secrets r = true ∧ r_mask_secrets r = true ∧ r_tmpfs_tmp r = true)
  ∧ (∀ raw, c_net cli = Some raw → parse_net_mode raw = Ok (r_net r)).
Proof.
  unfold to_run_config_with_global. destruct (choose_preset _) as [[preset pa]|]; cbn -[uses_relay bool_decide]; [|done].
  destruct (choose_agent _ _ _) as [agent|]; cbn -[uses_relay bool_decide]; [|done].
  destruct (choose_net _ _ _) as [net|] eqn:En; cbn -[uses_relay bool_decide]; [|done].
  destruct (_ && negb (uses_relay net)) eqn:Eg; cbn -[uses_relay bool_decide]; [done|].
  destruct (bool_decide (or_global _ _ = Some 0)) eqn:Ef; cbn -[uses_relay bool_decide]; [done|].
  apply bool_decide_eq_false in Ef. destruct (choose_tui _ _ _) as [tui|] eqn:Et; cbn -[uses_relay bool_decide]; [|done].
  destruct (match choose_limits _ _ with Some _ => _ | None => _ end) as [[]|]; cbn -[uses_relay bool_decide]; [|done].
  destruct (match or_global _ _ with Some fmts => _ | None => _ end) as [fmts|]; cbn -[uses_relay bool_decide]; [|done].
  destruct (choose_timeout _ _ _ _) as [[timeout at']|]; cbn -[uses_relay bool_decide]; [|done].
  destruct (quota_items _ _) as [quota|]; cbn -[uses_relay bool_decide]; [|done]. intros [= <-]. cbn -[uses_relay bool_decide]. split_and!.
  - intros Hg. rewrite Hg in Eg. cbn in Eg. by apply negb_false_iff.
  - done.
  - destruct (c_benchmark cli); [done|]. by apply ci_no_statusline with (1 := Et).
  - destruct (c_benchmark cli); [done|]. destruct (c_no_mask_secrets cli); [by split; [|left]|].
    destruct (c_mask_secrets cli); [done|]. destruct (g_mask_secrets global) as [[]|]; try done. intros _. split; [done|]. by right.
  - intros Hb. by rewrite Hb.
  - intros raw Hraw. rewrite Hraw in En. cbn in En. unfold lift in En. destruct (parse_net_mode raw); [by injection En as ->|done].
Qed.
End RunLemmas.

(** A machine without files; the environment is a list. *)
Definition config_host (env : list (string * string)) : LoadHost := {|
  host_canonicalize := λ _, None; host_kind := λ _, Err "ENOENT"; host_exists := λ _, false;
  host_is_file := λ _, false; host_is_dir := λ _, false; host_read_dir := λ _, Err "ENOENT";
  host_read_to_string := λ _, Err "ENOENT"; host_glob := λ _, [];
  host_env := λ v, first_some (λ p, if String.eqb p.1 v then Some p.2 else None) env;
  host_cwd := Some (components "/work"); host_uid := 1000;
|}.
Definition demo_cli : Cli :=
  mk_cli "default" None None (Some "strict:api.example.com:443") (Some "statusline") None false false false false false None
    (Some "md,json") None false None None (Some 3) true (Some "30m") false (Some "cpu=60") false false true [] [] false false
    false false false false false ["API.example.com.=10mb"] false false true ["/usr/bin/Claude.exe"; "-p"].
Lemma run_config_sound_witness :
  let H := config_host [("CI", "1"); ("ALL_PROXY", "http://proxy:3128")] in
  match to_run_config_with_global true None None demo_cli no_globals with
  | Ok r => r_git_ssh r = true ∧ r_net r = NetStrict [mk_net_rule "api.example.com" 443] ∧ r_agent_preset r = Some "claude"
      ∧ r_session_timeout r = Some 1800 ∧ r_block_doh r = true ∧ r_https_proxy r = Some "http://proxy:3128"
      ∧ r_net_quota r !! "api.example.com" = Some (10 * 1024 * 1024) ∧ uses_relay (r_net r) = true ∧ r_tui r = TuiNone
  | Err _ => False
  end.
Proof.
  intros H. destruct (to_run_config_with_global true None None demo_cli no_globals) as [r|e] eqn:E; [|vm_compute in E; discriminate E].
  destruct (run_config_sound _ _ _ _ _ _ E) as (Hg & _ & Hci & _). vm_compute in E. injection E as <-.
  do 7 (split; [vm_compute; reflexivity|]). split; [exact (Hg eq_refl)|exact (Hci eq_refl)].
Defined.
