(* ===== verification/CredBroker.v ===== *)
(** * CredBroker: the credential broker

    Model of [src/src/cred_broker.rs]: the variables the broker keeps out of the agent's
    environment, and the socket on which the agent asks for a header.  The JSON codec is
    a parameter; a connection is its first line. *)

From S2P Require Import Prelude Paths PolicyTypes Ip NetAddr Broker.

Record CredBrokerConfig : Type := mk_cred_config {
  proxy_secrets : list string;
  allowlist_domains : list string;
}.
Inductive BrokerRequest : Type :=
| GetHeader (domain secret : string)
| Ping.
Inductive BrokerResponse : Type :=
| Header (header_name header_value : string)
| Pong
| Error (message : string).

(** [filter_proxy_secrets]: the variables (as text) that stay. *)
Definition filter_proxy_secrets (env : gmap string string) (proxy_secrets : list string) : gmap string string :=
  if bool_decide (proxy_secrets = []) then env
  else filter (λ kv, existsb (λ p, String.eqb p kv.1) proxy_secrets = false) env.

Definition is_domain_allowed (domain : string) (allowlist : list string) : bool :=
  if bool_decide (allowlist = []) then false
  else
    let host := to_ascii_lowercase (strip_domain_port domain) in
    existsb (λ allowed,
      let pat := to_ascii_lowercase (strip_domain_port allowed) in
      if String.eqb pat "*" then true
      else match strip_prefix "*." pat with
           | Some suffix => ends_with host ("." +:+ suffix)
           | None => String.eqb host pat || ends_with host ("." +:+ pat)
           end) allowlist.

Definition resolve_auth_header (domain secret_name secret_value : string) : string * string :=
  let lower_domain := to_ascii_lowercase domain in
  if contains lower_domain "anthropic.com" then ("x-api-key", secret_value)
  else if contains lower_domain "openai.com" || contains lower_domain "github.com"
  then ("Authorization", "Bearer " +:+ secret_value)
  else if contains (to_ascii_uppercase secret_name) "API_KEY" then ("x-api-key", secret_value)
  else ("Authorization", "Bearer " +:+ secret_value).

Definition inject_credential_header (secret_name secret_value : string) (headers : gmap string string) : gmap string string :=
  let '(name, val) := resolve_auth_header "default" secret_name secret_value in <[name := val]> headers.

(** The notices published on the bus. *)
Definition rejected_notice (domain : string) : string :=
  "credential broker rejected domain '" +:+ domain +:+ "' (not in allowlist)".
Definition injected_notice (secret domain : string) : string :=
  "credential broker injected '" +:+ secret +:+ "' for domain '" +:+ domain +:+ "'".

Section Client.
(** [serde_json] on requests; an error is its text. *)
Variable parse_request : string → result string BrokerRequest.

Definition answer (config : CredBrokerConfig) (secrets : gmap string string) (request : result string BrokerRequest) :
  BrokerResponse * list string :=
  match request with
  | Ok Ping => (Pong, [])
  | Ok (GetHeader domain secret) =>
      if negb (is_domain_allowed domain (allowlist_domains config))
      then (Error ("domain '" +:+ domain +:+ "' not in proxy allowlist"), [rejected_notice domain])
      else match secrets !! secret with
           | Some val =>
               let '(h_name, h_val) := resolve_auth_header domain secret val in
               (Header h_name h_val, [injected_notice secret domain])
           | None => (Error ("secret '" +:+ secret +:+ "' not available in host environment"), [])
           end
  | Err e => (Error ("invalid broker request JSON: " +:+ e), [])
  end.

(** The answer to the first line of a connection, if it gets one, and the notices. *)
Definition handle_client (line : string) (config : CredBrokerConfig) (secrets : gmap string string) :
  option BrokerResponse * list string :=
  let trimmed := trim line in
  if is_empty trimmed then (None, [])
  else if starts_with trimmed "{" then
    let '(response, notices) := answer config secrets (parse_request trimmed) in (Some response, notices)
  else (None, []).
End Client.

(** ** Lemmas *)

Lemma proxy_secrets_gone env ps k : k ∈ ps → filter_proxy_secrets env ps !! k = None.
Proof.
  intros Hk. unfold filter_proxy_secrets. rewrite bool_decide_eq_false_2 by (intros ->; by apply elem_of_nil in Hk).
  apply map_lookup_filter_None_2. right. intros v _ Hf. cbn in Hf. rewrite existsb_false, Forall_forall in Hf.
  specialize (Hf k Hk). cbn in Hf. by rewrite String.eqb_refl in Hf.
Qed.

Lemma filter_proxy_lookup env ps k v : filter_proxy_secrets env ps !! k = Some v ↔ env !! k = Some v ∧ k ∉ ps.
Proof.
  split.
  - intros Hf. split; [|intros Hk; by rewrite proxy_secrets_gone in Hf]. unfold filter_proxy_secrets in Hf. case_bool_decide; [done|].
    by apply map_lookup_filter_Some in Hf as [? _].
  - intros [He Hk]. unfold filter_proxy_secrets. case_bool_decide; [done|]. apply map_lookup_filter_Some. split; [done|].
    cbn. apply existsb_false, Forall_forall. intros p Hp. apply String.eqb_neq. by intros ->.
Qed.

(** The two brokers read an allow list alike. *)
Lemma allowed_as_relay domain ds : is_domain_allowed domain ds = domain_allowed domain ds.
Proof. unfold is_domain_allowed, domain_allowed, is_dot_suffix. by case_bool_decide as H; [rewrite H|]. Qed.

Lemma auth_header_value domain name value : ∃ h, resolve_auth_header domain name value = (h, value)
  ∨ resolve_auth_header domain name value = (h, "Bearer " +:+ value).
Proof. unfold resolve_auth_header. repeat case_match; eexists; first [by left|by right]. Qed.

(** A secret leaves the credential broker only on request: whatever the first line of
    a connection, a header is answered only to a request for it, for a domain that the
    network broker's reading of the allow list admits, and its value is that of the named
    secret; the notice says so.  Everything else gets no header. *)
Theorem header_only_if_allowed parse line config secrets name value notices :
  handle_client parse line config secrets = (Some (Header name value), notices) →
  ∃ domain secret v, parse (trim line) = Ok (GetHeader domain secret)
    ∧ domain_allowed domain (allowlist_domains config) = true
    ∧ secrets !! secret = Some v ∧ (value = v ∨ value = "Bearer " +:+ v)
    ∧ notices = [injected_notice secret domain].
Proof.
  unfold handle_client, answer. destruct (is_empty _); [done|]. destruct (starts_with _ _); [|done].
  destruct (parse (trim line)) as [[domain secret|]|e]; [|done|done]. rewrite allowed_as_relay.
  destruct (domain_allowed _ _) eqn:Ed; cbn [negb]; [|done]. destruct (secrets !! secret) as [v|] eqn:Es; [|done].
  destruct (auth_header_value domain secret v) as [h [E|E]]; rewrite E; intros [= <- <- <-]; exists domain, secret, v;
    split_and!; auto.
Qed.

(** A codec for two requests. *)
Definition demo_request (line : string) : result string BrokerRequest :=
  if String.eqb line "{get}" then Ok (GetHeader "evil.github.com.attacker.dev" "GH_TOKEN") else Err "bad".
Definition demo_config : CredBrokerConfig := mk_cred_config ["GH_TOKEN"] ["attacker.dev"].

(** The host is told apart by a piece of its name, and the secret itself is what the
    sandboxed client reads from the socket. *)
Lemma header_only_if_allowed_witness :
  handle_client demo_request ("{get}" +:+ ch1 10) demo_config {[ "GH_TOKEN" := "ghp_x" ]}
  = (Some (Header "Authorization" "Bearer ghp_x"), [injected_notice "GH_TOKEN" "evil.github.com.attacker.dev"])
  ∧ domain_allowed "evil.github.com.attacker.dev" ["attacker.dev"] = true.
Proof.
  assert (handle_client demo_request ("{get}" +:+ ch1 10) demo_config {[ "GH_TOKEN" := "ghp_x" ]}
    = (Some (Header "Authorization" "Bearer ghp_x"), [injected_notice "GH_TOKEN" "evil.github.com.attacker.dev"])) as Hc
    by (vm_compute; reflexivity).
  split; [exact Hc|]. destruct (header_only_if_allowed _ _ _ _ _ _ _ Hc) as (d & s & v & Hp & Hd & _).
  vm_compute in Hp. injection Hp as <- <-. exact Hd.
Defined.

(** Any name that contains [anthropic.com] gets the key in the clear of [x-api-key], and
    no list of managed secrets is consulted: every secret of the map is answered. *)
Lemma unmanaged_secret_is_answered :
  handle_client (λ _, Ok (GetHeader "anthropic.com.attacker.dev" "AWS_SECRET")) "{" (mk_cred_config [] ["*"])
    {[ "AWS_SECRET" := "s3cr3t" ]}
  = (Some (Header "x-api-key" "s3cr3t"), [injected_notice "AWS_SECRET" "anthropic.com.attacker.dev"]).
Proof. vm_compute. reflexivity. Qed.
