(* ===== verification/Syscalls.v ===== *)
(** * Syscalls: processes as programs over the kernel

    The code that sets up a Linux child is a sequence of system calls whose answers decide
    how it goes on.  A process is a function from the log of its calls so far to the log at
    its end; the kernel's answers and what the file system shows are functions of the log,
    a parameter.  A fork is a call like the others: its answer says which of the two
    processes is followed, so that the log is the history of one bloodline.  Calls the code
    repeats when a signal interrupts them stand for their last attempt.

    The second half is the program logic the other files use. *)

From S2P Require Import Prelude Paths Landlock Seccomp.

Inductive Namespace : Type := NewUser | NewNs | NewIpc | NewNet | NewPid.

Inductive Syscall : Type :=
| Unshare (ns : Namespace)
| Mount (source : option string) (target : path) (fstype : option string) (flags : Z) (options : option string)
| Umount2 (target : path)
| OpenPath (p : path)
| MakeDirs (p : path)
| CreateFile (p : path)
| LandlockCall (c : Landlock.call)
| NoNewPrivs
| SetSeccomp (program : list SockFilter)
| SetSecurebits (bits : Z)
| DropBound (capability : Z)
| ClearAmbient
| ClearCaps
| SetDumpable (d : Z)
| SetPdeathsig
| Getppid
| Setsid
| Setpgid
| DefaultSignals
| Setrlimit (resource : string) (soft hard : Z)
| IoprioSet (value : Z)
| Fork
| CloseRange (first last : Z)
| Close (fd : Z)
| Dup2 (fd target : Z)
| ControllingTty (fd : Z)
| IsTty (fd : Z)
| OpenNull
| Write (fd : Z) (text : string)
| WriteWord (fd n : Z)
| ReadByte (fd : Z)
| ReadWord (fd : Z)
| Poll (fd timeout : Z)
| Waitpid (pid : Z) (hang : bool)
| Kill (pid signal : Z)
| Chdir (p : path)
| Execve (program : string) (argv : list string) (env : gmap string string)
| ServeRelay (fd port : Z)
| SetSubreaper
| Pipe
| SocketPair
| WriteIdMaps (pid : Z)
| ReceiveFd (fd : Z)
| OpenPidfd (pid : Z)
| Exit (code : Z).

(** The calls made and their answers: an error number is negative. *)
Abbreviation Log := (list (Syscall * Z)).

Class Machine : Type := {
  reply : Log → Syscall → Z;
  (** what the last call left in its buffer: a byte, a status, a descriptor *)
  buffer : Log → Z;
  buffer2 : Log → Z;
  (** [Path::exists], [is_dir], [symlink_metadata().is_ok()], whether a path is a link;
      the readable names of a directory; [open_path_fd] of the Landlock code *)
  fs_exists : Log → path → bool;
  fs_is_dir : Log → path → bool;
  fs_present : Log → path → bool;
  fs_is_link : Log → path → bool;
  fs_names : Log → path → list string;
  fs_open : Log → path → result string bool;
  (** whether a descriptor is a directory, as [fstat] says; a failure counts as one *)
  fd_is_dir : Log → Z → bool;
  (** the hard limit [getrlimit] reports, or the error number *)
  hard_limit : Log → string → result Z Z;
  os_error : Z → string;
  abi_version : Log → option Z;
  environ : gmap string string;
  uid : Z;
  temp_dir : path;
  process_id : Log → Z;
  clock_ms : Log → Z;
}.

(** ** Processes *)

Inductive ending (A : Type) : Type :=
| Ret (a : A)
| Gone
| Running.
Arguments Ret {A} a.
Arguments Gone {A}.
Arguments Running {A}.

Definition proc (A : Type) : Type := Log → Log * ending A.
#[export] Instance proc_ret : MRet proc := λ A a h, (h, Ret a).
#[export] Instance proc_bind : MBind proc := λ A B f m h,
  match m h with
  | (h, Ret a) => f a h
  | (h, Gone) => (h, Gone)
  | (h, Running) => (h, Running)
  end.

Section Processes.
Context `{Machine}.

Definition sys (c : Syscall) : proc Z := λ h, let a := reply h c in (h ++ [(c, a)], Ret a).
Definition sys_ (c : Syscall) : proc unit := _ ← sys c; mret tt.
Definition look {A} (f : Log → A) : proc A := λ h, (h, Ret (f h)).
Definition replace_image {A} : proc A := λ h, (h, Gone).
Definition still_running {A} : proc A := λ h, (h, Running).

(** [for x in xs { f(x)? }], and the same without errors. *)
Fixpoint each {A} (f : A → proc (result string unit)) (xs : list A) : proc (result string unit) :=
  match xs with
  | [] => mret (Ok tt)
  | x :: xs => r ← f x; match r with Ok _ => each f xs | Err e => mret (Err e) end
  end.
Fixpoint each_ {A} (f : A → proc unit) (xs : list A) : proc unit :=
  match xs with [] => mret tt | x :: xs => _ ← f x; each_ f xs end.

(** [a?; b] on results. *)
Definition and_then (a b : proc (result string unit)) : proc (result string unit) :=
  r ← a; match r with Ok _ => b | Err e => mret (Err e) end.

(** A call whose answer must be zero, and the text of the error. *)
Definition must (c : Syscall) (msg : string → string) : proc (result string unit) :=
  a ← sys c; mret (if a =? 0 then Ok tt else Err (msg (os_error (- a)))).

(** The Landlock code makes its calls one after the other. *)
Definition landlock_reply (h : Log) (c : Landlock.call) : Z := reply h (LandlockCall c).
Definition with_calls (h : Log) (cs : list Landlock.call) : Log :=
  fold_left (λ h c, h ++ [(LandlockCall c, landlock_reply h c)]) cs h.
Definition landlock_kernel (h : Log) (cs : list Landlock.call) (c : Landlock.call) : option Z :=
  let a := landlock_reply (with_calls h cs) c in if a <? 0 then Some (- a) else None.
End Processes.

(** ** The program logic *)

(** A call has passed: it was not refused; a fork has passed in the child. *)
Definition passed (e : Syscall * Z) : bool :=
  match e.1 with Fork => e.2 =? 0 | _ => 0 <=? e.2 end.
Definition oks (h : Log) : list Syscall := fst <$> filter (λ e, passed e = true) h.
(** The calls [ms] have passed in this order. *)
Definition achieved (ms : list Syscall) (h : Log) : Prop := ms `sublist_of` oks h.

(** What a log has established stays established. *)
Definition stable (P : Log → Prop) : Prop := ∀ h h', h `prefix_of` h' → P h → P h'.

Lemma oks_app h1 h2 : oks (h1 ++ h2) = oks h1 ++ oks h2.
Proof. unfold oks. by rewrite list.filter_app, fmap_app. Qed.

Lemma achieved_stable ms : stable (achieved ms).
Proof. intros h h' [k ->] Ha. unfold achieved. rewrite oks_app. by apply sublist_inserts_r. Qed.
Lemma achieved_nil h : achieved [] h.
Proof. apply sublist_nil_l. Qed.
Lemma achieved_snoc ms h c a : achieved ms h → passed (c, a) = true → achieved (ms ++ [c]) (h ++ [(c, a)]).
Proof.
  intros Ha Hp. unfold achieved. rewrite oks_app. apply sublist_app; [done|]. unfold oks.
  by rewrite filter_cons_True.
Qed.
Lemma achieved_app_l ms ks h : achieved (ms ++ ks) h → achieved ms h.
Proof. unfold achieved. intros Ha. etrans; [|exact Ha]. by apply sublist_inserts_r. Qed.
Lemma achieved_in ms h c : achieved ms h → c ∈ ms → achieved [c] h.
Proof. unfold achieved. intros Ha (a & b & ->)%list_elem_of_split. etrans; [|exact Ha]. apply sublist_inserts_l. by apply sublist_skip, sublist_nil_l. Qed.

Lemma stable_and P Q : stable P → stable Q → stable (λ h, P h ∧ Q h).
Proof. intros HP HQ h h' Hh [? ?]. split; [by eapply HP|by eapply HQ]. Qed.
Lemma stable_const (P : Prop) : stable (λ _, P).
Proof. by intros ? ? _. Qed.
Lemma stable_all {A} (P : A → Log → Prop) : (∀ x, stable (P x)) → stable (λ h, ∀ x, P x h).
Proof. intros HP h h' Hh H x. by eapply HP. Qed.

Section Logic.
(** What must hold of the log when a call is made. *)
Context `{Machine} (allowed : Log → Syscall → Prop).

Definition lawful (h : Log) : Prop := ∀ h1 c a h2, h = h1 ++ (c, a) :: h2 → allowed h1 c.

(** The ways a process ends: replaced by its agent or by the relay, or by an exit of 125. *)
Definition final (h : Log) : Prop :=
  ∃ h1 c a, h = h1 ++ [(c, a)]
    ∧ match c with Exit n => n = 125 | Execve _ _ _ => 0 ≤ a | ServeRelay _ _ => True | _ => False end.

Definition triple {A} (P : Log → Prop) (m : proc A) (Q : A → Log → Prop) : Prop :=
  ∀ h, P h → lawful h →
    let '(h', e) := m h in
    h `prefix_of` h' ∧ lawful h' ∧ match e with Ret a => Q a h' | Gone => final h' | Running => True end.

Lemma lawful_nil : lawful [].
Proof. intros h1 c a h2 E. by destruct h1. Qed.
Lemma lawful_snoc h c a : lawful h → allowed h c → lawful (h ++ [(c, a)]).
Proof.
  intros Hl Hc h1 c' a' h2 E. destruct (decide (h2 = [])) as [->|Hne].
  - apply app_inj_tail in E as [-> [= -> ->]]. done.
  - destruct (exists_last Hne) as (h3 & e & ->). rewrite app_comm_cons, app_assoc in E. apply app_inj_tail in E as [E _].
    by eapply Hl.
Qed.

Lemma triple_ret {A} (P : Log → Prop) (a : A) Q : (∀ h, P h → Q a h) → triple P (mret a) Q.
Proof. intros HQ h HP Hl. cbn. split_and!; [done|done|by apply HQ]. Qed.

Lemma triple_bind {A B} P (m : proc A) (f : A → proc B) R Q :
  triple P m R → (∀ a, triple (R a) (f a) Q) → triple P (m ≫= f) Q.
Proof.
  intros Hm Hf h HP Hl. unfold mbind, proc_bind. specialize (Hm h HP Hl). destruct (m h) as [h1 [a| |]]; [|done|done].
  destruct Hm as (Hx & Hl1 & HR). specialize (Hf a h1 HR Hl1). destruct (f a h1) as [h2 e].
  destruct Hf as (Hy & ? & ?). split_and!; [by etrans|done|done].
Qed.

Lemma triple_sys P c (Q : Z → Log → Prop) :
  (∀ h, P h → allowed h c) → (∀ h a, P h → Q a (h ++ [(c, a)])) → triple P (sys c) Q.
Proof.
  intros Hc HQ h HP Hl. cbn. split_and!; [by eexists|apply lawful_snoc; auto|by apply HQ].
Qed.

Lemma triple_pre {A} (P P' : Log → Prop) (m : proc A) Q : (∀ h, P h → P' h) → triple P' m Q → triple P m Q.
Proof. intros HP Hm h H' Hl. by apply Hm; [apply HP|]. Qed.
Lemma triple_post {A} P (m : proc A) (Q Q' : A → Log → Prop) : (∀ a h, Q a h → Q' a h) → triple P m Q → triple P m Q'.
Proof.
  intros HQ Hm h HP Hl. specialize (Hm h HP Hl). destruct (m h) as [h' [a| |]]; [|done|done].
  destruct Hm as (? & ? & ?). split_and!; [done|done|by apply HQ].
Qed.
(** What is established is framed by every process. *)
Lemma triple_frame {A} R P (m : proc A) Q :
  stable R → triple P m Q → triple (λ h, R h ∧ P h) m (λ a h, R h ∧ Q a h).
Proof.
  intros HR Hm h [Hr HP] Hl. specialize (Hm h HP Hl). destruct (m h) as [h' [a| |]]; [|done|done].
  destruct Hm as (Hx & ? & ?). split_and!; [done|done|by eapply HR|done].
Qed.
Lemma triple_look {A} P (f : Log → A) Q : (∀ h, P h → Q (f h) h) → triple P (look f) Q.
Proof. intros HQ h HP Hl. cbn. split_and!; [done|done|by apply HQ]. Qed.
Lemma triple_look_bind {A B} P (f : Log → A) (g : A → proc B) Q :
  (∀ a, triple (λ h, P h ∧ a = f h) (g a) Q) → triple P (look f ≫= g) Q.
Proof. intros Hg. eapply triple_bind; [apply triple_look with (Q := λ a h, P h ∧ a = f h); by split|]. intros a. apply Hg. Qed.
Lemma triple_exit {A} P (Q : A → Log → Prop) : (∀ h, P h → allowed h (Exit 125)) → triple P (_ ← sys (Exit 125); replace_image) Q.
Proof.
  intros Hc h HP Hl. cbn. split_and!; [by eexists|apply lawful_snoc; auto|]. by eexists _, _, _.
Qed.
Lemma triple_still {A} P (Q : A → Log → Prop) : triple P still_running Q.
Proof. intros h HP Hl. cbn. by split_and!. Qed.
Lemma triple_false {A} (P : Log → Prop) (m : proc A) Q : (∀ h, P h → False) → triple P m Q.
Proof. intros HP h Hh. by destruct (HP h Hh). Qed.

(** A call that is allowed at any time establishes what its passing says. *)
Lemma triple_call P c :
  stable P → (∀ h, P h → allowed h c) → triple P (sys c) (λ a h, P h ∧ (passed (c, a) = true → achieved [c] h)).
Proof.
  intros HP Hc. apply triple_sys; [done|]. intros h a Hh. split; [by eapply HP; [eexists|]|].
  intros Hp. change [c] with ([] ++ [c]). apply achieved_snoc; [apply achieved_nil|done].
Qed.

(** ** Processes that keep an assertion *)

Definition keeps {A} (P : Log → Prop) (m : proc A) : Prop := triple P m (λ _, P).

Lemma keeps_ret {A} P (a : A) : keeps P (mret a).
Proof. by apply triple_ret. Qed.
Lemma keeps_bind {A B} P (m : proc A) (f : A → proc B) : keeps P m → (∀ a, keeps P (f a)) → keeps P (m ≫= f).
Proof. intros. by eapply triple_bind. Qed.
Lemma keeps_sys P c : stable P → (∀ h, P h → allowed h c) → keeps P (sys c).
Proof. intros HP Hc. apply triple_sys; [done|]. intros h a Hh. eapply HP; [by eexists|done]. Qed.
Lemma keeps_sys_ P c : stable P → (∀ h, P h → allowed h c) → keeps P (sys_ c).
Proof. intros. apply keeps_bind; [by apply keeps_sys|]. intros. apply keeps_ret. Qed.
Lemma keeps_must P c msg : stable P → (∀ h, P h → allowed h c) → keeps P (must c msg).
Proof. intros. apply keeps_bind; [by apply keeps_sys|]. intros. apply keeps_ret. Qed.
Lemma keeps_look {A} P (f : Log → A) : keeps P (look f).
Proof. by apply triple_look. Qed.
Lemma keeps_exit {A} P : (∀ h, P h → allowed h (Exit 125)) → keeps P (_ ← sys (Exit 125); (replace_image : proc A)).
Proof. apply triple_exit. Qed.
Lemma keeps_each {A} P (f : A → proc (result string unit)) xs : (∀ x, keeps P (f x)) → keeps P (each f xs).
Proof.
  intros Hf. induction xs as [|x xs IH]; [apply keeps_ret|]. cbn [each]. apply keeps_bind; [done|]. intros [[]|e]; [done|apply keeps_ret].
Qed.
Lemma keeps_each_ {A} P (f : A → proc unit) xs : (∀ x, keeps P (f x)) → keeps P (each_ f xs).
Proof. intros Hf. induction xs as [|x xs IH]; [apply keeps_ret|]. cbn [each_]. apply keeps_bind; [done|]. intros _. done. Qed.
Lemma keeps_and_then P a b : keeps P a → keeps P b → keeps P (and_then a b).
Proof. intros Ha Hb. apply keeps_bind; [done|]. intros [[]|e]; [done|apply keeps_ret]. Qed.

(** What a process establishes beyond what it keeps. *)
Lemma triple_keeps {A} P R (m : proc A) Q :
  stable R → triple P m Q → triple (λ h, P h ∧ R h) m (λ a h, Q a h ∧ R h).
Proof.
  intros HR Hm. eapply triple_pre; [|eapply triple_post; [|apply (triple_frame R P m Q HR Hm)]]; naive_solver.
Qed.

Lemma keeps_implied {A} P R (m : proc A) : stable R → (∀ h, R h → P h) → keeps P m → keeps R m.
Proof.
  intros HR HPR Hm. eapply triple_pre; [|eapply triple_post; [|apply (triple_keeps P R m _ HR Hm)]].
  - intros h Hh. split; [by apply HPR|done].
  - by intros a h [_ ?].
Qed.

(** The postcondition of a process that may fail. *)
Definition ok_post {A} (Q : A → Log → Prop) (r : result string A) (h : Log) : Prop :=
  match r with Ok a => Q a h | Err _ => True end.

(** What holds in a stage: calls that have passed in order, and facts. *)
Definition stage (ms : list Syscall) (F : Log → Prop) (h : Log) : Prop := achieved ms h ∧ F h.
Lemma stage_stable ms F : stable F → stable (stage ms F).
Proof. intros HF. apply stable_and; [apply achieved_stable|done]. Qed.

Lemma must_next ms F c msg :
  stable F → (∀ h, stage ms F h → allowed h c) → c ≠ Fork →
  triple (stage ms F) (must c msg) (ok_post (λ _, stage (ms ++ [c]) F)).
Proof.
  intros HF Hc Hf. unfold must. eapply triple_bind with (R := λ a h, stage ms F h ∧ (a = 0 → stage (ms ++ [c]) F h)).
  - apply triple_sys; [done|]. intros h a [Ha Hfh]. split; [eapply (stage_stable ms F HF h); [by eexists|by split]|]. intros ->. split.
    + apply achieved_snoc; [done|]. by destruct c.
    + eapply HF; [by eexists|done].
  - intros a. apply triple_ret. intros h [_ Hs]. destruct (Z.eqb_spec a 0); [by apply Hs|done].
Qed.
Lemma fork_next {A} ms F (child failed : proc A) (parent : Z → proc A) Q :
  stable F → (∀ h, stage ms F h → allowed h Fork) →
  triple (stage ms F) failed Q → triple (stage (ms ++ [Fork]) F) child Q → (∀ r, triple (stage ms F) (parent r) Q) →
  triple (stage ms F) (r ← sys Fork; if r <? 0 then failed else if r =? 0 then child else parent r) Q.
Proof.
  intros HF Hc H1 H2 H3. eapply triple_bind with (R := λ r h, stage ms F h ∧ (r = 0 → stage (ms ++ [Fork]) F h)).
  - apply triple_sys; [done|]. intros h a [Ha Hfh]. split; [eapply (stage_stable ms F HF h); [by eexists|by split]|]. intros ->. split.
    + by apply achieved_snoc.
    + eapply HF; [by eexists|done].
  - intros r. destruct (Z.ltb_spec r 0); [by eapply triple_pre; [intros h [? _]|]|].
    destruct (Z.eqb_spec r 0); [|by eapply triple_pre; [intros h [? _]|]]. eapply triple_pre; [|exact H2]. intros h [_ Hs]. by apply Hs.
Qed.

(** Facts that a process establishes from weaker assertions. *)
Lemma stage_fact P ms F G (m : proc (result string unit)) :
  stable F → (∀ h, achieved ms h → P h) → triple P m (λ r h, P h ∧ (r = Ok tt → G h)) →
  triple (stage ms F) m (ok_post (λ _, stage ms (λ h, F h ∧ G h))).
Proof.
  intros HF HP Hm. pose proof (stage_stable ms F HF) as Hs. eapply triple_pre; [|eapply triple_post; [|apply (triple_keeps P _ m _ Hs Hm)]].
  - intros h [Ha Hh]. split; [by apply HP|done].
  - intros [[]|e] h [[_ Hg] [Ha Hh]]; [|done]. split; [done|]. split; [done|by apply Hg].
Qed.

(** Every element establishes its own. *)
Lemma each_establishes {A} P (F : A → Log → Prop) (f : A → proc (result string unit)) xs :
  stable P → (∀ x, stable (F x)) →
  (∀ x, triple P (f x) (λ r h, P h ∧ (r = Ok tt → F x h))) →
  triple P (each f xs) (λ r h, P h ∧ (r = Ok tt → ∀ x, x ∈ xs → F x h)).
Proof.
  intros HP HF Hf. induction xs as [|x xs IH]; cbn [each].
  - apply triple_ret. intros h Hh. split; [done|]. intros _ x Hx. by apply elem_of_nil in Hx.
  - eapply triple_bind; [apply Hf|]. intros [[]|e].
    + eapply triple_pre; [intros h [Hh Hx]; exact (conj Hh (Hx eq_refl))|].
      eapply triple_post; [|apply (triple_keeps P (F x) (each f xs) _ (HF x) IH)].
      intros r h [[Hh Hall] Hx]. split; [done|]. intros Hr y [->|Hy]%elem_of_cons; [done|by apply Hall].
    + apply triple_ret. intros h [Hh _]. by split.
Qed.
Lemma each__establishes {A} P (F : A → Log → Prop) (f : A → proc unit) xs :
  stable P → (∀ x, stable (F x)) → (∀ x, triple P (f x) (λ _ h, P h ∧ F x h)) →
  triple P (each_ f xs) (λ _ h, P h ∧ ∀ x, x ∈ xs → F x h).
Proof.
  intros HP HF Hf. induction xs as [|x xs IH]; cbn [each_].
  - apply triple_ret. intros h Hh. split; [done|]. intros x Hx. by apply elem_of_nil in Hx.
  - eapply triple_bind; [apply Hf|]. intros ?. eapply triple_post; [|apply (triple_keeps P (F x) (each_ f xs) _ (HF x) IH)].
    intros u h [[Hh Hall] Hx]. split; [done|]. intros y [->|Hy]%elem_of_cons; [done|by apply Hall].
Qed.
End Logic.
