(* ===== verification/Mounts.v ===== *)
(** * Mounts: what a child sees of the file system

    Model of [src/src/sandbox/linux/mounts.rs], [vfs_overlays.rs] and [unshare] of
    [namespaces.rs]: the calls by which a child in its own mount namespace hides secrets,
    sockets and devices and replaces the shared places. *)

From S2P Require Import Prelude Paths PolicyTypes Globs Syscalls.

Definition MS_REC : Z := 0x4000.
Definition MS_PRIVATE : Z := 0x40000.
Definition MS_BIND : Z := 0x1000.
Definition MS_RDONLY : Z := 0x1.
Definition MS_REMOUNT : Z := 0x20.
Definition MS_NOSUID : Z := 0x2.
Definition MS_NODEV : Z := 0x4.
Definition MS_NOEXEC : Z := 0x8.
Definition flags_of (fs : list Z) : Z := fold_left Z.lor fs 0.

Definition DEV_SHM_MOUNT_OPTIONS : string := "size=536870912,mode=1777".
Definition TMP_MOUNT_OPTIONS : string := "size=67108864,mode=1777".
Definition PROC_HIDE_PID_OPTIONS : string := "hidepid=2".
Definition DEVPTS_MOUNT_OPTIONS : string := "newinstance,ptmxmode=0666,mode=620".

Inductive ProcVisibility : Type := HidePid | Fallback.

(** [CString::new]: a path with a NUL is an error. *)
Definition cstr (p : path) : result string path :=
  if contains_char (to_str p) (chr 0) then Err ("NUL in path " +:+ to_str p) else Ok p.

Definition at_path (p : string) : path := components p.

Section Mounts.
Context `{Machine}.

Definition ns_flag (ns : Namespace) : string :=
  match ns with
  | NewNs => "0x20000" | NewUser => "0x10000000" | NewPid => "0x20000000"
  | NewNet => "0x40000000" | NewIpc => "0x8000000"
  end.
Definition unshare (ns : Namespace) : proc (result string unit) :=
  must (Unshare ns) (λ e, "unshare(" +:+ ns_flag ns +:+ ") failed: " +:+ e).

Definition with_cstr {A} (p : path) (k : path → proc (result string A)) : proc (result string A) :=
  match cstr p with Ok p => k p | Err e => mret (Err e) end.
(** [Path::exists], [Path::is_dir] at this point. *)
Definition exists_now (p : path) : proc bool := look (λ h, fs_exists h p).
Definition is_dir_now (p : path) : proc bool := look (λ h, fs_is_dir h p).
Definition is_dir_there (p : path) : proc bool := look (λ h, fs_exists h p && fs_is_dir h p).

Definition root_private : Syscall := Mount None (at_path "/") None (flags_of [MS_PRIVATE; MS_REC]) None.
Definition make_root_private : proc (result string unit) := must root_private (λ e, "remount / private: " +:+ e).

Definition dev_shm_mount : Syscall :=
  Mount None (at_path "/dev/shm") (Some "tmpfs") (flags_of [MS_NOSUID; MS_NODEV; MS_NOEXEC]) (Some DEV_SHM_MOUNT_OPTIONS).
Definition isolate_dev_shm : proc (result string unit) :=
  let target := at_path "/dev/shm" in
  present ← look (λ h, fs_present h target);
  if negb present then mret (Err "inspect /dev/shm")
  else
    plain ← look (λ h, negb (fs_is_link h target) && fs_is_dir h target);
    if negb plain then mret (Err "/dev/shm is not a directory")
    else must dev_shm_mount (λ e, "isolated /dev/shm tmpfs: " +:+ e).

(** A descriptor kept open on something that the new [/tmp] shall still show. *)
Definition preserve (p : path) : proc (list (path * Z)) :=
  match cstr p with
  | Ok p => fd ← sys (OpenPath p); mret (if 0 <=? fd then [(p, fd)] else [])
  | Err _ => mret []
  end.
Fixpoint preserve_all (ps : list path) (keep : path → proc bool) : proc (list (path * Z)) :=
  match ps with
  | [] => mret []
  | p :: ps =>
      k ← keep p;
      here ← (if (k : bool) then preserve p else mret []);
      rest ← preserve_all ps keep;
      mret (here ++ rest)
  end.
Definition browser_entry (name : string) : bool :=
  String.eqb name ".X11-unix" || starts_with name "scoped_dir" || starts_with name ".org.chromium.Chromium".

Definition restore_preserved (e : path * Z) : proc unit :=
  let '(p, fd) := e in
  dir ← look (λ h, fd_is_dir h fd);
  _ ← (if (dir : bool) then sys_ (MakeDirs p)
       else match parent p with
            | Some up => _ ← sys_ (MakeDirs up); sys_ (CreateFile p)
            | None => mret tt
            end);
  let proc_fd := "/proc/self/fd/" +:+ to_dec fd in
  _ ← match cstr p with
      | Ok dst => sys_ (Mount (Some proc_fd) dst None (flags_of [MS_BIND; MS_REC]) None)
      | Err _ => mret tt
      end;
  sys_ (Close fd).

Definition tmp_mount : Syscall :=
  Mount None (at_path "/tmp") (Some "tmpfs") (flags_of [MS_NOSUID; MS_NODEV]) (Some TMP_MOUNT_OPTIONS).
Definition isolate_tmp (preserve_paths : list path) : proc (result string unit) :=
  let target := at_path "/tmp" in
  there ← is_dir_there target;
  if negb there then mret (Ok tt)
  else
    asked ← preserve_all preserve_paths (λ p, look (λ h, path_starts_with p target && negb (bool_decide (p = target)) && fs_exists h p));
    names ← look (λ h, fs_names h target);
    found ← preserve_all ((λ n, target ++ [Normal n]) <$> filter (λ n, browser_entry n = true) names) (λ _, mret true);
    let preserved := asked ++ found in
    a ← sys tmp_mount;
    if negb (a =? 0) then
      _ ← each_ (λ e : path * Z, sys_ (Close e.2)) preserved;
      mret (Err ("isolated /tmp tmpfs: " +:+ os_error (- a)))
    else
      _ ← each_ restore_preserved preserved;
      mret (Ok tt).

Definition proc_mount (options : option string) : Syscall :=
  Mount (Some "proc") (at_path "/proc") (Some "proc") (flags_of [MS_NOSUID; MS_NODEV; MS_NOEXEC]) options.
Definition mount_proc (options : option string) : proc (result (string * Z) unit) :=
  a ← sys (proc_mount options);
  mret (if a =? 0 then Ok tt else Err ("mount restricted /proc: " +:+ os_error (- a), - a)).
(** [EINVAL], [ENOPROTOOPT], [EOPNOTSUPP]. *)
Definition hidepid_unsupported (errno : Z) : bool := bool_decide (errno ∈ [22; 92; 95]).

Definition bind_devnull_call (target : path) : Syscall := Mount (Some "/dev/null") target None MS_BIND None.
Definition bind_devnull (target : path) : proc (result string unit) :=
  with_cstr target (λ dst, must (bind_devnull_call dst) (λ e, "bind /dev/null over " +:+ to_str dst +:+ ": " +:+ e)).
Definition empty_tmpfs_call (target : path) : Syscall :=
  Mount None target (Some "tmpfs") (flags_of [MS_RDONLY; MS_NOSUID; MS_NODEV; MS_NOEXEC]) (Some "mode=0000").
Definition empty_tmpfs (target : path) : proc (result string unit) :=
  with_cstr target (λ dst, must (empty_tmpfs_call dst) (λ e, "tmpfs over " +:+ to_str dst +:+ ": " +:+ e)).

(** Whether there was something to mask. *)
Definition mask_path (p : path) (is_dir : bool) : proc (result string bool) :=
  present ← look (λ h, fs_present h p);
  if negb present then mret (Ok false)
  else r ← (if is_dir then empty_tmpfs p else bind_devnull p);
       mret (match r with Ok _ => Ok true | Err e => Err e end).
Definition mask_path_ (p : path) (is_dir : bool) : proc (result string unit) :=
  r ← mask_path p is_dir; mret (match r with Ok _ => Ok tt | Err e => Err e end).
(** [if path.exists() { mask_path(path, path.is_dir())? }], and as a file. *)
Definition mask_if_exists (p : path) : proc (result string unit) :=
  there ← exists_now p;
  if (there : bool) then dir ← is_dir_now p; mask_path_ p dir else mret (Ok tt).
Definition mask_file_if_exists (p : path) : proc (result string unit) :=
  there ← exists_now p; if (there : bool) then mask_path_ p false else mret (Ok tt).

Definition DANGEROUS_RAW_DEVICES : list path := at_path <$> ["/dev/mem"; "/dev/kmem"; "/dev/port"; "/dev/nvram"].
Definition mask_dangerous_devices : proc (result string unit) := each mask_file_if_exists DANGEROUS_RAW_DEVICES.

Definition trim_start_str (pre s : string) : string := strip_loop (strip_prefix pre) (String.length s) s.
Definition ESSENTIAL_DEVICES : list string :=
  ["null"; "zero"; "full"; "random"; "urandom"; "tty"; "pts"; "shm"; "fd"; "stdin"; "stdout"; "stderr"].
Definition dangerous_devs : list path :=
  at_path <$> ["/dev/kmsg"; "/dev/mem"; "/dev/kmem"; "/dev/port"; "/dev/core"; "/dev/dri"; "/dev/snd"; "/dev/input"; "/dev/kvm";
               "/dev/vhost-net"; "/dev/vhost-vsock"; "/dev/autofs"; "/dev/btrfs-control"; "/dev/loop-control";
               "/dev/mapper/control"; "/dev/rtc0"; "/dev/hpet"].
Definition mask_restricted_devices (dev_allow : option (list string)) : proc (result string unit) :=
  let dev_dir := at_path "/dev" in
  there ← is_dir_there dev_dir;
  if negb there then mret (Ok tt)
  else match dev_allow with
       | Some allowed_list =>
           let allowed_set := ((λ s, trim_start_char "/" (trim_start_str "/dev/" s)) <$> allowed_list) ++ ESSENTIAL_DEVICES in
           names ← look (λ h, fs_names h dev_dir);
           each (λ n, let p := dev_dir ++ [Normal n] in dir ← is_dir_now p; mask_path_ p dir)
             (filter (λ n, n ∉ allowed_set) names)
       | None => each mask_if_exists dangerous_devs
       end.

Definition resolv_conf : path := at_path "/etc/resolv.conf".
Definition blackhole_resolv_conf : proc (result string unit) :=
  there ← exists_now resolv_conf; if (there : bool) then bind_devnull resolv_conf else mret (Ok tt).

Definition self_bind (p : path) : Syscall := Mount (Some (to_str p)) p None (flags_of [MS_BIND; MS_REC]) None.
Definition readonly_hardened : Z := flags_of [MS_BIND; MS_REMOUNT; MS_RDONLY; MS_NOSUID; MS_NODEV; MS_NOEXEC; MS_REC].
Definition remount_readonly (p : path) : Syscall := Mount None p None readonly_hardened None.
Definition remount_sys_readonly : proc (result string unit) :=
  let target := at_path "/sys" in
  there ← is_dir_there target;
  if negb there then mret (Ok tt)
  else _ ← sys (self_bind target); must (remount_readonly target) (λ e, "remount /sys read-only: " +:+ e).

Definition remount_proc_sys_readonly : proc (result string unit) :=
  let target := at_path "/proc/sys" in
  there ← is_dir_there target;
  if negb there then mret (Ok tt)
  else
    a ← sys (self_bind target);
    if negb (a =? 0) then empty_tmpfs target
    else b ← sys (remount_readonly target); if b =? 0 then mret (Ok tt) else empty_tmpfs target.

Definition mount_restricted_proc : proc (result string ProcVisibility) :=
  r ← mount_proc (Some PROC_HIDE_PID_OPTIONS);
  visibility ← match r with
               | Ok _ => mret (Ok HidePid)
               | Err (first, errno) =>
                   if hidepid_unsupported errno then
                     r ← mount_proc None;
                     mret (match r with
                           | Ok _ => Ok Fallback
                           | Err (second, _) =>
                               Err ("proc hidepid unsupported and fallback mount failed: " +:+ first +:+ "; " +:+ second)
                           end)
                   else mret (Err first)
               end;
  match visibility with
  | Ok v => _ ← remount_proc_sys_readonly; mret (Ok v)
  | Err e => mret (Err e)
  end.

Definition mount_devpts_newinstance : proc (result string unit) :=
  let pts_dir := at_path "/dev/pts" in
  there ← is_dir_there pts_dir;
  if negb there then mret (Ok tt)
  else
    a ← sys (Mount (Some "devpts") pts_dir (Some "devpts") (flags_of [MS_NOSUID; MS_NOEXEC]) (Some DEVPTS_MOUNT_OPTIONS));
    if negb (a =? 0) then mret (Err ("mount devpts newinstance: " +:+ os_error (- a)))
    else
      both ← look (λ h, fs_exists h (at_path "/dev/pts/ptmx") && fs_exists h (at_path "/dev/ptmx"));
      _ ← (if (both : bool) then sys_ (Mount (Some "/dev/pts/ptmx") (at_path "/dev/ptmx") None MS_BIND None) else mret tt);
      mret (Ok tt).

Definition sensitive_files : list path :=
  at_path <$> ["/proc/kcore"; "/proc/kallsyms"; "/proc/sysrq-trigger"; "/proc/sched_debug"; "/proc/slabinfo"].
Definition sensitive_dirs : list path := at_path <$> ["/proc/acpi"; "/proc/asound"].
Definition mask_sensitive_proc_paths : proc (result string unit) :=
  and_then remount_proc_sys_readonly
    (and_then
       (each (λ p, there ← exists_now p; if (there : bool) then bind_devnull p else mret (Ok tt)) sensitive_files)
       (each (λ p, there ← is_dir_there p; if (there : bool) then empty_tmpfs p else mret (Ok tt)) sensitive_dirs)).

Definition readonly_call (p : path) : Syscall :=
  Mount None p None (flags_of [MS_BIND; MS_REMOUNT; MS_RDONLY; MS_REC]) None.
Definition mount_ro_cache (p : path) : proc (result string unit) :=
  there ← exists_now p;
  if negb there then mret (Ok tt)
  else with_cstr p (λ dst,
    a ← sys (self_bind dst);
    if negb (a =? 0) then mret (Err ("failed to bind mount ro cache " +:+ to_str p +:+ ": " +:+ os_error (- a)))
    else
      b ← sys (readonly_call dst);
      if b =? 0 then mret (Ok tt)
      else _ ← sys_ (Umount2 dst);
           mret (Err ("failed to remount ro cache as read-only " +:+ to_str p +:+ ": " +:+ os_error (- b)))).
Definition mount_ro_caches (ro_mounts : list path) : proc (result string unit) := each mount_ro_cache ro_mounts.

(** *** [vfs_overlays.rs] *)

Definition SENSITIVE_PROC_SYS_PATHS : list path :=
  at_path <$> ["/proc/sysrq-trigger"; "/proc/kcore"; "/proc/kallsyms"; "/proc/sched_debug"; "/proc/timer_list";
               "/sys/firmware"; "/sys/kernel/debug"; "/sys/kernel/tracing"].
Definition mask_host_proc_sys : proc (result string unit) := each mask_if_exists SENSITIVE_PROC_SYS_PATHS.

(** The variables of the helper, which still has the host's environment. *)
Definition env_var (v : string) : option string := environ !! v.
Definition socket_uids : list string :=
  let add uids v := match env_var v with
                    | Some u => if is_empty u || bool_decide (u ∈ uids) then uids else uids ++ [u]
                    | None => uids
                    end in
  add (add [to_dec uid] "SUDO_UID") "UID".
Definition get_dangerous_unix_sockets : list path :=
  let sockets :=
    ["/var/run/docker.sock"; "/run/docker.sock"; "/run/podman/podman.sock"]
    ++ concat ((λ u, ["/run/user/" +:+ u +:+ "/docker.sock"; "/run/user/" +:+ u +:+ "/podman/podman.sock";
                      "/run/user/" +:+ u +:+ "/gnupg/S.gpg-agent"; "/run/user/" +:+ u +:+ "/gnupg/S.gpg-agent.ssh"])
               <$> socket_uids)
    ++ match env_var "SSH_AUTH_SOCK" with Some s => if is_empty s then [] else [s] | None => [] end in
  fold_left (λ acc p, if bool_decide (p ∈ acc) then acc else acc ++ [p]) (at_path <$> sockets) [].

Definition mask_unix_sockets (custom_sockets : list path) : proc (result string unit) := each mask_file_if_exists custom_sockets.

Definition cow_overlay (base : path) : Syscall :=
  Mount (Some "overlay") (at_path "/") (Some "overlay") 0
    (Some ("lowerdir=/,upperdir=" +:+ to_str (push base (components "upper")) +:+ ",workdir=" +:+ to_str (push base (components "work")))).
Definition mount_root_cow_overlay (ephemeral_dir : option path) : proc (result string unit) :=
  pid ← look process_id;
  let base := match ephemeral_dir with
              | Some dir => dir
              | None => push temp_dir (components ("vetto-cow-" +:+ to_dec pid))
              end in
  _ ← sys_ (MakeDirs (push base (components "upper")));
  _ ← sys_ (MakeDirs (push base (components "work")));
  match cstr base with
  | Err _ => mret (Err "invalid overlayfs options")
  | Ok _ => must (cow_overlay base) (λ e, "mount overlayfs over / failed: " +:+ e)
  end.

Definition mandatory_secrets (home : path) (project_root : option path) : list path :=
  ((λ rel, push home (components rel)) <$>
     [".ssh"; ".aws"; ".gnupg"; ".env"; ".npmrc"; ".docker/config.json"; ".config/gh/hosts.yml"])
  ++ match project_root with
     | Some root => [push root (components ".env"); push (push root (components ".git")) (components "config")]
     | None => []
     end.
Definition mask_mandatory_secrets (home : path) (project_root : option path) : proc (result string unit) :=
  and_then (each mask_if_exists (mandatory_secrets home project_root))
    (and_then (each mask_file_if_exists get_dangerous_unix_sockets)
       (and_then remount_proc_sys_readonly
          (and_then mount_devpts_newinstance mask_host_proc_sys))).
End Mounts.

(** ** Lemmas: mounts stay in the namespace of the child *)

(** The child is in a mount namespace of its own from which nothing spreads. *)
Definition private_mounts (h : Log) : Prop :=
  achieved [Unshare NewUser; Unshare NewNs; Mount None (at_path "/") None (flags_of [MS_PRIVATE; MS_REC]) None] h.
Lemma private_stable : stable private_mounts.
Proof. apply achieved_stable. Qed.

(** Calls with no effect beyond the process, its descriptors and its namespaces. *)
Definition own_call (c : Syscall) : bool :=
  match c with Mount _ _ _ _ _ | Execve _ _ _ | Write _ _ => false | _ => true end.

Create HintDb keeps.
#[export] Hint Resolve keeps_ret keeps_look keeps_each keeps_each_ keeps_and_then private_stable : keeps.

Section Facts.
Context `{Machine} (allowed : Log → Syscall → Prop).
Hypothesis mounts_allowed : ∀ h s t f fl o, private_mounts h → allowed h (Mount s t f fl o).
Hypothesis own_allowed : ∀ h c, own_call c = true → allowed h c.

Local Abbreviation keep m := (keeps allowed private_mounts m).

Lemma keep_mount s t f fl o : keep (sys (Mount s t f fl o)).
Proof. apply keeps_sys; [apply private_stable|]. intros h Hh. by apply mounts_allowed. Qed.
Lemma keep_own c : own_call c = true → keep (sys c).
Proof. intros Hc. apply keeps_sys; [apply private_stable|]. intros h _. by apply own_allowed. Qed.

(** Step through a process whose calls are all of these two kinds. *)
Ltac keeps_step :=
  match goal with
  | |- keeps _ _ (sys (Mount _ _ _ _ _)) => apply keep_mount
  | |- keeps _ _ (sys _) => apply keep_own; reflexivity
  | |- keeps _ _ (sys_ _) => unfold sys_
  | |- keeps _ _ (must _ _) => unfold must
  | |- keeps _ _ (mret _) => apply keeps_ret
  | |- keeps _ _ (look _) => apply keeps_look
  | |- keeps _ _ (with_cstr _ _) => unfold with_cstr
  | |- keeps _ _ (_ ≫= _) => apply keeps_bind; [|intros ?]
  | |- keeps _ _ (each _ _) => apply keeps_each; intros ?
  | |- keeps _ _ (each_ _ _) => apply keeps_each_; intros ?
  | |- keeps _ _ (and_then _ _) => apply keeps_and_then
  | |- keeps _ _ (match ?x with _ => _ end) => destruct x
  end.
Ltac keeps_all := repeat first [solve [auto 1 with keeps]|keeps_step].

Lemma keep_unshare ns : keep (unshare ns).
Proof. unfold unshare. keeps_all. Qed.
Lemma keep_dev_shm : keep isolate_dev_shm.
Proof. unfold isolate_dev_shm, exists_now, dev_shm_mount. cbv zeta. keeps_all. Qed.
Lemma keep_preserve_all ps k : (∀ p, keep (k p)) → keep (preserve_all ps k).
Proof. intros Hk. induction ps as [|p ps IH]; cbn [preserve_all]; unfold preserve; keeps_all. Qed.
Lemma keep_tmp ps : keep (isolate_tmp ps).
Proof.
  unfold isolate_tmp, is_dir_there, restore_preserved, tmp_mount. cbv zeta. keeps_all; apply keep_preserve_all; intros; keeps_all.
Qed.
Lemma keep_bind_devnull p : keep (bind_devnull p).
Proof. unfold bind_devnull, bind_devnull_call. keeps_all. Qed.
Lemma keep_empty_tmpfs p : keep (empty_tmpfs p).
Proof. unfold empty_tmpfs, empty_tmpfs_call. keeps_all. Qed.
Hint Resolve keep_bind_devnull keep_empty_tmpfs : keeps.
Lemma keep_mask_path p d : keep (mask_path p d).
Proof. unfold mask_path. keeps_all. Qed.
Hint Resolve keep_mask_path : keeps.
Lemma keep_mask_path_ p d : keep (mask_path_ p d).
Proof. unfold mask_path_. keeps_all. Qed.
Hint Resolve keep_mask_path_ : keeps.
Lemma keep_mask_if_exists p : keep (mask_if_exists p).
Proof. unfold mask_if_exists, exists_now, is_dir_now. keeps_all. Qed.
Lemma keep_mask_file_if_exists p : keep (mask_file_if_exists p).
Proof. unfold mask_file_if_exists, exists_now. keeps_all. Qed.
Hint Resolve keep_mask_if_exists keep_mask_file_if_exists : keeps.
Lemma keep_dangerous_devices : keep mask_dangerous_devices.
Proof. unfold mask_dangerous_devices. keeps_all. Qed.
Lemma keep_restricted_devices allow : keep (mask_restricted_devices allow).
Proof. unfold mask_restricted_devices, is_dir_there, is_dir_now. cbv zeta. keeps_all. Qed.
Lemma keep_resolv_conf : keep blackhole_resolv_conf.
Proof. unfold blackhole_resolv_conf, exists_now. keeps_all. Qed.
Lemma keep_sys_readonly : keep remount_sys_readonly.
Proof. unfold remount_sys_readonly, is_dir_there, self_bind, remount_readonly. cbv zeta. keeps_all. Qed.
Lemma keep_proc_sys_readonly : keep remount_proc_sys_readonly.
Proof. unfold remount_proc_sys_readonly, is_dir_there, self_bind, remount_readonly. cbv zeta. keeps_all. Qed.
Hint Resolve keep_proc_sys_readonly : keeps.
Lemma keep_devpts : keep mount_devpts_newinstance.
Proof. unfold mount_devpts_newinstance, is_dir_there. cbv zeta. keeps_all. Qed.
Hint Resolve keep_devpts : keeps.
Lemma keep_sensitive_proc : keep mask_sensitive_proc_paths.
Proof. unfold mask_sensitive_proc_paths, exists_now, is_dir_there. keeps_all. Qed.
Lemma keep_ro_caches ps : keep (mount_ro_caches ps).
Proof. unfold mount_ro_caches, mount_ro_cache, exists_now, self_bind, readonly_call. keeps_all. Qed.
Lemma keep_unix_sockets ps : keep (mask_unix_sockets ps).
Proof. unfold mask_unix_sockets. keeps_all. Qed.
Lemma keep_cow_overlay d : keep (mount_root_cow_overlay d).
Proof. unfold mount_root_cow_overlay, cow_overlay. cbv zeta. keeps_all. Qed.
Lemma keep_mandatory_secrets home root : keep (mask_mandatory_secrets home root).
Proof. unfold mask_mandatory_secrets, mask_host_proc_sys. keeps_all. Qed.
Lemma keep_restricted_proc : keep mount_restricted_proc.
Proof. unfold mount_restricted_proc, mount_proc, proc_mount. keeps_all. Qed.

(** *** What a mount leaves hidden *)

Definition mask_call (p : path) (is_dir : bool) : Syscall := if is_dir then empty_tmpfs_call p else bind_devnull_call p.
(** Something was mounted over [p], or there was nothing to see at [p]. *)
Definition masked (p : path) (is_dir : bool) (h : Log) : Prop :=
  (∃ h0, h0 `prefix_of` h ∧ fs_present h0 p = false) ∨ achieved [mask_call p is_dir] h.
Definition hidden (p : path) (h : Log) : Prop :=
  (∃ h0, h0 `prefix_of` h ∧ fs_exists h0 p = false) ∨ ∃ d, masked p d h.

Lemma ever_stable (Q : Log → Prop) : stable (λ h, ∃ h0, h0 `prefix_of` h ∧ Q h0).
Proof. intros h h' Hh (h0 & H0 & ?). exists h0. split; [by etrans|done]. Qed.
Lemma masked_stable p d : stable (masked p d).
Proof.
  intros h h' Hh [Hn|Ha]; [left; by eapply (ever_stable (λ h, fs_present h p = false))|right; by eapply achieved_stable].
Qed.
Lemma hidden_stable p : stable (hidden p).
Proof.
  intros h h' Hh [Hn|[d Hd]]; [left; by eapply (ever_stable (λ h, fs_exists h p = false))|]. right. exists d. by eapply masked_stable.
Qed.

Lemma must_establishes P c msg :
  stable P → (∀ h, P h → allowed h c) → c ≠ Fork →
  triple allowed P (must c msg) (λ r h, P h ∧ (r = Ok tt → achieved [c] h)).
Proof.
  intros HP Hc Hf. unfold must. eapply triple_bind; [by apply triple_call|]. intros a. apply triple_ret. intros h [Hh Ha].
  split; [done|]. destruct (Z.eqb_spec a 0) as [->|]; [|done]. intros _. apply Ha. by destruct c.
Qed.

Lemma mask_call_mounts p d : ∃ s fl o f, mask_call p d = Mount s p f fl o.
Proof. destruct d; by eexists _, _, _, _. Qed.

Lemma mask_path_masks p d : triple allowed private_mounts (mask_path p d) (λ r h, private_mounts h ∧ (is_ok r = true → masked p d h)).
Proof.
  unfold mask_path. apply triple_look_bind. intros present. destruct present; cbn [negb].
  - eapply triple_pre; [by intros h [? _]|].
    eapply triple_bind with (R := λ (r : result string unit) h, private_mounts h ∧ (r = Ok tt → achieved [mask_call p d] h)).
    + assert (∀ msg, triple allowed private_mounts (must (mask_call p d) msg)
        (λ r h, private_mounts h ∧ (r = Ok tt → achieved [mask_call p d] h))) as Hm.
      { intros msg. apply must_establishes; [apply private_stable| |by destruct d]. intros h Hh.
        destruct (mask_call_mounts p d) as (s & fl & o & f & ->). by apply mounts_allowed. }
      destruct d; [unfold empty_tmpfs|unfold bind_devnull]; unfold with_cstr, cstr; (destruct (contains_char _ _); [by apply triple_ret|apply Hm]).
    + intros [[]|e]; apply triple_ret; intros h [Hh Ha]; (split; [done|]); [|done]. intros _. right. by apply Ha.
  - apply triple_ret. intros h [Hh Hp]. split; [done|]. intros _. left. exists h. by split.
Qed.

Lemma mask_path_masked p d :
  triple allowed private_mounts (mask_path_ p d) (λ r h, private_mounts h ∧ (r = Ok tt → masked p d h)).
Proof.
  unfold mask_path_. eapply triple_bind; [apply mask_path_masks|]. intros r. apply triple_ret. intros h [Hh Hm]. split; [done|].
  destruct r as [b|e]; [|done]. intros _. by apply Hm.
Qed.
Lemma mask_path_hides p d :
  triple allowed private_mounts (mask_path_ p d) (λ r h, private_mounts h ∧ (r = Ok tt → hidden p h)).
Proof.
  eapply triple_post; [|apply mask_path_masked]. intros r h [Hh Hm]. split; [done|]. intros Hr. right. exists d. by apply Hm.
Qed.

(** What is masked if it exists is hidden. *)
Lemma if_exists_hides p (k : proc (result string unit)) :
  triple allowed private_mounts k (λ r h, private_mounts h ∧ (r = Ok tt → hidden p h)) →
  triple allowed private_mounts (there ← exists_now p; if (there : bool) then k else mret (Ok tt))
    (λ r h, private_mounts h ∧ (r = Ok tt → hidden p h)).
Proof.
  intros Hk. unfold exists_now. apply triple_look_bind. intros [].
  - by eapply triple_pre; [intros h [? _]|].
  - apply triple_ret. intros h [Hh He]. split; [done|]. intros _. left. exists h. by split.
Qed.
Lemma mask_if_exists_hides p :
  triple allowed private_mounts (mask_if_exists p) (λ r h, private_mounts h ∧ (r = Ok tt → hidden p h)).
Proof.
  apply if_exists_hides. unfold is_dir_now. apply triple_look_bind. intros d. eapply triple_pre; [by intros h [? _]|apply mask_path_hides].
Qed.
Lemma mask_file_if_exists_hides p :
  triple allowed private_mounts (mask_file_if_exists p) (λ r h, private_mounts h ∧ (r = Ok tt → hidden p h)).
Proof. apply if_exists_hides, mask_path_hides. Qed.

(** A sequence of two: what the first establishes and what the second does. *)
Lemma and_then_establishes P F G a b :
  stable F → triple allowed P a (λ r h, P h ∧ (r = Ok tt → F h)) → triple allowed P b (λ r h, P h ∧ (r = Ok tt → G h)) →
  triple allowed P (and_then a b) (λ r h, P h ∧ (r = Ok tt → F h ∧ G h)).
Proof.
  intros HF Ha Hb. unfold and_then. eapply triple_bind; [exact Ha|]. intros [[]|e]; [|apply triple_ret; intros h [? _]; by split].
  eapply triple_pre; [intros h [Hh Hf]; exact (conj Hh (Hf eq_refl))|].
  eapply triple_post; [|apply (triple_keeps allowed P F b _ HF Hb)]. naive_solver.
Qed.
Lemma keeps_establishes {A} P (m : proc (result string A)) :
  keeps allowed P m → triple allowed P m (λ r h, P h ∧ (is_ok r = true → True)).
Proof. apply triple_post. naive_solver. Qed.

Lemma mandatory_secrets_hidden home root :
  triple allowed private_mounts (mask_mandatory_secrets home root)
    (λ r h, private_mounts h ∧ (r = Ok tt → (∀ p, p ∈ mandatory_secrets home root → hidden p h)
                                          ∧ (∀ p, p ∈ get_dangerous_unix_sockets → hidden p h))).
Proof.
  assert (∀ ps : list path, stable (λ h, ∀ p, p ∈ ps → hidden p h)) as Hs.
  { intros ps h h' Hh Hp p Hin. eapply hidden_stable; [exact Hh|]. by apply Hp. }
  unfold mask_mandatory_secrets. apply and_then_establishes; [apply Hs| |].
  { apply each_establishes; [apply private_stable|apply hidden_stable|apply mask_if_exists_hides]. }
  eapply triple_post; [|apply (and_then_establishes private_mounts (λ h, ∀ p, p ∈ get_dangerous_unix_sockets → hidden p h) (λ _, True)); [apply (Hs get_dangerous_unix_sockets)| |]].
  - naive_solver.
  - apply each_establishes; [apply private_stable|apply hidden_stable|apply mask_file_if_exists_hides].
  - eapply triple_post; [|apply keeps_and_then; [apply keep_proc_sys_readonly|apply keeps_and_then; [apply keep_devpts|]]]; [naive_solver|].
    unfold mask_host_proc_sys. apply keeps_each. intros. apply keep_mask_if_exists.
Qed.

Lemma restricted_proc_mounted :
  triple allowed private_mounts mount_restricted_proc
    (λ r h, private_mounts h ∧ (is_ok r = true → ∃ o, achieved [proc_mount o] h)).
Proof.
  assert (∀ o, triple allowed private_mounts (mount_proc o) (λ r h, private_mounts h ∧ (r = Ok tt → achieved [proc_mount o] h))) as Hm.
  { intros o. unfold mount_proc. eapply triple_bind; [apply triple_call; [apply private_stable|intros; by apply mounts_allowed]|].
    intros a. apply triple_ret. intros h [Hh Ha]. split; [done|]. destruct (Z.eqb_spec a 0) as [->|]; [|done]. intros _. by apply Ha. }
  unfold mount_restricted_proc. eapply triple_bind; [apply Hm|]. intros r.
  eapply triple_bind with (R := λ v h, private_mounts h ∧ (is_ok v = true → ∃ o, achieved [proc_mount o] h)).
  - destruct r as [[]|[first errno]]; [apply triple_ret; intros h [Hh Ha]; split; [done|]; eauto|].
    destruct (hidepid_unsupported errno); [|apply triple_ret; intros h [Hh _]; by split].
    eapply triple_pre; [by intros h [Hh _]|]. eapply triple_bind; [apply Hm|].
    intros [[]|[second ?]]; apply triple_ret; intros h [Hh Ha]; (split; [done|]); [|done]. intros _. eauto.
  - intros [v|e]; [|apply triple_ret; intros h [Hh _]; by split].
    eapply triple_bind; [|intros u; apply triple_ret; intros h Hh; exact Hh].
    assert (stable (λ h, ∃ o, achieved [proc_mount o] h)) as Hst by (intros h h' Hh [o Ho]; exists o; by eapply achieved_stable).
    eapply triple_pre; [|eapply triple_post; [|apply (triple_keeps allowed private_mounts _ _ (λ _, private_mounts) Hst keep_proc_sys_readonly)]].
    + intros h [Hh Ho]. split; [done|]. by apply Ho.
    + intros _ h [Hh Ho]. by split.
Qed.
End Facts.
