(* ===== verification/Child.v ===== *)
(** * Child: the processes that become the agent

    Model of the child side of [src/src/sandbox/linux/mod.rs] ([child_full], [child_b],
    [child_relay], [child_fs_only], [child_seccomp_only] and their helpers), of
    [limits.rs] and of the installation of the filter ([seccomp_netblock.rs]): what a forked
    process does up to the [execve] of the agent.  The log of a run follows one bloodline,
    from the helper through the supervisor to the agent. *)

From stdpp Require Import sorting.
From S2P Require Import Prelude Paths PolicyTypes Globs Landlock Seccomp Termination Lifecycle CredBroker Syscalls Mounts.

(** ** Ceilings ([limits.rs]) *)

Definition RLIM_INFINITY : Z := u64_max.

(** [str::parse::<i32>]. *)
Definition parse_i32 (s : string) : option Z :=
  match strip_prefix "-" s with
  | Some d => if starts_with d "+" then None else Z.opp <$> from_str_radix 10 (2 ^ 31) d
  | None => from_str_radix 10 (2 ^ 31 - 1) s
  end.
Definition clamp (lo hi x : Z) : Z := Z.min hi (Z.max lo x).

Definition IOPRIO_CLASS_NONE : Z := 0.
Definition IOPRIO_CLASS_RT : Z := 1.
Definition IOPRIO_CLASS_BE : Z := 2.
Definition IOPRIO_CLASS_IDLE : Z := 3.
Definition ioprio_prio_value (class data : Z) : Z := Z.lor (Z.shiftl class 13) (Z.land data 0x1fff).

(** The class and the priority a text asks for. *)
Definition io_class (spec : string) : option (Z * Z) :=
  let level := clamp 0 7 (default 4 (nth_error (split_char ":" spec) 1 ≫= parse_i32)) in
  if String.eqb spec "idle" then Some (IOPRIO_CLASS_IDLE, 0)
  else if String.eqb spec "best-effort" || String.eqb spec "be" then Some (IOPRIO_CLASS_BE, 4)
  else if String.eqb spec "realtime" || String.eqb spec "rt" then Some (IOPRIO_CLASS_RT, 4)
  else if String.eqb spec "none" then Some (IOPRIO_CLASS_NONE, 0)
  else if starts_with spec "best-effort:" || starts_with spec "be:" then Some (IOPRIO_CLASS_BE, level)
  else if starts_with spec "realtime:" || starts_with spec "rt:" then Some (IOPRIO_CLASS_RT, level)
  else None.

Definition SECUREBITS : Z := 0x0f.

(** [WIFEXITED] and the like on a wait status. *)
Definition decode_status (status : Z) : Z :=
  let sig := Z.land status 0x7f in
  if sig =? 0 then Z.land (Z.shiftr status 8) 0xff
  else if negb (sig =? 0x7f) then - sig
  else -1.
Definition exit_byte (code : Z) : Z := if code <? 0 then 128 - code else code.

(** The ranges [close_all_except] closes: everything from 3 that is not kept. *)
Fixpoint insert_fd (fd : Z) (l : list Z) : list Z :=
  match l with
  | [] => [fd]
  | x :: l => if fd <? x then fd :: x :: l else if fd =? x then x :: l else x :: insert_fd fd l
  end.
Definition sort_fds (fds : list Z) : list Z := foldr insert_fd [] fds.
Fixpoint close_ranges (cur : Z) (keep : list Z) : list (Z * Z) :=
  match keep with
  | [] => [(cur, u32_max)]
  | fd :: keep => (if cur <? fd then [(cur, fd - 1)] else []) ++ close_ranges (fd + 1) keep
  end.

Fixpoint skip_bytes (n : nat) (s : string) : string :=
  match n, s with S n, String _ s => skip_bytes n s | _, _ => s end.

Definition stdio_fds (stdio : StdioMode) : list Z :=
  match stdio with Pty slave_fd => [slave_fd] | Captured stdout_w stderr_w => [stdout_w; stderr_w] | Inherit => [] end.
Definition fd_list (o : option Z) : list Z := match o with Some fd => [fd] | None => [] end.

Section Child.
Context `{Machine} `{Libc}.
Variable arch : target_arch.
(** The text of an error of the Landlock code. *)
Variable landlock_error : LandlockError → string.

(** ** Helpers of every child *)

Definition child_exit {A} (code : Z) : proc A := _ ← sys (Exit EXIT_FAIL_CLOSED); replace_image.

Fixpoint write_rest (fuel : nat) (fd : Z) (buf : string) : proc unit :=
  match fuel with
  | O => mret tt
  | S fuel =>
      if is_empty buf then mret tt
      else n ← sys (Write fd buf);
           if 0 <? n then write_rest fuel fd (skip_bytes (Z.to_nat n) buf) else mret tt
  end.
Definition child_write_all (fd : Z) (buf : string) : proc unit := write_rest (String.length buf) fd buf.
Definition child_fail {A} (err_w code : Z) (msg : string) : proc A :=
  _ ← child_write_all err_w ("E:" +:+ msg +:+ ch1 10); child_exit code.
(** [if let Err(e) = m { child_fail(err_w, code, what + e) }]. *)
Definition or_fail {A} (err_w code : Z) (what : string) (m : proc (result string A)) : proc A :=
  r ← m; match r with Ok a => mret a | Err e => child_fail err_w code (what +:+ e) end.

Definition close_range (first last : Z) : proc unit := if last <? first then mret tt else sys_ (CloseRange first last).
Definition close_all_except (keep : list Z) : proc unit :=
  each_ (λ r : Z * Z, close_range r.1 r.2) (close_ranges 3 (sort_fds keep)).

Definition child_pdeathsig (parent_pid : Z) : proc unit :=
  a ← sys SetPdeathsig;
  if negb (a =? 0) then child_exit EXIT_FAIL_CLOSED
  else p ← sys Getppid; if negb (p =? parent_pid) then child_exit EXIT_FAIL_CLOSED else mret tt.

Definition apply_one (resource : string) (value : option Z) : proc (result string unit) :=
  match value with
  | None => mret (Ok tt)
  | Some target =>
      current ← look (λ h, hard_limit h resource);
      match current with
      | Err e => mret (Err ("getrlimit(" +:+ resource +:+ "): " +:+ os_error e))
      | Ok rlim_max =>
          let effective_max := Z.min rlim_max target in
          must (Setrlimit resource effective_max effective_max)
            (λ e, "setrlimit(" +:+ resource +:+ ", " +:+ to_dec effective_max +:+ "): " +:+ e)
      end
  end.
Definition ceilings (limits : ResourceLimits) : list (string * option Z) :=
  [("RLIMIT_CPU", cpu_seconds limits); ("RLIMIT_AS", address_space_bytes limits); ("RLIMIT_NPROC", processes limits);
   ("RLIMIT_NOFILE", open_files limits); ("RLIMIT_FSIZE", file_size_bytes limits)].
Definition apply_before_exec (limits : ResourceLimits) : proc (result string unit) :=
  each (λ c : string * option Z, apply_one c.1 c.2) (ceilings limits).
Definition apply_ipc_resource_ceilings (max_msgqueue_bytes max_memlock_bytes : option Z) : proc (result string unit) :=
  and_then (apply_one "RLIMIT_MSGQUEUE" max_msgqueue_bytes) (apply_one "RLIMIT_MEMLOCK" max_memlock_bytes).

Definition apply_io_priority (priority_spec : option string) : proc (result string unit) :=
  match priority_spec with
  | None => mret (Ok tt)
  | Some spec =>
      let spec := to_ascii_lowercase (trim spec) in
      match io_class spec with
      | None => mret (Err ("invalid io_priority spec '" +:+ spec +:+ "'"))
      | Some (class, data) => must (IoprioSet (ioprio_prio_value class data)) (λ e, "ioprio_set(" +:+ spec +:+ "): " +:+ e)
      end
  end.

Definition install_child_ceilings (policy : Policy) (err_w : Z) : proc unit :=
  _ ← sys_ (Setrlimit "RLIMIT_CORE" 0 0);
  _ ← or_fail err_w 126 "resource limits failed: " (apply_before_exec (limits policy));
  or_fail err_w 126 "io priority failed: " (apply_io_priority (io_priority policy)).

Definition install_child_session_and_ceilings (policy : Policy) (stdio : StdioMode) (err_w : Z) : proc unit :=
  _ ← match stdio with
      | Pty _ => a ← sys Setsid; if a <? 0 then child_fail err_w 125 ("setsid: " +:+ os_error (- a)) else mret tt
      | _ => a ← sys Setpgid;
             if a <? 0 then child_fail err_w 125 ("setpgid: " +:+ os_error (- a)) else sys_ DefaultSignals
      end;
  install_child_ceilings policy err_w.

Definition drop_bound (capability : Z) : proc (result string unit) :=
  a ← sys (DropBound capability);
  mret (if negb (a =? 0) && negb (a =? - EINVAL)
        then Err ("drop capability " +:+ to_dec capability +:+ " from bounding set: " +:+ os_error (- a)) else Ok tt).
Definition dumpable (observe : bool) : Z := if observe then 1 else 0.
Definition drop_agent_capabilities (observe : bool) : proc (result string unit) :=
  and_then (must (SetSecurebits SECUREBITS) (λ e, "lock securebits: " +:+ e))
  (and_then (each drop_bound (seqZ 0 64))
  (and_then (must ClearAmbient (λ e, "clear ambient capabilities: " +:+ e))
  (and_then (must ClearCaps (λ e, "clear capability sets: " +:+ e))
  (must (SetDumpable (dumpable observe)) (λ e, "set PR_SET_DUMPABLE (" +:+ to_dec (dumpable observe) +:+ "): " +:+ e))))).

(** [apply_policy_advanced] with the kernel of this process; the error by its text. *)
Definition apply_landlock (policy : Policy) (strip_read_on_write : bool) : proc (result string unit) := λ h,
  let '(cs, r) := apply_policy_advanced (fs_exists h) (fs_is_dir h) (fs_open h) (landlock_kernel h) (abi_version h)
    (allow_write policy) (allow_read policy) strip_read_on_write (net_bind_ports policy) (net_connect_ports policy)
    (deny_network policy) [] in
  (with_calls h cs, Ret (match r with Ok _ => Ok tt | Err e => Err (landlock_error e) end)).

(** There always is a program ([Seccomp.filter_implements_decision]). *)
Definition install_for_profile (socket_policy : SocketPolicy) (profile : SeccompProfile) : proc (result string unit) :=
  and_then (must NoNewPrivs (λ e, "PR_SET_NO_NEW_PRIVS: " +:+ e))
    match build_program_for_profile arch socket_policy profile with
    | Some program => must (SetSeccomp program) (λ e, "SECCOMP_MODE_FILTER: " +:+ e +:+ " (CONFIG_SECCOMP_FILTER disabled?)")
    | None => mret (Err "jump out of range")
    end.

Definition dup2_to (fd target : Z) : proc (result string unit) :=
  a ← sys (Dup2 fd target);
  mret (if 0 <=? a then Ok tt else Err ("dup2(" +:+ to_dec fd +:+ ", " +:+ to_dec target +:+ "): " +:+ os_error (- a))).
Definition dup2_all (fd : Z) : proc (result string unit) := and_then (dup2_to fd 0) (and_then (dup2_to fd 1) (dup2_to fd 2)).

Definition child_stdio_setup (stdio : StdioMode) : proc (result string unit) :=
  match stdio with
  | Pty slave_fd =>
      a ← sys (ControllingTty slave_fd);
      if negb (a =? 0) then mret (Err ("TIOCSCTTY: " +:+ to_dec (- a))) else dup2_all slave_fd
  | Captured stdout_w stderr_w =>
      t ← sys (IsTty 0);
      _ ← (if t =? 1 then
             devnull ← sys OpenNull;
             if 0 <=? devnull then _ ← dup2_to devnull 0; sys_ (Close devnull) else mret tt
           else mret tt);
      and_then (dup2_to stdout_w 1) (dup2_to stderr_w 2)
  | Inherit => mret (Ok tt)
  end.

(** ** The agent *)

Definition has_nul (s : string) : bool := contains_char s (chr 0).

(** The environment of the agent: what the policy lets through and the extra variables,
    both without the variables of the credential broker. *)
Definition agent_environment (policy : Policy) (opts : SpawnOptions) : gmap string string :=
  let env := filter (λ kv, env_allows (environment policy) kv.1 = true) environ in
  let env := filter_proxy_secrets env (secret_proxies policy) in
  let env := spawn_env opts ∪ env in
  let env := filter_proxy_secrets env (secret_proxies policy) in
  filter (λ kv, has_nul kv.1 || has_nul kv.2 = false) env.

Definition child_exec {A} (policy : Policy) (opts : SpawnOptions) : proc A :=
  if existsb has_nul (agent_cmd opts) then child_exit 127
  else
    let envp := agent_environment policy opts in
    match agent_cmd opts with
    | [] => child_exit 127
    | prog :: _ =>
        _ ← (if bool_decide (spawn_cwd opts = []) then mret tt
             else a ← sys (Chdir (spawn_cwd opts)); if a =? 0 then mret tt else child_exit 117);
        r ← sys (Execve prog (agent_cmd opts) envp);
        if 0 <=? r then replace_image
        else _ ← sys_ (Write 2 ("[vetto-child] execve failed r=-1 errno=" +:+ to_dec (- r) +:+ ch1 10)); child_exit 127
    end.

(** What is left to do once the confinement is complete. *)
Definition report_and_exec {A} (err_w : Z) (policy : Policy) (opts : SpawnOptions) : proc A :=
  _ ← child_write_all err_w "R"; _ ← close_all_except [0; 1; 2]; child_exec policy opts.

Definition notify_parent (notif_child : option Z) : proc unit :=
  match notif_child with Some nc => _ ← child_write_all nc "N"; sys_ (Close nc) | None => mret tt end.

(** ** Tiers FS-ONLY and SECCOMP *)

Record FsChildArgs : Type := mk_fs_args {
  fa_parent_pid : Z;
  fa_err_w : Z;
  fa_notif_child : option Z;
  fa_observe : bool;
  fa_net_off : bool;
}.

Definition single_fork_prologue (a : FsChildArgs) (policy : Policy) (opts : SpawnOptions) : proc unit :=
  _ ← close_all_except ([0; 1; 2; fa_err_w a] ++ fd_list (fa_notif_child a) ++ stdio_fds (spawn_stdio opts));
  _ ← child_pdeathsig (fa_parent_pid a);
  install_child_session_and_ceilings policy (spawn_stdio opts) (fa_err_w a).
Definition single_fork_epilogue (a : FsChildArgs) (policy : Policy) (opts : SpawnOptions) : proc unit :=
  _ ← notify_parent (fa_notif_child a);
  _ ← or_fail (fa_err_w a) 124 "stdio: " (child_stdio_setup (spawn_stdio opts));
  _ ← (if bool_decide (spawn_cwd opts = []) then mret tt
       else r ← sys (Chdir (spawn_cwd opts));
            if r =? 0 then mret tt
            else child_fail (fa_err_w a) 117 ("chdir " +:+ to_str (spawn_cwd opts) +:+ ": " +:+ os_error (- r)));
  report_and_exec (fa_err_w a) policy opts.

Definition child_fs_only (a : FsChildArgs) (policy : Policy) (opts : SpawnOptions) : proc unit :=
  _ ← single_fork_prologue a policy opts;
  _ ← or_fail (fa_err_w a) 120 "" (apply_landlock policy true);
  _ ← (if fa_net_off a then or_fail (fa_err_w a) 123 "network block: " (install_for_profile UnixOnly (seccomp_profile policy))
       else mret tt);
  single_fork_epilogue a policy opts.

Definition child_seccomp_only (a : FsChildArgs) (policy : Policy) (opts : SpawnOptions) : proc unit :=
  _ ← single_fork_prologue a policy opts;
  _ ← or_fail (fa_err_w a) 123 "seccomp filter: " (install_for_profile UnixOnly (seccomp_profile policy));
  single_fork_epilogue a policy opts.

(** ** Tier FULL: the relay *)

Definition child_relay {A} (relay_end s_pid port : Z) : proc A :=
  _ ← child_pdeathsig s_pid;
  _ ← close_all_except [relay_end];
  devnull ← sys OpenNull;
  if devnull <? 0 then child_exit 111
  else
    r ← dup2_all devnull;
    match r with
    | Err _ => child_exit 111
    | Ok _ => _ ← sys_ (Close devnull); _ ← sys_ (ServeRelay relay_end port); replace_image
    end.

(** ** Tier FULL: the supervisor, process 1 of the namespace *)

Definition SIGKILL : Z := 9.
Definition ECHILD : Z := 10.

(** Reaps what is done; the code of the agent so far. *)
Fixpoint reap_ready (fuel : nat) (c_pid c_code : Z) : proc Z :=
  match fuel with
  | O => still_running
  | S fuel =>
      r ← sys (Waitpid (-1) false);
      if r =? c_pid then
        c_code ← look (λ h, decode_status (buffer h));
        other_r ← sys (Waitpid (-1) false);
        c_code ← (if 0 <=? other_r
                  then _ ← sys_ (Write 2 "vetto: agent attempted to spawn a detached daemon in an isolated PID namespace. Use foreground mode flags.");
                       mret EXIT_FAIL_CLOSED
                  else mret c_code);
        _ ← sys_ (Kill (-1) SIGKILL);
        reap_ready fuel c_pid c_code
      else if 0 <? r then reap_ready fuel c_pid c_code
      else if (r <? 0) && (r =? - ECHILD) then child_exit (exit_byte c_code)
      else mret c_code
  end.
Fixpoint reap_all (fuel : nat) : proc unit :=
  match fuel with
  | O => still_running
  | S fuel => r ← sys (Waitpid (-1) true); if r <? 0 then mret tt else reap_all fuel
  end.
Definition POLL_EVENTS : Z := Z.lor (Z.lor 1 0x10) 0x8.
Fixpoint supervise (fuel : nat) (alive_r c_pid c_code : Z) : proc unit :=
  match fuel with
  | O => still_running
  | S fuel =>
      c_code ← reap_ready fuel c_pid c_code;
      pr ← sys (Poll alive_r 50);
      revents ← look buffer;
      if (0 <? pr) && negb (Z.land revents POLL_EVENTS =? 0) then
        n ← sys (ReadByte alive_r);
        if n =? 0 then
          _ ← sys_ (Kill (-1) SIGKILL);
          _ ← reap_all fuel;
          child_exit (exit_byte c_code)
        else supervise fuel alive_r c_pid c_code
      else supervise fuel alive_r c_pid c_code
  end.

Record FullChildArgs : Type := mk_full_args {
  parent_pid : Z;
  err_w : Z;
  map_w : Z;
  ack_r : Z;
  alive_r : Z;
  relay_end : option Z;
  notif_child : option Z;
  full_relay_port : option Z;
  full_observe : bool;
}.

(** The agent, forked by the supervisor. *)
Definition child_c {A} (a : FullChildArgs) (b_pid : Z) (policy : Policy) (opts : SpawnOptions) (socket_policy : SocketPolicy) : proc A :=
  _ ← child_pdeathsig b_pid;
  _ ← close_all_except ([0; 1; 2; err_w a] ++ fd_list (notif_child a) ++ stdio_fds (spawn_stdio opts));
  _ ← match spawn_stdio opts with
      | Pty _ => r ← sys Setsid; if r <? 0 then child_fail (err_w a) 125 "setsid failed" else mret tt
      | _ => sys_ DefaultSignals
      end;
  _ ← or_fail (err_w a) 124 "stdio: " (child_stdio_setup (spawn_stdio opts));
  _ ← or_fail (err_w a) 125 "drop capabilities: " (drop_agent_capabilities (full_observe a));
  _ ← install_child_ceilings policy (err_w a);
  _ ← notify_parent (notif_child a);
  _ ← or_fail (err_w a) 126 "seccomp hardening: " (install_for_profile socket_policy (seccomp_profile policy));
  report_and_exec (err_w a) policy opts.

Definition close_stdio_fds (stdio : StdioMode) : proc unit :=
  each_ (λ fd, sys_ (Close fd)) (filter (λ fd, 2 < fd) (stdio_fds stdio)).

Definition child_b (fuel : nat) (a : FullChildArgs) (policy : Policy) (opts : SpawnOptions) (socket_policy : SocketPolicy) : proc unit :=
  d ← sys SetPdeathsig;
  _ ← (if negb (d =? 0) then child_exit 113 else mret tt);
  v ← or_fail (err_w a) 115 "restricted /proc: " mount_restricted_proc;
  _ ← match v with
      | HidePid => mret tt
      | Fallback => sys_ (Write 2 ("[vetto-child] /proc hidepid unsupported; private proc fallback" +:+ ch1 10))
      end;
  _ ← or_fail (err_w a) 120 "" (apply_landlock policy false);
  _ ← close_all_except ([0; 1; 2; alive_r a; err_w a] ++ fd_list (notif_child a) ++ stdio_fds (spawn_stdio opts));
  b_pid ← look process_id;
  c_pid ← sys Fork;
  if c_pid <? 0 then child_fail (err_w a) 118 "fork agent failed"
  else if c_pid =? 0 then child_c a b_pid policy opts socket_policy
  else
    _ ← match notif_child a with Some fd => sys_ (Close fd) | None => mret tt end;
    _ ← close_stdio_fds (spawn_stdio opts);
    supervise fuel (alive_r a) c_pid 0.

(** ** Tier FULL: the helper *)

(** The sockets a policy denies, with its variables. *)
Definition custom_socket (home : option string) (cwd sock : string) : path :=
  let s := replace "$PROJECT" cwd sock in
  components match home with
             | Some h => let s := replace "$HOME" h s in
                         match strip_prefix "~/" s with Some rest => h +:+ "/" +:+ rest | None => s end
             | None => s
             end.
Definition custom_socks (policy : Policy) (opts : SpawnOptions) : list path :=
  custom_socket (environ !! "HOME") (to_str (spawn_cwd opts)) <$> deny_unix_sockets policy.
Definition child_home : path := match environ !! "HOME" with Some h => components h | None => components "/nonexistent" end.

(** The network namespace's only way out, forked before the processes are hidden. *)
Definition fork_relay (a : FullChildArgs) : proc unit :=
  match full_relay_port a with
  | None => mret tt
  | Some port =>
      match relay_end a with
      | None => child_fail (err_w a) 115 "relay fd missing for allowlist mode"
      | Some relay_fd =>
          _ ← or_fail (err_w a) 121 "blackhole resolv.conf: " blackhole_resolv_conf;
          s_pid ← look process_id;
          r ← sys Fork;
          if r <? 0 then child_fail (err_w a) 116 "fork relay failed"
          else if r =? 0 then child_relay relay_fd s_pid port
          else sys_ (Close relay_fd)
      end
  end.

Definition enter_user_namespace (a : FullChildArgs) : proc unit :=
  _ ← or_fail (err_w a) 114 "unshare user: " (unshare NewUser);
  my_pid ← look process_id;
  _ ← sys_ (WriteWord (map_w a) my_pid);
  n ← sys (ReadByte (ack_r a));
  ack ← look buffer;
  if negb (n =? 1) || negb (ack =? 0) then child_exit 119
  else _ ← sys_ (Close (map_w a)); sys_ (Close (ack_r a)).

Definition rebuild_mounts (a : FullChildArgs) (policy : Policy) : proc unit :=
  let ok code what m := or_fail (err_w a) code what m in
  _ ← ok 115 "unshare mount: " (unshare NewNs);
  _ ← ok 115 "make root private: " make_root_private;
  _ ← (if snapshot policy || bool_decide (is_Some (environ !! "VETTO_COW_ROOT"))
       then ok 121 "mount root cow overlay: " (mount_root_cow_overlay None) else mret tt);
  _ ← ok 115 "isolate /dev/shm: " isolate_dev_shm;
  _ ← (if tmpfs_tmp policy then ok 115 "isolate /tmp tmpfs: " (isolate_tmp []) else mret tt);
  _ ← ok 115 "mount devpts newinstance: " mount_devpts_newinstance;
  _ ← ok 115 "remount /sys read-only: " remount_sys_readonly;
  _ ← ok 115 "remount /proc/sys read-only: " remount_proc_sys_readonly;
  _ ← ok 115 "mask sensitive proc paths: " mask_sensitive_proc_paths;
  _ ← ok 115 "mount ro caches: " (mount_ro_caches (ro_mounts policy));
  ok 115 "mask restricted devices: " (mask_restricted_devices (dev_allow policy)).

Definition mask_secrets (a : FullChildArgs) (policy : Policy) (opts : SpawnOptions) : proc unit :=
  _ ← each_ (λ entry, or_fail (err_w a) 121 ("mask overlay " +:+ to_str (deny_path entry) +:+ ": ")
                        (mask_path_ (deny_path entry) (deny_is_dir entry))) (deny_resolved policy);
  _ ← or_fail (err_w a) 121 "mask dangerous devices: " mask_dangerous_devices;
  _ ← or_fail (err_w a) 121 "mask secrets: " (mask_mandatory_secrets child_home (Some (spawn_cwd opts)));
  if bool_decide (deny_unix_sockets policy = []) then mret tt
  else or_fail (err_w a) 121 "mask unix sockets: " (mask_unix_sockets (custom_socks policy opts)).

Definition child_full (fuel : nat) (a : FullChildArgs) (policy : Policy) (opts : SpawnOptions) : proc unit :=
  _ ← close_all_except ([0; 1; 2; err_w a; map_w a; ack_r a; alive_r a] ++ fd_list (relay_end a) ++ fd_list (notif_child a)
                        ++ stdio_fds (spawn_stdio opts));
  _ ← child_pdeathsig (parent_pid a);
  _ ← match spawn_stdio opts with Pty _ => mret tt | _ => _ ← sys_ Setpgid; sys_ DefaultSignals end;
  _ ← enter_user_namespace a;
  _ ← rebuild_mounts a policy;
  _ ← or_fail (err_w a) 115 "unshare ipc: " (unshare NewIpc);
  _ ← or_fail (err_w a) 115 "unshare net: " (unshare NewNet);
  _ ← fork_relay a;
  _ ← or_fail (err_w a) 115 "unshare pidns: " (unshare NewPid);
  _ ← mask_secrets a policy opts;
  let socket_policy := match full_relay_port a with Some _ => UnixAndIp | None => UnixOnly end in
  b ← sys Fork;
  if b <? 0 then child_fail (err_w a) 122 "fork supervisor failed"
  else if b =? 0 then child_b fuel a policy opts socket_policy
  else
    _ ← close_all_except [];
    r ← sys (Waitpid b true);
    status ← look buffer;
    child_exit (exit_byte (if r =? b then decode_status status else -1)).
End Child.

(** ** Lemmas: descriptors *)

Lemma sort_fds_spec fds : (∀ fd, fd ∈ sort_fds fds ↔ fd ∈ fds) ∧ StronglySorted Z.lt (sort_fds fds).
Proof.
  assert (∀ x l, (∀ fd, fd ∈ insert_fd x l ↔ fd = x ∨ fd ∈ l) ∧ (StronglySorted Z.lt l → StronglySorted Z.lt (insert_fd x l))) as Hi.
  { intros x l. induction l as [|y l [IHe IHs]]; cbn [insert_fd].
    - split; [intros fd; by rewrite list_elem_of_singleton, elem_of_nil; intuition|]. intros _. by repeat constructor.
    - destruct (Z.ltb_spec x y) as [Hxy|Hxy]; [|destruct (Z.eqb_spec x y) as [->|Hne]].
      + split; [intros fd; by rewrite !elem_of_cons|]. intros Hs. constructor; [done|]. constructor; [done|].
        apply StronglySorted_inv in Hs as [_ Hs]. eapply Forall_impl; [exact Hs|]. cbn. intros. lia.
      + split; [intros fd; rewrite !elem_of_cons; tauto|done].
      + split; [intros fd; rewrite !elem_of_cons, IHe; tauto|]. intros [Hs Hy]%StronglySorted_inv. constructor; [by apply IHs|].
        apply Forall_forall. intros z [->|Hz]%IHe; [lia|]. rewrite Forall_forall in Hy. by apply Hy. }
  induction fds as [|x fds [IHe IHs]]; cbn [sort_fds foldr]; [split; [done|constructor]|].
  destruct (Hi x (sort_fds fds)) as [He Hs]. split; [|by apply Hs]. intros fd. rewrite He, IHe, elem_of_cons. done.
Qed.

Definition in_ranges (fd : Z) (rs : list (Z * Z)) : Prop := ∃ r, r ∈ rs ∧ r.1 ≤ fd ≤ r.2.
Lemma close_ranges_spec cur keep fd :
  StronglySorted Z.lt keep → Forall (λ k, cur ≤ k ≤ u32_max) keep →
  in_ranges fd (close_ranges cur keep) ↔ cur ≤ fd ≤ u32_max ∧ fd ∉ keep.
Proof.
  revert cur. induction keep as [|k keep IH]; intros cur Hs Hc; cbn [close_ranges].
  - split; [intros (r & ->%list_elem_of_singleton & Hr); split; [done|by intros ?%elem_of_nil]|].
    intros [Hfd _]. exists (cur, u32_max). split; [left|done].
  - apply StronglySorted_inv in Hs as [Hs Hk]. apply Forall_cons in Hc as [Hck Hc]. rewrite Forall_forall in Hk, Hc.
    assert (Forall (λ x, k + 1 ≤ x ≤ u32_max) keep) as Hk'.
    { apply Forall_forall. intros x Hx. specialize (Hk x Hx). specialize (Hc x Hx). cbn in *. lia. }
    specialize (IH (k + 1) Hs Hk').
    assert (∀ rs, in_ranges fd ((if cur <? k then [(cur, k - 1)] else []) ++ rs) ↔ cur ≤ fd < k ∨ in_ranges fd rs) as Happ.
    { intros rs. unfold in_ranges. destruct (Z.ltb_spec cur k); cbn [app].
      - split; [intros (r & [->|Hr]%elem_of_cons & Hfd); [left; cbn in Hfd; lia|right; by exists r]|].
        intros [Hfd|(r & Hr & Hfd)]; [exists (cur, k - 1); split; [left|cbn; lia]|exists r; split; [by right|done]].
      - split; [by right|]. intros [?|?]; [lia|done]. }
    rewrite Happ, IH, elem_of_cons. split.
    + intros [Hfd|[Hfd Hin]]; (split; [lia|]); intros [->|Hin']; try lia; try done. specialize (Hk fd Hin'). cbn in Hk. lia.
    + intros [Hfd Hin]. apply Decidable.not_or in Hin as [Hne Hin]. destruct (Z.lt_ge_cases fd k); [left; lia|]. right.
      split; [lia|done].
Qed.

(** [close_all_except] is exact: of the descriptors above standard error it closes those
    that are not kept, and it closes nothing that is kept. *)
Theorem close_all_exact keep fd :
  Forall (λ k, 3 ≤ k ≤ u32_max) keep →
  in_ranges fd (close_ranges 3 (sort_fds ([0; 1; 2] ++ keep))) ↔ 3 ≤ fd ≤ u32_max ∧ fd ∉ keep.
Proof.
  intros Hk. destruct (sort_fds_spec keep) as [He Hs].
  assert (sort_fds ([0; 1; 2] ++ keep) = [0; 1; 2] ++ sort_fds keep) as ->.
  { cbn [app sort_fds foldr]. change (foldr insert_fd [] keep) with (sort_fds keep).
    assert (∀ x, x ∈ sort_fds keep → 3 ≤ x) as Hx by (intros x Hx; apply He in Hx; rewrite Forall_forall in Hk; by apply Hk).
    destruct (sort_fds keep) as [|x l]; [done|]. specialize (Hx x (list_elem_of_here _ _)). cbn.
    by rewrite !(proj2 (Z.ltb_lt _ _)) by lia. }
  change (close_ranges 3 ([0; 1; 2] ++ sort_fds keep)) with (close_ranges 3 (sort_fds keep)).
  rewrite close_ranges_spec; [by rewrite He|done|]. apply Forall_forall. intros x Hx%He. rewrite Forall_forall in Hk. by apply Hk.
Qed.

(** ** Lemmas: what every child keeps *)

Definition quiet_text (s : string) : Prop := ∀ n, skip_bytes n s ≠ "R".
Lemma skip_skip m n s : skip_bytes m (skip_bytes n s) = skip_bytes (n + m) s.
Proof. revert s. induction n as [|n IH]; intros s; [done|]. destruct s as [|c s]; [by destruct m|]. apply IH. Qed.
Lemma newline_quiet s : quiet_text (s +:+ ch1 10).
Proof.
  intros n. revert n. induction s as [|c s IH]; intros n E.
  - destruct n as [|[|n]]; discriminate E.
  - destruct n as [|n]; cbn in E; [|by apply (IH n)]. injection E as _ E. by destruct s.
Qed.

Section ChildFacts.
Context `{Machine} `{Libc} (arch : target_arch) (landlock_error : LandlockError → string).
Context (policy : Policy) (opts : SpawnOptions) (allowed : Log → Syscall → Prop).
Hypothesis own_allowed : ∀ h c, own_call c = true → allowed h c.
Hypothesis write_allowed : ∀ h fd t, t ≠ "R" → allowed h (Write fd t).

Section Keeping.
Context (P : Log → Prop) (P_stable : stable P).
Local Abbreviation keep m := (keeps allowed P m).

Lemma keep_call c : own_call c = true → keep (sys c).
Proof. intros Hc. apply keeps_sys; [done|]. intros. by apply own_allowed. Qed.
Lemma keep_write fd t : quiet_text t → keep (child_write_all fd t).
Proof.
  unfold child_write_all. generalize (String.length t). intros fuel. revert t. induction fuel as [|fuel IH]; intros t Ht; [apply keeps_ret|].
  cbn [write_rest]. destruct (is_empty t); [apply keeps_ret|]. apply keeps_bind.
  - apply keeps_sys; [done|]. intros. apply write_allowed. apply (Ht 0%nat).
  - intros n. destruct (0 <? n); [|apply keeps_ret]. apply IH. intros k. rewrite skip_skip. apply Ht.
Qed.
Lemma keep_message fd s : keep (sys_ (Write fd (s +:+ ch1 10))).
Proof. apply keeps_sys_; [done|]. intros. apply write_allowed, (newline_quiet s 0%nat). Qed.
End Keeping.

Lemma stops_exit {A} P code (Q : A → Log → Prop) : triple allowed P (child_exit code) Q.
Proof. apply triple_exit. intros. by apply own_allowed. Qed.
Lemma stops_fail {A} P err code msg (Q : A → Log → Prop) : triple allowed P (child_fail err code msg) Q.
Proof.
  eapply (triple_pre _ P (λ _, True)); [done|]. unfold child_fail. eapply triple_bind; [|intros; apply stops_exit].
  rewrite <-string_app_assoc. apply (keep_write (λ _, True)); [apply stable_const|apply newline_quiet].
Qed.
Lemma or_fail_ok {A} P err code what (m : proc (result string A)) Q :
  triple allowed P m (ok_post Q) → triple allowed P (or_fail err code what m) Q.
Proof.
  intros Hm. unfold or_fail. eapply triple_bind; [exact Hm|]. intros [a|e]; [by apply triple_ret|apply stops_fail].
Qed.
Lemma or_fail_keeps {A} P err code what (m : proc (result string A)) : keeps allowed P m → keeps allowed P (or_fail err code what m).
Proof. intros Hm. apply or_fail_ok. eapply triple_post; [|exact Hm]. by intros [a|e]. Qed.

(** Step through a process of calls on itself. *)
Ltac owns_step :=
  match goal with
  | |- keeps _ _ (sys _) => apply keep_call; [assumption|reflexivity]
  | |- keeps _ _ (sys_ _) => unfold sys_
  | |- keeps _ _ (must _ _) => unfold must
  | |- keeps _ _ (mret _) => apply keeps_ret
  | |- keeps _ _ (look _) => apply keeps_look
  | |- keeps _ _ (child_exit _) => apply stops_exit
  | |- keeps _ _ (child_fail _ _ _) => apply stops_fail
  | |- keeps _ _ (or_fail _ _ _ _) => apply or_fail_keeps
  | |- keeps _ _ still_running => apply triple_still
  | |- keeps _ _ (_ ≫= _) => apply keeps_bind; [|intros ?]
  | |- keeps _ _ (each _ _) => apply keeps_each; intros ?
  | |- keeps _ _ (each_ _ _) => apply keeps_each_; intros ?
  | |- keeps _ _ (and_then _ _) => apply keeps_and_then
  | |- keeps _ _ (match ?x with _ => _ end) => destruct x
  end.
Ltac owns := repeat first [assumption|solve [auto 1 with owns]|owns_step].

Section Steps.
Context (P : Log → Prop) (P_stable : stable P).
Local Abbreviation keep m := (keeps allowed P m).

Lemma keep_close_all fds : keep (close_all_except fds).
Proof. unfold close_all_except, close_range. owns. Qed.
Lemma keep_pdeathsig pid : keep (child_pdeathsig pid).
Proof. unfold child_pdeathsig. owns. Qed.
Lemma keep_apply_one r v : keep (apply_one r v).
Proof. unfold apply_one. owns. Qed.
Lemma keep_io_priority p : keep (apply_io_priority p).
Proof. unfold apply_io_priority. cbv zeta. owns. Qed.
Lemma keep_dup2 a b : keep (dup2_to a b).
Proof. unfold dup2_to. owns. Qed.
Lemma keep_stdio s : keep (child_stdio_setup s).
Proof. unfold child_stdio_setup, dup2_all. owns; apply keep_dup2. Qed.
Lemma keep_notify n : keep (notify_parent n).
Proof.
  unfold notify_parent. owns. apply keep_write; [done|]. intros [|[|k]]; cbn; congruence.
Qed.
Lemma keep_reap fuel c code : keep (reap_ready fuel c code).
Proof.
  revert code. induction fuel as [|fuel IH]; intros code; cbn [reap_ready]; [owns|].
  apply keeps_bind; [owns|]. intros r. destruct (r =? c); [|owns; apply IH].
  apply keeps_bind; [owns|]. intros c1. apply keeps_bind; [owns|]. intros o. apply keeps_bind.
  - destruct (0 <=? o); [|owns]. apply keeps_bind; [|intros; owns]. apply keeps_sys_; [done|]. intros. by apply write_allowed.
  - intros c2. apply keeps_bind; [owns|]. intros _. apply IH.
Qed.
Lemma keep_reap_all fuel : keep (reap_all fuel).
Proof. induction fuel as [|fuel IH]; cbn [reap_all]; owns. Qed.
Lemma supervise_stops fuel alive c code (Q : unit → Log → Prop) : triple allowed P (supervise fuel alive c code) Q.
Proof.
  revert code. induction fuel as [|fuel IH]; intros code; cbn [supervise]; [apply triple_still|].
  eapply triple_bind; [apply keep_reap|intros c1]. eapply triple_bind; [by apply keep_call|intros pr].
  eapply triple_bind; [apply keeps_look|intros revents]. destruct (_ && _); [|apply IH].
  eapply triple_bind; [by apply keep_call|intros n]. destruct (n =? 0); [|apply IH].
  eapply triple_bind; [apply keeps_sys_; auto|intros ?]. eapply triple_bind; [apply keep_reap_all|intros ?]. apply stops_exit.
Qed.
End Steps.

(** ** Lemmas: ceilings, Landlock, the filter and the agent *)

(** The limits of the policy are in force, or stricter ones. *)
Definition limited (h : Log) : Prop :=
  ∀ r v, (r, Some v) ∈ ceilings (limits policy) → ∃ l, l ≤ v ∧ achieved [Setrlimit r l l] h.
Definition at_most (c : string * option Z) (h : Log) : Prop := ∀ v, c.2 = Some v → ∃ l, l ≤ v ∧ achieved [Setrlimit c.1 l l] h.
Lemma at_most_stable c : stable (at_most c).
Proof. intros h h' Hh Hc v Hv. destruct (Hc v Hv) as (l & Hl & Ha). exists l. split; [done|]. by eapply achieved_stable. Qed.

Lemma ceilings_apply ms F :
  stable F → triple allowed (stage ms F) (apply_before_exec (limits policy)) (ok_post (λ _, stage ms (λ h, F h ∧ limited h))).
Proof.
  intros HF. eapply triple_post; [|apply (stage_fact allowed (λ _, True) ms F (λ h, ∀ c, c ∈ ceilings (limits policy) → at_most c h)); [done|done|]].
  - intros [[]|e] h; [|done]. intros [Ha [Hf Hc]]. split; [done|]. split; [done|]. intros r v Hin. by apply (Hc (r, Some v)).
  - unfold apply_before_exec. apply each_establishes; [apply stable_const|apply at_most_stable|]. intros [r [v|]]; cbn [apply_one fst snd].
    + apply triple_look_bind. intros [cur|e]; [|apply triple_ret; intros h [_ _]; by split].
      apply (triple_pre _ _ (λ _, True)); [done|].
      eapply triple_post; [|apply (must_establishes allowed (λ _, True)); [apply stable_const|intros; by apply own_allowed|done]].
      intros res h [_ Ha]. split; [done|]. intros Hr v' [= <-]. eexists. split; [|by apply Ha]. lia.
    + apply triple_ret. intros h _. by split.
Qed.

Lemma ceilings_installed ms F err :
  stable F → triple allowed (stage ms F) (install_child_ceilings policy err) (λ _, stage ms (λ h, F h ∧ limited h)).
Proof.
  intros HF. assert (stable limited) as Hl.
  { intros h h' Hh Hc r v Hin. destruct (Hc r v Hin) as (l & ? & ?). exists l. split; [done|]. by eapply achieved_stable. }
  unfold install_child_ceilings. eapply triple_bind; [apply keeps_sys_; [by apply stage_stable|intros; by apply own_allowed]|intros ?].
  eapply triple_bind; [apply or_fail_ok; by apply ceilings_apply|intros ?].
  apply or_fail_keeps, keep_io_priority, stage_stable. by apply stable_and.
Qed.

(** Landlock was applied for the policy, and took effect. *)
Definition landlocked (strip : bool) (h : Log) : Prop :=
  ∃ h0 cs, apply_policy_advanced (fs_exists h0) (fs_is_dir h0) (fs_open h0) (landlock_kernel h0) (abi_version h0)
      (allow_write policy) (allow_read policy) strip (net_bind_ports policy) (net_connect_ports policy) (deny_network policy) []
    = (cs, Ok tt) ∧ with_calls h0 cs `prefix_of` h.
Lemma landlocked_stable strip : stable (landlocked strip).
Proof. intros h h' Hh (h0 & cs & ? & ?). exists h0, cs. split; [done|]. by etrans. Qed.

Lemma with_calls_app h cs ds : with_calls h (cs ++ ds) = with_calls (with_calls h cs) ds.
Proof. unfold with_calls. by rewrite fold_left_app. Qed.
Lemma with_calls_lawful h cs : lawful allowed h → h `prefix_of` with_calls h cs ∧ lawful allowed (with_calls h cs).
Proof.
  revert h. induction cs as [|c cs IH]; intros h Hl; [done|]. change (with_calls h (c :: cs)) with (with_calls (with_calls h [c]) cs).
  assert (lawful allowed (with_calls h [c])) as Hl1 by (cbn; apply lawful_snoc; [done|by apply own_allowed]).
  destruct (IH _ Hl1) as [Hp ?]. split; [|done]. etrans; [|exact Hp]. cbn. by eexists.
Qed.

Lemma landlock_applied ms F strip :
  stable F →
  triple allowed (stage ms F) (apply_landlock landlock_error policy strip)
    (ok_post (λ _, stage (ms ++ [LandlockCall RestrictSelf]) (λ h, F h ∧ landlocked strip h))).
Proof.
  intros HF h [Ha Hf] Hl. unfold apply_landlock. destruct (apply_policy_advanced _ _ _ _ _ _ _ _ _ _ _ _) as [cs r] eqn:E.
  destruct (with_calls_lawful h cs Hl) as [Hp Hl']. split; [done|]. split; [done|]. destruct r as [[]|e]; [|done].
  cbn [ok_post]. assert (landlocked strip (with_calls h cs)) as Hlk by (exists h, cs; by split). apply apply_restricts in E as (pre & -> & Hk).
  split; [|split; [by eapply HF|done]]. rewrite with_calls_app. cbn [with_calls fold_left]. apply achieved_snoc.
  - eapply achieved_stable; [|exact Ha]. by apply with_calls_lawful.
  - unfold landlock_kernel in Hk. cbv zeta in Hk. unfold passed. cbn [fst snd].
    destruct (Z.ltb_spec (landlock_reply (with_calls h pre) RestrictSelf) 0); [done|]. by apply Z.leb_le.
Qed.

(** The filter of the policy is loaded. *)
Lemma filter_loaded ms F sp program :
  stable F → build_program_for_profile arch sp (seccomp_profile policy) = Some program →
  triple allowed (stage ms F) (install_for_profile arch sp (seccomp_profile policy))
    (ok_post (λ _, stage (ms ++ [NoNewPrivs; SetSeccomp program]) F)).
Proof.
  intros HF Hb. unfold install_for_profile, and_then. rewrite Hb.
  eapply triple_bind; [apply must_next; [done|intros; by apply own_allowed|done]|]. intros [[]|e]; [|by apply triple_ret].
  change [NoNewPrivs; SetSeccomp program] with ([NoNewPrivs] ++ [SetSeccomp program]). rewrite (assoc_L (++)).
  apply must_next; [done|intros; by apply own_allowed|done].
Qed.

(** No capability is left. *)
Definition cap_calls (observe : bool) : list Syscall := [SetSecurebits SECUREBITS; ClearAmbient; ClearCaps; SetDumpable (dumpable observe)].
Lemma capabilities_dropped ms F observe :
  stable F → triple allowed (stage ms F) (drop_agent_capabilities observe) (ok_post (λ _, stage (ms ++ cap_calls observe) F)).
Proof.
  intros HF. assert (∀ ks c msg, c ≠ Fork → own_call c = true →
    triple allowed (stage ks F) (must c msg) (ok_post (λ _, stage (ks ++ [c]) F))) as Hm.
  { intros ks c msg Hc Ho. apply must_next; [done|intros; by apply own_allowed|done]. }
  assert (∀ ks (a b : proc (result string unit)) ks1 R, triple allowed (stage ks F) a (ok_post (λ _, stage ks1 F)) →
    triple allowed (stage ks1 F) b (ok_post R) → triple allowed (stage ks F) (and_then a b) (ok_post R)) as Hseq.
  { intros ks a b ks1 R Ha Hb. unfold and_then. eapply triple_bind; [exact Ha|]. intros [[]|e]; [done|by apply triple_ret]. }
  unfold drop_agent_capabilities. eapply Hseq; [by apply Hm|]. eapply (Hseq _ _ _ (ms ++ [SetSecurebits SECUREBITS])).
  { eapply triple_post; [|apply keeps_each; intros c; unfold drop_bound; apply keeps_bind; [|intros; apply keeps_ret]].
    - intros [[]|e] h; [by intros|done].
    - apply keep_call; [by apply stage_stable|done]. }
  eapply Hseq; [by apply Hm|]. eapply Hseq; [by apply Hm|]. eapply triple_post; [|by apply Hm].
  intros [[]|e] h; [|done]. cbn [ok_post]. by rewrite <-!(assoc_L (++)).
Qed.

Context (confined : Log → Prop).
Hypothesis confined_stable : stable confined.
Hypothesis ready_allowed : ∀ h fd, confined h → allowed h (Write fd "R").
Hypothesis exec_allowed : ∀ h prog, confined h → head (agent_cmd opts) = Some prog →
  allowed h (Execve prog (agent_cmd opts) (agent_environment policy opts)).

Lemma exec_stops {A} P prog argv env (m : Z → proc A) Q :
  (∀ h, P h → allowed h (Execve prog argv env)) → (∀ r, triple allowed (λ _, True) (m r) Q) →
  triple allowed P (r ← sys (Execve prog argv env); if 0 <=? r then replace_image else m r) Q.
Proof.
  intros Hc Hm h HP Hl. unfold mbind, proc_bind, sys. cbv beta zeta. set (a := reply h (Execve prog argv env)). assert (lawful allowed (h ++ [(Execve prog argv env, a)])) as Hl' by (apply lawful_snoc; auto).
  destruct (Z.leb_spec 0 a).
  - split_and!; [by eexists|done|]. by eexists _, _, _.
  - specialize (Hm a _ I Hl'). destruct (m _ _) as [h' e]. destruct Hm as (Hp & ? & ?). split_and!; [|done|done]. etrans; [|exact Hp]. by eexists.
Qed.

(** The last step: the parent is told, and the agent runs or the process exits. *)
Lemma reports_and_execs {A} err (Q : A → Log → Prop) : triple allowed confined (report_and_exec err policy opts) Q.
Proof.
  unfold report_and_exec. eapply triple_bind with (R := λ _, confined).
  { unfold child_write_all. cbn [String.length write_rest is_empty]. apply keeps_bind; [apply keeps_sys; [done|by auto]|]. intros n.
    destruct (0 <? n); [cbn [write_rest]|]; apply keeps_ret. }
  intros ?. eapply triple_bind with (R := λ _, confined); [by apply keep_close_all|intros ?].
  unfold child_exec. destruct (existsb _ _); [apply stops_exit|]. destruct (agent_cmd opts) as [|prog args] eqn:Ec; [apply stops_exit|].
  eapply triple_bind with (R := λ _, confined).
  { case_bool_decide; [by apply triple_ret|]. apply keeps_bind; [by apply keep_call|]. intros r. destruct (r =? 0); [apply keeps_ret|apply stops_exit]. }
  intros ?. apply exec_stops; [|].
  - intros h Hh. by apply exec_allowed.
  - intros r. rewrite <-string_app_assoc. eapply triple_bind; [apply (keep_message (λ _, True) (stable_const True) 2)|]. intros ?. apply stops_exit.
Qed.
End ChildFacts.

(** ** Tier FULL: the agent runs confined *)

Definition private_calls : list Syscall := [Unshare NewUser; Unshare NewNs; root_private].
(** Calls that have passed, in this order, in the bloodline of an agent. *)
Definition full_calls (observe : bool) (program : list SockFilter) : list Syscall :=
  ((((((private_calls ++ [dev_shm_mount]) ++ [Unshare NewIpc]) ++ [Unshare NewNet]) ++ [Unshare NewPid]) ++ [Fork])
    ++ [LandlockCall RestrictSelf]) ++ [Fork] ++ cap_calls observe ++ [NoNewPrivs; SetSeccomp program].

Section Hiding.
Context `{Machine} (policy : Policy) (opts : SpawnOptions).
(** The secrets of the policy, those nobody may see, and the sockets. *)
Definition denied_masked (h : Log) : Prop := ∀ e, e ∈ deny_resolved policy → masked (deny_path e) (deny_is_dir e) h.
Definition secrets_hidden (h : Log) : Prop :=
  (∀ p, p ∈ mandatory_secrets child_home (Some (spawn_cwd opts)) → hidden p h)
  ∧ (∀ p, p ∈ get_dangerous_unix_sockets → hidden p h).
Definition sockets_hidden (h : Log) : Prop := ∀ p, p ∈ custom_socks policy opts → hidden p h.
Definition hides (h : Log) : Prop := (denied_masked h ∧ secrets_hidden h) ∧ sockets_hidden h.

Lemma each_hidden_stable (ps : list path) : stable (λ h, ∀ p, p ∈ ps → hidden p h).
Proof. intros h h' Hh Hp p Hin. eapply hidden_stable; [exact Hh|]. by apply Hp. Qed.
Lemma denied_stable : stable denied_masked.
Proof. intros h h' Hh Hp e He. eapply masked_stable; [exact Hh|]. by apply Hp. Qed.
Lemma hides_stable : stable hides.
Proof.
  apply stable_and; [apply stable_and; [apply denied_stable|]|apply each_hidden_stable].
  apply stable_and; apply each_hidden_stable.
Qed.
End Hiding.

Definition socket_policy_of (a : FullChildArgs) : SocketPolicy := match full_relay_port a with Some _ => UnixAndIp | None => UnixOnly end.

(** What holds of the bloodline when the agent is run in tier FULL. *)
Definition confined_full `{Machine} (a : FullChildArgs) (policy : Policy) (opts : SpawnOptions) (program : list SockFilter) (h : Log) : Prop :=
  achieved (full_calls (full_observe a) program) h
  ∧ ((hides policy opts h ∧ ∃ o, achieved [proc_mount o] h) ∧ landlocked policy false h) ∧ limited policy h.

Definition full_allowed `{Machine} (a : FullChildArgs) (policy : Policy) (opts : SpawnOptions) (program : list SockFilter)
    (h : Log) (c : Syscall) : Prop :=
  match c with
  | Mount _ _ _ _ _ => c = root_private ∧ achieved [Unshare NewUser; Unshare NewNs] h ∨ private_mounts h
  | Write _ t => t = "R" → confined_full a policy opts program h
  | Execve prog argv env =>
      head argv = Some prog ∧ argv = agent_cmd opts ∧ env = agent_environment policy opts ∧ confined_full a policy opts program h
  | _ => True
  end.

Section Full.
Context `{Machine} `{Libc} (arch : target_arch) (landlock_error : LandlockError → string).
Context (a : FullChildArgs) (policy : Policy) (opts : SpawnOptions) (program : list SockFilter).
Hypothesis built : build_program_for_profile arch (socket_policy_of a) (seccomp_profile policy) = Some program.

Local Abbreviation allow := (full_allowed a policy opts program).
Local Abbreviation always := (λ _ : Log, True).
Local Abbreviation goes P m Q := (triple allow P m (λ _, Q)).

Lemma full_own h c : own_call c = true → allow h c.
Proof. by destruct c; cbn. Qed.
Lemma full_write h fd t : t ≠ "R" → allow h (Write fd t).
Proof. by intros ? ?. Qed.
Lemma full_mount h s t f fl o : private_mounts h → allow h (Mount s t f fl o).
Proof. by right. Qed.
Lemma confined_full_stable : stable (confined_full a policy opts program).
Proof.
  apply stable_and; [apply achieved_stable|]. apply stable_and.
  - apply stable_and; [apply stable_and; [apply hides_stable|]|apply landlocked_stable].
    intros h h' Hh [o Ho]. exists o. by eapply achieved_stable.
  - intros h h' Hh Hl r v Hin. destruct (Hl r v Hin) as (l & ? & ?). exists l. split; [done|]. by eapply achieved_stable.
Qed.
Hint Resolve full_own full_write full_mount : core.

Lemma always_stable : stable always.
Proof. apply stable_const. Qed.
Hint Resolve always_stable hides_stable : core.

(** In a stage after the mounts became private, whatever keeps them private is harmless. *)
Lemma in_private {A} ks F (m : proc A) :
  stable F → keeps allow private_mounts m → keeps allow (stage (private_calls ++ ks) F) m.
Proof.
  intros HF. apply keeps_implied; [by apply stage_stable|]. intros h [Ha _]. by apply achieved_app_l in Ha.
Qed.
Lemma private_fail {A} ks F code what (m : proc (result string A)) :
  stable F → keeps allow private_mounts m → keeps allow (stage (private_calls ++ ks) F) (or_fail (err_w a) code what m).
Proof. intros HF Hm. apply or_fail_keeps; auto using in_private. Qed.
Lemma next_ns ms F code what ns : stable F → goes (stage ms F) (or_fail (err_w a) code what (unshare ns)) (stage (ms ++ [Unshare ns]) F).
Proof. intros HF. apply or_fail_ok; [auto..|]. apply must_next; [auto|auto|done]. Qed.

Lemma user_namespace_entered : goes (stage [] always) (enter_user_namespace a) (stage [Unshare NewUser] always).
Proof.
  pose proof (stage_stable [Unshare NewUser] always always_stable) as Hs.
  unfold enter_user_namespace. eapply triple_bind; [by apply (next_ns [])|intros ?]. cbn [app].
  apply keeps_bind; [apply keeps_look|]. intros pid. apply keeps_bind; [by apply keeps_sys_; auto|]. intros ?.
  apply keeps_bind; [by apply keep_call; auto|]. intros n. apply keeps_bind; [apply keeps_look|]. intros ack.
  destruct (_ || _); [apply stops_exit; auto|]. apply keeps_bind; [by apply keeps_sys_; auto|]. intros ?. by apply keeps_sys_; auto.
Qed.

Lemma dev_shm_isolated ks :
  triple allow (stage (private_calls ++ ks) always) isolate_dev_shm
    (ok_post (λ _, stage ((private_calls ++ ks) ++ [dev_shm_mount]) always)).
Proof.
  unfold isolate_dev_shm. cbv zeta. apply triple_look_bind. intros []; [|by apply triple_ret]. cbn [negb].
  apply triple_look_bind. intros []; [|by apply triple_ret]. cbn [negb].
  apply (triple_pre _ _ (stage (private_calls ++ ks) always)); [naive_solver|]. apply must_next; [done| |done].
  intros h [Ha _]. right. by apply achieved_app_l in Ha.
Qed.

Lemma mounts_rebuilt :
  goes (stage [Unshare NewUser] always) (rebuild_mounts a policy) (stage (private_calls ++ [dev_shm_mount]) always).
Proof.
  unfold rebuild_mounts. cbv zeta. eapply triple_bind; [by apply (next_ns [_])|intros ?]. cbn [app].
  eapply triple_bind with (R := λ _, stage (private_calls ++ []) always); [|intros ?].
  { apply or_fail_ok; [auto..|]. apply (must_next allow [Unshare NewUser; Unshare NewNs]); [done| |done].
    intros h [Ha _]. left. by split. }
  eapply triple_bind; [|intros ?].
  { destruct (_ || _); [apply private_fail; [auto|apply keep_cow_overlay; auto]|apply keeps_ret]. }
  eapply triple_bind; [apply or_fail_ok; [auto..|]; apply dev_shm_isolated|intros ?]. rewrite app_nil_r.
  assert (∀ code what m, keeps allow private_mounts m →
    keeps allow (stage (private_calls ++ [dev_shm_mount]) always) (or_fail (err_w a) code what m : proc unit)) as Hk
    by (intros; apply private_fail; auto).
  eapply triple_bind; [destruct (tmpfs_tmp policy); [apply Hk, keep_tmp; auto|apply keeps_ret]|intros ?].
  do 5 (eapply triple_bind; [apply Hk; solve [auto using keep_devpts, keep_sys_readonly, keep_proc_sys_readonly, keep_sensitive_proc,
    keep_ro_caches]|intros ?]). apply Hk, keep_restricted_devices; auto.
Qed.

Lemma relay_stops {A} P fd pid port (Q : A → Log → Prop) : stable P → triple allow P (child_relay fd pid port) Q.
Proof.
  intros HP. unfold child_relay. eapply triple_bind; [by apply keep_pdeathsig; auto|intros ?].
  eapply triple_bind; [by apply keep_close_all; auto|intros ?]. eapply triple_bind; [by apply keep_call; auto|intros devnull].
  destruct (devnull <? 0); [apply stops_exit; auto|]. eapply triple_bind.
  { unfold dup2_all. apply keeps_and_then; [|apply keeps_and_then]; by apply keep_dup2; auto. }
  intros [[]|e]; [|apply stops_exit; auto]. eapply triple_bind; [by apply keeps_sys_; auto|intros ?].
  intros h Hh Hl. cbn. split_and!; [by eexists|by apply lawful_snoc|]. by eexists _, _, _.
Qed.
Lemma relay_forked ks : keeps allow (stage (private_calls ++ ks) always) (fork_relay a).
Proof.
  pose proof (stage_stable (private_calls ++ ks) always always_stable) as Hs. unfold fork_relay.
  destruct (full_relay_port a) as [port|]; [|apply keeps_ret]. destruct (relay_end a) as [fd|]; [|apply stops_fail; auto].
  apply keeps_bind; [apply private_fail; [auto|apply keep_resolv_conf; auto]|]. intros ?. apply keeps_bind; [apply keeps_look|]. intros pid.
  apply keeps_bind; [by apply keep_call; auto|]. intros r. destruct (r <? 0); [apply stops_fail; auto|].
  destruct (r =? 0); [apply relay_stops; auto|by apply keeps_sys_; auto].
Qed.

(** In a private stage, what is established under private mounts is. *)
Lemma private_fact ks F G code what (m : proc (result string unit)) :
  stable F → triple allow private_mounts m (λ r h, private_mounts h ∧ (r = Ok tt → G h)) →
  goes (stage (private_calls ++ ks) F) (or_fail (err_w a) code what m) (stage (private_calls ++ ks) (λ h, F h ∧ G h)).
Proof.
  intros HF Hm. apply or_fail_ok; [auto..|]. apply (stage_fact allow private_mounts); [done| |done].
  intros h Ha. by apply achieved_app_l in Ha.
Qed.

Lemma secrets_masked ks : goes (stage (private_calls ++ ks) always) (mask_secrets a policy opts) (stage (private_calls ++ ks) (hides policy opts)).
Proof.
  unfold mask_secrets.
  eapply triple_bind with (R := λ _, stage (private_calls ++ ks) (denied_masked policy)); [|intros ?].
  { eapply triple_post; [|apply (each__establishes allow (stage (private_calls ++ ks) always) (λ e, masked (deny_path e) (deny_is_dir e)))].
    - by intros u h [[Ha _] Hm].
    - by apply stage_stable.
    - intros e. apply masked_stable.
    - intros e. eapply triple_post; [|apply private_fact; [done|apply mask_path_masked; auto]]. intros u h [Ha [_ Hm]]. by split. }
  pose proof (denied_stable policy) as H1.
  eapply triple_bind with (R := λ _, stage (private_calls ++ ks) (denied_masked policy)).
  { apply private_fail; [done|]. apply keep_dangerous_devices; auto. }
  intros ?. eapply triple_bind.
  { apply (private_fact ks _ (secrets_hidden opts)); [done|]. unfold secrets_hidden. apply mandatory_secrets_hidden; auto. }
  intros ?. assert (stable (λ h, denied_masked policy h ∧ secrets_hidden opts h)) as H2.
  { apply stable_and; [done|]. apply stable_and; apply each_hidden_stable. }
  case_bool_decide as Hd.
  - apply triple_ret. intros h [Ha Hf]. split; [done|]. split; [done|]. intros p Hp. unfold custom_socks in Hp. rewrite Hd in Hp.
    by apply elem_of_nil in Hp.
  - apply (private_fact ks _ (sockets_hidden policy opts)); [done|]. unfold mask_unix_sockets, sockets_hidden.
    apply each_establishes; [apply private_stable|apply hidden_stable|]. intros p. apply mask_file_if_exists_hides; auto.
Qed.

(** What is established before the agent is forked. *)
Local Abbreviation fenced := (λ h, (hides policy opts h ∧ ∃ o, achieved [proc_mount o] h) ∧ landlocked policy false h).
Lemma fenced_stable : stable fenced.
Proof.
  apply stable_and; [apply stable_and; [apply hides_stable|]|apply landlocked_stable].
  intros h h' Hh [o Ho]. exists o. by eapply achieved_stable.
Qed.
Hint Resolve fenced_stable : core.

Definition b_calls : list Syscall :=
  (((((private_calls ++ [dev_shm_mount]) ++ [Unshare NewIpc]) ++ [Unshare NewNet]) ++ [Unshare NewPid]) ++ [Fork]).
Definition c_calls : list Syscall := (b_calls ++ [LandlockCall RestrictSelf]) ++ [Fork].

Lemma agent_set_up b_pid Q :
  triple allow (stage c_calls fenced) (child_c arch a b_pid policy opts (socket_policy_of a) : proc unit) Q.
Proof.
  pose proof (stage_stable c_calls fenced fenced_stable) as Hs. unfold child_c.
  eapply triple_bind; [apply keep_pdeathsig; auto|intros ?]. eapply triple_bind; [apply keep_close_all; auto|intros ?].
  eapply triple_bind with (R := λ _, stage c_calls fenced); [|intros ?].
  { assert (keeps allow (stage c_calls fenced) (sys_ DefaultSignals)) as Hd by (apply keeps_sys_; auto).
    destruct (spawn_stdio opts); [|exact Hd|exact Hd]. apply keeps_bind; [apply keep_call; auto|]. intros r.
    destruct (r <? 0); [apply stops_fail; auto|apply keeps_ret]. }
  eapply triple_bind; [apply or_fail_keeps; [auto..|]; apply keep_stdio; auto|intros ?].
  eapply triple_bind; [apply or_fail_ok; [auto..|]; apply capabilities_dropped; auto|intros ?].
  eapply triple_bind; [apply ceilings_installed; auto|intros ?].
  assert (stable (λ h, fenced h ∧ limited policy h)) as Hf.
  { apply stable_and; [done|]. intros h h' Hh Hl r v Hin. destruct (Hl r v Hin) as (l & ? & ?). exists l. split; [done|]. by eapply achieved_stable. }
  eapply triple_bind; [apply keep_notify; auto using stage_stable|intros ?].
  eapply triple_bind; [apply or_fail_ok; [auto..|]; by apply (filter_loaded arch policy allow full_own _ _ _ program Hf built)|intros ?].
  eapply triple_pre; [|apply (reports_and_execs policy opts allow full_own full_write (confined_full a policy opts program))].
  - intros h [Ha [Hfe Hl]]. split; [|by split]. unfold full_calls, c_calls, b_calls in *. by rewrite <-!(assoc_L (++)) in *.
  - apply confined_full_stable.
  - by intros h fd Hh _.
  - by intros h prog Hh Hp.
Qed.

Lemma supervised fuel : triple allow (stage b_calls (hides policy opts)) (child_b arch landlock_error fuel a policy opts (socket_policy_of a)) (λ _ _, False).
Proof.
  pose proof (stage_stable b_calls (hides policy opts) (hides_stable policy opts)) as Hs. unfold child_b.
  eapply triple_bind; [apply keep_call; auto|intros d].
  eapply triple_bind; [destruct (negb _); [apply stops_exit; auto|apply keeps_ret]|intros ?].
  eapply triple_bind with (R := λ _, stage b_calls (λ h, hides policy opts h ∧ ∃ o, achieved [proc_mount o] h)).
  { apply or_fail_ok; [auto..|]. eapply triple_pre; [|eapply triple_post; [|apply (triple_keeps allow private_mounts _ mount_restricted_proc
      (λ r h, private_mounts h ∧ (is_ok r = true → ∃ o, achieved [proc_mount o] h)) Hs);
      apply restricted_proc_mounted; auto]].
    - intros h [Ha Hh]. split; [|done]. unfold b_calls in Ha. rewrite <-!(assoc_L (++)) in Ha. by apply achieved_app_l in Ha.
    - intros [v|e] h [[_ Ho] [Ha Hh]]; [|done]. split; [done|]. split; [done|by apply Ho]. }
  intros v. assert (stable (λ h, hides policy opts h ∧ ∃ o, achieved [proc_mount o] h)) as Hp.
  { apply stable_and; [auto|]. intros h h' Hh [o Ho]. exists o. by eapply achieved_stable. }
  eapply triple_bind; [|intros ?].
  { destruct v; [apply keeps_ret|]. apply keep_message; auto using stage_stable. }
  eapply triple_bind; [apply or_fail_ok; [auto..|]; apply landlock_applied; auto|intros ?].
  pose proof (stage_stable (b_calls ++ [LandlockCall RestrictSelf]) fenced fenced_stable) as Hs2.
  eapply triple_bind; [apply keep_close_all; auto|intros ?].
  eapply triple_bind; [apply keeps_look|intros b_pid]. apply fork_next; [done|auto|apply stops_fail; auto|apply agent_set_up|intros c_pid].
  eapply triple_bind; [destruct (notif_child a); [apply keeps_sys_; auto|apply keeps_ret]|intros ?].
  eapply triple_bind; [unfold close_stdio_fds; apply keeps_each_; intros; apply keeps_sys_; auto|intros ?].
  apply supervise_stops; auto.
Qed.

Lemma helper_stops fuel : triple allow always (child_full arch landlock_error fuel a policy opts) (λ _ _, False).
Proof.
  apply (triple_pre _ _ (stage [] always)); [intros h _; split; [apply achieved_nil|done]|].
  pose proof (stage_stable [] always always_stable) as Hs0. unfold child_full.
  eapply triple_bind; [apply keep_close_all; auto|intros ?]. eapply triple_bind; [apply keep_pdeathsig; auto|intros ?].
  eapply triple_bind with (R := λ _, stage [] always); [|intros ?].
  { destruct (spawn_stdio opts); [apply keeps_ret| |]; (apply keeps_bind; [apply keeps_sys_; auto|intros ?; apply keeps_sys_; auto]). }
  eapply triple_bind; [apply user_namespace_entered|intros ?]. eapply triple_bind; [apply mounts_rebuilt|intros ?].
  eapply triple_bind; [by apply next_ns|intros ?]. eapply triple_bind; [by apply next_ns|intros ?].
  eapply triple_bind; [rewrite <-!(assoc_L (++)); apply relay_forked|intros ?]. rewrite !(assoc_L (++)).
  eapply triple_bind; [by apply next_ns|intros ?].
  eapply triple_bind; [rewrite <-!(assoc_L (++)); apply secrets_masked|intros ?]. rewrite !(assoc_L (++)). cbv zeta.
  apply fork_next; [apply hides_stable|auto|apply stops_fail; auto|apply supervised|intros b].
  match goal with |- triple _ (stage ?ms _) _ _ => pose proof (stage_stable ms (hides policy opts) (hides_stable policy opts)) as Hs end.
  eapply triple_bind; [apply keep_close_all; auto|intros ?]. eapply triple_bind; [apply keep_call; auto|intros r].
  eapply triple_bind; [apply keeps_look|intros status]. apply stops_exit; auto.
Qed.
End Full.


(** ** Tiers FS-ONLY and SECCOMP *)

Definition single_calls (fs_only : bool) (program : list SockFilter) : list Syscall :=
  (if fs_only then [LandlockCall RestrictSelf] else []) ++ [NoNewPrivs; SetSeccomp program].
Definition confined_single `{Machine} (fs_only : bool) (policy : Policy) (program : list SockFilter) (h : Log) : Prop :=
  achieved (single_calls fs_only program) h ∧ limited policy h ∧ (fs_only = true → landlocked policy true h).
Definition single_allowed `{Machine} (fs_only : bool) (policy : Policy) (opts : SpawnOptions) (program : list SockFilter)
    (h : Log) (c : Syscall) : Prop :=
  match c with
  | Mount _ _ _ _ _ => False
  | Write _ t => t = "R" → confined_single fs_only policy program h
  | Execve prog argv env =>
      argv = agent_cmd opts ∧ env = agent_environment policy opts ∧ confined_single fs_only policy program h
  | _ => True
  end.
Definition single_child `{Machine} `{Libc} (arch : target_arch) (landlock_error : LandlockError → string) (fs_only : bool)
    (a : FsChildArgs) (policy : Policy) (opts : SpawnOptions) : proc unit :=
  if fs_only then child_fs_only arch landlock_error a policy opts else child_seccomp_only arch a policy opts.

Section Single.
Context `{Machine} `{Libc} (arch : target_arch) (landlock_error : LandlockError → string).
Context (a : FsChildArgs) (policy : Policy) (opts : SpawnOptions) (program : list SockFilter) (fs_only : bool).
Hypothesis built : build_program_for_profile arch UnixOnly (seccomp_profile policy) = Some program.

Local Abbreviation allow := (single_allowed fs_only policy opts program).
Lemma single_own h c : own_call c = true → allow h c.
Proof. by destruct c; cbn. Qed.
Lemma single_write h fd t : t ≠ "R" → allow h (Write fd t).
Proof. by intros ? ?. Qed.
Hint Resolve single_own single_write : core.
Lemma limited_stable : stable (limited policy).
Proof. intros h h' Hh Hl r v Hin. destruct (Hl r v Hin) as (l & ? & ?). exists l. split; [done|]. by eapply achieved_stable. Qed.
Lemma confined_single_stable : stable (confined_single fs_only policy program).
Proof.
  apply stable_and; [apply achieved_stable|]. apply stable_and; [apply limited_stable|].
  intros h h' Hh Hl Hf. eapply landlocked_stable; [done|by apply Hl].
Qed.

Lemma prologue_done :
  triple allow (λ _, True) (single_fork_prologue a policy opts) (λ _, stage [] (λ h, True ∧ limited policy h)).
Proof.
  pose proof (stage_stable [] (λ _, True) (stable_const True)) as Hs. pose proof (stable_const True) as Hc.
  apply (triple_pre _ _ (stage [] (λ _, True))); [intros h _; split; [apply achieved_nil|done]|]. unfold single_fork_prologue.
  eapply triple_bind; [apply keep_close_all; auto|intros ?]. eapply triple_bind; [apply keep_pdeathsig; auto|intros ?].
  unfold install_child_session_and_ceilings. eapply triple_bind with (R := λ _, stage [] (λ _, True)); [|intros ?; apply ceilings_installed; auto].
  destruct (spawn_stdio opts); (apply keeps_bind; [apply keep_call; auto|intros r]); (destruct (r <? 0); [apply stops_fail; auto|]);
    first [apply keeps_ret|apply keeps_sys_; auto].
Qed.

Lemma epilogue_stops P Q :
  stable P → (∀ h, P h → confined_single fs_only policy program h) → triple allow P (single_fork_epilogue a policy opts) Q.
Proof.
  intros HP Hc. unfold single_fork_epilogue. eapply triple_bind; [apply keep_notify; auto|intros ?].
  eapply triple_bind; [apply or_fail_keeps; [auto..|]; apply keep_stdio; auto|intros ?].
  eapply triple_bind with (R := λ _, P); [|intros ?].
  { case_bool_decide; [apply keeps_ret|]. apply keeps_bind; [apply keep_call; auto|]. intros r.
    destruct (r =? 0); [apply keeps_ret|apply stops_fail; auto]. }
  eapply triple_pre; [exact Hc|]. apply (reports_and_execs policy opts allow single_own single_write).
  - apply confined_single_stable.
  - by intros h fd Hh _.
  - by intros h prog Hh _.
Qed.

Lemma fs_only_stops :
  fs_only = true → fa_net_off a = true → triple allow (λ _, True) (child_fs_only arch landlock_error a policy opts) (λ _ _, False).
Proof.
  intros Hf Hoff. pose proof (stable_and _ _ (stable_const True) limited_stable) as Hl. unfold child_fs_only.
  eapply triple_bind; [apply prologue_done|intros ?].
  eapply triple_bind; [apply or_fail_ok; [auto..|]; apply landlock_applied; auto|intros ?]. rewrite Hoff.
  pose proof (stable_and _ _ Hl (landlocked_stable policy true)) as Hll.
  eapply triple_bind; [apply or_fail_ok; [auto..|]; by apply (filter_loaded arch policy allow single_own _ _ _ program Hll built)|intros ?].
  apply epilogue_stops; [by apply stage_stable|]. intros h [Ha [[_ ?] ?]]. unfold confined_single, single_calls. by rewrite Hf.
Qed.
Lemma seccomp_stops :
  fs_only = false → triple allow (λ _, True) (child_seccomp_only arch a policy opts) (λ _ _, False).
Proof.
  intros Hf. pose proof (stable_and _ _ (stable_const True) limited_stable) as Hl. unfold child_seccomp_only.
  eapply triple_bind; [apply prologue_done|intros ?].
  eapply triple_bind; [apply or_fail_ok; [auto..|]; by apply (filter_loaded arch policy allow single_own _ _ _ program Hl built)|intros ?].
  apply epilogue_stops; [by apply stage_stable|]. intros h [Ha [_ ?]]. unfold confined_single, single_calls. by rewrite Hf.
Qed.
Lemma single_stops :
  fa_net_off a = true → triple allow (λ _, True) (single_child arch landlock_error fs_only a policy opts) (λ _ _, False).
Proof.
  intros Hoff. pose proof (λ Hf, fs_only_stops Hf Hoff) as H1. pose proof seccomp_stops as H2. unfold single_child.
  revert H1 H2. by destruct fs_only; intros H1 H2; [apply H1|apply H2].
Qed.
End Single.

(** The single-fork tiers run the agent confined or not at all: the child ends by an
    exit of 125 or by a successful [execve]; and when it becomes the agent, and when it says
    so, the policy's limits hold, in tier FS-ONLY Landlock is in force for the policy (with
    reads stripped from write roots), and the filter that blocks the network is loaded. *)
Theorem single_fork_confined `{Machine} `{Libc} arch landlock_error fs_only a policy opts program h e :
  build_program_for_profile arch UnixOnly (seccomp_profile policy) = Some program → fa_net_off a = true →
  single_child arch landlock_error fs_only a policy opts [] = (h, e) →
  (e = Running ∨ e = Gone ∧ final h)
  ∧ (∀ h1 prog argv env n h2, h = h1 ++ (Execve prog argv env, n) :: h2 →
      argv = agent_cmd opts ∧ env = agent_environment policy opts ∧ confined_single fs_only policy program h1)
  ∧ (∀ h1 fd n h2, h = h1 ++ (Write fd "R", n) :: h2 → confined_single fs_only policy program h1)
  ∧ (∀ h1 s t f fl o n h2, h ≠ h1 ++ (Mount s t f fl o, n) :: h2).
Proof.
  intros Hb Hoff E. pose proof (single_stops arch landlock_error a policy opts program fs_only Hb Hoff [] I (lawful_nil _)) as Ht.
  rewrite E in Ht. destruct Ht as (_ & Hl & He). split_and!.
  - destruct e as [u| |]; [done|by right|by left].
  - intros h1 prog argv env n h2 Eh. by apply (Hl _ _ _ _ Eh).
  - intros h1 fd n h2 Eh. by apply (Hl _ _ _ _ Eh).
  - intros h1 s t f fl o n h2 Eh. by apply (Hl _ _ _ _ Eh).
Qed.

(** ** The supervisor *)

Lemma reap_ready_gone `{Machine} fuel c code h h' :
  reap_ready fuel c code h = (h', Gone) →
  ∃ h1 n x, h' = h1 ++ [(Waitpid (-1) false, n); (Exit EXIT_FAIL_CLOSED, x)] ∧ n < 0.
Proof.
  revert code h. induction fuel as [|fuel IH]; intros code h; [done|]. cbn [reap_ready]. unfold mbind, proc_bind, sys at 1.
  set (r := reply h (Waitpid (-1) false)). destruct (r =? c).
  - cbn. set (h1 := (_ ++ _) ++ _). destruct (0 <=? _); cbn; apply IH.
  - destruct (0 <? r); [apply IH|]. destruct (Z.ltb_spec r 0); cbn [andb]; [|done]. destruct (r =? - ECHILD); [|done].
    cbn. intros [= <-]. exists h, r. eexists. rewrite <-app_assoc. by split.
Qed.

(** ** A kernel that grants everything

    With it the agent is run: the theorems are not about processes that always exit. *)

Definition demo_reply (h : Log) (c : Syscall) : Z :=
  match c with Getppid => 7 | ReadByte _ => 1 | _ => 0 end.
#[local] Instance demo_machine : Machine := {|
  reply := demo_reply; buffer := λ _, 0; buffer2 := λ _, 0;
  fs_exists := λ _ _, true; fs_is_dir := λ _ p, bool_decide (p = at_path "/dev/shm"); fs_present := λ _ _, true;
  fs_is_link := λ _ _, false; fs_names := λ _ _, []; fs_open := λ _ _, Ok false; fd_is_dir := λ _ _, false;
  hard_limit := λ _ _, Ok 4096; os_error := to_dec; abi_version := λ _, Some 4; environ := {["HOME" := "/home/u"]};
  uid := 1000; temp_dir := at_path "/tmp"; process_id := λ _, 7; clock_ms := λ _, 0;
|}.
Definition demo_child_policy : Policy := {|
  policy_name := "demo"; metadata := default_metadata; limits := mk_limits None None None (Some 256) None None;
  allow_write := [at_path "/p"]; allow_read := []; deny_write := []; deny_read := [];
  deny_resolved := [mk_deny (at_path "/p/key") false]; environment := default_env; deny_network := true;
  network_mode := None; network_allow := []; allow_cidr := []; net_quota := ∅;
  net_bind_ports := []; net_connect_ports := []; allow_unix_sockets := [];
  deny_unix_sockets := ["~/agent.sock"]; seccomp_profile := DefaultProfile; seccomp_notify := None;
  cgroup := None; cpu_max := None; io_priority := None; dev_allow := None;
  oslog := false; lpac := false; is_immutable := false; system_log := false;
  auto_deny_secrets := false; secret_proxies := []; ro_mounts := [];
  git_guard := false; snapshot := false; read_only_caches := false; shadow := false;
  tmpfs_tmp := true; warnings := [] |}.
Definition demo_child_options : SpawnOptions := mk_spawn_options ["/bin/agent"; "run"] (at_path "/p") ∅ Inherit.
Definition demo_full_args : FullChildArgs := mk_full_args 7 3 4 5 6 None None None false.
Definition demo_single_args : FsChildArgs := mk_fs_args 7 3 None false true.

(** The images the log loads. *)
Definition loaded (h : Log) : list (list string) :=
  omap (λ e : Syscall * Z, match e.1 with Execve _ argv _ => Some argv | _ => None end) h.
Definition demo_full_run : Log * ending unit :=
  child_full (H0 := x86_64_libc) X86_64 (λ _, "") 5 demo_full_args demo_child_policy demo_child_options [].
Definition demo_single_run (fs_only : bool) : Log * ending unit :=
  single_child (H0 := x86_64_libc) X86_64 (λ _, "") fs_only demo_single_args demo_child_policy demo_child_options [].
Definition is_gone {A} (e : ending A) : bool := match e with Gone => true | _ => false end.

(** The masks under [/proc] are made before the private [/proc] is mounted over them, and
    only [/proc/sys] is made read-only again. *)
Definition mounts_on (p : path) (e : Syscall * Z) : bool :=
  match e.1 with Mount _ t _ _ _ => bool_decide (t = p) | _ => false end.
Fixpoint split_at {A} (f : A → bool) (l : list A) : list A * list A :=
  match l with
  | [] => ([], [])
  | x :: l => if f x then ([], x :: l) else let '(l1, l2) := split_at f l in (x :: l1, l2)
  end.
Lemma proc_masks_are_covered :
  let '(before, after) := split_at (mounts_on (at_path "/proc")) demo_full_run.1 in
  Forall (λ p, existsb (mounts_on p) before = true ∧ existsb (mounts_on p) after = false)
    (at_path <$> ["/proc/kcore"; "/proc/kallsyms"; "/proc/sysrq-trigger"; "/proc/sched_debug"; "/proc/timer_list"])
  ∧ existsb (mounts_on (at_path "/proc")) after = true ∧ existsb (mounts_on (at_path "/proc/sys")) after = false.
Proof. vm_compute. repeat constructor. Qed.

Lemma close_all_exact_witness : in_ranges 4 (close_ranges 3 (sort_fds ([0; 1; 2] ++ [7; 5]))).
Proof. apply close_all_exact; [repeat constructor; unfold u32_max; lia|]. split; [unfold u32_max; lia|]. by rewrite !elem_of_cons, elem_of_nil; lia. Defined.


Lemma single_fork_confined_witness :
  is_gone (demo_single_run true).2 = true ∧ loaded (demo_single_run true).1 = [["/bin/agent"; "run"]]
  ∧ ∃ program, build_program_for_profile (H := x86_64_libc) X86_64 UnixOnly DefaultProfile = Some program
    ∧ ∀ h1 prog argv env n h2, (demo_single_run true).1 = h1 ++ (Execve prog argv env, n) :: h2 →
        confined_single true demo_child_policy program h1.
Proof.
  split; [by vm_compute|]. split; [by vm_compute|].
  destruct (build_program_for_profile (H := x86_64_libc) X86_64 UnixOnly DefaultProfile) as [program|] eqn:E;
    [|vm_compute in E; discriminate E].
  exists program. split; [done|].
  destruct (@single_fork_confined demo_machine x86_64_libc X86_64 (λ _, "") true demo_single_args demo_child_policy demo_child_options program
    (demo_single_run true).1 (demo_single_run true).2 E eq_refl (surjective_pairing _)) as (_ & He & _).
  intros h1 prog argv env n h2 Eh. by apply (He h1 prog argv env n h2).
Defined.
